(* ===== verification/_CoqProject ===== *)
-Q . S2P
Prelude.v
JsString.v
JsValue.v
Blocks.v
Graph.v
History.v
Layout.v
Format.v
Policy.v
IvrTypes.v
Summary.v
Hours.v
Effects.v
Compile.v
CompileOk.v
Transcript.v
FlowState.v
Store.v
StoreOk.v
StoreRun.v
UnionFind.v
Homer.v
CallGrouping.v
CallGroupingOk.v
LadderOrder.v
IvrError.v
Autosave.v
AutosaveOk.v
ContentOk.v
Analysis.v
AnalysisOk.v
Publish.v
PublishOk.v
Wav.v
WavOk.v
Csv.v
Ip.v
Phone.v
Assist.v
AssistOk.v
Conversation.v
Assistant.v
AssistantOk.v
Double.v
SipText.v
SipInfo.v
SipOk.v
LadderRows.v
LadderLayout.v
CausalOk.v
LadderOk.v
HandoffOk.v
LadderGrid.v
Number.v
Hints.v
HintsOk.v
Quality.v
QualityOk.v
ApiClient.v
Recorder.v
Capture.v
CaptureOk.v
Session.v
SessionOk.v
Routes.v
RoutesOk.v
Snippets.v
Player.v
PlayerOk.v
Intake.v
IntakeServer.v
IntakeOk.v
IntakeText.v
IntakeAgree.v
Select.v
SelectOk.v
Toast.v
Trace.v
TraceOk.v
AccountNumbers.v
