(* ===== verification/Prelude.v ===== *)
(** * custom-voip portal: verification of the browser-side core

    The repository is a telephony platform: Kamailio and FreeSWITCH carry the
    calls, a Python service holds the data, and a TypeScript portal
    ([src/docker/ui/app/src/]; paths below are relative to it) is where
    customers build call flows, read call traces and manage their numbers.
    This library models the portal's own logic, the code that decides
    something, and leaves aside React's rendering around it.

    ** Parts and files

    The IVR builder.  A draft is JSON the server stores; the builder edits a
    working graph of it, saves it, compiles it, and may have an assistant
    write one.
    - [Blocks] ([flow/model/blocks.ts]), [IvrTypes] ([types/ivr.ts]): the
      block catalog with each block's exits, and the typed configs read from
      JSON the way the code's casts do.
    - [Graph] ([flow/model/graph.ts]): [fromGraph] and [toGraph].
    - [History], [Layout], [Summary] ([flow/model/]): undo and redo, tidy up,
      one-line summaries.
    - [Policy] ([flow/compile/policy.ts]), [Hours], [Effects],
      [Compile], [Transcript] ([flow/compile/ivr.ts]): the compiler that
      validates a draft and previews the executor's plan.  [Effects] is its
      monad of state and exceptions, and the stack search it shares
      with the store.  [CompileOk] has what an accepted draft promises.
    - [FlowState], [Store] ([flow/store/flowStore.ts]): the builder's state
      and one function per action; [StoreOk] the invariant and the theorems,
      [StoreRun] a concrete session for the witnesses.
    - [IvrError] ([pages/ivr/ivrData.ts]), [Autosave] ([flow/useAutosave.ts]):
      the autosave loop around the store; [AutosaveOk].
    - [ContentOk], [Analysis] ([flow/useFlowAnalysis.ts]): the check that
      runs beside the canvas, and the drafts it tells apart; [AnalysisOk].
    - [Publish] ([flow/panels/PublishPanel.tsx]): going live from the draft
      on screen, against a server that keeps drafts by revision;
      [PublishOk].
    - [Assist] ([flow/assist/model.ts]), [Conversation]
      ([flow/assist/conversation.ts]), [Assistant]
      ([flow/assist/useFlowAssistant.ts]): the Flow assistant; [AssistOk],
      [AssistantOk].

    Troubleshooting.
    - [Homer] ([api/homer.ts]), [UnionFind], [CallGrouping]
      ([pages/troubleshooting/callGrouping.ts]): SIP messages grouped into
      calls; [CallGroupingOk].
    - [LadderOrder] ([components/sip-ladder/ladderOrder.ts]): the order of
      the columns of a SIP ladder.
    - [SipText], [SipInfo] ([components/sip-ladder/sipUtils.ts]): the parser
      of raw SIP messages and their SDP; [SipOk].  [Hints]: the private and
      container addresses, and the fourteen checks that make the
      troubleshooting hints of a message; [HintsOk].
    - [LadderRows] ([sipLadderUtils.ts]), [LadderLayout]
      ([sipLadderLayout.ts]): the order of the rows, the legs, the columns,
      the arrows and the inferred handoffs.  [CausalOk] is about the order of
      the rows, [LadderOk] about retransmissions, directions and legs,
      [HandoffOk] about the handoffs, [LadderGrid] about the whole layout,
      with a recorded call for the witnesses.
    - [Trace] ([pages/TroubleshootingPage.tsx],
      [pages/troubleshooting/callDisplay.ts]): what is typed into the trace
      search, the request and what the API reads from it, the pages and their
      cursors, the table and what a row shows; [TraceOk].
    - [Quality] ([pages/calls/quality.ts]): the grade of a call, the summary
      of a page of calls; [QualityOk].

    Voicemail.
    - [Recorder] ([pages/voicemail/audio/recorder.ts], [audio/transcode.ts]
      and the buffer functions of [audio/wav.ts]): the samples of a take, and
      a clip or file made into a greeting.
    - [Capture] ([pages/voicemail/useAudioCapture.ts]): record or upload, as a
      state machine over takes, conversions, microphones and preview URLs;
      [CaptureOk].
    - [Player] ([pages/voicemail/useAudioPlayer.ts]): the player of messages
      and greetings and its short-lived URLs; [PlayerOk].
    - [Snippets] ([pages/voicemail/voicemailData.ts]): the queue that batches
      transcript snippets, and the polling of a transcript.

    Sessions and pages.
    - [Session] ([contexts/AuthContext.tsx]): who is signed in, and what the
      query cache holds of which account; [SessionOk].
    - [Routes] ([App.tsx], [components/auth/], [utils/productHome.ts]): where
      every location leads a session; [RoutesOk].
    - [Select] ([components/ui/Select.tsx]): the dropdown of every list, its
      filter, keyboard, type-ahead and the place of its menu; [SelectOk].
    - [Toast] ([components/ui/ToastContext.tsx]): the toasts and their timers.
    - [AccountNumbers] ([config/products.ts], [pages/dashboard/accountData.ts],
      [pages/rcf/DidManagement.tsx], [components/layout/kit/useShowMore.ts]):
      the numbers of an account, counted, merged, filtered and cut short.

    The intake form.
    - [Intake] ([pages/landing/RequestAccessSection.tsx],
      [types/onboarding.ts]): the form, its checks, the request and the
      refusals put back on the fields.  [IntakeServer] is what the API checks
      ([docker/api/src/routers/onboarding.py], [utils/phone.py]).  [IntakeOk]
      is about the page, [IntakeText] about texts both ends read,
      [IntakeAgree] about the two together.

    The server.
    - [ApiClient] ([api/client.ts]): the requests the clients send and what
      each does with every answer.

    Files and numbers.
    - [Wav] ([pages/voicemail/audio/wav.ts]), [Csv] ([utils/csv.ts]), [Ip]
      ([utils/ip.ts]), [Phone] ([utils/phone.ts]), [Format]
      ([utils/format.ts]); [WavOk].

    [JsString] and [JsValue] are the strings and values of the language,
    [Number] its reading of a number in a string, [Double] the rounding of
    its arithmetic, and this file the notations, tactics and list lemmas
    everything shares.

    ** How code and model correspond

    A function of the source is a function of the same name, or of the name
    of the loop body or branch it stands for.  An object used as a map is an
    association list in insertion order ([om_get], [om_set]).  State is a
    record, an action a function on it ([Store.act], [Autosave], [Assistant.handle]);
    a React hook is a state machine whose events are what its handlers,
    timers, and awaited promises see, one handler up to its next [await]
    being one step.  What throws returns a sum or an option.

    Loops that the source ends on a condition run on fuel, and a theorem says
    the fuel is enough: [tidyLayout] one unit per block
    ([Layout.tidyLayout_places]), the Go to chains of the compiler one per
    block and its reachability search one per edge and block
    ([Compile.compileIvr_total]), the search of the store
    ([Effects.search_total]), [find] of the union-find one per entry
    ([UnionFind.find_root_of]), the rounds that place ladder participants one
    per participant ([LadderOrder.place_rounds_done]), the chunks of a WAV
    file one per byte ([WavOk.parseWav_sound]), the batches of snippets one
    per message ([Snippets.snippets_settle]), the redirects of a location
    four ([RoutesOk.redirects_settle]).

    Parameters: the ids of [nanoid] ([Graph.IdSupply], distinct where a
    theorem needs it), React Flow's [applyNodeChanges] and [applyEdgeChanges]
    ([Store.ReactFlow], with the documented laws [StoreOk.ReactFlowLaws]),
    and [localeCompare] ([CallGrouping.Locale]); of the API, Python's
    [ipaddress] with its documented laws ([IntakeText.IpaddressLaws]) and
    Pydantic's messages; the browser's local clock ([Trace.LocalTime]).  The
    witnesses instantiate them.

    ** What the theorems show

    - The compiler always answers on known blocks; the plan of a draft it
      accepts is closed, within the executor's bounds, and covers exactly
      what a caller can reach, by a relation of its own
      ([CompileOk.caller_step]); the transcript describes all of it.
    - Every state the builder can reach keeps its invariants; saving and
      loading a draft gives it back; no edit goes unnoticed by autosave; undo
      is a timeline with a running burst, stated apart from the code
      ([History.spec_step]); tidy up ends and no cards overlap.
    - What autosave calls saved is what the server has, but after a draft was
      loaded over a PUT the server then takes; no foreign change is
      overwritten unseen; and it makes progress while the reads that resolve a
      conflict succeed.
    - Findings are shown about the canvas's own draft, a draft left alone
      gets its check, and what goes live is what was shown and checked, for a
      customer who presses Publish on a finished check of the canvas.
    - The assistant's panel and the canvas agree; nothing changes before
      Accept; Accept makes each message once and draws the flow that was
      shown; a job always ends.
    - Grouping is the partition by links; the result shown is the caller's;
      the ladder's bookends are where the topology puts them.
    - A SIP request is read back in every field as it was written, under
      names and values stated apart from the parser; no hint is an error
      exactly when the message is sound; internal addresses are the reserved
      blocks.
    - Every message of a trace gets one row in an order that keeps requests
      above their answers, every arrow but a hairpin joins two columns of the
      layout when the trace names anybody, and the handoffs drawn between the
      legs are exactly the called for ones, each beside its row.
    - The summary of a page of calls counts every call once, on doubles.
    - A live microphone is shown or being let go, but for one whose audio
      context could not be made, and a take is what was delivered, up to the
      limit; a URL is minted for a press or one recovery, and a press that
      stops pauses the element and is final.
    - The user shown is the one of the token in use, a page is shown from the
      cache what the server would answer its own request with, and signing
      out is final; redirects end on a page the session may see.
    - Of a request typed in ASCII that the page sends, the API refuses exactly
      what the page leaves to it, and the refusal marks the fields at fault; the
      high-volume switch is the customer's choice or locked on; the two ends
      canonicalise numbers alike.
    - Every snippet asked for is settled once; polling a transcript stops.
    - The hint under the trace search is what the API searches by, or refuses
      for its window alone, and every page is a page of the search that was
      committed, cut where the page before it said.
    - A dropdown hands over enabled options on show only, and the keyboard
      reaches every one of them; toasts left alone go; every number of an
      account has one row.
    - The five clients fail alike, and only a 401 touches the session.
    - The WAV and CSV writers are read back, the WAV reader never leaves its
      buffer, the address and number checks accept exactly their grammars.

    Lemmas of the form [..._throws], [..._refused], [..._loses_...], [..._missed] show
    where the code does not do what it says.

    ** What is not modelled

    React components and the DOM, the endpoint wrappers of [api/], the React
    Query cache, and the other languages of the repository but for the
    models of the intake request and of a trace search up to its lookup (the
    limits ClickHouse may put on the lookup come after).  Within the
    modelled files: money formatting and audio resampling, whose doubles
    round; [toUpperCase] and white space beyond ASCII and the code points the
    platform trims; objects whose keys are names of [Object.prototype].
    Web Audio, [fetch] and the media element are the browser's: what they
    answer are events or arguments.
 *)
From stdpp Require Export prelude strings gmap list sorting.
From Stdlib Require Export ZArith Lia.

(** ** Notations *)

Declare Scope js_scope.
Delimit Scope js_scope with js.

(** Strict equality on values with decidable equality. *)
Notation "a ==? b" := (bool_decide (a = b)) (at level 70, no associativity) : js_scope.
Notation "a !=? b" := (negb (bool_decide (a = b))) (at level 70, no associativity) : js_scope.
#[global] Open Scope js_scope.

(** ** Hint databases *)

Create HintDb voip discriminated.

(** ** Tactics *)

(** Splits boolean connectives and decision procedures met in hypotheses. *)
Ltac bool_hyps :=
  repeat match goal with
  | H : _ && _ = true |- _ => apply andb_true_iff in H; destruct H
  | H : _ || _ = false |- _ => apply orb_false_iff in H; destruct H
  | H : negb _ = true |- _ => apply negb_true_iff in H
  | H : negb _ = false |- _ => apply negb_false_iff in H
  | H : bool_decide _ = true |- _ => apply bool_decide_eq_true in H
  | H : bool_decide _ = false |- _ => apply bool_decide_eq_false in H
  | H : (_ <? _)%Z = true |- _ => apply Z.ltb_lt in H
  | H : (_ <? _)%Z = false |- _ => apply Z.ltb_ge in H
  | H : (_ <=? _)%Z = true |- _ => apply Z.leb_le in H
  | H : (_ <=? _)%Z = false |- _ => apply Z.leb_gt in H
  | H : (_ =? _)%Z = true |- _ => apply Z.eqb_eq in H
  | H : (_ =? _)%Z = false |- _ => apply Z.eqb_neq in H
  end.

(** Case analysis on every [match] or [if] of the goal. *)
Ltac case_all := repeat (case_match; simplify_eq/=; try done).

(** ** Lists *)

Lemma elem_of_lmap {A B} (g : A → B) (l : list A) y :
  y ∈ List.map g l ↔ ∃ x, y = g x ∧ x ∈ l.
Proof. apply (list_elem_of_fmap g l y). Qed.

Section lists.
Context {A B : Type}.
Implicit Types (l : list A) (f : A → bool).

Lemma elem_of_lfilter f l x : x ∈ List.filter f l ↔ x ∈ l ∧ f x = true.
Proof. rewrite !list_elem_of_In. apply filter_In. Qed.

Lemma lfilter_all f l : (∀ x, x ∈ l → f x = true) → List.filter f l = l.
Proof.
  induction l as [|x l IH]; simpl; [done|]. intros H.
  rewrite (H x) by set_solver. rewrite IH; [done|set_solver].
Qed.

Lemma lfilter_none f l : (∀ x, x ∈ l → f x = false) → List.filter f l = [].
Proof.
  induction l as [|x l IH]; simpl; [done|]. intros H.
  rewrite (H x) by set_solver. apply IH. set_solver.
Qed.

Lemma lfilter_length_le f g l :
  (∀ x, f x = true → g x = true) → length (List.filter f l) ≤ length (List.filter g l).
Proof.
  intros Hfg. induction l as [|x l IH]; simpl; [done|].
  destruct (f x) eqn:Ef; [rewrite Hfg by done; simpl; lia|]. destruct (g x); simpl; lia.
Qed.

Lemma lfilter_length_lt f g l y :
  (∀ x, f x = true → g x = true) → y ∈ l → f y = false → g y = true →
  length (List.filter f l) < length (List.filter g l).
Proof.
  intros Hfg Hy Ef Eg. induction l as [|x l IH]; [by apply not_elem_of_nil in Hy|]. simpl.
  pose proof (lfilter_length_le f g l Hfg). apply elem_of_cons in Hy as [<-|Hy].
  - rewrite Ef, Eg. simpl. lia.
  - specialize (IH Hy). destruct (f x) eqn:Efx; [rewrite Hfg by done; simpl; lia|].
    destruct (g x); simpl; lia.
Qed.

Lemma NoDup_lfilter f l : NoDup l → NoDup (List.filter f l).
Proof.
  induction 1 as [|x l Hx _ IH]; simpl; [constructor|].
  destruct (f x) eqn:E; [|done]. constructor; [|done].
  rewrite elem_of_lfilter. tauto.
Qed.

Lemma NoDup_map_lfilter (g : A → B) f l :
  NoDup (List.map g l) → NoDup (List.map g (List.filter f l)).
Proof.
  induction l as [|x l IH]; simpl; [done|].
  rewrite NoDup_cons. intros [Hx Hl]. destruct (f x); simpl; [|auto].
  apply NoDup_cons. split; [|auto].
  intros Hin. apply Hx. apply elem_of_lmap in Hin as (y & Ey & Hy).
  apply elem_of_lmap. exists y. apply elem_of_lfilter in Hy as [Hy _]. done.
Qed.

Lemma find_some_iff f l x : find f l = Some x → x ∈ l ∧ f x = true.
Proof. rewrite list_elem_of_In. apply find_some. Qed.

Lemma find_none_iff f l : find f l = None ↔ ∀ x, x ∈ l → f x = false.
Proof.
  split.
  - intros H x Hx. apply list_elem_of_In in Hx. by eapply find_none.
  - induction l as [|y l IH]; simpl; [done|]. intros H.
    rewrite (H y) by set_solver. apply IH. set_solver.
Qed.

Lemma existsb_elem_of f l : existsb f l = true ↔ ∃ x, x ∈ l ∧ f x = true.
Proof. rewrite existsb_exists. by setoid_rewrite list_elem_of_In. Qed.

Lemma forallb_elem_of f l : forallb f l = true ↔ ∀ x, x ∈ l → f x = true.
Proof. rewrite forallb_forall. by setoid_rewrite list_elem_of_In. Qed.

Lemma existsb_elem_of_false f l : existsb f l = false ↔ ∀ x, x ∈ l → f x = false.
Proof.
  rewrite <- not_true_iff_false, existsb_elem_of. split.
  - intros H x Hx. destruct (f x) eqn:E; [|done]. exfalso; eauto.
  - intros H (x & Hx & E). by rewrite H in E.
Qed.

(** With distinct keys, an element is found by its key. *)
Lemma find_by_key `{EqDecision K} (key : A → K) l x :
  NoDup (List.map key l) → x ∈ l → find (λ y, key y ==? key x) l = Some x.
Proof.
  induction l as [|y l IH]; simpl; [set_solver|].
  rewrite NoDup_cons. intros [Hy Hl] Hx.
  case_bool_decide as E.
  - apply elem_of_cons in Hx as [->|Hx]; [done|].
    exfalso. apply Hy. apply elem_of_lmap. eauto.
  - apply IH; [done|]. set_solver.
Qed.
End lists.

Lemma NoDup_map_inj `{EqDecision K} {A} (key : A → K) (l : list A) x y :
  NoDup (List.map key l) → x ∈ l → y ∈ l → key x = key y → x = y.
Proof.
  intros H Hx Hy E. apply (find_by_key key) in Hx, Hy; try done. rewrite E, Hy in Hx. congruence.
Qed.

(** Distinct under a coarser key is distinct under a finer one. *)
Lemma NoDup_map_finer {A K K'} (f : A → K) (g : A → K') (l : list A) :
  (∀ x y, f x = f y → g x = g y) → NoDup (List.map g l) → NoDup (List.map f l).
Proof.
  intros Hfg. induction l as [|x l IH]; simpl; [constructor|]. intros [Hx Hl]%NoDup_cons.
  apply NoDup_cons. split; [|auto]. intros (y & E & Hy)%elem_of_lmap.
  apply Hx, elem_of_lmap. eauto.
Qed.

Lemma NoDup_app_remove_middle {A} (l1 l2 : list A) x : NoDup (l1 ++ x :: l2) → NoDup (l1 ++ l2).
Proof. rewrite <- Permutation_middle. by intros [_ ?]%NoDup_cons. Qed.

#[export] Hint Resolve NoDup_lfilter NoDup_map_lfilter : voip.

(** [Array.prototype.sort]: stable, [le a b] saying that the comparator is
    not positive on [a] and [b]. *)
Section sort_by.
Context {A : Type} (le : A → A → bool).

Fixpoint insert_by (x : A) (l : list A) : list A :=
  match l with
  | [] => [x]
  | y :: l' => if le x y then x :: l else y :: insert_by x l'
  end.

Definition sort_by (l : list A) : list A := foldr insert_by [] l.

Lemma insert_by_perm x l : insert_by x l ≡ₚ x :: l.
Proof.
  induction l as [|y l IH]; simpl; [done|]. destruct (le x y); [done|]. rewrite IH. apply Permutation_swap.
Qed.

Lemma sort_by_perm l : sort_by l ≡ₚ l.
Proof. induction l as [|x l IH]; simpl; [done|]. by rewrite insert_by_perm, IH. Qed.

Context (Htotal : ∀ x y, le x y = true ∨ le y x = true).
Context (Htrans : ∀ x y z, le x y = true → le y z = true → le x z = true).

Lemma insert_by_sorted x l : Sorted (λ a b, le a b = true) l → Sorted (λ a b, le a b = true) (insert_by x l).
Proof.
  induction 1 as [|y l Hs IH Hhd]; simpl; [by repeat constructor|].
  destruct (le x y) eqn:E; [by repeat constructor|]. constructor; [done|].
  destruct (Htotal x y) as [?|Hyx]; [congruence|].
  inversion Hhd as [|z l' Hyz]; subst; simpl; [by constructor|]. destruct (le x z); by constructor.
Qed.

Lemma sort_by_sorted l : Sorted (λ a b, le a b = true) (sort_by l).
Proof. induction l as [|x l IH]; simpl; [constructor|]. by apply insert_by_sorted. Qed.

(** An element of a sorted list is below those after it. *)
Lemma sort_by_before l l1 l2 x y : sort_by l = l1 ++ l2 → x ∈ l1 → y ∈ l2 → le x y = true.
Proof.
  intros E Hx Hy. pose proof (sort_by_sorted l) as H.
  apply Sorted_StronglySorted in H; [|intros ???; apply Htrans].
  rewrite E in H. clear E. induction l1 as [|z l1 IH]; simpl in *; [by apply not_elem_of_nil in Hx|].
  apply StronglySorted_inv in H as [H Hz]. apply elem_of_cons in Hx as [->|Hx]; [|auto].
  rewrite Forall_forall in Hz. apply Hz, elem_of_app. by right.
Qed.
End sort_by.

(** Membership test of an array ([Array.prototype.includes] on strings and numbers). *)
Definition includes `{EqDecision A} (l : list A) (x : A) : bool := existsb (λ y, y ==? x) l.

Lemma includes_true `{EqDecision A} (l : list A) (x : A) : includes l x = true ↔ x ∈ l.
Proof.
  unfold includes. rewrite existsb_elem_of. split.
  - intros (y & Hy & E). apply bool_decide_eq_true in E. by subst.
  - intros H. exists x. by rewrite bool_decide_eq_true.
Qed.

Lemma includes_false `{EqDecision A} (l : list A) (x : A) : includes l x = false ↔ x ∉ l.
Proof. rewrite <- not_true_iff_false, includes_true. done. Qed.

(** ** Ordered maps: a JavaScript [Map], or a plain object with string keys.

    Keys are kept in insertion order, and writing a key that is present
    leaves it where it is. *)

Section ordered_map.
Context {K V : Type} `{EqDecision K}.
Implicit Types (m : list (K * V)) (k : K) (v : V).

Fixpoint om_get k m : option V :=
  match m with
  | [] => None
  | (k', v') :: m' => if k' ==? k then Some v' else om_get k m'
  end.

Definition om_has k m : bool := match om_get k m with Some _ => true | None => false end.

Fixpoint om_set k v m : list (K * V) :=
  match m with
  | [] => [(k, v)]
  | (k', v') :: m' => if k' ==? k then (k', v) :: m' else (k', v') :: om_set k v m'
  end.

Definition om_keys m : list K := List.map fst m.

Lemma om_keys_app m m' : om_keys (m ++ m') = om_keys m ++ om_keys m'.
Proof. apply List.map_app. Qed.

Lemma om_get_set_eq k v m : om_get k (om_set k v m) = Some v.
Proof.
  induction m as [|[k' v'] m IH]; simpl; [by rewrite bool_decide_eq_true_2|].
  destruct (k' ==? k) eqn:E; simpl; by rewrite E.
Qed.

Lemma om_get_set_ne k k' v m : k ≠ k' → om_get k' (om_set k v m) = om_get k' m.
Proof.
  intros Hne. induction m as [|[k0 v0] m IH]; simpl.
  - by rewrite bool_decide_eq_false_2.
  - destruct (k0 ==? k) eqn:E; simpl; [|by rewrite IH].
    apply bool_decide_eq_true in E as ->. by rewrite bool_decide_eq_false_2.
Qed.

Lemma om_get_Some_elem k v m : om_get k m = Some v → (k, v) ∈ m.
Proof.
  induction m as [|[k' v'] m IH]; simpl; [done|].
  case_bool_decide; [|set_solver]. intros [= ->]. subst. set_solver.
Qed.

Lemma om_get_elem k v m : NoDup (om_keys m) → (k, v) ∈ m → om_get k m = Some v.
Proof.
  induction m as [|[k' v'] m IH]; simpl; [set_solver|].
  rewrite NoDup_cons. intros [Hk Hm] Hin. case_bool_decide as E.
  - subst. apply elem_of_cons in Hin as [Hin|Hin]; [by simplify_eq|].
    exfalso. apply Hk. apply elem_of_lmap. by exists (k, v).
  - apply IH; [done|]. set_solver.
Qed.

Lemma om_get_None k m : om_get k m = None ↔ k ∉ om_keys m.
Proof.
  induction m as [|[k' v'] m IH]; simpl; [set_solver|].
  case_bool_decide; set_solver.
Qed.

Lemma om_has_true k m : om_has k m = true ↔ k ∈ om_keys m.
Proof.
  unfold om_has. destruct (om_get k m) eqn:E.
  - split; [intros _|done]. apply om_get_Some_elem in E. apply elem_of_lmap. by exists (k, v).
  - apply om_get_None in E. split; done.
Qed.

Lemma om_has_false k m : om_has k m = false ↔ k ∉ om_keys m.
Proof. rewrite <- not_true_iff_false, om_has_true. done. Qed.

(** Writing a new key appends it. *)
Lemma om_set_new k v m : k ∉ om_keys m → om_set k v m = m ++ [(k, v)].
Proof.
  induction m as [|[k' v'] m IH]; simpl; [done|].
  intros Hk. rewrite bool_decide_eq_false_2 by set_solver. rewrite IH; set_solver.
Qed.

Lemma om_keys_set k v m :
  om_keys (om_set k v m) = if om_has k m then om_keys m else om_keys m ++ [k].
Proof.
  unfold om_has. induction m as [|[k' v'] m IH]; simpl; [done|].
  case_bool_decide as E; simpl; [done|]. rewrite IH. by destruct (om_get k m).
Qed.

Lemma om_keys_set_elem k k' v m : k' ∈ om_keys (om_set k v m) ↔ k' = k ∨ k' ∈ om_keys m.
Proof.
  rewrite om_keys_set. destruct (om_has k m) eqn:E; [|set_solver].
  apply om_has_true in E. naive_solver.
Qed.

Lemma om_set_NoDup k v m : NoDup (om_keys m) → NoDup (om_keys (om_set k v m)).
Proof.
  rewrite om_keys_set. destruct (om_has k m) eqn:E; [done|].
  apply om_has_false in E. intros. apply NoDup_app. set_solver by eauto using NoDup_singleton.
Qed.

(** Building a [Map] from an array of pairs: a later pair overwrites. *)
Definition om_of_list (l : list (K * V)) : list (K * V) :=
  fold_left (λ m '(k, v), om_set k v m) l [].

Lemma om_set_elem k v m kv : kv ∈ om_set k v m → kv = (k, v) ∨ kv ∈ m.
Proof.
  induction m as [|[k' v'] m IH]; simpl; [set_solver|].
  case_bool_decide; [subst|]; intros [->|Hin]%elem_of_cons; try (by left); try (by right; apply elem_of_cons; left).
  - right. by apply elem_of_cons; right.
  - destruct (IH Hin) as [?|?]; [by left|right; by apply elem_of_cons; right].
Qed.

Lemma om_of_list_ind (P : list (K * V) → Prop) (l : list (K * V)) :
  P [] → (∀ m kv, P m → kv ∈ l → P (om_set kv.1 kv.2 m)) → P (om_of_list l).
Proof.
  intros H0 Hs. unfold om_of_list.
  enough (∀ acc, P acc → P (fold_left (λ m '(k, v), om_set k v m) l acc)) by auto.
  clear H0. induction l as [|[k v] l IH]; intros acc Ha; simpl; [done|].
  apply IH; [|apply (Hs acc (k, v)); [done|by apply elem_of_cons; left]].
  intros m kv Hm Hkv. apply Hs; [done|by apply elem_of_cons; right].
Qed.

Lemma om_of_list_elem (l : list (K * V)) kv : kv ∈ om_of_list l → kv ∈ l.
Proof.
  apply (om_of_list_ind (λ m, kv ∈ m → kv ∈ l)).
  - intros []%not_elem_of_nil.
  - intros m kv' Hm Hl [->|?]%om_set_elem; [by destruct kv'|auto].
Qed.

Lemma om_of_list_keys_NoDup (l : list (K * V)) : NoDup (om_keys (om_of_list l)).
Proof.
  apply om_of_list_ind; [constructor|]. intros m kv Hm _. by apply om_set_NoDup.
Qed.

Lemma om_of_list_keys (l : list (K * V)) k : k ∈ om_keys (om_of_list l) ↔ k ∈ om_keys l.
Proof.
  split.
  - intros (kv & -> & Hkv)%elem_of_lmap. apply elem_of_lmap. exists kv. split; [done|]. by apply om_of_list_elem.
  - unfold om_of_list.
    enough (∀ acc, k ∈ om_keys acc ∨ k ∈ om_keys l → k ∈ om_keys (fold_left (λ m '(k, v), om_set k v m) l acc)) by auto.
    induction l as [|[k' v'] l IH]; intros acc H; simpl; [destruct H as [?|H]; [done|by apply not_elem_of_nil in H]|].
    apply IH. rewrite om_keys_set_elem. simpl in H. rewrite elem_of_cons in H. tauto.
Qed.

Lemma om_of_list_NoDup (l : list (K * V)) : NoDup (om_keys l) → om_of_list l = l.
Proof.
  intros H. unfold om_of_list.
  enough (∀ acc, NoDup (om_keys (acc ++ l)) → fold_left (λ m '(k, v), om_set k v m) l acc = acc ++ l) as E
    by by apply (E []).
  clear H. induction l as [|[k v] l IH]; intros acc; simpl; [by rewrite app_nil_r|].
  intros H. rewrite om_set_new.
  - rewrite IH; by rewrite <- app_assoc.
  - unfold om_keys in *. rewrite List.map_app in H. simpl in H.
    apply NoDup_app in H as (_ & H & _). intros Hk. by eapply H, elem_of_cons; eauto.
Qed.
(** [m.delete(k)], or [delete o.k]. *)
Definition om_del k m : list (K * V) := List.filter (λ kv, kv.1 !=? k) m.

Lemma om_del_elem k m kv : kv ∈ om_del k m ↔ kv ∈ m ∧ kv.1 ≠ k.
Proof. unfold om_del. rewrite elem_of_lfilter, negb_true_iff, bool_decide_eq_false. done. Qed.

Lemma om_del_NoDup k m : NoDup (om_keys m) → NoDup (om_keys (om_del k m)).
Proof. apply NoDup_map_lfilter. Qed.

Lemma om_del_absent k m : om_get k m = None → om_del k m = m.
Proof.
  intros Hk. apply lfilter_all. intros [k' l] Hin. apply negb_true_iff, bool_decide_eq_false. simpl. intros ->.
  apply om_get_None in Hk. apply Hk, elem_of_lmap. by exists (k, l).
Qed.

Lemma om_get_del_eq k m : om_get k (om_del k m) = None.
Proof. apply om_get_None. intros ([k' v] & -> & [_ Hk]%om_del_elem)%elem_of_lmap. done. Qed.

Lemma om_get_del_ne k k' m : k ≠ k' → om_get k' (om_del k m) = om_get k' m.
Proof.
  intros Hne. unfold om_del. induction m as [|[k0 v] m IH]; simpl; [done|].
  destruct (k0 ==? k) eqn:E; simpl; rewrite IH; [|done]. apply bool_decide_eq_true in E as ->. by rewrite bool_decide_eq_false_2.
Qed.
End ordered_map.

(** A map of lists: pushing to the list of a key. *)
Section lists_by_key.
Context {K A : Type} `{EqDecision K}.
Implicit Types (m : list (K * list A)) (k : K).

Definition om_values m : list A := List.concat (List.map snd m).

Lemma om_values_del k m l :
  NoDup (om_keys m) → om_get k m = Some l → om_values m ≡ₚ l ++ om_values (om_del k m).
Proof.
  unfold om_values, om_del. induction m as [|[k' l'] m IH]; simpl; [done|].
  intros [Hk Hm]%NoDup_cons. case_bool_decide as E.
  - intros [= ->]. subst k'. simpl. rewrite lfilter_all; [done|]. intros [k2 l2] Hin. simpl.
    apply negb_true_iff, bool_decide_eq_false. intros ->. apply Hk. apply elem_of_lmap. by exists (k, l2).
  - intros Hg. simpl. rewrite (IH Hm Hg), !app_assoc. f_equiv. apply Permutation_app_comm.
Qed.

Lemma om_values_push k m x : om_values (om_set k (default [] (om_get k m) ++ [x]) m) ≡ₚ om_values m ++ [x].
Proof.
  unfold om_values. induction m as [|[k' l'] m IH]; simpl; [done|]. case_bool_decide as E; simpl.
  - rewrite <-!app_assoc. f_equiv. apply Permutation_app_comm.
  - by rewrite IH, app_assoc.
Qed.

Lemma elem_of_om_values m x : x ∈ om_values m ↔ ∃ k l, (k, l) ∈ m ∧ x ∈ l.
Proof.
  unfold om_values. induction m as [|[k l] m IH]; simpl.
  - split; [by intros ?%elem_of_nil|]. intros (? & ? & []%elem_of_nil & _).
  - rewrite elem_of_app, IH. setoid_rewrite elem_of_cons. naive_solver.
Qed.
End lists_by_key.

#[export] Hint Resolve om_set_NoDup : voip.
