(* ===== verification/JsString.v ===== *)
(** * JavaScript strings

    A string is its UTF-8 byte sequence ([String.string]).  Every operation
    the modelled code applies to strings (equality, concatenation, tests for
    ASCII characters, [slice] at offsets into ASCII digits, [trim]) has the
    same result on the bytes as on the UTF-16 code units, because UTF-8 is
    self-synchronising and ASCII characters are single bytes. *)
From S2P Require Import Prelude.
From stdpp Require Export pretty.
From Stdlib Require Export Ascii.

Local Open Scope string_scope.

#[global] Arguments String.append : simpl nomatch.

(** ** Characters *)

Definition ch (n : nat) : ascii := ascii_of_nat n.
Definition code (a : ascii) : Z := Z.of_N (N_of_ascii a).

(** [\d] *)
Definition is_digit (a : ascii) : bool := (48 <=? code a)%Z && (code a <=? 57)%Z.

Definition digit_val (a : ascii) : Z := code a - 48.

(** [\s] and the characters [trim] removes, ASCII part. *)
Definition ws1 (a : ascii) : bool :=
  ((9 <=? code a)%Z && (code a <=? 13)%Z) || (code a =? 32)%Z.
(** U+00A0 in UTF-8. *)
Definition ws2 (a b : ascii) : bool := (code a =? 194)%Z && (code b =? 160)%Z.
(** U+1680, U+2000-200A, U+2028, U+2029, U+202F, U+205F, U+3000, U+FEFF. *)
Definition ws3 (a b c : ascii) : bool :=
  ((code a =? 225) && (code b =? 154) && (code c =? 128))%Z ||
  ((code a =? 226) && (code b =? 128) &&
     (((128 <=? code c) && (code c <=? 138)) || (code c =? 168) || (code c =? 169) || (code c =? 175)))%Z ||
  ((code a =? 226) && (code b =? 129) && (code c =? 159))%Z ||
  ((code a =? 227) && (code b =? 128) && (code c =? 128))%Z ||
  ((code a =? 239) && (code b =? 187) && (code c =? 191))%Z.

(** ** Traversals *)

Fixpoint sfilter (f : ascii → bool) (s : string) : string :=
  match s with
  | EmptyString => EmptyString
  | String a s' => if f a then String a (sfilter f s') else sfilter f s'
  end.

Fixpoint sforall (f : ascii → bool) (s : string) : bool :=
  match s with
  | EmptyString => true
  | String a s' => f a && sforall f s'
  end.

Fixpoint srev_app (s acc : string) : string :=
  match s with
  | EmptyString => acc
  | String a s' => srev_app s' (String a acc)
  end.
Definition srev (s : string) : string := srev_app s "".

(** [s.startsWith(p)] *)
Definition starts_with (p s : string) : bool := String.prefix p s.

(** [s.includes(t)] *)
Fixpoint contains (t s : string) : bool :=
  starts_with t s || match s with "" => false | String _ s => contains t s end.

(** [s.slice(n)] and [s.slice(a, b)] for 0 ≤ a ≤ b. *)
Fixpoint slice_from (n : nat) (s : string) : string :=
  match n, s with
  | O, _ => s
  | S n', String _ s' => slice_from n' s'
  | S _, EmptyString => ""
  end.
Fixpoint stake (n : nat) (s : string) : string :=
  match n, s with
  | S n', String a s' => String a (stake n' s')
  | _, _ => ""
  end.
Definition slice (a b : nat) (s : string) : string := stake (b - a) (slice_from a s).

(** [s[0]] *)
Definition char_at (n : nat) (s : string) : option ascii := String.get n s.

(** ** Trimming *)

Fixpoint ltrim (s : string) : string :=
  match s with
  | String a s1 =>
      if ws1 a then ltrim s1 else
      match s1 with
      | String b s2 =>
          if ws2 a b then ltrim s2 else
          match s2 with
          | String c s3 => if ws3 a b c then ltrim s3 else s
          | _ => s
          end
      | _ => s
      end
  | _ => s
  end.

(** The same on the reversed string. *)
Fixpoint rltrim (s : string) : string :=
  match s with
  | String c s1 =>
      if ws1 c then rltrim s1 else
      match s1 with
      | String b s2 =>
          if ws2 b c then rltrim s2 else
          match s2 with
          | String a s3 => if ws3 a b c then rltrim s3 else s
          | _ => s
          end
      | _ => s
      end
  | _ => s
  end.

Definition trim (s : string) : string := srev (rltrim (srev (ltrim s))).

(** The longest prefix without white space: [\S*]. *)
Fixpoint take_word (s : string) : string :=
  match s with
  | String a s1 =>
      if ws1 a then "" else
      match s1 with
      | String b s2 =>
          if ws2 a b then "" else
          match s2 with
          | String c _ => if ws3 a b c then "" else String a (take_word s1)
          | _ => String a (take_word s1)
          end
      | _ => String a (take_word s1)
      end
  | _ => ""
  end.

(** [toUpperCase] on the letters of ASCII. *)
Definition upper_char (a : ascii) : ascii :=
  if ((97 <=? code a) && (code a <=? 122))%Z then ascii_of_nat (nat_of_ascii a - 32) else a.
Fixpoint upper (s : string) : string :=
  match s with "" => "" | String a s => String (upper_char a) (upper s) end.

(** The longest prefix of digits and what follows it. *)
Fixpoint span_digits (s : string) : string * string :=
  match s with
  | String a s' => if is_digit a then let '(d, r) := span_digits s' in (String a d, r) else ("", s)
  | "" => ("", "")
  end.

(** ** Digits *)

(** [s.replace(/\D/g, '')] *)
Definition digits_of (s : string) : string := sfilter is_digit s.

Fixpoint num_of_digits_acc (acc : Z) (s : string) : Z :=
  match s with
  | EmptyString => acc
  | String a s' => num_of_digits_acc (acc * 10 + digit_val a) s'
  end.
(** [Number(s)] for a string of decimal digits. *)
Definition num_of_digits (s : string) : Z := num_of_digits_acc 0 s.

(** [arr.join(sep)] *)
Fixpoint join (sep : string) (l : list string) : string :=
  match l with
  | [] => ""
  | [x] => x
  | x :: l' => x +:+ sep +:+ join sep l'
  end.

(** [s.split(c)] for a one-character separator. *)
Fixpoint split_on (c : ascii) (s : string) : list string :=
  match s with
  | EmptyString => [""]
  | String a s' =>
      if a ==? c then "" :: split_on c s'
      else match split_on c s' with
           | x :: l => String a x :: l
           | [] => [String a ""]
           end
  end.

(** [sort()] of strings. *)
Fixpoint insert_string (x : string) (l : list string) : list string :=
  match l with
  | [] => [x]
  | y :: l' => if String.leb x y then x :: l else y :: insert_string x l'
  end.
Definition sort_strings (l : list string) : list string := foldr insert_string [] l.

(** [[...new Set(l)]] *)
Definition unique (l : list string) : list string := om_keys (om_of_list (List.map (λ d, (d, tt)) l)).

(** A lone ["\u0000"], the separator of the exit keys. *)
Definition NUL : string := String (ch 0) "".

(** ** Lemmas *)

Lemma sapp_assoc (s1 s2 s3 : string) : s1 +:+ (s2 +:+ s3) = (s1 +:+ s2) +:+ s3.
Proof. induction s1 as [|a s1 IH]; simpl; [done|]. by rewrite IH. Qed.

Lemma sapp_nil_r (s : string) : s +:+ "" = s.
Proof. induction s as [|a s IH]; simpl; [done|]. by rewrite IH. Qed.

Lemma slength_app (s1 s2 : string) :
  String.length (s1 +:+ s2) = String.length s1 + String.length s2.
Proof. induction s1 as [|a s1 IH]; simpl; [done|]. by rewrite IH. Qed.

Lemma sforall_app f s1 s2 : sforall f (s1 +:+ s2) = sforall f s1 && sforall f s2.
Proof. induction s1 as [|a s1 IH]; simpl; [done|]. by rewrite IH, andb_assoc. Qed.

Lemma sforall_impl (f g : ascii → bool) s :
  (∀ a, f a = true → g a = true) → sforall f s = true → sforall g s = true.
Proof.
  intros Hfg. induction s as [|a s IH]; simpl; [done|].
  intros H. bool_hyps. rewrite Hfg by done. by apply IH.
Qed.

Lemma sfilter_id f s : sforall f s = true → sfilter f s = s.
Proof.
  induction s as [|a s IH]; simpl; [done|]. intros H. bool_hyps.
  match goal with E : f a = true |- _ => rewrite E end. by rewrite IH.
Qed.

Lemma sforall_sfilter f s : sforall f (sfilter f s) = true.
Proof. induction s as [|a s IH]; simpl; [done|]. destruct (f a) eqn:E; simpl; [by rewrite E|done]. Qed.

Lemma slice_from_app s1 s2 : slice_from (String.length s1) (s1 +:+ s2) = s2.
Proof. induction s1; simpl; by try rewrite IHs1. Qed.

Lemma sforall_slice_from f n s : sforall f s = true → sforall f (slice_from n s) = true.
Proof.
  revert s. induction n as [|n IH]; intros [|a s]; simpl; try done.
  intros H. bool_hyps. by apply IH.
Qed.

Lemma sforall_stake f n s : sforall f s = true → sforall f (stake n s) = true.
Proof.
  revert s. induction n as [|n IH]; intros [|a s]; simpl; try done.
  intros H. bool_hyps. apply andb_true_iff. auto.
Qed.

Lemma length_srev_app s acc : String.length (srev_app s acc) = String.length s + String.length acc.
Proof. revert acc. induction s as [|a s IH]; intros acc; simpl; [done|]. rewrite IH. simpl. lia. Qed.

Lemma srev_app_app s acc : srev_app s acc = srev s +:+ acc.
Proof.
  unfold srev. revert acc. induction s as [|a s IH]; intros acc; simpl; [done|].
  rewrite IH, (IH (String a "")). by rewrite <- sapp_assoc.
Qed.

Lemma srev_cons a s : srev (String a s) = srev s +:+ String a "".
Proof. unfold srev at 1. simpl. apply srev_app_app. Qed.

Lemma srev_app_distr s1 s2 : srev (s1 +:+ s2) = srev s2 +:+ srev s1.
Proof.
  induction s1 as [|a s1 IH]; simpl.
  - by rewrite sapp_nil_r.
  - by rewrite !srev_cons, IH, sapp_assoc.
Qed.

Lemma srev_involutive s : srev (srev s) = s.
Proof. induction s as [|a s IH]; [done|]. by rewrite srev_cons, srev_app_distr, IH. Qed.

Lemma sforall_srev f s : sforall f (srev s) = sforall f s.
Proof.
  induction s as [|a s IH]; [done|]. rewrite srev_cons, sforall_app, IH. simpl.
  by rewrite andb_true_r, andb_comm.
Qed.

(** Printable ASCII other than the space: never trimmed. *)
Definition plain (a : ascii) : bool := (33 <=? code a)%Z && (code a <=? 126)%Z.

Lemma plain_not_ws a : plain a = true →
  ws1 a = false ∧ (∀ b, ws2 a b = false) ∧ (∀ b, ws2 b a = false) ∧
  (∀ b c, ws3 a b c = false) ∧ (∀ b c, ws3 b c a = false).
Proof.
  unfold plain, ws1, ws2, ws3. intros H. bool_hyps.
  repeat split; intros; apply not_true_is_false; intros E; lia.
Qed.

Lemma ltrim_plain a s : plain a = true → ltrim (String a s) = String a s.
Proof.
  intros (H1 & H2 & _ & H3 & _)%plain_not_ws. simpl. rewrite H1.
  destruct s as [|b s]; [done|]. rewrite H2. destruct s as [|c s]; [done|]. by rewrite H3.
Qed.

Lemma rltrim_plain a s : plain a = true → rltrim (String a s) = String a s.
Proof.
  intros (H1 & _ & H2 & _ & H3)%plain_not_ws. simpl. rewrite H1.
  destruct s as [|b s]; [done|]. rewrite H2. destruct s as [|c s]; [done|]. by rewrite H3.
Qed.

Lemma trim_plain s : sforall plain s = true → trim s = s.
Proof.
  intros H. unfold trim. destruct s as [|a s]; [done|].
  rewrite ltrim_plain by (simpl in H; by bool_hyps).
  rewrite <- sforall_srev in H.
  destruct (srev (String a s)) as [|b t] eqn:E.
  - rewrite srev_cons in E. by destruct (srev s).
  - rewrite rltrim_plain by (simpl in H; by bool_hyps).
    by rewrite <- E, srev_involutive.
Qed.

Lemma ltrim_idemp s : ltrim (ltrim s) = ltrim s.
Proof.
  assert (∀ n s, (String.length s ≤ n)%nat → ltrim (ltrim s) = ltrim s) as H; [|by eapply H].
  clear s. induction n as [|n IH]; intros [|a [|b [|c s]]]; simpl; try done; try lia;
    intros Hl; repeat (case_match; simpl; try done); simplify_eq/=;
    try (apply IH; simpl; lia);
    repeat match goal with H : ?x = _ |- context [?x] => rewrite H end; done.
Qed.

Lemma rltrim_idemp s : rltrim (rltrim s) = rltrim s.
Proof.
  assert (∀ n s, (String.length s ≤ n)%nat → rltrim (rltrim s) = rltrim s) as H; [|by eapply H].
  clear s. induction n as [|n IH]; intros [|a [|b [|c s]]]; simpl; try done; try lia;
    intros Hl; repeat (case_match; simpl; try done); simplify_eq/=;
    try (apply IH; simpl; lia);
    repeat match goal with H : ?x = _ |- context [?x] => rewrite H end; done.
Qed.

Lemma ltrim_length s : (String.length (ltrim s) ≤ String.length s)%nat.
Proof.
  assert (∀ n s, (String.length s ≤ n)%nat → (String.length (ltrim s) ≤ String.length s)%nat) as H; [|by eapply H].
  clear s. induction n as [|n IH]; intros [|a [|b [|c s]]]; simpl; try done; try lia;
    intros Hl; repeat (case_match; simpl; try lia; try done); simplify_eq/=;
    match goal with |- context [ltrim ?t] => pose proof (IH t); lia end.
Qed.

(** What stops [ltrim] at once. *)
Lemma ltrim_fix a b c s :
  (ltrim (String a s) = String a s → ws1 a = false) ∧
  (ltrim (String a (String b s)) = String a (String b s) → ws2 a b = false) ∧
  (ltrim (String a (String b (String c s))) = String a (String b (String c s)) → ws3 a b c = false).
Proof.
  split_and!; intros E; apply (f_equal String.length) in E; apply not_true_is_false; intros Ew.
  - simpl in E. rewrite Ew in E. pose proof (ltrim_length s). lia.
  - cbn [ltrim] in E. destruct (ws1 a); [pose proof (ltrim_length (String b s)); simpl in *; lia|].
    rewrite Ew in E. pose proof (ltrim_length s). simpl in *. lia.
  - cbn [ltrim] in E. destruct (ws1 a); [pose proof (ltrim_length (String b (String c s))); simpl in *; lia|].
    destruct (ws2 a b); [pose proof (ltrim_length (String c s)); simpl in *; lia|].
    rewrite Ew in E. pose proof (ltrim_length s). simpl in *. lia.
Qed.

Lemma ltrim_prefix s1 s2 : ltrim (s1 +:+ s2) = s1 +:+ s2 → ltrim s1 = s1.
Proof.
  destruct s1 as [|a [|b [|c s1]]]; [done|..]; cbn [String.append]; intros E.
  - pose proof (proj1 (ltrim_fix a a a s2) E) as Ea. simpl. by rewrite Ea.
  - pose proof (proj1 (ltrim_fix a a a _) E) as Ea.
    pose proof (proj1 (proj2 (ltrim_fix a b b _)) E) as Eb. simpl. by rewrite Ea, Eb.
  - pose proof (proj1 (ltrim_fix a a a _) E) as Ea.
    pose proof (proj1 (proj2 (ltrim_fix a b b _)) E) as Eb.
    pose proof (proj2 (proj2 (ltrim_fix a b c _)) E) as Ec. cbn [ltrim]. by rewrite Ea, Eb, Ec.
Qed.

Lemma rltrim_cons c s1 :
  rltrim (String c s1) =
  if ws1 c then rltrim s1 else
  match s1 with
  | String b s2 =>
      if ws2 b c then rltrim s2 else
      match s2 with
      | String a s3 => if ws3 a b c then rltrim s3 else String c s1
      | _ => String c s1
      end
  | _ => String c s1
  end.
Proof. done. Qed.

Lemma rltrim_suffix v : ∃ p, v = p +:+ rltrim v.
Proof.
  assert (∀ n v, (String.length v ≤ n)%nat → ∃ p, v = p +:+ rltrim v) as H; [|by eapply H].
  clear v. induction n as [|n IH]; intros [|c s1]; cbn [String.length]; try lia; intros Hl; try (by exists "").
  rewrite rltrim_cons. destruct (ws1 c).
  { destruct (IH s1) as [p Ep]; [lia|]. exists (String c p). simpl. congruence. }
  destruct s1 as [|b s2]; [by exists ""|]. cbn [String.length] in Hl. destruct (ws2 b c).
  { destruct (IH s2) as [p Ep]; [lia|]. exists (String c (String b p)). simpl. congruence. }
  destruct s2 as [|a s3]; [by exists ""|]. cbn [String.length] in Hl. destruct (ws3 a b c); [|by exists ""].
  destruct (IH s3) as [p Ep]; [lia|]. exists (String c (String b (String a p))). simpl. congruence.
Qed.

Lemma trim_idemp s : trim (trim s) = trim s.
Proof.
  unfold trim at 1. set (v := srev (ltrim s)).
  assert (ltrim (trim s) = trim s) as ->.
  { destruct (rltrim_suffix v) as [p Ep]. apply (ltrim_prefix _ (srev p)).
    unfold trim. fold v. rewrite <- srev_app_distr, <- Ep. unfold v. rewrite srev_involutive. apply ltrim_idemp. }
  unfold trim. fold v. by rewrite srev_involutive, rltrim_idemp.
Qed.

Lemma is_digit_plain a : is_digit a = true → plain a = true.
Proof. unfold is_digit, plain. intros. bool_hyps. apply andb_true_iff; split; apply Z.leb_le; lia. Qed.

#[export] Hint Resolve sforall_sfilter is_digit_plain : voip.

Lemma is_digit_val a : is_digit a = true → (0 ≤ digit_val a ≤ 9)%Z.
Proof. unfold is_digit, digit_val. intros. bool_hyps. lia. Qed.

Lemma num_of_digits_acc_bounds s acc :
  sforall is_digit s = true → (0 ≤ acc)%Z →
  (acc * 10 ^ Z.of_nat (String.length s) ≤ num_of_digits_acc acc s
   < (acc + 1) * 10 ^ Z.of_nat (String.length s))%Z.
Proof.
  revert acc. induction s as [|a s IH]; intros acc; simpl; [intros; lia|].
  intros H Hacc. bool_hyps.
  match goal with D : is_digit a = true |- _ => apply is_digit_val in D end.
  specialize (IH (acc * 10 + digit_val a)%Z).
  replace (Z.of_nat (S (String.length s))) with (Z.of_nat (String.length s) + 1)%Z by lia.
  rewrite Z.pow_add_r by lia. destruct IH as [IH1 IH2]; [done|lia|].
  pose proof (Z.pow_pos_nonneg 10 (Z.of_nat (String.length s))). nia.
Qed.

Lemma num_of_digits_bounds s :
  sforall is_digit s = true →
  (0 ≤ num_of_digits s < 10 ^ Z.of_nat (String.length s))%Z.
Proof. intros H. pose proof (num_of_digits_acc_bounds s 0 H). unfold num_of_digits. lia. Qed.

Lemma insert_string_perm x l : insert_string x l ≡ₚ x :: l.
Proof.
  induction l as [|y l IH]; simpl; [done|]. destruct (String.leb x y); [done|].
  rewrite IH. apply Permutation_swap.
Qed.

Lemma sort_strings_perm l : sort_strings l ≡ₚ l.
Proof. induction l as [|x l IH]; simpl; [done|]. by rewrite insert_string_perm, IH. Qed.

Lemma unique_elem l x : x ∈ unique l ↔ x ∈ l.
Proof. unfold unique. rewrite om_of_list_keys. unfold om_keys. by rewrite List.map_map, List.map_id. Qed.
