(* ===== verification/JsValue.v ===== *)
(** * JavaScript data values

    Numbers, plain objects and arrays as the modelled code handles them:
    JSON bodies from the API, block configs, and the objects the spread
    operator builds.  A finite number is an exact rational: the arithmetic of
    the modelled code (whole-pixel positions, seconds to milliseconds, 16-bit
    samples) stays within the 53 bits a double carries, so no operation
    rounds, except [Math.round], which is written out. *)
From S2P Require Import Prelude JsString.
From Stdlib Require Import QArith Qround.

Local Close Scope Q_scope.

Local Open Scope nat_scope.

(** ** Numbers *)

Inductive num :=
  | Fin (q : Q)
  | NaN
  | Inf (negative : bool).

#[export] Instance Q_eq_dec : EqDecision Q.
Proof. solve_decision. Defined.
#[export] Instance num_eq_dec : EqDecision num.
Proof. solve_decision. Defined.

Definition num_of_Z (z : Z) : num := Fin (inject_Z z).

(** [Number.isFinite] *)
Definition is_finite (n : num) : bool := match n with Fin _ => true | _ => false end.

Definition Q_is_int (q : Q) : bool := (Qnum q mod Zpos (Qden q) =? 0)%Z.

(** [Number.isInteger] *)
Definition is_integer (n : num) : bool := match n with Fin q => Q_is_int q | _ => false end.

(** The integer a number is, when it is one. *)
Definition Z_of_num (n : num) : option Z :=
  match n with
  | Fin q => if Q_is_int q then Some (Qnum q / Zpos (Qden q))%Z else None
  | _ => None
  end.

(** [Math.round]: half rounds up. *)
Definition Q_round (q : Q) : Z := Qfloor (q + (1 # 2))%Q.
Definition math_round (n : num) : num :=
  match n with Fin q => num_of_Z (Q_round q) | _ => n end.

(** [a <= b] on numbers: false when either is NaN. *)
Definition num_le (a b : num) : bool :=
  match a, b with
  | NaN, _ | _, NaN => false
  | Fin p, Fin q => Qle_bool p q
  | Inf true, _ | _, Inf false => true
  | Inf false, _ | _, Inf true => false
  end.

(** [a * b] and [a / b] by a positive integer constant. *)
Definition num_scale (k : positive) (n : num) : num :=
  match n with Fin q => Fin (q * (Zpos k # 1))%Q | _ => n end.
Definition num_unscale (k : positive) (n : num) : num :=
  match n with Fin q => Fin (q * (1 # k))%Q | _ => n end.

(** [a + b] *)
Definition num_add (a b : num) : num :=
  match a, b with
  | Fin p, Fin q => Fin (Qred (p + q))
  | NaN, _ | _, NaN => NaN
  | Inf s, Inf t => if Bool.eqb s t then Inf s else NaN
  | Inf s, _ | _, Inf s => Inf s
  end.

(** ** Values *)

Inductive value :=
  | VUndef
  | VNull
  | VBool (b : bool)
  | VNum (n : num)
  | VStr (s : string)
  | VArr (l : list value)
  | VObj (o : list (string * value)).

(** A plain object: own enumerable properties in order. *)
Abbreviation obj := (list (string * value)).

Section value_ind.
Context (P : value → Prop).
Context (Hundef : P VUndef) (Hnull : P VNull) (Hbool : ∀ b, P (VBool b)).
Context (Hnum : ∀ n, P (VNum n)) (Hstr : ∀ s, P (VStr s)).
Context (Harr : ∀ l, Forall P l → P (VArr l)).
Context (Hobj : ∀ o, Forall (λ kv, P kv.2) o → P (VObj o)).

Fixpoint value_ind' (v : value) : P v :=
  match v with
  | VUndef => Hundef
  | VNull => Hnull
  | VBool b => Hbool b
  | VNum n => Hnum n
  | VStr s => Hstr s
  | VArr l =>
      Harr l ((fix go l := match l return Forall P l with
                           | [] => Forall_nil_2 _
                           | v :: l => Forall_cons_2 _ _ _ (value_ind' v) (go l)
                           end) l)
  | VObj o =>
      Hobj o ((fix go o := match o return Forall (λ kv, P kv.2) o with
                           | [] => Forall_nil_2 _
                           | kv :: o => Forall_cons_2 _ _ _ (value_ind' kv.2) (go o)
                           end) o)
  end.
End value_ind.

#[export] Instance value_eq_dec : EqDecision value.
Proof.
  refine (fix go (x y : value) : Decision (x = y) :=
    match x, y with
    | VUndef, VUndef => left eq_refl
    | VNull, VNull => left eq_refl
    | VBool a, VBool b => cast_if (decide (a = b))
    | VNum a, VNum b => cast_if (decide (a = b))
    | VStr a, VStr b => cast_if (decide (a = b))
    | VArr a, VArr b => cast_if (@list_eq_dec value go a b)
    | VObj a, VObj b => cast_if (@list_eq_dec _ (@prod_eq_dec string _ value go) a b)
    | _, _ => right _
    end); clear go; abstract congruence.
Defined.

(** [typeof v === 'object' && v !== null && !Array.isArray(v)] *)
Definition as_record (v : value) : option obj := match v with VObj o => Some o | _ => None end.
Definition as_string (v : value) : option string := match v with VStr s => Some s | _ => None end.
Definition as_array (v : value) : option (list value) := match v with VArr l => Some l | _ => None end.
Definition as_number (v : value) : option num := match v with VNum n => Some n | _ => None end.

(** [v !== undefined] *)
Definition is_defined (v : value) : bool := match v with VUndef => false | _ => true end.

(** ** Objects *)

(** [o.k]: [undefined] when absent. *)
Definition get (k : string) (o : obj) : value := default VUndef (om_get k o).

(** [{ ...o1, ...o2 }] *)
Definition spread (o1 o2 : obj) : obj := fold_left (λ o '(k, v), om_set k v o) o2 o1.

Definition vstr (s : string) : value := VStr s.
Definition vint (z : Z) : value := VNum (num_of_Z z).
Definition varr {A} (f : A → value) (l : list A) : value := VArr (List.map f l).

(** ** JSON text

    [JSON.stringify] is injective on values in the normal form below: it
    writes NaN and the infinities as [null], drops [undefined] properties,
    and writes equal numbers the same way.  Comparing texts is comparing
    normal forms. *)
Definition norm_num (n : num) : value :=
  match n with Fin q => VNum (Fin (Qred q)) | _ => VNull end.

Fixpoint json_norm (v : value) : value :=
  match v with
  | VNum n => norm_num n
  | VArr l => VArr ((fix go l := match l with
                                 | [] => []
                                 | VUndef :: l => VNull :: go l
                                 | v :: l => json_norm v :: go l
                                 end) l)
  | VObj o => VObj ((fix go o := match o with
                                 | [] => []
                                 | (_, VUndef) :: o => go o
                                 | (k, v) :: o => (k, json_norm v) :: go o
                                 end) o)
  | _ => v
  end.

(** [JSON.stringify(a) === JSON.stringify(b)] *)
Definition same_json (a b : value) : bool := json_norm a ==? json_norm b.

(** ** Lemmas *)

Lemma get_set_eq k v o : get k (om_set k v o) = v.
Proof. unfold get. by rewrite om_get_set_eq. Qed.

Lemma get_set_ne k k' v o : k ≠ k' → get k' (om_set k v o) = get k' o.
Proof. intros. unfold get. by rewrite om_get_set_ne. Qed.

Lemma om_get_spread k o1 o2 :
  NoDup (om_keys o2) →
  om_get k (spread o1 o2) = match om_get k o2 with Some v => Some v | None => om_get k o1 end.
Proof.
  unfold spread. revert o1. induction o2 as [|[k' v'] o2 IH]; intros o1; [done|]. simpl.
  rewrite NoDup_cons. intros [Hk Ho2]. rewrite IH by done.
  destruct (om_get k o2) eqn:E; case_bool_decide as Ek; subst.
  - apply om_get_Some_elem in E. exfalso. apply Hk, elem_of_lmap. by exists (k, v).
  - done.
  - by rewrite om_get_set_eq.
  - by rewrite om_get_set_ne.
Qed.

Lemma get_spread k o1 o2 :
  NoDup (om_keys o2) →
  get k (spread o1 o2) = if om_has k o2 then get k o2 else get k o1.
Proof. intros H. unfold get, om_has. rewrite om_get_spread by done. by destruct (om_get k o2). Qed.

Lemma spread_NoDup o1 o2 : NoDup (om_keys o1) → NoDup (om_keys (spread o1 o2)).
Proof.
  unfold spread. revert o1. induction o2 as [|[k v] o2 IH]; intros o1 H; [done|]. simpl.
  apply IH. by apply om_set_NoDup.
Qed.

#[export] Hint Resolve spread_NoDup : voip.

Lemma om_get_set k k' v (o : obj) :
  om_get k' (om_set k v o) = if k ==? k' then Some v else om_get k' o.
Proof.
  case_bool_decide as E; [subst; apply om_get_set_eq|by apply om_get_set_ne].
Qed.

(** Equal keys in equal order and equal properties: equal objects. *)
Lemma om_ext (a b : obj) :
  om_keys a = om_keys b → NoDup (om_keys a) → (∀ k, om_get k a = om_get k b) → a = b.
Proof.
  revert b. induction a as [|[k v] a IH]; intros [|[k' v'] b]; simpl; try done.
  intros [= -> E]. rewrite NoDup_cons. intros [Hk Ha] H.
  pose proof (H k') as Hv. rewrite bool_decide_eq_true_2 in Hv by done. simplify_eq.
  f_equal. apply IH; [done|done|]. intros k. specialize (H k).
  case_bool_decide; [subst|done].
  by rewrite (proj2 (om_get_None k a)), (proj2 (om_get_None k b)) by (rewrite <- ?E; done).
Qed.

Lemma om_set_same k v (o : obj) : om_get k o = Some v → om_set k v o = o.
Proof.
  induction o as [|[k' v'] o IH]; simpl; [done|].
  case_bool_decide; intros; simplify_eq; [done|]. by rewrite IH.
Qed.

Lemma om_keys_spread (o1 o2 : obj) :
  NoDup (om_keys o2) →
  om_keys (spread o1 o2) = om_keys o1 ++ List.filter (λ k, negb (includes (om_keys o1) k)) (om_keys o2).
Proof.
  unfold spread. revert o1. induction o2 as [|[k v] o2 IH]; intros o1; simpl; [by rewrite app_nil_r|].
  rewrite NoDup_cons. intros [Hk Ho2]. rewrite IH by done. rewrite om_keys_set.
  destruct (om_has k o1) eqn:E.
  - apply om_has_true in E. by rewrite (proj2 (includes_true _ _)) by done.
  - apply om_has_false in E. rewrite (proj2 (includes_false _ _)) by done. simpl.
    rewrite <- app_assoc. simpl. do 2 f_equal. apply List.filter_ext_in.
    intros k' Hk'%list_elem_of_In. f_equal. apply eq_true_iff_eq.
    rewrite !includes_true. set_solver.
Qed.

Lemma spread_nil (o : obj) : NoDup (om_keys o) → spread [] o = o.
Proof.
  intros H. apply om_ext; [|by apply spread_NoDup, NoDup_nil_2|].
  - rewrite om_keys_spread by done. simpl. by apply lfilter_all.
  - intros k. rewrite om_get_spread by done. by destruct (om_get k o).
Qed.

(** Spreading over defaults whose keys come first already changes nothing. *)
Lemma spread_prefix (base o : obj) :
  om_keys base `prefix_of` om_keys o → NoDup (om_keys o) → spread base o = o.
Proof.
  intros [rest E] Ho. pose proof Ho as Ho'. rewrite E in Ho. apply NoDup_app in Ho as (Hb & Hd & Hr).
  apply om_ext; [|by apply spread_NoDup|].
  - rewrite om_keys_spread, E, List.filter_app by done. f_equal.
    assert (List.filter (λ k, negb (includes (om_keys base) k)) (om_keys base) = []) as ->.
    { apply lfilter_none. intros k Hk. by rewrite (proj2 (includes_true _ _)). }
    apply lfilter_all. intros k Hk.
    rewrite (proj2 (includes_false _ _)); [done|]. intros ?. by eapply Hd.
  - intros k. rewrite om_get_spread by done. destruct (om_get k o) eqn:Ek; [done|].
    apply om_get_None in Ek. apply om_get_None. rewrite E in Ek. set_solver.
Qed.

Lemma prefix_set (l : list string) k v (o : obj) :
  l `prefix_of` om_keys o → l `prefix_of` om_keys (om_set k v o).
Proof.
  rewrite om_keys_set. destruct (om_has k o); [done|]. apply prefix_app_r.
Qed.

Lemma prefix_spread (o1 o2 : obj) : om_keys o1 `prefix_of` om_keys (spread o1 o2).
Proof.
  unfold spread. revert o1. induction o2 as [|[k v] o2 IH]; intros o1; simpl; [done|].
  etrans; [|apply IH]. by apply prefix_set.
Qed.

#[export] Hint Resolve prefix_set prefix_spread : voip.

Lemma same_json_refl v : same_json v v = true.
Proof. unfold same_json. by apply bool_decide_eq_true. Qed.

Lemma norm_varr {A} (f : A → value) l :
  (∀ x, f x ≠ VUndef) → json_norm (varr f l) = VArr (List.map (λ x, json_norm (f x)) l).
Proof.
  intros Hf. unfold varr. cbn. f_equal. induction l as [|x l IH]; [done|]. cbn. rewrite IH.
  specialize (Hf x). by destruct (f x).
Qed.

Lemma obj2_inv k k' l1 l2 l1' l2' :
  VObj [(k, VArr l1); (k', VArr l2)] = VObj [(k, VArr l1'); (k', VArr l2')] → l1 = l1' ∧ l2 = l2'.
Proof. by intros [= -> ->]. Qed.

Lemma Z_of_num_of_Z z : Z_of_num (num_of_Z z) = Some z.
Proof. unfold Z_of_num, num_of_Z, Q_is_int. simpl. by rewrite Z.mod_1_r, Z.div_1_r. Qed.

Lemma Q_round_int z : Q_round (inject_Z z) = z.
Proof.
  unfold Q_round, Qfloor, Qplus, inject_Z. cbn -[Z.div Z.mul].
  symmetry. apply (Z.div_unique _ _ _ 1); lia.
Qed.

Lemma math_round_int z : math_round (num_of_Z z) = num_of_Z z.
Proof. unfold math_round, num_of_Z. by rewrite Q_round_int. Qed.

Lemma math_round_idemp n : math_round (math_round n) = math_round n.
Proof. destruct n; simpl; [|done..]. apply math_round_int. Qed.

(** ** Tactics *)

(** Reads through a chain of property writes with literal keys. *)
Ltac get_simpl :=
  repeat first
    [ rewrite get_set_eq | rewrite get_set_ne by discriminate
    | rewrite om_get_set_eq | rewrite om_get_set_ne by discriminate ].
