(* ===== verification/Blocks.v ===== *)
(** * The IVR block catalog ([flow/model/blocks.ts])

    Block types, palette, keypad digits, time zones, limits, default configs,
    and the exits ("out handles") each block offers.  The record
    [BlockLike] is the source's structural interface of the same name: the
    layout, the compiler and the store use it on their own node types. *)
From S2P Require Import Prelude JsString JsValue.

Local Open Scope string_scope.
Local Open Scope nat_scope.
Local Open Scope list_scope.

(** ** Block types ([types/ivr.ts]) *)

Inductive IvrNodeType :=
  | entry | play | menu | schedule | condition | dial | voicemail | goto | hangup.

#[export] Instance IvrNodeType_eq_dec : EqDecision IvrNodeType.
Proof. solve_decision. Defined.

Definition all_types : list IvrNodeType :=
  [entry; play; menu; schedule; condition; dial; voicemail; goto; hangup].

(** The JavaScript string a type is. *)
Definition type_name (t : IvrNodeType) : string :=
  match t with
  | entry => "entry" | play => "play" | menu => "menu" | schedule => "schedule"
  | condition => "condition" | dial => "dial" | voicemail => "voicemail"
  | goto => "goto" | hangup => "hangup"
  end.

Definition type_of_name (s : string) : option IvrNodeType :=
  find (λ t, type_name t ==? s) all_types.

Record BlockMeta := {
  bm_type : IvrNodeType;
  bm_label : string;
  bm_description : string;
  bm_hint : string;
  bm_terminal : bool;
}.

Definition BLOCKS (t : IvrNodeType) : BlockMeta :=
  match t with
  | entry => Build_BlockMeta entry "Start" "Where every call begins." "Where calls begin" false
  | play => Build_BlockMeta play "Play message" "Play one or more recordings or read text aloud." "Recordings or speech" false
  | menu => Build_BlockMeta menu "Menu" "Ask the caller to press a key, then branch on it." "Press 1, press 2…" false
  | schedule => Build_BlockMeta schedule "Business hours" "Route differently when you are open or closed." "Open and closed routes" false
  | condition => Build_BlockMeta condition "Caller check" "Branch on the caller’s number." "Branch on the caller" false
  | dial => Build_BlockMeta dial "Transfer" "Ring one of your numbers or an outside US number." "Ring a number" false
  | voicemail => Build_BlockMeta voicemail "Voicemail" "Let the caller leave a message in one of your mailboxes." "Take a message" true
  | goto => Build_BlockMeta goto "Go to" "Jump back to another block, such as “repeat the menu”." "Jump back, e.g. repeat" true
  | hangup => Build_BlockMeta hangup "Hang up" "Optionally say goodbye, then end the call." "End the call" true
  end.

Record PaletteGroup := {
  pg_id : string;
  pg_label : string;
  pg_types : list IvrNodeType;
}.

Definition PALETTE_GROUPS : list PaletteGroup := [
  Build_PaletteGroup "talk" "Talk to the caller" [play; menu];
  Build_PaletteGroup "decide" "Decide" [schedule; condition];
  Build_PaletteGroup "connect" "Connect the call" [dial; voicemail];
  Build_PaletteGroup "finish" "Finish" [goto; hangup]
].

Definition PALETTE_TYPES : list IvrNodeType := flat_map pg_types PALETTE_GROUPS.

(** [isIvrNodeType(value)], with the type it narrows to. *)
Definition isIvrNodeType (v : value) : option IvrNodeType :=
  match v with VStr s => type_of_name s | _ => None end.

Definition blockLabel (t : IvrNodeType) : string := bm_label (BLOCKS t).

(** ** Keys, days, time zones, limits *)

Definition DIGIT_ORDER : list string :=
  ["1"; "2"; "3"; "4"; "5"; "6"; "7"; "8"; "9"; "0"; "*"; "#"].

Definition isMenuDigit (s : string) : bool := includes DIGIT_ORDER s.

Definition sortDigits (digits : list string) : list string :=
  List.filter (λ d, includes digits d) DIGIT_ORDER.

Inductive DayKey := mon | tue | wed | thu | fri | sat | sun.

#[export] Instance DayKey_eq_dec : EqDecision DayKey.
Proof. solve_decision. Defined.

Definition DAY_KEYS : list DayKey := [mon; tue; wed; thu; fri; sat; sun].

Definition day_name (d : DayKey) : string :=
  match d with
  | mon => "mon" | tue => "tue" | wed => "wed" | thu => "thu" | fri => "fri" | sat => "sat" | sun => "sun"
  end.

(** [DAY_LABELS[day].short] and [.long] *)
Definition DAY_LABELS (d : DayKey) : string * string :=
  match d with
  | mon => ("Mon", "Monday") | tue => ("Tue", "Tuesday") | wed => ("Wed", "Wednesday")
  | thu => ("Thu", "Thursday") | fri => ("Fri", "Friday") | sat => ("Sat", "Saturday")
  | sun => ("Sun", "Sunday")
  end.

Definition TIMEZONES : list (string * string) := [
  ("America/New_York", "Eastern (New York)");
  ("America/Detroit", "Eastern (Detroit)");
  ("America/Chicago", "Central (Chicago)");
  ("America/Denver", "Mountain (Denver)");
  ("America/Phoenix", "Arizona (Phoenix, no daylight saving)");
  ("America/Los_Angeles", "Pacific (Los Angeles)");
  ("America/Anchorage", "Alaska (Anchorage)");
  ("Pacific/Honolulu", "Hawaii (Honolulu)");
  ("America/Puerto_Rico", "Atlantic (Puerto Rico, no daylight saving)")
].

Definition isIvrTimezone (s : string) : bool := existsb (λ t, t.1 ==? s) TIMEZONES.

Definition timezoneLabel (tz : string) : string :=
  match find (λ t, t.1 ==? tz) TIMEZONES with Some t => t.2 | None => tz end.

Module LIMITS.
Definition promptsPerBlock : nat := 10.
Definition digitsMin : nat := 1.
Definition digitsMax : nat := 12.
Definition timeoutSec : Z * Z := (1, 30)%Z.
Definition retries : Z * Z := (0, 5)%Z.
Definition ringTimeoutSec : Z * Z := (5, 120)%Z.
Definition conditionValues : nat * nat := (1, 50).
Definition rangesPerDay : nat := 4.
Definition blocks : Z := 200.
End LIMITS.

(** ** Defaults *)

Definition WEEKDAY : list (string * string) := [("09:00", "17:00")].

Definition vrange (r : string * string) : value := VArr [VStr r.1; VStr r.2].

(** A fresh config: the record of [configs], applied to the type. *)
Definition defaultConfig (t : IvrNodeType) : obj :=
  match t with
  | entry => []
  | play => [("prompts", VArr [])]
  | menu => [("prompts", VArr []); ("digits", VArr [VStr "1"; VStr "2"]);
             ("timeoutSec", vint 5); ("retries", vint 2)]
  | schedule =>
      [("tz", VStr "America/New_York");
       ("weekly", VObj (List.map (λ d, (day_name d, varr vrange WEEKDAY)) [mon; tue; wed; thu; fri]
                        ++ [("sat", VArr []); ("sun", VArr [])]));
       ("closedDates", VArr [])]
  | condition => [("mode", VStr "prefix"); ("values", VArr [])]
  | dial => [("target", VObj [("kind", VStr "own"); ("did", VStr "")]);
             ("passCallerId", VBool true); ("ringTimeoutSec", vint 30)]
  | voicemail => [("did", VStr "")]
  | goto => [("targetNodeId", VStr "")]
  | hangup => []
  end.

(** ** Exits *)

Inductive HandleKind := hk_next | hk_digit | hk_positive | hk_negative | hk_fallback.

Record OutHandle := {
  oh_id : string;
  oh_label : string;
  oh_kind : HandleKind;
  oh_digit : option string;
}.

Definition NEXT := "next".
Definition NO_INPUT := "noInput".
Definition NO_MATCH := "noMatch".
Definition OPEN := "open".
Definition CLOSED := "closed".
Definition MATCH := "match".
Definition NO_ANSWER := "noAnswer".

Definition digitHandle (d : string) : string := "d:" +:+ d.

Definition digitOfHandle (handle : option string) : option string :=
  match handle with
  | None => None
  | Some h =>
      if (h ==? "") || negb (starts_with "d:" h) then None
      else let d := slice_from 2 h in if isMenuDigit d then Some d else None
  end.

(** The structural view of a block. *)
Class BlockLike (N : Type) := {
  bl_type : N → IvrNodeType;
  bl_config : N → obj;
}.

(** The strings of [cfg.digits], when it is an array. *)
Definition config_digits (c : obj) : list string :=
  match get "digits" c with VArr l => omap as_string l | _ => [] end.

Definition digit_exit (d : string) : OutHandle :=
  Build_OutHandle (digitHandle d) ("Press " +:+ d) hk_digit (Some d).

Definition outHandles `{BlockLike A} (node : A) : list OutHandle :=
  match bl_type node with
  | entry => [Build_OutHandle NEXT "First" hk_next None]
  | play => [Build_OutHandle NEXT "Then" hk_next None]
  | menu =>
      let digits := sortDigits (config_digits (bl_config node)) in
      List.map digit_exit digits
      ++ [Build_OutHandle NO_INPUT "No key pressed" hk_fallback None;
          Build_OutHandle NO_MATCH "Wrong key" hk_fallback None]
  | schedule => [Build_OutHandle OPEN "Open" hk_positive None;
                 Build_OutHandle CLOSED "Closed" hk_negative None]
  | condition => [Build_OutHandle MATCH "Matches" hk_positive None;
                  Build_OutHandle NO_MATCH "Doesn’t match" hk_negative None]
  | dial => [Build_OutHandle NO_ANSWER "No answer or busy" hk_fallback None]
  | voicemail | goto | hangup => []
  end.

Definition has_exit `{BlockLike A} (node : A) (handle : string) : bool :=
  existsb (λ h, oh_id h ==? handle) (outHandles node).

Definition handleLabel `{BlockLike A} (node : A) (handle : string) : string :=
  match find (λ h, oh_id h ==? handle) (outHandles node) with
  | Some h => oh_label h
  | None => handle
  end.

(** ** Lemmas *)

Lemma type_of_name_name t : type_of_name (type_name t) = Some t.
Proof. by destruct t. Qed.

Lemma type_of_name_Some s t : type_of_name s = Some t → s = type_name t.
Proof. unfold type_of_name. intros [_ E]%find_some_iff. bool_hyps. done. Qed.

Lemma DIGIT_ORDER_NoDup : NoDup DIGIT_ORDER.
Proof. apply (bool_decide_unpack _). by vm_compute. Qed.

Lemma isMenuDigit_true d : isMenuDigit d = true ↔ d ∈ DIGIT_ORDER.
Proof. apply includes_true. Qed.

Lemma elem_of_sortDigits d l : d ∈ sortDigits l ↔ d ∈ l ∧ d ∈ DIGIT_ORDER.
Proof. unfold sortDigits. rewrite elem_of_lfilter, includes_true. tauto. Qed.

Lemma sortDigits_NoDup l : NoDup (sortDigits l).
Proof. apply NoDup_lfilter, DIGIT_ORDER_NoDup. Qed.

Lemma sortDigits_ext l1 l2 : (∀ d, d ∈ DIGIT_ORDER → d ∈ l1 ↔ d ∈ l2) → sortDigits l1 = sortDigits l2.
Proof.
  intros H. unfold sortDigits. apply List.filter_ext_in. intros d Hd.
  apply list_elem_of_In in Hd. apply eq_true_iff_eq. rewrite !includes_true. by apply H.
Qed.

Lemma sortDigits_idemp l : sortDigits (sortDigits l) = sortDigits l.
Proof. apply sortDigits_ext. intros d Hd. rewrite elem_of_sortDigits. tauto. Qed.

Lemma has_exit_true `{BlockLike A} (n : A) h :
  has_exit n h = true ↔ h ∈ List.map oh_id (outHandles n).
Proof.
  unfold has_exit. rewrite existsb_elem_of, elem_of_lmap. split.
  - intros (x & Hx & E). bool_hyps. eauto.
  - intros (x & -> & Hx). exists x. by rewrite bool_decide_eq_true.
Qed.

#[export] Hint Resolve sortDigits_NoDup DIGIT_ORDER_NoDup : voip.

Lemma omap_as_string_varr (l : list string) : omap as_string (List.map VStr l) = l.
Proof. induction l as [|s l IH]; csimpl; [done|]. by rewrite IH. Qed.

(** ** Properties *)

(** The exits of a block are distinct: no two share a handle id, so a
    handle names at most one exit, whatever keys the menu lists. *)
Theorem outHandles_NoDup `{BlockLike A} (n : A) : NoDup (List.map oh_id (outHandles n)).
Proof.
  unfold outHandles. destruct (bl_type n);
    try (apply (bool_decide_unpack _); by vm_compute).
  rewrite List.map_app, List.map_map. simpl. apply NoDup_app. split_and!.
  - apply NoDup_fmap_2_strong; [|apply sortDigits_NoDup].
    intros x y _ _. unfold digitHandle. by intros [= ->].
  - intros h Hh. apply elem_of_lmap in Hh as (d & -> & Hd).
    rewrite !elem_of_cons. unfold digitHandle, NO_INPUT, NO_MATCH. set_solver.
  - apply (bool_decide_unpack _). by vm_compute.
Qed.
