(* ===== verification/Graph.v ===== *)
(** * Draft graph and working graph ([flow/model/graph.ts])

    [fromGraph] reads the JSON draft the server stores into the builder's
    working nodes and edges; [toGraph] writes it back.  Keys the builder does
    not know ride along in [keep] objects; blocks of unknown types are kept
    aside. *)
From S2P Require Import Prelude JsString JsValue Blocks.

Local Open Scope string_scope.
Local Open Scope nat_scope.
Local Open Scope list_scope.

(** ** Working graph *)

Record Position := { pos_x : num; pos_y : num }.

#[export] Instance Position_eq_dec : EqDecision Position.
Proof. solve_decision. Defined.

(** [data.label] is absent when [None]; so are the keep objects. *)
Record BlockData := {
  bd_label : option string;
  bd_config : obj;
  bd_keepNode : option obj;
  bd_keepData : option obj;
}.

#[export] Instance BlockData_eq_dec : EqDecision BlockData.
Proof. solve_decision. Defined.

Record WorkNode := {
  wn_id : string;
  wn_type : IvrNodeType;
  wn_position : Position;
  wn_data : BlockData;
  wn_deletable : option bool;
}.

(** [data] is [{ keep }] when there is a keep object, else absent. *)
Record WorkEdge := {
  we_id : string;
  we_source : string;
  we_sourceHandle : string;
  we_target : string;
  we_keep : option obj;
}.

Record IvrViewport := { vp_x : num; vp_y : num; vp_zoom : num }.

Record WorkGraph := {
  wg_nodes : list WorkNode;
  wg_edges : list WorkEdge;
  wg_viewport : option IvrViewport;
  wg_keepGraph : obj;
  wg_foreignNodes : list obj;
}.

#[export] Instance WorkNode_BlockLike : BlockLike WorkNode :=
  { bl_type := wn_type; bl_config := λ n, bd_config (wn_data n) }.

(** [^[A-Za-z0-9_-]{1,40}$] *)
Definition id_char (a : ascii) : bool :=
  let c := code a in
  ((65 <=? c) && (c <=? 90) || (97 <=? c) && (c <=? 122) || (48 <=? c) && (c <=? 57)
   || (c =? 95) || (c =? 45))%Z.
Definition ID_RE (s : string) : bool :=
  sforall id_char s && (1 <=? String.length s)%nat && (String.length s <=? 40)%nat.

(** ** Reading helpers *)

(** The unknown keys of a record.  Writing [out.__proto__] sets a prototype,
    not an own property, so that one key is lost. *)
Definition pick (record : obj) (known : list string) : option obj :=
  match List.filter (λ kv, negb (includes known kv.1)) record with
  | [] => None
  | unknown => Some (List.filter (λ kv, kv.1 !=? "__proto__") unknown)
  end.

Definition num_or (v : value) (fallback : num) : num :=
  match v with VNum n => if is_finite n then n else fallback | _ => fallback end.

Definition keep_int (v : value) : bool :=
  match v with VNum n => is_integer n | _ => false end.
Definition ids (v : value) : value :=
  match v with VArr l => VArr (List.filter keep_int l) | _ => VArr [] end.

Definition strs (v : value) : list string :=
  match v with VArr l => omap as_string l | _ => [] end.

(** [base.k as number] *)
Definition base_num (k : string) (base : obj) : num :=
  match get k base with VNum n => n | _ => NaN end.

(** A day's ranges: two-element arrays of strings, copied. *)
Definition clean_range (v : value) : option value :=
  match v with VArr [VStr a; VStr b] => Some (VArr [VStr a; VStr b]) | _ => None end.

Definition elems (v : value) : list value := match v with VArr l => l | _ => [] end.

Definition record_or_empty (v : value) : obj := match v with VObj o => o | _ => [] end.

Definition merge_day (src weekly baseWeekly merged : obj) (day : string) : obj :=
  let ranges :=
    match get day weekly with
    | VArr l => l
    | _ => match get "weekly" src with VObj _ => [] | _ => elems (get day baseWeekly) end
    end in
  om_set day (VArr (omap clean_range ranges)) merged.

Definition normalize_schedule (base src out : obj) : obj :=
  let weekly := record_or_empty (get "weekly" src) in
  let baseWeekly := record_or_empty (get "weekly" base) in
  let merged := fold_left (merge_day src weekly baseWeekly) (om_keys baseWeekly) (spread [] weekly) in
  let out := om_set "weekly" (VObj merged) out in
  let out := om_set "tz" (match get "tz" src with VStr s => VStr s | _ => get "tz" base end) out in
  om_set "closedDates" (varr VStr (strs (get "closedDates" src))) out.

Definition normalize_target (v : value) : value :=
  let t := record_or_empty v in
  let str k := match get k t with VStr s => VStr s | _ => VStr "" end in
  if get "kind" t ==? VStr "external"
  then VObj (om_set "number" (str "number") (om_set "kind" (VStr "external") (spread [] t)))
  else VObj (om_set "did" (str "did") (om_set "kind" (VStr "own") (spread [] t))).

(** [if (src.k !== undefined) out.k = ids(src.k)] *)
Definition set_optional_ids (k : string) (src out : obj) : obj :=
  if is_defined (get k src) then om_set k (ids (get k src)) out else out.

Definition normalizeConfig (type : IvrNodeType) (raw : value) : obj :=
  let base := defaultConfig type in
  let src := record_or_empty raw in
  let out := spread base src in
  match type with
  | play => om_set "prompts" (ids (get "prompts" src)) out
  | menu =>
      let out := om_set "prompts" (ids (get "prompts" src)) out in
      let out := om_set "digits"
        (match get "digits" src with
         | VArr _ => varr VStr (sortDigits (List.filter isMenuDigit (strs (get "digits" src))))
         | _ => get "digits" base
         end) out in
      let out := om_set "timeoutSec" (VNum (num_or (get "timeoutSec" src) (base_num "timeoutSec" base))) out in
      let out := om_set "retries" (VNum (num_or (get "retries" src) (base_num "retries" base))) out in
      let out := set_optional_ids "invalidPrompts" src out in
      set_optional_ids "noInputPrompts" src out
  | schedule => normalize_schedule base src out
  | condition =>
      let mode := get "mode" src in
      let out := om_set "mode"
        (if (mode ==? VStr "equals") || (mode ==? VStr "anonymous") then mode else VStr "prefix") out in
      om_set "values" (varr VStr (strs (get "values" src))) out
  | dial =>
      let out := om_set "target" (normalize_target (get "target" src)) out in
      let out := om_set "passCallerId"
        (match get "passCallerId" src with VBool b => VBool b | _ => VBool true end) out in
      om_set "ringTimeoutSec" (VNum (num_or (get "ringTimeoutSec" src) (num_of_Z 30))) out
  | voicemail => om_set "did" (match get "did" src with VStr s => VStr s | _ => VStr "" end) out
  | goto =>
      om_set "targetNodeId" (match get "targetNodeId" src with VStr s => VStr s | _ => VStr "" end) out
  | hangup =>
      set_optional_ids "prompts" src out
  | entry => out
  end.

Definition NODE_KEYS := ["id"; "type"; "position"; "data"].
Definition DATA_KEYS := ["label"; "config"].
Definition EDGE_KEYS := ["id"; "source"; "sourceHandle"; "target"].
Definition GRAPH_KEYS := ["schemaVersion"; "nodes"; "edges"; "viewport"].

Definition str_or_empty (v : value) : string := match v with VStr s => s | _ => "" end.

(** The exit key [`${source}\u0000${handle}`]. *)
Definition slot_of (source handle : string) : string := source +:+ NUL +:+ handle.

(** Exit keys with printable handles are unambiguous. *)
Lemma split_at_NUL h1 t1 h2 t2 :
  sforall plain h1 = true → sforall plain h2 = true →
  h1 +:+ NUL +:+ t1 = h2 +:+ NUL +:+ t2 → h1 = h2 ∧ t1 = t2.
Proof.
  revert h2. induction h1 as [|a h1 IH]; intros [|b h2] H1 H2 E; simpl in *.
  - by injection E.
  - injection E as <- _. by apply andb_true_iff in H2 as [? _].
  - injection E as -> _. by apply andb_true_iff in H1 as [? _].
  - injection E as -> E. bool_hyps. destruct (IH h2) as [-> ->]; done.
Qed.

Lemma slot_of_inj s h s' h' :
  sforall plain h = true → sforall plain h' = true → slot_of s h = slot_of s' h' → s = s' ∧ h = h'.
Proof.
  intros Hh Hh' E. apply (f_equal srev) in E. unfold slot_of in E. rewrite !srev_app_distr in E.
  rewrite <- !sapp_assoc in E. apply split_at_NUL in E as [E1 E2]; [|by rewrite sforall_srev..].
  apply (f_equal srev) in E1, E2. rewrite !srev_involutive in E1, E2. done.
Qed.

(** The exits of a block are named without [NUL], so exit keys are unambiguous. *)
Lemma has_exit_plain `{BlockLike A} (n : A) h : has_exit n h = true → sforall plain h = true.
Proof.
  unfold has_exit. rewrite existsb_elem_of. intros (x & Hx & E). apply bool_decide_eq_true in E as <-.
  revert Hx. unfold outHandles. destruct (bl_type n);
    try (intros Hx; repeat (apply elem_of_cons in Hx as [->|Hx]; [done|]); by apply not_elem_of_nil in Hx).
  intros [(d & -> & [_ Hd]%elem_of_sortDigits)%elem_of_lmap|Hx]%elem_of_app.
  - unfold DIGIT_ORDER in Hd. repeat (apply elem_of_cons in Hd as [->|Hd]; [done|]). by apply not_elem_of_nil in Hd.
  - repeat (apply elem_of_cons in Hx as [->|Hx]; [done|]). by apply not_elem_of_nil in Hx.
Qed.

(** ** Reading the server's graph *)

(** [nanoid]: the k-th id drawn by the session. *)
Class IdSupply := nano : nat → string.

Definition newNodeId `{IdSupply} (k : nat) : string := "n_" +:+ nano k.
Definition newEdgeId `{IdSupply} (k : nat) : string := "e_" +:+ nano k.

Record node_acc := {
  na_nodes : list WorkNode;
  na_foreign : list obj;
  na_seen : list string;
}.

Definition read_node_data (raw : obj) (type : IvrNodeType) : BlockData :=
  let data := record_or_empty (get "data" raw) in
  {| bd_label := match get "label" data with
                 | VStr s => if s ==? "" then None else Some s
                 | _ => None
                 end;
     bd_config := normalizeConfig type (get "config" data);
     bd_keepNode := pick raw NODE_KEYS;
     bd_keepData := pick data DATA_KEYS |}.

Definition read_position (raw : obj) : Position :=
  let pos := record_or_empty (get "position" raw) in
  {| pos_x := num_or (get "x" pos) (num_of_Z 0); pos_y := num_or (get "y" pos) (num_of_Z 0) |}.

(** One turn of the loop over [rawNodes]. *)
Definition read_node (acc : node_acc) (v : value) : node_acc :=
  match v with
  | VObj raw =>
      let id := str_or_empty (get "id" raw) in
      if (id ==? "") || includes (na_seen acc) id then acc
      else match isIvrNodeType (get "type" raw) with
           | None =>
               {| na_nodes := na_nodes acc; na_foreign := na_foreign acc ++ [raw];
                  na_seen := id :: na_seen acc |}
           | Some type =>
               {| na_nodes := na_nodes acc ++
                    [{| wn_id := id; wn_type := type; wn_position := read_position raw;
                        wn_data := read_node_data raw type; wn_deletable := None |}];
                  na_foreign := na_foreign acc; na_seen := id :: na_seen acc |}
           end
  | _ => acc
  end.

Definition is_entry (n : WorkNode) : bool := wn_type n ==? entry.

Definition set_undeletable (n : WorkNode) : WorkNode :=
  {| wn_id := wn_id n; wn_type := wn_type n; wn_position := wn_position n;
     wn_data := wn_data n; wn_deletable := Some false |}.

(** Marks the first Start; [None] when there is none. *)
Fixpoint mark_entry (l : list WorkNode) : option (list WorkNode) :=
  match l with
  | [] => None
  | n :: l => if is_entry n then Some (set_undeletable n :: l)
              else match mark_entry l with Some l' => Some (n :: l') | None => None end
  end.

Definition fresh_entry (id : string) : WorkNode :=
  {| wn_id := id; wn_type := entry; wn_position := Build_Position (num_of_Z 0) (num_of_Z 0);
     wn_data := Build_BlockData None [] None None; wn_deletable := Some false |}.

(** Exactly one editable Start: with the id supply's next state. *)
Definition ensure_entry `{IdSupply} (k : nat) (l : list WorkNode) : list WorkNode * nat :=
  match mark_entry l with
  | Some l' => (l', k)
  | None => (fresh_entry (newNodeId k) :: l, S k)
  end.

Record edge_acc := {
  ea_edges : list WorkEdge;
  ea_usedHandles : list string;
  ea_edgeIds : list string;
  ea_supply : nat;
}.

(** The edge id: the stored one, else a new one; a new one again when taken. *)
Definition read_edge_id `{IdSupply} (raw : obj) (taken : list string) (k : nat) : string * nat :=
  let '(id, k) := match get "id" raw with
                  | VStr s => if s ==? "" then (newEdgeId k, S k) else (s, k)
                  | _ => (newEdgeId k, S k)
                  end in
  if includes taken id then (newEdgeId k, S k) else (id, k).

(** One turn of the loop over [rawEdges]; [types] is [byId]. *)
Definition read_edge `{IdSupply} (types : list (string * IvrNodeType)) (acc : edge_acc) (v : value) : edge_acc :=
  match v with
  | VObj raw =>
      let source := str_or_empty (get "source" raw) in
      let target := str_or_empty (get "target" raw) in
      let handle := match get "sourceHandle" raw with
                    | VStr s => if s ==? "" then "next" else s
                    | _ => "next"
                    end in
      if negb (om_has source types) || negb (om_has target types) then acc
      else if om_get target types ==? Some entry then acc
      else
        let slot := slot_of source handle in
        if includes (ea_usedHandles acc) slot then acc
        else
          let '(id, k) := read_edge_id raw (ea_edgeIds acc) (ea_supply acc) in
          {| ea_edges := ea_edges acc ++
               [{| we_id := id; we_source := source; we_sourceHandle := handle;
                   we_target := target; we_keep := pick raw EDGE_KEYS |}];
             ea_usedHandles := slot :: ea_usedHandles acc;
             ea_edgeIds := id :: ea_edgeIds acc;
             ea_supply := k |}
  | _ => acc
  end.

Definition read_viewport (v : value) : option IvrViewport :=
  match v with
  | VObj vp =>
      match get "x" vp, get "y" vp, get "zoom" vp with
      | VNum x, VNum y, VNum z => Some (Build_IvrViewport x y z)
      | _, _, _ => None
      end
  | _ => None
  end.

Definition node_types (nodes : list WorkNode) : list (string * IvrNodeType) :=
  om_of_list (List.map (λ n, (wn_id n, wn_type n)) nodes).

Definition fromGraph `{IdSupply} (k : nat) (input : value) : WorkGraph * nat :=
  let g := record_or_empty input in
  let rawNodes := elems (get "nodes" g) in
  let rawEdges := elems (get "edges" g) in
  let na := fold_left read_node rawNodes (Build_node_acc [] [] []) in
  let '(nodes, k) := ensure_entry k (na_nodes na) in
  let ea := fold_left (read_edge (node_types nodes)) rawEdges (Build_edge_acc [] [] [] k) in
  ({| wg_nodes := nodes;
      wg_edges := ea_edges ea;
      wg_viewport := read_viewport (get "viewport" g);
      wg_keepGraph := default [] (pick g GRAPH_KEYS);
      wg_foreignNodes := na_foreign na |}, ea_supply ea).

(** ** Writing the graph the API stores *)

Record NodeInput := {
  ni_id : string;
  ni_type : option string;
  ni_position : Position;
  ni_data : BlockData;
}.

Record EdgeInput := {
  ei_id : string;
  ei_source : string;
  ei_sourceHandle : option string;
  ei_target : string;
  ei_keep : option obj;
}.

Definition node_input (n : WorkNode) : NodeInput :=
  Build_NodeInput (wn_id n) (Some (type_name (wn_type n))) (wn_position n) (wn_data n).
Definition edge_input (e : WorkEdge) : EdgeInput :=
  Build_EdgeInput (we_id e) (we_source e) (Some (we_sourceHandle e)) (we_target e) (we_keep e).

Definition out_data (d : BlockData) : obj :=
  let o := spread [] (default [] (bd_keepData d)) in
  let o := match bd_label d with
           | Some l => if l ==? "" then o else om_set "label" (VStr l) o
           | None => o
           end in
  om_set "config" (VObj (bd_config d)) o.

Definition round_position (p : Position) : Position :=
  Build_Position (math_round (pos_x p)) (math_round (pos_y p)).

Definition vposition (p : Position) : value := VObj [("x", VNum (pos_x p)); ("y", VNum (pos_y p))].

Definition out_node (n : NodeInput) (type : string) : obj :=
  let o := spread [] (default [] (bd_keepNode (ni_data n))) in
  let o := om_set "id" (VStr (ni_id n)) o in
  let o := om_set "type" (VStr type) o in
  let o := om_set "position" (vposition (round_position (ni_position n))) o in
  om_set "data" (VObj (out_data (ni_data n))) o.

(** Nodes of a known type only. *)
Definition out_nodes (nodes : list NodeInput) : list value :=
  omap (λ n, match ni_type n with
             | Some s => match type_of_name s with
                         | Some _ => Some (VObj (out_node n s))
                         | None => None
                         end
             | None => None
             end) nodes.

Definition out_edge (e : EdgeInput) : obj :=
  let o := spread [] (default [] (ei_keep e)) in
  let o := om_set "id" (VStr (ei_id e)) o in
  let o := om_set "source" (VStr (ei_source e)) o in
  let o := om_set "sourceHandle" (VStr (default "next" (ei_sourceHandle e))) o in
  om_set "target" (VStr (ei_target e)) o.

Definition round_viewport (vp : IvrViewport) : IvrViewport :=
  Build_IvrViewport (math_round (vp_x vp)) (math_round (vp_y vp))
    (num_unscale 1000 (math_round (num_scale 1000 (vp_zoom vp)))).

Definition vviewport (vp : IvrViewport) : value :=
  VObj [("x", VNum (vp_x vp)); ("y", VNum (vp_y vp)); ("zoom", VNum (vp_zoom vp))].

Definition toGraph (nodes : list NodeInput) (edges : list EdgeInput) (viewport : option IvrViewport)
    (keepGraph : obj) (foreignNodes : list obj) : value :=
  let o := spread [] keepGraph in
  let o := om_set "schemaVersion" (vint 1) o in
  let o := om_set "nodes" (VArr (out_nodes nodes ++ List.map VObj foreignNodes)) o in
  let o := om_set "edges" (VArr (List.map (λ e, VObj (out_edge e)) edges)) o in
  VObj (match viewport with
        | Some vp => om_set "viewport" (vviewport (round_viewport vp)) o
        | None => o
        end).

(** [toGraph(w.nodes, w.edges, w.viewport, w)] *)
Definition write_work (w : WorkGraph) : value :=
  toGraph (List.map node_input (wg_nodes w)) (List.map edge_input (wg_edges w))
    (wg_viewport w) (wg_keepGraph w) (wg_foreignNodes w).

Definition emptyGraph `{IdSupply} (k : nat) : value * nat :=
  (VObj [("schemaVersion", vint 1);
         ("nodes", VArr [VObj [("id", VStr (newNodeId k)); ("type", VStr "entry");
                               ("position", VObj [("x", vint 0); ("y", vint 0)]);
                               ("data", VObj [("config", VObj [])])]]);
         ("edges", VArr [])], S k).

(** ** Lemmas: configs *)

Lemma omap_clean_range_idemp (l : list value) : omap clean_range (omap clean_range l) = omap clean_range l.
Proof.
  induction l as [|v l IH]; [done|].
  destruct v as [| | | | |[|[] [|[] [|]]]|]; csimpl; rewrite ?IH; done.
Qed.

Lemma ids_idemp v : ids (ids v) = ids v.
Proof.
  destruct v as [| | | | |l|]; try done. simpl. f_equal.
  apply lfilter_all. intros x Hx. by apply elem_of_lfilter in Hx as [_ ?].
Qed.

Lemma strs_varr l : strs (varr VStr l) = l.
Proof. apply omap_as_string_varr. Qed.

Lemma num_or_idemp v d : num_or (VNum (num_or v d)) d = num_or v d.
Proof.
  destruct v as [| | |n| | |]; simpl; try (by destruct (is_finite d)).
  destruct (is_finite n) eqn:E; simpl; [by rewrite E|by destruct (is_finite d)].
Qed.

Lemma sortDigits_clean l :
  sortDigits (List.filter isMenuDigit (sortDigits (List.filter isMenuDigit l)))
  = sortDigits (List.filter isMenuDigit l).
Proof.
  rewrite lfilter_all; [apply sortDigits_idemp|].
  intros d [_ Hd]%elem_of_sortDigits. by apply isMenuDigit_true.
Qed.

Lemma normalize_target_idemp v : normalize_target (normalize_target v) = normalize_target v.
Proof.
  unfold normalize_target at 2 3. destruct (get "kind" (record_or_empty v) ==? VStr "external");
    unfold normalize_target; simpl; get_simpl; rewrite ?bool_decide_eq_true_2, ?bool_decide_eq_false_2 by done;
    (rewrite spread_nil by (eauto 6 using NoDup_nil_2 with voip));
    f_equal; rewrite (om_set_same "kind") by (by get_simpl);
    apply om_set_same; get_simpl; by case_match.
Qed.

(** The days of the default schedule. *)
Definition weekly_days : list string := List.map day_name DAY_KEYS.

Lemma merge_day_keeps (src weekly bw merged : obj) day :
  get day weekly = get day merged → (∃ l, get day merged = VArr (omap clean_range l)) →
  merge_day src weekly bw merged day = merged.
Proof.
  intros E [l El]. unfold merge_day. rewrite E, El.
  rewrite omap_clean_range_idemp. apply om_set_same.
  unfold get in El. destruct (om_get day merged); simpl in El; congruence.
Qed.

Definition day_clean (o : obj) (day : string) : Prop :=
  ∃ l : list value, get day o = VArr (omap clean_range l).

Lemma merge_day_clean (src : obj) weekly bw m d d' :
  d = d' ∨ day_clean m d → day_clean (merge_day src weekly bw m d') d.
Proof.
  unfold day_clean, merge_day. intros H. destruct (decide (d' = d)) as [->|Hne].
  - rewrite get_set_eq. eauto.
  - rewrite get_set_ne by done. naive_solver.
Qed.

Lemma fold_merge_clean (src weekly bw : obj) days m d :
  d ∈ days ∨ day_clean m d → day_clean (fold_left (merge_day src weekly bw) days m) d.
Proof.
  revert m. induction days as [|d' days IH]; intros m H; simpl; [set_solver|].
  apply IH. destruct (decide (d ∈ days)); [by left|right].
  apply merge_day_clean. set_solver.
Qed.

Lemma fold_merge_id (src bw : obj) days (m : obj) :
  (∀ d, d ∈ days → day_clean m d) → fold_left (merge_day src m bw) days m = m.
Proof.
  intros H. induction days as [|d days IH]; simpl; [done|].
  rewrite (merge_day_keeps src m) by (first [done | apply H; set_solver]).
  apply IH. set_solver.
Qed.

Lemma merge_day_NoDup src weekly bw m d : NoDup (om_keys m) → NoDup (om_keys (merge_day src weekly bw m d)).
Proof. apply om_set_NoDup. Qed.

Lemma fold_merge_NoDup src weekly bw days m :
  NoDup (om_keys m) → NoDup (om_keys (fold_left (merge_day src weekly bw) days m)).
Proof. revert m. induction days; intros m H; simpl; [done|]. eauto using merge_day_NoDup. Qed.

(** A config is settled when reading it again changes nothing. *)
Definition settled (t : IvrNodeType) (c : obj) : Prop := normalizeConfig t (VObj c) = c.

Lemma defaultConfig_NoDup t : NoDup (om_keys (defaultConfig t)).
Proof. destruct t; apply (bool_decide_unpack _); by vm_compute. Qed.

#[export] Hint Resolve defaultConfig_NoDup NoDup_nil_2 : voip.

Lemma om_get_optional_ne k k' src out :
  k ≠ k' → om_get k' (set_optional_ids k src out) = om_get k' out.
Proof. intros. unfold set_optional_ids. case_match; [by apply om_get_set_ne|done]. Qed.

Lemma optional_NoDup k src out : NoDup (om_keys out) → NoDup (om_keys (set_optional_ids k src out)).
Proof. intros. unfold set_optional_ids. case_match; auto with voip. Qed.

Lemma optional_prefix l k src out :
  l `prefix_of` om_keys out → l `prefix_of` om_keys (set_optional_ids k src out).
Proof. intros. unfold set_optional_ids. case_match; auto with voip. Qed.

#[local] Hint Resolve optional_NoDup optional_prefix : voip.

Lemma normalizeConfig_shape t raw :
  NoDup (om_keys (normalizeConfig t raw)) ∧
  om_keys (defaultConfig t) `prefix_of` om_keys (normalizeConfig t raw).
Proof.
  unfold normalizeConfig, normalize_schedule. destruct t; split; eauto 12 with voip.
Qed.

Lemma spread_default_settled t raw :
  spread (defaultConfig t) (normalizeConfig t raw) = normalizeConfig t raw.
Proof. destruct (normalizeConfig_shape t raw). by apply spread_prefix. Qed.

#[local] Arguments num_or : simpl never.

(** [om_set k v c = c] when [c] already holds [v] at [k]. *)
Ltac same_at k :=
  rewrite (om_set_same k) by (unfold normalizeConfig, get; simpl;
    repeat rewrite om_get_optional_ne by discriminate; get_simpl; unfold varr; simpl;
    rewrite ?ids_idemp, ?num_or_idemp, ?strs_varr, ?omap_as_string_varr, ?normalize_target_idemp;
    repeat case_match; simplify_eq/=; rewrite ?omap_as_string_varr, ?sortDigits_clean; reflexivity).

(** The keys of a JavaScript object are distinct. *)
Definition keys_ok (v : value) : Prop := NoDup (om_keys (record_or_empty v)).

Lemma optional_ids_same k c :
  (is_defined (get k c) = true → ids (get k c) = get k c) → set_optional_ids k c c = c.
Proof.
  unfold set_optional_ids. intros H. destruct (is_defined (get k c)) eqn:E; [|done].
  rewrite H by done. apply om_set_same. unfold get in *. by destruct (om_get k c).
Qed.

(** What an optional list of ids reads back as, nothing else writing it. *)
Lemma optional_ids_clean k src out :
  (is_defined (get k src) = false → is_defined (get k out) = false) →
  is_defined (get k (set_optional_ids k src out)) = true →
  ids (get k (set_optional_ids k src out)) = get k (set_optional_ids k src out).
Proof.
  unfold set_optional_ids. destruct (is_defined (get k src)).
  - rewrite get_set_eq, ids_idemp. done.
  - intros H. by rewrite H.
Qed.

Lemma get_spread_undef k base raw :
  keys_ok raw → get k base = VUndef → is_defined (get k (record_or_empty raw)) = false →
  is_defined (get k (spread base (record_or_empty raw))) = false.
Proof. intros Hk Hb H. rewrite get_spread by done. destruct (om_has k _); [done|by rewrite Hb]. Qed.

Lemma get_optional_ne k k' src out : k ≠ k' → get k' (set_optional_ids k src out) = get k' out.
Proof. intros. unfold get. by rewrite om_get_optional_ne. Qed.

Lemma menu_settled raw : keys_ok raw → settled menu (normalizeConfig menu raw).
Proof.
  intros Hr. unfold settled. unfold normalizeConfig at 1. cbv zeta. cbn [record_or_empty].
  rewrite spread_default_settled. cbv iota.
  same_at "prompts". same_at "digits". same_at "timeoutSec". same_at "retries".
  rewrite (optional_ids_same "invalidPrompts").
  - apply optional_ids_same. unfold normalizeConfig. cbv zeta iota.
    apply optional_ids_clean. intros E. rewrite get_optional_ne by discriminate. get_simpl.
    by apply get_spread_undef.
  - unfold normalizeConfig. cbv zeta iota. rewrite get_optional_ne by discriminate.
    apply optional_ids_clean. get_simpl. by apply get_spread_undef.
Qed.

Lemma hangup_settled raw : keys_ok raw → settled hangup (normalizeConfig hangup raw).
Proof.
  intros Hr. unfold settled. unfold normalizeConfig at 1. cbv zeta. cbn [record_or_empty].
  rewrite spread_default_settled. cbv iota. apply optional_ids_same.
  unfold normalizeConfig. cbv zeta iota. apply optional_ids_clean. by apply get_spread_undef.
Qed.

Lemma schedule_get raw :
  ∃ m tz l, NoDup (om_keys m) ∧ (∀ d, d ∈ weekly_days → day_clean m d) ∧
    om_get "weekly" (normalizeConfig schedule raw) = Some (VObj m) ∧
    om_get "tz" (normalizeConfig schedule raw) = Some (VStr tz) ∧
    om_get "closedDates" (normalizeConfig schedule raw) = Some (varr VStr l).
Proof.
  unfold normalizeConfig, normalize_schedule. cbv zeta iota.
  match goal with |- context [fold_left ?f ?d (spread [] ?w)] => set (m := fold_left f d (spread [] w)) end.
  exists m, (match get "tz" (record_or_empty raw) with VStr s => s | _ => "America/New_York" end).
  eexists. split_and!; [| |by get_simpl|get_simpl; by case_match|by get_simpl].
  - apply fold_merge_NoDup. auto with voip.
  - intros d Hd. apply fold_merge_clean. by left.
Qed.

Lemma schedule_settled raw : settled schedule (normalizeConfig schedule raw).
Proof.
  destruct (schedule_get raw) as (m & tz & l & Hm & Hd & E1 & E2 & E3).
  unfold settled. unfold normalizeConfig at 1. cbv zeta. cbn [record_or_empty].
  rewrite spread_default_settled. cbv iota. set (c := normalizeConfig schedule raw) in *.
  assert (get "weekly" c = VObj m) as Ew by (unfold get; by rewrite E1).
  unfold normalize_schedule. cbv zeta. rewrite !Ew. cbn [record_or_empty].
  rewrite (om_set_same "weekly").
  2:{ rewrite E1, spread_nil by done. do 2 f_equal.
      symmetry. exact (fold_merge_id c _ weekly_days m Hd). }
  rewrite (om_set_same "tz") by (unfold get; rewrite E2; done).
  apply om_set_same. unfold get. rewrite E3. simpl. by rewrite omap_as_string_varr.
Qed.

(** Reading a config twice is reading it once: what loading writes, it
    leaves alone when it meets it again, for all nine block types. *)
Theorem normalizeConfig_settled t raw : keys_ok raw → settled t (normalizeConfig t raw).
Proof.
  intros Hr. destruct t; auto using schedule_settled, menu_settled, hangup_settled;
    unfold settled; unfold normalizeConfig at 1; cbv zeta; cbn [record_or_empty];
    rewrite spread_default_settled; cbv iota.
  - done.
  - by same_at "prompts".
  - same_at "mode". by same_at "values".
  - same_at "target". same_at "passCallerId". by same_at "ringTimeoutSec".
  - by same_at "did".
  - by same_at "targetNodeId".
Qed.

(** ** What a working graph satisfies *)

Inductive wf_value : value → Prop :=
  | wf_atom v : match v with VArr _ | VObj _ => False | _ => True end → wf_value v
  | wf_arr l : (∀ v, v ∈ l → wf_value v) → wf_value (VArr l)
  | wf_obj o : NoDup (om_keys o) → (∀ k, wf_value (get k o)) → wf_value (VObj o).

Definition raw_ids (key : string) (input : value) : list string :=
  omap (λ v, match v with VObj o => as_string (get "id" o) | _ => None end)
    (elems (get key (record_or_empty input))).

(** The collision resistance [nanoid] promises, from the k-th draw on. *)
Definition FreshSupply `{IdSupply} (k : nat) (input : value) : Prop :=
  (∀ i j, nano i = nano j → i = j) ∧
  (∀ j, k ≤ j → newNodeId j ∉ raw_ids "nodes" input) ∧
  (∀ j, k ≤ j → newEdgeId j ∉ raw_ids "edges" input).

Definition keep_ok (known : list string) (keep : option obj) : Prop :=
  match keep with
  | None => True
  | Some o => NoDup (om_keys o) ∧ (∀ k, k ∈ om_keys o → (k ∉ known) ∧ k ≠ "__proto__")
  end.

Record node_ok (n : WorkNode) : Prop := {
  no_id : wn_id n ≠ "";
  no_config : settled (wn_type n) (bd_config (wn_data n));
  no_position : is_finite (pos_x (wn_position n)) = true ∧ is_finite (pos_y (wn_position n)) = true;
  no_label : bd_label (wn_data n) ≠ Some "";
  no_keepNode : keep_ok NODE_KEYS (bd_keepNode (wn_data n));
  no_keepData : keep_ok DATA_KEYS (bd_keepData (wn_data n));
}.

Definition foreign_id (raw : obj) : string := str_or_empty (get "id" raw).

Definition foreign_ok (raw : obj) : Prop :=
  foreign_id raw ≠ "" ∧ isIvrNodeType (get "type" raw) = None.

Definition clear_deletable (n : WorkNode) : WorkNode :=
  {| wn_id := wn_id n; wn_type := wn_type n; wn_position := wn_position n;
     wn_data := wn_data n; wn_deletable := None |}.

Definition edge_slot (e : WorkEdge) : string := slot_of (we_source e) (we_sourceHandle e).

Record edge_ok (nodes : list WorkNode) (e : WorkEdge) : Prop := {
  eo_id : we_id e ≠ "";
  eo_handle : we_sourceHandle e ≠ "";
  eo_source : we_source e ∈ List.map wn_id nodes;
  eo_target : ∃ n, n ∈ nodes ∧ wn_id n = we_target e ∧ wn_type n ≠ entry;
  eo_keep : keep_ok EDGE_KEYS (we_keep e);
}.

Record work_ok (w : WorkGraph) : Prop := {
  wo_ids : NoDup (List.map wn_id (wg_nodes w) ++ List.map foreign_id (wg_foreignNodes w));
  wo_nodes : ∀ n, n ∈ wg_nodes w → node_ok n;
  wo_foreign : ∀ f, f ∈ wg_foreignNodes w → foreign_ok f;
  wo_start : mark_entry (List.map clear_deletable (wg_nodes w)) = Some (wg_nodes w);
  wo_edges : ∀ e, e ∈ wg_edges w → edge_ok (wg_nodes w) e;
  wo_slots : NoDup (List.map edge_slot (wg_edges w));
  wo_edgeIds : NoDup (List.map we_id (wg_edges w));
  wo_keep : keep_ok GRAPH_KEYS (Some (wg_keepGraph w));
}.

(** ** Lemmas: reading keeps the invariant *)

Lemma wf_get k o : wf_value (VObj o) → wf_value (get k o).
Proof. inversion 1; simplify_eq; [done|auto]. Qed.

Lemma wf_keys v : wf_value v → keys_ok v.
Proof. unfold keys_ok. inversion 1; simpl; auto with voip. destruct v; simpl; auto with voip. done. Qed.

Lemma wf_record v : wf_value v → wf_value (VObj (record_or_empty v)).
Proof.
  intros H. inversion H; subst; [|constructor; [constructor|intros; by constructor]|done].
  destruct v; try done; (constructor; [constructor|intros; by constructor]).
Qed.

Lemma wf_elem v l : wf_value (VArr l) → v ∈ l → wf_value v.
Proof. inversion 1; simplify_eq; [done|auto]. Qed.

Lemma pick_ok record known : NoDup (om_keys record) → keep_ok known (pick record known).
Proof.
  intros H. unfold pick, keep_ok.
  destruct (List.filter _ record) as [|kv l] eqn:E; [done|]. rewrite <- E. split.
  - by apply NoDup_map_lfilter, NoDup_map_lfilter.
  - intros k Hk. apply elem_of_lmap in Hk as (x & -> & Hx).
    rewrite !elem_of_lfilter in Hx. destruct Hx as [[_ H1] H2]. bool_hyps.
    split; [by apply includes_false|done].
Qed.

Lemma num_or_finite v d : is_finite d = true → is_finite (num_or v d) = true.
Proof. unfold num_or. intros. repeat case_match; done. Qed.

Lemma read_node_ok raw t :
  wf_value (VObj raw) → str_or_empty (get "id" raw) ≠ "" →
  node_ok {| wn_id := str_or_empty (get "id" raw); wn_type := t; wn_position := read_position raw;
             wn_data := read_node_data raw t; wn_deletable := None |}.
Proof.
  intros Hwf Hid. pose proof (wf_record _ (wf_get "data" raw Hwf)) as Hd.
  split; simpl; try done.
  - by apply normalizeConfig_settled, wf_keys, wf_get.
  - split; by apply num_or_finite.
  - case_match; try done. case_bool_decide; [done|]. by intros [= ->].
  - apply pick_ok. by apply (wf_keys _ Hwf).
  - apply pick_ok. by apply (wf_keys _ Hd).
Qed.

(** The loop over the raw nodes. *)
Record nodes_inv (acc : node_acc) : Prop := {
  ni_seen : ∀ x, x ∈ na_seen acc ↔
    x ∈ List.map wn_id (na_nodes acc) ++ List.map foreign_id (na_foreign acc);
  ni_ids : NoDup (List.map wn_id (na_nodes acc) ++ List.map foreign_id (na_foreign acc));
  ni_nodes : ∀ n, n ∈ na_nodes acc → node_ok n ∧ wn_deletable n = None;
  ni_foreign : ∀ f, f ∈ na_foreign acc → foreign_ok f;
}.

Lemma read_node_inv acc v : wf_value v → nodes_inv acc → nodes_inv (read_node acc v).
Proof.
  intros Hwf [Hseen Hids Hnodes Hforeign]. destruct v as [| | | | | |raw]; try done.
  unfold read_node. case_match eqn:E; [done|]. apply orb_false_iff in E as [E1 E2]. bool_hyps.
  apply includes_false in E2. rewrite Hseen in E2.
  destruct (isIvrNodeType (get "type" raw)) as [t|] eqn:Et; split; simpl.
  - intros x. rewrite List.map_app, elem_of_cons, Hseen. set_solver.
  - rewrite List.map_app. simpl. rewrite <- app_assoc. simpl.
    rewrite <- Permutation_middle. by apply NoDup_cons.
  - intros n [?|?%list_elem_of_singleton]%elem_of_app; [auto|subst].
    split; [by apply read_node_ok|done].
  - done.
  - intros x. rewrite List.map_app, elem_of_cons, Hseen. set_solver.
  - rewrite List.map_app. simpl. rewrite app_assoc, Permutation_app_comm. simpl. by apply NoDup_cons.
  - done.
  - intros f [?|?%list_elem_of_singleton]%elem_of_app; [auto|by subst].
Qed.

Lemma mark_entry_clear l l' :
  (∀ n, n ∈ l → wn_deletable n = None) → mark_entry l = Some l' →
  mark_entry (List.map clear_deletable l') = Some l'.
Proof.
  assert (∀ n, wn_deletable n = None → clear_deletable n = n) as Hc.
  { intros [] ?. simplify_eq/=. done. }
  revert l'. induction l as [|n l IH]; simpl; [done|]. intros l' Hl. destruct (is_entry n) eqn:En.
  - intros [= <-]. simpl. change (is_entry (clear_deletable (set_undeletable n))) with (is_entry n).
    rewrite En. do 2 f_equal.
    rewrite (List.map_ext_in _ id) by (intros x Hx%list_elem_of_In; apply Hc, Hl; set_solver).
    apply List.map_id.
  - destruct (mark_entry l) as [l0|] eqn:E0; [|done]. intros [= <-]. simpl.
    rewrite Hc by (apply Hl; set_solver). rewrite En, (IH l0) by (done || set_solver). done.
Qed.

Lemma mark_entry_props l l' :
  mark_entry l = Some l' →
  List.map wn_id l' = List.map wn_id l ∧
  (∀ n, n ∈ l' → ∃ n0, n0 ∈ l ∧ (n = n0 ∨ n = set_undeletable n0)).
Proof.
  revert l'. induction l as [|n l IH]; simpl; [done|]. intros l'. destruct (is_entry n).
  - intros [= <-]. split; [done|]. set_solver.
  - destruct (mark_entry l) as [l0|]; [|done]. intros [= <-].
    destruct (IH l0 eq_refl) as [E H]. split; [simpl; by rewrite E|]. set_solver.
Qed.

Lemma mark_entry_first l l' : mark_entry l = Some l' → ∃ n, n ∈ l' ∧ wn_type n = entry.
Proof.
  revert l'. induction l as [|n l IH]; intros l'; simpl; [done|]. unfold is_entry. case_bool_decide as E.
  - intros [= <-]. exists (set_undeletable n). split; [by apply elem_of_cons; left|done].
  - destruct (mark_entry l) as [l0|]; [|done]. intros [= <-]. destruct (IH l0 eq_refl) as (m & Hm & ?).
    exists m. split; [by apply elem_of_cons; right|done].
Qed.

Lemma mark_entry_None l : mark_entry l = None → ∀ n, n ∈ l → is_entry n = false.
Proof.
  induction l as [|n l IH]; simpl; [set_solver|].
  destruct (is_entry n) eqn:E; [done|]. destruct (mark_entry l); [done|]. set_solver.
Qed.

Lemma node_ok_undeletable n : node_ok n → node_ok (set_undeletable n).
Proof. by intros []; split. Qed.

Section reading.
Context `{IdSupply}.

Lemma fresh_entry_ok id : id ≠ "" → node_ok (fresh_entry id).
Proof. intros; split; simpl; done. Qed.

Lemma ensure_entry_ids k l l' k' x :
  ensure_entry k l = (l', k') → x ∈ List.map wn_id l' → x ∈ List.map wn_id l ∨ (k < k' ∧ x = newNodeId k).
Proof.
  unfold ensure_entry. destruct (mark_entry l) as [l0|] eqn:E; intros [= <- <-].
  - rewrite (proj1 (mark_entry_props _ _ E)). by left.
  - simpl. intros [->|?]%elem_of_cons; [right|by left]. split; [lia|done].
Qed.

Lemma ensure_entry_ok k input acc nodes k' :
  nodes_inv acc → FreshSupply k input →
  (∀ x, x ∈ na_seen acc → x ∈ raw_ids "nodes" input) →
  ensure_entry k (na_nodes acc) = (nodes, k') →
  NoDup (List.map wn_id nodes ++ List.map foreign_id (na_foreign acc)) ∧
  (∀ n, n ∈ nodes → node_ok n) ∧
  mark_entry (List.map clear_deletable nodes) = Some nodes ∧ k ≤ k'.
Proof.
  intros [Hseen Hids Hnodes _] (_ & Hfresh & _) Hraw. unfold ensure_entry.
  destruct (mark_entry (na_nodes acc)) as [l|] eqn:E; intros [= <- <-].
  - destruct (mark_entry_props _ _ E) as [Eids Hl]. rewrite Eids. split_and!; [done| | |done].
    + intros n (n0 & Hn0 & [->| ->])%Hl; [by apply Hnodes|]. by apply node_ok_undeletable, Hnodes.
    + eapply mark_entry_clear; [|done]. intros n Hn. by apply Hnodes.
  - split_and!; [| | |lia].
    + simpl. apply NoDup_cons. split; [|done].
      intros Hin. apply Hseen, Hraw in Hin. by eapply Hfresh.
    + intros n [->|Hn]%elem_of_cons; [by apply fresh_entry_ok|by apply Hnodes].
    + simpl. do 2 f_equal.
      rewrite (List.map_ext_in _ id); [apply List.map_id|].
      intros [] Hx%list_elem_of_In. apply Hnodes in Hx as [_ Hx]. simplify_eq/=. done.
Qed.

(** The loop over the raw edges. *)
Record edges_inv (nodes : list WorkNode) (input : value) (k : nat) (acc : edge_acc) : Prop := {
  ei_edges : ∀ e, e ∈ ea_edges acc → edge_ok nodes e;
  ei_used : ∀ x, x ∈ ea_usedHandles acc ↔ x ∈ List.map edge_slot (ea_edges acc);
  ei_slots : NoDup (List.map edge_slot (ea_edges acc));
  ei_taken : ∀ x, x ∈ ea_edgeIds acc ↔ x ∈ List.map we_id (ea_edges acc);
  ei_ids : NoDup (List.map we_id (ea_edges acc));
  ei_origin : ∀ x, x ∈ ea_edgeIds acc →
    x ∈ raw_ids "edges" input ∨ ∃ j, k ≤ j < ea_supply acc ∧ x = newEdgeId j;
  ei_supply : k ≤ ea_supply acc;
}.

Lemma read_edge_id_fresh nodes input k acc raw id k' :
  FreshSupply k input → edges_inv nodes input k acc →
  (∀ s, get "id" raw = VStr s → s ∈ raw_ids "edges" input) →
  read_edge_id raw (ea_edgeIds acc) (ea_supply acc) = (id, k') →
  id ≠ "" ∧ (id ∉ ea_edgeIds acc) ∧ ea_supply acc ≤ k' ∧
  (id ∈ raw_ids "edges" input ∨ ∃ j, k ≤ j < k' ∧ id = newEdgeId j).
Proof.
  intros (Hinj & _ & Hfresh) Hinv Hraw. unfold read_edge_id.
  assert (∀ j, ea_supply acc ≤ j → newEdgeId j ∉ ea_edgeIds acc) as Hnew.
  { intros j Hj [Hx|(i & Hi & Hx)]%(ei_origin _ _ _ _ Hinv).
    - eapply Hfresh; [|done]. pose proof (ei_supply _ _ _ _ Hinv). lia.
    - injection Hx as Hx. apply Hinj in Hx. lia. }
  pose proof (ei_supply _ _ _ _ Hinv) as Hk.
  assert (∀ j, newEdgeId j ≠ "") as Hne by done.
  destruct (get "id" raw) as [| | | |s| |] eqn:Eid; try case_bool_decide;
    try (rewrite (proj2 (includes_false _ _)) by (apply Hnew; lia); intros [= <- <-];
         split_and!; [done|apply Hnew; lia|lia|right; eexists; split; [|done]; lia]).
  destruct (includes (ea_edgeIds acc) s) eqn:Ei; intros [= <- <-].
  - split_and!; [done|apply Hnew; lia|lia|right; eexists; split; [|done]; lia].
  - apply includes_false in Ei. split_and!; [done..|]. left. by apply Hraw.
Qed.

Lemma node_types_lookup nodes id t :
  NoDup (List.map wn_id nodes) → om_get id (node_types nodes) = Some t →
  ∃ n, n ∈ nodes ∧ wn_id n = id ∧ wn_type n = t.
Proof.
  intros Hids. unfold node_types.
  rewrite om_of_list_NoDup by (unfold om_keys; by rewrite List.map_map).
  intros (n & E & Hn)%om_get_Some_elem%elem_of_lmap. simplify_eq. eauto.
Qed.

Lemma node_types_has nodes id :
  NoDup (List.map wn_id nodes) → om_has id (node_types nodes) = true ↔ id ∈ List.map wn_id nodes.
Proof.
  intros Hids. unfold node_types.
  rewrite om_of_list_NoDup by (unfold om_keys; by rewrite List.map_map).
  rewrite om_has_true. unfold om_keys. by rewrite List.map_map.
Qed.

Lemma read_edge_inv nodes input k acc v :
  NoDup (List.map wn_id nodes) → FreshSupply k input → wf_value v →
  v ∈ elems (get "edges" (record_or_empty input)) →
  edges_inv nodes input k acc → edges_inv nodes input k (read_edge (node_types nodes) acc v).
Proof.
  intros Hids Hfresh Hwf Hin Hinv. destruct v as [| | | | | |raw]; try done. unfold read_edge.
  set (source := str_or_empty (get "source" raw)). set (target := str_or_empty (get "target" raw)).
  set (handle := match get "sourceHandle" raw with VStr s => if s ==? "" then "next" else s | _ => "next" end).
  assert (handle ≠ "") as Hhandle by (unfold handle; case_match; try done; by case_bool_decide).
  destruct (negb _ || negb _) eqn:E1; [done|]. apply orb_false_iff in E1 as [Es Et]. bool_hyps.
  case_bool_decide as Eentry; [done|].
  destruct (includes (ea_usedHandles acc) (slot_of source handle)) eqn:Eu; [done|].
  apply includes_false in Eu.
  destruct (read_edge_id raw (ea_edgeIds acc) (ea_supply acc)) as [id k'] eqn:Eid.
  eapply read_edge_id_fresh in Eid as (Hne & Hnew & Hk & Horigin); [|done|done|].
  2:{ intros s Es'. unfold raw_ids. apply list_elem_of_omap. exists (VObj raw). split; [done|]. by rewrite Es'. }
  pose proof (wf_keys _ Hwf) as Hkeys. destruct Hinv. split; simpl.
  - intros e [?|?%list_elem_of_singleton]%elem_of_app; [auto|subst]. split; simpl; try done.
    + by apply node_types_has.
    + apply om_has_true, om_has_true in Et. unfold om_has in Et.
      destruct (om_get target (node_types nodes)) as [t|] eqn:Et'; [|done].
      apply node_types_lookup in Et' as (n & Hn & Ei & Ety); [|done].
      exists n. split_and!; [done|done|congruence].
    + by apply pick_ok.
  - intros x. rewrite List.map_app, elem_of_app, elem_of_cons, ei_used0. simpl.
    rewrite list_elem_of_singleton. tauto.
  - rewrite List.map_app, Permutation_app_comm. simpl. apply NoDup_cons. split; [|done].
    by rewrite <- ei_used0.
  - intros x. rewrite List.map_app, elem_of_app, elem_of_cons, ei_taken0. simpl.
    rewrite list_elem_of_singleton. tauto.
  - rewrite List.map_app, Permutation_app_comm. simpl. apply NoDup_cons. split; [|done].
    by rewrite <- ei_taken0.
  - intros x [->|Hx]%elem_of_cons; [done|].
    apply ei_origin0 in Hx as [?|(j & ? & ->)]; [by left|]. right. exists j. split; [lia|done].
  - lia.
Qed.

Lemma fold_read_edges nodes input k acc l :
  NoDup (List.map wn_id nodes) → FreshSupply k input →
  (∀ v, v ∈ l → wf_value v ∧ v ∈ elems (get "edges" (record_or_empty input))) →
  edges_inv nodes input k acc →
  edges_inv nodes input k (fold_left (read_edge (node_types nodes)) l acc).
Proof.
  intros Hids Hfresh. revert acc. induction l as [|v l IH]; intros acc Hl Hinv; simpl; [done|].
  apply IH; [set_solver|]. apply read_edge_inv; try done; apply Hl; set_solver.
Qed.

Lemma fold_read_nodes acc l :
  (∀ v, v ∈ l → wf_value v) → nodes_inv acc → nodes_inv (fold_left read_node l acc).
Proof.
  revert acc. induction l as [|v l IH]; intros acc Hl Hinv; simpl; [done|].
  apply IH; [set_solver|]. apply read_node_inv; [|done]. apply Hl; set_solver.
Qed.

Lemma read_node_seen input acc v :
  v ∈ elems (get "nodes" (record_or_empty input)) →
  (∀ x, x ∈ na_seen acc → x ∈ raw_ids "nodes" input) →
  ∀ x, x ∈ na_seen (read_node acc v) → x ∈ raw_ids "nodes" input.
Proof.
  intros Hv Hs x. destruct v as [| | | | | |raw]; try apply Hs. unfold read_node.
  assert (str_or_empty (get "id" raw) ≠ "" → str_or_empty (get "id" raw) ∈ raw_ids "nodes" input) as Hraw.
  { intros Hne. apply list_elem_of_omap. exists (VObj raw). split; [done|]. by destruct (get "id" raw). }
  case_match eqn:E; [apply Hs|]. apply orb_false_iff in E as [E1 E2]. bool_hyps.
  case_match; simpl; intros [->|?]%elem_of_cons; auto.
Qed.

Lemma fold_read_seen input acc l :
  (∀ v, v ∈ l → v ∈ elems (get "nodes" (record_or_empty input))) →
  (∀ x, x ∈ na_seen acc → x ∈ raw_ids "nodes" input) →
  ∀ x, x ∈ na_seen (fold_left read_node l acc) → x ∈ raw_ids "nodes" input.
Proof.
  revert acc. induction l as [|v l IH]; intros acc Hl Hs; simpl; [done|].
  apply IH; [set_solver|]. apply read_node_seen; [|done]. apply Hl; set_solver.
Qed.

Lemma wf_elems k o v : wf_value (VObj o) → v ∈ elems (get k o) → wf_value v.
Proof.
  intros Hwf%(wf_get k) Hv. destruct (get k o); simpl in Hv; try by apply not_elem_of_nil in Hv.
  by eapply wf_elem.
Qed.

(** Where the ids of a loaded graph come from. *)
Definition ids_from (make : nat → string) (stored : list string) (k k' : nat) (ids : list string) : Prop :=
  ∀ x, x ∈ ids → x ∈ stored ∨ ∃ j, k ≤ j < k' ∧ x = make j.

Lemma fromGraph_read k input w k' :
  wf_value input → FreshSupply k input → fromGraph k input = (w, k') →
  work_ok w ∧ k ≤ k' ∧
  ids_from newNodeId (raw_ids "nodes" input) k k' (List.map wn_id (wg_nodes w)) ∧
  ids_from newEdgeId (raw_ids "edges" input) k k' (List.map we_id (wg_edges w)).
Proof.
  intros Hwf Hfresh. unfold fromGraph. pose proof (wf_record _ Hwf) as Hg.
  set (g := record_or_empty input) in *.
  set (na := fold_left read_node _ _).
  assert (nodes_inv na) as Hna.
  { apply fold_read_nodes; [eauto using wf_elems|]. split; simpl; try set_solver. constructor. }
  assert (∀ x, x ∈ na_seen na → x ∈ raw_ids "nodes" input) as Hseen
    by (apply fold_read_seen; [done|set_solver]).
  destruct (ensure_entry k (na_nodes na)) as [nodes k1] eqn:E.
  destruct (ensure_entry_ok _ _ _ _ _ Hna Hfresh Hseen E) as (Hids & Hok & Hmark & Hk).
  pose proof (proj1 (NoDup_app _ _) Hids) as (Hids' & _).
  assert (FreshSupply k1 input) as Hfresh1.
  { destruct Hfresh as (? & Hf1 & Hf2). split_and!; [done| |]; intros; [apply Hf1|apply Hf2]; lia. }
  set (ea := fold_left (read_edge _) _ _).
  assert (edges_inv nodes input k1 ea) as [].
  { apply fold_read_edges; try done; [eauto using wf_elems|]. split; simpl; try set_solver; by constructor. }
  intros [= <- <-]. split_and!.
  - split; simpl; try done; [apply Hna|].
    pose proof (pick_ok g GRAPH_KEYS (wf_keys _ Hg)) as Hkeep.
    destruct (pick g GRAPH_KEYS); simpl; [done|]. split; [constructor|set_solver].
  - lia.
  - intros x Hx. simpl in Hx. apply (ensure_entry_ids _ _ _ _ _ E) in Hx as [Hx|[Hx ?]].
    + left. apply Hseen, (ni_seen _ Hna), elem_of_app. by left.
    + right. exists k. split; [simpl; lia|done].
  - intros x Hx. simpl in Hx. apply ei_taken0, ei_origin0 in Hx as [?|(j & ? & ->)]; [by left|right].
    exists j. split; [simpl; lia|done].
Qed.

(** Whatever JSON the server sends, loading gives a graph the builder
    can work on: distinct ids, settled configs, one Start that cannot be
    deleted, edges that join known blocks, at most one per exit, none into
    Start. *)
Theorem fromGraph_ok k input :
  wf_value input → FreshSupply k input → work_ok (fromGraph k input).1.
Proof.
  intros Hwf Hf. destruct (fromGraph k input) as [w k'] eqn:E. by apply (fromGraph_read k input w k').
Qed.
End reading.

(** ** Round trip *)

(** What writing and reading back does: whole-pixel positions, and a keep
    object with nothing in it is dropped. *)
Definition settle_keep (keep : option obj) : option obj :=
  match keep with Some [] => None | _ => keep end.

Definition settle_node (n : WorkNode) : WorkNode :=
  {| wn_id := wn_id n; wn_type := wn_type n; wn_position := round_position (wn_position n);
     wn_data := {| bd_label := bd_label (wn_data n); bd_config := bd_config (wn_data n);
                   bd_keepNode := settle_keep (bd_keepNode (wn_data n));
                   bd_keepData := settle_keep (bd_keepData (wn_data n)) |};
     wn_deletable := wn_deletable n |}.

Definition settle_edge (e : WorkEdge) : WorkEdge :=
  {| we_id := we_id e; we_source := we_source e; we_sourceHandle := we_sourceHandle e;
     we_target := we_target e; we_keep := settle_keep (we_keep e) |}.

Definition settle (w : WorkGraph) : WorkGraph :=
  {| wg_nodes := List.map settle_node (wg_nodes w);
     wg_edges := List.map settle_edge (wg_edges w);
     wg_viewport := round_viewport <$> wg_viewport w;
     wg_keepGraph := wg_keepGraph w;
     wg_foreignNodes := wg_foreignNodes w |}.

Definition unknown (known : list string) (o : obj) : obj :=
  List.filter (λ kv, negb (includes known kv.1)) o.

Lemma unknown_set known k v o : includes known k = true → unknown known (om_set k v o) = unknown known o.
Proof.
  intros Hk. unfold unknown. induction o as [|[k' v'] o IH]; simpl; [by rewrite Hk|].
  case_bool_decide; simpl; [by subst; rewrite Hk|]. by rewrite IH.
Qed.

Lemma unknown_keep known o : keep_ok known (Some o) → unknown known o = o.
Proof.
  intros [_ Ho]. apply lfilter_all. intros [k v] Hk. simpl. apply negb_true_iff, includes_false.
  apply Ho, elem_of_lmap. by exists (k, v).
Qed.

Lemma pick_unknown known o keep :
  keep_ok known keep → unknown known o = default [] keep → pick o known = settle_keep keep.
Proof.
  intros Hkeep E. unfold pick. fold (unknown known o). rewrite E.
  destruct keep as [[|kv l]|]; [done| |done]. cbn [default settle_keep]. f_equal.
  change (from_option id [] (Some (kv :: l))) with (kv :: l). apply lfilter_all. intros [k v] Hk. simpl.
  apply negb_true_iff, bool_decide_eq_false.
  destruct Hkeep as [_ Hkeep]. apply Hkeep, elem_of_lmap. by exists (k, v).
Qed.

Lemma spread_keep known keep : keep_ok known keep → spread [] (default [] keep) = default [] keep.
Proof. destruct keep; simpl; [|done]. intros [Hk _]. by apply spread_nil. Qed.

Lemma unknown_default known keep : keep_ok known keep → unknown known (default [] keep) = default [] keep.
Proof. destruct keep; simpl; [|done]. apply unknown_keep. Qed.

Lemma math_round_finite n : is_finite n = true → is_finite (math_round n) = true.
Proof. by destruct n. Qed.

Lemma read_out_position n t :
  node_ok n → read_position (out_node (node_input n) t) = round_position (wn_position n).
Proof.
  intros Hn. destruct (no_position _ Hn) as [Hx Hy].
  unfold read_position, out_node. get_simpl. simpl. unfold num_or, round_position.
  change (get "x" _) with (VNum (math_round (pos_x (wn_position n)))).
  change (get "y" _) with (VNum (math_round (pos_y (wn_position n)))).
  cbn iota. by rewrite !math_round_finite.
Qed.

Lemma read_out_data n :
  node_ok n →
  read_node_data (out_node (node_input n) (type_name (wn_type n))) (wn_type n) = wn_data (settle_node n).
Proof.
  intros [_ Hc _ Hl Hkn Hkd]. unfold read_node_data.
  assert (get "data" (out_node (node_input n) (type_name (wn_type n))) = VObj (out_data (wn_data n))) as ->
    by (unfold out_node; by get_simpl).
  cbn [record_or_empty]. unfold settle_node. simpl. f_equal.
  - unfold out_data. get_simpl. destruct (bd_label (wn_data n)) as [l|].
    + rewrite bool_decide_eq_false_2 by congruence. get_simpl. by rewrite bool_decide_eq_false_2 by congruence.
    + rewrite (spread_keep DATA_KEYS) by done. destruct (bd_keepData (wn_data n)) as [o|]; [|done].
      simpl. unfold get. rewrite (proj2 (om_get_None _ _)); [done|]. intros Hin.
      destruct Hkd as [_ Hkd]. apply Hkd in Hin as [Hin _]. apply Hin. set_solver.
  - unfold out_data. get_simpl. by rewrite Hc.
  - apply pick_unknown; [done|]. unfold out_node. rewrite !unknown_set by done. simpl.
    rewrite (spread_keep NODE_KEYS) by done. by apply unknown_default.
  - apply pick_unknown; [done|]. unfold out_data. rewrite unknown_set by done.
    rewrite (spread_keep DATA_KEYS) by done.
    destruct (bd_label (wn_data n)) as [l|]; [case_match; rewrite ?unknown_set by done|]; by apply unknown_default.
Qed.

Definition reread (n : WorkNode) : WorkNode := clear_deletable (settle_node n).

Lemma read_out_node acc n :
  node_ok n → wn_id n ∉ na_seen acc →
  read_node acc (VObj (out_node (node_input n) (type_name (wn_type n))))
  = {| na_nodes := na_nodes acc ++ [reread n]; na_foreign := na_foreign acc;
       na_seen := wn_id n :: na_seen acc |}.
Proof.
  intros Hn Hs. unfold read_node.
  assert (get "id" (out_node (node_input n) (type_name (wn_type n))) = VStr (wn_id n)) as ->
    by (unfold out_node; by get_simpl).
  assert (get "type" (out_node (node_input n) (type_name (wn_type n))) = VStr (type_name (wn_type n))) as ->
    by (unfold out_node; by get_simpl).
  simpl. rewrite type_of_name_name.
  rewrite bool_decide_eq_false_2 by apply Hn. rewrite (proj2 (includes_false _ _)) by done. simpl.
  rewrite read_out_position, read_out_data by done. done.
Qed.

Lemma out_nodes_cons n nodes :
  out_nodes (List.map node_input (n :: nodes))
  = VObj (out_node (node_input n) (type_name (wn_type n))) :: out_nodes (List.map node_input nodes).
Proof. unfold out_nodes. csimpl. by rewrite type_of_name_name. Qed.

Lemma fold_read_out_nodes nodes acc :
  (∀ n, n ∈ nodes → node_ok n) → NoDup (List.map wn_id nodes) →
  (∀ x, x ∈ List.map wn_id nodes → x ∉ na_seen acc) →
  fold_left read_node (out_nodes (List.map node_input nodes)) acc
  = {| na_nodes := na_nodes acc ++ List.map reread nodes; na_foreign := na_foreign acc;
       na_seen := rev (List.map wn_id nodes) ++ na_seen acc |}.
Proof.
  revert acc. induction nodes as [|n nodes IH]; intros acc Hok Hids Hseen.
  - simpl. rewrite app_nil_r. by destruct acc.
  - rewrite out_nodes_cons. cbn [fold_left]. simpl in Hids, Hseen. apply NoDup_cons in Hids as [Hn Hids].
    rewrite read_out_node by (first [apply Hok; set_solver | apply Hseen; set_solver]).
    rewrite IH; simpl.
    + by rewrite <- !app_assoc.
    + set_solver.
    + done.
    + intros x Hx. rewrite not_elem_of_cons. split; [by intros ->|]. apply Hseen. set_solver.
Qed.

Lemma fold_read_foreign fs acc :
  (∀ f, f ∈ fs → foreign_ok f) → NoDup (List.map foreign_id fs) →
  (∀ x, x ∈ List.map foreign_id fs → x ∉ na_seen acc) →
  fold_left read_node (List.map VObj fs) acc
  = {| na_nodes := na_nodes acc; na_foreign := na_foreign acc ++ fs;
       na_seen := rev (List.map foreign_id fs) ++ na_seen acc |}.
Proof.
  revert acc. induction fs as [|f fs IH]; intros acc Hok Hids Hseen.
  - simpl. rewrite app_nil_r. by destruct acc.
  - simpl in Hids. apply NoDup_cons in Hids as [Hn Hids]. simpl.
    destruct (Hok f) as [Hne Ht]; [set_solver|]. fold (foreign_id f).
    rewrite bool_decide_eq_false_2 by done.
    rewrite (proj2 (includes_false _ _)) by (apply Hseen; set_solver). simpl. rewrite Ht, IH; simpl.
    + by rewrite <- !app_assoc.
    + set_solver.
    + done.
    + intros x Hx. rewrite not_elem_of_cons. split; [by intros ->|]. apply Hseen. set_solver.
Qed.

Lemma mark_entry_map (f : WorkNode → WorkNode) l :
  (∀ n, is_entry (f n) = is_entry n) → (∀ n, set_undeletable (f n) = f (set_undeletable n)) →
  mark_entry (List.map f l) = List.map f <$> mark_entry l.
Proof.
  intros H1 H2. induction l as [|n l IH]; simpl; [done|]. rewrite H1, H2, IH.
  destruct (is_entry n); [done|]. by destruct (mark_entry l).
Qed.

Section round_trip.
Context `{IdSupply}.

Lemma read_out_edge types acc e t :
  we_id e ≠ "" → we_sourceHandle e ≠ "" → keep_ok EDGE_KEYS (we_keep e) →
  om_has (we_source e) types = true → om_get (we_target e) types = Some t → t ≠ entry →
  edge_slot e ∉ ea_usedHandles acc → we_id e ∉ ea_edgeIds acc →
  read_edge types acc (VObj (out_edge (edge_input e)))
  = {| ea_edges := ea_edges acc ++ [settle_edge e]; ea_usedHandles := edge_slot e :: ea_usedHandles acc;
       ea_edgeIds := we_id e :: ea_edgeIds acc; ea_supply := ea_supply acc |}.
Proof.
  intros Hid Hh Hkeep Hs Ht Hne Hslot Hids. unfold read_edge.
  assert (get "source" (out_edge (edge_input e)) = VStr (we_source e) ∧
          get "target" (out_edge (edge_input e)) = VStr (we_target e) ∧
          get "sourceHandle" (out_edge (edge_input e)) = VStr (we_sourceHandle e) ∧
          get "id" (out_edge (edge_input e)) = VStr (we_id e)) as (-> & -> & -> & Eid)
    by (unfold out_edge; split_and!; by get_simpl).
  unfold read_edge_id. rewrite Eid. simpl.
  rewrite (bool_decide_eq_false_2 (we_id e = "")), (bool_decide_eq_false_2 (we_sourceHandle e = "")) by done.
  rewrite Hs. unfold om_has. rewrite Ht. simpl.
  rewrite bool_decide_eq_false_2 by congruence. fold (edge_slot e).
  rewrite !(proj2 (includes_false _ _)) by done. f_equal. f_equal. f_equal. unfold settle_edge. f_equal.
  apply pick_unknown; [done|]. unfold out_edge. rewrite !unknown_set by done.
  simpl. rewrite (spread_keep EDGE_KEYS) by done. by apply unknown_default.
Qed.

Lemma fold_read_out_edges nodes edges acc :
  NoDup (List.map wn_id nodes) →
  (∀ e, e ∈ edges → edge_ok nodes e) → NoDup (List.map edge_slot edges) → NoDup (List.map we_id edges) →
  (∀ x, x ∈ List.map edge_slot edges → x ∉ ea_usedHandles acc) →
  (∀ x, x ∈ List.map we_id edges → x ∉ ea_edgeIds acc) →
  let acc' := fold_left (read_edge (node_types nodes))
                (List.map (λ e, VObj (out_edge e)) (List.map edge_input edges)) acc in
  ea_edges acc' = ea_edges acc ++ List.map settle_edge edges ∧ ea_supply acc' = ea_supply acc.
Proof.
  intros Hids. revert acc. induction edges as [|e edges IH]; intros acc Hok Hsl Hi Hused Htaken.
  - simpl. by rewrite app_nil_r.
  - simpl in Hsl, Hi. apply NoDup_cons in Hsl as [He Hsl]. apply NoDup_cons in Hi as [He' Hi].
    destruct (Hok e) as [Hne Hh Hs (n & Hn & En & Hty) Hkeep]; [set_solver|].
    assert (om_get (we_target e) (node_types nodes) = Some (wn_type n)) as Et.
    { unfold node_types. rewrite om_of_list_NoDup by (unfold om_keys; by rewrite List.map_map).
      apply om_get_elem; [unfold om_keys; by rewrite List.map_map|].
      apply elem_of_lmap. exists n. by rewrite En. }
    cbn zeta. cbn [List.map fold_left].
    rewrite (read_out_edge _ _ _ (wn_type n)); try done; [|by apply node_types_has|set_solver|set_solver].
    destruct (IH {| ea_edges := ea_edges acc ++ [settle_edge e]; ea_usedHandles := edge_slot e :: ea_usedHandles acc;
       ea_edgeIds := we_id e :: ea_edgeIds acc; ea_supply := ea_supply acc |}) as [E1 E2]; simpl; try done.
    + set_solver.
    + intros x Hx. rewrite not_elem_of_cons. split; [by intros ->|]. apply Hused. set_solver.
    + intros x Hx. rewrite not_elem_of_cons. split; [by intros ->|]. apply Htaken. set_solver.
    + simpl in E1, E2. by rewrite E1, E2, <- app_assoc.
Qed.
Lemma node_types_settle nodes : node_types (List.map settle_node nodes) = node_types nodes.
Proof. unfold node_types. by rewrite List.map_map. Qed.

Lemma read_out_viewport vp :
  read_viewport (vviewport (round_viewport vp)) = Some (round_viewport vp).
Proof. done. Qed.

Lemma get_keepGraph k known (keep : obj) : keep_ok known (Some keep) → k ∈ known → get k keep = VUndef.
Proof.
  intros [_ Hk] Hin. unfold get. rewrite (proj2 (om_get_None _ _)); [done|].
  intros Hx. by apply Hk in Hx as [? _].
Qed.

(** C37 Saving and loading a graph the builder holds gives the graph back:
    every node, exit, config and unknown key, with positions on whole
    pixels, and no id drawn anew. *)
Theorem fromGraph_toGraph k w : work_ok w → fromGraph k (write_work w) = (settle w, k).
Proof.
  intros []. unfold fromGraph, write_work, toGraph. cbn [record_or_empty].
  set (o := om_set "edges" _ _). set (g := match wg_viewport w with Some vp => _ | None => o end).
  assert (get "nodes" g = VArr (out_nodes (List.map node_input (wg_nodes w)) ++
            List.map VObj (wg_foreignNodes w)) ∧
          get "edges" g = VArr (List.map (λ e, VObj (out_edge e)) (List.map edge_input (wg_edges w))))
    as [-> ->] by (unfold g, o; destruct (wg_viewport w); split; by get_simpl).
  cbn [elems].
  rewrite fold_left_app, fold_read_out_nodes, fold_read_foreign; try done.
  2-5: apply NoDup_app in wo_ids0 as (? & Hdisj & ?); simpl; try done.
  3:{ intros x _. apply not_elem_of_nil. }
  2:{ intros x Hx. rewrite app_nil_r, list_elem_of_In, <- in_rev, <- list_elem_of_In. intros Hx'. by eapply Hdisj. }
  cbn [na_nodes na_foreign app].
  unfold ensure_entry.
  assert (mark_entry (List.map reread (wg_nodes w)) = Some (List.map settle_node (wg_nodes w))) as ->.
  { unfold reread. rewrite <- (List.map_map settle_node clear_deletable).
    rewrite List.map_map, <- (List.map_map clear_deletable settle_node).
    by rewrite mark_entry_map, wo_start0. }
  rewrite node_types_settle.
  apply NoDup_app in wo_ids0 as (Hids & _).
  destruct (fold_read_out_edges (wg_nodes w) (wg_edges w) (Build_edge_acc [] [] [] k) Hids wo_edges0 wo_slots0 wo_edgeIds0
    (λ x _, not_elem_of_nil x) (λ x _, not_elem_of_nil x)) as [E1 E2].
  rewrite E1, E2. unfold settle. cbn [ea_edges ea_supply app]. do 2 f_equal.
  - unfold g. destruct (wg_viewport w).
    + get_simpl. by rewrite read_out_viewport.
    + unfold o. get_simpl. rewrite spread_nil by apply wo_keep0.
      by rewrite (get_keepGraph _ GRAPH_KEYS) by (done || set_solver).
  - assert (unknown GRAPH_KEYS g = wg_keepGraph w) as E.
    { unfold g, o. destruct (wg_viewport w); rewrite !unknown_set by done;
        (rewrite spread_nil by apply wo_keep0); by apply unknown_keep. }
    rewrite (pick_unknown GRAPH_KEYS g (Some (wg_keepGraph w))) by done. by destruct (wg_keepGraph w).
Qed.
End round_trip.

(** ** Witnesses *)

(** A supply whose ids are the numerals. *)
Definition numerals : IdSupply := λ k, pretty (N.of_nat k).

Definition sample_input : value :=
  VObj [("nodes", VArr [VObj [("id", VStr "start"); ("type", VStr "entry")];
                        VObj [("id", VStr "hi"); ("type", VStr "play"); ("locked", VBool true)];
                        VObj [("id", VStr "fax"); ("type", VStr "fax")]]);
        ("edges", VArr [VObj [("source", VStr "start"); ("target", VStr "hi")]]);
        ("theme", VStr "dark")].

Lemma wf_object (o : obj) : NoDup (om_keys o) → (∀ kv, kv ∈ o → wf_value kv.2) → wf_value (VObj o).
Proof.
  intros Hk Ho. apply wf_obj; [done|]. intros k. unfold get.
  destruct (om_get k o) as [v|] eqn:E; simpl; [|by constructor].
  apply (Ho (k, v)), om_get_Some_elem. done.
Qed.

(** Proves that a literal value is well formed. *)
Ltac wf_literal :=
  repeat first
    [ apply wf_object; [apply (bool_decide_unpack _); by vm_compute|]
    | apply wf_arr | by apply wf_atom
    | intros [->|H]%elem_of_cons; [cbn [snd]|revert H]
    | intros []%not_elem_of_nil
    | intros ? ].

Lemma numerals_fresh (k : nat) : @FreshSupply numerals k sample_input.
Proof.
  split_and!.
  - intros i j E. unfold nano, numerals in E. apply (inj pretty) in E. lia.
  - intros j _. vm_compute raw_ids. intros H. repeat (apply elem_of_cons in H as [H|H]; [discriminate|]).
    by apply not_elem_of_nil in H.
  - intros j _. vm_compute raw_ids. apply not_elem_of_nil.
Qed.

Lemma normalizeConfig_settled_witness :
  keys_ok (VObj [("prompts", VArr [vint 3; VStr "x"]); ("note", VStr "kept")]) ∧
  settled play (normalizeConfig play (VObj [("prompts", VArr [vint 3; VStr "x"]); ("note", VStr "kept")])).
Proof.
  assert (keys_ok (VObj [("prompts", VArr [vint 3; VStr "x"]); ("note", VStr "kept")])) as Hk
    by (apply (bool_decide_unpack _); by vm_compute).
  split; [exact Hk|]. exact (normalizeConfig_settled play _ Hk).
Defined.

Lemma fromGraph_ok_witness :
  work_ok (@fromGraph numerals 0 sample_input).1.
Proof.
  apply (@fromGraph_ok numerals 0 sample_input); [unfold sample_input; wf_literal|apply numerals_fresh].
Defined.

Definition sample_work : WorkGraph :=
  {| wg_nodes :=
       [{| wn_id := "start"; wn_type := entry; wn_position := Build_Position (num_of_Z 0) (num_of_Z 0);
           wn_data := Build_BlockData None [] None None; wn_deletable := Some false |};
        {| wn_id := "hi"; wn_type := play; wn_position := Build_Position (num_of_Z 320) (Fin (QArith_base.Qmake 1 2));
           wn_data := Build_BlockData (Some "Hi") [("prompts", VArr [vint 3])] (Some [("locked", VBool true)]) None;
           wn_deletable := None |}];
     wg_edges := [{| we_id := "e1"; we_source := "start"; we_sourceHandle := "next"; we_target := "hi"; we_keep := None |}];
     wg_viewport := Some (Build_IvrViewport (num_of_Z 0) (num_of_Z 0) (num_of_Z 1));
     wg_keepGraph := [("theme", VStr "dark")];
     wg_foreignNodes := [[("id", VStr "fax"); ("type", VStr "fax")]] |}.

Lemma sample_work_ok : work_ok sample_work.
Proof.
  assert (∀ known o, NoDup (om_keys o) → forallb (λ k, negb (includes known k) && (k !=? "__proto__")) (om_keys o) = true →
            keep_ok known (Some o)) as Hkeep.
  { intros known o Hn Hk. split; [done|]. intros k Hin. rewrite forallb_elem_of in Hk.
    specialize (Hk k Hin). bool_hyps. split; [by apply includes_false|done]. }
  split; try (apply (bool_decide_unpack _); by vm_compute).
  - intros n [->|[->|[]%not_elem_of_nil]%elem_of_cons]%elem_of_cons; split; try done;
      apply Hkeep; try (by vm_compute); apply (bool_decide_unpack _); by vm_compute.
  - intros f [->|[]%not_elem_of_nil]%elem_of_cons. split; by vm_compute.
  - done.
  - intros e [->|[]%not_elem_of_nil]%elem_of_cons. split; try done.
    + apply (bool_decide_unpack _). by vm_compute.
    + eexists. split; [by apply elem_of_cons; right; apply elem_of_cons; left|done].
  - apply Hkeep; [|by vm_compute]. apply (bool_decide_unpack _). by vm_compute.
Qed.

Lemma fromGraph_toGraph_witness :
  @fromGraph numerals 7 (write_work sample_work) = (settle sample_work, 7).
Proof. exact (@fromGraph_toGraph numerals 7 sample_work sample_work_ok). Defined.
