(* ===== verification/History.v ===== *)
(** * Undo and redo ([flow/model/history.ts])

    Snapshots of the canvas, the history state machine ([record], [seal],
    [undo], [redo]), and a specification of it as a timeline with a position. *)
From Stdlib Require Import QArith.
From S2P Require Import Prelude JsString JsValue.

Local Close Scope Q_scope.

Local Open Scope string_scope.
Local Open Scope nat_scope.
Local Open Scope list_scope.

(** What a piece of block data is as JSON: snapshots are compared as text,
    whatever they carry. *)
Class ToJson (D : Type) := to_json : D → value.

Record SnapPosition := { sp_x : num; sp_y : num }.

(** [type] is [''] when the node has none. *)
Record SnapNode (D : Type) := {
  sn_id : string;
  sn_type : string;
  sn_position : SnapPosition;
  sn_data : D;
}.
Arguments Build_SnapNode {D}.
Arguments sn_id {D}.
Arguments sn_type {D}.
Arguments sn_position {D}.
Arguments sn_data {D}.

Record SnapEdge (E : Type) := {
  se_id : string;
  se_source : string;
  se_sourceHandle : option string;
  se_target : string;
  se_data : option E;
}.
Arguments Build_SnapEdge {E}.
Arguments se_id {E}.
Arguments se_source {E}.
Arguments se_sourceHandle {E}.
Arguments se_target {E}.
Arguments se_data {E}.

Record Snapshot (D E : Type) := {
  ss_nodes : list (SnapNode D);
  ss_edges : list (SnapEdge E);
}.
Arguments Build_Snapshot {D E}.
Arguments ss_nodes {D E}.
Arguments ss_edges {D E}.

Record HistoryState (D E : Type) := {
  past : list (Snapshot D E);
  future : list (Snapshot D E);
  lastKey : option string;
  lastAt : Z;
}.
Arguments Build_HistoryState {D E}.
Arguments past {D E}.
Arguments future {D E}.
Arguments lastKey {D E}.
Arguments lastAt {D E}.

Definition COALESCE_MS : Z := 900.
Definition HISTORY_LIMIT : nat := 100.

Section history.
Context {D E : Type} `{ToJson D} `{ToJson E}.
Implicit Types (h : HistoryState D E) (s : Snapshot D E).

Definition emptyHistory : HistoryState D E := Build_HistoryState [] [] None 0.

Definition json_node (n : SnapNode D) : value :=
  VObj [("id", VStr (sn_id n)); ("type", VStr (sn_type n));
        ("position", VObj [("x", VNum (sp_x (sn_position n))); ("y", VNum (sp_y (sn_position n)))]);
        ("data", to_json (sn_data n))].

Definition json_edge (e : SnapEdge E) : value :=
  VObj ([("id", VStr (se_id e)); ("source", VStr (se_source e));
         ("sourceHandle", match se_sourceHandle e with Some x => VStr x | None => VNull end);
         ("target", VStr (se_target e))]
        ++ match se_data e with Some d => [("data", to_json d)] | None => [] end).

Definition json_snapshot s : value :=
  VObj [("nodes", varr json_node (ss_nodes s)); ("edges", varr json_edge (ss_edges s))].

(** [JSON.stringify(a) === JSON.stringify(b)] after the length tests; the
    shortcut for the same object agrees with it. *)
Definition sameSnapshot (a b : Snapshot D E) : bool :=
  if negb (length (ss_nodes a) =? length (ss_nodes b))
     || negb (length (ss_edges a) =? length (ss_edges b)) then false
  else same_json (json_snapshot a) (json_snapshot b).

Definition coalesces h (key : option string) (now : Z) : bool :=
  (key !=? None) && (key ==? lastKey h) && (now - lastAt h <=? COALESCE_MS)%Z.

(** [past.splice(0, past.length - HISTORY_LIMIT)] when it is longer. *)
Definition trim_past (p : list (Snapshot D E)) : list (Snapshot D E) :=
  if HISTORY_LIMIT <? length p then drop (length p - HISTORY_LIMIT) p else p.

Definition record h (before after : Snapshot D E) (key : option string) (now : Z) : HistoryState D E :=
  if coalesces h key now then Build_HistoryState (past h) [] (lastKey h) now
  else if sameSnapshot before after then h
  else Build_HistoryState (trim_past (past h ++ [before])) [] key now.

Definition seal h : HistoryState D E :=
  match lastKey h with
  | None => h
  | Some _ => Build_HistoryState (past h) (future h) None (lastAt h)
  end.

Definition undo h (current : Snapshot D E) : option (HistoryState D E * Snapshot D E) :=
  match last (past h) with
  | None => None
  | Some target =>
      Some (Build_HistoryState (removelast (past h)) (current :: future h) None 0, target)
  end.

Definition redo h (current : Snapshot D E) : option (HistoryState D E * Snapshot D E) :=
  match future h with
  | [] => None
  | target :: rest =>
      Some (Build_HistoryState (past h ++ [current]) rest None 0, target)
  end.

(** ** A session: edits, undos and redos against the current snapshot *)

Inductive op :=
  | Edit (after : Snapshot D E) (key : option string) (now : Z)
  | Undo
  | Redo
  | Seal.

Definition step (st : HistoryState D E * Snapshot D E) (o : op) : HistoryState D E * Snapshot D E :=
  let '(h, cur) := st in
  match o with
  | Edit after key now => (record h cur after key now, after)
  | Undo => default st (undo h cur)
  | Redo => default st (redo h cur)
  | Seal => (seal h, cur)
  end.

(** ** Specification: a timeline of snapshots and the place we are at

    Said apart from the code: the burst that is running is the key of the last
    edit and when it came, kept until the burst is ended by a move, a seal or
    an edit of another kind. *)

(** Two numbers that JSON writes alike: what is not finite is written [null]. *)
Definition number_alike (a b : num) : Prop :=
  match a, b with Fin p, Fin q => p == q | Fin _, _ | _, Fin _ => False | _, _ => True end%Q.

(** What two blocks and two connections show alike: every field but the
    looks, data that is not there and data that is [undefined] being one. *)
Definition node_alike (a b : SnapNode D) : Prop :=
  sn_id a = sn_id b ∧ sn_type a = sn_type b ∧ number_alike (sp_x (sn_position a)) (sp_x (sn_position b))
  ∧ number_alike (sp_y (sn_position a)) (sp_y (sn_position b))
  ∧ json_norm (to_json (sn_data a)) = json_norm (to_json (sn_data b)).
Definition edge_data (e : SnapEdge E) : value := default VUndef (to_json <$> se_data e).
Definition edge_alike (a b : SnapEdge E) : Prop :=
  se_id a = se_id b ∧ se_source a = se_source b ∧ se_sourceHandle a = se_sourceHandle b ∧ se_target a = se_target b
  ∧ json_norm (edge_data a) = json_norm (edge_data b).
Definition alike (a b : Snapshot D E) : Prop :=
  Forall2 node_alike (ss_nodes a) (ss_nodes b) ∧ Forall2 edge_alike (ss_edges a) (ss_edges b).

Record Timeline := {
  tl_shots : list (Snapshot D E);
  tl_at : nat;
  tl_burst : option (string * Z);
}.

(** The edit belongs to the burst that is running: same key, no more than 900
    ms after the last one. *)
Definition joins (t : Timeline) (key : option string) (now : Z) : Prop :=
  ∃ k before, key = Some k ∧ tl_burst t = Some (k, before) ∧ (now <= before + 900)%Z.

(** The steps of a timeline: at most a hundred snapshots lie behind the
    present. *)
Inductive spec_step (t : Timeline) : op → Timeline → Prop :=
  | spec_join after k now :
      joins t (Some k) now →
      spec_step t (Edit after (Some k) now)
        (Build_Timeline (take (tl_at t) (tl_shots t) ++ [after]) (tl_at t) (Some (k, now)))
  | spec_touch present after key now :
      ¬ joins t key now → tl_shots t !! tl_at t = Some present → alike present after →
      spec_step t (Edit after key now) (Build_Timeline (<[tl_at t := after]> (tl_shots t)) (tl_at t) (tl_burst t))
  | spec_push present after key now behind :
      ¬ joins t key now → tl_shots t !! tl_at t = Some present → ¬ alike present after →
      behind = take (S (tl_at t)) (tl_shots t) →
      spec_step t (Edit after key now)
        (Build_Timeline (drop (length behind - 100) behind ++ [after]) (Nat.min 100 (length behind)) (option_map (λ k, (k, now)) key))
  | spec_undo : tl_at t ≠ 0 → spec_step t Undo (Build_Timeline (tl_shots t) (tl_at t - 1) None)
  | spec_no_undo : tl_at t = 0 → spec_step t Undo t
  | spec_redo : S (tl_at t) < length (tl_shots t) → spec_step t Redo (Build_Timeline (tl_shots t) (S (tl_at t)) None)
  | spec_no_redo : length (tl_shots t) ≤ S (tl_at t) → spec_step t Redo t
  | spec_seal : spec_step t Seal (Build_Timeline (tl_shots t) (tl_at t) None).

(** The timeline a state of the code stands for. *)
Definition abs (st : HistoryState D E * Snapshot D E) : Timeline :=
  Build_Timeline (past st.1 ++ st.2 :: future st.1) (length (past st.1)) (option_map (λ k, (k, lastAt st.1)) (lastKey st.1)).

(** ** Lemmas *)

Lemma sameSnapshot_refl s : sameSnapshot s s = true.
Proof. unfold sameSnapshot. rewrite !Nat.eqb_refl. apply same_json_refl. Qed.

Lemma sameSnapshot_trans a b c : sameSnapshot a b = true → sameSnapshot b c = true → sameSnapshot a c = true.
Proof.
  unfold sameSnapshot, same_json.
  destruct (length (ss_nodes a) =? length (ss_nodes b)) eqn:E1; [|done]. apply Nat.eqb_eq in E1 as ->.
  destruct (length (ss_edges a) =? length (ss_edges b)) eqn:E2; [|done]. apply Nat.eqb_eq in E2 as ->.
  simpl. intros ->%bool_decide_eq_true. done.
Qed.

Lemma trim_past_eq p : trim_past p = drop (length p - HISTORY_LIMIT) p.
Proof.
  unfold trim_past. destruct (HISTORY_LIMIT <? length p) eqn:E0; [done|].
  apply Nat.ltb_ge in E0. by replace (length p - HISTORY_LIMIT) with 0 by lia.
Qed.

Lemma length_trim_past p : length (trim_past p) ≤ HISTORY_LIMIT.
Proof. rewrite trim_past_eq, length_drop. unfold HISTORY_LIMIT. lia. Qed.

Lemma length_removelast (p : list (Snapshot D E)) : length (removelast p) = pred (length p).
Proof.
  destruct p as [|x p] using rev_ind; [done|].
  rewrite removelast_last, !length_app. simpl. lia.
Qed.

Lemma past_split (p : list (Snapshot D E)) t : last p = Some t → p = removelast p ++ [t].
Proof. destruct p as [|x p] using rev_ind; [done|]. rewrite last_snoc, removelast_last. congruence. Qed.

Lemma undo_spec h cur :
  match undo h cur with
  | None => past h = []
  | Some (h', s) => past h = past h' ++ [s] ∧ future h' = cur :: future h
  end.
Proof.
  unfold undo. destruct (last (past h)) eqn:El; simpl.
  - split; [by apply past_split|done].
  - by apply last_None in El.
Qed.

(** ** Properties *)

(** What every history of a session satisfies: undo and redo steps together
    are bounded, and a burst is open only right after its edit was recorded. *)
Record history_ok h : Prop := {
  ho_limit : length (past h) + length (future h) ≤ HISTORY_LIMIT;
  ho_key : lastKey h ≠ None → past h ≠ [] ∧ future h = [];
}.

Lemma record_ok h before after key now : history_ok h → history_ok (record h before after key now).
Proof.
  intros [Hl Hk]. unfold record. destruct (coalesces h key now) eqn:Ec; [|case_match; [done|]]; split; simpl.
  - lia.
  - intros Hn. split; [by apply Hk|done].
  - rewrite Nat.add_0_r. apply length_trim_past.
  - intros _. split; [|done]. intros E0%(f_equal length). rewrite trim_past_eq, length_drop, length_app in E0.
    unfold HISTORY_LIMIT in *. simpl in E0. lia.
Qed.

Lemma step_ok st o : history_ok st.1 → history_ok (step st o).1.
Proof.
  destruct st as [h cur]. simpl. intros Hok. pose proof Hok as [Hl Hk]. destruct o; simpl.
  - by apply record_ok.
  - pose proof (undo_spec h cur) as Hs. destruct (undo h cur) as [[h' s]|] eqn:E0; simpl; [|done].
    destruct Hs as [Hp Hf]. rewrite Hp, length_app in Hl. split.
    + rewrite Hf. simpl in *. lia.
    + unfold undo in E0. case_match; simplify_eq. done.
  - unfold redo. destruct (future h) as [|t r] eqn:Ef; simpl; [done|].
    split; simpl; [rewrite length_app|done]; simpl in *; lia.
  - unfold seal. destruct (lastKey h) eqn:E0; [|done]. split; simpl; [done|]. done.
Qed.

(** Whatever a session does, the undo and redo stacks together never
    hold more than [HISTORY_LIMIT] snapshots, and an open burst has its
    starting snapshot on the stack and nothing to redo. *)
Theorem session_history_ok ops s :
  history_ok (fold_left step ops (emptyHistory, s)).1.
Proof.
  cut (∀ st, history_ok st.1 → history_ok (fold_left step ops st).1).
  { intros Hst. apply Hst. split; simpl; [unfold HISTORY_LIMIT; lia|done]. }
  induction ops as [|o ops IH]; intros st Hst; simpl; [done|]. by apply IH, step_ok.
Qed.

(** *** The code's tests are the specification's *)

Lemma number_alike_norm a b : norm_num a = norm_num b ↔ number_alike a b.
Proof.
  unfold number_alike. destruct a as [p| |], b as [q| |]; simpl; try by split.
  split; [intros [= Eq]|by intros ->%Qred_complete].
  by rewrite <-(Qred_correct p), <-(Qred_correct q), Eq.
Qed.

(** A last field of an object, [undefined] being no field. *)
Definition last_field (k : string) (v : value) : obj := match v with VUndef => [] | v => [(k, json_norm v)] end.

Lemma last_field_inj k a b : last_field k a = last_field k b ↔ json_norm a = json_norm b.
Proof. destruct a as [| | |n| | |], b as [| | |m| | |]; simpl; split; try done; try (by destruct n); try (by destruct m); by intros [= ->] || by intros ->. Qed.

Lemma norm_snap_node (n : SnapNode D) :
  json_norm (json_node n) =
    VObj ([("id", VStr (sn_id n)); ("type", VStr (sn_type n));
           ("position", VObj [("x", norm_num (sp_x (sn_position n))); ("y", norm_num (sp_y (sn_position n)))])]
          ++ last_field "data" (to_json (sn_data n))).
Proof. simpl. by destruct (to_json (sn_data n)). Qed.

Lemma norm_snap_edge (e : SnapEdge E) :
  json_norm (json_edge e) =
    VObj ([("id", VStr (se_id e)); ("source", VStr (se_source e));
           ("sourceHandle", match se_sourceHandle e with Some x => VStr x | None => VNull end);
           ("target", VStr (se_target e))] ++ last_field "data" (edge_data e)).
Proof.
  unfold json_edge, edge_data. destruct (se_data e) as [d|]; [|by destruct (se_sourceHandle e)].
  simpl. by destruct (to_json d), (se_sourceHandle e).
Qed.

Lemma node_alike_norm a b : json_norm (json_node a) = json_norm (json_node b) ↔ node_alike a b.
Proof.
  rewrite !norm_snap_node. unfold node_alike. rewrite <-!number_alike_norm, <-(last_field_inj "data"). split.
  - by intros [= -> -> -> -> ->].
  - by intros (-> & -> & -> & -> & ->).
Qed.

Lemma edge_alike_norm a b : json_norm (json_edge a) = json_norm (json_edge b) ↔ edge_alike a b.
Proof.
  rewrite !norm_snap_edge. unfold edge_alike. rewrite <-(last_field_inj "data"). split.
  - intros [= -> -> Hh -> ->]. split_and!; try done. by destruct (se_sourceHandle a), (se_sourceHandle b); simplify_eq.
  - by intros (-> & -> & -> & -> & ->).
Qed.

Lemma map_eq_Forall2 {A B} (f : A → B) (P : A → A → Prop) l l' :
  (∀ x y, f x = f y ↔ P x y) → List.map f l = List.map f l' ↔ Forall2 P l l'.
Proof.
  intros HP. revert l'. induction l as [|x l IH]; intros [|y l']; simpl; split; try done; try by inversion 1.
  - intros [= Hx Hl]. constructor; [by apply HP|by apply IH].
  - inversion 1; subst. f_equal; [by apply HP|by apply IH].
Qed.

Lemma sameSnapshot_alike a b : sameSnapshot a b = true ↔ alike a b.
Proof.
  assert (Hj : same_json (json_snapshot a) (json_snapshot b) = true ↔ alike a b).
  { unfold same_json, alike. rewrite bool_decide_eq_true.
    rewrite <-(map_eq_Forall2 _ _ _ _ node_alike_norm), <-(map_eq_Forall2 _ _ _ _ edge_alike_norm).
    change (json_norm (json_snapshot ?s)) with
      (VObj [("nodes", json_norm (varr json_node (ss_nodes s))); ("edges", json_norm (varr json_edge (ss_edges s)))]).
    rewrite !norm_varr by done. split; [apply obj2_inv|by intros [-> ->]]. }
  unfold sameSnapshot. destruct (negb _ || negb _) eqn:El; [|done]. split; [done|].
  intros [Hn%Forall2_length He%Forall2_length]. by rewrite Hn, He, !Nat.eqb_refl in El.
Qed.

Lemma coalesces_joins h cur key now : coalesces h key now = true ↔ joins (abs (h, cur)) key now.
Proof.
  unfold coalesces, joins, abs. cbn [tl_burst fst]. rewrite !andb_true_iff, negb_true_iff, bool_decide_eq_false, bool_decide_eq_true, Z.leb_le.
  unfold COALESCE_MS. split.
  - intros [[Hk ->] Hn]. destruct (lastKey h) as [k|]; [|done]. exists k, (lastAt h). split_and!; [done..|lia].
  - intros (k & t & -> & Eb & Hn). destruct (lastKey h) as [k'|]; simplify_eq/=. split_and!; [done..|lia].
Qed.

Lemma abs_present st : tl_shots (abs st) !! tl_at (abs st) = Some st.2.
Proof. unfold abs. cbn [tl_shots tl_at]. rewrite lookup_app_r by done. by rewrite Nat.sub_diag. Qed.

Lemma record_refines h cur after key now : spec_step (abs (h, cur)) (Edit after key now) (abs (record h cur after key now, after)).
Proof.
  pose proof (abs_present (h, cur)) as Hc. unfold record. destruct (coalesces h key now) eqn:Ej.
  - apply (coalesces_joins h cur) in Ej. pose proof Ej as (k & t & -> & Eb & _).
    assert (Ea : abs (Build_HistoryState (past h) [] (lastKey h) now, after) =
      Build_Timeline (take (tl_at (abs (h, cur))) (tl_shots (abs (h, cur))) ++ [after]) (tl_at (abs (h, cur))) (Some (k, now))).
    { unfold abs in *. cbn [tl_burst tl_at tl_shots fst snd past future lastKey lastAt] in *. rewrite take_app_length.
      destruct (lastKey h); by simplify_eq/=. }
    rewrite Ea. by constructor.
  - assert (Hj : ¬ joins (abs (h, cur)) key now) by (rewrite <-(coalesces_joins h cur); congruence).
    destruct (sameSnapshot cur after) eqn:Es.
    + apply sameSnapshot_alike in Es.
      assert (Ea : abs (h, after) = Build_Timeline (<[tl_at (abs (h, cur)) := after]> (tl_shots (abs (h, cur)))) (tl_at (abs (h, cur))) (tl_burst (abs (h, cur)))).
      { unfold abs. cbn [tl_burst tl_at tl_shots fst snd]. rewrite insert_app_r_alt by done. by rewrite Nat.sub_diag. }
      rewrite Ea. by eapply spec_touch.
    + assert (Hs : ¬ alike cur after) by (rewrite <-sameSnapshot_alike; congruence).
      pose proof (spec_push _ cur after key now (past h ++ [cur]) Hj Hc Hs) as Hp.
      replace (abs (Build_HistoryState (trim_past (past h ++ [cur])) [] key now, after)) with
        (Build_Timeline (drop (length (past h ++ [cur]) - 100) (past h ++ [cur]) ++ [after]) (Nat.min 100 (length (past h ++ [cur])))
           (option_map (λ k, (k, now)) key)).
      * apply Hp. unfold abs. cbn [tl_at tl_shots fst snd]. rewrite (cons_middle cur (past h) (future h)), (app_assoc (past h)).
        replace (S (length (past h))) with (length (past h ++ [cur])) by (rewrite length_app; simpl; lia). by rewrite take_app_length.
      * unfold abs. cbn [fst snd past future lastKey lastAt]. rewrite trim_past_eq, length_drop. unfold HISTORY_LIMIT.
        f_equal. generalize (length (past h ++ [cur])). intros n. lia.
Qed.

(** A timeline goes one way only. *)
Lemma spec_step_det t o t1 t2 : spec_step t o t1 → spec_step t o t2 → t1 = t2.
Proof. intros H1 H2. destruct H1; inversion H2; subst; try done; try lia; try congruence. Qed.

(** C40 The history state machine refines the timeline: each edit, undo, redo
    and seal of the code is that step of the timeline, which has no other.
    An edit under the key of the running burst, within 900 ms of the last one,
    replaces the present and drops what lies ahead; one that changes nothing
    only replaces the present; any other drops what lies ahead, appends, and
    opens a burst if it has a key.  Undo and redo move one place without
    changing the timeline and end the burst, as sealing does; at the ends they
    do nothing; and never more than a hundred snapshots lie behind. *)
Theorem step_refines st o : spec_step (abs st) o (abs (step st o)).
Proof.
  destruct st as [h cur]. destruct o as [after key now| | |]; simpl.
  - apply record_refines.
  - pose proof (undo_spec h cur) as Hs. destruct (undo h cur) as [[h' s]|] eqn:E0; simpl; [|apply spec_no_undo; simpl; by rewrite Hs].
    destruct Hs as [Hp Hf].
    assert (Ea : abs (h', s) = Build_Timeline (tl_shots (abs (h, cur))) (tl_at (abs (h, cur)) - 1) None).
    { unfold abs. cbn [tl_shots tl_at fst snd]. rewrite Hp, Hf, length_app, <-app_assoc. simpl. rewrite Nat.add_sub. f_equal.
      unfold undo in E0. by destruct (last (past h)); simplify_eq/=. }
    rewrite Ea. apply spec_undo. simpl. rewrite Hp, length_app. simpl. lia.
  - unfold redo. destruct (future h) as [|s rest] eqn:Ef; simpl; [apply spec_no_redo; simpl; rewrite Ef, length_app; simpl; lia|].
    assert (Ea : abs (Build_HistoryState (past h ++ [cur]) rest None 0%Z, s) = Build_Timeline (tl_shots (abs (h, cur))) (S (tl_at (abs (h, cur)))) None).
    { unfold abs. cbn [tl_shots tl_at fst snd past future lastKey]. rewrite Ef, length_app, <-app_assoc. simpl. by rewrite Nat.add_1_r. }
    rewrite Ea. apply spec_redo. simpl. rewrite Ef, length_app. simpl. lia.
  - replace (abs (seal h, cur)) with (Build_Timeline (tl_shots (abs (h, cur))) (tl_at (abs (h, cur))) None) by (unfold seal, abs; simpl; by destruct (lastKey h) eqn:Ek; simpl; rewrite ?Ek).
    apply spec_seal.
Qed.

(** A run of edits with the same key, each within the window of the last. *)
Fixpoint burst (h : HistoryState D E) (cur : Snapshot D E) (key : string)
    (edits : list (Snapshot D E * Z)) : HistoryState D E * Snapshot D E :=
  match edits with
  | [] => (h, cur)
  | (after, now) :: edits => burst (record h cur after (Some key) now) after key edits
  end.

Fixpoint close_together (at_ : Z) (edits : list (Snapshot D E * Z)) : Prop :=
  match edits with
  | [] => True
  | (_, now) :: edits => (now - at_ ≤ COALESCE_MS)%Z ∧ close_together now edits
  end.

Lemma burst_keeps h cur key edits :
  lastKey h = Some key → future h = [] → close_together (lastAt h) edits →
  past (burst h cur key edits).1 = past h ∧ future (burst h cur key edits).1 = [].
Proof.
  revert h cur. induction edits as [|[after now] edits IH]; intros h cur Hk Hf Hc; simpl; [done|].
  destruct Hc as [Hc1 Hc2].
  assert (record h cur after (Some key) now = Build_HistoryState (past h) [] (lastKey h) now) as ->.
  { unfold record, coalesces. rewrite Hk, bool_decide_eq_false_2, bool_decide_eq_true_2 by done.
    by rewrite (proj2 (Z.leb_le _ _) Hc1). }
  by destruct (IH (Build_HistoryState (past h) [] (lastKey h) now) after).
Qed.

(** A drag or a run of typing is one undo step: after a burst of edits
    under one key, one undo gives back the snapshot from before its first
    edit, whatever the later edits were. *)
Theorem burst_undo h s0 s1 t1 key edits :
  coalesces h (Some key) t1 = false → sameSnapshot s0 s1 = false → close_together t1 edits →
  let '(h', cur) := burst h s0 key ((s1, t1) :: edits) in
  ∃ h'', undo h' cur = Some (h'', s0) ∧ future h'' = [cur] ∧
    past h'' = drop (S (length (past h)) - HISTORY_LIMIT) (past h).
Proof.
  intros Hc Hs Ht. simpl. unfold record. rewrite Hc, Hs.
  set (h1 := Build_HistoryState (trim_past (past h ++ [s0])) [] (Some key) t1).
  destruct (burst_keeps h1 s1 key edits) as [Hp Hf]; try done.
  destruct (burst h1 s1 key edits) as [h' cur]; simpl in *.
  rewrite trim_past_eq, length_app, drop_app_le in Hp by (unfold HISTORY_LIMIT; simpl; lia).
  unfold undo. rewrite Hp, last_snoc, removelast_last, Hf. eexists. split_and!; [done|done|].
  cbn [past]. f_equal. unfold HISTORY_LIMIT. simpl. lia.
Qed.

Lemma undo_redo h cur h' s :
  undo h cur = Some (h', s) →
  ∃ h'', redo h' s = Some (h'', cur) ∧ past h'' = past h ∧ future h'' = future h.
Proof.
  intros E0. pose proof (undo_spec h cur) as Hs. rewrite E0 in Hs. destruct Hs as [Hp Hf].
  unfold redo. rewrite Hf. eexists. split_and!; [done|by simpl|done].
Qed.
End history.

(** ** Witnesses *)

#[local] Instance string_ToJson : ToJson string := VStr.

(** One block, named [l], and no connection. *)
Definition one_block (l : string) : Snapshot string string :=
  Build_Snapshot [Build_SnapNode "a" "play" (Build_SnapPosition (num_of_Z 0) (num_of_Z 0)) l] [].

Lemma burst_undo_witness :
  let '(h', cur) := burst emptyHistory (one_block "x") "label" [(one_block "xy", 1000%Z); (one_block "xyz", 1500%Z)] in
  ∃ h'', undo h' cur = Some (h'', one_block "x") ∧ future h'' = [cur] ∧ past h'' = [].
Proof.
  refine (burst_undo emptyHistory (one_block "x") (one_block "xy") 1000 "label" [(one_block "xyz", 1500%Z)] _ _ _).
  - by vm_compute.
  - by vm_compute.
  - split; [by vm_compute|done].
Defined.
