(* ===== verification/Layout.v ===== *)
(** * Tidy up ([flow/model/layout.ts])

    The depth-first placement of the blocks, and the order a caller meets
    them.  The recursion runs on fuel; [tidyLayout_places] shows the fuel is
    never spent. *)
From S2P Require Import Prelude JsString JsValue Blocks Graph.

Local Open Scope string_scope.
Local Open Scope nat_scope.
Local Open Scope list_scope.

Class LayoutNode (N : Type) := {
  ln_block :: BlockLike N;
  ln_id : N → string;
}.

#[export] Instance WorkNode_LayoutNode : LayoutNode WorkNode := { ln_id := wn_id }.

Record LayoutEdge := {
  le_source : string;
  le_sourceHandle : option string;
  le_target : string;
}.

Definition COLUMN_WIDTH : Z := 320.
Definition ROW_GAP : Z := 36.

Definition estimateHeight `{BlockLike A} (node : A) : Z :=
  let exits := Z.of_nat (length (outHandles node)) in
  (84 + (if 0 <? exits then 10 + exits * 30 else 0))%Z.

(** The variables [out], [cursor] and [maxDepth] the walk updates. *)
Record Walk := {
  wk_out : list (string * (Z * Z));
  wk_cursor : Z;
  wk_maxDepth : Z;
}.

Section layout.
Context {A : Type} `{LayoutNode A}.

Definition by_id (nodes : list A) : list (string * A) := om_of_list (List.map (λ n, (ln_id n, n)) nodes).

Definition by_slot (edges : list LayoutEdge) : list (string * string) :=
  om_of_list (List.map (λ e, (slot_of (le_source e) (default "next" (le_sourceHandle e)), le_target e)) edges).

(** What the exits of a block lead to, in exit order. *)
Definition exits_of (bySlot : list (string * string)) (id : string) (node : A) : list string :=
  omap (λ h, om_get (slot_of id (oh_id h)) bySlot) (outHandles node).

Definition walk_child (visit : string → Walk → option Walk) (acc : option Walk) (child : string) : option Walk :=
  match acc with Some st => visit child st | None => None end.

(** [None] only when the fuel is spent. *)
Fixpoint visit (fuel : nat) (byId : list (string * A)) (bySlot : list (string * string))
    (id : string) (depth : Z) (st : Walk) : option Walk :=
  match fuel with
  | O => None
  | S fuel =>
      match om_get id byId with
      | None => Some st
      | Some node =>
          if om_has id (wk_out st) then Some st else
          let st1 := {| wk_out := om_set id ((depth * COLUMN_WIDTH)%Z, wk_cursor st) (wk_out st);
                        wk_cursor := wk_cursor st;
                        wk_maxDepth := Z.max (wk_maxDepth st) depth |} in
          let children := List.filter (λ t, negb (om_has t (wk_out st1))) (exits_of bySlot id node) in
          match children with
          | [] => Some {| wk_out := wk_out st1;
                          wk_cursor := (wk_cursor st1 + (estimateHeight node + ROW_GAP))%Z;
                          wk_maxDepth := wk_maxDepth st1 |}
          | _ =>
              let start := wk_cursor st1 in
              match fold_left (walk_child (λ c st, visit fuel byId bySlot c (depth + 1)%Z st)) children (Some st1) with
              | None => None
              | Some st2 =>
                  Some {| wk_out := wk_out st2;
                          wk_cursor := Z.max (wk_cursor st2) (start + estimateHeight node + ROW_GAP);
                          wk_maxDepth := wk_maxDepth st2 |}
              end
          end
      end
  end.

(** The final column: one turn of the loop over [orphans], with [y]. *)
Definition place_orphan (x : Z) (acc : list (string * (Z * Z)) * Z) (n : A) : list (string * (Z * Z)) * Z :=
  (om_set (ln_id n) (x, acc.2) acc.1, (acc.2 + (estimateHeight n + ROW_GAP))%Z).

Definition walk_start : Walk := Build_Walk [] 0 0.

(** The walk from Start, before the orphans are placed. *)
Definition walk (nodes : list A) (edges : list LayoutEdge) : option Walk :=
  match find (λ n, bl_type n ==? entry) nodes with
  | Some e => visit (S (length nodes)) (by_id nodes) (by_slot edges) (ln_id e) 0 walk_start
  | None => Some walk_start
  end.

Definition orphans (nodes : list A) (st : Walk) : list A :=
  List.filter (λ n, negb (om_has (ln_id n) (wk_out st))) nodes.

Definition tidyLayout (nodes : list A) (edges : list LayoutEdge) : option (list (string * (Z * Z))) :=
  match walk nodes edges with
  | None => None
  | Some st =>
      Some (fold_left (place_orphan ((wk_maxDepth st + 1) * COLUMN_WIDTH + 80)%Z) (orphans nodes st) (wk_out st, 0%Z)).1
  end.

Definition callingOrder (nodes : list A) (edges : list LayoutEdge) : option (list string) :=
  om_keys <$> tidyLayout nodes edges.

(** ** Lemmas: the walk *)

Lemma estimateHeight_pos `{BlockLike M} (n : M) : (0 < estimateHeight n)%Z.
Proof. unfold estimateHeight. case_match; lia. Qed.

Lemma by_id_NoDup nodes :
  NoDup (List.map ln_id nodes) → by_id nodes = List.map (λ n, (ln_id n, n)) nodes.
Proof. intros. unfold by_id. apply om_of_list_NoDup. unfold om_keys. by rewrite List.map_map. Qed.

Lemma by_id_get nodes id n :
  NoDup (List.map ln_id nodes) → om_get id (by_id nodes) = Some n ↔ n ∈ nodes ∧ ln_id n = id.
Proof.
  intros Hids. rewrite by_id_NoDup by done. split.
  - intros (m & E & Hm)%om_get_Some_elem%elem_of_lmap. by simplify_eq.
  - intros [Hn <-]. apply om_get_elem; [unfold om_keys; by rewrite List.map_map|].
    apply elem_of_lmap. eauto.
Qed.

Lemma by_id_mem nodes id :
  NoDup (List.map ln_id nodes) → id ∈ List.map ln_id nodes ↔ ∃ n, om_get id (by_id nodes) = Some n.
Proof.
  intros Hids. rewrite elem_of_lmap. split.
  - intros (n & -> & Hn). exists n. by apply by_id_get.
  - intros (n & [Hn <-]%by_id_get); eauto.
Qed.

Section walk.
Context (nodes : list A) (edges : list LayoutEdge).
Context (Hids : NoDup (List.map ln_id nodes)).

(** An exit of a block leads to a block of the flow. *)
Definition leads_to (a b : string) : Prop :=
  ∃ node, om_get a (by_id nodes) = Some node ∧ b ∈ exits_of (by_slot edges) a node ∧
    b ∈ List.map ln_id nodes.

Definition height_of (id : string) : Z :=
  match om_get id (by_id nodes) with Some n => estimateHeight n | None => 0%Z end.

Definition bottom (kp : string * (Z * Z)) : Z := (kp.2.2 + height_of kp.1 + ROW_GAP)%Z.

(** Two placed blocks in one column stack without touching. *)
Definition stacked (a b : string * (Z * Z)) : Prop :=
  a.2.1 = b.2.1 → a.1 ≠ b.1 → (bottom a ≤ b.2.2 ∨ bottom b ≤ a.2.2)%Z.

(** [gray]: the blocks whose visit is running, all left of column [depth]. *)
Record walk_inv (root : string) (gray : list string) (depth : Z) (st : Walk) : Prop := {
  wi_keys : NoDup (om_keys (wk_out st));
  wi_ids : ∀ k, k ∈ om_keys (wk_out st) → k ∈ List.map ln_id nodes;
  wi_cols : ∀ kp, kp ∈ wk_out st → ∃ d, kp.2.1 = (d * COLUMN_WIDTH)%Z ∧ (0 ≤ d ≤ wk_maxDepth st)%Z ∧
              (kp.1 ∈ gray → d < depth)%Z;
  wi_rows : ∀ kp, kp ∈ wk_out st → (0 ≤ kp.2.2 ≤ wk_cursor st)%Z;
  wi_below : ∀ kp, kp ∈ wk_out st → (kp.1 ∉ gray) → (bottom kp ≤ wk_cursor st)%Z;
  wi_stacked : ∀ a b, a ∈ wk_out st → b ∈ wk_out st → stacked a b;
  wi_closed : ∀ k b, k ∈ om_keys (wk_out st) → (k ∉ gray) → leads_to k b → b ∈ om_keys (wk_out st);
  wi_reach : ∀ k, k ∈ om_keys (wk_out st) → rtc leads_to root k;
  wi_gray : ∀ k, k ∈ gray → k ∈ om_keys (wk_out st);
}.

Definition unplaced (st : Walk) : list A := orphans nodes st.

Definition grows (st st' : Walk) : Prop :=
  wk_out st `prefix_of` wk_out st' ∧ (wk_cursor st ≤ wk_cursor st')%Z.

Lemma grows_keys st st' k : grows st st' → k ∈ om_keys (wk_out st) → k ∈ om_keys (wk_out st').
Proof. intros [[l ->] _] Hk. rewrite om_keys_app, elem_of_app. by left. Qed.

Lemma grows_refl st : grows st st.
Proof. split; [done|lia]. Qed.

Lemma grows_trans a b c : grows a b → grows b c → grows a c.
Proof. intros [H1 ?] [H2 ?]. split; [by etrans|lia]. Qed.

Definition placed (id : string) (depth : Z) (st : Walk) : Walk :=
  {| wk_out := om_set id ((depth * COLUMN_WIDTH)%Z, wk_cursor st) (wk_out st);
     wk_cursor := wk_cursor st; wk_maxDepth := Z.max (wk_maxDepth st) depth |}.

Lemma placed_out id depth st :
  id ∉ om_keys (wk_out st) →
  wk_out (placed id depth st) = wk_out st ++ [(id, ((depth * COLUMN_WIDTH)%Z, wk_cursor st))].
Proof. intros. by apply om_set_new. Qed.

Lemma placed_grows id depth st : id ∉ om_keys (wk_out st) → grows st (placed id depth st).
Proof. intros. split; [|simpl; lia]. rewrite placed_out by done. by apply prefix_app_r. Qed.

Lemma unplaced_lt id n depth st :
  om_get id (by_id nodes) = Some n → id ∉ om_keys (wk_out st) →
  length (unplaced (placed id depth st)) < length (unplaced st).
Proof.
  intros [Hn <-]%by_id_get Hout; [|done]. unfold unplaced, orphans.
  apply (lfilter_length_lt _ _ _ n); [|done| |].
  - intros m. rewrite placed_out by done. rewrite !negb_true_iff, !om_has_false.
    rewrite om_keys_app. set_solver.
  - rewrite negb_false_iff, om_has_true, placed_out by done. rewrite om_keys_app. set_solver.
  - by rewrite negb_true_iff, om_has_false.
Qed.

Lemma unplaced_le st st' : grows st st' → length (unplaced st') ≤ length (unplaced st).
Proof.
  intros Hg. apply lfilter_length_le. intros m. rewrite !negb_true_iff, !om_has_false.
  intros Hn Hm. by apply Hn, (grows_keys st).
Qed.

Lemma kp_keys kp (out : list (string * (Z * Z))) : kp ∈ out → kp.1 ∈ om_keys out.
Proof. intros. apply elem_of_lmap. eauto. Qed.

Lemma placed_inv root gray depth st id n :
  (0 ≤ depth)%Z → om_get id (by_id nodes) = Some n → id ∉ om_keys (wk_out st) →
  rtc leads_to root id → (0 ≤ wk_cursor st)%Z →
  walk_inv root gray depth st → walk_inv root (id :: gray) (depth + 1) (placed id depth st).
Proof.
  intros Hd Hn Hout Hroot Hcur [].
  assert (id ∉ gray) as Hgray by auto.
  assert (∀ kp, kp ∈ wk_out st → kp.1 ≠ id) as Hne by (intros kp Hkp%kp_keys E; by rewrite E in Hkp).
  assert (∀ kp, kp ∈ wk_out st → kp.2.1 = (depth * COLUMN_WIDTH)%Z → (bottom kp ≤ wk_cursor st)%Z) as Hcol.
  { intros kp Hkp E. apply wi_below0; [done|]. intros Hg.
    destruct (wi_cols0 kp Hkp) as (d & Ed & _ & Hlt). apply Hlt in Hg. unfold COLUMN_WIDTH in *. lia. }
  split; rewrite ?placed_out by done; cbn [wk_cursor wk_maxDepth placed];
    rewrite ?om_keys_app; cbn [om_keys List.map fst].
  - rewrite Permutation_app_comm. simpl. by apply NoDup_cons.
  - intros k [?| ->%list_elem_of_singleton]%elem_of_app; [auto|]. apply by_id_mem; eauto.
  - intros kp [Hkp| ->%list_elem_of_singleton]%elem_of_app.
    + destruct (wi_cols0 kp Hkp) as (d & ? & ? & Hlt). exists d. split_and!; try done; try lia.
      intros [?|Hg]%elem_of_cons; [by destruct (Hne kp)|]. apply Hlt in Hg. lia.
    + exists depth. simpl. split_and!; try done; lia.
  - intros kp [Hkp| ->%list_elem_of_singleton]%elem_of_app; [auto|simpl; lia].
  - intros kp [Hkp| ->%list_elem_of_singleton]%elem_of_app; rewrite not_elem_of_cons; [naive_solver|].
    simpl. by intros [? _].
  - intros a b [Ha| ->%list_elem_of_singleton]%elem_of_app [Hb| ->%list_elem_of_singleton]%elem_of_app.
    + auto.
    + intros E _. left. by apply Hcol.
    + intros E _. right. by apply Hcol.
    + by intros _ [].
  - intros k b Hk [Hk1 Hk2]%not_elem_of_cons Hb. apply elem_of_app.
    apply elem_of_app in Hk as [Hk|Hk]; [left; by eapply wi_closed0|]. simpl in Hk. set_solver.
  - intros k [?| ->%list_elem_of_singleton]%elem_of_app; auto.
  - intros k [->|?]%elem_of_cons; apply elem_of_app; [right; simpl; set_solver|left; auto].
Qed.

(** The cursor after a block: below its subtree and below the block. *)
Definition finished (start h : Z) (st : Walk) : Walk :=
  {| wk_out := wk_out st; wk_cursor := Z.max (wk_cursor st) (start + h + ROW_GAP);
     wk_maxDepth := wk_maxDepth st |}.

Lemma finished_inv root gray depth st st2 id n :
  om_get id (by_id nodes) = Some n → id ∉ om_keys (wk_out st) →
  walk_inv root gray depth st → grows (placed id depth st) st2 →
  walk_inv root (id :: gray) (depth + 1) st2 →
  (∀ b, leads_to id b → b ∈ om_keys (wk_out st2)) →
  walk_inv root gray depth (finished (wk_cursor st) (estimateHeight n) st2).
Proof.
  intros Hn Hout Hinv Hg [] Hch.
  pose proof (grows_trans _ _ _ (placed_grows id depth st Hout) Hg) as Hg'.
  assert (∀ kp, kp ∈ wk_out st2 → kp.1 = id → kp = (id, ((depth * COLUMN_WIDTH)%Z, wk_cursor st))) as Hid.
  { intros [k p] Hkp E. simpl in E. subst k. f_equal. apply om_get_elem in Hkp; [|done].
    destruct Hg as [[l El] _]. rewrite placed_out, <- app_assoc in El by done.
    assert (om_get id (wk_out st2) = Some ((depth * COLUMN_WIDTH)%Z, wk_cursor st)) as E'; [|congruence].
    apply om_get_elem; [done|]. rewrite El. set_solver. }
  split; cbn [finished wk_out wk_cursor wk_maxDepth]; try done.
  - intros kp Hkp. destruct (wi_cols0 kp Hkp) as (d & E & ? & ?). exists d. split_and!; try done; try lia.
    intros Hgr. assert (kp ∈ wk_out st) as Hkp'.
    { pose proof (wi_gray _ _ _ _ Hinv _ Hgr) as Hk. apply elem_of_lmap in Hk as ([k' p'] & Ek & Hk).
      destruct Hg' as [[l El] _]. destruct kp as [k p]. simpl in Ek. subst k'.
      apply om_get_elem in Hkp; [|done]. assert (om_get k (wk_out st2) = Some p') as Hk2.
      { apply om_get_elem; [done|]. rewrite El. set_solver. }
      congruence. }
    destruct (wi_cols _ _ _ _ Hinv kp Hkp') as (d' & E' & _ & Hlt). apply Hlt in Hgr.
    rewrite E in E'. unfold COLUMN_WIDTH in E'. lia.
  - intros kp Hkp. specialize (wi_rows0 kp Hkp). lia.
  - intros kp Hkp Hgr. destruct (decide (kp.1 = id)) as [E|Hne].
    + rewrite (Hid kp Hkp E). unfold bottom, height_of. simpl. rewrite Hn. lia.
    + specialize (wi_below0 kp Hkp). rewrite not_elem_of_cons in wi_below0.
      specialize (wi_below0 (conj Hne Hgr)). lia.
  - intros k b Hk Hgr Hb. destruct (decide (k = id)) as [->|Hne]; [by apply Hch|].
    apply (wi_closed0 k); [done| |done]. by apply not_elem_of_cons.
  - intros k Hk. apply wi_gray0. by apply elem_of_cons; right.
Qed.

Lemma visit_unfold fuel id depth st n :
  om_get id (by_id nodes) = Some n → id ∉ om_keys (wk_out st) →
  visit (S fuel) (by_id nodes) (by_slot edges) id depth st =
  match fold_left (walk_child (λ c st, visit fuel (by_id nodes) (by_slot edges) c (depth + 1)%Z st))
          (List.filter (λ t, negb (om_has t (wk_out (placed id depth st)))) (exits_of (by_slot edges) id n))
          (Some (placed id depth st)) with
  | None => None
  | Some st2 => Some (finished (wk_cursor st) (estimateHeight n) st2)
  end.
Proof.
  intros Hn Hout. cbn [visit]. rewrite Hn, (proj2 (om_has_false _ _)) by done.
  fold (placed id depth st). cbn [wk_out]. fold (placed id depth st).
  change (om_set id _ (wk_out st)) with (wk_out (placed id depth st)).
  destruct (List.filter _ _) as [|c l] eqn:E; [|done]. cbn [fold_left]. unfold finished. do 2 f_equal.
  pose proof (estimateHeight_pos n). cbn [wk_cursor placed]. unfold ROW_GAP. lia.
Qed.

(** A visit of a child that keeps the invariant keeps it along the children. *)
Lemma fold_children root gray depth v (children : list string) st :
  (∀ c st', c ∈ children → grows st st' → walk_inv root gray depth st' →
     ∃ st'', v c st' = Some st'' ∧ grows st' st'' ∧ walk_inv root gray depth st'' ∧
       (c ∈ List.map ln_id nodes → c ∈ om_keys (wk_out st''))) →
  walk_inv root gray depth st →
  ∃ st', fold_left (walk_child v) children (Some st) = Some st' ∧ grows st st' ∧
    walk_inv root gray depth st' ∧
    ∀ c, c ∈ children → c ∈ List.map ln_id nodes → c ∈ om_keys (wk_out st').
Proof.
  intros Hv Hst.
  cut (∀ st0, grows st st0 → walk_inv root gray depth st0 →
    ∃ st', fold_left (walk_child v) children (Some st0) = Some st' ∧ grows st0 st' ∧
      walk_inv root gray depth st' ∧
      ∀ c, c ∈ children → c ∈ List.map ln_id nodes → c ∈ om_keys (wk_out st')).
  { intros Hc. apply Hc; [apply grows_refl|done]. }
  clear Hst. induction children as [|c children IH]; intros st0 Hg Hst0; cbn [fold_left].
  - exists st0. split_and!; [done|apply grows_refl|done|]. intros c []%not_elem_of_nil.
  - destruct (Hv c st0) as (st1 & E1 & Hg1 & Hinv1 & Hc); [by apply elem_of_cons; left|done|done|].
    cbn [walk_child]. rewrite E1.
    destruct IH with (st0 := st1) as (st2 & E2 & Hg2 & Hinv2 & Hcs); [|by eapply grows_trans|done|].
    { intros c' st' Hc' ? ?. apply Hv; [by apply elem_of_cons; right|done|done]. }
    exists st2. split_and!; [done|by eapply grows_trans|done|].
    intros c' [->|Hc']%elem_of_cons Hin; [|by apply Hcs]. eapply grows_keys; [done|]. by apply Hc.
Qed.

Lemma visit_ok root fuel : ∀ id depth gray st,
  length (unplaced st) < fuel → (0 ≤ depth)%Z → (0 ≤ wk_cursor st)%Z → rtc leads_to root id →
  walk_inv root gray depth st →
  ∃ st', visit fuel (by_id nodes) (by_slot edges) id depth st = Some st' ∧ grows st st' ∧
    walk_inv root gray depth st' ∧
    (id ∈ List.map ln_id nodes → id ∈ om_keys (wk_out st')).
Proof.
  induction fuel as [|fuel IH]; intros id depth gray st Hfuel Hd Hcur Hroot Hinv; [lia|].
  destruct (om_get id (by_id nodes)) as [n|] eqn:Hn.
  2:{ exists st. cbn [visit]. rewrite Hn. split_and!; [done|apply grows_refl|done|].
      intros [m Hm]%by_id_mem; [|done]. congruence. }
  destruct (decide (id ∈ om_keys (wk_out st))) as [Hin|Hout].
  { exists st. cbn [visit]. rewrite Hn, (proj2 (om_has_true _ _)) by done.
    split_and!; [done|apply grows_refl|done|done]. }
  rewrite (visit_unfold fuel id depth st n) by done.
  pose proof (placed_grows id depth st Hout) as Hg0.
  pose proof (placed_inv _ _ _ _ _ _ Hd Hn Hout Hroot Hcur Hinv) as Hinv1.
  pose proof (unplaced_lt id n depth st Hn Hout) as Hlt.
  edestruct (fold_children root (id :: gray) (depth + 1)) as (st2 & E2 & Hg2 & Hinv2 & Hcs);
    [|exact Hinv1|].
  { intros c st' Hc Hg' Hinv'. apply elem_of_lfilter in Hc as [Hc _].
    destruct (decide (c ∈ List.map ln_id nodes)) as [Hc'|Hc'].
    - apply IH; [|lia|destruct Hg'; simpl in *; lia| |done].
      + pose proof (unplaced_le _ _ Hg'). lia.
      + eapply rtc_r; [done|]. by exists n.
    - exists st'. split_and!; [|apply grows_refl|done|done].
      destruct fuel as [|fuel]; [lia|]. cbn [visit].
      destruct (om_get c (by_id nodes)) eqn:Ec; [|done]. exfalso. apply Hc', by_id_mem; eauto. }
  rewrite E2. eexists. split_and!; [done| | |].
  - eapply grows_trans; [done|]. eapply grows_trans; [done|]. split; simpl; [done|lia].
  - eapply finished_inv; try done.
    intros b (n' & Hn' & Hb & Hb'). simplify_eq.
    destruct (decide (b ∈ om_keys (wk_out (placed id depth st)))) as [Hbo|Hbo].
    + by eapply grows_keys.
    + apply Hcs; [|done]. apply elem_of_lfilter. by rewrite negb_true_iff, om_has_false.
  - intros _. cbn [finished wk_out]. apply (grows_keys _ st2 _ Hg2). rewrite placed_out, om_keys_app by done. simpl. set_solver.
Qed.

Lemma walk_start_inv root : walk_inv root [] 0 walk_start.
Proof. split; simpl; try set_solver. by constructor. Qed.

(** The block the walk starts from. *)
Definition start_id : option string := ln_id <$> find (λ n, bl_type n ==? entry) nodes.

Lemma walk_ok :
  ∃ st, walk nodes edges = Some st ∧ NoDup (om_keys (wk_out st)) ∧
    (∀ root, start_id = Some root → walk_inv root [] 0 st ∧ root ∈ om_keys (wk_out st)) ∧
    (start_id = None → st = walk_start).
Proof.
  unfold walk, start_id. destruct (find _ nodes) as [e|] eqn:Ee; simpl.
  - apply find_some_iff in Ee as [He _].
    destruct (visit_ok (ln_id e) (S (length nodes)) (ln_id e) 0 [] walk_start) as (st & E & _ & Hinv & Hin);
      try done; [|apply walk_start_inv|].
    { unfold unplaced, orphans. pose proof (List.filter_length_le (λ n, negb (om_has (ln_id n) (wk_out walk_start))) nodes). lia. }
    exists st. split_and!; [done|apply Hinv| |done]. intros root [= <-]. split; [done|].
    apply Hin, elem_of_lmap. eauto.
  - exists walk_start. split_and!; [done|by constructor|done|done].
Qed.
End walk.

(** ** Properties *)

Lemma place_orphans x l out y :
  NoDup (List.map ln_id l) → (∀ n, n ∈ l → ln_id n ∉ om_keys out) →
  ∃ placed, (fold_left (place_orphan x) l (out, y)).1 = out ++ placed ∧
    om_keys placed = List.map ln_id l ∧
    (∀ kp, kp ∈ placed → kp.2.1 = x ∧ (y ≤ kp.2.2)%Z) ∧
    ∀ nodes, NoDup (List.map ln_id nodes) → (∀ n, n ∈ l → n ∈ nodes) →
      ∀ a b, a ∈ placed → b ∈ placed → stacked nodes a b.
Proof.
  revert out y. induction l as [|n l IH]; intros out y Hl Hout; simpl.
  { exists []. rewrite app_nil_r. split_and!; try done; set_solver. }
  apply NoDup_cons in Hl as [Hn Hl]. unfold place_orphan at 2. cbn [fst snd].
  assert (ln_id n ∉ om_keys out) as Hnew by (apply Hout; set_solver).
  rewrite om_set_new by done.
  destruct (IH (out ++ [(ln_id n, (x, y))]) (y + (estimateHeight n + ROW_GAP))%Z) as (pl & E & Ek & Hp & Hs); [done| |].
  { intros m Hm. rewrite om_keys_app, elem_of_app. intros [Hx|Hx].
    - revert Hx. apply Hout. by apply elem_of_cons; right.
    - simpl in Hx. apply list_elem_of_singleton in Hx. apply Hn, elem_of_lmap. eauto. }
  pose proof (estimateHeight_pos n) as Hh.
  exists ((ln_id n, (x, y)) :: pl). split_and!.
  - by rewrite E, <- app_assoc.
  - simpl. by rewrite Ek.
  - intros kp [->|Hkp]%elem_of_cons; simpl; [split; [done|lia]|].
    destruct (Hp kp Hkp). split; [done|]. unfold ROW_GAP in *. lia.
  - intros nodes Hnodes Hsub.
    assert (bottom nodes (ln_id n, (x, y)) = (y + (estimateHeight n + ROW_GAP))%Z) as Hb.
    { unfold bottom, height_of. simpl. rewrite (proj2 (by_id_get nodes _ n Hnodes)); [lia|].
      split; [apply Hsub; by apply elem_of_cons; left|done]. }
    intros a b [->|Ha]%elem_of_cons [->|Hb']%elem_of_cons; try (by intros _ []).
    + intros _ _. left. rewrite Hb. by apply Hp.
    + intros _ _. right. rewrite Hb. by apply Hp.
    + apply Hs; [done| |done..]. intros m Hm. apply Hsub. by apply elem_of_cons; right.
Qed.

Lemma tidyLayout_split nodes edges :
  NoDup (List.map ln_id nodes) →
  ∃ st placed, walk nodes edges = Some st ∧
    tidyLayout nodes edges = Some (wk_out st ++ placed) ∧
    om_keys placed = List.map ln_id (orphans nodes st) ∧
    (∀ kp, kp ∈ placed → kp.2.1 = ((wk_maxDepth st + 1) * COLUMN_WIDTH + 80)%Z ∧ (0 ≤ kp.2.2)%Z) ∧
    (∀ a b, a ∈ placed → b ∈ placed → stacked nodes a b).
Proof.
  intros Hids. destruct (walk_ok nodes edges Hids) as (st & E & _).
  destruct (place_orphans ((wk_maxDepth st + 1) * COLUMN_WIDTH + 80)%Z (orphans nodes st) (wk_out st) 0)
    as (pl & Ep & Ek & Hp & Hs).
  - by apply NoDup_map_lfilter.
  - intros n [_ Hn]%elem_of_lfilter. by apply negb_true_iff, om_has_false in Hn.
  - exists st, pl. unfold tidyLayout. rewrite E, Ep. split_and!; try done.
    apply Hs; [done|]. by intros n [? _]%elem_of_lfilter.
Qed.

(** Tidy up always finishes and places every block exactly once:
    the calling order is a permutation of the block ids. *)
Theorem tidyLayout_places nodes edges :
  NoDup (List.map ln_id nodes) →
  ∃ order, callingOrder nodes edges = Some order ∧ order ≡ₚ List.map ln_id nodes.
Proof.
  intros Hids. destruct (tidyLayout_split nodes edges Hids) as (st & pl & Ew & E & Ek & _).
  exists (om_keys (wk_out st ++ pl)). unfold callingOrder. rewrite E. split; [done|].
  destruct (walk_ok nodes edges Hids) as (st' & Ew' & Hnd & Hroot & Hnone). rewrite Ew in Ew'. injection Ew' as <-.
  assert (∀ k, k ∈ om_keys (wk_out st) → k ∈ List.map ln_id nodes) as Hsub.
  { destruct (start_id nodes) as [r|] eqn:Er; [|rewrite (Hnone eq_refl); set_solver].
    destruct (Hroot r eq_refl) as [[] _]. done. }
  rewrite om_keys_app, Ek. apply NoDup_Permutation; [|done|].
  - apply NoDup_app. split_and!; [done| |by apply NoDup_map_lfilter].
    intros k Hk (n & -> & [_ Hn]%elem_of_lfilter)%elem_of_lmap.
    by apply negb_true_iff, om_has_false in Hn.
  - intros k. rewrite elem_of_app. split.
    + intros [?|(n & -> & [? _]%elem_of_lfilter)%elem_of_lmap]; [auto|]. apply elem_of_lmap. eauto.
    + intros (n & -> & Hn)%elem_of_lmap.
      destruct (decide (ln_id n ∈ om_keys (wk_out st))); [by left|right].
      apply elem_of_lmap. exists n. split; [done|]. apply elem_of_lfilter.
      by rewrite negb_true_iff, om_has_false.
Qed.

(** No two cards overlap: two blocks whose left edges are closer than a
    column are stacked, with [ROW_GAP] between the bottom of one card and
    the top of the other. *)
Theorem tidyLayout_no_overlap nodes edges out a b :
  NoDup (List.map ln_id nodes) → tidyLayout nodes edges = Some out →
  a ∈ out → b ∈ out → a.1 ≠ b.1 → (Z.abs (a.2.1 - b.2.1) < COLUMN_WIDTH)%Z →
  (bottom nodes a ≤ b.2.2 ∨ bottom nodes b ≤ a.2.2)%Z.
Proof.
  intros Hids E Ha Hb Hne Hx. destruct (tidyLayout_split nodes edges Hids) as (st & pl & Ew & E' & _ & Hp & Hs).
  rewrite E in E'. injection E' as ->.
  destruct (walk_ok nodes edges Hids) as (st' & Ew' & _ & Hroot & Hnone). rewrite Ew in Ew'. injection Ew' as <-.
  assert (∀ kp, kp ∈ wk_out st → ∃ d, kp.2.1 = (d * COLUMN_WIDTH)%Z ∧ (0 ≤ d ≤ wk_maxDepth st)%Z) as Hcol.
  { destruct (start_id nodes) as [r|] eqn:Er; [|rewrite (Hnone eq_refl); set_solver].
    destruct (Hroot r eq_refl) as [[] _]. intros kp Hkp. destruct (wi_cols0 kp Hkp) as (d & ? & ? & _). eauto. }
  assert (∀ a b, a ∈ wk_out st → b ∈ wk_out st → stacked nodes a b) as Hst.
  { destruct (start_id nodes) as [r|] eqn:Er; [|rewrite (Hnone eq_refl); set_solver].
    by destruct (Hroot r eq_refl) as [[] _]. }
  assert (∀ a b, a ∈ wk_out st → b ∈ pl → (COLUMN_WIDTH ≤ b.2.1 - a.2.1)%Z) as Hfar.
  { intros a' b' Ha' Hb'. destruct (Hcol a' Ha') as (d & -> & ?). destruct (Hp b' Hb') as [-> _].
    unfold COLUMN_WIDTH. lia. }
  apply elem_of_app in Ha as [Ha|Ha]; apply elem_of_app in Hb as [Hb|Hb].
  - apply Hst; try done. destruct (Hcol a Ha) as (d & Ed & _), (Hcol b Hb) as (d' & Ed' & _).
    unfold COLUMN_WIDTH in *. lia.
  - specialize (Hfar a b Ha Hb). lia.
  - specialize (Hfar b a Hb Ha). lia.
  - apply Hs; try done. destruct (Hp a Ha) as [-> _], (Hp b Hb) as [-> _]. done.
Qed.

(** The walk places exactly the blocks a caller can meet: those some
    path of exits leads to from Start; the final column holds the others. *)
Theorem walk_reachable nodes edges root :
  NoDup (List.map ln_id nodes) → start_id nodes = Some root →
  ∃ st, walk nodes edges = Some st ∧
    ∀ id, id ∈ om_keys (wk_out st) ↔ rtc (leads_to nodes edges) root id.
Proof.
  intros Hids Hr. destruct (walk_ok nodes edges Hids) as (st & E & _ & Hroot & _).
  destruct (Hroot root Hr) as [Hinv Hin]. exists st. split; [done|]. intros id. split.
  - apply Hinv.
  - apply (rtc_ind_r (λ y, y ∈ om_keys (wk_out st)) root); [done|].
    intros b c _ Hbc Hb. eapply wi_closed; [done..| |done]. apply not_elem_of_nil.
Qed.
End layout.

(** ** Witnesses *)

Definition block (id : string) (t : IvrNodeType) : WorkNode :=
  {| wn_id := id; wn_type := t; wn_position := Build_Position (num_of_Z 0) (num_of_Z 0);
     wn_data := Build_BlockData None (defaultConfig t) None None; wn_deletable := None |}.

(** Start, a menu whose key 1 plays a message and whose key 2 hangs up, and a
    block nothing leads to. *)
Definition sample_nodes : list WorkNode :=
  [block "s" entry; block "m" menu; block "p" play; block "h" hangup; block "z" voicemail].
Definition sample_edges : list LayoutEdge :=
  [Build_LayoutEdge "s" None "m"; Build_LayoutEdge "m" (Some "d:1") "p";
   Build_LayoutEdge "m" (Some "d:2") "h"; Build_LayoutEdge "p" None "m"].

Example sample_layout :
  tidyLayout sample_nodes sample_edges =
  Some [("s", (0, 0)); ("m", (320, 0)); ("p", (640, 0)); ("h", (640, 160)); ("z", (1040, 0))]%Z.
Proof. by vm_compute. Qed.

Lemma sample_ids : NoDup (List.map ln_id sample_nodes).
Proof. apply (bool_decide_unpack _). by vm_compute. Qed.

Lemma tidyLayout_places_witness :
  ∃ order, callingOrder sample_nodes sample_edges = Some order ∧ order ≡ₚ ["s"; "m"; "p"; "h"; "z"].
Proof. exact (tidyLayout_places sample_nodes sample_edges sample_ids). Defined.

Lemma tidyLayout_no_overlap_witness :
  (bottom sample_nodes ("p", (640, 0)%Z) ≤ 160 ∨ bottom sample_nodes ("h", (640, 160)%Z) ≤ 0)%Z.
Proof.
  refine (tidyLayout_no_overlap sample_nodes sample_edges _ ("p", (640, 0)%Z) ("h", (640, 160)%Z)
            sample_ids sample_layout _ _ _ _); try done.
  - by do 2 (apply elem_of_cons; right); apply elem_of_cons; left.
  - by do 3 (apply elem_of_cons; right); apply elem_of_cons; left.
Defined.

Lemma walk_reachable_witness :
  ∃ st, walk sample_nodes sample_edges = Some st ∧
    ∀ id, id ∈ om_keys (wk_out st) ↔ rtc (leads_to sample_nodes sample_edges) "s" id.
Proof. exact (walk_reachable sample_nodes sample_edges "s" sample_ids eq_refl). Defined.
