(* ===== verification/Format.v ===== *)
(** * Display formatting ([utils/format.ts])

    Phone numbers, durations and HTML escaping.  The money and rate
    formatters print binary fractions with [toFixed] or [Intl] and are not
    modelled. *)
From S2P Require Import Prelude JsString.

Local Open Scope string_scope.
Local Open Scope nat_scope.
Local Open Scope list_scope.

(** ** Phone numbers *)

Definition fmt (phone : string) : string :=
  let digits := digits_of phone in
  if (String.length digits =? 11) && starts_with "1" digits then
    let area := slice 1 4 digits in
    let exchange := slice 4 7 digits in
    let subscriber := slice_from 7 digits in
    "+1 (" +:+ area +:+ ") " +:+ exchange +:+ "-" +:+ subscriber
  else if String.length digits =? 10 then
    let area := slice 0 3 digits in
    let exchange := slice 3 6 digits in
    let subscriber := slice_from 6 digits in
    "(" +:+ area +:+ ") " +:+ exchange +:+ "-" +:+ subscriber
  else phone.

(** ** HTML *)

(** [s.replace(/c/g, r)] for one character. *)
Fixpoint replace_char (c : ascii) (r : string) (s : string) : string :=
  match s with
  | EmptyString => ""
  | String a s' => if a ==? c then r +:+ replace_char c r s' else String a (replace_char c r s')
  end.

Definition QUOT : ascii := ch 34.
Definition APOS : ascii := ch 39.

Definition escHtml (unsafe : string) : string :=
  let s := replace_char "&" "&amp;" unsafe in
  let s := replace_char "<" "&lt;" s in
  let s := replace_char ">" "&gt;" s in
  let s := replace_char QUOT "&quot;" s in
  replace_char APOS "&#039;" s.

(** ** Durations *)

(** [`${n}`] for an integer. *)
Definition print_int (n : Z) : string := pretty n.

(** For a whole number of seconds. *)
Definition fmtDuration (seconds : Z) : string :=
  if (seconds <? 60)%Z then print_int seconds +:+ "s"
  else
    let m := (seconds / 60)%Z in
    let s := (seconds mod 60)%Z in
    if (0 <? s)%Z then print_int m +:+ "m " +:+ print_int s +:+ "s" else print_int m +:+ "m".

(** ** Lemmas *)

Lemma digits_of_app s1 s2 : digits_of (s1 +:+ s2) = digits_of s1 +:+ digits_of s2.
Proof.
  unfold digits_of. induction s1 as [|a s1 IH]; simpl; [done|]. rewrite IH. by destruct (is_digit a).
Qed.

Lemma stake_slice n s : stake n s +:+ slice_from n s = s.
Proof. revert s. induction n as [|n IH]; intros [|a s]; simpl; try done. by rewrite IH. Qed.

Lemma slice_from_from m n s : slice_from m (slice_from n s) = slice_from (n + m) s.
Proof. revert s. induction n as [|n IH]; intros s; simpl; [done|]. destruct s; [by destruct m|apply IH]. Qed.

(** Cutting a string twice and gluing the pieces gives it back. *)
Lemma slice_glue a b s : a ≤ b → slice a b s +:+ slice_from b s = slice_from a s.
Proof.
  intros. unfold slice. replace (slice_from b s) with (slice_from (b - a) (slice_from a s)).
  - apply stake_slice.
  - rewrite slice_from_from. f_equal. lia.
Qed.

Lemma digits_slice a b s : sforall is_digit s = true → digits_of (slice a b s) = slice a b s.
Proof. intros. apply sfilter_id, sforall_stake, sforall_slice_from. done. Qed.

Lemma digits_slice_from a s : sforall is_digit s = true → digits_of (slice_from a s) = slice_from a s.
Proof. intros. by apply sfilter_id, sforall_slice_from. Qed.

Lemma digits_of_idemp s : digits_of (digits_of s) = digits_of s.
Proof. apply sfilter_id, sforall_sfilter. Qed.

(** A number that begins with the digit [c]. *)
Lemma starts_with_char c s : starts_with (String c "") s = true → ∃ s', s = String c s'.
Proof.
  unfold starts_with. destruct s as [|a s]; simpl; [done|].
  destruct (ascii_dec c a) as [->|]; [|done]. destruct s; eauto.
Qed.

(** Formatting a phone number for display never changes the number: the
    text shown has exactly the digits of the text given. *)
Theorem fmt_digits phone : digits_of (fmt phone) = digits_of phone.
Proof.
  unfold fmt. set (d := digits_of phone).
  assert (sforall is_digit d = true) as Hd by apply sforall_sfilter.
  destruct ((String.length d =? 11) && starts_with "1" d) eqn:E1;
    [|destruct (String.length d =? 10); [|done]];
    rewrite !digits_of_app, !digits_slice, digits_slice_from by done; cbn [digits_of sfilter].
  - apply andb_true_iff in E1 as [_ [s' Es]%starts_with_char].
    change (digits_of "+1 (") with "1". change (digits_of ") ") with "". change (digits_of "-") with "".
    cbn [String.append]. rewrite (slice_glue 4 7), (slice_glue 1 4) by lia. by rewrite Es.
  - change (digits_of "(") with "". change (digits_of ") ") with "". change (digits_of "-") with "".
    cbn [String.append]. rewrite (slice_glue 3 6), (slice_glue 0 3) by lia. done.
Qed.

(** What [escHtml] writes for one character. *)
Definition esc_char (a : ascii) : string :=
  if a ==? "&"%char then "&amp;"
  else if a ==? "<"%char then "&lt;"
  else if a ==? ">"%char then "&gt;"
  else if a ==? QUOT then "&quot;"
  else if a ==? APOS then "&#039;"
  else String a "".

Fixpoint esc_all (s : string) : string :=
  match s with EmptyString => "" | String a s' => esc_char a +:+ esc_all s' end.

Lemma replace_char_app c r s1 s2 : replace_char c r (s1 +:+ s2) = replace_char c r s1 +:+ replace_char c r s2.
Proof.
  induction s1 as [|a s1 IH]; simpl; [done|]. rewrite IH.
  destruct (a ==? c); simpl; [|done]. by rewrite sapp_assoc.
Qed.

Lemma escHtml_app s1 s2 : escHtml (s1 +:+ s2) = escHtml s1 +:+ escHtml s2.
Proof. unfold escHtml. by rewrite !replace_char_app. Qed.

Lemma escHtml_char a : escHtml (String a "") = esc_char a.
Proof. by destruct a as [[] [] [] [] [] [] [] []]. Qed.

Lemma escHtml_all s : escHtml s = esc_all s.
Proof.
  induction s as [|a s IH]; [done|].
  change (String a s) with (String a "" +:+ s). rewrite escHtml_app, escHtml_char, IH. done.
Qed.

(** The browser's reading of the five entities. *)
Fixpoint unescHtml (s : string) : string :=
  match s with
  | EmptyString => ""
  | String "&" (String "a" (String "m" (String "p" (String ";" s')))) => String "&" (unescHtml s')
  | String "&" (String "l" (String "t" (String ";" s'))) => String "<" (unescHtml s')
  | String "&" (String "g" (String "t" (String ";" s'))) => String ">" (unescHtml s')
  | String "&" (String "q" (String "u" (String "o" (String "t" (String ";" s'))))) => String QUOT (unescHtml s')
  | String "&" (String "#" (String "0" (String "3" (String "9" (String ";" s'))))) => String APOS (unescHtml s')
  | String a s' => String a (unescHtml s')
  end.

(** A character that can open a tag or close an attribute. *)
Definition markup (a : ascii) : bool :=
  (a ==? "<"%char) || (a ==? ">"%char) || (a ==? QUOT) || (a ==? APOS).

Lemma unesc_char a s : unescHtml (esc_char a +:+ s) = String a (unescHtml s).
Proof. by destruct a as [[] [] [] [] [] [] [] []]. Qed.

(** Escaped text holds no character that opens a tag or closes an
    attribute, and the browser reads it back as the original text. *)
Theorem escHtml_safe s :
  sforall (λ a, negb (markup a)) (escHtml s) = true ∧ unescHtml (escHtml s) = s.
Proof.
  rewrite escHtml_all. induction s as [|a s [IH1 IH2]]; [done|]. simpl. split.
  - rewrite sforall_app, IH1, andb_true_r. by destruct a as [[] [] [] [] [] [] [] []].
  - by rewrite unesc_char, IH2.
Qed.
