(* ===== verification/Policy.v ===== *)
(** * The outside-transfer rule ([flow/compile/policy.ts])

    The browser's mirror of the rule "outside transfers are US only", the
    normalisation of what a customer types, and the caller-check values. *)
From S2P Require Import Prelude JsString Format.

Local Open Scope string_scope.
Local Open Scope nat_scope.
Local Open Scope list_scope.

(** ** Tables *)

Definition CANADA : list string := [
  "204"; "226"; "236"; "249"; "250"; "257"; "263"; "273"; "289"; "306"; "343"; "354"; "365"; "367"; "368";
  "382"; "387"; "403"; "416"; "418"; "428"; "431"; "437"; "438"; "450"; "460"; "468"; "474"; "506"; "514";
  "519"; "548"; "579"; "581"; "584"; "587"; "600"; "604"; "613"; "622"; "639"; "647"; "672"; "683"; "705";
  "709"; "742"; "753"; "778"; "780"; "782"; "807"; "819"; "825"; "867"; "873"; "879"; "902"; "905"; "942"
].

Definition OTHER_NANP_COUNTRIES : list string := [
  "242"; "246"; "264"; "268"; "284"; "345"; "441"; "473"; "649"; "658"; "664"; "721"; "758"; "767"; "784";
  "809"; "829"; "849"; "868"; "869"; "876"
].

Definition US_TERRITORY_NPAS : list string := ["787"; "939"; "340"; "671"; "670"; "684"].

Definition TOLL_FREE_NPAS : list string := ["800"; "833"; "844"; "855"; "866"; "877"; "888"].

Definition SERVICE_NPAS : list string := [
  "500"; "521"; "522"; "523"; "524"; "525"; "526"; "527"; "528"; "529"; "533"; "544"; "566"; "577"; "588";
  "700"; "710"; "900"; "976"
].

(** ** Shapes *)

(** [[2-9]] *)
Definition lead_digit (a : ascii) : bool := (50 <=? code a)%Z && (code a <=? 57)%Z.

(** [^\+1[2-9]\d{2}[2-9]\d{6}$] *)
Definition NANP_E164 (s : string) : bool :=
  match s with
  | String "+" (String "1" (String a (String b (String c (String d rest))))) =>
      lead_digit a && is_digit b && is_digit c && lead_digit d
      && sforall is_digit rest && (String.length rest =? 6)
  | _ => false
  end.

(** [^\+[1-9]\d{7,14}$] *)
Definition E164 (s : string) : bool :=
  match s with
  | String "+" (String a rest) =>
      (49 <=? code a)%Z && (code a <=? 57)%Z && sforall is_digit rest
      && (7 <=? String.length rest) && (String.length rest <=? 14)
  | _ => false
  end.

(** [^[2-9]11$] *)
Definition n11_code (s : string) : bool :=
  match s with
  | String a (String "1" (String "1" EmptyString)) => lead_digit a
  | _ => false
  end.

Inductive ExternalNumberProblem :=
  | p_empty | p_not_us_shape | p_international | p_canada | p_caribbean
  | p_premium | p_service | p_n11 | p_fictional | p_toll_free_unassigned.

#[export] Instance ExternalNumberProblem_eq_dec : EqDecision ExternalNumberProblem.
Proof. solve_decision. Defined.

Definition problem_name (p : ExternalNumberProblem) : string :=
  match p with
  | p_empty => "empty" | p_not_us_shape => "not_us_shape" | p_international => "international"
  | p_canada => "canada" | p_caribbean => "caribbean" | p_premium => "premium" | p_service => "service"
  | p_n11 => "n11" | p_fictional => "fictional" | p_toll_free_unassigned => "toll_free_unassigned"
  end.

Record ExternalCheck := {
  ec_e164 : option string;
  ec_problem : option ExternalNumberProblem;
  ec_message : option string;
}.

Definition MESSAGES (p : ExternalNumberProblem) : string :=
  match p with
  | p_empty => "Enter the 10-digit US number to transfer to."
  | p_not_us_shape => "That isn’t a complete US number. Enter 10 digits, like (617) 555-0134."
  | p_international => "Transfers can only go to US numbers."
  | p_canada => "That’s a Canadian number. Transfers can only go to US numbers."
  | p_caribbean => "That area code belongs to a country outside the US. Transfers can only go to US numbers."
  | p_premium => "Premium-rate numbers (900 and 976) can’t be dialed from an IVR."
  | p_service => "That area code is a special service code, not a phone line."
  | p_n11 => "Short service codes like 411 or 911 can’t be used as a transfer number."
  | p_fictional => "555-01xx numbers are reserved for fiction and can’t be dialed."
  | p_toll_free_unassigned => "That toll-free prefix isn’t in use. US toll-free numbers start with 800, 833, 844, 855, 866, 877 or 888."
  end.

(** ** Operations *)

Definition toUsE164 (raw : string) : option string :=
  let s := trim raw in
  if s ==? "" then None
  else if starts_with "+" s && negb (starts_with "+1" s) then None
  else
    let d := digits_of s in
    if String.length d =? 10 then Some ("+1" +:+ d)
    else if (String.length d =? 11) && starts_with "1" d then Some ("+" +:+ d)
    else None.

Definition verdict (e164 : option string) (problem : option ExternalNumberProblem) : ExternalCheck :=
  Build_ExternalCheck e164 problem (MESSAGES <$> problem).

(** The rules on a canonical number, in the order the code tries them. *)
Definition check_canonical (e164 : string) : ExternalCheck :=
  let npa := slice 2 5 e164 in
  let nxx := slice 5 8 e164 in
  let line := slice_from 8 e164 in
  if n11_code npa || n11_code nxx then verdict (Some e164) (Some p_n11)
  else if negb (NANP_E164 e164) then verdict (Some e164) (Some p_not_us_shape)
  else if includes CANADA npa then verdict (Some e164) (Some p_canada)
  else if includes OTHER_NANP_COUNTRIES npa then verdict (Some e164) (Some p_caribbean)
  else if (npa ==? "900") || (npa ==? "976") || (nxx ==? "976") then verdict (Some e164) (Some p_premium)
  else if includes SERVICE_NPAS npa then verdict (Some e164) (Some p_service)
  else if starts_with "8" npa && (char_at 1 npa ==? char_at 2 npa) && negb (includes TOLL_FREE_NPAS npa)
  then verdict (Some e164) (Some p_toll_free_unassigned)
  else if (nxx ==? "555") && starts_with "01" line then verdict (Some e164) (Some p_fictional)
  else verdict (Some e164) None.

Definition checkExternalNumber (raw : string) : ExternalCheck :=
  let trimmed := trim raw in
  if trimmed ==? "" then verdict None (Some p_empty)
  else if starts_with "+" trimmed && negb (starts_with "+1" trimmed) then verdict None (Some p_international)
  else
    match toUsE164 trimmed with
    | None =>
        let digits := digits_of trimmed in
        verdict None (Some (if 11 <? String.length digits then p_international else p_not_us_shape))
    | Some e164 => check_canonical e164
    end.

Definition isE164 (v : string) : bool := E164 v.

Definition prettyNumber (e164 : string) : string := fmt e164.

Inductive ValueMode := vm_prefix | vm_equals.

Definition normalizeCallerValue (raw : string) (mode : ValueMode) : string :=
  let s := trim raw in
  if s ==? "" then ""
  else
    let d := digits_of s in
    match mode with
    | vm_equals =>
        match toUsE164 s with
        | Some e => e
        | None => if starts_with "+" s then "+" +:+ d else s
        end
    | vm_prefix =>
        if starts_with "+" s then "+" +:+ d
        else if (1 <=? String.length d) && (String.length d <=? 10) && negb (starts_with "1" d)
        then "+1" +:+ d
        else "+" +:+ d
    end.

(** [^\+\d{1,15}$] *)
Definition prefix_shape (s : string) : bool :=
  match s with
  | String "+" rest => sforall is_digit rest && (1 <=? String.length rest) && (String.length rest <=? 15)
  | _ => false
  end.

Definition callerValueProblem (v : string) (mode : ValueMode) : option string :=
  match mode with
  | vm_equals => if isE164 v then None else Some ("“" +:+ v +:+ "” isn’t a full phone number.")
  | vm_prefix => if prefix_shape v then None else Some ("“" +:+ v +:+ "” isn’t a number prefix like +1617.")
  end.

(** ** Lemmas *)

(** A canonical number: [+1] and ten digits. *)
Definition canonical (e : string) : Prop :=
  ∃ d, e = "+1" +:+ d ∧ sforall is_digit d = true ∧ String.length d = 10.

Lemma plus_digits_plain c d : sforall is_digit d = true → plain c = true → sforall plain (String c d) = true.
Proof. intros Hd Hc. simpl. rewrite Hc. eapply sforall_impl; [|done]. apply is_digit_plain. Qed.

Lemma toUsE164_canonical raw e : toUsE164 raw = Some e → canonical e.
Proof.
  unfold toUsE164. case_match; [done|]. case_match; [done|].
  set (d := digits_of (trim raw)). assert (sforall is_digit d = true) as Hd by apply sforall_sfilter.
  destruct (String.length d =? 10) eqn:E10.
  - intros [= <-]. exists d. apply Nat.eqb_eq in E10. done.
  - destruct ((String.length d =? 11) && starts_with "1" d) eqn:E11; [|done]. intros [= <-].
    apply andb_true_iff in E11 as [El [d' Ed]%starts_with_char]. apply Nat.eqb_eq in El.
    rewrite Ed in El, Hd |- *. simpl in El, Hd. exists d'. split_and!; [done|done|lia].
Qed.

Lemma toUsE164_of_canonical e : canonical e → toUsE164 e = Some e.
Proof.
  intros (d & -> & Hd & Hl). unfold toUsE164. rewrite trim_plain.
  - assert (digits_of ("+1" +:+ d) = String "1" d) as -> by (unfold digits_of; simpl; by rewrite sfilter_id).
    cbn [String.length]. rewrite Hl. unfold starts_with. simpl. by destruct d.
  - change ("+1" +:+ d) with (String "+" (String "1" d)). apply plus_digits_plain; [|done]. simpl. by rewrite Hd.
Qed.

(** ** Properties *)

Definition npa_of (e : string) : string := slice 2 5 e.
Definition nxx_of (e : string) : string := slice 5 8 e.
Definition line_of (e : string) : string := slice_from 8 e.

(** A doubled-8 area code (8YY), the toll-free family. *)
Definition eight_yy (npa : string) : Prop := ∃ y, npa = String "8" (String y (String y "")).

(** What a transfer may ring: a well-shaped +1 number of a US area code that
    is a person's or a business's line. *)
Record us_dialable (e : string) : Prop := {
  ud_shape : NANP_E164 e = true;
  ud_country : npa_of e ∉ CANADA ++ OTHER_NANP_COUNTRIES;
  ud_service : npa_of e ∉ SERVICE_NPAS;
  ud_premium : nxx_of e ≠ "976";
  ud_n11 : n11_code (npa_of e) = false ∧ n11_code (nxx_of e) = false;
  ud_toll_free : eight_yy (npa_of e) → npa_of e ∈ TOLL_FREE_NPAS;
  ud_fictional : nxx_of e = "555" → starts_with "01" (line_of e) = false;
}.

Lemma slice_length a b s : b ≤ String.length s → String.length (slice a b s) = b - a.
Proof.
  assert (∀ n s, n ≤ String.length s → String.length (stake n s) = n) as Ht.
  { clear. induction n as [|n IH]; intros [|c s]; simpl; try lia. intros. rewrite IH; lia. }
  assert (∀ n s, String.length (slice_from n s) = String.length s - n) as Hf.
  { clear. induction n as [|n IH]; intros [|c s]; simpl; try done. }
  intros. unfold slice. rewrite Ht; rewrite ?Hf; lia.
Qed.

Lemma NANP_length e : NANP_E164 e = true → String.length e = 12.
Proof.
  unfold NANP_E164. repeat (case_match; try done). intros. bool_hyps. simpl.
  match goal with E : (_ =? 6) = true |- _ => apply Nat.eqb_eq in E as -> end. done.
Qed.

Lemma eight_yy_test npa :
  String.length npa = 3 → starts_with "8" npa && (char_at 1 npa ==? char_at 2 npa) = true ↔ eight_yy npa.
Proof.
  unfold eight_yy. destruct npa as [|a [|b [|c [|]]]]; try done. intros _. split.
  - intros [[s' E]%starts_with_char E2]%andb_true_iff. bool_hyps. simplify_eq/=. eauto.
  - intros [y E]. simplify_eq. simpl. by rewrite bool_decide_eq_true_2.
Qed.

Lemma check_canonical_allowed e :
  ec_problem (check_canonical e) = None ↔ us_dialable e.
Proof.
  unfold check_canonical, verdict. fold (npa_of e) (nxx_of e) (line_of e).
  destruct (n11_code (npa_of e) || n11_code (nxx_of e)) eqn:E11; cbn [negb ec_problem].
  { split; [done|]. intros [_ _ _ _ [H1 H2] _ _]. by rewrite H1, H2 in E11. }
  apply orb_false_iff in E11 as [E11a E11b].
  destruct (NANP_E164 e) eqn:Es; cbn [negb ec_problem]; [|split; [done|]; intros []; congruence].
  assert (String.length (npa_of e) = 3) as Hl by (apply slice_length; rewrite NANP_length by done; lia).
  destruct (includes CANADA (npa_of e)) eqn:Ec; cbn [negb ec_problem].
  { apply includes_true in Ec. split; [done|]. intros []. exfalso. apply ud_country0, elem_of_app. by left. }
  destruct (includes OTHER_NANP_COUNTRIES (npa_of e)) eqn:Eo; cbn [negb ec_problem].
  { apply includes_true in Eo. split; [done|]. intros []. exfalso. apply ud_country0, elem_of_app. by right. }
  apply includes_false in Ec, Eo.
  destruct ((npa_of e ==? "900") || _ || _) eqn:Ep; cbn [negb ec_problem].
  { split; [done|]. intros [_ _ Hs Hp _ _ _].
    apply orb_true_iff in Ep as [[Ep|Ep]%orb_true_iff|Ep]; apply bool_decide_eq_true in Ep; [| |done];
      rewrite Ep in Hs; exfalso; apply Hs; apply (bool_decide_unpack _); by vm_compute. }
  bool_hyps. destruct (includes SERVICE_NPAS (npa_of e)) eqn:Esv; cbn [negb ec_problem].
  { apply includes_true in Esv. split; [done|]. by intros []. }
  apply includes_false in Esv.
  destruct (starts_with "8" (npa_of e) && _ && _) eqn:Et; cbn [negb ec_problem].
  { split; [done|]. intros []. apply andb_true_iff in Et as [Et Ef].
    apply eight_yy_test in Et; [|done]. apply negb_true_iff, includes_false in Ef. tauto. }
  destruct ((nxx_of e ==? "555") && _) eqn:Ef; cbn [negb ec_problem].
  { apply andb_true_iff in Ef as [E5 E0]. apply bool_decide_eq_true in E5. split; [done|].
    intros []. rewrite ud_fictional0 in E0; done. }
  split; [intros _|done]. split; try done.
  - rewrite elem_of_app. tauto.
  - intros Hy%eight_yy_test; [|done]. rewrite Hy, andb_true_l in Et.
    by apply negb_false_iff, includes_true in Et.
  - intros E5. by rewrite (bool_decide_eq_true_2 _ E5) in Ef.
Qed.

Lemma check_canonical_e164 e : ec_e164 (check_canonical e) = Some e.
Proof. unfold check_canonical. repeat case_match; done. Qed.

Lemma check_of_canonical e : canonical e → checkExternalNumber e = check_canonical e.
Proof.
  intros Hc. pose proof (toUsE164_of_canonical e Hc) as Et. destruct Hc as (d & -> & Hd & Hl).
  unfold checkExternalNumber. rewrite trim_plain.
  - simpl (_ ==? ""). cbn iota. rewrite Et. unfold starts_with. simpl. by destruct d.
  - change ("+1" +:+ d) with (String "+" (String "1" d)). apply plus_digits_plain; [|done]. simpl. by rewrite Hd.
Qed.

Lemma check_allowed_iff raw e :
  ec_problem (checkExternalNumber raw) = None ∧ ec_e164 (checkExternalNumber raw) = Some e ↔
  toUsE164 (trim raw) = Some e ∧ us_dialable e.
Proof.
  unfold checkExternalNumber. destruct (trim raw ==? "") eqn:E0.
  { apply bool_decide_eq_true in E0. rewrite E0. simpl. split; [by intros [? _]|].
    unfold toUsE164. simpl. by intros [? _]. }
  destruct (starts_with "+" (trim raw) && _) eqn:Ep; simpl.
  { split; [by intros [? _]|]. intros [Et _].
    unfold toUsE164 in Et. by rewrite trim_idemp, E0, Ep in Et. }
  destruct (toUsE164 (trim raw)) as [e'|] eqn:Et; simpl.
  - rewrite check_canonical_e164, check_canonical_allowed. naive_solver.
  - split; by intros [? _].
Qed.

Lemma allowed_number raw : ec_problem (checkExternalNumber raw) = None → ∃ e, ec_e164 (checkExternalNumber raw) = Some e.
Proof.
  unfold checkExternalNumber. case_match; [done|]. case_match; [done|].
  destruct (toUsE164 _) as [e|]; [|done]. intros _. exists e. apply check_canonical_e164.
Qed.

Lemma allowed_dialable raw e :
  ec_problem (checkExternalNumber raw) = None → ec_e164 (checkExternalNumber raw) = Some e → us_dialable e.
Proof. intros H1 H2. by apply (check_allowed_iff raw e). Qed.

(** The check accepts exactly the input that stands for a dialable US
    number, and then gives that number in canonical form. *)
Theorem check_allowed raw e :
  ec_problem (checkExternalNumber raw) = None ∧ ec_e164 (checkExternalNumber raw) = Some e ↔
  toUsE164 (trim raw) = Some e ∧ us_dialable e.
Proof. apply check_allowed_iff. Qed.

(** The verdict is about the number, not about how it was typed:
    checking the canonical form a check gave gives the same verdict. *)
Theorem check_again raw e :
  ec_e164 (checkExternalNumber raw) = Some e → checkExternalNumber e = checkExternalNumber raw.
Proof.
  intros E.
  assert (toUsE164 (trim raw) = Some e ∧ checkExternalNumber raw = check_canonical e) as [Et ->].
  { unfold checkExternalNumber in *. destruct (trim raw ==? ""); [done|].
    destruct (starts_with "+" (trim raw) && _); [done|].
    destruct (toUsE164 (trim raw)) as [e'|]; [|done]. rewrite check_canonical_e164 in E. by simplify_eq. }
  apply check_of_canonical. by eapply toUsE164_canonical.
Qed.

(** A caller value as normalised: a plus and digits, the country code added
    to a short bare prefix. *)
Lemma normalize_prefix_shape raw :
  trim raw ≠ "" →
  ∃ d, normalizeCallerValue raw vm_prefix = String "+" d ∧ sforall is_digit d = true ∧
    String.length (digits_of (trim raw)) ≤ String.length d ≤ max 11 (String.length (digits_of (trim raw))).
Proof.
  intros Hne. unfold normalizeCallerValue. rewrite bool_decide_eq_false_2 by done.
  set (d := digits_of (trim raw)). assert (sforall is_digit d = true) as Hd by apply sforall_sfilter.
  destruct (starts_with "+" (trim raw)); [exists d; split_and!; [done|done|lia|lia]|].
  destruct ((1 <=? String.length d) && (String.length d <=? 10) && _) eqn:E.
  - bool_hyps. apply Nat.leb_le in H, H1. exists (String "1" d). split_and!; simpl; [done| |lia|lia].
    by rewrite Hd.
  - exists d. split_and!; [done|done|lia|lia].
Qed.

(** Whatever a customer types as a number prefix, once normalised it is
    left alone by a second normalisation, and it is valid whenever it holds
    between one and fifteen digits. *)
Theorem normalizeCallerValue_prefix raw :
  let v := normalizeCallerValue raw vm_prefix in
  normalizeCallerValue v vm_prefix = v ∧
  (1 ≤ String.length (digits_of (trim raw)) ≤ 15 → callerValueProblem v vm_prefix = None).
Proof.
  intros v. destruct (decide (trim raw = "")) as [E|Hne].
  { unfold v, normalizeCallerValue. rewrite E. simpl. split; [done|lia]. }
  destruct (normalize_prefix_shape raw Hne) as (d & Ev & Hd & Hl). fold v in Ev. rewrite Ev. split.
  - unfold normalizeCallerValue. rewrite trim_plain by (by apply plus_digits_plain).
    simpl (_ ==? ""). cbn iota. unfold starts_with. simpl.
    unfold digits_of. simpl. by rewrite sfilter_id by done; destruct d.
  - intros Hb. unfold callerValueProblem, prefix_shape. rewrite Hd.
    rewrite (proj2 (Nat.leb_le 1 _)), (proj2 (Nat.leb_le _ 15)) by lia. done.
Qed.

(** A +1 number one digit short is not refused but gains a second 1, and a
    caller check accepts it as a full number. *)
Lemma toUsE164_one_digit_short d :
  sforall is_digit d = true → String.length d = 9 →
  toUsE164 ("+1" +:+ d) = Some ("+11" +:+ d) ∧
  callerValueProblem (normalizeCallerValue ("+1" +:+ d) vm_equals) vm_equals = None.
Proof.
  intros Hd Hl.
  assert (trim ("+1" +:+ d) = "+1" +:+ d) as Ht.
  { apply trim_plain. change ("+1" +:+ d) with (String "+" (String "1" d)).
    apply plus_digits_plain; [|done]. simpl. by rewrite Hd. }
  assert (toUsE164 ("+1" +:+ d) = Some ("+11" +:+ d)) as E.
  { unfold toUsE164. rewrite Ht.
    assert (digits_of ("+1" +:+ d) = String "1" d) as -> by (unfold digits_of; simpl; by rewrite sfilter_id).
    cbn [String.length]. rewrite Hl. unfold starts_with. simpl. by destruct d. }
  split; [done|]. unfold normalizeCallerValue. rewrite Ht, E. simpl.
  unfold callerValueProblem, isE164, E164. simpl. by rewrite Hd, Hl.
Qed.

(** ** Witnesses *)

Lemma check_again_witness :
  checkExternalNumber "+16175550199" = checkExternalNumber "(617) 555-0199".
Proof. apply (check_again "(617) 555-0199" "+16175550199"). by vm_compute. Defined.

Lemma toUsE164_one_digit_short_witness :
  toUsE164 "+1617555013" = Some "+11617555013" ∧
  callerValueProblem (normalizeCallerValue "+1617555013" vm_equals) vm_equals = None.
Proof. exact (toUsE164_one_digit_short "617555013" eq_refl eq_refl). Defined.

Lemma normalizeCallerValue_prefix_witness :
  normalizeCallerValue "+1617" vm_prefix = "+1617" ∧ callerValueProblem "+1617" vm_prefix = None.
Proof.
  destruct (normalizeCallerValue_prefix " 617") as [H1 H2]. split; [exact H1|].
  apply H2. vm_compute. split; repeat constructor.
Defined.

(** The example the messages give is itself refused. *)
Lemma example_number_refused : ec_problem (checkExternalNumber "(617) 555-0134") = Some p_fictional.
Proof. by vm_compute. Qed.
