(* ===== verification/IvrTypes.v ===== *)
(** * The shapes of the IVR API ([types/ivr.ts])

    Typed block configs, the draft graph and the destinations list.  A
    TypeScript cast such as [node.data.config as MenuConfig] is the function
    [as_menu], which reads the JSON object at that type. *)
From S2P Require Import Prelude JsString JsValue Blocks Graph.

Local Open Scope string_scope.
Local Open Scope nat_scope.
Local Open Scope list_scope.

(** ** Configs *)

Definition PromptId : Set := Z.

Bind Scope Z_scope with PromptId.

Definition TimeRange : Type := string * string.

Record PlayConfig := { pc_prompts : list PromptId }.

Record MenuConfig := {
  mc_prompts : list PromptId;
  mc_digits : list string;
  mc_timeoutSec : num;
  mc_retries : num;
  mc_invalidPrompts : option (list PromptId);
  mc_noInputPrompts : option (list PromptId);
}.

(** [weekly[day] ?? []] is [sc_weekly day]. *)
Record ScheduleConfig := {
  sc_tz : string;
  sc_weekly : DayKey → list TimeRange;
  sc_closedDates : list string;
}.

Inductive ConditionMode := cm_prefix | cm_equals | cm_anonymous.

#[export] Instance ConditionMode_eq_dec : EqDecision ConditionMode.
Proof. solve_decision. Defined.

Record ConditionConfig := { cc_mode : ConditionMode; cc_values : list string }.

Inductive DialTarget :=
  | own_target (did : string)
  | external_target (number : string).

Record DialConfig := {
  dc_target : DialTarget;
  dc_passCallerId : bool;
  dc_ringTimeoutSec : num;
}.

Record VoicemailConfig := { vc_did : string }.

Record GotoConfig := { gc_targetNodeId : string }.

Record HangupConfig := { hc_prompts : option (list PromptId) }.

(** ** Casts *)

Definition prompt_ids (v : value) : list PromptId :=
  omap (λ v, match v with VNum n => Z_of_num n | _ => None end) (elems v).

Definition optional_prompts (v : value) : option (list PromptId) :=
  match v with VUndef => None | _ => Some (prompt_ids v) end.

Definition number_of (v : value) : num := match v with VNum n => n | _ => NaN end.

Definition as_play (c : obj) : PlayConfig := Build_PlayConfig (prompt_ids (get "prompts" c)).

Definition as_menu (c : obj) : MenuConfig :=
  {| mc_prompts := prompt_ids (get "prompts" c);
     mc_digits := strs (get "digits" c);
     mc_timeoutSec := number_of (get "timeoutSec" c);
     mc_retries := number_of (get "retries" c);
     mc_invalidPrompts := optional_prompts (get "invalidPrompts" c);
     mc_noInputPrompts := optional_prompts (get "noInputPrompts" c) |}.

Definition time_range (v : value) : option TimeRange :=
  match v with VArr [VStr a; VStr b] => Some (a, b) | _ => None end.

Definition as_schedule (c : obj) : ScheduleConfig :=
  {| sc_tz := str_or_empty (get "tz" c);
     sc_weekly := λ day, omap time_range (elems (get (day_name day) (record_or_empty (get "weekly" c))));
     sc_closedDates := strs (get "closedDates" c) |}.

Definition as_condition (c : obj) : ConditionConfig :=
  {| cc_mode := if get "mode" c ==? VStr "equals" then cm_equals
                else if get "mode" c ==? VStr "anonymous" then cm_anonymous else cm_prefix;
     cc_values := strs (get "values" c) |}.

Definition as_dial (c : obj) : DialConfig :=
  let t := record_or_empty (get "target" c) in
  {| dc_target := if get "kind" t ==? VStr "own" then own_target (str_or_empty (get "did" t))
                  else external_target (str_or_empty (get "number" t));
     dc_passCallerId := get "passCallerId" c ==? VBool true;
     dc_ringTimeoutSec := number_of (get "ringTimeoutSec" c) |}.

Definition as_voicemail (c : obj) : VoicemailConfig := Build_VoicemailConfig (str_or_empty (get "did" c)).

Definition as_goto (c : obj) : GotoConfig := Build_GotoConfig (str_or_empty (get "targetNodeId" c)).

Definition as_hangup (c : obj) : HangupConfig := Build_HangupConfig (optional_prompts (get "prompts" c)).

(** ** Draft graph *)

(** A block as the draft JSON has it.  [in_type] is [None] for a type that is
    not in the catalog: the blocks [fromGraph] keeps aside are written back
    into the draft. *)
Record NodeData := { nd_label : value; nd_config : obj }.

Record IvrNode := {
  in_id : string;
  in_type : option IvrNodeType;
  in_data : option NodeData;
}.

Record IvrEdge := {
  ie_id : string;
  ie_source : string;
  ie_sourceHandle : string;
  ie_target : string;
}.

Record IvrGraph := { ig_nodes : list IvrNode; ig_edges : list IvrEdge }.

Definition config_of (n : IvrNode) : obj := match in_data n with Some d => nd_config d | None => [] end.

(** [value as IvrGraph] *)
Definition node_data_view (v : value) : option NodeData :=
  match v with
  | VObj d => Some (Build_NodeData (get "label" d) (record_or_empty (get "config" d)))
  | _ => None
  end.

Definition node_view (v : value) : option IvrNode :=
  match v with
  | VObj n => Some {| in_id := str_or_empty (get "id" n); in_type := isIvrNodeType (get "type" n);
                      in_data := node_data_view (get "data" n) |}
  | _ => None
  end.

Definition edge_view (v : value) : option IvrEdge :=
  match v with
  | VObj e => Some (Build_IvrEdge (str_or_empty (get "id" e)) (str_or_empty (get "source" e))
                      (str_or_empty (get "sourceHandle" e)) (str_or_empty (get "target" e)))
  | _ => None
  end.

Definition graph_view (v : value) : IvrGraph :=
  let g := record_or_empty v in
  {| ig_nodes := omap node_view (elems (get "nodes" g));
     ig_edges := omap edge_view (elems (get "edges" g)) |}.

(** ** Destinations *)

Inductive DestinationProduct := rcf | voicemail_box | ivr | trunk.

#[export] Instance DestinationProduct_eq_dec : EqDecision DestinationProduct.
Proof. solve_decision. Defined.

Record DestinationNumber := {
  dn_did : string;
  dn_name : option string;
  dn_enabled : bool;
  dn_detail : option string;
}.

Record DestinationGroup := {
  dg_product : DestinationProduct;
  dg_label : string;
  dg_numbers : list DestinationNumber;
}.

Record Destinations := { ds_groups : list DestinationGroup }.

(** [destinations?.groups ?? []] *)
Definition groups_of (d : option Destinations) : list DestinationGroup :=
  match d with Some d => ds_groups d | None => [] end.

(** ** Lemmas *)

(** What the builder saves is what the compiler reads: the view of a saved
    working graph has its blocks, with their configs, then the foreign ones. *)
Lemma node_view_out n :
  keep_ok NODE_KEYS (bd_keepNode (wn_data n)) → keep_ok DATA_KEYS (bd_keepData (wn_data n)) →
  ∃ d, node_view (VObj (out_node (node_input n) (type_name (wn_type n)))) =
    Some {| in_id := wn_id n; in_type := Some (wn_type n); in_data := Some d |} ∧
    nd_config d = bd_config (wn_data n) ∧
    nd_label d = match bd_label (wn_data n) with
                 | Some l => if l ==? "" then VUndef else VStr l
                 | None => VUndef
                 end.
Proof.
  intros Hn Hd. eexists. split; [|split].
  - unfold node_view, out_node. get_simpl. cbn [str_or_empty node_input ni_id ni_data].
    unfold isIvrNodeType. rewrite type_of_name_name. cbn [node_data_view]. reflexivity.
  - cbn [nd_config]. unfold out_data. by get_simpl.
  - cbn [nd_label]. unfold out_data. get_simpl. rewrite (spread_keep DATA_KEYS) by done.
    assert (get "label" (default [] (bd_keepData (wn_data n))) = VUndef) as Hl.
    { destruct (bd_keepData (wn_data n)) as [o|]; [|done]. by apply (get_keepGraph _ DATA_KEYS); [|set_solver]. }
    destruct (bd_label (wn_data n)) as [l|]; [|done]. case_bool_decide; [done|]. by rewrite get_set_eq.
Qed.

Lemma graph_view_toGraph w :
  (∀ n, n ∈ wg_nodes w → node_ok n) →
  List.map in_id (ig_nodes (graph_view (write_work w))) =
    List.map wn_id (wg_nodes w) ++ List.map foreign_id (wg_foreignNodes w).
Proof.
  intros Hok. unfold graph_view, write_work, toGraph. cbn [record_or_empty ig_nodes].
  set (o := om_set "edges" _ _). set (g := match wg_viewport w with Some vp => _ | None => o end).
  assert (get "nodes" g = VArr (out_nodes (List.map node_input (wg_nodes w)) ++
            List.map VObj (wg_foreignNodes w))) as ->
    by (unfold g, o; destruct (wg_viewport w); by get_simpl).
  cbn [elems]. rewrite omap_app, List.map_app. f_equal.
  - induction (wg_nodes w) as [|n l IH]; [done|]. rewrite out_nodes_cons.
    destruct (Hok n) as [_ _ _ _ Hkn Hkd]; [by apply elem_of_cons; left|].
    destruct (node_view_out n Hkn Hkd) as (d & E & _). cbn [omap list_omap]. rewrite E. simpl. f_equal.
    apply IH. intros m Hm. apply Hok. by apply elem_of_cons; right.
  - induction (wg_foreignNodes w) as [|f l IH]; [done|]. simpl. f_equal. apply IH.
Qed.
