(* ===== verification/Summary.v ===== *)
(** * One-line summaries ([flow/model/summary.ts])

    Block titles, opening hours and the line under a block's title.  Reading
    a property of [undefined] throws a TypeError: such a result is [None]. *)
From S2P Require Import Prelude JsString JsValue Blocks Graph Format Policy IvrTypes.

Local Open Scope string_scope.
Local Open Scope nat_scope.
Local Open Scope list_scope.

Record SummaryContext := {
  sx_promptName : PromptId → option string;
  sx_destinations : option Destinations;
  sx_titleOf : string → option string;
}.

(** [BLOCKS[type].label]: a type that is not in the catalog throws. *)
Definition catalog_label (t : option IvrNodeType) : option string := blockLabel <$> t.

Definition blockTitle (node : IvrNode) : option string :=
  match in_data node with
  | None => None
  | Some d =>
      match nd_label d with
      | VStr s => let label := trim s in
                  if label ==? "" then catalog_label (in_type node) else Some label
      | VUndef | VNull => catalog_label (in_type node)
      | _ => None
      end
  end.

(** [^(\d{2}):(\d{2})$]: hours and minutes. *)
Definition clock_re (s : string) : option (Z * Z) :=
  match s with
  | String a (String b (String ":" (String c (String d EmptyString)))) =>
      if is_digit a && is_digit b && is_digit c && is_digit d
      then Some (num_of_digits (String a (String b "")), num_of_digits (String c (String d "")))
      else None
  | _ => None
  end.

(** [String(n).padStart(2, '0')] *)
Definition pad2 (n : Z) : string :=
  let s := print_int n in if String.length s <? 2 then "0" +:+ s else s.

Definition formatClockTime (hhmm : string) : string :=
  match clock_re hhmm with
  | None => hhmm
  | Some (h, min) =>
      if ((h =? 0) || (h =? 24))%Z && (min =? 0)%Z then "midnight"
      else if (h =? 12)%Z && (min =? 0)%Z then "noon"
      else
        let h12 := if (h mod 12 =? 0)%Z then 12%Z else (h mod 12)%Z in
        let suffix := if (h <? 12)%Z || (h =? 24)%Z then "AM" else "PM" in
        if (min =? 0)%Z then print_int h12 +:+ " " +:+ suffix
        else print_int h12 +:+ ":" +:+ pad2 min +:+ " " +:+ suffix
  end.

Definition formatRanges (ranges : list TimeRange) : string :=
  match ranges with
  | [] => "closed"
  | _ => join ", " (List.map (λ r, formatClockTime r.1 +:+ "–" +:+ formatClockTime r.2) ranges)
  end.

Record HoursGroup := { hg_from : DayKey; hg_to : DayKey; hg_hours : string }.

(** [DAY_KEYS[DAY_KEYS.indexOf(day) - 1]]: [undefined] before Monday. *)
Definition prev_day (d : DayKey) : option DayKey :=
  match d with
  | mon => None | tue => Some mon | wed => Some tue | thu => Some wed | fri => Some thu
  | sat => Some fri | sun => Some sat
  end.

(** One turn of the loop: [groups] last first. *)
Definition weekly_step (weekly : DayKey → list TimeRange) (groups : list HoursGroup) (day : DayKey) : list HoursGroup :=
  match weekly day with
  | [] => groups
  | ranges =>
      let hours := formatRanges ranges in
      match groups with
      | g :: rest =>
          if (hg_hours g ==? hours) && (Some (hg_to g) ==? prev_day day)
          then {| hg_from := hg_from g; hg_to := day; hg_hours := hg_hours g |} :: rest
          else {| hg_from := day; hg_to := day; hg_hours := hours |} :: groups
      | [] => [{| hg_from := day; hg_to := day; hg_hours := hours |}]
      end
  end.

Definition weekly_groups (weekly : DayKey → list TimeRange) : list HoursGroup :=
  rev (fold_left (weekly_step weekly) DAY_KEYS []).

Definition group_text (g : HoursGroup) : string :=
  if hg_from g ==? hg_to g then (DAY_LABELS (hg_from g)).1 +:+ " " +:+ hg_hours g
  else (DAY_LABELS (hg_from g)).1 +:+ "–" +:+ (DAY_LABELS (hg_to g)).1 +:+ " " +:+ hg_hours g.

Definition formatWeekly (weekly : DayKey → list TimeRange) : string :=
  match weekly_groups weekly with
  | [] => "Closed every day"
  | groups => join " · " (List.map group_text groups)
  end.

Definition quote (n : string) : string := "“" +:+ n +:+ "”".

Definition quoteList (names : list string) : string :=
  let quoted := List.map quote names in
  if length quoted <=? 1 then join "" quoted
  else join ", " (removelast quoted) +:+ " then " +:+ default "" (last quoted).

Fixpoint find_number (did : string) (groups : list DestinationGroup) : option (DestinationGroup * DestinationNumber) :=
  match groups with
  | [] => None
  | g :: groups =>
      match find (λ n, dn_did n ==? did) (dg_numbers g) with
      | Some n => Some (g, n)
      | None => find_number did groups
      end
  end.

Definition describeOwnNumber (did : string) (destinations : option Destinations) : string :=
  match find_number did (groups_of destinations) with
  | Some (_, hit) =>
      match dn_name hit with
      | Some name => if name ==? "" then prettyNumber did else name +:+ " · " +:+ prettyNumber did
      | None => prettyNumber did
      end
  | None => prettyNumber did
  end.

Definition promptNames (ids : list PromptId) (ctx : SummaryContext) : list string :=
  List.map (λ id, default "a deleted message" (sx_promptName ctx id)) ids.

(** A line break, which [.] does not match: LF, CR, U+2028, U+2029. *)
Fixpoint no_line_break (s : string) : bool :=
  match s with
  | EmptyString => true
  | String a s' =>
      if (code a =? 10)%Z || (code a =? 13)%Z then false
      else match s' with
           | String b (String c _) =>
               if (code a =? 226)%Z && (code b =? 128)%Z && ((code c =? 168) || (code c =? 169))%Z then false
               else no_line_break s'
           | _ => no_line_break s'
           end
  end.

(** [s.replace(/ \(.*$/, '')] *)
Fixpoint drop_parenthesis (s : string) : string :=
  match s with
  | EmptyString => ""
  | String a s' =>
      if starts_with " (" s && no_line_break s' then "" else String a (drop_parenthesis s')
  end.

Definition shown_values (values : list string) : string :=
  join ", " (take 2 values) +:+
  (if 2 <? length values then " +" +:+ print_int (Z.of_nat (length values) - 2) +:+ " more" else "").

(** [None]: the block's type is unknown and no line is returned. *)
Definition summarizeBlock (node : IvrNode) (ctx : SummaryContext) : option string :=
  match in_type node with
  | None => None
  | Some t => Some
      match t with
      | entry => "A caller dials one of this flow’s numbers"
      | play =>
          let names := promptNames (pc_prompts (as_play (config_of node))) ctx in
          if 0 <? length names then "Plays " +:+ quoteList names else "No message chosen yet"
      | menu =>
          let c := as_menu (config_of node) in
          let names := promptNames (mc_prompts c) ctx in
          let keys := if 0 <? length (mc_digits c) then "keys " +:+ join ", " (mc_digits c) else "no keys yet" in
          if 0 <? length names then "Plays " +:+ quoteList names +:+ ", listens for " +:+ keys
          else "Listens for " +:+ keys
      | schedule =>
          let c := as_schedule (config_of node) in
          formatWeekly (sc_weekly c) +:+ " (" +:+ drop_parenthesis (timezoneLabel (sc_tz c)) +:+ ")"
      | condition =>
          let c := as_condition (config_of node) in
          if cc_mode c ==? cm_anonymous then "Is the caller ID withheld?"
          else if length (cc_values c) =? 0 then "No numbers to check yet"
          else
            let shown := shown_values (cc_values c) in
            if cc_mode c ==? cm_prefix then "Number starts with " +:+ shown else "Number is " +:+ shown
      | dial =>
          match dc_target (as_dial (config_of node)) with
          | own_target did =>
              if did ==? "" then "No destination chosen yet" else describeOwnNumber did (sx_destinations ctx)
          | external_target number =>
              if number ==? "" then "No destination chosen yet" else "Outside number " +:+ prettyNumber number
          end
      | voicemail =>
          let did := vc_did (as_voicemail (config_of node)) in
          if did ==? "" then "No mailbox chosen yet" else "Mailbox " +:+ describeOwnNumber did (sx_destinations ctx)
      | goto =>
          let target := gc_targetNodeId (as_goto (config_of node)) in
          match (if target ==? "" then None else sx_titleOf ctx target) with
          | Some title => if title ==? "" then "No block chosen yet" else "Back to " +:+ title
          | None => "No block chosen yet"
          end
      | hangup =>
          let names := promptNames (default [] (hc_prompts (as_hangup (config_of node)))) ctx in
          if 0 <? length names then "Plays " +:+ quoteList names +:+ ", then hangs up" else "Ends the call"
      end
  end.

(** ** Properties *)

(** The block's title is read without a TypeError. *)
Definition titled (node : IvrNode) : Prop :=
  is_Some (in_type node) ∧ ∃ d, in_data node = Some d ∧
    match nd_label d with VUndef | VNull | VStr _ => True | _ => False end.

Lemma blockTitle_titled node : titled node → ∃ s, blockTitle node = Some s ∧ s ≠ "".
Proof.
  intros [[t Et] (d & Ed & Hl)]. unfold blockTitle. rewrite Ed, Et.
  assert (∃ s, catalog_label (Some t) = Some s ∧ s ≠ "") as Hc by (destruct t; eexists; split; done).
  destruct (nd_label d); try done. case_bool_decide; [done|]. eauto.
Qed.

Definition day_index (d : DayKey) : nat :=
  match d with mon => 0 | tue => 1 | wed => 2 | thu => 3 | fri => 4 | sat => 5 | sun => 6 end.

Definition in_group (d : DayKey) (g : HoursGroup) : Prop :=
  day_index (hg_from g) ≤ day_index d ≤ day_index (hg_to g).

Lemma day_index_inj d d' : day_index d = day_index d' → d = d'.
Proof. by destruct d, d'. Qed.

Lemma prev_day_index d d' : prev_day d = Some d' ↔ day_index d = S (day_index d').
Proof. destruct d, d'; simpl; split; intros; simplify_eq/=; try done; lia. Qed.

(** The groups made from the days before the [k]-th. *)
Record groups_inv (weekly : DayKey → list TimeRange) (k : nat) (groups : list HoursGroup) : Prop := {
  gi_before : ∀ g, g ∈ groups → day_index (hg_from g) ≤ day_index (hg_to g) < k;
  gi_hours : ∀ g d, g ∈ groups → in_group d g → weekly d ≠ [] ∧ hg_hours g = formatRanges (weekly d);
  gi_cover : ∀ d, day_index d < k → weekly d ≠ [] → ∃ g, g ∈ groups ∧ in_group d g;
  gi_order : ∀ i j g g', groups !! i = Some g → groups !! j = Some g' → i < j →
    day_index (hg_to g') < day_index (hg_from g);
}.

Lemma weekly_step_inv weekly groups d :
  groups_inv weekly (day_index d) groups → groups_inv weekly (S (day_index d)) (weekly_step weekly groups d).
Proof.
  intros [Hb Hh Hc Ho]. unfold weekly_step. destruct (weekly d) as [|r ranges] eqn:Ew.
  { split; [intros g Hg; specialize (Hb g Hg); lia|done| |done].
    intros d' Hd' Hne. apply Hc; [|done]. destruct (decide (day_index d' = day_index d)) as [E%day_index_inj|]; [|lia].
    by subst. }
  rewrite <- Ew.
  assert (∀ d', in_group d' {| hg_from := d; hg_to := d; hg_hours := formatRanges (weekly d) |} → d' = d) as Hsingle.
  { intros d' [H1 H2]; simpl in *. apply day_index_inj. lia. }
  assert (groups_inv weekly (S (day_index d))
    ({| hg_from := d; hg_to := d; hg_hours := formatRanges (weekly d) |} :: groups)) as Hnew.
  { split.
    - intros g [->|Hg]%elem_of_cons; simpl; [lia|]. specialize (Hb g Hg). lia.
    - intros g d' [->|Hg]%elem_of_cons Hin; [|by apply Hh]. apply Hsingle in Hin as ->. by rewrite Ew.
    - intros d' Hd' Hne. destruct (decide (day_index d' = day_index d)) as [E%day_index_inj|].
      + subst. eexists. split; [by apply elem_of_cons; left|]. unfold in_group; simpl; lia.
      + destruct (Hc d') as (g & Hg & Hin); [lia|done|]. exists g. split; [by apply elem_of_cons; right|done].
    - intros [|i] [|j] g g' Hi Hj Hij; try lia; simpl in *; simplify_eq/=.
      + apply list_elem_of_lookup_2 in Hj. specialize (Hb g' Hj). lia.
      + eapply Ho; [done..|lia]. }
  destruct groups as [|g0 rest]; [done|].
  destruct ((hg_hours g0 ==? _) && _) eqn:E; [|done]. bool_hyps.
  match goal with E : Some _ = prev_day d |- _ => symmetry in E; apply prev_day_index in E as Ei end.
  match goal with E : hg_hours g0 = _ |- _ => rename E into Eh end. clear Hnew Hsingle.
  split.
  - intros g [->|Hg]%elem_of_cons; simpl.
    + specialize (Hb g0). rewrite elem_of_cons in Hb. specialize (Hb (or_introl eq_refl)). lia.
    + specialize (Hb g). rewrite elem_of_cons in Hb. specialize (Hb (or_intror Hg)). lia.
  - intros g d' [->|Hg]%elem_of_cons Hin.
    + unfold in_group in Hin; simpl in *. destruct (decide (day_index d' = day_index d)) as [E%day_index_inj|].
      * subst. split; [by rewrite Ew|done].
      * apply (Hh g0); [by apply elem_of_cons; left|]. unfold in_group. lia.
    + apply Hh; [by apply elem_of_cons; right|done].
  - intros d' Hd' Hne. destruct (decide (day_index d' = day_index d)) as [E%day_index_inj|].
    + subst. eexists. split; [by apply elem_of_cons; left|]. unfold in_group; simpl.
      specialize (Hb g0). rewrite elem_of_cons in Hb. specialize (Hb (or_introl eq_refl)). lia.
    + destruct (Hc d') as (g & [->|Hg]%elem_of_cons & Hin); [lia|done| |].
      * eexists. split; [by apply elem_of_cons; left|]. unfold in_group in *; simpl. lia.
      * exists g. split; [by apply elem_of_cons; right|done].
  - intros [|i] [|j] g g' Hi Hj Hij; try lia; simpl in *; simplify_eq/=.
    + by apply (Ho 0 (S j) g0 g').
    + by apply (Ho (S i) (S j) g g').
Qed.

Lemma weekly_groups_inv weekly : groups_inv weekly 7 (fold_left (weekly_step weekly) DAY_KEYS []).
Proof.
  assert (groups_inv weekly (day_index mon) []) as H0.
  { split; [intros g []%not_elem_of_nil|intros g d []%not_elem_of_nil|simpl; lia|done]. }
  pose proof (weekly_step_inv weekly) as Hs.
  exact (Hs _ sun (Hs _ sat (Hs _ fri (Hs _ thu (Hs _ wed (Hs _ tue (Hs _ mon H0))))))).
Qed.

(** The opening hours line is faithful to the schedule: a day is in some
    group of the line exactly when it has hours, and the hours shown for the
    group are that day's hours. *)
Theorem weekly_groups_faithful weekly d :
  (weekly d ≠ [] ↔ ∃ g, g ∈ weekly_groups weekly ∧ in_group d g) ∧
  (∀ g, g ∈ weekly_groups weekly → in_group d g → hg_hours g = formatRanges (weekly d)).
Proof.
  destruct (weekly_groups_inv weekly) as [Hb Hh Hc _].
  assert (∀ g, g ∈ weekly_groups weekly ↔ g ∈ fold_left (weekly_step weekly) DAY_KEYS []) as E.
  { intros g. unfold weekly_groups. by rewrite !list_elem_of_In, <- in_rev. }
  setoid_rewrite E. split; [split|].
  - intros Hne. apply Hc; [|done]. destruct d; simpl; lia.
  - intros (g & Hg & Hin). by apply (Hh g).
  - intros g Hg Hin. by apply Hh.
Qed.

(** ** Witness *)

Definition office_week (d : DayKey) : list TimeRange :=
  match d with sat => [("10:00", "14:00")] | sun => [] | _ => [("09:00", "17:00")] end.

Lemma weekly_groups_faithful_witness :
  formatWeekly office_week = "Mon–Fri 9 AM–5 PM · Sat 10 AM–2 PM" ∧
  hg_hours (Build_HoursGroup mon fri "9 AM–5 PM") = formatRanges (office_week wed).
Proof.
  split; [by vm_compute|]. apply (weekly_groups_faithful office_week wed).
  - vm_compute. left.
  - vm_compute. lia.
Defined.
