(* ===== verification/Hours.v ===== *)
(** * Times and dates of the compiler ([flow/compile/ivr.ts], helpers)

    Clock times as minutes, the merging of opening ranges, and the test that
    a holiday is a real calendar date, with the arithmetic of [Date.UTC] as
    the ECMAScript standard defines it. *)
From S2P Require Import Prelude JsString JsValue Summary.
From stdpp Require Import sorting.

Local Open Scope string_scope.
Local Open Scope nat_scope.
Local Open Scope list_scope.
Local Open Scope Z_scope.

Definition toMinutes (hhmm : string) : option Z :=
  match clock_re hhmm with
  | None => None
  | Some (h, min) =>
      if (h =? 24) && (min =? 0) then Some 1440
      else if (23 <? h) || (59 <? min) then None
      else Some (h * 60 + min)
  end.

(** ** Ranges *)

Definition range : Type := Z * Z.

(** [(a, b) => a[0] - b[0] || a[1] - b[1]] is at most zero. *)
Definition range_le (a b : range) : bool := (a.1 <? b.1) || ((a.1 =? b.1) && (a.2 <=? b.2)).

(** [sort] is stable; an insertion sort gives the same array. *)
Fixpoint insert_range (x : range) (l : list range) : list range :=
  match l with
  | [] => [x]
  | y :: l' => if range_le x y then x :: l else y :: insert_range x l'
  end.
Definition sort_ranges (l : list range) : list range := foldr insert_range [] l.

(** One turn of the merging loop: [out] last first. *)
Definition merge_step (out : list range) (r : range) : list range :=
  match out with
  | last :: rest =>
      if r.1 <=? last.2 then (last.1, Z.max last.2 r.2) :: rest else r :: out
  | [] => [r]
  end.

Definition mergeRanges (ranges : list range) : list range :=
  rev (fold_left merge_step (sort_ranges ranges) []).

(** ** Dates *)

(** ECMAScript: Day and year from a time value, in days. *)
Definition DayFromYear (y : Z) : Z :=
  365 * (y - 1970) + (y - 1969) / 4 - (y - 1901) / 100 + (y - 1601) / 400.

Definition is_leap (y : Z) : bool :=
  ((y mod 4 =? 0) && negb (y mod 100 =? 0)) || (y mod 400 =? 0).

(** Days before the month [m] (0 to 11) of a year. *)
Definition days_before (leap : bool) (m : Z) : Z :=
  let b := if leap then 1 else 0 in
  match m with
  | 0 => 0 | 1 => 31 | 2 => 59 + b | 3 => 90 + b | 4 => 120 + b | 5 => 151 + b | 6 => 181 + b
  | 7 => 212 + b | 8 => 243 + b | 9 => 273 + b | 10 => 304 + b | 11 => 334 + b | _ => 365 + b
  end.

(** MakeDay(year, month, date), any integers. *)
Definition MakeDay (year month date : Z) : Z :=
  let ym := year + month / 12 in
  let mn := month mod 12 in
  DayFromYear ym + days_before (is_leap ym) mn + date - 1.

(** Date.UTC reads a year of 0 to 99 as 1900 plus it. *)
Definition full_year (y : Z) : Z := if (0 <=? y) && (y <=? 99) then 1900 + y else y.

Definition YearFromDay (n : Z) : Z :=
  let y := 1970 + n * 400 / 146097 in
  if DayFromYear (y + 1) <=? n then y + 1
  else if n <? DayFromYear y then y - 1
  else y.

(** The last month that starts no later than the day of the year. *)
Definition month_of (leap : bool) (day : Z) : Z :=
  let fix go (k : nat) : Z :=
    match k with
    | O => 0
    | S k' => if days_before leap (Z.of_nat k) <=? day then Z.of_nat k else go k'
    end in
  go 11%nat.

(** Year, month (0 to 11) and date of a day. *)
Definition date_of_day (n : Z) : Z * Z * Z :=
  let y := YearFromDay n in
  let d := n - DayFromYear y in
  let m := month_of (is_leap y) d in
  (y, m, d - days_before (is_leap y) m + 1).

(** [^\d{4}-\d{2}-\d{2}$] and the three numbers. *)
Definition date_re (s : string) : option (Z * Z * Z) :=
  match s with
  | String y1 (String y2 (String y3 (String y4 (String "-" (String m1 (String m2 (String "-"
      (String d1 (String d2 EmptyString))))))))) =>
      if is_digit y1 && is_digit y2 && is_digit y3 && is_digit y4
         && is_digit m1 && is_digit m2 && is_digit d1 && is_digit d2
      then Some (num_of_digits (String y1 (String y2 (String y3 (String y4 "")))),
                 num_of_digits (String m1 (String m2 "")), num_of_digits (String d1 (String d2 "")))
      else None
  | _ => None
  end.

Definition isRealDate (ymd : string) : bool :=
  match date_re ymd with
  | None => false
  | Some (y, m, d) =>
      let '(y', m', d') := date_of_day (MakeDay (full_year y) (m - 1) d) in
      (y' =? y) && (m' =? m - 1) && (d' =? d)
  end.

(** ** Lemmas: ranges *)

Definition covers (l : list range) (t : Z) : Prop := ∃ r, r ∈ l ∧ r.1 ≤ t < r.2.

(** Ranges in order, none empty, with a gap between neighbours. *)
Fixpoint separated (l : list range) : Prop :=
  match l with
  | [] => True
  | r :: l' => r.1 < r.2 ∧ match l' with [] => True | r' :: _ => r.2 < r'.1 end ∧ separated l'
  end.

Lemma range_le_total a b : range_le a b = false → range_le b a = true.
Proof. unfold range_le. intros. lia. Qed.

Lemma insert_range_perm x l : insert_range x l ≡ₚ x :: l.
Proof.
  induction l as [|y l IH]; simpl; [done|]. destruct (range_le x y); [done|].
  rewrite IH. apply Permutation_swap.
Qed.

Lemma sort_ranges_perm l : sort_ranges l ≡ₚ l.
Proof. induction l as [|x l IH]; simpl; [done|]. by rewrite insert_range_perm, IH. Qed.

(** Sorted by start. *)
Definition starts_sorted (l : list range) : Prop := Sorted (λ a b, a.1 ≤ b.1) l.

Lemma insert_range_sorted x l : starts_sorted l → starts_sorted (insert_range x l).
Proof.
  unfold starts_sorted. induction 1 as [|y l Hl IH Hy]; simpl; [by repeat constructor|].
  destruct (range_le x y) eqn:E.
  - constructor; [by constructor|]. constructor. unfold range_le in E. lia.
  - constructor; [done|]. apply range_le_total in E. unfold range_le in E.
    destruct l as [|z l]; simpl; [constructor; lia|].
    inversion Hy; subst. destruct (range_le x z); constructor; [lia|done].
Qed.

Lemma sort_ranges_sorted l : starts_sorted (sort_ranges l).
Proof. induction l as [|x l IH]; simpl; [constructor|]. by apply insert_range_sorted. Qed.

(** The merged ranges so far, last first. *)
Definition rseparated (l : list range) : Prop := separated (rev l).

Lemma separated_snoc l r :
  separated (l ++ [r]) ↔ separated l ∧ r.1 < r.2 ∧ (∀ q, last l = Some q → q.2 < r.1).
Proof.
  induction l as [|x l IH]; simpl.
  - split; [intros (? & _ & _)|]; naive_solver.
  - destruct l as [|y l]; simpl in *.
    + split; [intros (? & ? & ? & _)|intros ((? & _) & ? & Hq)].
      * split_and!; try done. intros q [= <-]. done.
      * split_and!; try done. by apply Hq.
    + rewrite IH. tauto.
Qed.

Lemma rseparated_cons r l :
  rseparated (r :: l) ↔ rseparated l ∧ r.1 < r.2 ∧ (∀ q, head l = Some q → q.2 < r.1).
Proof.
  unfold rseparated. simpl. rewrite separated_snoc. destruct l as [|y l]; simpl; [done|].
  by rewrite last_snoc.
Qed.

Lemma merge_step_inv out r :
  rseparated out → r.1 < r.2 → (∀ q, head out = Some q → q.1 ≤ r.1) →
  rseparated (merge_step out r) ∧
  (∀ t, covers (merge_step out r) t ↔ covers out t ∨ r.1 ≤ t < r.2) ∧
  (∀ q, head (merge_step out r) = Some q → q.1 ≤ r.1).
Proof.
  intros Hout Hr Hhd. unfold merge_step. destruct out as [|l out].
  { split_and!; [unfold rseparated; simpl; lia| |by intros q [= <-]].
    intros t. unfold covers. split.
    - intros (q & ->%list_elem_of_singleton & Ht). by right.
    - intros [(q & []%not_elem_of_nil & _)|Ht]. exists r. split; [set_solver|done]. }
  specialize (Hhd l eq_refl). apply rseparated_cons in Hout as (Ho & Hl & Hq).
  destruct (r.1 <=? l.2) eqn:E; bool_hyps.
  - split_and!.
    + apply rseparated_cons. simpl. split_and!; [done|lia|done].
    + intros t. unfold covers. split.
      * intros (q & [->|Hin]%elem_of_cons & Ht); simpl in *.
        -- destruct (decide (t < l.2)); [left; exists l; split; [set_solver|lia]|right; lia].
        -- left. exists q. split; [set_solver|done].
      * intros [(q & [->|Hin]%elem_of_cons & Ht)|Ht].
        -- eexists. split; [by apply elem_of_cons; left|]. simpl. lia.
        -- exists q. split; [set_solver|done].
        -- eexists. split; [by apply elem_of_cons; left|]. simpl. lia.
    + intros q [= <-]. simpl. lia.
  - split_and!.
    + apply rseparated_cons. split_and!; [apply rseparated_cons; done|done|]. intros q [= <-]. lia.
    + intros t. unfold covers. split.
      * intros (q & [->|Hin]%elem_of_cons & Ht); [by right|left; eauto].
      * intros [(q & Hin & Ht)|Ht]; [exists q|exists r]; (split; [set_solver|done]).
    + by intros q [= <-].
Qed.

Lemma fold_merge l out :
  (∀ r, r ∈ l → r.1 < r.2) → starts_sorted l → rseparated out →
  (∀ q r, head out = Some q → head l = Some r → q.1 ≤ r.1) →
  rseparated (fold_left merge_step l out) ∧
  ∀ t, covers (fold_left merge_step l out) t ↔ covers out t ∨ covers l t.
Proof.
  revert out. induction l as [|r l IH]; intros out Hl Hs Ho Hh; simpl.
  { split; [done|]. intros t. split; [by left|]. intros [?|(q & []%not_elem_of_nil & _)]; done. }
  destruct (merge_step_inv out r) as (H1 & H2 & H3); [done|apply Hl; set_solver|naive_solver|].
  inversion Hs as [|? ? Hs' Hhd]; subst.
  destruct (IH (merge_step out r)) as [H4 H5]; [set_solver|done|done| |].
  { intros q r' Hq Hr'. apply H3 in Hq. destruct l; [done|]. injection Hr' as ->. inversion Hhd; subst. lia. }
  split; [done|]. intros t. rewrite H5, H2. unfold covers. split.
  - intros [[?|?]|(q & ? & ?)]; [by left|right; exists r; split; [set_solver|done]|right; exists q; split; [set_solver|done]].
  - intros [?|(q & [->|?]%elem_of_cons & ?)]; [by left; left|by left; right|right; eauto].
Qed.

Lemma merge_all ranges :
  (∀ r, r ∈ ranges → r.1 < r.2) →
  separated (mergeRanges ranges) ∧ ∀ t, covers (mergeRanges ranges) t ↔ covers ranges t.
Proof.
  intros Hr. destruct (fold_merge (sort_ranges ranges) []) as [H1 H2]; try done.
  - intros r. rewrite sort_ranges_perm. auto.
  - apply sort_ranges_sorted.
  - split; [done|]. intros t.
    assert (covers (mergeRanges ranges) t ↔ covers (fold_left merge_step (sort_ranges ranges) []) t) as ->.
    { unfold covers, mergeRanges. by setoid_rewrite list_elem_of_In; setoid_rewrite <- in_rev. }
    rewrite H2. unfold covers. setoid_rewrite sort_ranges_perm. split; [|by right].
    intros [(q & []%not_elem_of_nil & _)|?]; done.
Qed.

(** Merging opening ranges keeps exactly the minutes they cover, and
    leaves non-empty ranges in order with a gap between neighbours. *)
Theorem mergeRanges_spec ranges :
  (∀ r, r ∈ ranges → r.1 < r.2) →
  separated (mergeRanges ranges) ∧ ∀ t, covers (mergeRanges ranges) t ↔ covers ranges t.
Proof. apply merge_all. Qed.

(** ** Lemmas: dates *)

Lemma DayFromYear_succ y : DayFromYear (y + 1) = DayFromYear y + (if is_leap y then 366 else 365).
Proof.
  unfold DayFromYear, is_leap.
  destruct (Z.eqb_spec (y mod 4) 0), (Z.eqb_spec (y mod 100) 0), (Z.eqb_spec (y mod 400) 0); simpl;
    Z.to_euclidean_division_equations; lia.
Qed.

Lemma DayFromYear_mono y y' : y ≤ y' → DayFromYear y ≤ DayFromYear y'.
Proof. intros. unfold DayFromYear. Z.to_euclidean_division_equations; lia. Qed.

Lemma YearFromDay_spec n : DayFromYear (YearFromDay n) ≤ n < DayFromYear (YearFromDay n + 1).
Proof.
  unfold YearFromDay. set (y := 1970 + n * 400 / 146097).
  assert (DayFromYear (y - 1) ≤ n < DayFromYear (y + 2)) as [H1 H2].
  { unfold y, DayFromYear. Z.to_euclidean_division_equations; lia. }
  destruct (Z.leb_spec (DayFromYear (y + 1)) n).
  - replace (y + 1 + 1) with (y + 2) by lia. lia.
  - destruct (Z.ltb_spec n (DayFromYear y)); [|lia]. replace (y - 1 + 1) with y by lia. lia.
Qed.

Lemma YearFromDay_unique n y : DayFromYear y ≤ n < DayFromYear (y + 1) → YearFromDay n = y.
Proof.
  intros Hy. pose proof (YearFromDay_spec n) as Hn. set (z := YearFromDay n) in *.
  destruct (Z.lt_trichotomy z y) as [H|[H|H]]; [|done|].
  - pose proof (DayFromYear_mono (z + 1) y). lia.
  - pose proof (DayFromYear_mono (y + 1) z). lia.
Qed.

Definition days_in_month (leap : bool) (m : Z) : Z := days_before leap (m + 1) - days_before leap m.

Lemma month_of_spec leap day :
  0 ≤ day < days_before leap 12 →
  0 ≤ month_of leap day ≤ 11 ∧
  days_before leap (month_of leap day) ≤ day < days_before leap (month_of leap day + 1).
Proof.
  intros Hd. unfold month_of. simpl. destruct leap; simpl in *;
    repeat (match goal with |- context [?a <=? day] => destruct (Z.leb_spec a day) end; [split; [lia|simpl; lia]|]);
    simpl; lia.
Qed.

Lemma month_of_unique leap m day :
  0 ≤ m ≤ 11 → days_before leap m ≤ day < days_before leap (m + 1) → month_of leap day = m.
Proof.
  intros Hm Hd.
  assert (m = 0 ∨ m = 1 ∨ m = 2 ∨ m = 3 ∨ m = 4 ∨ m = 5 ∨ m = 6 ∨ m = 7 ∨ m = 8 ∨ m = 9 ∨ m = 10 ∨ m = 11)
    as Hcases by lia.
  unfold month_of; destruct leap; repeat destruct Hcases as [->|Hcases]; try subst m; simpl in *;
    repeat (match goal with |- context [?a <=? day] => destruct (Z.leb_spec a day) end; try lia).
Qed.

(** A date of the proleptic Gregorian calendar, months from 1. *)
Definition valid_date (y m d : Z) : Prop := 1 ≤ m ≤ 12 ∧ 1 ≤ d ≤ days_in_month (is_leap y) (m - 1).

Lemma days_before_12 leap : days_before leap 12 = if leap then 366 else 365.
Proof. by destruct leap. Qed.

Lemma date_of_day_year n : (date_of_day n).1.1 = YearFromDay n.
Proof. done. Qed.

Lemma date_of_day_valid n y m d : date_of_day n = (y, m, d) → valid_date y (m + 1) d.
Proof.
  unfold date_of_day. pose proof (YearFromDay_spec n) as Hn.
  rewrite DayFromYear_succ in Hn. set (z := YearFromDay n) in *. intros [= <- <- <-].
  destruct (month_of_spec (is_leap z) (n - DayFromYear z)) as [Hm Hd].
  { rewrite days_before_12. destruct (is_leap z); lia. }
  unfold valid_date, days_in_month. replace (month_of (is_leap z) (n - DayFromYear z) + 1 - 1)
    with (month_of (is_leap z) (n - DayFromYear z)) by lia. lia.
Qed.

Lemma date_of_MakeDay y m d : valid_date y m d → date_of_day (MakeDay y (m - 1) d) = (y, m - 1, d).
Proof.
  intros [Hm Hd]. unfold MakeDay. rewrite Z.div_small, Z.mod_small, Z.add_0_r by lia.
  unfold days_in_month in Hd. replace (m - 1 + 1) with m in Hd by lia.
  assert (0 ≤ days_before (is_leap y) (m - 1) ∧ days_before (is_leap y) m ≤ days_before (is_leap y) 12) as [H0 H12].
  { assert (m = 1 ∨ m = 2 ∨ m = 3 ∨ m = 4 ∨ m = 5 ∨ m = 6 ∨ m = 7 ∨ m = 8 ∨ m = 9 ∨ m = 10 ∨ m = 11 ∨ m = 12)
      as Hc by lia. destruct (is_leap y); repeat destruct Hc as [->|Hc]; try subst m; simpl; lia. }
  rewrite days_before_12 in H12. unfold date_of_day.
  assert (YearFromDay (DayFromYear y + days_before (is_leap y) (m - 1) + d - 1) = y) as ->.
  { apply YearFromDay_unique. rewrite DayFromYear_succ. destruct (is_leap y); lia. }
  replace (DayFromYear y + days_before (is_leap y) (m - 1) + d - 1 - DayFromYear y)
    with (days_before (is_leap y) (m - 1) + d - 1) by lia.
  rewrite (month_of_unique (is_leap y) (m - 1)); [f_equal; lia|lia|].
  replace (m - 1 + 1) with m by lia. lia.
Qed.

(** A holiday passes the test exactly when it is written YYYY-MM-DD and
    is a day of the calendar, leap years included, from the year 100 on
    ([Date.UTC] reads smaller years as 19YY, so they are refused). *)
Theorem isRealDate_iff s :
  isRealDate s = true ↔ ∃ y m d, date_re s = Some (y, m, d) ∧ valid_date y m d ∧ 100 ≤ y.
Proof.
  unfold isRealDate. destruct (date_re s) as [[[y m] d]|] eqn:E; [|split; [done|by intros (? & ? & ? & ? & _)]].
  assert (0 ≤ y) as Hy.
  { revert E. unfold date_re. repeat (case_match; try done). intros [= <- _ _].
    bool_hyps. apply num_of_digits_bounds. cbn [sforall].
    repeat match goal with H : is_digit ?a = true |- context [is_digit ?a] => rewrite H end. done. }
  destruct (date_of_day (MakeDay (full_year y) (m - 1) d)) as [[y' m'] d'] eqn:Ed. split.
  - intros H. bool_hyps. subst. exists y, m, d. split; [done|].
    pose proof (date_of_day_valid _ _ _ _ Ed) as Hv. replace (m - 1 + 1) with m in Hv by lia. split; [done|].
    destruct (decide (100 ≤ y)); [done|]. exfalso.
    assert (full_year y = 1900 + y) as Ef by (unfold full_year; case_match; bool_hyps; lia).
    rewrite Ef in Ed.
    (* the year read back is that of the day made, 1900 + y or its successor *)
    pose proof (date_of_day_year (MakeDay (1900 + y) (m - 1) d)) as Ey. rewrite Ed in Ey. cbn [fst] in Ey.
    pose proof (YearFromDay_spec (MakeDay (1900 + y) (m - 1) d)) as Hn. rewrite <- Ey in Hn.
    destruct Hv as [Hm Hd]. unfold MakeDay in Hn. rewrite Z.div_small, Z.mod_small, Z.add_0_r in Hn by lia.
    assert (0 ≤ days_before (is_leap (1900 + y)) (m - 1)) as H0.
    { assert (m = 1 ∨ m = 2 ∨ m = 3 ∨ m = 4 ∨ m = 5 ∨ m = 6 ∨ m = 7 ∨ m = 8 ∨ m = 9 ∨ m = 10 ∨ m = 11 ∨ m = 12)
        as Hc by lia. destruct (is_leap (1900 + y)); repeat destruct Hc as [->|Hc]; try subst m; simpl; lia. }
    pose proof (DayFromYear_mono (y + 1) (1900 + y)). lia.
  - intros (y0 & m0 & d0 & E0 & Hv & H100). simplify_eq.
    assert (full_year y0 = y0) as Ef by (unfold full_year; case_match; bool_hyps; lia).
    rewrite Ef, date_of_MakeDay in Ed by done. simplify_eq. by rewrite !Z.eqb_refl.
Qed.

(** Whole times read back: every minute of the day, and 24:00. *)
Lemma toMinutes_bounds s n : toMinutes s = Some n → 0 ≤ n ≤ 1440.
Proof.
  unfold toMinutes. destruct (clock_re s) as [[h m]|] eqn:E; [|done].
  assert (0 ≤ h ∧ 0 ≤ m) as [Hh Hm].
  { revert E. unfold clock_re. repeat (case_match; try done). intros [= <- <-]. bool_hyps.
    split; apply num_of_digits_bounds; cbn [sforall];
    repeat match goal with H : is_digit ?a = true |- context [is_digit ?a] => rewrite H end; done. }
  case_match; [by intros [= <-]|]. case_match; [done|]. intros [= <-]. bool_hyps. lia.
Qed.

(** ** Witnesses *)

Lemma mergeRanges_spec_witness :
  separated [(540, 780); (840, 1020)] ∧
  ∀ t, covers [(540, 780); (840, 1020)] t ↔ covers [(840, 1020); (540, 720); (720, 780)] t.
Proof.
  apply (mergeRanges_spec [(840, 1020); (540, 720); (720, 780)]).
  intros r Hr. repeat (apply elem_of_cons in Hr as [->|Hr]; [by vm_compute|]). by apply not_elem_of_nil in Hr.
Defined.
