(* ===== verification/Effects.v ===== *)
(** * State and exceptions

    The compiler threads mutable arrays and maps through many calls, and a
    property of [undefined] read anywhere aborts it.  Computations are
    functions from a state to an exception or to a result and the state
    after it. *)
From S2P Require Import Prelude.

Local Open Scope list_scope.

(** How a run can stop: an uncaught TypeError, or spent fuel, which the code
    does not have and which the theorems rule out. *)
Inductive stop := TypeError | OutOfFuel.

#[export] Instance stop_eq_dec : EqDecision stop.
Proof. solve_decision. Defined.

Section effects.
Context {St : Type}.

Definition eff (A : Type) : Type := St → stop + (A * St).

#[global] Instance eff_ret : MRet eff := λ A a st, inr (a, st).
#[global] Instance eff_bind : MBind eff := λ A B k m st,
  match m st with
  | inl e => inl e
  | inr (a, st') => k a st'
  end.

Definition throw {A} (e : stop) : eff A := λ _, inl e.
Definition get_state : eff St := λ st, inr (st, st).
Definition modify (f : St → St) : eff unit := λ st, inr (tt, f st).

Definition when (b : bool) (m : eff unit) : eff unit := if b then m else mret tt.

(** Reads an optional value, throwing a TypeError on [undefined]. *)
Definition of_option {A} (o : option A) : eff A :=
  match o with Some a => mret a | None => throw TypeError end.

(** The result of a fuelled loop. *)
Definition of_fuel {A} (o : option A) : eff A :=
  match o with Some a => mret a | None => throw OutOfFuel end.

(** [for (const x of l) f(x)] *)
Fixpoint for_each {A} (f : A → eff unit) (l : list A) : eff unit :=
  match l with
  | [] => mret tt
  | x :: l => f x ≫= λ _, for_each f l
  end.

(** The same, threading a local variable. *)
Fixpoint fold_each {A B} (f : B → A → eff B) (acc : B) (l : list A) : eff B :=
  match l with
  | [] => mret acc
  | x :: l => f acc x ≫= λ acc, fold_each f acc l
  end.

(** ** Computations that do not stop *)

Definition safe {A} (m : eff A) : Prop := ∀ st, ∃ a st', m st = inr (a, st').

Lemma safe_ret {A} (a : A) : safe (mret a).
Proof. intros st. by exists a, st. Qed.

Lemma safe_bind {A B} (m : eff A) (k : A → eff B) : safe m → (∀ a, safe (k a)) → safe (m ≫= k).
Proof.
  intros Hm Hk st. destruct (Hm st) as (a & st1 & E). destruct (Hk a st1) as (b & st2 & E2).
  exists b, st2. unfold mbind, eff_bind. by rewrite E.
Qed.

Lemma safe_modify f : safe (modify f).
Proof. intros st. by eexists _, _. Qed.

Lemma safe_get : safe get_state.
Proof. intros st. by eexists _, _. Qed.

Lemma safe_when b m : safe m → safe (when b m).
Proof. intros Hm. destruct b; [done|apply safe_ret]. Qed.

Lemma safe_of_option {A} (o : option A) : is_Some o → safe (of_option o).
Proof. intros [a ->]. apply safe_ret. Qed.

Lemma safe_of_fuel {A} (o : option A) : is_Some o → safe (of_fuel o).
Proof. intros [a ->]. apply safe_ret. Qed.

Lemma safe_for_each {A} (f : A → eff unit) l : (∀ x, x ∈ l → safe (f x)) → safe (for_each f l).
Proof.
  induction l as [|x l IH]; intros Hf; simpl; [apply safe_ret|].
  apply safe_bind; [apply Hf; by apply elem_of_cons; left|]. intros _. apply IH.
  intros y Hy. apply Hf. by apply elem_of_cons; right.
Qed.

(** With an invariant of the threaded variable. *)
Definition returns {A} (P : A → Prop) (m : eff A) : Prop := ∀ st, ∃ a st', m st = inr (a, st') ∧ P a.

Lemma returns_safe {A} (P : A → Prop) m : returns P m → safe m.
Proof. intros Hm st. destruct (Hm st) as (a & st' & E & _). eauto. Qed.

Lemma returns_fold_each {A B} (P : B → Prop) (f : B → A → eff B) l acc :
  P acc → (∀ b x, P b → x ∈ l → returns P (f b x)) → returns P (fold_each f acc l).
Proof.
  revert acc. induction l as [|x l IH]; intros acc Ha Hf st; simpl; [by exists acc, st|].
  destruct (Hf acc x Ha ltac:(by apply elem_of_cons; left) st) as (b & st1 & E & Hb).
  destruct (IH b Hb ltac:(intros; apply Hf; [done|by apply elem_of_cons; right]) st1) as (c & st2 & E2 & Hc).
  exists c, st2. unfold mbind, eff_bind. by rewrite E.
Qed.

Lemma returns_bind {A B} (P : A → Prop) (Q : B → Prop) (m : eff A) (k : A → eff B) :
  returns P m → (∀ a, P a → returns Q (k a)) → returns Q (m ≫= k).
Proof.
  intros Hm Hk st. destruct (Hm st) as (a & st1 & E & Ha). destruct (Hk a Ha st1) as (b & st2 & E2 & Hb).
  exists b, st2. unfold mbind, eff_bind. by rewrite E.
Qed.

Lemma returns_ret {A} (P : A → Prop) a : P a → returns P (mret a).
Proof. intros Ha st. by exists a, st. Qed.

Lemma returns_of_safe {A} (P : A → Prop) m : safe m → (∀ a, P a) → returns P m.
Proof. intros Hm Ha st. destruct (Hm st) as (a & st' & E). eauto. Qed.

Lemma bind_inr {A B} (m : eff A) (k : A → eff B) st b st' :
  (m ≫= k) st = inr (b, st') → ∃ a st1, m st = inr (a, st1) ∧ k a st1 = inr (b, st').
Proof.
  unfold mbind, eff_bind. destruct (m st) as [e|[a st1]] eqn:E; [done|]. eauto.
Qed.
End effects.

Arguments eff : clear implicits.

#[export] Hint Resolve safe_ret safe_modify safe_get safe_when : voip.

(** ** The search of a stack *)

Local Open Scope nat_scope.

Section search.
Context (stop : string → bool) (next : string → option (list string)).

(** [next id] is [None] for an id that is skipped without being marked.
    [true]: an id to stop at was popped. *)
Fixpoint search (fuel : nat) (stack seen : list string) : option (bool * list string) :=
  match fuel with
  | O => None
  | S fuel =>
      match stack with
      | [] => Some (false, seen)
      | id :: stack =>
          if stop id then Some (true, seen)
          else if includes seen id then search fuel stack seen
          else match next id with
               | None => search fuel stack seen
               | Some succ => search fuel (rev succ ++ stack) (seen ++ [id])
               end
      end
  end.

Definition edge (a b : string) : Prop := ∃ l, next a = Some l ∧ b ∈ l.

(** ** Fuel *)

(** The pushes still to come: those of the ids of [universe] not yet seen. *)
Definition pending (universe seen : list string) : nat :=
  list_sum (List.map (λ id, length (default [] (next id)))
    (List.filter (λ id, negb (includes seen id)) universe)).

Lemma pending_drop universe seen id :
  id ∈ universe → id ∉ seen →
  pending universe (seen ++ [id]) + length (default [] (next id)) ≤ pending universe seen.
Proof.
  intros Hid Hseen. unfold pending.
  assert (∀ l, list_sum (List.map (λ id, length (default [] (next id)))
      (List.filter (λ i, negb (includes (seen ++ [id]) i)) l))
    ≤ list_sum (List.map (λ id, length (default [] (next id)))
      (List.filter (λ i, negb (includes seen i)) l))) as Hle.
  { induction l as [|x l IH]; simpl; [lia|].
    destruct (includes seen x) eqn:E.
    - rewrite (proj2 (includes_true (seen ++ [id]) x)) by (apply includes_true in E; set_solver). simpl. done.
    - destruct (includes (seen ++ [id]) x); simpl; lia. }
  induction universe as [|x l IH]; simpl; [by apply not_elem_of_nil in Hid|].
  destruct (decide (x = id)) as [->|Hne].
  - rewrite (proj2 (includes_true (seen ++ [id]) id)) by set_solver.
    rewrite (proj2 (includes_false seen id)) by done. simpl. specialize (Hle l). lia.
  - apply elem_of_cons in Hid as [?|Hid]; [done|]. specialize (IH Hid).
    destruct (includes seen x) eqn:E.
    + rewrite (proj2 (includes_true (seen ++ [id]) x)) by (apply includes_true in E; set_solver). simpl. done.
    + rewrite (proj2 (includes_false (seen ++ [id]) x)) by (apply includes_false in E; set_solver).
      simpl. lia.
Qed.

(** Enough fuel: one turn per id on the stack and per push to come. *)
Lemma search_total universe : (∀ id l, next id = Some l → id ∈ universe) →
  ∀ fuel stack seen, length stack + pending universe seen < fuel →
  ∃ r, search fuel stack seen = Some r.
Proof.
  intros Huniv. induction fuel as [|fuel IH]; intros stack seen Hf; [lia|]. simpl.
  destruct stack as [|id stack]; [eauto|]. simpl in Hf.
  destruct (stop id); [eauto|]. destruct (includes seen id) eqn:E; [apply IH; lia|].
  destruct (next id) as [l|] eqn:En; [|apply IH; lia].
  apply IH. rewrite length_app, length_rev.
  pose proof (pending_drop universe seen id (Huniv _ _ En) (proj1 (includes_false _ _) E)) as Hp.
  rewrite En in Hp. simpl in Hp. lia.
Qed.

(** ** Result *)

(** Every successor of a seen id is seen, skipped, or still to be popped. *)
Definition frontier (stack seen : list string) : Prop :=
  ∀ a b, a ∈ seen → edge a b → b ∈ seen ∨ (next b = None ∧ stop b = false) ∨ b ∈ stack.

Lemma search_spec (R : string → Prop) fuel stack seen found seen' :
  (∀ a b, R a → edge a b → R b) → (∀ x, x ∈ stack → R x) → (∀ x, x ∈ seen → R x ∧ stop x = false ∧ is_Some (next x)) →
  frontier stack seen → NoDup seen →
  search fuel stack seen = Some (found, seen') →
  (found = true → ∃ x, R x ∧ stop x = true) ∧
  (∀ x, x ∈ seen' → R x ∧ stop x = false ∧ is_Some (next x)) ∧
  NoDup seen' ∧ (∀ x, x ∈ seen → x ∈ seen') ∧
  (found = false → frontier [] seen' ∧
     ∀ x, x ∈ stack → x ∈ seen' ∨ (next x = None ∧ stop x = false)).
Proof.
  intros HR. revert stack seen. induction fuel as [|fuel IH]; intros stack seen Hst Hse Hfr Hnd; [done|]. simpl.
  destruct stack as [|id stack].
  { intros [= <- <-]. split_and!; try done. intros _. split; [done|]. intros x []%not_elem_of_nil. }
  assert (R id) as Hid by (apply Hst; by apply elem_of_cons; left).
  assert (∀ x, x ∈ stack → R x) as Hst' by (intros x Hx; apply Hst; by apply elem_of_cons; right).
  destruct (stop id) eqn:Es.
  { intros [= <- <-]. split_and!; try done. intros _. eauto. }
  destruct (includes seen id) eqn:Ei.
  { apply includes_true in Ei. intros E. destruct (IH stack seen) as (H1 & H2 & H3 & H4 & H5); try done.
    - intros a b Ha Hab. destruct (Hfr a b Ha Hab) as [?|[?|[->|?]%elem_of_cons]]; auto.
    - split_and!; try done. intros Hf. destruct (H5 Hf) as [H6 H7]. split; [done|].
      intros x [->|Hx]%elem_of_cons; [left; auto|auto]. }
  apply includes_false in Ei. destruct (next id) as [l|] eqn:En.
  - intros E. destruct (IH (rev l ++ stack) (seen ++ [id])) as (H1 & H2 & H3 & H4 & H5); try done.
    + intros x. rewrite elem_of_app, list_elem_of_In, <- in_rev, <- list_elem_of_In.
      intros [Hx|Hx]; [|auto]. apply (HR id); [done|]. by exists l.
    + intros x [Hx| ->%list_elem_of_singleton]%elem_of_app; [auto|]. rewrite En. eauto.
    + intros a b [Ha| ->%list_elem_of_singleton]%elem_of_app Hab; rewrite !elem_of_app.
      * destruct (Hfr a b Ha Hab) as [?|[?|[->|?]%elem_of_cons]]; [by left; left|by right; left|left; right; set_solver|].
        right; right; by right.
      * right; right; left. destruct Hab as (l' & El & Hb). simplify_eq.
        rewrite list_elem_of_In, <- in_rev. by apply list_elem_of_In.
    + apply NoDup_app. split_and!; [done| |apply NoDup_singleton]. intros x Hx ->%list_elem_of_singleton. done.
    + split_and!; try done.
      * intros x Hx. apply H4. set_solver.
      * intros Hf. destruct (H5 Hf) as [H6 H7]. split; [done|].
        intros x [->|Hx]%elem_of_cons; [left; apply H4; set_solver|]. apply H7, elem_of_app. by right.
  - intros E. destruct (IH stack seen) as (H1 & H2 & H3 & H4 & H5); try done.
    + intros a b Ha Hab. destruct (Hfr a b Ha Hab) as [?|[?|[->|?]%elem_of_cons]]; auto.
    + split_and!; try done. intros Hf. destruct (H5 Hf) as [H6 H7]. split; [done|].
      intros x [->|Hx]%elem_of_cons; [right; done|auto].
Qed.

(** Searching from one id: either an id to stop at can be reached, or the
    ids seen are exactly those that can be reached and are not skipped. *)
Lemma search_from root fuel found seen :
  search fuel [root] [] = Some (found, seen) →
  (found = true → ∃ x, rtc edge root x ∧ stop x = true) ∧
  (found = false → NoDup seen ∧ ∀ x, x ∈ seen ↔ rtc edge root x ∧ is_Some (next x)) ∧
  (found = false → ∀ x, rtc edge root x → stop x = false).
Proof.
  intros E. destruct (search_spec (rtc edge root) fuel [root] [] found seen) as (H1 & H2 & H3 & _ & H5); try done.
  { intros a b Ha Hab. by eapply rtc_r. }
  { intros x ->%list_elem_of_singleton. done. }
  { intros x []%not_elem_of_nil. }
  { intros a b []%not_elem_of_nil. }
  { constructor. }
  assert (found = false → ∀ x, rtc edge root x → x ∈ seen ∨ (next x = None ∧ stop x = false)) as Hall.
  { intros Hf. destruct (H5 Hf) as [H6 H7]. intros x Hx.
    apply (@rtc_ind_r string edge (λ x, x ∈ seen ∨ (next x = None ∧ stop x = false)) root); [| |done].
    - apply H7. by apply elem_of_cons; left.
    - intros b c _ (l & El & Hc) [Hb|[Hb _]]; [|congruence].
      destruct (H6 b c Hb) as [?|[?|[]%not_elem_of_nil]]; [by exists l|by left|by right]. }
  split_and!; [done| |].
  - intros Hf. split; [done|]. intros x. split.
    + intros Hx. destruct (H2 x Hx) as (? & _ & ?). done.
    + intros [Hx [l El]]. destruct (Hall Hf x Hx) as [?|[? _]]; [done|congruence].
  - intros Hf x Hx. destruct (Hall Hf x Hx) as [Hin|[_ ?]]; [|done]. by apply H2 in Hin as (_ & ? & _).
Qed.
End search.
