(* ===== verification/Compile.v ===== *)
(** * The compile mirror ([flow/compile/ivr.ts])

    Validation of a draft graph and its plan preview.  Blocks whose id is the
    property name [__proto__] are outside the model: the plan's nodes are a
    plain object. *)
From S2P Require Import Prelude JsString JsValue Blocks Graph Format Policy IvrTypes Summary Effects Hours.

Local Open Scope string_scope.
Local Open Scope nat_scope.
Local Open Scope list_scope.

(** ** Types *)

Inductive Severity := sev_error | sev_warning.

#[export] Instance Severity_eq_dec : EqDecision Severity.
Proof. solve_decision. Defined.

Record ClientIssue := {
  ci_severity : Severity;
  ci_code : string;
  ci_message : string;
  ci_nodeId : option string;
  ci_handle : option string;
}.

Record PromptInfo := { pi_id : PromptId; pi_name : string }.

Record CompileContext := {
  cx_prompts : option (list (PromptId * PromptInfo));
  cx_destinations : option Destinations;
  cx_ownDids : list string;
  cx_maxBlocks : option Z;
}.

(** [None]: the call ends there. *)
Definition PlanRef : Set := option string.

Inductive PlanDest :=
  | dest_external (e164 : string)
  | dest_own (did : string) (product : option DestinationProduct).

Record PlanMenu := {
  pm_prompts : list PromptId;
  pm_digits : list (string * PlanRef);
  pm_timeout_ms : num;
  pm_retries : num;
  pm_invalid_prompts : list PromptId;
  pm_noinput_prompts : list PromptId;
  pm_on_noinput : PlanRef;
  pm_on_nomatch : PlanRef;
}.

Record PlanHours := {
  ph_tz : string;
  ph_weekly : list (DayKey * list range);
  ph_closed_dates : list string;
  ph_open : PlanRef;
  ph_closed : PlanRef;
}.

Record PlanTransfer := {
  pt_dest : PlanDest;
  pt_pass_caller_id : bool;
  pt_ring_timeout : num;
  pt_on_noanswer : PlanRef;
}.

Inductive PlanNode :=
  | pn_play (prompts : list PromptId) (next : PlanRef)
  | pn_menu (m : PlanMenu)
  | pn_hours (h : PlanHours)
  | pn_caller (mode : ConditionMode) (values : list string) (on_match nomatch : PlanRef)
  | pn_transfer (t : PlanTransfer)
  | pn_voicemail (did : string)
  | pn_hangup (prompts : list PromptId).

Record PlanPreview := {
  pl_start : PlanRef;
  pl_max_steps : Z;
  pl_max_seconds : Z;
  pl_prompts : list PromptId;
  pl_nodes : list (string * PlanNode);
}.

Record CompileResult := {
  cr_ok : bool;
  cr_issues : list ClientIssue;
  cr_plan : PlanPreview;
  cr_reachable : list string;
}.

(** ** State: [issues], [gotoProblems] and [promptOrder] *)

Record CState := {
  cs_issues : list ClientIssue;
  cs_gotoProblems : list (string * string);
  cs_promptOrder : list PromptId;
}.

Definition C (A : Type) : Type := eff CState A.

(** An absent or empty id is not written. *)
Definition truthy (o : option string) : option string :=
  match o with Some s => if s ==? "" then None else Some s | None => None end.

Definition add (severity : Severity) (code message : string) (nodeId handle : option string) : C unit :=
  modify (λ s, {| cs_issues := cs_issues s ++
                    [Build_ClientIssue severity code message (truthy nodeId) (truthy handle)];
                  cs_gotoProblems := cs_gotoProblems s; cs_promptOrder := cs_promptOrder s |}).

(** ** Helpers *)

Definition ownProduct (did : string) (d : option Destinations) : option DestinationProduct :=
  match find (λ g, existsb (λ n, dn_did n ==? did) (dg_numbers g)) (groups_of d) with
  | Some g => Some (dg_product g)
  | None => None
  end.

Definition findOwn (did : string) (d : option Destinations) : option (DestinationGroup * DestinationNumber) :=
  find_number did (groups_of d).

(** [new Map(nodes.map((n) => [n.id, n]))] *)
Definition nodes_by_id (nodes : list IvrNode) : list (string * IvrNode) :=
  om_of_list (List.map (λ n, (in_id n, n)) nodes).

Record KnownBlock := { kb_type : IvrNodeType; kb_config : obj }.
#[export] Instance KnownBlock_BlockLike : BlockLike KnownBlock :=
  { bl_type := kb_type; bl_config := kb_config }.

(** [outHandles(n)]: [undefined] for a type that is not in the catalog. *)
Definition handles_of (n : IvrNode) : option (list OutHandle) :=
  match in_type n with
  | Some t => Some (outHandles (Build_KnownBlock t (config_of n)))
  | None => None
  end.

Definition is_type (t : IvrNodeType) (n : IvrNode) : bool := in_type n ==? Some t.

(** ** Graph-level rules *)

Definition check_size (ctx : CompileContext) (nodes : list IvrNode) : C unit :=
  let maxBlocks := default LIMITS.blocks (cx_maxBlocks ctx) in
  let n := Z.of_nat (length nodes) in
  when (maxBlocks <? n)%Z
    (add sev_error "too_many_blocks"
       ("A flow can have up to " +:+ print_int maxBlocks +:+ " blocks. This one has " +:+ print_int n +:+ ".")
       None None).

Definition check_ids (nodes : list IvrNode) : C unit :=
  for_each (λ n, when (negb (ID_RE (in_id n)))
    (add sev_error "bad_id" "This block has an invalid id. Delete it and add it again." (Some (in_id n)) None)) nodes.

Definition entries_of (nodes : list IvrNode) : list IvrNode := List.filter (is_type entry) nodes.

Definition check_entries (nodes : list IvrNode) : C unit :=
  when (length (entries_of nodes) =? 0) (add sev_error "no_start" "The flow has no Start block." None None)
  ≫= λ _, for_each (λ extra, add sev_error "extra_start" "A flow has exactly one Start block." (Some (in_id extra)) None)
            (tail (entries_of nodes)).

(** One turn of the loop over the edges; [slot] is the map it fills. *)
Definition scan_edge (byId : list (string * IvrNode)) (slot : list (string * string)) (e : IvrEdge) : C (list (string * string)) :=
  match om_get (ie_source e) byId, om_get (ie_target e) byId with
  | Some source, Some target =>
      if is_type entry target then
        add sev_error "edge_into_start" "Nothing can connect into Start." (Some (ie_source e)) (Some (ie_sourceHandle e))
        ≫= λ _, mret slot
      else
        let key := slot_of (ie_source e) (ie_sourceHandle e) in
        if om_has key slot then
          add sev_error "duplicate_exit" "This exit is connected twice. Remove one connection."
            (Some (ie_source e)) (Some (ie_sourceHandle e))
          ≫= λ _, mret slot
        else
          of_option (handles_of source) ≫= λ handles,
          if negb (existsb (λ h, oh_id h ==? ie_sourceHandle e) handles) then
            add sev_warning "stale_exit"
              (match digitOfHandle (Some (ie_sourceHandle e)) with
               | Some digit => "Key " +:+ digit +:+ " is no longer in this menu, so its connection is ignored."
               | None => "A connection leaves from an exit this block no longer has; it is ignored."
               end) (Some (ie_source e)) (Some (ie_sourceHandle e))
            ≫= λ _, mret slot
          else mret (om_set key (ie_target e) slot)
  | _, _ => mret slot
  end.

(** ** Go to resolution *)

(** [targetNodeId], [undefined] when empty. *)
Definition goto_target (n : IvrNode) : option string := truthy (Some (gc_targetNodeId (as_goto (config_of n)))).

(** The pointer, and the Go to blocks of a loop met on the way. *)
Fixpoint resolve_walk (fuel : nat) (byId : list (string * IvrNode)) (id : option string) (seen : list string)
    : option (PlanRef * list string) :=
  match id with
  | None => Some (None, [])
  | Some id =>
      match fuel with
      | O => None
      | S fuel =>
          match om_get id byId with
          | None => Some (None, [])
          | Some node =>
              if negb (is_type goto node) then
                Some (if is_type entry node then None else Some (in_id node), [])
              else if includes seen id then Some (None, seen)
              else resolve_walk fuel byId (goto_target node) (seen ++ [id])
          end
      end
  end.

Definition resolve_fuel (byId : list (string * IvrNode)) : nat := S (length byId).

Definition add_goto_problems (looped : list string) : C unit :=
  modify (λ s, {| cs_issues := cs_issues s;
                  cs_gotoProblems := fold_left (λ m g, om_set g "goto_loop" m) looped (cs_gotoProblems s);
                  cs_promptOrder := cs_promptOrder s |}).

Definition resolve (byId : list (string * IvrNode)) (targetId : option string) : C PlanRef :=
  of_fuel (resolve_walk (resolve_fuel byId) byId targetId []) ≫= λ '(r, looped),
  add_goto_problems looped ≫= λ _, mret r.

(** What the block checks read. *)
Record Env := {
  ev_ctx : CompileContext;
  ev_byId : list (string * IvrNode);
  ev_slot : list (string * string);
}.

Definition slot_get (env : Env) (nodeId handle : string) : option string :=
  om_get (slot_of nodeId handle) (ev_slot env).
Definition slot_has (env : Env) (nodeId handle : string) : bool :=
  om_has (slot_of nodeId handle) (ev_slot env).

Definition ptr (env : Env) (nodeId handle : string) : C PlanRef :=
  resolve (ev_byId env) (slot_get env nodeId handle).

(** ** Reachability over edges and Go to jumps *)

Definition nonempty (s : string) : bool := s !=? "".

Definition jump_of (byId : list (string * IvrNode)) (node : IvrNode) : list string :=
  if is_type goto node then
    match goto_target node with
    | Some t => if om_has t byId then [t] else []
    | None => []
    end
  else [].

(** What a block pushes, in order.  The exits of an unknown block throw: the
    search treats it as having none, and [reachable_from] throws when one was
    met; nothing the search did before can be observed. *)
Definition pushes (env : Env) (id : string) (node : IvrNode) : list string :=
  List.filter nonempty (omap (λ h, slot_get env id (oh_id h)) (default [] (handles_of node)))
  ++ jump_of (ev_byId env) node.

Definition next_of (env : Env) (id : string) : option (list string) :=
  pushes env id <$> om_get id (ev_byId env).

Definition reach_fuel (env : Env) : nat :=
  2 + list_sum (List.map (λ id, length (default [] (next_of env id))) (om_keys (ev_byId env))).

Definition unknown_block (env : Env) (id : string) : bool :=
  match om_get id (ev_byId env) with Some n => in_type n ==? None | None => false end.

Definition reachable_from (env : Env) (entry : option IvrNode) : C (list string) :=
  match entry with
  | None => mret []
  | Some e =>
      of_fuel (search (λ _, false) (next_of env) (reach_fuel env) [in_id e] []) ≫= λ '(_, seen),
      if existsb (unknown_block env) seen then throw TypeError else mret seen
  end.

Definition warn_unreachable (reachable : list string) (n : IvrNode) : C unit :=
  if is_type entry n || includes reachable (in_id n) then mret tt
  else
    of_option (blockTitle n) ≫= λ title,
    add sev_warning "unreachable" ("“" +:+ title +:+ "” isn’t connected, so callers never reach it.")
      (Some (in_id n)) None.

(** ** Per-block checks *)

Definition push_prompt (id : PromptId) : C unit :=
  modify (λ s, {| cs_issues := cs_issues s; cs_gotoProblems := cs_gotoProblems s;
                  cs_promptOrder := if includes (cs_promptOrder s) id then cs_promptOrder s
                                    else cs_promptOrder s ++ [id] |}).

Definition prompt_known (ctx : CompileContext) (id : PromptId) : bool :=
  match cx_prompts ctx with Some m => om_has id m | None => true end.

Definition takePrompts (env : Env) (l : option (list PromptId)) (nodeId what : string) : C (list PromptId) :=
  let out := default [] l in
  when (LIMITS.promptsPerBlock <? length out)
    (add sev_error "too_many_prompts"
       (what +:+ ": up to " +:+ print_int (Z.of_nat LIMITS.promptsPerBlock) +:+ " messages.") (Some nodeId) None)
  ≫= λ _, for_each (λ id,
      when (negb (prompt_known (ev_ctx env) id))
        (add sev_error "prompt_missing" (what +:+ " uses a message that was deleted. Choose another one.") (Some nodeId) None)
      ≫= λ _, push_prompt id) out
  ≫= λ _, mret out.

Definition exitWarning (env : Env) (nodeId handle message : string) : C unit :=
  when (negb (slot_has env nodeId handle)) (add sev_warning "exit_hangs_up" message (Some nodeId) (Some handle)).

(** [c >= min && c <= max] *)
Definition within (b : Z * Z) (n : num) : bool := num_le (num_of_Z b.1) n && num_le n (num_of_Z b.2).

Definition error_if (b : bool) (code message : string) (nodeId : string) (handle : option string) : C unit :=
  when b (add sev_error code message (Some nodeId) handle).
Definition warning_if (b : bool) (code message : string) (nodeId : string) (handle : option string) : C unit :=
  when b (add sev_warning code message (Some nodeId) handle).

Definition compile_entry (env : Env) (id : string) : C (option PlanNode) :=
  error_if (negb (slot_has env id NEXT)) "start_unconnected" "Connect Start to the first block callers hear." id (Some NEXT)
  ≫= λ _, mret None.

Definition compile_play (env : Env) (id : string) (c : PlayConfig) : C (option PlanNode) :=
  error_if (length (pc_prompts c) =? 0) "play_no_prompts" "Choose at least one message to play." id None
  ≫= λ _, takePrompts env (Some (pc_prompts c)) id "This block"
  ≫= λ prompts, exitWarning env id NEXT "After this message the call hangs up. Connect “Then” to keep going."
  ≫= λ _, ptr env id NEXT
  ≫= λ next, mret (Some (pn_play prompts next)).

(** One turn of the loop over the digits; [map] is the object it fills. *)
Definition compile_digit (env : Env) (id : string) (map : list (string * PlanRef)) (d : string) : C (list (string * PlanRef)) :=
  let handle := digitHandle d in
  error_if (negb (slot_has env id handle)) "menu_key_unconnected"
    ("Press " +:+ d +:+ " isn’t connected to anything.") id (Some handle)
  ≫= λ _, ptr env id handle
  ≫= λ r, mret (om_set d r map).

(** [new Set(digits).size !== digits.length] *)
Definition has_duplicates (l : list string) : bool :=
  negb (length (om_keys (om_of_list (List.map (λ d, (d, tt)) l))) =? length l).

Definition check_menu (id : string) (c : MenuConfig) (digits : list string) : C unit :=
  error_if (length (mc_prompts c) =? 0) "menu_no_prompts" "Choose the message that lists the options." id None
  ≫= λ _, error_if (length digits <? LIMITS.digitsMin) "menu_no_keys" "Add at least one key callers can press." id None
  ≫= λ _, error_if (LIMITS.digitsMax <? length digits) "menu_too_many_keys" "A menu can offer up to 12 keys." id None
  ≫= λ _, error_if (has_duplicates digits) "menu_duplicate_key" "Each key can appear once." id None
  ≫= λ _, error_if (negb (within LIMITS.timeoutSec (mc_timeoutSec c))) "menu_timeout"
            "Wait between 1 and 30 seconds for a key." id None
  ≫= λ _, error_if (negb (is_integer (mc_retries c) && within LIMITS.retries (mc_retries c))) "menu_retries"
            "Ask again between 0 and 5 times." id None.

Definition compile_menu (env : Env) (id : string) (c : MenuConfig) : C (option PlanNode) :=
  let digits := List.filter isMenuDigit (mc_digits c) in
  check_menu id c digits
  ≫= λ _, fold_each (compile_digit env id) [] digits
  ≫= λ map, exitWarning env id NO_INPUT "If the caller presses nothing, the call hangs up."
  ≫= λ _, exitWarning env id NO_MATCH "If the caller presses a wrong key, the call hangs up."
  ≫= λ _, takePrompts env (Some (mc_prompts c)) id "This menu"
  ≫= λ prompts, takePrompts env (mc_invalidPrompts c) id "The wrong-key message"
  ≫= λ invalid, takePrompts env (mc_noInputPrompts c) id "The no-key message"
  ≫= λ noinput, ptr env id NO_INPUT
  ≫= λ on_noinput, ptr env id NO_MATCH
  ≫= λ on_nomatch, mret (Some (pn_menu
       {| pm_prompts := prompts; pm_digits := map;
          pm_timeout_ms := math_round (num_scale 1000 (mc_timeoutSec c)); pm_retries := mc_retries c;
          pm_invalid_prompts := invalid; pm_noinput_prompts := noinput;
          pm_on_noinput := on_noinput; pm_on_nomatch := on_nomatch |})).

(** One range of a day; [mins] is the array it extends. *)
Definition compile_range (id : string) (day : DayKey) (mins : list range) (r : TimeRange) : C (list range) :=
  match toMinutes r.1, toMinutes r.2 with
  | Some s, Some e =>
      if (s =? 1440)%Z then
        add sev_error "hours_bad_time" ((DAY_LABELS day).2 +:+ ": use times like 09:00 and 17:00.") (Some id) None
        ≫= λ _, mret mins
      else if (e <=? s)%Z then
        add sev_error "hours_backwards" ((DAY_LABELS day).2 +:+ ": each range must end after it starts.") (Some id) None
        ≫= λ _, mret mins
      else mret (mins ++ [(s, e)])
  | _, _ =>
      add sev_error "hours_bad_time" ((DAY_LABELS day).2 +:+ ": use times like 09:00 and 17:00.") (Some id) None
      ≫= λ _, mret mins
  end.

Definition compile_day (id : string) (c : ScheduleConfig) (weekly : list (DayKey * list range)) (day : DayKey)
    : C (list (DayKey * list range)) :=
  let ranges := sc_weekly c day in
  error_if (LIMITS.rangesPerDay <? length ranges) "hours_too_many"
    ((DAY_LABELS day).2 +:+ ": up to 4 time ranges.") id None
  ≫= λ _, fold_each (compile_range id day) [] ranges
  ≫= λ mins, mret (weekly ++ [(day, mergeRanges mins)]).

Definition compile_schedule (env : Env) (id : string) (c : ScheduleConfig) : C (option PlanNode) :=
  error_if (negb (isIvrTimezone (sc_tz c))) "hours_timezone" "Choose a time zone." id None
  ≫= λ _, fold_each (compile_day id c) [] DAY_KEYS
  ≫= λ weekly, warning_if (negb (existsb (λ d, negb (length d.2 =? 0)) weekly)) "hours_never_open"
       "No open hours are set, so callers always take the Closed path." id None
  ≫= λ _, let dates := sort_strings (unique (sc_closedDates c)) in
     for_each (λ d, error_if (negb (isRealDate d)) "hours_bad_date" ("“" +:+ d +:+ "” isn’t a valid date.") id None) dates
  ≫= λ _, exitWarning env id OPEN "While you are open, the call hangs up. Connect “Open”."
  ≫= λ _, exitWarning env id CLOSED "While you are closed, the call hangs up. Connect “Closed”."
  ≫= λ _, ptr env id OPEN
  ≫= λ open_, ptr env id CLOSED
  ≫= λ closed, mret (Some (pn_hours
       {| ph_tz := sc_tz c; ph_weekly := weekly; ph_closed_dates := List.filter isRealDate dates;
          ph_open := open_; ph_closed := closed |})).

Definition value_mode (m : ConditionMode) : ValueMode :=
  match m with cm_equals => vm_equals | _ => vm_prefix end.

Definition check_values (id : string) (c : ConditionConfig) : C unit :=
  if cc_mode c ==? cm_anonymous then
    warning_if (negb (length (cc_values c) =? 0)) "caller_values_ignored"
      "The numbers listed are ignored when checking for a withheld caller ID." id None
  else
    error_if (length (cc_values c) <? LIMITS.conditionValues.1) "caller_no_values" "Add at least one number to check." id None
    ≫= λ _, error_if (LIMITS.conditionValues.2 <? length (cc_values c)) "caller_too_many" "Check up to 50 numbers." id None
    ≫= λ _, for_each (λ v,
         match callerValueProblem v (value_mode (cc_mode c)) with
         | Some problem => add sev_error "caller_bad_value" problem (Some id) None
         | None => mret tt
         end) (cc_values c).

Definition compile_condition (env : Env) (id : string) (c : ConditionConfig) : C (option PlanNode) :=
  check_values id c
  ≫= λ _, exitWarning env id MATCH "When the number matches, the call hangs up. Connect “Matches”."
  ≫= λ _, exitWarning env id NO_MATCH "When the number doesn’t match, the call hangs up. Connect “Doesn’t match”."
  ≫= λ _, ptr env id MATCH
  ≫= λ on_match, ptr env id NO_MATCH
  ≫= λ nomatch, mret (Some (pn_caller (cc_mode c)
       (if cc_mode c ==? cm_anonymous then [] else cc_values c) on_match nomatch)).

Definition compile_own (env : Env) (id did : string) : C (option PlanDest) :=
  let ctx := ev_ctx env in
  if did ==? "" then
    add sev_error "transfer_no_target" "Choose where to transfer the call." (Some id) None ≫= λ _, mret None
  else if includes (cx_ownDids ctx) did then
    add sev_error "transfer_self" "A transfer can’t ring this IVR’s own number — that would loop the caller back here."
      (Some id) None ≫= λ _, mret None
  else
    let own := findOwn did (cx_destinations ctx) in
    match cx_destinations ctx, own with
    | Some _, None =>
        add sev_error "transfer_not_owned"
          (prettyNumber did +:+ " is no longer one of your numbers. Choose another destination.") (Some id) None
    | _, Some (_, number) =>
        warning_if (negb (dn_enabled number)) "transfer_target_off"
          (default (prettyNumber did) (dn_name number) +:+ " is switched off, so this transfer will go to “No answer”.") id None
    | None, None => mret tt
    end
    ≫= λ _, mret (Some (dest_own did (ownProduct did (cx_destinations ctx)))).

Definition compile_external (id number : string) : C (option PlanDest) :=
  let check := checkExternalNumber number in
  match ec_problem check with
  | Some problem =>
      add sev_error ("transfer_" +:+ problem_name problem)
        (default "That number can’t be dialed." (ec_message check)) (Some id) None ≫= λ _, mret None
  | None => mret (dest_external <$> ec_e164 check)
  end.

Definition compile_dial (env : Env) (id : string) (c : DialConfig) : C (option PlanNode) :=
  match dc_target c with
  | own_target did => compile_own env id did
  | external_target number => compile_external id number
  end
  ≫= λ dest, error_if (negb (within LIMITS.ringTimeoutSec (dc_ringTimeoutSec c))) "transfer_ring_time"
       "Ring for between 5 and 120 seconds." id None
  ≫= λ _, exitWarning env id NO_ANSWER
       "If nobody answers, the call hangs up. Connect “No answer or busy”, for example to voicemail."
  ≫= λ _, match dest with
     | None => mret None
     | Some dest =>
         ptr env id NO_ANSWER ≫= λ on_noanswer,
         mret (Some (pn_transfer {| pt_dest := dest; pt_pass_caller_id := dc_passCallerId c;
                                    pt_ring_timeout := dc_ringTimeoutSec c; pt_on_noanswer := on_noanswer |}))
     end.

Definition compile_voicemail (env : Env) (id : string) (c : VoicemailConfig) : C (option PlanNode) :=
  let ctx := ev_ctx env in
  let did := vc_did c in
  if did ==? "" then
    add sev_error "voicemail_no_box" "Choose a mailbox." (Some id) None ≫= λ _, mret None
  else
    let own := findOwn did (cx_destinations ctx) in
    let foreign := match own with Some (g, _) => negb (dg_product g ==? voicemail_box) | None => true end in
    match cx_destinations ctx, own with
    | Some _, _ =>
        if foreign then
          add sev_error "voicemail_not_owned" "That mailbox is no longer on your account. Choose another one." (Some id) None
        else
          warning_if (match own with Some (_, n) => negb (dn_enabled n) | None => false end) "voicemail_off"
            "That mailbox is switched off, so callers can’t leave a message." id None
    | None, Some (_, n) =>
        warning_if (negb (dn_enabled n)) "voicemail_off"
          "That mailbox is switched off, so callers can’t leave a message." id None
    | None, None => mret tt
    end
    ≫= λ _, mret (Some (pn_voicemail did)).

Definition compile_goto (env : Env) (id : string) (c : GotoConfig) : C (option PlanNode) :=
  let target := gc_targetNodeId c in
  match (if target ==? "" then None else om_get target (ev_byId env)) with
  | None =>
      if target ==? "" then add sev_error "goto_no_target" "Choose the block to go to." (Some id) None
      else add sev_error "goto_missing" "The block this went to was deleted. Choose another one." (Some id) None
  | Some t =>
      if is_type entry t then
        add sev_error "goto_start" "Go to can’t point at Start. Point it at the first block instead." (Some id) None
      else error_if (in_id t ==? id) "goto_self" "A Go to block can’t point at itself." id None
  end
  ≫= λ _, mret None.

Definition compile_hangup (env : Env) (id : string) (c : HangupConfig) : C (option PlanNode) :=
  takePrompts env (hc_prompts c) id "This block" ≫= λ prompts, mret (Some (pn_hangup prompts)).

Definition compile_block (env : Env) (n : IvrNode) : C (option PlanNode) :=
  let id := in_id n in
  let config := config_of n in
  match in_type n with
  | None => mret None
  | Some entry => compile_entry env id
  | Some play => compile_play env id (as_play config)
  | Some menu => compile_menu env id (as_menu config)
  | Some schedule => compile_schedule env id (as_schedule config)
  | Some condition => compile_condition env id (as_condition config)
  | Some dial => compile_dial env id (as_dial config)
  | Some voicemail => compile_voicemail env id (as_voicemail config)
  | Some goto => compile_goto env id (as_goto config)
  | Some hangup => compile_hangup env id (as_hangup config)
  end.

(** One turn of the loop over the blocks; [planNodes] is the object it fills. *)
Definition compile_step (env : Env) (reachable : list string) (planNodes : list (string * PlanNode)) (n : IvrNode)
    : C (list (string * PlanNode)) :=
  if negb (includes reachable (in_id n)) then mret planNodes
  else
    compile_block env n ≫= λ p,
    mret (match p with Some p => om_set (in_id n) p planNodes | None => planNodes end).

(** Loops of Go to blocks that only jumps reach. *)
Definition check_loops (env : Env) (reachable : list string) (nodes : list IvrNode) : C unit :=
  for_each (λ n, if is_type goto n && includes reachable (in_id n)
                 then resolve (ev_byId env) (Some (in_id n)) ≫= λ _, mret tt else mret tt) nodes
  ≫= λ _, get_state
  ≫= λ s, for_each (λ p, when (p.2 ==? "goto_loop")
       (add sev_error "goto_loop" "These Go to blocks point at each other in a circle." (Some p.1) None)) (cs_gotoProblems s).

(** Everything up to the pointer of Start: what the blocks read, the blocks
    reached and the plan's nodes. *)
Definition compile_body (graph : IvrGraph) (ctx : CompileContext) : C (Env * list string * list (string * PlanNode)) :=
  let nodes := ig_nodes graph in
  let byId := nodes_by_id nodes in
  check_size ctx nodes
  ≫= λ _, check_ids nodes
  ≫= λ _, check_entries nodes
  ≫= λ _, fold_each (scan_edge byId) [] (ig_edges graph)
  ≫= λ slot, let env := Build_Env ctx byId slot in
     reachable_from env (head (entries_of nodes))
  ≫= λ reachable, for_each (warn_unreachable reachable) nodes
  ≫= λ _, fold_each (compile_step env reachable) [] nodes
  ≫= λ planNodes, check_loops env reachable nodes
  ≫= λ _, mret (env, reachable, planNodes).

Definition compile_start (env : Env) (entry : option IvrNode) : C PlanRef :=
  match entry with Some e => ptr env (in_id e) NEXT | None => mret None end.

Definition compile_run (graph : IvrGraph) (ctx : CompileContext) : C (PlanPreview * list string) :=
  compile_body graph ctx
  ≫= λ '(env, reachable, planNodes), compile_start env (head (entries_of (ig_nodes graph)))
  ≫= λ start, get_state
  ≫= λ s, mret ({| pl_start := start; pl_max_steps := 200; pl_max_seconds := 1800;
                   pl_prompts := cs_promptOrder s; pl_nodes := planNodes |}, reachable).

Definition is_error (i : ClientIssue) : bool := ci_severity i ==? sev_error.

Definition compileIvr (graph : IvrGraph) (ctx : CompileContext) : stop + CompileResult :=
  match compile_run graph ctx (Build_CState [] [] []) with
  | inl e => inl e
  | inr ((plan, reachable), s) =>
      inr {| cr_ok := negb (existsb is_error (cs_issues s)); cr_issues := cs_issues s;
             cr_plan := plan; cr_reachable := reachable |}
  end.

Definition typeLabel (t : IvrNodeType) : string := bm_label (BLOCKS t).

(** ** Lemmas: maps *)

Lemma nodes_by_id_get nodes id n :
  om_get id (nodes_by_id nodes) = Some n → n ∈ nodes ∧ in_id n = id.
Proof. intros (m & E & Hm)%om_get_Some_elem%om_of_list_elem%elem_of_lmap. by simplify_eq. Qed.

Lemma nodes_by_id_node nodes n :
  NoDup (List.map in_id nodes) → n ∈ nodes → om_get (in_id n) (nodes_by_id nodes) = Some n.
Proof.
  intros Hids Hn. unfold nodes_by_id. rewrite om_of_list_NoDup by (unfold om_keys; by rewrite List.map_map).
  apply om_get_elem; [unfold om_keys; by rewrite List.map_map|]. apply elem_of_lmap. eauto.
Qed.

Lemma nodes_by_id_NoDup nodes : NoDup (om_keys (nodes_by_id nodes)).
Proof. apply om_of_list_keys_NoDup. Qed.

Lemma nodes_by_id_keys nodes id : id ∈ om_keys (nodes_by_id nodes) ↔ id ∈ List.map in_id nodes.
Proof. unfold nodes_by_id. rewrite om_of_list_keys. unfold om_keys. by rewrite List.map_map. Qed.

(** ** Lemmas: termination *)

Lemma resolve_walk_total fuel byId id seen :
  NoDup seen → (∀ x, x ∈ seen → x ∈ om_keys byId) → length byId < fuel + length seen →
  is_Some (resolve_walk fuel byId id seen).
Proof.
  revert id seen. induction fuel as [|fuel IH]; intros [id|] seen Hnd Hin Hl; simpl; eauto.
  - exfalso. assert (length seen ≤ length byId); [|simpl in Hl; lia].
    rewrite <- (length_map fst byId). apply NoDup_submseteq in Hin; [|done]. by apply submseteq_length.
  - destruct (om_get id byId) as [node|] eqn:E; [|eauto].
    destruct (negb (is_type goto node)); [eauto|].
    destruct (includes seen id) eqn:Ei; [eauto|]. apply includes_false in Ei.
    apply IH.
    + apply NoDup_app. split_and!; [done| |apply NoDup_singleton]. by intros x Hx ->%list_elem_of_singleton.
    + intros x [Hx| ->%list_elem_of_singleton]%elem_of_app; [auto|].
      apply om_has_true. unfold om_has. by rewrite E.
    + rewrite length_app. simpl. lia.
Qed.

Lemma resolve_total byId id : is_Some (resolve_walk (resolve_fuel byId) byId id []).
Proof. apply resolve_walk_total; [constructor|intros x []%not_elem_of_nil|unfold resolve_fuel; simpl; lia]. Qed.

Lemma next_of_universe env id l : next_of env id = Some l → id ∈ om_keys (ev_byId env).
Proof.
  unfold next_of. destruct (om_get id (ev_byId env)) eqn:E; [|done]. intros _.
  apply om_has_true. unfold om_has. by rewrite E.
Qed.

Lemma reach_total env root :
  ∃ r, search (λ _, false) (next_of env) (reach_fuel env) [root] [] = Some r.
Proof.
  apply (search_total _ _ (om_keys (ev_byId env))); [apply next_of_universe|].
  unfold pending, reach_fuel. rewrite lfilter_all by done. simpl. lia.
Qed.

(** ** Lemmas: the compiler stops on no exception when every type is known *)

#[local] Hint Resolve safe_bind safe_for_each safe_of_fuel safe_of_option : voip.

Lemma safe_add sev code msg n h : safe (add sev code msg n h).
Proof. apply safe_modify. Qed.

Lemma safe_error_if b code msg n h : safe (error_if b code msg n h).
Proof. apply safe_when, safe_add. Qed.

Lemma safe_warning_if b code msg n h : safe (warning_if b code msg n h).
Proof. apply safe_when, safe_add. Qed.

#[local] Hint Resolve safe_add safe_error_if safe_warning_if : voip.

Lemma safe_exitWarning env n h m : safe (exitWarning env n h m).
Proof. apply safe_when, safe_add. Qed.

Lemma safe_resolve byId id : safe (resolve byId id).
Proof.
  unfold resolve. apply safe_bind; [apply safe_of_fuel, resolve_total|]. intros [r l].
  apply safe_bind; [apply safe_modify|]. auto with voip.
Qed.

Lemma safe_ptr env n h : safe (ptr env n h).
Proof. apply safe_resolve. Qed.

Lemma safe_takePrompts env l n w : safe (takePrompts env l n w).
Proof.
  unfold takePrompts. apply safe_bind; [auto with voip|]. intros _.
  apply safe_bind; [|auto with voip]. apply safe_for_each. intros x _.
  apply safe_bind; [auto with voip|]. intros _. apply safe_modify.
Qed.

Lemma safe_fold_each {A B} (f : B → A → C B) acc l : (∀ b x, safe (f b x)) → safe (fold_each f acc l).
Proof.
  intros Hf. apply (returns_safe (λ _, True)). apply returns_fold_each; [done|].
  intros. apply returns_of_safe; auto.
Qed.

#[local] Hint Resolve safe_exitWarning safe_resolve safe_ptr safe_takePrompts safe_fold_each : voip.

(** Runs through a straight line of safe calls. *)
Ltac safe_steps :=
  repeat first
    [ apply safe_bind; [solve [auto with voip]|intros ?]
    | solve [auto with voip] ].

Lemma safe_compile_menu env id c : safe (compile_menu env id c).
Proof.
  unfold compile_menu, check_menu. apply safe_bind; [safe_steps|]. intros _.
  apply safe_bind; [apply safe_fold_each; intros b x; unfold compile_digit; safe_steps|]. intros ?. safe_steps.
Qed.

Lemma safe_compile_schedule env id c : safe (compile_schedule env id c).
Proof.
  unfold compile_schedule. apply safe_bind; [auto with voip|]. intros _.
  apply safe_bind.
  { apply safe_fold_each. intros b d. unfold compile_day. apply safe_bind; [auto with voip|]. intros _.
    apply safe_bind; [|auto with voip]. apply safe_fold_each. intros m r. unfold compile_range.
    destruct (toMinutes r.1), (toMinutes r.2); repeat case_match; safe_steps. }
  intros ?. apply safe_bind; [auto with voip|]. intros _.
  apply safe_bind; [apply safe_for_each; auto with voip|]. intros _. safe_steps.
Qed.

Lemma safe_compile_block env n : safe (compile_block env n).
Proof.
  unfold compile_block. destruct (in_type n) as [[]|]; [| | | | | | | | |auto with voip];
    auto using safe_compile_menu, safe_compile_schedule.
  - unfold compile_entry. safe_steps.
  - unfold compile_play. safe_steps.
  - unfold compile_condition. apply safe_bind; [|intros _; safe_steps].
    unfold check_values. case_match; [auto with voip|]. safe_steps.
    apply safe_for_each. intros v _. case_match; auto with voip.
  - unfold compile_dial. apply safe_bind.
    + unfold compile_own, compile_external. repeat case_match; safe_steps.
    + intros [dest|]; safe_steps.
  - unfold compile_voicemail. repeat case_match; safe_steps.
  - unfold compile_goto. apply safe_bind; [|auto with voip]. repeat case_match; auto with voip.
  - unfold compile_hangup. safe_steps.
Qed.

Definition well_typed (graph : IvrGraph) : Prop := ∀ n, n ∈ ig_nodes graph → titled n.

Lemma returns_scan_edge graph slot e :
  well_typed graph → safe (scan_edge (nodes_by_id (ig_nodes graph)) slot e).
Proof.
  intros Hty. unfold scan_edge. destruct (om_get (ie_source e) _) as [s|] eqn:Es; [|auto with voip].
  destruct (om_get (ie_target e) _) as [t|]; [|auto with voip].
  case_match; [safe_steps|]. case_match; [safe_steps|].
  apply safe_bind; [|intros h; case_match; safe_steps].
  apply safe_of_option. apply nodes_by_id_get in Es as [Hs _]. destruct (Hty s Hs) as [[ty Ety] _].
  unfold handles_of. rewrite Ety. eauto.
Qed.

Lemma safe_reachable graph ctx slot e :
  well_typed graph → safe (reachable_from (Build_Env ctx (nodes_by_id (ig_nodes graph)) slot) e).
Proof.
  intros Hty. unfold reachable_from. destruct e as [e|]; [|auto with voip].
  apply safe_bind; [apply safe_of_fuel, reach_total|]. intros [found seen].
  destruct (existsb _ seen) eqn:E; [|auto with voip].
  apply existsb_elem_of in E as (id & _ & Hu). exfalso. unfold unknown_block in Hu. simpl in Hu.
  destruct (om_get id _) as [n|] eqn:En; [|done]. apply nodes_by_id_get in En as [Hn _].
  destruct (Hty n Hn) as [[ty Ety] _]. rewrite Ety in Hu. by apply bool_decide_eq_true in Hu.
Qed.

Lemma safe_compile_body graph ctx : well_typed graph → safe (compile_body graph ctx).
Proof.
  intros Hty. unfold compile_body, check_size, check_ids, check_entries, check_loops. cbn zeta.
  apply safe_bind; [auto with voip|]. intros _.
  apply safe_bind; [apply safe_for_each; auto with voip|]. intros _.
  apply safe_bind; [apply safe_bind; [auto with voip|]; intros _; apply safe_for_each; auto with voip|]. intros _.
  apply safe_bind; [apply safe_fold_each; intros; by apply returns_scan_edge|]. intros slot. cbn zeta.
  apply safe_bind; [by apply safe_reachable|]. intros reachable.
  apply safe_bind.
  { apply safe_for_each. intros n Hn. unfold warn_unreachable. case_match; [auto with voip|].
    apply safe_bind; [|auto with voip]. apply safe_of_option.
    destruct (blockTitle_titled n (Hty n Hn)) as (s & -> & _). eauto. }
  intros _. apply safe_bind.
  { apply safe_fold_each. intros b n. unfold compile_step. case_match; [auto with voip|].
    apply safe_bind; [apply safe_compile_block|]. auto with voip. }
  intros nodes. apply safe_bind; [|auto with voip].
  apply safe_bind; [apply safe_for_each; intros; case_match; safe_steps|]. intros _.
  apply safe_bind; [auto with voip|]. intros s. apply safe_for_each. auto with voip.
Qed.

(** C4 Compiling a draft whose blocks are all of known types always gives a
    result: the Go to chains and the search end, and nothing throws. *)
Theorem compileIvr_total graph ctx : well_typed graph → ∃ r, compileIvr graph ctx = inr r.
Proof.
  intros Hty. assert (safe (compile_run graph ctx)) as Hs.
  { unfold compile_run. apply safe_bind; [by apply safe_compile_body|]. intros [[env reachable] nodes].
    apply safe_bind; [unfold compile_start; case_match; auto with voip|]. intros start. safe_steps. }
  destruct (Hs (Build_CState [] [] [])) as ([plan reachable] & s & E).
  unfold compileIvr. rewrite E. eauto.
Qed.

(** ** Witnesses *)

Lemma compileIvr_total_witness :
  ∃ r, compileIvr {| ig_nodes := [{| in_id := "s"; in_type := Some entry; in_data := Some (Build_NodeData VUndef []) |}];
                     ig_edges := [] |} (Build_CompileContext None None [] None) = inr r.
Proof.
  apply compileIvr_total. intros n ->%list_elem_of_singleton. split; [eauto|].
  eexists. split; [reflexivity|done].
Defined.
