(* ===== verification/CompileOk.v ===== *)
(** * What an accepted draft promises ([flow/compile/ivr.ts])

    When the compiler reports no error, its plan keeps the executor's
    contract: every pointer leads to a plan node, and every node is within
    the contract's bounds. *)
From S2P Require Import Prelude JsString JsValue Blocks Graph Format Policy IvrTypes Summary Effects Hours Compile.

Local Open Scope string_scope.
Local Open Scope nat_scope.
Local Open Scope list_scope.

(** ** Reasoning about runs that report nothing

    [pass m Q]: if the state after [m] is clean, so was the state before, and
    the result satisfies [Q], which may depend on the prompts collected by
    the end of the run. *)

Definition clean (s : CState) : Prop :=
  existsb is_error (cs_issues s) = false ∧ cs_gotoProblems s = [].

(** Only loops are recorded as Go to problems. *)
Definition loop_codes (s : CState) : Prop := ∀ p, p ∈ cs_gotoProblems s → p.2 = "goto_loop".

Definition pass {A} (m : C A) (Q : A → list PromptId → Prop) : Prop :=
  ∀ st a st', m st = inr (a, st') →
    cs_promptOrder st ⊆ cs_promptOrder st' ∧ (loop_codes st → loop_codes st') ∧
    (clean st' → clean st ∧ ∀ o, cs_promptOrder st' ⊆ o → Q a o).

Lemma pass_ret {A} (a : A) (Q : A → list PromptId → Prop) : (∀ o, Q a o) → pass (mret a) Q.
Proof. intros HQ st b st' [= <- <-]. done. Qed.

Lemma pass_bind {A B} (m : C A) (k : A → C B) Q1 (Q2 : B → list PromptId → Prop) :
  pass m Q1 → (∀ a, pass (k a) (λ b o, Q1 a o → Q2 b o)) → pass (m ≫= k) Q2.
Proof.
  intros Hm Hk st b st' (a & st1 & E1 & E2)%bind_inr.
  destruct (Hm _ _ _ E1) as (Ho1 & Hl1 & H1). destruct (Hk _ _ _ _ E2) as (Ho2 & Hl2 & H2).
  split_and!; [by etrans|auto|]. intros Hc. destruct (H2 Hc) as [Hc1 HQ2]. destruct (H1 Hc1) as [Hc0 HQ1].
  split; [done|]. intros o Ho. apply HQ2; [done|]. apply HQ1. by etrans.
Qed.

Lemma pass_mono {A} (m : C A) (Q Q' : A → list PromptId → Prop) :
  (∀ a o, Q a o → Q' a o) → pass m Q → pass m Q'.
Proof.
  intros HQ Hm st a st' E. destruct (Hm _ _ _ E) as (Ho & Hl & H). split_and!; [done..|].
  intros Hc. destruct (H Hc). split; [done|auto].
Qed.

Lemma pass_error code msg n h Q : pass (add sev_error code msg n h) Q.
Proof.
  intros st a st' [= <- <-]. simpl. split_and!; [done|done|]. intros [Hc _]. exfalso.
  cbn [cs_issues] in Hc. rewrite existsb_app in Hc. simpl in Hc. by rewrite orb_true_r in Hc.
Qed.

(** An error and a result: never clean. *)
Lemma pass_fail {A} code msg n h (x : A) Q : pass (add sev_error code msg n h ≫= λ _, mret x) Q.
Proof. eapply pass_bind; [apply (pass_error _ _ _ _ (λ _ _, False))|]. intros ?. by apply pass_ret. Qed.

Lemma pass_warning code msg n h : pass (add sev_warning code msg n h) (λ _ _, True).
Proof.
  intros st a st' [= <- <-]. simpl. split_and!; [done|done|]. intros [Hc Hg]. cbn [cs_issues] in Hc. rewrite existsb_app in Hc.
  apply orb_false_iff in Hc as [Hc _]. split; [done|auto].
Qed.

Lemma pass_when b m Q : pass m (λ _ _, Q) → pass (when b m) (λ _ _, b = true → Q).
Proof. intros Hm. destruct b; simpl; [by eapply pass_mono; [|done]|]. by apply pass_ret. Qed.

Lemma pass_error_if b code msg n h : pass (error_if b code msg n h) (λ _ _, b = false).
Proof.
  eapply pass_mono; [|apply (pass_when b _ False), pass_error]. intros ? ? H. simpl in H.
  destruct b; [destruct (H eq_refl)|done].
Qed.

Lemma pass_when_error b code msg n h : pass (when b (add sev_error code msg n h)) (λ _ _, b = false).
Proof.
  eapply pass_mono; [|apply (pass_when b _ False), pass_error]. intros ? ? H. simpl in H.
  destruct b; [destruct (H eq_refl)|done].
Qed.

Lemma pass_warning_if b code msg n h : pass (warning_if b code msg n h) (λ _ _, True).
Proof. destruct b; [apply pass_warning|by apply pass_ret]. Qed.

Lemma pass_exitWarning env n h msg : pass (exitWarning env n h msg) (λ _ _, True).
Proof. unfold exitWarning. destruct (negb _); [apply pass_warning|by apply pass_ret]. Qed.

Lemma pass_of_option {A} (o : option A) : pass (of_option o) (λ a _, o = Some a).
Proof. destruct o; [by apply pass_ret|]. by intros st a st'. Qed.

Lemma pass_of_fuel {A} (o : option A) : pass (of_fuel o) (λ a _, o = Some a).
Proof. destruct o; [by apply pass_ret|]. by intros st a st'. Qed.

Lemma pass_for_each {A} (f : A → C unit) l (P : A → list PromptId → Prop) :
  (∀ x, pass (f x) (λ _ o, P x o)) → pass (for_each f l) (λ _ o, ∀ x, x ∈ l → P x o).
Proof.
  intros Hf. induction l as [|x l IH]; simpl.
  - apply pass_ret. intros o x []%not_elem_of_nil.
  - eapply pass_bind; [apply Hf|]. intros ?. eapply pass_mono; [|apply IH].
    intros u o Hl Hx y [->|Hy]%elem_of_cons; auto.
Qed.

(** A fold whose threaded variable satisfies [P] with the elements done. *)
Lemma pass_fold_each {A B} (f : B → A → C B) l acc (P : list A → B → list PromptId → Prop) :
  (∀ o, P [] acc o) → (∀ l b x, pass (f b x) (λ b' o, P l b o → P (l ++ [x]) b' o)) →
  pass (fold_each f acc l) (λ b o, P l b o).
Proof.
  intros H0 Hf.
  assert (∀ l2 l1 acc, pass (fold_each f acc l2) (λ b o, P l1 acc o → P (l1 ++ l2) b o)) as Hg.
  { clear acc H0. induction l2 as [|x l2 IH]; intros l1 acc; simpl.
    - apply pass_ret. intros o H. by rewrite app_nil_r.
    - eapply pass_bind; [apply (Hf l1)|]. intros b.
      eapply pass_mono; [|apply (IH (l1 ++ [x]))]. intros b' o H1 H2 H3. rewrite <- app_assoc in H1. auto. }
  eapply pass_mono; [|apply (Hg l [])]. intros b o H. by apply H.
Qed.

Lemma pass_any {A} (m : C A) : pass m (λ _ _, True) → pass m (λ _ _, True).
Proof. done. Qed.

(** ** Leaf computations *)

Definition prompts_ok (env : Env) (l : list PromptId) (o : list PromptId) : Prop :=
  length l ≤ LIMITS.promptsPerBlock ∧ (∀ id, id ∈ l → prompt_known (ev_ctx env) id = true ∧ id ∈ o).

Lemma pass_push_prompt id : pass (push_prompt id) (λ _ o, id ∈ o).
Proof.
  intros st a st' [= <- <-]. simpl. destruct (includes (cs_promptOrder st) id) eqn:E.
  - split_and!; [done|done|]. intros Hc. split; [done|]. intros o Ho. apply Ho. by apply includes_true in E.
  - split_and!; [set_solver|done|]. intros Hc. split; [done|]. intros o Ho. apply Ho. set_solver.
Qed.

Lemma pass_takePrompts env l n w :
  pass (takePrompts env l n w) (λ a o, a = default [] l ∧ prompts_ok env a o).
Proof.
  unfold takePrompts. eapply pass_bind; [apply pass_when_error|]. intros ?.
  eapply pass_bind.
  { apply (pass_for_each _ _ (λ id o, prompt_known (ev_ctx env) id = true ∧ id ∈ o)). intros id.
    eapply pass_bind; [apply pass_when_error|]. intros ?. eapply pass_mono; [|apply pass_push_prompt].
    intros u o Hid Hk. bool_hyps. done. }
  intros ?. apply pass_ret. intros o H1 H2. split; [done|]. split; [|done].
  apply Nat.ltb_ge in H2. done.
Qed.

(** What a pointer resolves to when no Go to loop is met. *)
Definition resolves (env : Env) (id : option string) (r : PlanRef) : Prop :=
  resolve_walk (resolve_fuel (ev_byId env)) (ev_byId env) id [] = Some (r, []).

Lemma set_all_nil looped m :
  fold_left (λ m g, om_set g "goto_loop" m) looped m = ([] : list (string * string)) → looped = [] ∧ m = [].
Proof.
  revert m. induction looped as [|g l IH]; intros m; simpl; [done|].
  intros [_ E]%IH. by destruct m as [|[k v] m]; simpl in E; [|case_bool_decide].
Qed.

Lemma set_all_codes looped st :
  loop_codes st → loop_codes {| cs_issues := cs_issues st;
    cs_gotoProblems := fold_left (λ m g, om_set g "goto_loop" m) looped (cs_gotoProblems st);
    cs_promptOrder := cs_promptOrder st |}.
Proof.
  unfold loop_codes. simpl. generalize (cs_gotoProblems st). induction looped as [|g l IH]; intros m Hm; simpl; [done|].
  apply IH. intros p [->|Hp]%om_set_elem; auto.
Qed.

Lemma pass_resolve env id : pass (resolve (ev_byId env) id) (λ r _, resolves env id r).
Proof.
  unfold resolve. eapply pass_bind; [apply pass_of_fuel|]. intros [r looped].
  eapply pass_bind with (Q1 := λ _ _, looped = []).
  - intros st a st' [= <- <-]. simpl. split_and!; [done|apply set_all_codes|]. intros [Hc Hg]. simpl in *.
    apply set_all_nil in Hg as [-> Hg]. done.
  - intros ?. apply pass_ret. intros o -> E. done.
Qed.

Lemma pass_ptr env n h : pass (ptr env n h) (λ r _, resolves env (slot_get env n h) r).
Proof. apply pass_resolve. Qed.

(** ** The contract of a block *)

Definition points (env : Env) (n h : string) (r : PlanRef) : Prop := resolves env (slot_get env n h) r.

Record menu_ok (env : Env) (o : list PromptId) (id : string) (c : MenuConfig) (m : PlanMenu) : Prop := {
  mk_prompts : pm_prompts m = mc_prompts c ∧ pm_prompts m ≠ [] ∧ prompts_ok env (pm_prompts m) o;
  mk_other : prompts_ok env (pm_invalid_prompts m) o ∧ prompts_ok env (pm_noinput_prompts m) o;
  mk_digits : om_keys (pm_digits m) = List.filter isMenuDigit (mc_digits c) ∧ NoDup (om_keys (pm_digits m)) ∧
                1 ≤ length (pm_digits m) ≤ 12;
  mk_routes : ∀ d r, (d, r) ∈ pm_digits m → slot_has env id (digitHandle d) = true ∧ points env id (digitHandle d) r;
  mk_times : within LIMITS.timeoutSec (mc_timeoutSec c) = true ∧
               pm_timeout_ms m = math_round (num_scale 1000 (mc_timeoutSec c)) ∧
               is_integer (pm_retries m) = true ∧ within LIMITS.retries (pm_retries m) = true;
  mk_fallbacks : points env id NO_INPUT (pm_on_noinput m) ∧ points env id NO_MATCH (pm_on_nomatch m);
}.

(** The minutes of a day, in order and apart. *)
Definition day_ok (l : list range) : Prop := separated l ∧ ∀ t, covers l t → (0 ≤ t < 1440)%Z.

Record hours_ok (env : Env) (id : string) (c : ScheduleConfig) (h : PlanHours) : Prop := {
  hk_tz : isIvrTimezone (ph_tz h) = true;
  hk_days : List.map fst (ph_weekly h) = DAY_KEYS;
  hk_ranges : ∀ d l, (d, l) ∈ ph_weekly h → day_ok l ∧ length (sc_weekly c d) ≤ LIMITS.rangesPerDay ∧
    (∀ t, covers l t ↔ ∃ r s e, r ∈ sc_weekly c d ∧ toMinutes r.1 = Some s ∧ toMinutes r.2 = Some e ∧ (s ≤ t < e)%Z);
  hk_dates : ∀ d, d ∈ ph_closed_dates h ↔ d ∈ sc_closedDates c;
  hk_real : ∀ d, d ∈ ph_closed_dates h → isRealDate d = true;
  hk_exits : points env id OPEN (ph_open h) ∧ points env id CLOSED (ph_closed h);
}.

Definition values_ok (mode : ConditionMode) (values : list string) : Prop :=
  if mode ==? cm_anonymous then values = []
  else 1 ≤ length values ≤ 50 ∧ ∀ v, v ∈ values → callerValueProblem v (value_mode mode) = None.

(** An outside number the rule allows, or a number of the account that is
    not one of this flow's own. *)
Definition dest_ok (env : Env) (d : PlanDest) : Prop :=
  match d with
  | dest_external e => us_dialable e
  | dest_own did _ => did ≠ "" ∧ (did ∉ cx_ownDids (ev_ctx env)) ∧
      (cx_destinations (ev_ctx env) ≠ None → is_Some (findOwn did (cx_destinations (ev_ctx env))))
  end.

Inductive block_ok (env : Env) (o : list PromptId) (n : IvrNode) : option PlanNode → Prop :=
  | ok_entry : in_type n = Some entry → slot_has env (in_id n) NEXT = true → block_ok env o n None
  | ok_play next :
      in_type n = Some play → pc_prompts (as_play (config_of n)) ≠ [] →
      prompts_ok env (pc_prompts (as_play (config_of n))) o → points env (in_id n) NEXT next →
      block_ok env o n (Some (pn_play (pc_prompts (as_play (config_of n))) next))
  | ok_menu m :
      in_type n = Some menu → menu_ok env o (in_id n) (as_menu (config_of n)) m → block_ok env o n (Some (pn_menu m))
  | ok_hours h :
      in_type n = Some schedule → hours_ok env (in_id n) (as_schedule (config_of n)) h → block_ok env o n (Some (pn_hours h))
  | ok_caller mode values m nm :
      in_type n = Some condition → values_ok mode values →
      points env (in_id n) MATCH m → points env (in_id n) NO_MATCH nm →
      block_ok env o n (Some (pn_caller mode values m nm))
  | ok_transfer t :
      in_type n = Some dial → dest_ok env (pt_dest t) → within LIMITS.ringTimeoutSec (pt_ring_timeout t) = true →
      points env (in_id n) NO_ANSWER (pt_on_noanswer t) → block_ok env o n (Some (pn_transfer t))
  | ok_voicemail did :
      in_type n = Some voicemail → did ≠ "" →
      (cx_destinations (ev_ctx env) ≠ None →
        ∃ g b, findOwn did (cx_destinations (ev_ctx env)) = Some (g, b) ∧ dg_product g = voicemail_box) →
      block_ok env o n (Some (pn_voicemail did))
  | ok_goto t :
      in_type n = Some goto → om_get (gc_targetNodeId (as_goto (config_of n))) (ev_byId env) = Some t →
      gc_targetNodeId (as_goto (config_of n)) ≠ "" → in_type t ≠ Some entry → block_ok env o n None
  | ok_hangup prompts :
      in_type n = Some hangup → prompts_ok env prompts o → block_ok env o n (Some (pn_hangup prompts))
  | ok_unknown : in_type n = None → block_ok env o n None.

(** Takes the next call of a run and its fact. *)
Ltac next lem := eapply pass_bind; [apply lem|]; intros ?.
Ltac done_ret := apply pass_ret; intros o; intros; simpl in *.

Lemma play_pass env n :
  in_type n = Some play →
  pass (compile_play env (in_id n) (as_play (config_of n))) (λ p o, block_ok env o n p).
Proof.
  intros Ht. unfold compile_play. next pass_error_if. next pass_takePrompts. next pass_exitWarning. next pass_ptr.
  done_ret. destruct H1 as [-> Hp]. apply Nat.eqb_neq in H2. simpl in *.
  apply ok_play; try done. intros E. simpl in E. by rewrite E in H2.
Qed.

Lemma fold_digit_pass env id digits :
  pass (fold_each (compile_digit env id) [] digits) (λ m _,
    (∀ d, d ∈ om_keys m ↔ d ∈ digits) ∧ (NoDup digits → om_keys m = digits) ∧ NoDup (om_keys m) ∧
    ∀ d r, (d, r) ∈ m → slot_has env id (digitHandle d) = true ∧ points env id (digitHandle d) r).
Proof.
  apply (pass_fold_each _ _ _ (λ ds m _,
    (∀ d, d ∈ om_keys m ↔ d ∈ ds) ∧ (NoDup ds → om_keys m = ds) ∧ NoDup (om_keys m) ∧
    ∀ d r, (d, r) ∈ m → slot_has env id (digitHandle d) = true ∧ points env id (digitHandle d) r)).
  - intros _. split_and!; try done; [constructor|]. intros d r []%not_elem_of_nil.
  - intros ds m d. unfold compile_digit. next pass_error_if. next pass_ptr.
    done_ret. destruct H1 as (Hk & Hnd & Hm & Hr). apply negb_false_iff in H0. split_and!.
    + intros d'. rewrite om_keys_set_elem, elem_of_app, list_elem_of_singleton, Hk. tauto.
    + intros Hds. apply NoDup_app in Hds as (Hds & Hd & _). rewrite om_keys_set, (Hnd Hds).
      destruct (om_has d m) eqn:E; [|done]. exfalso. apply om_has_true in E. apply Hk in E.
      apply (Hd d E). by apply list_elem_of_singleton.
    + by apply om_set_NoDup.
    + intros d' r [[= -> ->]|Hin]%om_set_elem; [done|by apply Hr].
Qed.

Lemma has_duplicates_false l : has_duplicates l = false → NoDup l.
Proof.
  unfold has_duplicates. intros E. apply negb_false_iff, Nat.eqb_eq in E.
  set (k := om_keys (om_of_list (List.map (λ d, (d, tt)) l))) in *.
  assert (NoDup k) as Hk by apply om_of_list_keys_NoDup.
  assert (∀ x, x ∈ k ↔ x ∈ l) as Hin.
  { intros x. unfold k. rewrite om_of_list_keys. unfold om_keys. rewrite List.map_map. by rewrite List.map_id. }
  assert (k ⊆+ l) as Hsub by (apply NoDup_submseteq; [done|]; intros x; by apply Hin).
  assert (k ≡ₚ l) as Hp by (apply submseteq_length_Permutation; [done|lia]). by rewrite <- Hp.
Qed.

Lemma check_menu_pass id c digits :
  pass (check_menu id c digits) (λ _ _, mc_prompts c ≠ [] ∧ 1 ≤ length digits ≤ 12 ∧ NoDup digits ∧
    within LIMITS.timeoutSec (mc_timeoutSec c) = true ∧
    is_integer (mc_retries c) = true ∧ within LIMITS.retries (mc_retries c) = true).
Proof.
  unfold check_menu. do 5 next pass_error_if. eapply pass_mono; [|apply pass_error_if].
  intros ? o H H1 H2 H3 H4 H5. simpl in *.
  apply negb_false_iff, andb_true_iff in H. apply negb_false_iff in H1. apply has_duplicates_false in H2.
  apply Nat.ltb_ge in H3, H4. unfold LIMITS.digitsMax, LIMITS.digitsMin in *. apply Nat.eqb_neq in H5.
  split_and!; try done; try tauto. intros E. by rewrite E in H5.
Qed.

Lemma menu_pass env n :
  in_type n = Some menu →
  pass (compile_menu env (in_id n) (as_menu (config_of n))) (λ p o, block_ok env o n p).
Proof.
  intros Ht. set (c := as_menu (config_of n)). unfold compile_menu.
  next check_menu_pass. next fold_digit_pass. next pass_exitWarning. next pass_exitWarning.
  do 3 next pass_takePrompts. do 2 next pass_ptr. apply pass_ret. intros o H1 H2 [-> H3] [-> H4] [-> H5] _ _ H6 H7.
  destruct H6 as (Hk & Hnd & Hkn & Hr). destruct H7 as (Hp & Hl & Hds & Ht1 & Ht2 & Ht3).
  apply ok_menu; [done|]. split; simpl; try done.
  - pose proof (f_equal length (Hnd Hds)) as El. unfold om_keys in El. rewrite length_map in El.
    split_and!; [by apply Hnd|done|lia|lia].
Qed.

(** What the ranges of a day add up to. *)
Definition mins_ok (rs : list TimeRange) (mins : list range) : Prop :=
  (∀ r, r ∈ mins → (0 ≤ r.1 < r.2)%Z ∧ (r.2 ≤ 1440)%Z) ∧
  (∀ t, covers mins t ↔ ∃ r s e, r ∈ rs ∧ toMinutes r.1 = Some s ∧ toMinutes r.2 = Some e ∧ (s ≤ t < e)%Z).

Lemma mins_ok_snoc rs mins r s e :
  mins_ok rs mins → toMinutes r.1 = Some s → toMinutes r.2 = Some e → (s < e)%Z →
  mins_ok (rs ++ [r]) (mins ++ [(s, e)]).
Proof.
  intros [H1 H2] Es Ee Hse. pose proof (toMinutes_bounds _ _ Es). pose proof (toMinutes_bounds _ _ Ee). split.
  - intros q [Hq| ->%list_elem_of_singleton]%elem_of_app; [auto|simpl; lia].
  - intros t. unfold covers in *. split.
    + intros (q & [Hq| ->%list_elem_of_singleton]%elem_of_app & Ht).
      * destruct (proj1 (H2 t)) as (r' & s' & e' & Hr & ?); [by exists q|].
        exists r', s', e'. split; [apply elem_of_app; by left|done].
      * exists r, s, e. split_and!; try done; try apply Ht. apply elem_of_app. right. by apply list_elem_of_singleton.
    + intros (r' & s' & e' & [Hr| ->%list_elem_of_singleton]%elem_of_app & Es' & Ee' & Ht).
      * destruct (proj2 (H2 t)) as (q & Hq & ?); [by exists r', s', e'|].
        exists q. split; [apply elem_of_app; by left|done].
      * rewrite Es in Es'. rewrite Ee in Ee'. injection Es' as <-. injection Ee' as <-. exists (s, e). split; [|done]. apply elem_of_app. right. by apply list_elem_of_singleton.
Qed.

Lemma fold_range_pass id day rs :
  pass (fold_each (compile_range id day) [] rs) (λ mins _, mins_ok rs mins).
Proof.
  apply (pass_fold_each _ _ _ (λ rs mins _, mins_ok rs mins)).
  - intros _. split; [intros r []%not_elem_of_nil|]. intros t. split.
    + intros (r & []%not_elem_of_nil & _).
    + intros (r & s & e & []%not_elem_of_nil & _).
  - intros rs' mins r. unfold compile_range.
    destruct (toMinutes r.1) as [s|] eqn:Es; [|apply pass_fail].
    destruct (toMinutes r.2) as [e|] eqn:Ee; [|apply pass_fail].
    destruct (s =? 1440)%Z; [apply pass_fail|].
    destruct (e <=? s)%Z eqn:Ele; [apply pass_fail|].
    apply pass_ret. intros o Hm. apply Z.leb_gt in Ele. by apply mins_ok_snoc.
Qed.

Lemma mergeRanges_day rs mins :
  mins_ok rs mins →
  day_ok (mergeRanges mins) ∧
  ∀ t, covers (mergeRanges mins) t ↔ ∃ r s e, r ∈ rs ∧ toMinutes r.1 = Some s ∧ toMinutes r.2 = Some e ∧ (s ≤ t < e)%Z.
Proof.
  intros [H1 H2]. destruct (merge_all mins) as [Hs Hc]; [intros r Hr; specialize (H1 r Hr); lia|].
  split; [split; [done|]|].
  - intros t [r [Hr Ht]]%Hc. specialize (H1 r Hr). lia.
  - intros t. by rewrite Hc.
Qed.

Lemma fold_day_pass id c :
  pass (fold_each (compile_day id c) [] DAY_KEYS) (λ w _,
    List.map fst w = DAY_KEYS ∧
    ∀ d l, (d, l) ∈ w → day_ok l ∧ length (sc_weekly c d) ≤ LIMITS.rangesPerDay ∧
      ∀ t, covers l t ↔ ∃ r s e, r ∈ sc_weekly c d ∧ toMinutes r.1 = Some s ∧ toMinutes r.2 = Some e ∧ (s ≤ t < e)%Z).
Proof.
  apply (pass_fold_each _ _ _ (λ ds w _, List.map fst w = ds ∧
    ∀ d l, (d, l) ∈ w → day_ok l ∧ length (sc_weekly c d) ≤ LIMITS.rangesPerDay ∧
      ∀ t, covers l t ↔ ∃ r s e, r ∈ sc_weekly c d ∧ toMinutes r.1 = Some s ∧ toMinutes r.2 = Some e ∧ (s ≤ t < e)%Z)).
  - intros _. split; [done|]. intros d l []%not_elem_of_nil.
  - intros ds w d. unfold compile_day. next pass_error_if. next fold_range_pass.
    apply pass_ret. intros o Hm Hlen [Hd Hw]. apply Nat.ltb_ge in Hlen. split.
    + rewrite List.map_app, Hd. done.
    + intros d' l [Hin|[= -> ->]%list_elem_of_singleton]%elem_of_app; [by apply Hw|].
      destruct (mergeRanges_day _ _ Hm). done.
Qed.

Lemma hours_pass env n :
  in_type n = Some schedule →
  pass (compile_schedule env (in_id n) (as_schedule (config_of n))) (λ p o, block_ok env o n p).
Proof.
  intros Ht. set (c := as_schedule (config_of n)). unfold compile_schedule.
  next pass_error_if. next fold_day_pass. next pass_warning_if. cbn zeta.
  eapply pass_bind.
  { apply (pass_for_each _ _ (λ d _, isRealDate d = true)). intros d.
    eapply pass_mono; [|apply pass_error_if]. intros ? ? H. simpl in H. by apply negb_false_iff. }
  intros ?. next pass_exitWarning. next pass_exitWarning. do 2 next pass_ptr.
  apply pass_ret. intros o Hcl Hop _ _ Hreal _ [Hd Hw] Htz. apply negb_false_iff in Htz.
  assert (∀ d, d ∈ sort_strings (unique (sc_closedDates c)) ↔ d ∈ sc_closedDates c) as Hdates
    by (intros d; by rewrite sort_strings_perm, unique_elem).
  apply ok_hours; [done|]. split; cbn [ph_tz ph_weekly ph_closed_dates ph_open ph_closed]; try done.
  - intros d. fold c. rewrite elem_of_lfilter, <- Hdates. split; [by intros []|]. intros H. split; [done|by apply Hreal].
  - intros d [_ H]%elem_of_lfilter. done.
Qed.

Lemma check_values_pass id c :
  pass (check_values id c) (λ _ _, values_ok (cc_mode c) (if cc_mode c ==? cm_anonymous then [] else cc_values c)).
Proof.
  unfold check_values, values_ok. destruct (cc_mode c ==? cm_anonymous).
  - eapply pass_mono; [|apply pass_warning_if]. done.
  - next pass_error_if. next pass_error_if.
    eapply pass_mono; [|apply (pass_for_each _ _ (λ v _, callerValueProblem v (value_mode (cc_mode c)) = None))].
    + intros ? o H H1 H2. simpl in *. apply Nat.ltb_ge in H1, H2. simpl in *. split; [lia|done].
    + intros v. destruct (callerValueProblem v _); [apply pass_error|by apply pass_ret].
Qed.

Lemma condition_pass env n :
  in_type n = Some condition →
  pass (compile_condition env (in_id n) (as_condition (config_of n))) (λ p o, block_ok env o n p).
Proof.
  intros Ht. unfold compile_condition. next check_values_pass. do 2 next pass_exitWarning. do 2 next pass_ptr.
  apply pass_ret. intros o Hn Hm _ _ Hv. by apply ok_caller.
Qed.

Lemma own_pass env id did : pass (compile_own env id did) (λ d _, ∀ x, d = Some x → dest_ok env x).
Proof.
  unfold compile_own. destruct (did ==? "") eqn:E0; [apply pass_fail|].
  destruct (includes _ did) eqn:Ei; [apply pass_fail|].
  bool_hyps. apply includes_false in Ei.
  assert (∀ P : Prop, P → pass (mret (Some (dest_own did (ownProduct did (cx_destinations (ev_ctx env))))))
    (λ d _, P → (cx_destinations (ev_ctx env) ≠ None → is_Some (findOwn did (cx_destinations (ev_ctx env)))) →
       ∀ x, d = Some x → dest_ok env x)) as Hret.
  { intros P HP. apply pass_ret. intros _ _ Hf x [= <-]. done. }
  destruct (findOwn did _) as [[g number]|] eqn:Eo.
  - assert (pass (warning_if (negb (dn_enabled number)) "transfer_target_off"
          (default (prettyNumber did) (dn_name number) +:+ " is switched off, so this transfer will go to “No answer”.") id None)
        (λ _ _, True)) as Hw by apply pass_warning_if.
    destruct (cx_destinations (ev_ctx env)) eqn:Ed; (eapply pass_bind; [apply Hw|]; intros ?; done_ret; simplify_eq; simpl;
      rewrite Ed, Eo; by eauto).
  - destruct (cx_destinations (ev_ctx env)) eqn:Ed.
    + apply pass_fail.
    + eapply pass_bind; [apply (pass_ret tt (λ _ _, True)); done|]. intros ?. done_ret. simplify_eq. simpl. by rewrite Ed.
Qed.

Lemma external_pass env id number : pass (compile_external id number) (λ d _, ∀ x, d = Some x → dest_ok env x).
Proof.
  unfold compile_external. destruct (ec_problem (checkExternalNumber number)) eqn:Ep.
  - apply pass_fail.
  - apply pass_ret. intros o x Ex. destruct (ec_e164 _) as [e|] eqn:Ee; [|done]. injection Ex as <-.
    by apply (allowed_dialable number).
Qed.

(** A transfer that reports nothing has a destination. *)
Lemma external_some id number : pass (compile_external id number) (λ d _, is_Some d).
Proof.
  unfold compile_external. destruct (ec_problem (checkExternalNumber number)) eqn:Ep.
  - apply pass_fail.
  - apply pass_ret. intros o. destruct (allowed_number number Ep) as [e ->]. simpl. eauto.
Qed.

Lemma pass_and {A} (m : C A) (Q1 Q2 : A → list PromptId → Prop) :
  pass m Q1 → pass m Q2 → pass m (λ a o, Q1 a o ∧ Q2 a o).
Proof.
  intros H1 H2 st a st' E. destruct (H1 _ _ _ E) as (Ho & Hl & Hq1), (H2 _ _ _ E) as (_ & _ & Hq2).
  split_and!; [done..|]. intros Hc. destruct (Hq1 Hc), (Hq2 Hc). auto.
Qed.

Lemma own_some env id did : pass (compile_own env id did) (λ d _, is_Some d).
Proof.
  unfold compile_own. case_match; [apply pass_fail|]. case_match; [apply pass_fail|].
  eapply pass_bind with (Q1 := λ _ _, True); [|intros ?; apply pass_ret; eauto].
  repeat case_match; try apply pass_warning_if; try (by apply pass_ret).
  eapply pass_mono; [|apply (pass_error _ _ _ _ (λ _ _, False))]. done.
Qed.

Lemma dial_pass env n :
  in_type n = Some dial →
  pass (compile_dial env (in_id n) (as_dial (config_of n))) (λ p o, block_ok env o n p).
Proof.
  intros Ht. unfold compile_dial.
  eapply pass_bind with (Q1 := λ d _, (∀ x, d = Some x → dest_ok env x) ∧ is_Some d).
  { destruct (dc_target _); apply pass_and; auto using own_pass, own_some, external_pass, external_some. }
  intros dest. next pass_error_if. next pass_exitWarning. destruct dest as [dest|].
  - next pass_ptr. apply pass_ret. intros o Hp _ Hr [Hd _]. apply negb_false_iff in Hr.
    by apply ok_transfer; [|apply Hd| |].
  - apply pass_ret. by intros o _ _ [_ [x ?]].
Qed.

Lemma voicemail_pass env n :
  in_type n = Some voicemail →
  pass (compile_voicemail env (in_id n) (as_voicemail (config_of n))) (λ p o, block_ok env o n p).
Proof.
  intros Ht. unfold compile_voicemail. set (did := vc_did _).
  destruct (did ==? "") eqn:E0; [apply pass_fail|]. bool_hyps.
  eapply pass_bind with (Q1 := λ _ _, cx_destinations (ev_ctx env) ≠ None →
    ∃ g b, findOwn did (cx_destinations (ev_ctx env)) = Some (g, b) ∧ dg_product g = voicemail_box).
  - destruct (cx_destinations (ev_ctx env)) as [ds|] eqn:Ed.
    + destruct (findOwn did (Some ds)) as [[g b]|] eqn:Eo; cbn iota.
      * destruct (dg_product g ==? voicemail_box) eqn:Eg; simpl; bool_hyps.
        -- eapply pass_mono; [|apply pass_warning_if]. intros ? ? _ _. eauto.
        -- eapply pass_mono; [|apply (pass_error _ _ _ _ (λ _ _, False))]. done.
      * eapply pass_mono; [|apply (pass_error _ _ _ _ (λ _ _, False))]. done.
    + destruct (findOwn did None) as [[g b]|]; [eapply pass_mono; [|apply pass_warning_if]|apply pass_ret]; done.
  - intros ?. apply pass_ret. intros o Hown. by apply ok_voicemail.
Qed.

Lemma goto_pass env n :
  in_type n = Some goto →
  pass (compile_goto env (in_id n) (as_goto (config_of n))) (λ p o, block_ok env o n p).
Proof.
  intros Ht. unfold compile_goto. set (target := gc_targetNodeId _).
  destruct (target ==? "") eqn:E0; [apply pass_fail|]. bool_hyps.
  destruct (om_get target (ev_byId env)) as [t|] eqn:Et; [|apply pass_fail].
  destruct (is_type entry t) eqn:Ee; [apply pass_fail|].
  next pass_error_if. apply pass_ret. intros o _. eapply ok_goto; try done.
  unfold is_type in Ee. by bool_hyps.
Qed.

Lemma compile_block_pass env n : pass (compile_block env n) (λ p o, block_ok env o n p).
Proof.
  unfold compile_block. destruct (in_type n) as [[]|] eqn:Ht.
  - unfold compile_entry. next pass_error_if. apply pass_ret. intros o Hs. apply negb_false_iff in Hs.
    by apply ok_entry.
  - by apply play_pass.
  - by apply menu_pass.
  - by apply hours_pass.
  - by apply condition_pass.
  - by apply dial_pass.
  - by apply voicemail_pass.
  - by apply goto_pass.
  - unfold compile_hangup. next pass_takePrompts. apply pass_ret. intros o [_ Hp]. by apply ok_hangup.
  - apply pass_ret. intros o. by apply ok_unknown.
Qed.

(** ** The run *)

(** The edges the compiler follows. *)
Definition live_edge (byId : list (string * IvrNode)) (e : IvrEdge) : bool :=
  match om_get (ie_source e) byId, om_get (ie_target e) byId with
  | Some s, Some t =>
      negb (is_type entry t) && existsb (λ h, oh_id h ==? ie_sourceHandle e) (default [] (handles_of s))
  | _, _ => false
  end.

(** Exits and where they lead: the first live edge of an exit counts. *)
Definition slot_step (byId : list (string * IvrNode)) (slot : list (string * string)) (e : IvrEdge) : list (string * string) :=
  let key := slot_of (ie_source e) (ie_sourceHandle e) in
  if live_edge byId e && negb (om_has key slot) then om_set key (ie_target e) slot else slot.

Definition slot_map (graph : IvrGraph) : list (string * string) :=
  fold_left (slot_step (nodes_by_id (ig_nodes graph))) (ig_edges graph) [].

Definition env_of (graph : IvrGraph) (ctx : CompileContext) : Env :=
  Build_Env ctx (nodes_by_id (ig_nodes graph)) (slot_map graph).

Lemma scan_edge_slot byId slot e st slot' st' :
  scan_edge byId slot e st = inr (slot', st') → slot' = slot_step byId slot e.
Proof.
  unfold scan_edge, slot_step, live_edge.
  destruct (om_get (ie_source e) byId) as [s|]; [|by intros [= <- _]].
  destruct (om_get (ie_target e) byId) as [t|]; [|by intros [= <- _]].
  destruct (is_type entry t); simpl; [by intros [= <- _]|].
  destruct (om_has _ slot); simpl; [rewrite andb_false_r; by intros [= <- _]|]. rewrite andb_true_r.
  unfold mbind, eff_bind. destruct (handles_of s) as [hs|]; simpl; [|done].
  destruct (existsb _ hs); simpl; by intros [= <- _].
Qed.

Lemma scan_edges_slot byId l acc st slot st' :
  fold_each (scan_edge byId) acc l st = inr (slot, st') → slot = fold_left (slot_step byId) l acc.
Proof.
  revert acc st. induction l as [|e l IH]; intros acc st; simpl; [by intros [= <- _]|].
  intros (acc' & st1 & E1%scan_edge_slot & E2)%bind_inr. subst. by eapply IH.
Qed.

(** Every exit of the map leads to a block of the flow other than Start. *)
Lemma slot_map_target graph key t :
  om_get key (slot_map graph) = Some t →
  ∃ n, om_get t (nodes_by_id (ig_nodes graph)) = Some n ∧ in_type n ≠ Some entry.
Proof.
  unfold slot_map. set (byId := nodes_by_id _).
  assert (∀ l acc, (∀ key t, om_get key acc = Some t → ∃ n, om_get t byId = Some n ∧ in_type n ≠ Some entry) →
    ∀ key t, om_get key (fold_left (slot_step byId) l acc) = Some t →
      ∃ n, om_get t byId = Some n ∧ in_type n ≠ Some entry) as Hg; [|by apply Hg].
  induction l as [|e l IH]; intros acc Hacc; simpl; [done|]. apply IH.
  intros k t'. unfold slot_step. destruct (live_edge byId e && _) eqn:E; [|apply Hacc].
  apply andb_true_iff in E as [El _]. unfold live_edge in El.
  destruct (om_get (ie_source e) byId); [|done]. destruct (om_get (ie_target e) byId) as [n|] eqn:En; [|done].
  apply andb_true_iff in El as [El _]. apply negb_true_iff in El. unfold is_type in El. bool_hyps.
  destruct (decide (slot_of (ie_source e) (ie_sourceHandle e) = k)) as [->|Hne].
  - rewrite om_get_set_eq. intros [= <-]. eauto.
  - rewrite om_get_set_ne by done. apply Hacc.
Qed.

(** What the run of an accepted draft went through. *)
Record accepted (graph : IvrGraph) (ctx : CompileContext) (r : CompileResult) : Prop := {
  ac_ids : ∀ n, n ∈ ig_nodes graph → ID_RE (in_id n) = true;
  ac_one_start : ∃ e, entries_of (ig_nodes graph) = [e];
  ac_size : (Z.of_nat (length (ig_nodes graph)) ≤ default LIMITS.blocks (cx_maxBlocks ctx))%Z;
  ac_reachable : ∀ e, head (entries_of (ig_nodes graph)) = Some e →
    ∀ id, id ∈ cr_reachable r ↔ rtc (edge (next_of (env_of graph ctx))) (in_id e) id ∧ is_Some (next_of (env_of graph ctx) id);
  ac_known : ∀ id n, id ∈ cr_reachable r → om_get id (nodes_by_id (ig_nodes graph)) = Some n → in_type n ≠ None;
  ac_blocks : NoDup (List.map in_id (ig_nodes graph)) → ∀ n, n ∈ ig_nodes graph → in_id n ∈ cr_reachable r →
    ∃ p, block_ok (env_of graph ctx) (pl_prompts (cr_plan r)) n p ∧ om_get (in_id n) (pl_nodes (cr_plan r)) = p;
  ac_nodes : ∀ id, id ∈ om_keys (pl_nodes (cr_plan r)) → id ∈ cr_reachable r ∧ id ∈ List.map in_id (ig_nodes graph);
  ac_start : ∀ e, head (entries_of (ig_nodes graph)) = Some e →
    points (env_of graph ctx) (in_id e) NEXT (pl_start (cr_plan r));
}.

(** The loop over the blocks. *)
Lemma compile_steps_pass env reachable nodes :
  pass (fold_each (compile_step env reachable) [] nodes) (λ m o,
    (NoDup (List.map in_id nodes) → ∀ n, n ∈ nodes → in_id n ∈ reachable →
       ∃ p, block_ok env o n p ∧ om_get (in_id n) m = p) ∧
    (∀ id, id ∈ om_keys m → id ∈ reachable ∧ id ∈ List.map in_id nodes)).
Proof.
  apply (pass_fold_each _ _ _ (λ l m o,
    (NoDup (List.map in_id l) → ∀ n, n ∈ l → in_id n ∈ reachable →
       ∃ p, block_ok env o n p ∧ om_get (in_id n) m = p) ∧
    (∀ id, id ∈ om_keys m → id ∈ reachable ∧ id ∈ List.map in_id l))).
  { intros o. split; [intros _ n []%not_elem_of_nil|intros id []%not_elem_of_nil]. }
  intros l m x. unfold compile_step. destruct (includes reachable (in_id x)) eqn:Er; simpl.
  - apply includes_true in Er. next compile_block_pass. apply pass_ret.
    intros o Hx [Hm Hk]. split.
    + rewrite List.map_app. intros Hids. apply NoDup_app in Hids as (Hids & Hd & _).
      assert (∀ n, n ∈ l → in_id n ≠ in_id x) as Hne.
      { intros n Hn E. apply (Hd (in_id n)); [apply elem_of_lmap; eauto|]. rewrite E. by apply list_elem_of_singleton. }
      assert (om_get (in_id x) m = None) as Hnone.
      { apply om_get_None. intros H. apply Hk in H as [_ H]. apply (Hd (in_id x) H). by apply list_elem_of_singleton. }
      intros n [Hn| ->%list_elem_of_singleton]%elem_of_app Hr.
      * destruct (Hm Hids n Hn Hr) as (p & Hp & Ep). exists p. split; [done|].
        destruct a; [|done]. by rewrite om_get_set_ne by (intros E; by apply (Hne n Hn)).
      * exists a. split; [done|]. destruct a; [by rewrite om_get_set_eq|done].
    + intros id Hid. rewrite List.map_app. destruct a as [p|].
      * apply om_keys_set_elem in Hid as [->|Hid]; [split; [done|set_solver]|]. destruct (Hk id Hid). set_solver.
      * destruct (Hk id Hid). set_solver.
  - apply includes_false in Er. apply pass_ret. intros o [Hm Hk]. split.
    + rewrite List.map_app. intros Hids n [Hn| ->%list_elem_of_singleton]%elem_of_app Hr; [|done].
      apply NoDup_app in Hids as (Hids & _ & _). by apply Hm.
    + intros id Hid. rewrite List.map_app. destruct (Hk id Hid). set_solver.
Qed.

Lemma size_pass ctx nodes :
  pass (check_size ctx nodes) (λ _ _, (Z.of_nat (length nodes) ≤ default LIMITS.blocks (cx_maxBlocks ctx))%Z).
Proof.
  unfold check_size. eapply pass_mono; [|apply pass_when_error]. intros ? ? H. simpl in H. by apply Z.ltb_ge.
Qed.

Lemma ids_pass nodes : pass (check_ids nodes) (λ _ _, ∀ n, n ∈ nodes → ID_RE (in_id n) = true).
Proof.
  apply (pass_for_each _ _ (λ n _, ID_RE (in_id n) = true)). intros n.
  eapply pass_mono; [|apply pass_when_error]. intros ? ? H. simpl in H. by apply negb_false_iff.
Qed.

Lemma entries_pass nodes : pass (check_entries nodes) (λ _ _, ∃ e, entries_of nodes = [e]).
Proof.
  unfold check_entries. next pass_when_error.
  eapply pass_mono; [|apply (pass_for_each _ _ (λ _ _, False)); intros x; apply pass_error].
  intros ? o Ht Hl. apply Nat.eqb_neq in Hl. destruct (entries_of nodes) as [|e [|e' l]]; [done|eauto|].
  exfalso. apply (Ht e'). by apply elem_of_cons; left.
Qed.

Lemma scan_pass byId l :
  pass (fold_each (scan_edge byId) [] l) (λ slot _, slot = fold_left (slot_step byId) l []).
Proof.
  assert (pass (fold_each (scan_edge byId) [] l) (λ _ _, True)) as Hp.
  { apply (pass_fold_each _ _ _ (λ _ _ _, True)); [done|]. intros l' b e. unfold scan_edge.
    repeat case_match; try apply pass_fail; try (by apply pass_ret).
    all: eapply pass_bind; [apply pass_of_option|]; intros hs; case_match; [|by apply pass_ret].
    all: next pass_warning; by apply pass_ret. }
  intros st slot st' E. destruct (Hp _ _ _ E) as (H1 & H2 & H3). split_and!; [done..|].
  intros Hc. destruct (H3 Hc) as [Hc' _]. split; [done|]. intros _ _. by apply scan_edges_slot in E.
Qed.

Lemma reach_pass env entry :
  pass (reachable_from env entry) (λ seen _,
    (∀ e, entry = Some e → ∀ id, id ∈ seen ↔ rtc (edge (next_of env)) (in_id e) id ∧ is_Some (next_of env id)) ∧
    ∀ id n, id ∈ seen → om_get id (ev_byId env) = Some n → in_type n ≠ None).
Proof.
  unfold reachable_from. destruct entry as [e|].
  - eapply pass_bind; [apply pass_of_fuel|]. intros [found seen].
    destruct (existsb (unknown_block env) seen) eqn:Eu; [by intros st a st'|].
    apply pass_ret. intros o E. split.
    + intros e' [= <-]. destruct found.
      * apply search_from in E as (Hf & _). by destruct (Hf eq_refl) as (x & _ & ?).
      * apply search_from in E as (_ & Hs & _). by destruct (Hs eq_refl).
    + intros id n Hid En Ht. rewrite existsb_elem_of_false in Eu. specialize (Eu id Hid).
      unfold unknown_block in Eu. rewrite En in Eu. rewrite Ht in Eu. by apply bool_decide_eq_false in Eu.
  - apply pass_ret. intros o. split; [done|]. intros id n []%not_elem_of_nil.
Qed.

Lemma warn_pass reachable nodes : pass (for_each (warn_unreachable reachable) nodes) (λ _ _, True).
Proof.
  eapply pass_mono; [|apply (pass_for_each _ _ (λ _ _, True))]; [done|]. intros n. unfold warn_unreachable.
  case_match; [by apply pass_ret|]. next (pass_of_option (blockTitle n)). eapply pass_mono; [|apply pass_warning]. done.
Qed.

Definition no_errors (s : CState) : Prop := existsb is_error (cs_issues s) = false.

Lemma loop_errors l st u st' :
  for_each (λ p, when (p.2 ==? "goto_loop")
       (add sev_error "goto_loop" "These Go to blocks point at each other in a circle." (Some p.1) None)) l st = inr (u, st') →
  cs_gotoProblems st' = cs_gotoProblems st ∧ cs_promptOrder st' = cs_promptOrder st ∧
  (no_errors st' → no_errors st ∧ ∀ p, p ∈ l → p.2 ≠ "goto_loop").
Proof.
  revert st. induction l as [|p l IH]; intros st; simpl.
  - intros [= _ <-]. split_and!; try done. intros H. split; [done|]. intros p []%not_elem_of_nil.
  - intros (u1 & st1 & E1 & E2)%bind_inr. apply IH in E2 as (Eg & Eo & He).
    destruct (p.2 ==? "goto_loop") eqn:Ep.
    + injection E1 as _ <-. simpl in *. split_and!; try done. intros H%He. exfalso. destruct H as [H _].
      unfold no_errors in H. simpl in H. rewrite existsb_app in H. simpl in H. by rewrite orb_true_r in H.
    + injection E1 as _ <-. split_and!; try done. intros H. destruct (He H) as [H1 H2]. split; [done|].
      apply bool_decide_eq_false in Ep. intros q [->|Hq]%elem_of_cons; auto.
Qed.

Lemma loops_pass env reachable nodes :
  pass (check_loops env reachable nodes) (λ _ _,
    ∀ n, n ∈ nodes → is_type goto n = true → in_id n ∈ reachable → ∃ r, resolves env (Some (in_id n)) r).
Proof.
  unfold check_loops. eapply pass_bind.
  { apply (pass_for_each _ _ (λ n _, is_type goto n = true → in_id n ∈ reachable → ∃ r, resolves env (Some (in_id n)) r)).
    intros n. destruct (is_type goto n && includes reachable (in_id n)) eqn:E.
    - next pass_resolve. apply pass_ret. eauto.
    - apply pass_ret. intros o Hg Hr. apply includes_true in Hr. by rewrite Hg, Hr in E. }
  intros ?. eapply pass_bind with (Q1 := λ _ _, True).
  { by intros st x st' [= <- <-]. }
  intros s. intros st u st' E. destruct (loop_errors _ _ _ _ E) as (Eg & Eo & He). split_and!.
  - by rewrite Eo.
  - unfold loop_codes. by rewrite Eg.
  - intros [Hc Hg]. destruct (He Hc) as [Hc' _]. split; [split; [done|congruence]|]. auto.
Qed.

(** A run with no error at its end has met no Go to loop. *)
Definition tight {A} (m : C A) : Prop :=
  ∀ st a st', m st = inr (a, st') → loop_codes st → no_errors st' → cs_gotoProblems st' = [].

Lemma tight_bind {A B} (m : C A) (k : A → C B) Q : pass m Q → (∀ a, tight (k a)) → tight (m ≫= k).
Proof.
  intros Hm Hk st b st' (a & st1 & E1 & E2)%bind_inr Hl. destruct (Hm _ _ _ E1) as (_ & H & _).
  eapply Hk; eauto.
Qed.

Lemma tight_check_loops {A} env reachable nodes (x : A) : tight (check_loops env reachable nodes ≫= λ _, mret x).
Proof.
  intros st a st' (u & st2 & E & [= _ <-])%bind_inr Hl Hn. unfold check_loops in E.
  apply bind_inr in E as (u1 & st1 & E1 & E). apply bind_inr in E as (s & st3 & [= <- <-] & E).
  assert (loop_codes st1) as Hl1.
  { assert (pass (for_each (λ n, if is_type goto n && includes reachable (in_id n)
                 then resolve (ev_byId env) (Some (in_id n)) ≫= λ _, mret tt else mret tt) nodes) (λ _ _, True)) as Hp.
    { eapply pass_mono; [|apply (pass_for_each _ _ (λ _ _, True))]; [done|]. intros n.
      case_match; [next pass_resolve|]; by apply pass_ret. }
    destruct (Hp _ _ _ E1) as (_ & H & _). auto. }
  apply loop_errors in E as (Eg & _ & He). destruct (He Hn) as [_ Hnone]. rewrite Eg.
  destruct (cs_gotoProblems st1) as [|p l] eqn:Ep; [done|]. exfalso.
  apply (Hnone p); [by apply elem_of_cons; left|]. apply Hl1. rewrite Ep. by apply elem_of_cons; left.
Qed.

Lemma body_tight graph ctx : tight (compile_body graph ctx).
Proof.
  unfold compile_body. cbn zeta.
  eapply tight_bind; [apply size_pass|]. intros ?. eapply tight_bind; [apply ids_pass|]. intros ?.
  eapply tight_bind; [apply entries_pass|]. intros ?. eapply tight_bind; [apply scan_pass|]. intros slot.
  eapply tight_bind; [apply reach_pass|]. intros reachable. eapply tight_bind; [apply warn_pass|]. intros ?.
  eapply tight_bind; [apply compile_steps_pass|]. intros ?. apply tight_check_loops.
Qed.

(** What the body of an accepted run established. *)
Record body_ok (graph : IvrGraph) (ctx : CompileContext) (reachable : list string)
    (planNodes : list (string * PlanNode)) (o : list PromptId) : Prop := {
  bo_ids : ∀ n, n ∈ ig_nodes graph → ID_RE (in_id n) = true;
  bo_start : ∃ e, entries_of (ig_nodes graph) = [e];
  bo_size : (Z.of_nat (length (ig_nodes graph)) ≤ default LIMITS.blocks (cx_maxBlocks ctx))%Z;
  bo_reachable : ∀ e, head (entries_of (ig_nodes graph)) = Some e →
    ∀ id, id ∈ reachable ↔ rtc (edge (next_of (env_of graph ctx))) (in_id e) id ∧ is_Some (next_of (env_of graph ctx) id);
  bo_known : ∀ id n, id ∈ reachable → om_get id (nodes_by_id (ig_nodes graph)) = Some n → in_type n ≠ None;
  bo_blocks : NoDup (List.map in_id (ig_nodes graph)) → ∀ n, n ∈ ig_nodes graph → in_id n ∈ reachable →
    ∃ p, block_ok (env_of graph ctx) o n p ∧ om_get (in_id n) planNodes = p;
  bo_nodes : ∀ id, id ∈ om_keys planNodes → id ∈ reachable ∧ id ∈ List.map in_id (ig_nodes graph);
  bo_loops : ∀ n, n ∈ ig_nodes graph → is_type goto n = true → in_id n ∈ reachable →
    ∃ r, resolves (env_of graph ctx) (Some (in_id n)) r;
}.

Lemma body_pass graph ctx :
  pass (compile_body graph ctx) (λ x o, x.1.1 = env_of graph ctx ∧ body_ok graph ctx x.1.2 x.2 o).
Proof.
  unfold compile_body. cbn zeta. next size_pass. next ids_pass. next entries_pass.
  next scan_pass. next reach_pass. next warn_pass. next compile_steps_pass. next loops_pass.
  apply pass_ret. intros o Hloops [Hb Hk] _ [Hr Hkn] -> Hs Hi Hz. simpl.
  split; [done|]. by split.
Qed.

(** The run of an accepted draft. *)
Lemma accepted_run graph ctx r :
  compileIvr graph ctx = inr r → cr_ok r = true →
  body_ok graph ctx (cr_reachable r) (pl_nodes (cr_plan r)) (pl_prompts (cr_plan r)) ∧
  ∃ st st', compile_start (env_of graph ctx) (head (entries_of (ig_nodes graph))) st = inr (pl_start (cr_plan r), st').
Proof.
  unfold compileIvr. destruct (compile_run graph ctx _) as [e|[[plan reachable] st2]] eqn:E; [done|].
  intros [= <-] Hok. simpl in *. apply negb_true_iff in Hok.
  apply bind_inr in E as ([[env reachable'] planNodes] & st1 & E1 & E).
  apply bind_inr in E as (start & st3 & E2 & E). apply bind_inr in E as (s & st4 & [= <- <-] & E).
  injection E as <- <- <-. simpl.
  assert (cs_issues st3 = cs_issues st1 ∧ cs_promptOrder st3 = cs_promptOrder st1) as [Ei Eo].
  { revert E2. unfold compile_start, ptr, resolve. case_match; [|by intros [= _ <-]].
    intros (x & st5 & E & E')%bind_inr. destruct x as [r looped].
    apply bind_inr in E' as (u & st6 & [= _ <-] & [= _ <-]). simpl.
    destruct (resolve_walk _ _ _ _); simpl in E; [|done]. by injection E as _ <-. }
  assert (no_errors st1) as Hn1 by (unfold no_errors; by rewrite <- Ei).
  assert (cs_gotoProblems st1 = []) as Hg1.
  { eapply body_tight; [exact E1| |done]. intros p []%not_elem_of_nil. }
  destruct (body_pass graph ctx _ _ _ E1) as (_ & _ & H). destruct H as [_ H]; [done|].
  destruct (H (cs_promptOrder st3)) as [Henv Hb]; [by rewrite Eo|]. simpl in *. subst env.
  split; [done|]. eauto.
Qed.

(** ** Pointers *)

Definition flow_step (graph : IvrGraph) (ctx : CompileContext) : string → string → Prop :=
  edge (next_of (env_of graph ctx)).

Definition in_flow (graph : IvrGraph) (id : string) : Prop := id ∈ List.map in_id (ig_nodes graph).

Lemma next_of_some graph ctx id : is_Some (next_of (env_of graph ctx) id) ↔ in_flow graph id.
Proof.
  unfold next_of, in_flow. rewrite <- nodes_by_id_keys, <- om_has_true. unfold om_has. simpl.
  destruct (om_get id _); simpl; split; try done; intros; eauto.
Qed.

Lemma flow_step_in_flow graph ctx a b : flow_step graph ctx a b → in_flow graph b.
Proof.
  intros (l & E & Hb). unfold next_of in E. simpl in E. destruct (om_get a _) as [n|]; [|done].
  injection E as <-. unfold pushes in Hb. apply elem_of_app in Hb as [[Hb _]%elem_of_lfilter|Hb].
  - apply list_elem_of_omap in Hb as (h & _ & Hs). unfold slot_get in Hs. simpl in Hs.
    apply slot_map_target in Hs as (m & Em & _). apply nodes_by_id_keys, om_has_true. unfold om_has. by rewrite Em.
  - unfold jump_of in Hb. destruct (is_type goto n); [|by apply not_elem_of_nil in Hb].
    destruct (goto_target n) as [t|]; [|by apply not_elem_of_nil in Hb].
    destruct (om_has t _) eqn:Eh; [|by apply not_elem_of_nil in Hb].
    apply list_elem_of_singleton in Hb as ->. by apply nodes_by_id_keys, om_has_true.
Qed.

Lemma reach_in_flow graph ctx root id : in_flow graph root → rtc (flow_step graph ctx) root id → in_flow graph id.
Proof.
  intros Hr H. apply (@rtc_ind_r _ (flow_step graph ctx) (λ x, in_flow graph x) root); [done| |done].
  intros a b _ Hab _. by eapply flow_step_in_flow.
Qed.

Lemma entries_in_flow graph e : head (entries_of (ig_nodes graph)) = Some e → e ∈ ig_nodes graph ∧ in_type e = Some entry.
Proof.
  intros He. assert (e ∈ entries_of (ig_nodes graph)) as Hin.
  { destruct (entries_of _); [done|]. injection He as ->. by apply elem_of_cons; left. }
  apply elem_of_lfilter in Hin as [Hin Ht]. split; [done|]. by apply bool_decide_eq_true in Ht.
Qed.

(** What any run that returns reports as reachable. *)
Lemma body_search graph ctx st env reachable planNodes st' e :
  compile_body graph ctx st = inr ((env, reachable, planNodes), st') → head (entries_of (ig_nodes graph)) = Some e →
  ∃ found, search (λ _, false) (next_of (env_of graph ctx)) (reach_fuel (env_of graph ctx)) [in_id e] [] = Some (found, reachable).
Proof.
  unfold compile_body. cbn zeta. intros E He.
  apply bind_inr in E as (u1 & s1 & _ & E). apply bind_inr in E as (u2 & s2 & _ & E).
  apply bind_inr in E as (u3 & s3 & _ & E). apply bind_inr in E as (slot & s4 & E4%scan_edges_slot & E). subst slot.
  apply bind_inr in E as (seen & s5 & E5 & E). apply bind_inr in E as (u6 & s6 & _ & E).
  apply bind_inr in E as (pn & s7 & _ & E). apply bind_inr in E as (u8 & s8 & _ & E). injection E as _ <- _ _.
  unfold reachable_from in E5. rewrite He in E5. apply bind_inr in E5 as ([found seen'] & s9 & E9 & E5).
  change (Build_Env ctx (nodes_by_id (ig_nodes graph)) (fold_left (slot_step (nodes_by_id (ig_nodes graph))) (ig_edges graph) []))
    with (env_of graph ctx) in *.
  destruct (search _ _ _ _ _) as [[f s]|] eqn:Es; [|done]. injection E9 as -> -> _.
  destruct (existsb _ seen'); [done|]. injection E5 as -> _. eauto.
Qed.

(** *** What a caller can meet

    Read off the draft, with nothing of the compiler's maps: a connection joins
    two blocks of the flow when its source has that exit and its target is not
    Start; the first such connection of an exit is the one that counts, and a
    Go to leads to the block it names. *)

(** The exits of a block, when its type is known. *)
Definition has_handle (n : IvrNode) (h : string) : Prop :=
  ∃ hs x, handles_of n = Some hs ∧ x ∈ hs ∧ oh_id x = h.

Definition joins (graph : IvrGraph) (e : IvrEdge) : Prop :=
  (∃ s, s ∈ ig_nodes graph ∧ in_id s = ie_source e ∧ has_handle s (ie_sourceHandle e)) ∧
  ∃ t, t ∈ ig_nodes graph ∧ in_id t = ie_target e ∧ in_type t ≠ Some entry.

Inductive caller_step (graph : IvrGraph) : string → string → Prop :=
  | by_connection before e after :
      ig_edges graph = before ++ e :: after → joins graph e → ie_target e ≠ "" →
      (∀ e', e' ∈ before → joins graph e' →
         ie_source e' = ie_source e → ie_sourceHandle e' = ie_sourceHandle e → False) →
      caller_step graph (ie_source e) (ie_target e)
  | by_jump n t :
      n ∈ ig_nodes graph → in_type n = Some goto → get "targetNodeId" (config_of n) = VStr t →
      t ≠ "" → in_flow graph t → caller_step graph (in_id n) t.

Lemma handle_plain n h : has_handle n h → sforall plain h = true.
Proof.
  intros (hs & x & E & Hx & <-). unfold handles_of in E. destruct (in_type n); [|done]. injection E as <-.
  eapply has_exit_plain. unfold has_exit. apply existsb_elem_of. exists x. split; [done|].
  by apply bool_decide_eq_true.
Qed.

Lemma live_edge_joins graph e :
  NoDup (List.map in_id (ig_nodes graph)) → live_edge (nodes_by_id (ig_nodes graph)) e = true ↔ joins graph e.
Proof.
  intros Hids. unfold live_edge, joins. split.
  - destruct (om_get (ie_source e) _) as [s|] eqn:Es; [|done]. destruct (om_get (ie_target e) _) as [t|] eqn:Et; [|done].
    apply nodes_by_id_get in Es as [Hs Es], Et as [Ht Et]. intros [Hn Hh]%andb_true_iff.
    unfold is_type in Hn. bool_hyps. split; [|by eauto]. exists s. split_and!; [done..|].
    apply existsb_elem_of in Hh as (x & Hx & E). unfold has_handle. destruct (handles_of s) as [hs|]; [|by apply not_elem_of_nil in Hx].
    exists hs, x. split_and!; [done..|]. by apply bool_decide_eq_true in E.
  - intros [(s & Hs & <- & hs & x & Eh & Hx & E) (t & Ht & <- & Hn)].
    rewrite !nodes_by_id_node by done. rewrite Eh. apply andb_true_iff. split.
    + unfold is_type. by rewrite bool_decide_eq_false_2.
    + apply existsb_elem_of. exists x. split; [done|]. by apply bool_decide_eq_true.
Qed.

(** The slot of an exit: the target of its first live connection. *)
Lemma slot_fold_get byId key l acc :
  om_get key (fold_left (slot_step byId) l acc) =
  match om_get key acc with
  | Some t => Some t
  | None => ie_target <$> find (λ e, live_edge byId e && (slot_of (ie_source e) (ie_sourceHandle e) ==? key)) l
  end.
Proof.
  revert acc. induction l as [|e l IH]; intros acc; simpl; [by destruct (om_get key acc)|]. rewrite IH.
  unfold slot_step. destruct (live_edge byId e); simpl; [|done].
  unfold om_has. destruct (decide (slot_of (ie_source e) (ie_sourceHandle e) = key)) as [<-|Hne].
  - rewrite bool_decide_eq_true_2 by done. destruct (om_get _ acc) as [t|] eqn:Ea; simpl; [by rewrite Ea|].
    by rewrite om_get_set_eq.
  - rewrite bool_decide_eq_false_2 by done. destruct (om_get (slot_of _ _) acc); simpl; [done|]. by rewrite om_get_set_ne.
Qed.

Lemma find_first {A} (f : A → bool) l x :
  find f l = Some x ↔ ∃ before after, l = before ++ x :: after ∧ f x = true ∧ ∀ y, y ∈ before → f y = false.
Proof.
  induction l as [|y l IH]; simpl.
  { split; [done|]. by intros ([|? ?] & ? & ? & _). }
  destruct (f y) eqn:Ey.
  - split.
    + intros [= ->]. exists [], l. split_and!; [done..|]. by intros z ?%not_elem_of_nil.
    + intros ([|z before] & after & E & Hx & Hb); [by injection E as -> ->|]. injection E as -> ->.
      rewrite Hb in Ey; [done|]. by apply elem_of_cons; left.
  - rewrite IH. split.
    + intros (before & after & -> & Hx & Hb). exists (y :: before), after. split_and!; [done..|].
      intros z [->|Hz]%elem_of_cons; auto.
    + intros ([|z before] & after & E & Hx & Hb); [injection E as -> ->; congruence|]. injection E as -> ->.
      exists before, after. split_and!; [done..|]. intros w Hw. apply Hb. by apply elem_of_cons; right.
Qed.

(** The compiler's search follows exactly these steps. *)
Lemma slot_get_caller graph ctx n h t :
  NoDup (List.map in_id (ig_nodes graph)) → n ∈ ig_nodes graph → has_handle n h →
  slot_get (env_of graph ctx) (in_id n) h = Some t ↔
  ∃ before e after, ig_edges graph = before ++ e :: after ∧ joins graph e ∧
    ie_source e = in_id n ∧ ie_sourceHandle e = h ∧ ie_target e = t ∧
    ∀ e', e' ∈ before → joins graph e' → ie_source e' = in_id n → ie_sourceHandle e' = h → False.
Proof.
  intros Hids Hn Hh. unfold slot_get, slot_map. simpl. unfold slot_map. rewrite slot_fold_get. simpl.
  set (live := live_edge _). assert (∀ e, live e && (slot_of (ie_source e) (ie_sourceHandle e) ==? slot_of (in_id n) h) = true ↔
    joins graph e ∧ ie_source e = in_id n ∧ ie_sourceHandle e = h) as Hf.
  { intros e. rewrite andb_true_iff. unfold live. rewrite live_edge_joins by done. rewrite bool_decide_eq_true. split.
    - intros [Hj E]. split; [done|]. destruct Hj as [(s & _ & _ & Hs) _].
      apply slot_of_inj in E; [done|by eapply handle_plain..].
    - by intros (? & -> & ->). }
  split.
  - destruct (find _ _) as [e|] eqn:Ef; [|done]. intros [= <-].
    apply find_first in Ef as (before & after & -> & He & Hb). apply Hf in He as (Hj & Es & Eh).
    exists before, e, after. split_and!; try done. intros e' He' Hj' Es' Eh'. specialize (Hb e' He').
    assert (Ht : live e' && (slot_of (ie_source e') (ie_sourceHandle e') ==? slot_of (in_id n) h) = true) by (by apply Hf).
    cbv beta in Hb. congruence.
  - intros (before & e & after & E & Hj & Es & Eh & <- & Hb).
    match goal with |- _ <$> find ?f ?l = _ => assert (find f l = Some e) as Ef end.
    { apply find_first. exists before, after. split_and!; [done|by apply Hf|]. intros e' He'.
      apply not_true_is_false. intros (Hj' & Es' & Eh')%Hf. by eapply Hb. }
    by rewrite Ef.
Qed.

Lemma flow_step_caller graph ctx a b :
  NoDup (List.map in_id (ig_nodes graph)) → flow_step graph ctx a b ↔ caller_step graph a b.
Proof.
  intros Hids. split.
  - intros (l & E & Hb). unfold next_of in E. simpl in E. destruct (om_get a _) as [n|] eqn:En; [|done].
    apply nodes_by_id_get in En as [Hn <-]. injection E as <-. unfold pushes in Hb.
    apply elem_of_app in Hb as [[Hb Hne]%elem_of_lfilter|Hb].
    + unfold nonempty in Hne. bool_hyps. apply list_elem_of_omap in Hb as (x & Hx & Es).
      destruct (handles_of n) as [hs|] eqn:Ehs; [|by apply not_elem_of_nil in Hx]. simpl in Hx.
      apply slot_get_caller in Es as (before & e & after & Ee & Hj & <- & Eh & <- & Hf); [|done..|by exists hs, x].
      eapply by_connection; [done..|]. rewrite Eh. exact Hf.
    + unfold jump_of in Hb. destruct (is_type goto n) eqn:Et; [|by apply not_elem_of_nil in Hb].
      unfold is_type in Et. bool_hyps. destruct (goto_target n) as [t|] eqn:Eg; [|by apply not_elem_of_nil in Hb].
      destruct (om_has t _) eqn:Eh; [|by apply not_elem_of_nil in Hb].
      apply list_elem_of_singleton in Hb as ->. apply om_has_true, nodes_by_id_keys in Eh.
      unfold goto_target, truthy in Eg. case_bool_decide as Ht; [done|]. injection Eg as <-.
      apply by_jump; try done. unfold as_goto in *. simpl in *. by destruct (get "targetNodeId" _).
  - intros [before e after Ee Hj Hne Hf|n t Hn Ht Hc Hne Hin].
    + pose proof Hj as [(s & Hs & Es & Hh) _]. rewrite <- Es. exists (pushes (env_of graph ctx) (in_id s) s). split.
      { unfold next_of. simpl. by rewrite nodes_by_id_node. }
      unfold pushes. apply elem_of_app. left. apply elem_of_lfilter. split.
      * destruct Hh as (hs & x & Ehs & Hx & Ex) eqn:E'. rewrite Ehs. apply list_elem_of_omap. exists x. split; [done|].
        rewrite Ex. apply slot_get_caller; [done..|]. exists before, e, after. rewrite Es. split_and!; done.
      * unfold nonempty. by rewrite bool_decide_eq_false_2.
    + exists (pushes (env_of graph ctx) (in_id n) n). split.
      { unfold next_of. simpl. by rewrite nodes_by_id_node. }
      unfold pushes. apply elem_of_app. right. unfold jump_of, is_type. rewrite bool_decide_eq_true_2 by done.
      assert (goto_target n = Some t) as ->.
      { unfold goto_target, as_goto, truthy. simpl. rewrite Hc. simpl. by rewrite bool_decide_eq_false_2. }
      assert (om_has t (ev_byId (env_of graph ctx)) = true) as -> by (by apply om_has_true, nodes_by_id_keys).
      by apply list_elem_of_singleton.
Qed.


(** The pointers of a plan node, with the exits they come from. *)
Definition plan_refs (p : PlanNode) : list (string * PlanRef) :=
  match p with
  | pn_play _ next => [(NEXT, next)]
  | pn_menu m => List.map (λ dr, (digitHandle dr.1, dr.2)) (pm_digits m)
                 ++ [(NO_INPUT, pm_on_noinput m); (NO_MATCH, pm_on_nomatch m)]
  | pn_hours h => [(OPEN, ph_open h); (CLOSED, ph_closed h)]
  | pn_caller _ _ m nm => [(MATCH, m); (NO_MATCH, nm)]
  | pn_transfer t => [(NO_ANSWER, pt_on_noanswer t)]
  | pn_voicemail _ | pn_hangup _ => []
  end.

Section accepted.
Context (graph : IvrGraph) (ctx : CompileContext) (r : CompileResult).
Context (Hids : NoDup (List.map in_id (ig_nodes graph))).
Context (Hrun : compileIvr graph ctx = inr r) (Hok : cr_ok r = true).

Let env := env_of graph ctx.
Let o := pl_prompts (cr_plan r).

Lemma accepted_body : body_ok graph ctx (cr_reachable r) (pl_nodes (cr_plan r)) o.
Proof. by destruct (accepted_run _ _ _ Hrun Hok). Qed.

Lemma reach_step a b : a ∈ cr_reachable r → flow_step graph ctx a b → b ∈ cr_reachable r.
Proof.
  destruct accepted_body as [_ [e He] _ Hr _ _ _ _]. specialize (Hr e). rewrite He in Hr. specialize (Hr eq_refl).
  rewrite !Hr. intros [Ha _] Hab. split; [by eapply rtc_r|]. apply next_of_some. by eapply flow_step_in_flow.
Qed.

Lemma reach_node id : id ∈ cr_reachable r → ∃ n, n ∈ ig_nodes graph ∧ in_id n = id ∧ om_get id (ev_byId env) = Some n.
Proof.
  destruct accepted_body as [_ [e He] _ Hr _ _ _ _]. specialize (Hr e). rewrite He in Hr. specialize (Hr eq_refl).
  rewrite Hr. intros [_ Hn%next_of_some]. apply elem_of_lmap in Hn as (n & -> & Hn).
  exists n. split_and!; try done. by apply nodes_by_id_node.
Qed.

(** A reachable block that is neither Start nor a Go to is in the plan. *)
Lemma plan_has n :
  n ∈ ig_nodes graph → in_id n ∈ cr_reachable r → in_type n ≠ Some entry → in_type n ≠ Some goto →
  in_id n ∈ om_keys (pl_nodes (cr_plan r)).
Proof.
  intros Hn Hr He Hg. destruct accepted_body as [_ _ _ _ Hk Hb _ _].
  destruct (Hb Hids n Hn Hr) as (p & Hp & Ep). apply om_has_true. unfold om_has. rewrite Ep.
  inversion Hp; subst; try done.
  exfalso. apply (Hk (in_id n) n); [done|by apply nodes_by_id_node|done].
Qed.

Lemma goto_ok n : n ∈ ig_nodes graph → in_id n ∈ cr_reachable r → in_type n = Some goto →
  ∃ t, goto_target n = Some (in_id t) ∧ om_get (in_id t) (ev_byId env) = Some t ∧ in_type t ≠ Some entry ∧
    in_id t ∈ cr_reachable r.
Proof.
  intros Hn Hr Hg. destruct accepted_body as [_ _ _ _ _ Hb _ _].
  destruct (Hb Hids n Hn Hr) as (p & Hp & _). inversion Hp as [| | | | | | |t ? Et Hne Hte| |]; subst; try congruence.
  pose proof (nodes_by_id_get _ _ _ Et) as [Htn Etn].
  assert (goto_target n = Some (in_id t)) as Egt.
  { unfold goto_target, truthy. rewrite bool_decide_eq_false_2 by done. by rewrite Etn. }
  exists t. split_and!; [done|by rewrite Etn|done|].
  apply (reach_step (in_id n)); [done|]. exists (pushes env (in_id n) n). split.
  - unfold next_of. simpl. by rewrite nodes_by_id_node.
  - unfold pushes. apply elem_of_app. right. unfold jump_of, is_type.
    rewrite bool_decide_eq_true_2 by done. rewrite Egt.
    assert (om_has (in_id t) (ev_byId env) = true) as -> by (unfold om_has, env; rewrite Etn; by rewrite Et).
    by apply list_elem_of_singleton.
Qed.

(** Following Go to blocks from a reachable block that is not Start ends at
    a block of the plan. *)
Lemma resolve_in_plan fuel id seen ref :
  id ∈ cr_reachable r → (∀ n, om_get id (ev_byId env) = Some n → in_type n ≠ Some entry) →
  resolve_walk fuel (ev_byId env) (Some id) seen = Some (ref, []) →
  ∃ id', ref = Some id' ∧ id' ∈ om_keys (pl_nodes (cr_plan r)).
Proof.
  revert id seen. induction fuel as [|fuel IH]; intros id seen Hr Hne; simpl; [done|].
  destruct (reach_node id Hr) as (n & Hn & En & Eg). simpl in Eg. rewrite Eg.
  destruct (is_type goto n) eqn:Et; simpl.
  - destruct (includes seen id) eqn:Ei.
    { intros [= _ ->]. done. }
    unfold is_type in Et. apply bool_decide_eq_true in Et. rewrite <- En in Hr.
    destruct (goto_ok n Hn Hr Et) as (t & Egt & Ett & Hte & Htr). rewrite Egt. apply IH; [done|].
    intros m Em. rewrite Ett in Em. by injection Em as <-.
  - assert (is_type entry n = false) as ->.
    { unfold is_type. apply bool_decide_eq_false. by apply Hne. }
    intros [= <-]. exists (in_id n). split; [done|]. apply plan_has; [done|by rewrite En|by apply Hne|].
    unfold is_type in Et. by apply bool_decide_eq_false in Et.
Qed.

Lemma slot_reachable n h t :
  n ∈ ig_nodes graph → in_id n ∈ cr_reachable r → has_handle n h → slot_get env (in_id n) h = Some t →
  t ∈ cr_reachable r ∧ ∃ m, om_get t (ev_byId env) = Some m ∧ in_type m ≠ Some entry.
Proof.
  intros Hn Hr (hs & x & Ehs & Hx & <-) Es. pose proof Es as Es'. apply slot_map_target in Es' as (m & Em & Hm).
  split; [|eauto]. apply (reach_step (in_id n)); [done|]. exists (pushes env (in_id n) n). split.
  - unfold next_of. simpl. by rewrite nodes_by_id_node.
  - unfold pushes. apply elem_of_app. left. apply elem_of_lfilter. split.
    + rewrite Ehs. simpl. apply list_elem_of_omap. eauto.
    + unfold nonempty. apply negb_true_iff, bool_decide_eq_false. intros ->.
      apply nodes_by_id_get in Em as [Hm1 Hm2]. pose proof (bo_ids _ _ _ _ _ accepted_body m Hm1) as Hid.
      by rewrite Hm2 in Hid.
Qed.

(** An exit of a reachable block leads into the plan, or is not connected. *)
Lemma points_in_plan n h ref :
  n ∈ ig_nodes graph → in_id n ∈ cr_reachable r → has_handle n h → points env (in_id n) h ref →
  match ref with
  | Some id => id ∈ om_keys (pl_nodes (cr_plan r))
  | None => slot_has env (in_id n) h = false
  end.
Proof.
  intros Hn Hr Hh. unfold points. destruct (slot_get env (in_id n) h) as [t|] eqn:Es.
  2:{ intros [= <-]. unfold slot_has, om_has. unfold slot_get in Es. by rewrite Es. }
  intros Hres. destruct (slot_reachable n h t Hn Hr Hh Es) as (Ht & m & Em & Hm).
  destruct (resolve_in_plan (resolve_fuel (ev_byId env)) t [] ref Ht) as (id' & -> & Hid'); [|exact Hres|done].
  intros k Ek. rewrite Em in Ek. by injection Ek as <-.
Qed.

Lemma menu_handles n d : in_type n = Some menu → d ∈ List.filter isMenuDigit (mc_digits (as_menu (config_of n))) →
  has_handle n (digitHandle d).
Proof.
  intros Ht [Hd Hm]%elem_of_lfilter. unfold has_handle, handles_of. rewrite Ht.
  eexists _, (digit_exit d). split_and!; [done| |done]. unfold outHandles. simpl.
  apply elem_of_app. left. apply elem_of_lmap. exists d. split; [done|]. apply elem_of_sortDigits.
  split; [done|]. by apply isMenuDigit_true.
Qed.

Lemma fixed_handle n t h :
  in_type n = Some t → existsb (λ x, oh_id x ==? h) (outHandles (Build_KnownBlock t (config_of n))) = true → has_handle n h.
Proof.
  intros Ht (x & Hx & E)%existsb_elem_of. apply bool_decide_eq_true in E.
  unfold has_handle, handles_of. rewrite Ht. eauto.
Qed.

Lemma menu_fallback n h : in_type n = Some menu → h = NO_INPUT ∨ h = NO_MATCH → has_handle n h.
Proof.
  intros Ht Hh. apply (fixed_handle n menu); [done|]. unfold outHandles. simpl. rewrite existsb_app.
  apply orb_true_iff. right. by destruct Hh as [-> | ->].
Qed.

(** Every pointer of a block's plan node is the resolution of one of its exits. *)
Lemma block_refs n p h ref :
  block_ok env o n (Some p) → (h, ref) ∈ plan_refs p → has_handle n h ∧ points env (in_id n) h ref.
Proof.
  inversion 1; subst; simpl; intros Hin.
  - apply list_elem_of_singleton in Hin as [= -> ->]. split; [|done]. by eapply fixed_handle.
  - match goal with M : menu_ok _ _ _ _ _ |- _ => destruct M as [_ _ (Hk & _) Hroutes _ [Hf1 Hf2]] end.
    apply elem_of_app in Hin as [Hin|Hin].
    + apply elem_of_lmap in Hin as ([d r'] & [= -> ->] & Hd). simpl. split; [|by apply (Hroutes d r')].
      apply menu_handles; [done|]. rewrite <- Hk. apply elem_of_lmap. by exists (d, r').
    + apply elem_of_cons in Hin as [[= -> ->]|[= -> ->]%list_elem_of_singleton];
        (split; [apply menu_fallback; [done|tauto]|done]).
  - match goal with M : hours_ok _ _ _ _ |- _ => destruct M as [_ _ _ _ _ [Hf1 Hf2]] end.
    apply elem_of_cons in Hin as [[= -> ->]|[= -> ->]%list_elem_of_singleton];
      (split; [by eapply fixed_handle|done]).
  - apply elem_of_cons in Hin as [[= -> ->]|[= -> ->]%list_elem_of_singleton];
      (split; [by eapply fixed_handle|done]).
  - apply list_elem_of_singleton in Hin as [= -> ->]. split; [|done]. by eapply fixed_handle.
  - by apply not_elem_of_nil in Hin.
  - by apply not_elem_of_nil in Hin.
Qed.

(** Where a plan node comes from. *)
Lemma plan_node_block id p :
  om_get id (pl_nodes (cr_plan r)) = Some p →
  ∃ n, n ∈ ig_nodes graph ∧ in_id n = id ∧ id ∈ cr_reachable r ∧ block_ok env o n (Some p).
Proof.
  intros Ep. destruct accepted_body as [_ _ _ _ _ Hb Hk _].
  destruct (Hk id) as [Hr Hin]. { apply om_has_true. unfold om_has. by rewrite Ep. }
  apply elem_of_lmap in Hin as (n & -> & Hn). destruct (Hb Hids n Hn Hr) as (p' & Hp' & Ep').
  exists n. rewrite Ep in Ep'. by subst p'.
Qed.

Lemma start_in_plan : ∃ s, pl_start (cr_plan r) = Some s ∧ s ∈ om_keys (pl_nodes (cr_plan r)).
Proof.
  destruct (accepted_run _ _ _ Hrun Hok) as [Hb (st & st' & E)]. destruct Hb as [_ [e He] _ Hr _ Hbl _ Hlo].
  rewrite He in E. simpl in E. specialize (Hr e). rewrite He in Hr. specialize (Hr eq_refl).
  destruct (entries_in_flow graph e) as [Hn Ht]; [by rewrite He|].
  assert (in_id e ∈ cr_reachable r) as Hre.
  { apply Hr. split; [done|]. apply next_of_some, elem_of_lmap. eauto. }
  destruct (Hbl Hids e Hn Hre) as (p & Hp & _).
  assert (slot_has env (in_id e) NEXT = true) as Hs by (inversion Hp; subst; try done; congruence).
  unfold ptr, resolve in E. apply bind_inr in E as ([ref looped] & st1 & E1 & E).
  apply bind_inr in E as (u & st2 & _ & E). injection E as E3 _.
  destruct (resolve_walk _ _ _ _) as [[ref' looped']|] eqn:Ew; [|done]. injection E1 as -> -> _.
  fold env in Ew. assert (has_handle e NEXT) as Hh by (by eapply fixed_handle).
  assert (∃ t, slot_get env (in_id e) NEXT = Some t) as [t Es].
  { unfold slot_has, om_has in Hs. unfold slot_get. destruct (om_get _ _); [eauto|done]. }
  destruct (slot_reachable e NEXT t Hn Hre Hh Es) as (Htr & m & Em & Hm). rewrite Es in Ew.
  assert (looped = []) as ->.
  { pose proof Em as Em'. apply nodes_by_id_get in Em' as [Hmn <-]. destruct (is_type goto m) eqn:Eg.
    - destruct (Hlo m Hmn Eg Htr) as [r' Hr']. unfold resolves in Hr'. fold env in Hr'.
      rewrite Ew in Hr'. by injection Hr' as _ ->.
    - unfold resolve_fuel in Ew. cbn [resolve_walk] in Ew. rewrite Em, Eg in Ew. by injection Ew as _ <-. }
  pose proof (points_in_plan e NEXT ref Hn Hre Hh) as Hp'. unfold points in Hp'. rewrite Es in Hp'.
  specialize (Hp' Ew). rewrite <- E3. destruct ref as [s|]; [eauto|]. by rewrite Hs in Hp'.
Qed.
End accepted.

(** ** Properties *)

(** C2 The plan of an accepted draft is closed: it starts at one of its own
    nodes, and every pointer of every node leads to a node of the plan,
    unless the exit it comes from is not connected. *)
Theorem compile_ok_closed graph ctx r :
  NoDup (List.map in_id (ig_nodes graph)) → compileIvr graph ctx = inr r → cr_ok r = true →
  (∃ s, pl_start (cr_plan r) = Some s ∧ s ∈ om_keys (pl_nodes (cr_plan r))) ∧
  ∀ id p h ref, om_get id (pl_nodes (cr_plan r)) = Some p → (h, ref) ∈ plan_refs p →
    match ref with
    | Some id' => id' ∈ om_keys (pl_nodes (cr_plan r))
    | None => slot_has (env_of graph ctx) id h = false
    end.
Proof.
  intros Hids Hrun Hok. split; [by eapply start_in_plan|].
  intros id p h ref Ep Hin. destruct (plan_node_block graph ctx r Hids Hrun Hok id p Ep) as (n & Hn & <- & Hr & Hb).
  edestruct block_refs as [Hh Hp]; [exact Hb|exact Hin|]. by eapply points_in_plan.
Qed.

(** C1 Every node of the plan of an accepted draft keeps the contract of its
    block (prompts that exist, one to twelve distinct keys, times within
    bounds, opening minutes in order, real dates, a destination the rules
    allow), and the plan has a node for every reachable block but Start and
    the Go to blocks, which are compiled away. *)
Theorem compile_ok_blocks graph ctx r :
  NoDup (List.map in_id (ig_nodes graph)) → compileIvr graph ctx = inr r → cr_ok r = true →
  (∀ id p, om_get id (pl_nodes (cr_plan r)) = Some p →
     ∃ n, n ∈ ig_nodes graph ∧ in_id n = id ∧ id ∈ cr_reachable r ∧
       block_ok (env_of graph ctx) (pl_prompts (cr_plan r)) n (Some p)) ∧
  (∀ n, n ∈ ig_nodes graph → in_id n ∈ cr_reachable r → in_type n ≠ Some entry → in_type n ≠ Some goto →
     in_id n ∈ om_keys (pl_nodes (cr_plan r))).
Proof.
  intros Hids Hrun Hok. split.
  - intros id p. by eapply plan_node_block.
  - intros n. by eapply plan_has.
Qed.

(** ** Witnesses *)

Definition block_of (id : string) (t : IvrNodeType) (config : obj) : IvrNode :=
  {| in_id := id; in_type := Some t; in_data := Some (Build_NodeData VUndef config) |}.

(** Start, a menu that repeats through a Go to on a wrong key, a transfer and
    a voicemail box, business hours and a goodbye. *)
Definition sample_flow : IvrGraph :=
  {| ig_nodes :=
       [block_of "s" entry []; block_of "h" schedule (defaultConfig schedule);
        block_of "m" menu (om_set "prompts" (VArr [vint 7]) (defaultConfig menu));
        block_of "d" dial [("target", VObj [("kind", VStr "external"); ("number", VStr "617 454 4217")]);
                           ("passCallerId", VBool true); ("ringTimeoutSec", vint 20)];
        block_of "v" voicemail [("did", VStr "+16175550100")];
        block_of "g" goto [("targetNodeId", VStr "m")]; block_of "x" hangup []];
     ig_edges :=
       [Build_IvrEdge "e1" "s" "next" "h"; Build_IvrEdge "e2" "h" "open" "m"; Build_IvrEdge "e3" "h" "closed" "v";
        Build_IvrEdge "e4" "m" "d:1" "d"; Build_IvrEdge "e5" "m" "d:2" "x"; Build_IvrEdge "e6" "m" "noMatch" "g";
        Build_IvrEdge "e7" "d" "noAnswer" "v"] |}.

Definition sample_ctx : CompileContext :=
  {| cx_prompts := Some [(7%Z, Build_PromptInfo 7 "Welcome")]; cx_destinations := None; cx_ownDids := []; cx_maxBlocks := None |}.

Definition sample_result : CompileResult :=
  match compileIvr sample_flow sample_ctx with
  | inr r => r
  | inl _ => Build_CompileResult false [] (Build_PlanPreview None 0 0 [] []) []
  end.

Example sample_result_facts :
  compileIvr sample_flow sample_ctx = inr sample_result ∧ cr_ok sample_result = true ∧
  om_keys (pl_nodes (cr_plan sample_result)) = ["h"; "m"; "d"; "v"; "x"] ∧
  List.map ci_code (cr_issues sample_result) = ["exit_hangs_up"].
Proof. split_and!; by vm_compute. Qed.

Lemma sample_run : compileIvr sample_flow sample_ctx = inr sample_result.
Proof. apply sample_result_facts. Qed.
Lemma sample_ok : cr_ok sample_result = true.
Proof. apply sample_result_facts. Qed.
Lemma sample_flow_ids : NoDup (List.map in_id (ig_nodes sample_flow)).
Proof. apply (bool_decide_unpack _). by vm_compute. Qed.


Lemma compile_ok_closed_witness :
  ∃ s, pl_start (cr_plan sample_result) = Some s ∧ s ∈ om_keys (pl_nodes (cr_plan sample_result)).
Proof. exact (proj1 (compile_ok_closed sample_flow sample_ctx sample_result sample_flow_ids sample_run sample_ok)). Defined.

Lemma compile_ok_blocks_witness :
  "m" ∈ om_keys (pl_nodes (cr_plan sample_result)) ∧
  ∃ p n, om_get "m" (pl_nodes (cr_plan sample_result)) = Some p ∧ n ∈ ig_nodes sample_flow ∧ in_id n = "m" ∧
    block_ok (env_of sample_flow sample_ctx) (pl_prompts (cr_plan sample_result)) n (Some p).
Proof.
  destruct (compile_ok_blocks sample_flow sample_ctx sample_result sample_flow_ids sample_run sample_ok) as [H _].
  split; [apply (bool_decide_unpack _); by vm_compute|].
  destruct (om_get "m" (pl_nodes (cr_plan sample_result))) as [p|] eqn:E; [|by vm_compute in E].
  destruct (H "m" p E) as (n & Hn & Hid & _ & Hb). exists p, n. by split_and!.
Defined.

(** A block of a type this catalog does not know, kept aside and written back
    as [fromGraph] promises, stops the compiler with a TypeError: its title
    is looked up in the catalog. *)
Lemma compile_foreign_throws :
  compileIvr (graph_view (write_work sample_work)) sample_ctx = inl TypeError.
Proof. by vm_compute. Qed.
