(* ===== verification/Transcript.v ===== *)
(** * What callers hear ([flow/compile/ivr.ts], [describePlan])

    The breadth-first walk of a plan that says, block by block, what a caller
    hears and where each choice leads. *)
From S2P Require Import Prelude JsString JsValue Blocks Graph Format Policy IvrTypes Summary Hours Effects Compile CompileOk.
From Stdlib Require QArith_base.

Local Open Scope string_scope.
Local Open Scope nat_scope.
Local Open Scope list_scope.

Record TranscriptBranch := {
  tb_label : string;
  tb_toId : option string;
  tb_toTitle : string;
  tb_earlier : bool;
}.

Record TranscriptEntry := {
  te_nodeId : string;
  te_type : option IvrNodeType;
  te_title : string;
  te_says : string;
  te_branches : list TranscriptBranch;
}.

Record TranscriptContext := {
  tx_promptName : PromptId → option string;
  tx_destinations : option Destinations;
}.

(** ** Numbers in text *)

(** The digits after the point of [r/d], at most twenty of them. *)
Fixpoint fraction_digits (fuel : nat) (r d : Z) : string :=
  match fuel with
  | O => ""
  | S fuel => if (r =? 0)%Z then "" else print_int (10 * r / d) +:+ fraction_digits fuel ((10 * r) mod d) d
  end.

(** [`${n}`] *)
Definition number_text (n : num) : string :=
  match n with
  | NaN => "NaN"
  | Inf neg => if neg then "-Infinity" else "Infinity"
  | Fin q =>
      let a := Z.abs (QArith_base.Qnum q) in
      let d := Zpos (QArith_base.Qden q) in
      (if (QArith_base.Qnum q <? 0)%Z then "-" else "") +:+ print_int (a / d)
      +:+ (if (a mod d =? 0)%Z then "" else "." +:+ fraction_digits 20 (a mod d) d)
  end.

(** [n + 1] *)
Definition num_succ (n : num) : num := match n with Fin q => Fin (QArith_base.Qplus q (QArith_base.Qmake 1 1)) | _ => n end.

(** ** The sentences *)

Definition promptPhrase (ids : list PromptId) (ctx : TranscriptContext) : string :=
  quoteList (List.map (λ id, default "a deleted message" (tx_promptName ctx id)) ids).

(** What a plan node says, and its choices in order. *)
Definition says_of (p : PlanNode) (node : IvrNode) (ctx : TranscriptContext) : string :=
  match p with
  | pn_play prompts _ =>
      if 0 <? length prompts then "Plays " +:+ promptPhrase prompts ctx +:+ "." else "Plays nothing yet."
  | pn_menu m =>
      let tries := if pm_retries m ==? num_of_Z 0 then "once"
                   else "up to " +:+ number_text (num_succ (pm_retries m)) +:+ " times" in
      "Plays " +:+ (if 0 <? length (pm_prompts m) then promptPhrase (pm_prompts m) ctx else "nothing yet")
      +:+ " and listens for a key, asking " +:+ tries +:+ "."
  | pn_hours h =>
      let closed := length (ph_closed_dates h) in
      "Checks your hours (" +:+ drop_parenthesis (timezoneLabel (ph_tz h)) +:+ "): "
      +:+ formatWeekly (sc_weekly (as_schedule (config_of node)))
      +:+ (if 0 <? closed then ", closed on " +:+ print_int (Z.of_nat closed) +:+ " holiday"
             +:+ (if closed =? 1 then "" else "s") else "") +:+ "."
  | pn_caller mode values _ _ =>
      if mode ==? cm_anonymous then "Checks whether the caller withheld their number."
      else "Checks whether the caller’s number " +:+ (if mode ==? cm_prefix then "starts with" else "is")
           +:+ " " +:+ join ", " values +:+ "."
  | pn_transfer t =>
      let where_ := match pt_dest t with
                    | dest_external e164 => "the outside number " +:+ prettyNumber e164
                    | dest_own did _ => describeOwnNumber did (tx_destinations ctx)
                    end in
      "Transfers the caller to " +:+ where_ +:+ ", ringing up to " +:+ number_text (pt_ring_timeout t)
      +:+ " seconds and showing "
      +:+ (if pt_pass_caller_id t then "the caller’s number" else "this IVR’s number") +:+ "."
  | pn_voicemail did => "Sends the caller to voicemail: " +:+ describeOwnNumber did (tx_destinations ctx) +:+ "."
  | pn_hangup prompts =>
      if 0 <? length prompts then "Plays " +:+ promptPhrase prompts ctx +:+ ", then hangs up." else "Hangs up."
  end.

(** The calls of [branch], in order. *)
Definition choices_of (p : PlanNode) : list (string * PlanRef) :=
  match p with
  | pn_play _ next => [("Then", next)]
  | pn_menu m =>
      omap (λ d, match om_get d (pm_digits m) with Some r => Some ("Press " +:+ d, r) | None => None end) DIGIT_ORDER
      ++ [("No key pressed", pm_on_noinput m); ("Wrong key", pm_on_nomatch m)]
  | pn_hours h => [("Open", ph_open h); ("Closed", ph_closed h)]
  | pn_caller mode _ m nm =>
      [(if mode ==? cm_anonymous then "Withheld" else "Matches", m);
       (if mode ==? cm_anonymous then "Not withheld" else "Doesn’t match", nm)]
  | pn_transfer t => [("No answer or busy", pt_on_noanswer t)]
  | pn_voicemail _ | pn_hangup _ => []
  end.

(** ** The walk *)

Section describe.
Context (byId : list (string * IvrNode)) (plan : PlanPreview) (ctx : TranscriptContext).

(** [None]: a TypeError in [blockTitle]. *)
Definition titleOf (id : option string) : option string :=
  match id with
  | None => Some "The call ends"
  | Some id => match om_get id byId with Some n => blockTitle n | None => Some "The call ends" end
  end.

(** [queued] holds the ids of [order], so the array stands for both. *)
Definition enqueue (order : list string) (id : PlanRef) : list string :=
  match id with
  | Some id => if om_has id (pl_nodes plan) && negb (includes order id) then order ++ [id] else order
  | None => order
  end.

Fixpoint index_of (x : string) (l : list string) : nat :=
  match l with [] => 0 | y :: l => if y ==? x then 0 else S (index_of x l) end.

(** One call of [branch] at turn [i]. *)
Definition branch (i : nat) (acc : option (list TranscriptBranch * list string)) (c : string * PlanRef)
    : option (list TranscriptBranch * list string) :=
  match acc with
  | None => None
  | Some (branches, order) =>
      match titleOf c.2 with
      | None => None
      | Some title =>
          let earlier := match c.2 with
                         | Some to => includes order to && (index_of to order <=? i)
                         | None => false
                         end in
          Some (branches ++ [Build_TranscriptBranch c.1 c.2 title earlier], enqueue order c.2)
      end
  end.

(** [for (let i = 0; i < order.length; i++)]: [None] on a TypeError, and when
    the fuel is spent. *)
Fixpoint describe (fuel : nat) (i : nat) (order : list string) (out : list TranscriptEntry) : option (list TranscriptEntry) :=
  match order !! i with
  | None => Some out
  | Some id =>
      match fuel with
      | O => None
      | S fuel =>
          match om_get id (pl_nodes plan), om_get id byId with
          | Some p, Some node =>
              match fold_left (branch i) (choices_of p) (Some ([], order)) with
              | None => None
              | Some (branches, order) =>
                  match blockTitle node with
                  | None => None
                  | Some title =>
                      describe fuel (S i) order
                        (out ++ [Build_TranscriptEntry id (in_type node) title (says_of p node ctx) branches])
                  end
              end
          | _, _ => describe fuel (S i) order out
          end
      end
  end.
End describe.

Definition describePlan (graph : IvrGraph) (plan : PlanPreview) (ctx : TranscriptContext) : option (list TranscriptEntry) :=
  describe (nodes_by_id (ig_nodes graph)) plan ctx (length (pl_nodes plan)) 0 (enqueue plan [] (pl_start plan)) [].

(** ** Lemmas *)

Section walk.
Context (graph : IvrGraph) (plan : PlanPreview) (ctx : TranscriptContext).
Context (Hty : well_typed graph) (Hsub : ∀ id, id ∈ om_keys (pl_nodes plan) → in_flow graph id).

Let byId := nodes_by_id (ig_nodes graph).

(** A choice of a plan node that leads to a plan node. *)
Definition plan_step (a b : string) : Prop :=
  ∃ p l, om_get a (pl_nodes plan) = Some p ∧ (l, Some b) ∈ choices_of p ∧ b ∈ om_keys (pl_nodes plan).

Definition queue_ok (order : list string) : Prop :=
  NoDup order ∧ ∀ id, id ∈ order → id ∈ om_keys (pl_nodes plan).

Lemma enqueue_spec order r :
  queue_ok order →
  queue_ok (enqueue plan order r) ∧ order `prefix_of` enqueue plan order r ∧
  ∀ id, id ∈ enqueue plan order r ↔ id ∈ order ∨ (r = Some id ∧ id ∈ om_keys (pl_nodes plan)).
Proof.
  intros [Hnd Hin]. unfold enqueue. destruct r as [id|]; [|split_and!; [done..|naive_solver]].
  destruct (om_has id (pl_nodes plan)) eqn:Eh; simpl.
  2:{ apply om_has_false in Eh. split_and!; [done..|naive_solver]. }
  apply om_has_true in Eh. destruct (includes order id) eqn:Ei; simpl.
  { apply includes_true in Ei. split_and!; [done..|naive_solver]. }
  apply includes_false in Ei. split_and!.
  - split; [|intros x [?| ->%list_elem_of_singleton]%elem_of_app; auto].
    apply NoDup_app. split_and!; [done| |apply NoDup_singleton]. by intros x Hx ->%list_elem_of_singleton.
  - by apply prefix_app_r.
  - intros x. rewrite elem_of_app, list_elem_of_singleton. naive_solver.
Qed.

Lemma title_some id : is_Some (titleOf byId id).
Proof.
  unfold titleOf. destruct id as [id|]; [|eauto]. destruct (om_get id byId) as [n|] eqn:E; [|eauto].
  apply nodes_by_id_get in E as [Hn _]. destruct (blockTitle_titled n (Hty n Hn)) as (s & -> & _). eauto.
Qed.

Lemma branches_spec i cs bs order :
  queue_ok order →
  ∃ bs' order', fold_left (branch byId plan i) cs (Some (bs, order)) = Some (bs', order') ∧
    queue_ok order' ∧ order `prefix_of` order' ∧
    List.map (λ b, (tb_label b, tb_toId b)) bs' = List.map (λ b, (tb_label b, tb_toId b)) bs ++ cs ∧
    ∀ id, id ∈ order' ↔ id ∈ order ∨ (∃ l, (l, Some id) ∈ cs) ∧ id ∈ om_keys (pl_nodes plan).
Proof.
  revert bs order. induction cs as [|c cs IH]; intros bs order Hq; simpl.
  { exists bs, order. rewrite app_nil_r. split_and!; try done. intros id. split; [by left|].
    intros [?|[(l & []%not_elem_of_nil) _]]; done. }
  destruct (title_some c.2) as [t ->]. destruct (enqueue_spec order c.2 Hq) as (Hq1 & Hp1 & Hin1).
  match goal with |- context [fold_left _ cs (Some (?b, ?o))] => destruct (IH b o Hq1) as (bs' & o' & E & Hq2 & Hp2 & Hl & Hin2) end.
  exists bs', o'. split_and!; [done|done|by etrans| |].
  - rewrite Hl, List.map_app, <- app_assoc. simpl. by destruct c.
  - intros id. rewrite Hin2, Hin1. split.
    + intros [[?|[E1 ?]]|[(l & Hl') ?]]; [by left|right|right].
      * split; [|done]. exists c.1. destruct c; simpl in *; subst. by apply elem_of_cons; left.
      * split; [|done]. exists l. by apply elem_of_cons; right.
    + intros [?|[(l & [Ec|Hl']%elem_of_cons) ?]]; [by left; left|left; right; by subst c|right; eauto].
Qed.

(** The ids from place [i] on are still to be described. *)
Record describe_inv (root : string) (i : nat) (order : list string) (out : list TranscriptEntry) : Prop := {
  di_queue : queue_ok order;
  di_out : List.map te_nodeId out = take i order;
  di_closed : ∀ a b, a ∈ take i order → plan_step a b → b ∈ order;
  di_reach : ∀ a, a ∈ order → rtc plan_step root a;
  di_place : i ≤ length order;
}.

Lemma describe_spec root fuel i order out :
  describe_inv root i order out → length (pl_nodes plan) ≤ fuel + i →
  ∃ out' order', describe byId plan ctx fuel i order out = Some out' ∧
    describe_inv root (length order') order' out' ∧ order `prefix_of` order'.
Proof.
  revert i order out. induction fuel as [|fuel IH]; intros i order out Hinv Hf; simpl.
  - destruct (order !! i) as [id|] eqn:E.
    + exfalso. apply lookup_lt_Some in E. destruct Hinv as [[Hnd Hin] _ _ _ _].
      assert (length order ≤ length (om_keys (pl_nodes plan))) as Hl
        by (apply submseteq_length, NoDup_submseteq; [done|]; intros x; auto).
      unfold om_keys in Hl. rewrite length_map in Hl. lia.
    + exists out, order. apply lookup_ge_None in E. destruct Hinv. split_and!; try done.
      assert (i = length order) as <- by lia. done.
  - destruct (order !! i) as [id|] eqn:E.
    2:{ exists out, order. apply lookup_ge_None in E. destruct Hinv. split_and!; try done.
        assert (i = length order) as <- by lia. done. }
    pose proof (lookup_lt_Some _ _ _ E) as Hi. destruct Hinv as [[Hnd Hin] Hout Hcl Hreach Hplace].
    assert (id ∈ order) as Hido by (by eapply list_elem_of_lookup_2).
    pose proof (Hin id Hido) as Hk. pose proof Hk as Hk'. apply om_has_true in Hk'. unfold om_has in Hk'.
    destruct (om_get id (pl_nodes plan)) as [p|] eqn:Ep; [|done].
    assert (∃ n, om_get id byId = Some n ∧ n ∈ ig_nodes graph) as (n & En & Hn).
    { apply Hsub, nodes_by_id_keys, om_has_true in Hk. unfold om_has in Hk. unfold byId.
      destruct (om_get id (nodes_by_id _)) as [n|] eqn:En; [|done]. apply nodes_by_id_get in En as ?. naive_solver. }
    rewrite En. destruct (branches_spec i (choices_of p) [] order) as (bs & order' & -> & Hq' & Hp' & _ & Hin'); [done|].
    destruct (blockTitle_titled n (Hty n Hn)) as (title & -> & _).
    assert (take (S i) order' = take i order ++ [id]) as Etake.
    { destruct Hp' as [k ->]. rewrite take_app_le by lia. by apply take_S_r. }
    match goal with |- context [describe _ _ _ fuel (S i) order' ?o] =>
      destruct (IH (S i) order' o) as (out' & order'' & E' & Hinv' & Hpre) end; [|lia|].
    + split; [done| | | |].
      * rewrite List.map_app, Hout. simpl. by rewrite Etake.
      * intros a b. rewrite Etake, elem_of_app, list_elem_of_singleton, Hin'.
        intros [Ha| ->] Hab; [left; by eapply Hcl|right].
        destruct Hab as (p' & l & Ep' & Hl & Hb). simplify_eq. eauto.
      * intros a [Ha|[(l & Hl) Ha]]%Hin'; [auto|]. eapply rtc_r; [by apply Hreach|]. by exists p, l.
      * destruct Hp' as [k ->]. rewrite length_app. lia.
    + exists out', order''. split_and!; [done|done|by etrans].
Qed.
End walk.

(** The transcript of a plan describes every plan node a caller can come
    to from its start, each exactly once, and nothing else. *)
Theorem describePlan_complete graph plan ctx root :
  well_typed graph → (∀ id, id ∈ om_keys (pl_nodes plan) → in_flow graph id) →
  pl_start plan = Some root → root ∈ om_keys (pl_nodes plan) →
  ∃ out, describePlan graph plan ctx = Some out ∧ NoDup (List.map te_nodeId out) ∧
    head (List.map te_nodeId out) = Some root ∧
    ∀ id, id ∈ List.map te_nodeId out ↔ rtc (plan_step plan) root id.
Proof.
  intros Hty Hsub Hs Hr. unfold describePlan. rewrite Hs.
  assert (enqueue plan [] (Some root) = [root]) as ->.
  { unfold enqueue. apply om_has_true in Hr. by rewrite Hr. }
  destruct (describe_spec graph plan ctx Hty Hsub root (length (pl_nodes plan)) 0 [root] []) as (out & order & E & Hinv & Hpre).
  - split; try done.
    + split; [apply NoDup_singleton|]. by intros id ->%list_elem_of_singleton.
    + intros a b []%not_elem_of_nil.
    + by intros a ->%list_elem_of_singleton.
    + simpl. lia.
  - lia.
  - destruct Hinv as [[Hnd Hin] Hout Hcl Hreach _]. rewrite take_ge in Hout, Hcl by lia.
    exists out. rewrite Hout. split_and!; try done.
    + destruct Hpre as [k ->]. done.
    + intros id. split; [apply Hreach|]. intros Hid.
      apply (@rtc_ind_r _ (plan_step plan) (λ x, x ∈ order) root); [| |done].
      * destruct Hpre as [k ->]. by apply elem_of_cons; left.
      * intros a b _ Hab Ha. by eapply Hcl.
Qed.

(** ** Witnesses *)

Lemma describePlan_complete_witness :
  ∃ out, describePlan sample_flow (cr_plan sample_result) (Build_TranscriptContext (λ _, Some "Welcome") None) = Some out ∧
    NoDup (List.map te_nodeId out) ∧ head (List.map te_nodeId out) = Some "h" ∧
    ∀ id, id ∈ List.map te_nodeId out ↔ rtc (plan_step (cr_plan sample_result)) "h" id.
Proof.
  apply describePlan_complete.
  - intros n Hn. repeat (apply elem_of_cons in Hn as [->|Hn]; [by split; [eauto|eexists; split; [reflexivity|]]|]).
    by apply not_elem_of_nil in Hn.
  - intros id Hid. unfold in_flow. revert id Hid.
    assert (om_keys (pl_nodes (cr_plan sample_result)) = ["h"; "m"; "d"; "v"; "x"]) as -> by (by vm_compute).
    assert (List.map in_id (ig_nodes sample_flow) = ["s"; "h"; "m"; "d"; "v"; "g"; "x"]) as -> by reflexivity.
    set_solver.
  - by vm_compute.
  - apply (bool_decide_unpack _). by vm_compute.
Defined.
