(* ===== verification/FlowState.v ===== *)
(** * The builder's state ([flow/store/flowStore.ts], the data)

    The nodes and edges on the canvas, the overlays, and the state record of
    the store with one update function per field (zustand's [set] of that
    field). *)
From S2P Require Import Prelude JsString JsValue Blocks Graph History Layout.

Local Open Scope string_scope.
Local Open Scope nat_scope.
Local Open Scope list_scope.

(** ** Data *)

(** The [data] object of a node.  [label] is its first property when the
    graph was read with one, its last when it was added since: the text that
    compares snapshots shows the order. *)
Record FlowData := {
  fd_block : BlockData;
  fd_labelLast : bool;
}.

(** [fn_ui] holds what React Flow adds to a node ([measured], [dragging]…). *)
Record FlowNode := {
  fn_id : string;
  fn_type : IvrNodeType;
  fn_position : Position;
  fn_data : FlowData;
  fn_deletable : option bool;
  fn_selected : option bool;
  fn_ui : obj;
}.

(** [data] is [{ keep }] or [{}]; [targetHandle] is always ['in'] and [type]
    always ['exit']. *)
Record FlowEdge := {
  fe_id : string;
  fe_source : string;
  fe_sourceHandle : string;
  fe_target : string;
  fe_keep : option obj;
  fe_ui : obj;
}.

#[export] Instance FlowNode_BlockLike : BlockLike FlowNode :=
  { bl_type := fn_type; bl_config := λ n, bd_config (fd_block (fn_data n)) }.
#[export] Instance FlowNode_LayoutNode : LayoutNode FlowNode := { ln_id := fn_id }.

Definition keep_props (k : string) (o : option obj) : obj :=
  match o with Some o => [(k, VObj o)] | None => [] end.

Definition label_prop (d : BlockData) : obj :=
  match bd_label d with Some l => [("label", VStr l)] | None => [] end.

#[export] Instance FlowData_ToJson : ToJson FlowData := λ d,
  let b := fd_block d in
  let rest := [("config", VObj (bd_config b))] ++ keep_props "keepNode" (bd_keepNode b)
              ++ keep_props "keepData" (bd_keepData b) in
  VObj (if fd_labelLast d then rest ++ label_prop b else label_prop b ++ rest).

#[export] Instance EdgeData_ToJson : ToJson (option obj) := λ k, VObj (keep_props "keep" k).

Abbreviation FlowSnapshot := (Snapshot FlowData (option obj)).
Abbreviation FlowHistory := (HistoryState FlowData (option obj)).

Record PreviewGraph := {
  pg_version : Z;
  pg_publishedAt : string;
  pg_nodes : list FlowNode;
  pg_edges : list FlowEdge;
}.

Record ProposalOverlay := {
  po_jobId : string;
  po_nodes : list FlowNode;
  po_edges : list FlowEdge;
  po_order : list string;
  po_revealed : nat;
}.

Record FlowMeta := {
  fm_id : Z;
  fm_publishedVersion : option Z;
  fm_publishedAt : option string;
  fm_numbers : list string;
}.

(** What the API sends ([Flow] in [types/ivr.ts]). *)
Record Flow := {
  fl_id : Z;
  fl_name : string;
  fl_revision : Z;
  fl_published_version : option Z;
  fl_published_at : option string;
  fl_numbers : list string;
  fl_draft_graph : value;
}.

(** [fs_cached] is the variable the store's [contentGraph] closes over, and
    [fs_drawn] the number of ids drawn so far. *)
Record FlowState := {
  fs_meta : FlowMeta;
  fs_name : string;
  fs_revision : Z;
  fs_nodes : list FlowNode;
  fs_edges : list FlowEdge;
  fs_viewport : option IvrViewport;
  fs_keepGraph : obj;
  fs_foreignNodes : list obj;
  fs_selectedId : option string;
  fs_history : FlowHistory;
  fs_changeSeq : Z;
  fs_contentSeq : Z;
  fs_savedSeq : Z;
  fs_graphEpoch : Z;
  fs_preview : option PreviewGraph;
  fs_proposal : option ProposalOverlay;
  fs_simNodeId : option string;
  fs_focusRequest : option (string * Z);
  fs_cached : option (Z * value);
  fs_drawn : nat;
}.

Definition set_meta (x : FlowMeta) (s : FlowState) : FlowState :=
  Build_FlowState x (fs_name s) (fs_revision s) (fs_nodes s) (fs_edges s) (fs_viewport s) (fs_keepGraph s)
    (fs_foreignNodes s) (fs_selectedId s) (fs_history s) (fs_changeSeq s) (fs_contentSeq s) (fs_savedSeq s)
    (fs_graphEpoch s) (fs_preview s) (fs_proposal s) (fs_simNodeId s) (fs_focusRequest s) (fs_cached s)
    (fs_drawn s).
Definition set_name (x : string) (s : FlowState) : FlowState :=
  Build_FlowState (fs_meta s) x (fs_revision s) (fs_nodes s) (fs_edges s) (fs_viewport s) (fs_keepGraph s)
    (fs_foreignNodes s) (fs_selectedId s) (fs_history s) (fs_changeSeq s) (fs_contentSeq s) (fs_savedSeq s)
    (fs_graphEpoch s) (fs_preview s) (fs_proposal s) (fs_simNodeId s) (fs_focusRequest s) (fs_cached s)
    (fs_drawn s).
Definition set_revision (x : Z) (s : FlowState) : FlowState :=
  Build_FlowState (fs_meta s) (fs_name s) x (fs_nodes s) (fs_edges s) (fs_viewport s) (fs_keepGraph s)
    (fs_foreignNodes s) (fs_selectedId s) (fs_history s) (fs_changeSeq s) (fs_contentSeq s) (fs_savedSeq s)
    (fs_graphEpoch s) (fs_preview s) (fs_proposal s) (fs_simNodeId s) (fs_focusRequest s) (fs_cached s)
    (fs_drawn s).
Definition set_nodes (x : list FlowNode) (s : FlowState) : FlowState :=
  Build_FlowState (fs_meta s) (fs_name s) (fs_revision s) x (fs_edges s) (fs_viewport s) (fs_keepGraph s)
    (fs_foreignNodes s) (fs_selectedId s) (fs_history s) (fs_changeSeq s) (fs_contentSeq s) (fs_savedSeq s)
    (fs_graphEpoch s) (fs_preview s) (fs_proposal s) (fs_simNodeId s) (fs_focusRequest s) (fs_cached s)
    (fs_drawn s).
Definition set_edges (x : list FlowEdge) (s : FlowState) : FlowState :=
  Build_FlowState (fs_meta s) (fs_name s) (fs_revision s) (fs_nodes s) x (fs_viewport s) (fs_keepGraph s)
    (fs_foreignNodes s) (fs_selectedId s) (fs_history s) (fs_changeSeq s) (fs_contentSeq s) (fs_savedSeq s)
    (fs_graphEpoch s) (fs_preview s) (fs_proposal s) (fs_simNodeId s) (fs_focusRequest s) (fs_cached s)
    (fs_drawn s).
Definition set_viewport (x : option IvrViewport) (s : FlowState) : FlowState :=
  Build_FlowState (fs_meta s) (fs_name s) (fs_revision s) (fs_nodes s) (fs_edges s) x (fs_keepGraph s)
    (fs_foreignNodes s) (fs_selectedId s) (fs_history s) (fs_changeSeq s) (fs_contentSeq s) (fs_savedSeq s)
    (fs_graphEpoch s) (fs_preview s) (fs_proposal s) (fs_simNodeId s) (fs_focusRequest s) (fs_cached s)
    (fs_drawn s).
Definition set_keepGraph (x : obj) (s : FlowState) : FlowState :=
  Build_FlowState (fs_meta s) (fs_name s) (fs_revision s) (fs_nodes s) (fs_edges s) (fs_viewport s) x
    (fs_foreignNodes s) (fs_selectedId s) (fs_history s) (fs_changeSeq s) (fs_contentSeq s) (fs_savedSeq s)
    (fs_graphEpoch s) (fs_preview s) (fs_proposal s) (fs_simNodeId s) (fs_focusRequest s) (fs_cached s)
    (fs_drawn s).
Definition set_foreignNodes (x : list obj) (s : FlowState) : FlowState :=
  Build_FlowState (fs_meta s) (fs_name s) (fs_revision s) (fs_nodes s) (fs_edges s) (fs_viewport s)
    (fs_keepGraph s) x (fs_selectedId s) (fs_history s) (fs_changeSeq s) (fs_contentSeq s) (fs_savedSeq s)
    (fs_graphEpoch s) (fs_preview s) (fs_proposal s) (fs_simNodeId s) (fs_focusRequest s) (fs_cached s)
    (fs_drawn s).
Definition set_selectedId (x : option string) (s : FlowState) : FlowState :=
  Build_FlowState (fs_meta s) (fs_name s) (fs_revision s) (fs_nodes s) (fs_edges s) (fs_viewport s)
    (fs_keepGraph s) (fs_foreignNodes s) x (fs_history s) (fs_changeSeq s) (fs_contentSeq s) (fs_savedSeq s)
    (fs_graphEpoch s) (fs_preview s) (fs_proposal s) (fs_simNodeId s) (fs_focusRequest s) (fs_cached s)
    (fs_drawn s).
Definition set_history (x : FlowHistory) (s : FlowState) : FlowState :=
  Build_FlowState (fs_meta s) (fs_name s) (fs_revision s) (fs_nodes s) (fs_edges s) (fs_viewport s)
    (fs_keepGraph s) (fs_foreignNodes s) (fs_selectedId s) x (fs_changeSeq s) (fs_contentSeq s) (fs_savedSeq s)
    (fs_graphEpoch s) (fs_preview s) (fs_proposal s) (fs_simNodeId s) (fs_focusRequest s) (fs_cached s)
    (fs_drawn s).
Definition set_changeSeq (x : Z) (s : FlowState) : FlowState :=
  Build_FlowState (fs_meta s) (fs_name s) (fs_revision s) (fs_nodes s) (fs_edges s) (fs_viewport s)
    (fs_keepGraph s) (fs_foreignNodes s) (fs_selectedId s) (fs_history s) x (fs_contentSeq s) (fs_savedSeq s)
    (fs_graphEpoch s) (fs_preview s) (fs_proposal s) (fs_simNodeId s) (fs_focusRequest s) (fs_cached s)
    (fs_drawn s).
Definition set_contentSeq (x : Z) (s : FlowState) : FlowState :=
  Build_FlowState (fs_meta s) (fs_name s) (fs_revision s) (fs_nodes s) (fs_edges s) (fs_viewport s)
    (fs_keepGraph s) (fs_foreignNodes s) (fs_selectedId s) (fs_history s) (fs_changeSeq s) x (fs_savedSeq s)
    (fs_graphEpoch s) (fs_preview s) (fs_proposal s) (fs_simNodeId s) (fs_focusRequest s) (fs_cached s)
    (fs_drawn s).
Definition set_savedSeq (x : Z) (s : FlowState) : FlowState :=
  Build_FlowState (fs_meta s) (fs_name s) (fs_revision s) (fs_nodes s) (fs_edges s) (fs_viewport s)
    (fs_keepGraph s) (fs_foreignNodes s) (fs_selectedId s) (fs_history s) (fs_changeSeq s) (fs_contentSeq s) x
    (fs_graphEpoch s) (fs_preview s) (fs_proposal s) (fs_simNodeId s) (fs_focusRequest s) (fs_cached s)
    (fs_drawn s).
Definition set_graphEpoch (x : Z) (s : FlowState) : FlowState :=
  Build_FlowState (fs_meta s) (fs_name s) (fs_revision s) (fs_nodes s) (fs_edges s) (fs_viewport s)
    (fs_keepGraph s) (fs_foreignNodes s) (fs_selectedId s) (fs_history s) (fs_changeSeq s) (fs_contentSeq s)
    (fs_savedSeq s) x (fs_preview s) (fs_proposal s) (fs_simNodeId s) (fs_focusRequest s) (fs_cached s)
    (fs_drawn s).
Definition set_preview (x : option PreviewGraph) (s : FlowState) : FlowState :=
  Build_FlowState (fs_meta s) (fs_name s) (fs_revision s) (fs_nodes s) (fs_edges s) (fs_viewport s)
    (fs_keepGraph s) (fs_foreignNodes s) (fs_selectedId s) (fs_history s) (fs_changeSeq s) (fs_contentSeq s)
    (fs_savedSeq s) (fs_graphEpoch s) x (fs_proposal s) (fs_simNodeId s) (fs_focusRequest s) (fs_cached s)
    (fs_drawn s).
Definition set_proposal (x : option ProposalOverlay) (s : FlowState) : FlowState :=
  Build_FlowState (fs_meta s) (fs_name s) (fs_revision s) (fs_nodes s) (fs_edges s) (fs_viewport s)
    (fs_keepGraph s) (fs_foreignNodes s) (fs_selectedId s) (fs_history s) (fs_changeSeq s) (fs_contentSeq s)
    (fs_savedSeq s) (fs_graphEpoch s) (fs_preview s) x (fs_simNodeId s) (fs_focusRequest s) (fs_cached s)
    (fs_drawn s).
Definition set_simNodeId (x : option string) (s : FlowState) : FlowState :=
  Build_FlowState (fs_meta s) (fs_name s) (fs_revision s) (fs_nodes s) (fs_edges s) (fs_viewport s)
    (fs_keepGraph s) (fs_foreignNodes s) (fs_selectedId s) (fs_history s) (fs_changeSeq s) (fs_contentSeq s)
    (fs_savedSeq s) (fs_graphEpoch s) (fs_preview s) (fs_proposal s) x (fs_focusRequest s) (fs_cached s)
    (fs_drawn s).
Definition set_focusRequest (x : option (string * Z)) (s : FlowState) : FlowState :=
  Build_FlowState (fs_meta s) (fs_name s) (fs_revision s) (fs_nodes s) (fs_edges s) (fs_viewport s)
    (fs_keepGraph s) (fs_foreignNodes s) (fs_selectedId s) (fs_history s) (fs_changeSeq s) (fs_contentSeq s)
    (fs_savedSeq s) (fs_graphEpoch s) (fs_preview s) (fs_proposal s) (fs_simNodeId s) x (fs_cached s) (fs_drawn s).
Definition set_cached (x : option (Z * value)) (s : FlowState) : FlowState :=
  Build_FlowState (fs_meta s) (fs_name s) (fs_revision s) (fs_nodes s) (fs_edges s) (fs_viewport s)
    (fs_keepGraph s) (fs_foreignNodes s) (fs_selectedId s) (fs_history s) (fs_changeSeq s) (fs_contentSeq s)
    (fs_savedSeq s) (fs_graphEpoch s) (fs_preview s) (fs_proposal s) (fs_simNodeId s) (fs_focusRequest s) x
    (fs_drawn s).
Definition set_drawn (x : nat) (s : FlowState) : FlowState :=
  Build_FlowState (fs_meta s) (fs_name s) (fs_revision s) (fs_nodes s) (fs_edges s) (fs_viewport s)
    (fs_keepGraph s) (fs_foreignNodes s) (fs_selectedId s) (fs_history s) (fs_changeSeq s) (fs_contentSeq s)
    (fs_savedSeq s) (fs_graphEpoch s) (fs_preview s) (fs_proposal s) (fs_simNodeId s) (fs_focusRequest s)
    (fs_cached s) x.
