(* ===== verification/Store.v ===== *)
(** * The builder's actions ([flow/store/flowStore.ts])

    Every action of the store as a function on its state.  An action that
    draws ids takes them from the supply, the [fs_drawn]-th id being the next
    one; an action that stamps the history takes the time [now].  React
    Flow's [applyNodeChanges] and [applyEdgeChanges] are parameters. *)
From S2P Require Import Prelude JsString JsValue Blocks Graph History Layout Effects FlowState.

Local Open Scope string_scope.
Local Open Scope nat_scope.
Local Open Scope list_scope.

(** ** React Flow *)

(** What React Flow reports about nodes and edges. *)
Inductive NodeChange :=
  | nc_select (id : string) (selected : bool)
  | nc_dimensions (id : string) (payload : value)
  | nc_position (id : string) (position : option Position) (dragging : option bool)
  | nc_remove (id : string)
  | nc_add (item : FlowNode)
  | nc_replace (id : string) (item : FlowNode).

Inductive EdgeChange :=
  | ec_select (id : string) (selected : bool)
  | ec_remove (id : string)
  | ec_add (item : FlowEdge)
  | ec_replace (id : string) (item : FlowEdge).

(** The two functions the store imports from [@xyflow/react]. *)
Class ReactFlow := {
  applyNodeChanges : list NodeChange → list FlowNode → list FlowNode;
  applyEdgeChanges : list EdgeChange → list FlowEdge → list FlowEdge;
}.

(** ** Pure helpers *)

Definition slotKey (source : string) (handle : option string) : string :=
  slot_of source (default "next" handle).

(** [out]: the targets of the edges that leave each block. *)
Definition out_map (edges : list FlowEdge) : list (string * list string) :=
  fold_left (λ m e, om_set (fe_source e) (default [] (om_get (fe_source e) m) ++ [fe_target e]) m) edges [].

Definition is_exit (source handle : string) (e : FlowEdge) : bool :=
  (fe_source e ==? source) && (fe_sourceHandle e ==? handle).

(** The edges but those of one exit. *)
Definition others (source handle : string) (edges : list FlowEdge) : list FlowEdge :=
  List.filter (λ e, negb (is_exit source handle e)) edges.

(** One turn per id pushed: [from], and the target of each edge. *)
Definition reaches_fuel (edges : list FlowEdge) : nat := 2 + length edges.

(** An id no edge leaves from is popped and nothing more. *)
Definition reaches (edges : list FlowEdge) (from to : string) : bool :=
  match search (λ id, id ==? to) (λ id, om_get id (out_map edges)) (reaches_fuel edges) [from] [] with
  | Some (found, _) => found
  | None => false
  end.

Definition find_node (nodes : list FlowNode) (id : string) : option FlowNode :=
  find (λ n, fn_id n ==? id) nodes.

Definition connectionProblem (nodes : list FlowNode) (edges : list FlowEdge)
    (source handle target : string) : option string :=
  match find_node nodes source, find_node nodes target with
  | Some s, Some t =>
      if fn_type t ==? entry then Some "Nothing can connect into Start."
      else if source ==? target then Some "A block can’t connect to itself. To repeat it, add a Go to block."
      else if negb (has_exit s handle) then Some "That exit no longer exists."
      else if reaches (others source handle edges) target source
      then Some "That would loop the call back to an earlier block. To repeat a step, add a Go to block."
      else None
  | _, _ => Some "That block no longer exists."
  end.

Definition toFlowNode (id : string) (type : IvrNodeType) (position : Position) (data : FlowData) : FlowNode :=
  {| fn_id := id; fn_type := type; fn_position := position; fn_data := data;
     fn_deletable := if type ==? entry then Some false else None; fn_selected := None; fn_ui := [] |}.

(** [toFlowNode] on a node of [fromGraph]. *)
Definition flow_node (n : WorkNode) : FlowNode :=
  toFlowNode (wn_id n) (wn_type n) (wn_position n) (Build_FlowData (wn_data n) false).

Definition toFlowEdge (id source sourceHandle target : string) (keep : option obj) : FlowEdge :=
  {| fe_id := id; fe_source := source; fe_sourceHandle := sourceHandle; fe_target := target;
     fe_keep := keep; fe_ui := [] |}.

Definition flow_edge (e : WorkEdge) : FlowEdge :=
  toFlowEdge (we_id e) (we_source e) (we_sourceHandle e) (we_target e) (we_keep e).

(** One turn of [edges.filter] in [pruneEdges], with [seen]. *)
Definition prune_step (byId : list (string * FlowNode)) (acc : list FlowEdge * list string) (e : FlowEdge)
    : list FlowEdge * list string :=
  match om_get (fe_source e) byId, om_get (fe_target e) byId with
  | Some s, Some t =>
      if fn_type t ==? entry then acc
      else if negb (has_exit s (fe_sourceHandle e)) then acc
      else
        let key := slotKey (fe_source e) (Some (fe_sourceHandle e)) in
        if includes acc.2 key then acc else (acc.1 ++ [e], acc.2 ++ [key])
  | _, _ => acc
  end.

Definition pruneEdges (nodes : list FlowNode) (edges : list FlowEdge) : list FlowEdge :=
  (fold_left (prune_step (by_id nodes)) edges ([], [])).1.

Definition snap_position (p : Position) : SnapPosition := Build_SnapPosition (pos_x p) (pos_y p).
Definition snap_node (n : FlowNode) : SnapNode FlowData :=
  Build_SnapNode (fn_id n) (type_name (fn_type n)) (snap_position (fn_position n)) (fn_data n).
Definition snap_edge (e : FlowEdge) : SnapEdge (option obj) :=
  Build_SnapEdge (fe_id e) (fe_source e) (Some (fe_sourceHandle e)) (fe_target e) (Some (fe_keep e)).

Definition snapshotOf (nodes : list FlowNode) (edges : list FlowEdge) : FlowSnapshot :=
  Build_Snapshot (List.map snap_node nodes) (List.map snap_edge edges).

(** [n.type as IvrNodeType]: a snapshot only holds names of block types. *)
Definition cast_type (s : string) : IvrNodeType := default entry (type_of_name s).

Definition unsnap_node (n : SnapNode FlowData) : FlowNode :=
  toFlowNode (sn_id n) (cast_type (sn_type n))
    (Build_Position (sp_x (sn_position n)) (sp_y (sn_position n))) (sn_data n).
Definition unsnap_edge (e : SnapEdge (option obj)) : FlowEdge :=
  toFlowEdge (se_id e) (se_source e) (default "next" (se_sourceHandle e)) (se_target e) (default None (se_data e)).

Definition fromSnapshot (snap : FlowSnapshot) : list FlowNode * list FlowEdge :=
  (List.map unsnap_node (ss_nodes snap), List.map unsnap_edge (ss_edges snap)).

Definition metaOf (flow : Flow) : FlowMeta :=
  Build_FlowMeta (fl_id flow) (fl_published_version flow) (fl_published_at flow) (fl_numbers flow).

Definition set_selected (b : bool) (n : FlowNode) : FlowNode :=
  {| fn_id := fn_id n; fn_type := fn_type n; fn_position := fn_position n; fn_data := fn_data n;
     fn_deletable := fn_deletable n; fn_selected := Some b; fn_ui := fn_ui n |}.

(** [n.selected ? { ...n, selected: false } : n] *)
Definition deselect (n : FlowNode) : FlowNode :=
  match fn_selected n with Some true => set_selected false n | _ => n end.

Definition set_position (p : Position) (n : FlowNode) : FlowNode :=
  {| fn_id := fn_id n; fn_type := fn_type n; fn_position := p; fn_data := fn_data n;
     fn_deletable := fn_deletable n; fn_selected := fn_selected n; fn_ui := fn_ui n |}.

Definition set_data (d : FlowData) (n : FlowNode) : FlowNode :=
  {| fn_id := fn_id n; fn_type := fn_type n; fn_position := fn_position n; fn_data := d;
     fn_deletable := fn_deletable n; fn_selected := fn_selected n; fn_ui := fn_ui n |}.

Definition set_config (c : obj) (n : FlowNode) : FlowNode :=
  let b := fd_block (fn_data n) in
  set_data (Build_FlowData (Build_BlockData (bd_label b) c (bd_keepNode b) (bd_keepData b))
              (fd_labelLast (fn_data n))) n.

(** [callingOrder] and [tidyLayout] always answer ([Layout.tidyLayout_places]). *)
Definition layout_of (nodes : list FlowNode) (edges : list FlowEdge) : list (string * (Z * Z)) :=
  default [] (tidyLayout nodes (List.map (λ e, Build_LayoutEdge (fe_source e) (Some (fe_sourceHandle e)) (fe_target e)) edges)).

(** [{ ...n, position: pos.get(n.id) ?? n.position }] *)
Definition place (pos : list (string * (Z * Z))) (n : FlowNode) : FlowNode :=
  set_position (match om_get (fn_id n) pos with
                | Some (x, y) => Build_Position (num_of_Z x) (num_of_Z y)
                | None => fn_position n
                end) n.

(** ** The draft as the API stores it *)

Definition input_node (n : FlowNode) : NodeInput :=
  Build_NodeInput (fn_id n) (Some (type_name (fn_type n))) (fn_position n) (fd_block (fn_data n)).
Definition input_edge (e : FlowEdge) : EdgeInput :=
  Build_EdgeInput (fe_id e) (fe_source e) (Some (fe_sourceHandle e)) (fe_target e) (fe_keep e).

Definition graph (s : FlowState) : value :=
  toGraph (List.map input_node (fs_nodes s)) (List.map input_edge (fs_edges s)) (fs_viewport s)
    (fs_keepGraph s) (fs_foreignNodes s).

(** ** Actions *)

Section actions.
Context `{IdSupply} `{ReactFlow}.
Implicit Types (s : FlowState).

(** [record(...) !== s.history]: the same object comes back only when nothing
    was coalesced and the snapshots agree. *)
Definition recorded (h : FlowHistory) (before after : FlowSnapshot) (key : option string) (now : Z) : bool :=
  coalesces h key now || negb (sameSnapshot before after).

(** [extra] sets the further fields an edit changes. *)
Definition commit (now : Z) (nodes : list FlowNode) (edges : list FlowEdge) (key : option string)
    (extra : FlowState → FlowState) (positionOnly : bool) s : FlowState :=
  let before := snapshotOf (fs_nodes s) (fs_edges s) in
  let after := snapshotOf nodes edges in
  let changed := recorded (fs_history s) before after key now in
  extra
    (set_nodes nodes (set_edges edges
    (set_history (record (fs_history s) before after key now)
    (set_changeSeq (if changed then fs_changeSeq s + 1 else fs_changeSeq s)%Z
    (set_contentSeq (if changed && negb positionOnly then fs_contentSeq s + 1 else fs_contentSeq s)%Z s))))).

Definition createFlowStore (flow : Flow) : FlowState :=
  let '(g, k) := fromGraph 0 (fl_draft_graph flow) in
  {| fs_meta := metaOf flow; fs_name := fl_name flow; fs_revision := fl_revision flow;
     fs_nodes := List.map flow_node (wg_nodes g); fs_edges := List.map flow_edge (wg_edges g);
     fs_viewport := wg_viewport g; fs_keepGraph := wg_keepGraph g; fs_foreignNodes := wg_foreignNodes g;
     fs_selectedId := None; fs_history := emptyHistory; fs_changeSeq := 0; fs_contentSeq := 0;
     fs_savedSeq := 0; fs_graphEpoch := 0; fs_preview := None; fs_proposal := None; fs_simNodeId := None;
     fs_focusRequest := None; fs_cached := None; fs_drawn := k |}.

Definition load (now : Z) (next : Flow) (undoable : bool) s : FlowState :=
  let '(g, k) := fromGraph (fs_drawn s) (fl_draft_graph next) in
  let nodes := List.map flow_node (wg_nodes g) in
  let edges := List.map flow_edge (wg_edges g) in
  {| fs_meta := metaOf next; fs_name := fl_name next; fs_revision := fl_revision next;
     fs_nodes := nodes; fs_edges := edges;
     fs_viewport := wg_viewport g; fs_keepGraph := wg_keepGraph g; fs_foreignNodes := wg_foreignNodes g;
     fs_selectedId := None;
     fs_history := if undoable
                   then record (fs_history s) (snapshotOf (fs_nodes s) (fs_edges s)) (snapshotOf nodes edges) None now
                   else emptyHistory;
     fs_changeSeq := fs_changeSeq s + 1; fs_contentSeq := fs_contentSeq s + 1; fs_savedSeq := fs_changeSeq s + 1;
     fs_graphEpoch := fs_graphEpoch s + 1; fs_preview := None; fs_proposal := fs_proposal s; fs_simNodeId := None;
     fs_focusRequest := fs_focusRequest s; fs_cached := fs_cached s; fs_drawn := k |}.

Definition type_of (nodes : list FlowNode) (id : string) : option IvrNodeType := fn_type <$> find_node nodes id.

(** The ids [removeBlocks] removes: any but a Start's. *)
Definition gone_ids (nodes : list FlowNode) (ids : list string) : list string :=
  List.filter (λ id, type_of nodes id !=? Some entry) ids.

(** A Go to whose target goes is cleared. *)
Definition clear_goto (gone : list string) (n : FlowNode) : FlowNode :=
  if fn_type n ==? goto then
    let cfg := bd_config (fd_block (fn_data n)) in
    match get "targetNodeId" cfg with
    | VStr t => if includes gone t then set_config (om_set "targetNodeId" (VStr "") (spread [] cfg)) n else n
    | _ => n
    end
  else n.

Definition removeBlocks (now : Z) (ids : list string) s : FlowState :=
  let gone := gone_ids (fs_nodes s) ids in
  match gone with
  | [] => s
  | _ =>
      let nodes := List.map (clear_goto gone) (List.filter (λ n, negb (includes gone (fn_id n))) (fs_nodes s)) in
      let edges := List.filter (λ e, negb (includes gone (fe_source e)) && negb (includes gone (fe_target e))) (fs_edges s) in
      commit now nodes edges None
        (set_selectedId (match fs_selectedId s with
                         | Some id => if includes gone id then None else Some id
                         | None => None
                         end)) false s
  end.

Definition removes_start (nodes : list FlowNode) (c : NodeChange) : bool :=
  match c with
  | nc_remove id => includes (List.map fn_id (List.filter (λ n, fn_type n ==? entry) nodes)) id
  | _ => false
  end.

Definition bookkeeping (c : NodeChange) : bool :=
  match c with nc_select _ _ | nc_dimensions _ _ => true | _ => false end.

Definition select_step (selected : option string) (c : NodeChange) : option string :=
  match c with
  | nc_select id true => Some id
  | nc_select id false => if selected ==? Some id then None else selected
  | _ => selected
  end.

Definition removed_id (c : NodeChange) : option string := match c with nc_remove id => Some id | _ => None end.
Definition moved_id (c : NodeChange) : option string := match c with nc_position id _ _ => Some id | _ => None end.
Definition drag_end (c : NodeChange) : bool := match c with nc_position _ _ (Some false) => true | _ => false end.

Definition onNodesChange (now : Z) (changes : list NodeChange) s : FlowState :=
  let safe := List.filter (λ c, negb (removes_start (fs_nodes s) c)) changes in
  match safe with
  | [] => s
  | _ =>
      let content := List.filter (λ c, negb (bookkeeping c)) safe in
      let nodes := applyNodeChanges safe (fs_nodes s) in
      let selectedId := fold_left select_step safe (fs_selectedId s) in
      match content with
      | [] => set_nodes nodes (set_selectedId selectedId s)
      | _ =>
          match unique (omap removed_id content) with
          | id :: removed => removeBlocks now (id :: removed) s
          | [] =>
              let moving := omap moved_id content in
              let key := match moving with [] => None | _ => Some ("move:" +:+ join "," (sort_strings moving)) end in
              let s' := commit now nodes (fs_edges s) key (set_selectedId selectedId)
                          (length moving =? length content) s in
              if existsb drag_end content then set_history (seal (fs_history s')) s' else s'
          end
      end
  end.

(** A change of a Go to jump line, which is drawn and not stored. *)
Definition is_jump (c : EdgeChange) : bool :=
  match c with ec_select id _ | ec_remove id | ec_replace id _ => starts_with "jump:" id | ec_add _ => false end.
Definition is_edge_select (c : EdgeChange) : bool := match c with ec_select _ _ => true | _ => false end.

Definition onEdgesChange (now : Z) (changes : list EdgeChange) s : FlowState :=
  let own := List.filter (λ c, negb (is_jump c)) changes in
  match own with
  | [] => s
  | _ =>
      let edges := applyEdgeChanges own (fs_edges s) in
      if forallb is_edge_select own then set_edges edges s
      else commit now (fs_nodes s) edges None (λ s, s) false s
  end.

Definition is_dimensions (c : NodeChange) : bool := match c with nc_dimensions _ _ => true | _ => false end.

Definition onPreviewNodesChange (changes : list NodeChange) s : FlowState :=
  let dims := List.filter is_dimensions changes in
  match dims with
  | [] => s
  | _ =>
      match fs_preview s, fs_proposal s with
      | Some p, _ =>
          set_preview (Some (Build_PreviewGraph (pg_version p) (pg_publishedAt p)
            (applyNodeChanges dims (pg_nodes p)) (pg_edges p))) s
      | None, Some q =>
          set_proposal (Some (Build_ProposalOverlay (po_jobId q) (applyNodeChanges dims (po_nodes q))
            (po_edges q) (po_order q) (po_revealed q))) s
      | None, None => s
      end
  end.

(** With what [connect] answers: [None] is done. *)
Definition connect (now : Z) (source handle target : string) s : FlowState * option string :=
  match connectionProblem (fs_nodes s) (fs_edges s) source handle target with
  | Some problem => (s, Some problem)
  | None =>
      let edges := others source handle (fs_edges s)
                   ++ [toFlowEdge (newEdgeId (fs_drawn s)) source handle target None] in
      (commit now (fs_nodes s) edges None (λ s, s) false (set_drawn (S (fs_drawn s)) s), None)
  end.

Definition disconnect (now : Z) (source handle : string) s : FlowState :=
  commit now (fs_nodes s) (others source handle (fs_edges s)) None (λ s, s) false s.

(** Beside the block whose exit asked for it, below its other targets. *)
Definition beside (type : IvrNodeType) (edges : list FlowEdge) (src : FlowNode) : Position :=
  let siblings := Z.of_nat (length (List.filter (λ e, fe_source e ==? fn_id src) edges)) in
  let bare := toFlowNode "" type (fn_position src) (Build_FlowData (Build_BlockData None [] None None) false) in
  Build_Position (num_add (pos_x (fn_position src)) (num_of_Z 320))
    (num_add (pos_y (fn_position src)) (num_of_Z (siblings * (estimateHeight bare + 24)))).

Definition origin : Position := Build_Position (num_of_Z 0) (num_of_Z 0).

Definition new_position (type : IvrNodeType) (position : option Position) (from : option (string * string)) s : Position :=
  match position with
  | Some p => p
  | None =>
      match from with
      | Some (source, _) =>
          match find_node (fs_nodes s) source with
          | Some src => beside type (fs_edges s) src
          | None => origin
          end
      | None => origin
      end
  end.

(** With the id of the new block. *)
Definition addBlock (now : Z) (type : IvrNodeType) (position : option Position) (from : option (string * string)) s
    : FlowState * string :=
  let id := newNodeId (fs_drawn s) in
  let node := toFlowNode id type (new_position type position from s)
                (Build_FlowData (Build_BlockData None (defaultConfig type) None None) false) in
  let nodes := List.map deselect (fs_nodes s) ++ [set_selected true node] in
  let joined := match from with
                | Some (source, handle) =>
                    match connectionProblem nodes (fs_edges s) source handle id with
                    | None => Some (source, handle)
                    | Some _ => None
                    end
                | None => None
                end in
  match joined with
  | Some (source, handle) =>
      let edges := others source handle (fs_edges s)
                   ++ [toFlowEdge (newEdgeId (S (fs_drawn s))) source handle id None] in
      (commit now nodes edges None (set_selectedId (Some id)) false (set_drawn (S (S (fs_drawn s))) s), id)
  | None =>
      (commit now nodes (fs_edges s) None (set_selectedId (Some id)) false (set_drawn (S (fs_drawn s)) s), id)
  end.

(** [{ ...config, ...patch }], a menu's keys in keypad order. *)
Definition patched_config (patch : obj) (n : FlowNode) : obj :=
  let config := spread (spread [] (bd_config (fd_block (fn_data n)))) patch in
  if (fn_type n ==? menu) && om_has "digits" patch
  then om_set "digits" (varr VStr (sortDigits (config_digits config))) config
  else config.

Definition update_node (id : string) (f : FlowNode → FlowNode) (n : FlowNode) : FlowNode :=
  if fn_id n ==? id then f n else n.

Definition updateConfig (now : Z) (id : string) (patch : obj) (coalesceKey : option string) s : FlowState :=
  let nodes := List.map (update_node id (λ n, set_config (patched_config patch n) n)) (fs_nodes s) in
  commit now nodes (pruneEdges nodes (fs_edges s)) coalesceKey (λ s, s) false s.

Definition label_data (label : string) (d : FlowData) : FlowData :=
  let b := fd_block d in
  let with_label l := Build_BlockData l (bd_config b) (bd_keepNode b) (bd_keepData b) in
  if trim label ==? "" then Build_FlowData (with_label None) (fd_labelLast d)
  else Build_FlowData (with_label (Some label))
         (match bd_label b with Some _ => fd_labelLast d | None => true end).

Definition setLabel (now : Z) (id label : string) s : FlowState :=
  let nodes := List.map (update_node id (λ n, set_data (label_data label (fn_data n)) n)) (fs_nodes s) in
  commit now nodes (fs_edges s) (Some ("label:" +:+ id)) (λ s, s) false s.

Definition select_node (id : option string) (n : FlowNode) : FlowNode :=
  let b := Some (fn_id n) ==? id in
  if fn_selected n ==? Some b then n else set_selected b n.

Definition select (id : option string) s : FlowState :=
  set_selectedId id (set_nodes (List.map (select_node id) (fs_nodes s)) s).

Definition revealBlock (id : string) s : FlowState :=
  set_focusRequest (Some (id, match fs_focusRequest s with Some r => r.2 + 1 | None => 1 end)%Z) s.

Definition focusBlock (id : string) s : FlowState := revealBlock id (select (Some id) s).

Definition setName (name : string) s : FlowState :=
  if name ==? fs_name s then s else set_name name (set_changeSeq (fs_changeSeq s + 1)%Z s).

Definition setViewport (viewport : IvrViewport) s : FlowState := set_viewport (Some viewport) s.

Definition tidy (now : Z) s : FlowState :=
  let pos := layout_of (fs_nodes s) (fs_edges s) in
  commit now (List.map (place pos) (fs_nodes s)) (fs_edges s) None
    (set_graphEpoch (fs_graphEpoch s + 1)%Z) true s.

(** What [undo] and [redo] do with the snapshot the history gives. *)
Definition restore (step : option (FlowHistory * FlowSnapshot)) s : FlowState :=
  match step with
  | None => s
  | Some (h, snap) =>
      let '(nodes, edges) := fromSnapshot snap in
      set_nodes (List.map (λ n, set_selected (Some (fn_id n) ==? fs_selectedId s) n) nodes)
      (set_edges edges
      (set_history h
      (set_changeSeq (fs_changeSeq s + 1)%Z
      (set_contentSeq (fs_contentSeq s + 1)%Z
      (set_selectedId (if existsb (λ n, Some (fn_id n) ==? fs_selectedId s) nodes then fs_selectedId s else None) s)))))
  end.

Definition undo s : FlowState := restore (History.undo (fs_history s) (snapshotOf (fs_nodes s) (fs_edges s))) s.
Definition redo s : FlowState := restore (History.redo (fs_history s) (snapshotOf (fs_nodes s) (fs_edges s))) s.

Definition markSaved (seq revision : Z) s : FlowState :=
  set_savedSeq (Z.max (fs_savedSeq s) seq) (set_revision revision s).

Definition setRevision (revision : Z) s : FlowState := set_revision revision s.

(** [Partial<FlowMeta>]: [None] for a field the patch does not have. *)
Record MetaPatch := {
  mp_id : option Z;
  mp_publishedVersion : option (option Z);
  mp_publishedAt : option (option string);
  mp_numbers : option (list string);
}.

Definition setMeta (patch : MetaPatch) s : FlowState :=
  let m := fs_meta s in
  set_meta (Build_FlowMeta (default (fm_id m) (mp_id patch)) (default (fm_publishedVersion m) (mp_publishedVersion patch))
    (default (fm_publishedAt m) (mp_publishedAt patch)) (default (fm_numbers m) (mp_numbers patch))) s.

Definition enterPreview (preview : PreviewGraph) s : FlowState :=
  set_preview (Some preview) (set_selectedId None (set_graphEpoch (fs_graphEpoch s + 1)%Z s)).

Definition exitPreview s : FlowState :=
  set_preview None (set_graphEpoch (fs_graphEpoch s + 1)%Z s).

Definition work_edges (g : WorkGraph) : list LayoutEdge :=
  List.map (λ e, Build_LayoutEdge (we_source e) (Some (we_sourceHandle e)) (we_target e)) (wg_edges g).

Definition showProposal (jobId : string) (graph : value) (instant : bool) s : FlowState :=
  let '(g, k) := fromGraph (fs_drawn s) graph in
  let pos := default [] (tidyLayout (wg_nodes g) (work_edges g)) in
  let order := default [] (callingOrder (wg_nodes g) (work_edges g)) in
  set_drawn k
  (set_proposal (Some (Build_ProposalOverlay jobId (List.map (λ n, place pos (flow_node n)) (wg_nodes g))
     (List.map flow_edge (wg_edges g)) order (if instant then length order else min 1 (length order))))
  (set_preview None
  (set_selectedId None
  (set_nodes (List.map deselect (fs_nodes s))
  (set_graphEpoch (fs_graphEpoch s + 1)%Z s))))).

(** With whether blocks are left to reveal. *)
Definition revealNext s : FlowState * bool :=
  match fs_proposal s with
  | None => (s, false)
  | Some q =>
      if length (po_order q) <=? po_revealed q then (s, false)
      else (set_proposal (Some (Build_ProposalOverlay (po_jobId q) (po_nodes q) (po_edges q) (po_order q)
                                  (S (po_revealed q)))) s,
            S (po_revealed q) <? length (po_order q))
  end.

Definition clearProposal s : FlowState :=
  match fs_proposal s with
  | None => s
  | Some _ => set_proposal None (set_simNodeId None (set_graphEpoch (fs_graphEpoch s + 1)%Z s))
  end.

Definition replaceDraft (now : Z) (graph : value) s : FlowState :=
  let '(g, k) := fromGraph (fs_drawn s) graph in
  commit now (List.map flow_node (wg_nodes g)) (List.map flow_edge (wg_edges g)) None
    (λ s', set_selectedId None (set_preview None (set_proposal None (set_simNodeId None
             (set_graphEpoch (fs_graphEpoch s + 1)%Z s')))))
    false (set_drawn k s).

Definition setSimNode (id : option string) s : FlowState := set_simNodeId id s.

(** The cached JSON of the draft while call logic has not changed. *)
Definition contentGraph s : FlowState * value :=
  match fs_cached s with
  | Some (seq, g) =>
      if (seq =? fs_contentSeq s)%Z then (s, g)
      else (set_cached (Some (fs_contentSeq s, graph s)) s, graph s)
  | None => (set_cached (Some (fs_contentSeq s, graph s)) s, graph s)
  end.
End actions.

Definition previewFromGraph `{IdSupply} (k : nat) (version : Z) (publishedAt : string) (graph : value)
    : PreviewGraph * nat :=
  let '(g, k) := fromGraph k graph in
  (Build_PreviewGraph version publishedAt (List.map flow_node (wg_nodes g)) (List.map flow_edge (wg_edges g)), k).
