(* ===== verification/StoreOk.v ===== *)
(** * What the builder's store keeps ([flow/store/flowStore.ts])

    The invariants the store's header promises, as a predicate every
    reachable state satisfies, and what its main actions do. *)
From S2P Require Import Prelude JsString JsValue Blocks Graph History Layout Effects FlowState Store.

Local Open Scope string_scope.
Local Open Scope nat_scope.
Local Open Scope list_scope.

(** ** Connections as a relation *)

Definition shape_edge : Type := string * (string * string).

Definition leads (es : list shape_edge) (a b : string) : Prop := ∃ h, (a, (h, b)) ∈ es.

Definition acyclic (es : list shape_edge) : Prop := ∀ id, ¬ tc (leads es) id id.

Lemma tc_mono {A} (R R' : relation A) x y : (∀ a b, R a b → R' a b) → tc R x y → tc R' x y.
Proof. intros HR. induction 1; [by apply tc_once, HR|eapply tc_l; [by apply HR|done]]. Qed.

Lemma leads_subset es es' a b : (∀ e, e ∈ es' → e ∈ es) → leads es' a b → leads es a b.
Proof. intros Hs [h Hh]. exists h. by apply Hs. Qed.

Lemma acyclic_subset es es' : (∀ e, e ∈ es' → e ∈ es) → acyclic es → acyclic es'.
Proof. intros Hs Ha id Hid. apply (Ha id). eapply tc_mono; [|done]. intros. by eapply leads_subset. Qed.

Lemma leads_add es a h b x y : leads (es ++ [(a, (h, b))]) x y ↔ leads es x y ∨ (x = a ∧ y = b).
Proof.
  unfold leads. split.
  - intros [h' [Hin|Hin%list_elem_of_singleton]%elem_of_app]; [left; eauto|right]. by injection Hin.
  - intros [[h' Hin]|[-> ->]]; eexists; apply elem_of_app; [by left|right]. by apply list_elem_of_singleton.
Qed.

(** A path over one more edge uses it or does not. *)
Lemma tc_add es a h b x y :
  tc (leads (es ++ [(a, (h, b))])) x y → tc (leads es) x y ∨ (rtc (leads es) x a ∧ rtc (leads es) b y).
Proof.
  induction 1 as [x y Hxy|x y z Hxy _ IH]; apply leads_add in Hxy as [Hxy|[-> ->]].
  - left. by apply tc_once.
  - by right.
  - destruct IH as [IH|[IH1 IH2]]; [left; by eapply tc_l|right; split; [by eapply rtc_l|done]].
  - right. split; [done|]. destruct IH as [IH|[_ IH]]; [by apply tc_rtc|done].
Qed.

Lemma acyclic_add es a h b : acyclic es → ¬ rtc (leads es) b a → acyclic (es ++ [(a, (h, b))]).
Proof.
  intros Ha Hn id [?|[H1 H2]]%tc_add; [by eapply Ha|]. apply Hn. by etrans.
Qed.

(** ** The invariant *)

Record shape_ok (ns : list (string * IvrNodeType)) (es : list shape_edge) : Prop := {
  sh_ids : NoDup (List.map fst ns);
  sh_start : ∃ id, (id, entry) ∈ ns;
  sh_source : ∀ e, e ∈ es → e.1 ∈ List.map fst ns;
  sh_target : ∀ e, e ∈ es → ∃ t, (e.2.2, t) ∈ ns ∧ t ≠ entry;
  sh_slots : NoDup (List.map (λ e, (e.1, e.2.1)) es);
  sh_acyclic : acyclic es;
}.

Definition node_shape (n : FlowNode) : string * IvrNodeType := (fn_id n, fn_type n).
Definition edge_shape (e : FlowEdge) : shape_edge := (fe_source e, (fe_sourceHandle e, fe_target e)).

Definition ids_of (nodes : list FlowNode) : list string := List.map fn_id nodes.

Lemma ids_of_shape nodes : List.map fst (List.map node_shape nodes) = ids_of nodes.
Proof. by rewrite List.map_map. Qed.

Section store_ok.
Context `{IdSupply}.

(** A draft the builder can show: its ids are distinct and none is still to
    be drawn, it has a Start, no Start can be deleted, edges join its blocks,
    one per exit, none into a Start, and they form no cycle. *)
Record draft_ok (k : nat) (nodes : list FlowNode) (edges : list FlowEdge) : Prop := {
  do_shape : shape_ok (List.map node_shape nodes) (List.map edge_shape edges);
  do_fixed : ∀ n, n ∈ nodes → fn_type n = entry → fn_deletable n = Some false;
  do_edgeIds : NoDup (List.map fe_id edges);
  do_newNodes : ∀ j, k ≤ j → newNodeId j ∉ ids_of nodes;
  do_newEdges : ∀ j, k ≤ j → newEdgeId j ∉ List.map fe_id edges;
}.

Definition snap_ok (k : nat) (snap : FlowSnapshot) : Prop :=
  draft_ok k (fromSnapshot snap).1 (fromSnapshot snap).2.

Record store_ok (s : FlowState) : Prop := {
  so_draft : draft_ok (fs_drawn s) (fs_nodes s) (fs_edges s);
  so_history : ∀ snap, snap ∈ past (fs_history s) ∨ snap ∈ future (fs_history s) → snap_ok (fs_drawn s) snap;
  so_limit : history_ok (fs_history s);
  so_selected : ∀ id, fs_selectedId s = Some id → id ∈ ids_of (fs_nodes s);
  so_saved : (fs_savedSeq s ≤ fs_changeSeq s)%Z;
}.

(** ** Lemmas: snapshots *)

Lemma shapes_of_snapshot nodes edges :
  List.map node_shape (fromSnapshot (snapshotOf nodes edges)).1 = List.map node_shape nodes ∧
  List.map edge_shape (fromSnapshot (snapshotOf nodes edges)).2 = List.map edge_shape edges ∧
  List.map fe_id (fromSnapshot (snapshotOf nodes edges)).2 = List.map fe_id edges.
Proof.
  simpl. rewrite !List.map_map. split_and!; apply List.map_ext; intros x; [|done..].
  unfold node_shape, unsnap_node, cast_type. simpl. by rewrite type_of_name_name.
Qed.

Lemma flow_fixed id t p d : t = entry → fn_deletable (toFlowNode id t p d) = Some false.
Proof. intros ->. done. Qed.

Lemma draft_mono k k' nodes edges : k ≤ k' → draft_ok k nodes edges → draft_ok k' nodes edges.
Proof. intros Hk []. split; try done; intros j Hj; [apply do_newNodes0|apply do_newEdges0]; lia. Qed.

Lemma draft_ext k nodes edges nodes' edges' :
  draft_ok k nodes edges →
  List.map node_shape nodes' = List.map node_shape nodes →
  List.map edge_shape edges' = List.map edge_shape edges →
  List.map fe_id edges' = List.map fe_id edges →
  (∀ n, n ∈ nodes' → fn_type n = entry → fn_deletable n = Some false) →
  draft_ok k nodes' edges'.
Proof.
  intros [] En Ee Ei Hd. split; rewrite ?En, ?Ee, ?Ei; try done.
  rewrite <- ids_of_shape, En, ids_of_shape. done.
Qed.

Lemma snap_ok_of k nodes edges : draft_ok k nodes edges → snap_ok k (snapshotOf nodes edges).
Proof.
  intros Hd. destruct (shapes_of_snapshot nodes edges) as (E1 & E2 & E3).
  eapply draft_ext; try done. intros n (x & -> & _)%elem_of_lmap Ht. by apply flow_fixed.
Qed.

Lemma snap_mono k k' snap : k ≤ k' → snap_ok k snap → snap_ok k' snap.
Proof. apply draft_mono. Qed.

(** ** Lemmas: commits *)

Lemma record_elems (h : FlowHistory) before after key now snap :
  snap ∈ past (record h before after key now) ∨ snap ∈ future (record h before after key now) →
  snap ∈ past h ∨ snap ∈ future h ∨ snap = before.
Proof.
  unfold record. destruct (coalesces h key now); [|case_match]; simpl; [|tauto|].
  - intros [?|[]%not_elem_of_nil]. by left.
  - intros [Hin|[]%not_elem_of_nil]. rewrite trim_past_eq in Hin.
    apply (subseteq_drop _ _) in Hin. apply elem_of_app in Hin as [?| ->%list_elem_of_singleton]; auto.
Qed.

Lemma store_mono s k : fs_drawn s ≤ k → store_ok s → store_ok (set_drawn k s).
Proof.
  intros Hk []. split; simpl; try done; [by eapply draft_mono|].
  intros snap Hs. eapply snap_mono; eauto.
Qed.

(** What the further fields an edit sets leave alone. *)
Definition keeps_draft (f : FlowState → FlowState) : Prop := ∀ s,
  fs_nodes (f s) = fs_nodes s ∧ fs_edges (f s) = fs_edges s ∧ fs_history (f s) = fs_history s ∧
  fs_changeSeq (f s) = fs_changeSeq s ∧ fs_savedSeq (f s) = fs_savedSeq s ∧ fs_drawn (f s) = fs_drawn s.

Lemma commit_ok now nodes edges key extra po s :
  store_ok s → draft_ok (fs_drawn s) nodes edges → keeps_draft extra →
  (∀ s' id, fs_nodes s' = nodes → fs_selectedId s' = fs_selectedId s →
     fs_selectedId (extra s') = Some id → id ∈ ids_of nodes) →
  store_ok (commit now nodes edges key extra po s).
Proof.
  intros [] Hd Hk Hsel. unfold commit. cbv zeta.
  match goal with |- store_ok (extra ?x) => set (s1 := x); destruct (Hk s1) as (En & Ee & Eh & Ec & Es & Ed) end.
  split; rewrite ?En, ?Ee, ?Eh, ?Ec, ?Es, ?Ed; simpl.
  - done.
  - intros snap [?|[?| ->]]%record_elems; [auto|auto|by apply snap_ok_of].
  - by apply record_ok.
  - intros id Hid. eapply (Hsel s1); done.
  - case_match; lia.
Qed.

(** Edits that set no further field, or that leave the selection to them. *)
Lemma keeps_id : keeps_draft (λ s, s).
Proof. done. Qed.

Lemma commit_same_selection now nodes edges key po s :
  store_ok s → draft_ok (fs_drawn s) nodes edges → ids_of (fs_nodes s) = ids_of nodes →
  store_ok (commit now nodes edges key (λ s, s) po s).
Proof.
  intros Hs Hd Hi. apply commit_ok; [done..|]. intros s' id _ -> Hid. rewrite <- Hi. by apply (so_selected s).
Qed.

(** ** Lemmas: connections *)

Lemma out_map_get edges id :
  om_get id (out_map edges) =
    match List.map fe_target (List.filter (λ e, fe_source e ==? id) edges) with [] => None | l => Some l end.
Proof.
  unfold out_map. induction edges as [|e edges IH] using rev_ind; [done|].
  rewrite fold_left_app. simpl. rewrite List.filter_app, List.map_app. simpl.
  destruct (decide (fe_source e = id)) as [->|Hne].
  - rewrite om_get_set_eq, IH, bool_decide_eq_true_2 by done. simpl.
    by destruct (List.map _ _).
  - rewrite om_get_set_ne, IH, bool_decide_eq_false_2 by done. simpl. by rewrite app_nil_r.
Qed.

Lemma out_edge edges a b :
  edge (λ id, om_get id (out_map edges)) a b ↔ leads (List.map edge_shape edges) a b.
Proof.
  unfold edge, leads. rewrite out_map_get. split.
  - intros (l & E & Hb). assert (b ∈ List.map fe_target (List.filter (λ e, fe_source e ==? a) edges)) as Hin
      by (destruct (List.map _ _); simplify_eq; done).
    apply elem_of_lmap in Hin as (e & -> & [He Es]%elem_of_lfilter). apply bool_decide_eq_true in Es as <-.
    eexists. apply elem_of_lmap. by exists e.
  - intros [h (e & [= -> -> ->] & He)%elem_of_lmap].
    assert (fe_target e ∈ List.map fe_target (List.filter (λ e', fe_source e' ==? fe_source e) edges)) as Hin.
    { apply elem_of_lmap. exists e. split; [done|]. apply elem_of_lfilter. by rewrite bool_decide_eq_true_2. }
    destruct (List.map _ _); [by apply not_elem_of_nil in Hin|]. eauto.
Qed.

(** The pushes of a search over [edges]: one per edge. *)
Lemma list_sum_one_key (ks : list string) (l : list FlowEdge) :
  NoDup ks → list_sum (List.map (λ id, length (List.filter (λ e, fe_source e ==? id) l)) ks) ≤ length l.
Proof.
  intros Hnd. induction l as [|e l IH]; simpl.
  { clear. induction ks; simpl; [done|lia]. }
  assert (list_sum (List.map (λ id, length (if fe_source e ==? id then e :: List.filter (λ e, fe_source e ==? id) l
              else List.filter (λ e, fe_source e ==? id) l)) ks)
          ≤ (if includes ks (fe_source e) then 1 else 0)
            + list_sum (List.map (λ id, length (List.filter (λ e, fe_source e ==? id) l)) ks)) as Hle; [|case_match; lia].
  clear IH. induction Hnd as [|k ks Hk Hnd IH]; simpl; [lia|].
  destruct (decide (fe_source e = k)) as [<-|Hne].
  - rewrite !bool_decide_eq_true_2 by done. simpl.
    assert (includes ks (fe_source e) = false) as E by by apply includes_false. rewrite E in IH. lia.
  - rewrite !(bool_decide_eq_false_2 (fe_source e = k)), (bool_decide_eq_false_2 (k = fe_source e)) by done.
    simpl. lia.
Qed.

Lemma out_map_keys_NoDup edges : NoDup (om_keys (out_map edges)).
Proof.
  unfold out_map. enough (∀ m, NoDup (om_keys m) → NoDup (om_keys (fold_left
    (λ m e, om_set (fe_source e) (default [] (om_get (fe_source e) m) ++ [fe_target e]) m) edges m))) as Hg
    by (apply Hg; constructor).
  induction edges as [|e edges IH]; intros m Hm; simpl; [done|]. by apply IH, om_set_NoDup.
Qed.

(** The store's search is right, and its fuel is never spent. *)
Lemma reaches_true edges from to :
  reaches edges from to = true ↔ rtc (leads (List.map edge_shape edges)) from to.
Proof.
  unfold reaches. set (next := λ id, om_get id (out_map edges)).
  destruct (search_total (λ id, id ==? to) next (om_keys (out_map edges))) with
    (fuel := reaches_fuel edges) (stack := [from]) (seen := @nil string) as [[found seen] E].
  - intros id l El. apply om_has_true. unfold om_has, next in *. by rewrite El.
  - unfold pending, reaches_fuel. simpl. rewrite lfilter_all by done.
    rewrite (List.map_ext _ (λ id, length (List.filter (λ e, fe_source e ==? id) edges))).
    + pose proof (list_sum_one_key _ edges (out_map_keys_NoDup edges)). lia.
    + intros id. unfold next. rewrite out_map_get.
      destruct (List.map fe_target _) eqn:Em; simpl; rewrite <- (List.length_map fe_target), Em; done.
  - rewrite E. apply search_from in E as (Hf & _ & Hn).
    assert (∀ x y, rtc (edge next) x y ↔ rtc (leads (List.map edge_shape edges)) x y) as Hiff.
    { intros x y. split; apply rtc_subrel; intros ??; by apply out_edge. }
    destruct found; split; try done.
    + intros _. destruct (Hf eq_refl) as (x & Hx & Ex). apply bool_decide_eq_true in Ex as ->. by apply Hiff.
    + intros Hr%Hiff. specialize (Hn eq_refl to Hr). by apply bool_decide_eq_false in Hn.
Qed.

Lemma find_node_spec nodes id n : find_node nodes id = Some n → n ∈ nodes ∧ fn_id n = id.
Proof. intros [Hn E]%find_some_iff. by apply bool_decide_eq_true in E. Qed.

Lemma find_node_id nodes n : NoDup (ids_of nodes) → n ∈ nodes → find_node nodes (fn_id n) = Some n.
Proof. apply (find_by_key fn_id). Qed.

(** Why a connection is refused, in full. *)
Lemma connectionProblem_None nodes edges source handle target :
  connectionProblem nodes edges source handle target = None ↔
  ∃ s t, find_node nodes source = Some s ∧ find_node nodes target = Some t ∧
    fn_type t ≠ entry ∧ source ≠ target ∧ has_exit s handle = true ∧
    ¬ rtc (leads (List.map edge_shape (others source handle edges))) target source.
Proof.
  unfold connectionProblem. split.
  - destruct (find_node nodes source) as [s|]; [|done]. destruct (find_node nodes target) as [t|]; [|done].
    case_bool_decide; [done|]. case_bool_decide; [done|]. destruct (has_exit s handle) eqn:Eh; [|done].
    destruct (reaches _ target source) eqn:Er; [done|]. intros _. exists s, t. split_and!; try done.
    rewrite <- reaches_true, Er. done.
  - intros (s & t & -> & -> & Ht & Hne & -> & Hr). rewrite !bool_decide_eq_false_2 by done. simpl.
    destruct (reaches _ target source) eqn:Er; [|done]. by apply reaches_true in Er.
Qed.

Lemma elem_of_others source handle edges e :
  e ∈ others source handle edges ↔ e ∈ edges ∧ ¬ (fe_source e = source ∧ fe_sourceHandle e = handle).
Proof.
  unfold others, is_exit. rewrite elem_of_lfilter, negb_true_iff, andb_false_iff, !bool_decide_eq_false.
  destruct (decide (fe_source e = source)), (decide (fe_sourceHandle e = handle)); tauto.
Qed.

(** Dropping edges leaves a draft a draft. *)
Lemma draft_filter k nodes edges f : draft_ok k nodes edges → draft_ok k nodes (List.filter f edges).
Proof.
  intros [[] ? Hei ? Hne].
  assert (∀ e, e ∈ List.map edge_shape (List.filter f edges) → e ∈ List.map edge_shape edges) as Hsub.
  { intros e (x & -> & [Hx _]%elem_of_lfilter)%elem_of_lmap. apply elem_of_lmap. eauto. }
  split; try done.
  - split; try done; [intros e He; apply sh_source0; auto|intros e He; apply sh_target0; auto| |].
    + rewrite List.map_map in *. by apply NoDup_map_lfilter.
    + by eapply acyclic_subset.
  - by apply NoDup_map_lfilter.
  - intros j Hj (e & E & [He _]%elem_of_lfilter)%elem_of_lmap. apply (Hne j Hj), elem_of_lmap. eauto.
Qed.

Lemma draft_others k nodes edges source handle :
  draft_ok k nodes edges → draft_ok k nodes (others source handle edges).
Proof. apply draft_filter. Qed.

Section drawing.
Context (Hinj : ∀ i j, nano i = nano j → i = j).

Lemma new_edge_inj i j : newEdgeId i = newEdgeId j → i = j.
Proof. intros [= E]. by apply Hinj. Qed.
Lemma new_node_inj i j : newNodeId i = newNodeId j → i = j.
Proof. intros [= E]. by apply Hinj. Qed.

(** Connecting an exit the check allows. *)
Lemma draft_connect k j nodes edges source handle target keep :
  k ≤ j → draft_ok k nodes edges → connectionProblem nodes edges source handle target = None →
  draft_ok (S j) nodes (others source handle edges ++ [toFlowEdge (newEdgeId j) source handle target keep]).
Proof.
  intros Hj Hd (s & t & Es & Et & Ht & Hne & Hh & Hr)%connectionProblem_None.
  destruct (draft_others k nodes edges source handle Hd) as [[] Hf Hei Hnn Hnew].
  apply find_node_spec in Es as [Es <-], Et as [Et <-].
  split; rewrite ?List.map_app; simpl; try done.
  - split; try done.
    + intros e [He| ->%list_elem_of_singleton]%elem_of_app; [auto|]. rewrite ids_of_shape.
      apply elem_of_lmap. eauto.
    + intros e [He| ->%list_elem_of_singleton]%elem_of_app; [auto|]. exists (fn_type t). split; [|done].
      apply elem_of_lmap. by exists t.
    + rewrite List.map_app. simpl. apply NoDup_app. split_and!; [done| |apply NoDup_singleton].
      intros x (e & -> & (e' & -> & [_ He']%elem_of_others)%elem_of_lmap)%elem_of_lmap Hx%list_elem_of_singleton.
      injection Hx as E1 E2. by destruct He'.
    + by apply acyclic_add.
  - apply NoDup_app. split_and!; [done| |apply NoDup_singleton].
    intros x Hx ->%list_elem_of_singleton. by apply (Hnew j).
  - intros i Hi. apply Hnn. lia.
  - intros i Hi [Hin|Hin%list_elem_of_singleton]%elem_of_app; [apply (Hnew i); [lia|done]|].
    apply new_edge_inj in Hin. lia.
Qed.

(** Adding a block that is not yet connected. *)
Lemma draft_add k nodes nodes' edges n :
  draft_ok k nodes edges → fn_id n = newNodeId k → (fn_type n = entry → fn_deletable n = Some false) →
  List.map node_shape nodes' = List.map node_shape nodes →
  (∀ m, m ∈ nodes' → fn_type m = entry → fn_deletable m = Some false) →
  draft_ok (S k) (nodes' ++ [n]) edges.
Proof.
  intros [[] Hf Hei Hnn Hnew] Hid Hfix Esh Hf'. rewrite ids_of_shape in sh_ids0.
  assert (ids_of nodes' = ids_of nodes) as Ei by (rewrite <- !ids_of_shape; by rewrite Esh).
  split; rewrite ?List.map_app; simpl; try done.
  - split; try done.
    + rewrite List.map_app, ids_of_shape, Ei. simpl. apply NoDup_app. split_and!; [done| |apply NoDup_singleton].
      intros x Hx ->%list_elem_of_singleton. rewrite Hid in Hx. by apply (Hnn k).
    + destruct sh_start0 as [id ?]. exists id. rewrite Esh. apply elem_of_app. by left.
    + intros e He. rewrite List.map_app, Esh. apply elem_of_app. left. by apply sh_source0.
    + intros e He. destruct (sh_target0 e He) as (t & ? & ?). exists t. rewrite Esh. split; [|done].
      apply elem_of_app. by left.
  - intros m [?| ->%list_elem_of_singleton]%elem_of_app; auto.
  - intros j Hj. unfold ids_of. rewrite List.map_app. fold (ids_of nodes'). rewrite Ei.
    intros [Hin|Hin%list_elem_of_singleton]%elem_of_app; [apply (Hnn j); [lia|done]|].
    rewrite Hid in Hin. apply new_node_inj in Hin. lia.
  - intros j Hj. apply Hnew. lia.
Qed.
End drawing.

(** ** Lemmas: pruning *)

Definition live_exit (nodes : list FlowNode) (e : FlowEdge) : bool :=
  match find_node nodes (fe_source e) with Some s => has_exit s (fe_sourceHandle e) | None => false end.

Lemma flow_by_id (nodes : list FlowNode) id n :
  NoDup (ids_of nodes) → om_get id (by_id nodes) = Some n ↔ find_node nodes id = Some n.
Proof.
  intros Hids. etrans; [exact (by_id_get nodes id n Hids)|]. split.
  - intros [Hn <-]. by apply find_node_id.
  - apply find_node_spec.
Qed.

Lemma prune_eq nodes edges :
  NoDup (ids_of nodes) → NoDup (List.map (λ e, (fe_source e, fe_sourceHandle e)) edges) →
  (∀ e, e ∈ edges → ∃ t, t ∈ nodes ∧ fn_id t = fe_target e ∧ fn_type t ≠ entry) →
  pruneEdges nodes edges = List.filter (live_exit nodes) edges.
Proof.
  intros Hids. unfold pruneEdges.
  enough (∀ l out seen, NoDup (List.map (λ e, (fe_source e, fe_sourceHandle e)) (out ++ l)) →
    (∀ e, e ∈ out → live_exit nodes e = true) →
    (∀ x, x ∈ seen ↔ x ∈ List.map (λ e, slotKey (fe_source e) (Some (fe_sourceHandle e))) out) →
    (∀ e, e ∈ l → ∃ t, t ∈ nodes ∧ fn_id t = fe_target e ∧ fn_type t ≠ entry) →
    (fold_left (prune_step (by_id nodes)) l (out, seen)).1 = out ++ List.filter (live_exit nodes) l) as Hg.
  { intros Hnd Ht. by apply (Hg edges [] []); try set_solver. }
  induction l as [|e l IH]; intros out seen Hnd Hout Hseen Ht; cbn [fold_left List.filter]; [by rewrite app_nil_r|].
  destruct (Ht e) as (t & Htn & Et & Htt); [by apply elem_of_cons; left|].
  assert (∀ x, x ∈ l → ∃ t, t ∈ nodes ∧ fn_id t = fe_target x ∧ fn_type t ≠ entry) as Ht'
    by (intros x Hx; apply Ht; by apply elem_of_cons; right).
  unfold prune_step at 2. rewrite (proj2 (flow_by_id nodes (fe_target e) t Hids)) by (rewrite <- Et; by apply find_node_id).
  unfold live_exit at 1.
  assert (NoDup (List.map (λ e, (fe_source e, fe_sourceHandle e)) (out ++ l))) as Hnd'.
  { rewrite List.map_app in *. simpl in Hnd. by apply NoDup_app_remove_middle in Hnd. }
  destruct (find_node nodes (fe_source e)) as [s|] eqn:Es.
  2:{ destruct (om_get (fe_source e) (by_id nodes)) as [s|] eqn:Eg; [|by apply IH].
      apply flow_by_id in Eg; [|done]. congruence. }
  rewrite (proj2 (flow_by_id nodes (fe_source e) s Hids)), bool_decide_eq_false_2 by done.
  destruct (has_exit s (fe_sourceHandle e)) eqn:Eh; simpl; [|by apply IH].
  rewrite (proj2 (includes_false seen _)); cycle 1.
  { rewrite Hseen. intros (e' & E & He')%elem_of_lmap. pose proof (Hout e' He') as Hl. unfold live_exit in Hl.
    destruct (find_node nodes (fe_source e')) as [s'|]; [|done].
    apply slot_of_inj in E as [E1 E2]; [|by eapply has_exit_plain..].
    rewrite List.map_app in Hnd. apply NoDup_app in Hnd as (_ & Hnd & _).
    apply (Hnd (fe_source e, fe_sourceHandle e)); [|by apply elem_of_cons; left].
    apply elem_of_lmap. exists e'. simpl in E1, E2. by rewrite E1, E2. }
  rewrite IH; [by rewrite <- app_assoc|by rewrite <- app_assoc| | |done].
  - intros x [?| ->%list_elem_of_singleton]%elem_of_app; [auto|]. unfold live_exit. by rewrite Es.
  - intros x. rewrite List.map_app, !elem_of_app, Hseen. done.
Qed.

(** ** Lemmas: edits of nodes *)

(** An edit that keeps ids, types and what cannot be deleted. *)
Definition same_blocks (f : FlowNode → FlowNode) : Prop := ∀ n,
  node_shape (f n) = node_shape n ∧ fn_deletable (f n) = fn_deletable n.

Lemma same_set_data g : same_blocks (λ n, set_data (g n) n).
Proof. done. Qed.
Lemma same_set_config g : same_blocks (λ n, set_config (g n) n).
Proof. done. Qed.
Lemma same_select g : same_blocks (λ n, set_selected (g n) n).
Proof. done. Qed.
Lemma same_deselect : same_blocks deselect.
Proof. intros n. unfold deselect. by destruct (fn_selected n) as [[]|]. Qed.
Lemma same_place pos : same_blocks (place pos).
Proof. done. Qed.
Lemma same_select_node id : same_blocks (select_node id).
Proof. intros n. unfold select_node. by destruct (fn_selected n ==? _). Qed.
Lemma same_update id f : same_blocks f → same_blocks (update_node id f).
Proof. intros Hf n. unfold update_node. by destruct (fn_id n ==? id). Qed.
Lemma same_clear_goto gone : same_blocks (clear_goto gone).
Proof. intros n. unfold clear_goto. repeat case_match; done. Qed.

Lemma same_map f nodes :
  same_blocks f → List.map node_shape (List.map f nodes) = List.map node_shape nodes ∧
  ids_of (List.map f nodes) = ids_of nodes.
Proof.
  intros Hf. unfold ids_of. rewrite !List.map_map. split; apply List.map_ext; intros n; [apply Hf|].
  destruct (Hf n) as [E _]. by injection E.
Qed.

Lemma draft_map k nodes edges f : same_blocks f → draft_ok k nodes edges → draft_ok k (List.map f nodes) edges.
Proof.
  intros Hf Hd. eapply draft_ext; [done|by apply same_map|done|done|].
  intros n (m & -> & Hm)%elem_of_lmap. destruct (Hf m) as [E ->]. intros Ht.
  apply (do_fixed _ _ _ Hd); [done|]. injection E as _ <-. done.
Qed.

Lemma draft_prune k nodes edges :
  draft_ok k nodes edges → pruneEdges nodes edges = List.filter (live_exit nodes) edges.
Proof.
  intros [[] _ _ _ _]. apply prune_eq.
  - by rewrite <- ids_of_shape.
  - by rewrite List.map_map in sh_slots0.
  - intros e He. destruct (sh_target0 (edge_shape e)) as (t & Ht & Hne); [apply elem_of_lmap; eauto|].
    apply elem_of_lmap in Ht as (n & En & Hn). exists n. by injection En as -> ->.
Qed.

(** The blocks [removeBlocks] is left with. *)
Lemma gone_not_start nodes ids id :
  NoDup (ids_of nodes) → id ∈ gone_ids nodes ids → ∀ n, n ∈ nodes → fn_id n = id → fn_type n ≠ entry.
Proof.
  intros Hids [_ Hg]%elem_of_lfilter n Hn <- Ht. unfold type_of in Hg. rewrite find_node_id in Hg by done.
  simpl in Hg. by rewrite Ht in Hg.
Qed.

Lemma draft_remove k nodes edges gone :
  (∀ n, n ∈ nodes → fn_id n ∈ gone → fn_type n ≠ entry) → draft_ok k nodes edges →
  draft_ok k (List.filter (λ n, negb (includes gone (fn_id n))) nodes)
    (List.filter (λ e, negb (includes gone (fe_source e)) && negb (includes gone (fe_target e))) edges).
Proof.
  intros Hgone Hd. destruct (draft_filter k nodes edges
    (λ e, negb (includes gone (fe_source e)) && negb (includes gone (fe_target e))) Hd) as [[] Hf Hei Hnn Hnew].
  assert (∀ n, n ∈ nodes → fn_id n ∉ gone → n ∈ List.filter (λ n, negb (includes gone (fn_id n))) nodes) as Hkeep.
  { intros n Hn Hg. apply elem_of_lfilter. split; [done|]. by apply negb_true_iff, includes_false. }
  assert (∀ id t, (id, t) ∈ List.map node_shape nodes → id ∉ gone →
    (id, t) ∈ List.map node_shape (List.filter (λ n, negb (includes gone (fn_id n))) nodes)) as Hshape.
  { intros id t (n & [= -> ->] & Hn)%elem_of_lmap Hg. apply elem_of_lmap. exists n. auto. }
  assert (∀ e, e ∈ List.map edge_shape (List.filter (λ e, negb (includes gone (fe_source e))
      && negb (includes gone (fe_target e))) edges) → (e.1 ∉ gone) ∧ (e.2.2 ∉ gone)) as Hends.
  { intros e (x & -> & [_ Hx]%elem_of_lfilter)%elem_of_lmap. bool_hyps. by rewrite <- !includes_false. }
  split; try done.
  - split; try done.
    + rewrite ids_of_shape in *. by apply NoDup_map_lfilter.
    + destruct sh_start0 as [id Hid]. exists id. apply Hshape; [done|]. intros Hg.
      apply elem_of_lmap in Hid as (n & [= -> Ht] & Hn). by eapply Hgone.
    + intros e He. destruct (Hends e He) as [Hs _]. specialize (sh_source0 e He).
      apply elem_of_lmap in sh_source0 as ([id t] & E & Hin). simpl in E. subst id.
      apply elem_of_lmap. exists (e.1, t). split; [done|]. by apply Hshape.
    + intros e He. destruct (Hends e He) as [_ Ht]. destruct (sh_target0 e He) as (t & ? & ?).
      exists t. split; [|done]. by apply Hshape.
  - intros n [Hn _]%elem_of_lfilter. by apply Hf.
  - intros j Hj (n & E & [Hn _]%elem_of_lfilter)%elem_of_lmap. apply (Hnn j Hj), elem_of_lmap. eauto.
Qed.

(** ** Lemmas: loading *)

Definition loaded_nodes (w : WorkGraph) : list FlowNode := List.map flow_node (wg_nodes w).
Definition loaded_edges (w : WorkGraph) : list FlowEdge := List.map flow_edge (wg_edges w).

Lemma new_ids_above make stored k k' ids :
  (∀ i j, make i = make j → i = j) → (∀ j, k ≤ j → make j ∉ stored) → k ≤ k' → ids_from make stored k k' ids →
  ∀ j, k' ≤ j → make j ∉ ids.
Proof.
  intros Hinj Hs Hk Hids j Hj [Hin|(i & Hi & E)]%Hids; [by apply (Hs j); [lia|]|]. apply Hinj in E. lia.
Qed.

Lemma draft_of_graph k input w k' :
  wf_value input → FreshSupply k input → fromGraph k input = (w, k') →
  acyclic (List.map edge_shape (loaded_edges w)) →
  k ≤ k' ∧ draft_ok k' (loaded_nodes w) (loaded_edges w).
Proof.
  intros Hwf Hfresh E Hac. destruct (fromGraph_read k input w k' Hwf Hfresh E) as ([Hids _ _ Hstart Hedges Hslots Heids _] & Hk & Hni & Hei).
  destruct Hfresh as (Hinj & Hfn & Hfe). split; [done|].
  assert (ids_of (loaded_nodes w) = List.map wn_id (wg_nodes w)) as En by (unfold ids_of, loaded_nodes; by rewrite List.map_map).
  assert (List.map fe_id (loaded_edges w) = List.map we_id (wg_edges w)) as Ee
    by (unfold loaded_edges; by rewrite List.map_map).
  assert (∀ n, n ∈ wg_nodes w → (wn_id n, wn_type n) ∈ List.map node_shape (loaded_nodes w)) as Hsh.
  { intros n Hn. unfold loaded_nodes. rewrite List.map_map. apply elem_of_lmap. by exists n. }
  split; rewrite ?En, ?Ee; try done.
  - split; rewrite ?ids_of_shape, ?En; try done.
    + by apply NoDup_app in Hids as [? _].
    + destruct (mark_entry_first _ _ Hstart) as (n & Hn & Ht). exists (wn_id n). rewrite <- Ht. by apply Hsh.
    + unfold loaded_edges. rewrite List.map_map. intros e (x & -> & Hx)%elem_of_lmap. by apply Hedges.
    + unfold loaded_edges. rewrite List.map_map. intros e (x & -> & Hx)%elem_of_lmap.
      destruct (eo_target _ _ (Hedges x Hx)) as (n & Hn & Hid & Ht). exists (wn_type n). split; [|done].
      simpl. rewrite <- Hid. by apply Hsh.
    + unfold loaded_edges. rewrite !List.map_map. eapply NoDup_map_finer; [|exact Hslots].
      intros x y [= Es Eh]. unfold edge_slot. by rewrite Es, Eh.
  - intros n (x & -> & _)%elem_of_lmap Ht. by apply flow_fixed.
  - eapply new_ids_above; try done. intros i j [= Eij]. by apply Hinj.
  - eapply new_ids_above; try done. intros i j [= Eij]. by apply Hinj.
Qed.

Lemma store_frame s s' :
  store_ok s → draft_ok (fs_drawn s) (fs_nodes s') (fs_edges s') →
  fs_history s' = fs_history s → fs_drawn s' = fs_drawn s →
  (∀ id, fs_selectedId s' = Some id → id ∈ ids_of (fs_nodes s')) → (fs_savedSeq s' ≤ fs_changeSeq s')%Z →
  store_ok s'.
Proof. intros [] Hd Eh Ed Hs Hc. split; rewrite ?Eh, ?Ed; done. Qed.

Lemma selected_frame s s' :
  store_ok s → ids_of (fs_nodes s') = ids_of (fs_nodes s) → fs_selectedId s' = fs_selectedId s →
  ∀ id, fs_selectedId s' = Some id → id ∈ ids_of (fs_nodes s').
Proof. intros Hs -> -> id. by apply (so_selected s). Qed.

Section acting.
Context `{ReactFlow}.

(** What React Flow documents of its two functions: changes of selection,
    measure and position keep the blocks, and edges are only selected or
    removed, unless it is asked to add or replace. *)
Definition node_core (n : FlowNode) : (string * IvrNodeType) * FlowData * option bool :=
  (node_shape n, fn_data n, fn_deletable n).
Definition edge_core (e : FlowEdge) : string * shape_edge * option obj := (fe_id e, edge_shape e, fe_keep e).

Definition in_place (c : NodeChange) : bool :=
  match c with nc_select _ _ | nc_dimensions _ _ | nc_position _ _ _ => true | _ => false end.
Definition no_new_node (c : NodeChange) : bool :=
  match c with nc_add _ | nc_replace _ _ => false | _ => true end.
Definition no_new_edge (c : EdgeChange) : bool :=
  match c with ec_add _ | ec_replace _ _ => false | _ => true end.
Definition removed_edge (c : EdgeChange) : option string := match c with ec_remove id => Some id | _ => None end.

Class ReactFlowLaws : Prop := {
  nodes_kept cs ns : forallb bookkeeping cs = true →
    List.map (λ n, (node_core n, fn_position n)) (applyNodeChanges cs ns) = List.map (λ n, (node_core n, fn_position n)) ns;
  nodes_in_place cs ns : forallb in_place cs = true → List.map node_core (applyNodeChanges cs ns) = List.map node_core ns;
  edges_removed cs es : forallb no_new_edge cs = true →
    List.map edge_core (applyEdgeChanges cs es)
    = List.map edge_core (List.filter (λ e, negb (includes (omap removed_edge cs) (fe_id e))) es);
}.

(** ** Every action of the store *)

Inductive action :=
  | a_load (next : Flow) (undoable : bool)
  | a_nodesChange (changes : list NodeChange)
  | a_edgesChange (changes : list EdgeChange)
  | a_previewNodesChange (changes : list NodeChange)
  | a_connect (source handle target : string)
  | a_disconnect (source handle : string)
  | a_addBlock (type : IvrNodeType) (position : option Position) (from : option (string * string))
  | a_updateConfig (id : string) (patch : obj) (coalesceKey : option string)
  | a_setLabel (id label : string)
  | a_removeBlocks (ids : list string)
  | a_select (id : option string)
  | a_focusBlock (id : string)
  | a_revealBlock (id : string)
  | a_setName (name : string)
  | a_setViewport (viewport : IvrViewport)
  | a_tidy
  | a_undo
  | a_redo
  | a_markSaved (seq revision : Z)
  | a_setRevision (revision : Z)
  | a_setMeta (patch : MetaPatch)
  | a_enterPreview (preview : PreviewGraph)
  | a_exitPreview
  | a_showProposal (jobId : string) (graph : value) (instant : bool)
  | a_revealNext
  | a_clearProposal
  | a_replaceDraft (graph : value)
  | a_setSimNode (id : option string)
  | a_contentGraph.

Definition act (now : Z) (a : action) (s : FlowState) : FlowState :=
  match a with
  | a_load next undoable => load now next undoable s
  | a_nodesChange cs => onNodesChange now cs s
  | a_edgesChange cs => onEdgesChange now cs s
  | a_previewNodesChange cs => onPreviewNodesChange cs s
  | a_connect source handle target => (connect now source handle target s).1
  | a_disconnect source handle => disconnect now source handle s
  | a_addBlock type position from => (addBlock now type position from s).1
  | a_updateConfig id patch key => updateConfig now id patch key s
  | a_setLabel id label => setLabel now id label s
  | a_removeBlocks ids => removeBlocks now ids s
  | a_select id => select id s
  | a_focusBlock id => focusBlock id s
  | a_revealBlock id => revealBlock id s
  | a_setName name => setName name s
  | a_setViewport vp => setViewport vp s
  | a_tidy => tidy now s
  | a_undo => undo s
  | a_redo => redo s
  | a_markSaved seq revision => markSaved seq revision s
  | a_setRevision revision => setRevision revision s
  | a_setMeta patch => setMeta patch s
  | a_enterPreview p => enterPreview p s
  | a_exitPreview => exitPreview s
  | a_showProposal jobId graph instant => showProposal jobId graph instant s
  | a_revealNext => (revealNext s).1
  | a_clearProposal => clearProposal s
  | a_replaceDraft graph => replaceDraft now graph s
  | a_setSimNode id => setSimNode id s
  | a_contentGraph => (contentGraph s).1
  end.

(** A draft from the server: plain JSON, none of whose ids is drawn later,
    and whose connections form no cycle. *)
Definition server_draft (k : nat) (input : value) : Prop :=
  wf_value input ∧ FreshSupply k input ∧ acyclic (List.map edge_shape (loaded_edges (fromGraph k input).1)).

(** How the builder's components call the actions. *)
Definition allowed (s : FlowState) (a : action) : Prop :=
  match a with
  | a_load next _ => server_draft (fs_drawn s) (fl_draft_graph next)
  | a_replaceDraft graph => server_draft (fs_drawn s) graph
  | a_showProposal _ graph _ => wf_value graph ∧ FreshSupply (fs_drawn s) graph
  | a_nodesChange cs => forallb no_new_node cs = true ∧ ∀ id, nc_select id true ∈ cs → id ∈ ids_of (fs_nodes s)
  | a_edgesChange cs => forallb no_new_edge cs = true
  | a_select (Some id) | a_focusBlock id => id ∈ ids_of (fs_nodes s)
  | a_markSaved seq _ => (seq ≤ fs_changeSeq s)%Z
  | _ => True
  end.

Inductive reachable (flow : Flow) : FlowState → Prop :=
  | reachable_start : server_draft 0 (fl_draft_graph flow) → reachable flow (createFlowStore flow)
  | reachable_step s now a : reachable flow s → allowed s a → reachable flow (act now a s).

(** ** Lemmas: the actions *)

Lemma load_ok now next undoable s :
  store_ok s → server_draft (fs_drawn s) (fl_draft_graph next) → store_ok (load now next undoable s).
Proof.
  intros [] (Hwf & Hfr & Hac). unfold load. destruct (fromGraph _ _) as [w k] eqn:E.
  destruct (draft_of_graph _ _ _ _ Hwf Hfr E Hac) as [Hk Hd]. split; simpl; try done.
  - intros snap Hs. eapply snap_mono; [exact Hk|]. destruct undoable.
    + apply record_elems in Hs as [?|[?| ->]]; [auto|auto|by apply snap_ok_of].
    + simpl in Hs. by destruct Hs as [[]%not_elem_of_nil|[]%not_elem_of_nil].
  - destruct undoable; [by apply record_ok|]. split; simpl; [unfold HISTORY_LIMIT; lia|done].
Qed.

Lemma create_ok flow : server_draft 0 (fl_draft_graph flow) → store_ok (createFlowStore flow).
Proof.
  intros (Hwf & Hfr & Hac). unfold createFlowStore. destruct (fromGraph _ _) as [w k] eqn:E.
  destruct (draft_of_graph _ _ _ _ Hwf Hfr E Hac) as [Hk Hd]. split; simpl; try done.
  - by intros snap [[]%not_elem_of_nil|[]%not_elem_of_nil].
  - split; simpl; [unfold HISTORY_LIMIT; lia|done].
Qed.

Lemma replace_ok now graph s :
  store_ok s → server_draft (fs_drawn s) graph → store_ok (replaceDraft now graph s).
Proof.
  intros Hs (Hwf & Hfr & Hac). unfold replaceDraft. destruct (fromGraph _ _) as [w k] eqn:E.
  destruct (draft_of_graph _ _ _ _ Hwf Hfr E Hac) as [Hk Hd]. apply commit_ok; try done. by apply store_mono.
Qed.

Lemma remove_ok now ids s : store_ok s → store_ok (removeBlocks now ids s).
Proof.
  intros Hs. unfold removeBlocks. destruct (gone_ids (fs_nodes s) ids) as [|g gs] eqn:Eg; [done|]. rewrite <- Eg.
  set (gone := gone_ids _ _).
  pose proof (sh_ids _ _ (do_shape _ _ _ (so_draft s Hs))) as Hids. rewrite ids_of_shape in Hids.
  assert (∀ n, n ∈ fs_nodes s → fn_id n ∈ gone → fn_type n ≠ entry) as Hgone
    by (intros n Hn Hg; by eapply gone_not_start).
  apply commit_ok; [done| |done|].
  - apply draft_map; [apply same_clear_goto|]. by apply draft_remove; [|apply Hs].
  - intros s' id _ _. simpl. destruct (fs_selectedId s) as [sel|] eqn:Es; [|done].
    destruct (includes gone sel) eqn:Ei; [done|]. intros [= <-].
    rewrite (proj2 (same_map _ _ (same_clear_goto gone))).
    apply (so_selected s Hs) in Es as (n & -> & Hn)%elem_of_lmap.
    apply elem_of_lmap. exists n. split; [done|]. apply elem_of_lfilter. by rewrite Ei.
Qed.

Lemma restore_ok step s :
  store_ok s →
  (∀ h snap, step = Some (h, snap) → snap_ok (fs_drawn s) snap ∧ history_ok h ∧
     ∀ x, x ∈ past h ∨ x ∈ future h →
       x ∈ past (fs_history s) ∨ x ∈ future (fs_history s) ∨ x = snapshotOf (fs_nodes s) (fs_edges s)) →
  store_ok (restore step s).
Proof.
  intros Hs Hst. unfold restore. destruct step as [[h snap]|]; [|done].
  destruct (Hst h snap eq_refl) as (Hsnap & Hh & Hel). unfold snap_ok in Hsnap.
  destruct (fromSnapshot snap) as [nodes edges]. simpl in Hsnap. pose proof Hs as [].
  split; cbn [fs_nodes fs_edges fs_history fs_selectedId fs_changeSeq fs_savedSeq fs_drawn set_nodes set_edges
    set_history set_changeSeq set_contentSeq set_selectedId]; [|..|done| |lia].
  - by apply draft_map; [apply same_select|].
  - intros x Hx. destruct (Hel x Hx) as [?|[?| ->]]; [auto|auto|by apply snap_ok_of].
  - intros id. case_match eqn:Ex; [|done]. intros Hid.
    rewrite (proj2 (same_map _ _ (same_select _))). apply existsb_elem_of in Ex as (n & Hn & En).
    apply bool_decide_eq_true in En. rewrite Hid in En. injection En as <-. apply elem_of_lmap. eauto.
Qed.

Lemma undo_ok s : store_ok s → store_ok (undo s).
Proof.
  intros Hs. apply restore_ok; [done|]. intros h snap E.
  pose proof (undo_spec (fs_history s) (snapshotOf (fs_nodes s) (fs_edges s))) as Hu. rewrite E in Hu.
  destruct Hu as [Hp Hf]. pose proof Hs as []. split_and!.
  - apply so_history0. left. rewrite Hp. apply elem_of_app. right. by apply list_elem_of_singleton.
  - pose proof (step_ok (fs_history s, snapshotOf (fs_nodes s) (fs_edges s)) Undo so_limit0) as Hok.
    simpl in Hok. by rewrite E in Hok.
  - intros x. rewrite Hp, Hf, elem_of_app, elem_of_cons. tauto.
Qed.

Lemma redo_ok s : store_ok s → store_ok (redo s).
Proof.
  intros Hs. apply restore_ok; [done|]. intros h snap E. pose proof Hs as [].
  pose proof (step_ok (fs_history s, snapshotOf (fs_nodes s) (fs_edges s)) Redo so_limit0) as Hok.
  simpl in Hok. rewrite E in Hok. simpl in Hok. revert E. unfold History.redo.
  destruct (future (fs_history s)) as [|t rest] eqn:Ef; [done|]. intros [= <- <-]. split_and!; [|done|].
  - apply so_history0. right. by apply elem_of_cons; left.
  - intros x. simpl. rewrite elem_of_app, list_elem_of_singleton, elem_of_cons. tauto.
Qed.

Lemma select_ok id s :
  store_ok s → (∀ i, id = Some i → i ∈ ids_of (fs_nodes s)) → store_ok (select id s).
Proof.
  intros Hs Hid. apply (store_frame s); try done; simpl.
  - apply draft_map; [apply same_select_node|apply Hs].
  - intros i ->. rewrite (proj2 (same_map _ _ (same_select_node _))). by apply Hid.
  - apply Hs.
Qed.

(** Edits of nodes that keep the blocks and the selection. *)
Lemma map_edit_ok now f edges key po s :
  store_ok s → same_blocks f → draft_ok (fs_drawn s) (List.map f (fs_nodes s)) edges →
  store_ok (commit now (List.map f (fs_nodes s)) edges key (λ s, s) po s).
Proof.
  intros Hs Hf Hd. apply commit_same_selection; [done..|]. by rewrite (proj2 (same_map _ _ Hf)).
Qed.

Lemma edit_edges_ok now edges s :
  store_ok s → draft_ok (fs_drawn s) (fs_nodes s) edges → store_ok (commit now (fs_nodes s) edges None (λ s, s) false s).
Proof. intros Hs Hd. by apply commit_same_selection. Qed.

Section drawing2.
Context (Hinj : ∀ i j, nano i = nano j → i = j).

Lemma connect_ok now source handle target s : store_ok s → store_ok (connect now source handle target s).1.
Proof.
  intros Hs. unfold connect. destruct (connectionProblem _ _ _ _ _) eqn:E; simpl; [done|].
  apply commit_same_selection; [by apply store_mono; [simpl; lia|]| |done]. simpl.
  eapply draft_connect; [done| |apply Hs|done]. done.
Qed.

Lemma add_ok now type position from s : store_ok s → store_ok (addBlock now type position from s).1.
Proof.
  intros Hs. unfold addBlock. cbv zeta. set (id := newNodeId (fs_drawn s)).
  set (node := set_selected true _). set (nodes := List.map deselect (fs_nodes s) ++ [node]).
  assert (draft_ok (S (fs_drawn s)) nodes (fs_edges s)) as Hd.
  { eapply draft_add; [done|apply Hs|done|by intros; apply flow_fixed|apply same_map, same_deselect|].
    intros m (x & -> & Hx)%elem_of_lmap Ht. destruct (same_deselect x) as [E ->].
    apply (do_fixed _ _ _ (so_draft s Hs)); [done|]. injection E as _ <-. done. }
  assert (id ∈ ids_of nodes) as Hin.
  { unfold ids_of, nodes. rewrite List.map_app. apply elem_of_app. right. by apply list_elem_of_singleton. }
  assert (∀ s' i, fs_selectedId (set_selectedId (Some id) s') = Some i → i ∈ ids_of nodes) as Hsel
    by (by intros s' i [= <-]).
  destruct (match from with Some (source, handle) => _ | None => None end) as [[source handle]|] eqn:Ej; cbn [fst].
  - apply commit_ok; [apply store_mono; [lia|done]| |done|intros; by eapply Hsel].
    destruct from as [[src h]|]; [|done]. destruct (connectionProblem nodes _ src h id) eqn:Ec; [done|].
    injection Ej as <- <-. simpl. eapply draft_connect; [done| |exact Hd|done]. lia.
  - apply commit_ok; [apply store_mono; [lia|done]|done|done|intros; by eapply Hsel].
Qed.
End drawing2.

Section react.
Context `{!ReactFlowLaws}.

Lemma core_shape ns ns' :
  List.map node_core ns' = List.map node_core ns →
  List.map node_shape ns' = List.map node_shape ns ∧ ids_of ns' = ids_of ns ∧
  List.map (λ n, (fn_type n, fn_deletable n)) ns' = List.map (λ n, (fn_type n, fn_deletable n)) ns.
Proof.
  intros E. unfold ids_of. split_and!.
  - pose proof (f_equal (List.map (λ c, c.1.1)) E) as E'. by rewrite !List.map_map in E'.
  - pose proof (f_equal (List.map (λ c, c.1.1.1)) E) as E'. by rewrite !List.map_map in E'.
  - pose proof (f_equal (List.map (λ c, (c.1.1.2, c.2))) E) as E'. by rewrite !List.map_map in E'.
Qed.

Lemma applied_nodes k cs nodes edges :
  forallb in_place cs = true → draft_ok k nodes edges → draft_ok k (applyNodeChanges cs nodes) edges.
Proof.
  intros Hc Hd. destruct (core_shape _ _ (nodes_in_place cs nodes Hc)) as (E1 & _ & E3).
  eapply draft_ext; [exact Hd|done|done|done|]. intros n Hn Ht.
  assert ((fn_type n, fn_deletable n) ∈ List.map (λ n, (fn_type n, fn_deletable n)) (applyNodeChanges cs nodes)) as Hin
    by (apply elem_of_lmap; eauto).
  rewrite E3 in Hin. apply elem_of_lmap in Hin as (m & [= Et Ed] & Hm). rewrite Ed.
  apply (do_fixed _ _ _ Hd); [done|]. by rewrite <- Et.
Qed.

Lemma select_fold cs nodes sel id :
  (∀ i, nc_select i true ∈ cs → i ∈ nodes) → (∀ i, sel = Some i → i ∈ nodes) →
  fold_left select_step cs sel = Some id → id ∈ (nodes : list string).
Proof.
  revert sel. induction cs as [|c cs IH]; intros sel Hc Hs; simpl; [apply Hs|].
  apply IH; [intros i Hi; apply Hc; by apply elem_of_cons; right|].
  intros i Hi. unfold select_step in Hi. destruct c as [j []| | | | |]; try by apply Hs.
  - injection Hi as <-. apply Hc. by apply elem_of_cons; left.
  - case_bool_decide; [done|]. by apply Hs.
Qed.

Lemma nodes_ok now cs s :
  store_ok s → forallb no_new_node cs = true → (∀ id, nc_select id true ∈ cs → id ∈ ids_of (fs_nodes s)) →
  store_ok (onNodesChange now cs s).
Proof.
  intros Hs Hnew Hsel. unfold onNodesChange. set (safe := List.filter _ cs).
  assert (∀ c, c ∈ safe → no_new_node c = true) as Hsafe.
  { intros c [Hc _]%elem_of_lfilter. rewrite forallb_elem_of in Hnew. auto. }
  assert (∀ id, fold_left select_step safe (fs_selectedId s) = Some id → id ∈ ids_of (fs_nodes s)) as Hfold.
  { intros id. apply select_fold; [|apply Hs]. intros i [Hi _]%elem_of_lfilter. auto. }
  destruct safe as [|c0 cs0] eqn:Esafe; [done|]. rewrite <- Esafe in *. clear Esafe c0 cs0.
  set (content := List.filter (λ c, negb (bookkeeping c)) safe).
  assert (omap removed_id content = [] → forallb in_place safe = true) as Hplace.
  { intros E. apply forallb_elem_of. intros c Hc. specialize (Hsafe c Hc). destruct c as [| | |id| |]; try done.
    exfalso. apply (not_elem_of_nil id). rewrite <- E. apply list_elem_of_omap. exists (nc_remove id).
    split; [|done]. apply elem_of_lfilter. done. }
  assert (∀ ns, fs_nodes s = ns → forallb in_place safe = true → ids_of (applyNodeChanges safe ns) = ids_of ns) as Hids
    by (intros ns _ Hp; apply (core_shape _ _ (nodes_in_place safe ns Hp))).
  destruct content as [|c1 cs1] eqn:Econtent.
  { apply (store_frame s); try done; simpl; [apply applied_nodes; [auto|apply Hs]| |apply Hs].
    rewrite Hids by auto. done. }
  rewrite <- Econtent in *. clear Econtent c1 cs1.
  destruct (unique (omap removed_id content)) as [|i js] eqn:Er; [|by apply remove_ok].
  assert (omap removed_id content = []) as Hno.
  { destruct (omap removed_id content) as [|x l]; [done|]. exfalso. apply (not_elem_of_nil x). rewrite <- Er.
    apply unique_elem. by apply elem_of_cons; left. }
  assert (∀ b : bool, ∀ x : FlowState, store_ok x → store_ok (if b then set_history (seal (fs_history x)) x else x)) as Hseal.
  { intros [] x Hx; [|done]. pose proof Hx as []. split; try done.
    - intros snap. unfold seal, set_history. simpl. destruct (lastKey (fs_history x)); apply so_history0.
    - by apply (step_ok (fs_history x, snapshotOf [] []) Seal). }
  apply Hseal, commit_ok; [done|apply applied_nodes; [auto|apply Hs]|done|].
  intros s' id _ _. simpl. rewrite Hids by auto. apply Hfold.
Qed.

Lemma edges_ok now cs s : store_ok s → forallb no_new_edge cs = true → store_ok (onEdgesChange now cs s).
Proof.
  intros Hs Hnew. unfold onEdgesChange. set (own := List.filter _ cs).
  assert (forallb no_new_edge own = true) as Hown.
  { apply forallb_elem_of. intros c [Hc _]%elem_of_lfilter. rewrite forallb_elem_of in Hnew. auto. }
  assert (draft_ok (fs_drawn s) (fs_nodes s) (applyEdgeChanges own (fs_edges s))) as Hd.
  { pose proof (edges_removed own (fs_edges s) Hown) as E.
    pose proof (f_equal (List.map (λ c, c.1.2)) E) as E1. pose proof (f_equal (List.map (λ c, c.1.1)) E) as E2.
    rewrite !List.map_map in E1, E2. eapply draft_ext; [apply draft_filter, (so_draft s Hs)|done|exact E1|exact E2|].
    apply (do_fixed _ _ _ (so_draft s Hs)). }
  destruct own as [|c0 cs0]; [done|]. case_match.
  - apply (store_frame s); try done; simpl; [|apply Hs]. apply Hs.
  - by apply edit_edges_ok.
Qed.

(** One action keeps the invariant. *)
Lemma act_ok now a s : (∀ i j, nano i = nano j → i = j) → store_ok s → allowed s a → store_ok (act now a s).
Proof.
  intros Hinj Hs Ha. pose proof (so_draft s Hs) as Hd. destruct a; cbn [act allowed] in *; try done.
  - by apply load_ok.
  - destruct Ha. by apply nodes_ok.
  - by apply edges_ok.
  - unfold onPreviewNodesChange. repeat case_match; try done; by apply (store_frame s); try done; apply Hs.
  - by apply connect_ok.
  - by apply edit_edges_ok, draft_others.
  - by apply add_ok.
  - apply map_edit_ok; [done|apply same_update, same_set_config|]. erewrite draft_prune.
    + by apply draft_filter, draft_map; [apply same_update, same_set_config|].
    + by apply draft_map; [apply same_update, same_set_config|].
  - apply map_edit_ok; [done|apply same_update, same_set_data|].
    by apply draft_map; [apply same_update, same_set_data|].
  - by apply remove_ok.
  - apply select_ok; [done|]. intros i ->. done.
  - apply (select_ok (Some id)) in Hs; [|by intros i [= <-]]. by apply (store_frame _ _ Hs); try done; apply Hs.
  - by apply (store_frame s); try done; apply Hs.
  - unfold setName. case_match; [done|]. apply (store_frame s); try done; [apply Hs|].
    simpl. pose proof (so_saved s Hs). lia.
  - by apply (store_frame s); try done; apply Hs.
  - unfold tidy. cbv zeta. apply commit_ok; [done| |done|].
    + apply draft_map; [apply same_place|done].
    + intros s' id _ Es. simpl. rewrite Es, (proj2 (same_map _ _ (same_place _))). apply Hs.
  - by apply undo_ok.
  - by apply redo_ok.
  - apply (store_frame s); try done; simpl; [apply Hs|]. pose proof (so_saved s Hs). lia.
  - by apply (store_frame s); try done; apply Hs.
  - by apply (store_frame s); try done; apply Hs.
  - by apply (store_frame s); try done; apply Hs.
  - by apply (store_frame s); try done; apply Hs.
  - unfold showProposal. destruct (fromGraph _ _) as [w k] eqn:E. destruct Ha as [Hwf Hfr].
    destruct (fromGraph_read _ _ _ _ Hwf Hfr E) as (_ & Hk & _). apply (store_mono s k Hk) in Hs.
    apply (store_frame _ _ Hs); try done; [|apply Hs]. apply draft_map; [apply same_deselect|apply Hs].
  - unfold revealNext. repeat case_match; try done; by apply (store_frame s); try done; apply Hs.
  - unfold clearProposal. case_match; [|done]. by apply (store_frame s); try done; apply Hs.
  - by apply replace_ok.
  - by apply (store_frame s); try done; apply Hs.
  - unfold contentGraph. repeat case_match; try done; by apply (store_frame s); try done; apply Hs.
Qed.

End react.

(** ** Actions, one by one *)

(** Where an exit leads. *)
Definition exit_target (edges : list FlowEdge) (source handle : string) : option string :=
  fe_target <$> find (is_exit source handle) edges.

Lemma exit_target_others edges source handle : exit_target (others source handle edges) source handle = None.
Proof.
  unfold exit_target. destruct (find _ _) as [e|] eqn:E; [|done].
  apply find_some_iff in E as [[_ He]%elem_of_others E]. unfold is_exit in E. bool_hyps. by destruct He.
Qed.

Lemma exit_target_others_ne edges source handle s h :
  (s, h) ≠ (source, handle) → exit_target (others source handle edges) s h = exit_target edges s h.
Proof.
  intros Hne. unfold exit_target, others. f_equal. induction edges as [|e edges IH]; simpl; [done|].
  destruct (is_exit source handle e) eqn:E1; simpl; destruct (is_exit s h e) eqn:E2; try done.
  exfalso. apply Hne. unfold is_exit in *. bool_hyps. by subst.
Qed.

Lemma find_app {A} (f : A → bool) l1 l2 :
  find f (l1 ++ l2) = match find f l1 with Some x => Some x | None => find f l2 end.
Proof. induction l1 as [|x l1 IH]; simpl; [done|]. by destruct (f x). Qed.

(** Connecting succeeds exactly when both blocks exist, the target is
    another block and no Start, the exit exists, and no path leads back from
    the target; then the exit leads to the target and every other exit leads
    where it led.  A refused connection changes nothing. *)
Theorem connect_spec now source handle target s :
  let '(s', problem) := connect now source handle target s in
  (problem = None ↔ ∃ a b, find_node (fs_nodes s) source = Some a ∧ find_node (fs_nodes s) target = Some b ∧
     fn_type b ≠ entry ∧ source ≠ target ∧ has_exit a handle = true ∧
     ¬ rtc (leads (List.map edge_shape (others source handle (fs_edges s)))) target source) ∧
  (if problem ==? None
   then exit_target (fs_edges s') source handle = Some target ∧
        (∀ x h, (x, h) ≠ (source, handle) → exit_target (fs_edges s') x h = exit_target (fs_edges s) x h) ∧
        fs_nodes s' = fs_nodes s
   else s' = s).
Proof.
  unfold connect. destruct (connectionProblem _ _ _ _ _) eqn:E; (split; [by rewrite <- connectionProblem_None, E|]).
  - by rewrite bool_decide_eq_false_2.
  - rewrite bool_decide_eq_true_2 by done. simpl. split_and!; [| |done].
    + unfold exit_target. rewrite find_app. pose proof (exit_target_others (fs_edges s) source handle) as Hn.
      unfold exit_target in Hn. destruct (find _ (others _ _ _)); [done|]. simpl. unfold is_exit. simpl.
      by rewrite !bool_decide_eq_true_2.
    + intros x h Hne. rewrite <- (exit_target_others_ne (fs_edges s) source handle) by done.
      unfold exit_target. rewrite find_app. destruct (find _ (others _ _ _)); [done|]. simpl. unfold is_exit. simpl.
      destruct (decide (source = x)) as [->|]; [|by rewrite bool_decide_eq_false_2].
      destruct (decide (handle = h)) as [->|]; [done|].
      by rewrite bool_decide_eq_true_2, bool_decide_eq_false_2.
Qed.

(** Changing a block's configuration takes away exactly the connections
    whose exit is gone: every edge left leaves an exit its block has. *)
Theorem updateConfig_exits now id patch key s e :
  store_ok s →
  e ∈ fs_edges (updateConfig now id patch key s) ↔
  e ∈ fs_edges s ∧ live_exit (fs_nodes (updateConfig now id patch key s)) e = true.
Proof.
  intros Hs. unfold updateConfig, commit. simpl.
  rewrite (draft_prune (fs_drawn s)); [apply elem_of_lfilter|].
  apply draft_map; [apply same_update, same_set_config|apply Hs].
Qed.

(** The block a Go to points at. *)
Definition goto_of (n : FlowNode) : option string :=
  if fn_type n ==? goto then match get "targetNodeId" (bd_config (fd_block (fn_data n))) with
                             | VStr t => Some t
                             | _ => None
                             end
  else None.

Lemma goto_of_clear gone n :
  goto_of (clear_goto gone n) = match goto_of n with
                                | Some t => Some (if includes gone t then "" else t)
                                | None => None
                                end.
Proof.
  unfold goto_of, clear_goto. destruct (fn_type n ==? goto) eqn:Et; [|by rewrite Et].
  destruct (get "targetNodeId" _) as [| | | |t| |] eqn:Eg; rewrite ?Et, ?Eg; try done.
  destruct (includes gone t); [|by rewrite Et, Eg]. simpl. by rewrite Et, get_set_eq.
Qed.

(** Deleting blocks removes every one of them but a Start, keeps the
    others, and leaves nothing dangling: no edge and no Go to points at a
    block that went. *)
Theorem removeBlocks_spec now ids s :
  store_ok s →
  let s' := removeBlocks now ids s in
  (∀ id, id ∈ ids_of (fs_nodes s') ↔
     id ∈ ids_of (fs_nodes s) ∧ (id ∈ ids → type_of (fs_nodes s) id = Some entry)) ∧
  (∀ e, e ∈ fs_edges s' → e ∈ fs_edges s ∧ fe_source e ∈ ids_of (fs_nodes s') ∧ fe_target e ∈ ids_of (fs_nodes s')) ∧
  (∀ n t, n ∈ fs_nodes s' → goto_of n = Some t →
     t = "" ∨ ((t ∈ ids_of (fs_nodes s) → t ∈ ids_of (fs_nodes s')) ∧
               ∃ m, m ∈ fs_nodes s ∧ fn_id m = fn_id n ∧ goto_of m = Some t)).
Proof.
  intros Hs s'. pose proof (remove_ok now ids s Hs) as Hs'. fold s' in Hs'.
  set (gone := gone_ids (fs_nodes s) ids).
  assert (fs_nodes s' = List.map (clear_goto gone) (List.filter (λ n, negb (includes gone (fn_id n))) (fs_nodes s)) ∧
    ∀ e, e ∈ fs_edges s' → e ∈ fs_edges s) as [En Ee].
  { unfold s', removeBlocks. fold gone. destruct gone as [|g gs] eqn:Eg.
    - split; [|done]. simpl. rewrite lfilter_all by done. rewrite (List.map_ext _ (λ n, n)); [by rewrite List.map_id|].
      intros n. unfold clear_goto. repeat case_match; done.
    - split; [done|]. simpl. by intros e [? _]%elem_of_lfilter. }
  assert (∀ id, id ∈ ids_of (fs_nodes s') ↔ id ∈ ids_of (fs_nodes s) ∧ (id ∉ gone)) as Hids.
  { intros id. rewrite En, (proj2 (same_map _ _ (same_clear_goto gone))). unfold ids_of. rewrite !elem_of_lmap.
    setoid_rewrite elem_of_lfilter. setoid_rewrite negb_true_iff. setoid_rewrite includes_false. naive_solver. }
  assert (∀ id, (id ∉ gone) ↔ (id ∈ ids → type_of (fs_nodes s) id = Some entry)) as Hgone.
  { intros id. unfold gone, gone_ids. rewrite elem_of_lfilter, negb_true_iff, bool_decide_eq_false.
    destruct (decide (type_of (fs_nodes s) id = Some entry)); tauto. }
  split_and!.
  - intros id. by rewrite Hids, Hgone.
  - intros e He. pose proof (do_shape _ _ _ (so_draft s' Hs')) as []. split; [auto|].
    assert (edge_shape e ∈ List.map edge_shape (fs_edges s')) as Hin by (apply elem_of_lmap; eauto).
    split; [rewrite <- ids_of_shape; by apply (sh_source0 _ Hin)|].
    destruct (sh_target0 _ Hin) as (t & Ht & _). apply elem_of_lmap in Ht as (n & [= E _] & Hn).
    apply elem_of_lmap. eauto.
  - intros n t Hn. rewrite En in Hn. apply elem_of_lmap in Hn as (m & -> & [Hm _]%elem_of_lfilter).
    rewrite goto_of_clear. destruct (goto_of m) as [u|] eqn:Eu; [|done].
    destruct (includes gone u) eqn:Ei; intros [= <-]; [by left|right]. split.
    + intros Hu. apply Hids. split; [done|]. by apply includes_false.
    + exists m. split_and!; [done| |done]. destruct (same_clear_goto gone m) as [E _]. by injection E.
Qed.

(** The draft as a snapshot. *)
Definition draft_of (s : FlowState) : FlowSnapshot := snapshotOf (fs_nodes s) (fs_edges s).

Lemma snap_node_id n b : snap_node (set_selected b n) = snap_node n.
Proof. done. Qed.

Lemma input_unsnap n b : input_node (set_selected b (unsnap_node (snap_node n))) = input_node n.
Proof.
  unfold input_node, unsnap_node, cast_type. simpl. rewrite type_of_name_name.
  by destruct n as [id t [x y] d del sel ui].
Qed.

Lemma input_unsnap_edge e : input_edge (unsnap_edge (snap_edge e)) = input_edge e.
Proof. done. Qed.

(** Undoing to a snapshot of [s] gives the JSON of [s] back. *)
Lemma graph_restore h s s0 :
  fs_viewport s = fs_viewport s0 → fs_keepGraph s = fs_keepGraph s0 → fs_foreignNodes s = fs_foreignNodes s0 →
  graph (restore (Some (h, snapshotOf (fs_nodes s0) (fs_edges s0))) s) = graph s0.
Proof.
  intros Ev Ek Ef. unfold graph, restore. simpl. rewrite Ev, Ek, Ef, !List.map_map. f_equal.
  - apply List.map_ext. intros n. apply input_unsnap.
Qed.

(** An edit that is its own step can be undone at once. *)
Lemma undo_commit now nodes edges extra po s cur :
  keeps_draft extra → sameSnapshot (snapshotOf (fs_nodes s) (fs_edges s)) (snapshotOf nodes edges) = false →
  ∃ h, History.undo (fs_history (commit now nodes edges None extra po s)) cur
       = Some (h, snapshotOf (fs_nodes s) (fs_edges s)).
Proof.
  intros Hk Hne. unfold commit. cbv zeta.
  match goal with |- context [extra ?x] => destruct (Hk x) as (_ & _ & -> & _) end.
  cbn [fs_history set_nodes set_edges set_history]. unfold record. rewrite Hne. change (coalesces (fs_history s) None now) with false. cbv iota.
  unfold History.undo. cbn [past]. rewrite trim_past_eq, length_app, drop_app_le by (unfold HISTORY_LIMIT; simpl; lia).
  rewrite last_snoc. eauto.
Qed.

(** Accepting a proposal is one undoable edit: unless it is the draft
    already, autosave sees it as unsaved, and one undo gives back exactly the
    JSON of the draft before, unknown keys and foreign blocks included. *)
Theorem replaceDraft_undo now input s :
  let s' := replaceDraft now input s in
  sameSnapshot (snapshotOf (fs_nodes s) (fs_edges s)) (snapshotOf (fs_nodes s') (fs_edges s')) = false →
  graph (undo s') = graph s ∧ (fs_changeSeq s' = fs_changeSeq s + 1)%Z ∧ fs_savedSeq s' = fs_savedSeq s ∧
  fs_selectedId s' = None ∧ fs_preview s' = None ∧ fs_proposal s' = None.
Proof.
  cbv zeta. unfold replaceDraft. destruct (fromGraph _ _) as [w k]. intros Hne.
  match type of Hne with context [fs_nodes (commit _ ?n ?e _ ?x _ ?s1)] =>
    destruct (undo_commit now n e x false s1 (draft_of (commit now n e None x false s1))) as [h Eh] end; [done..|].
  split.
  - unfold undo. unfold draft_of in Eh. rewrite Eh. by apply (graph_restore _ _ s).
  - unfold commit. simpl. unfold recorded. simpl in Hne. rewrite Hne. done.
Qed.

(** ** What autosave sees *)

Lemma commit_seen now nodes edges key extra po s :
  keeps_draft extra → fs_changeSeq (commit now nodes edges key extra po s) = fs_changeSeq s →
  sameSnapshot (draft_of s) (draft_of (commit now nodes edges key extra po s)) = true.
Proof.
  intros Hk. unfold commit, draft_of. cbv zeta.
  match goal with |- fs_changeSeq (extra ?x) = _ → _ => set (s1 := x); destruct (Hk s1) as (-> & -> & _ & -> & _) end.
  subst s1. cbn [fs_nodes fs_edges fs_changeSeq set_nodes set_edges set_history set_changeSeq set_contentSeq].
  unfold recorded. destruct (coalesces _ _ _); simpl; [lia|]. destruct (sameSnapshot _ _); simpl; [done|lia].
Qed.

Lemma commit_seen_drawn now nodes edges key extra po k s :
  keeps_draft extra → fs_changeSeq (commit now nodes edges key extra po (set_drawn k s)) = fs_changeSeq s →
  sameSnapshot (draft_of s) (draft_of (commit now nodes edges key extra po (set_drawn k s))) = true.
Proof. exact (commit_seen now nodes edges key extra po (set_drawn k s)). Qed.

Lemma same_draft s s' :
  List.map snap_node (fs_nodes s') = List.map snap_node (fs_nodes s) →
  List.map snap_edge (fs_edges s') = List.map snap_edge (fs_edges s) → sameSnapshot (draft_of s) (draft_of s') = true.
Proof. intros En Ee. unfold draft_of, snapshotOf. rewrite En, Ee. apply sameSnapshot_refl. Qed.

Lemma remove_seen now ids s :
  fs_changeSeq (removeBlocks now ids s) = fs_changeSeq s →
  sameSnapshot (draft_of s) (draft_of (removeBlocks now ids s)) = true.
Proof.
  unfold removeBlocks. destruct (gone_ids _ _); [intros _; by apply same_draft|]. by apply commit_seen.
Qed.

(** The history is not part of the draft. *)
Lemma history_seen h x s :
  (fs_changeSeq x = fs_changeSeq s) →
  (fs_changeSeq x = fs_changeSeq s → sameSnapshot (draft_of s) (draft_of x) = true) →
  sameSnapshot (draft_of s) (draft_of (set_history h x)) = true.
Proof. intros Hc Hx. exact (Hx Hc). Qed.

Lemma seal_changeSeq h x s : fs_changeSeq (set_history h x) = fs_changeSeq s → fs_changeSeq x = fs_changeSeq s.
Proof. done. Qed.

Lemma nodes_seen `{!ReactFlowLaws} now cs s :
  fs_changeSeq (onNodesChange now cs s) = fs_changeSeq s →
  sameSnapshot (draft_of s) (draft_of (onNodesChange now cs s)) = true.
Proof.
  unfold onNodesChange. set (safe := List.filter _ cs).
  destruct safe as [|c0 cs0] eqn:Esafe; [intros _; by apply same_draft|]. rewrite <- Esafe. clear Esafe c0 cs0.
  destruct (List.filter (λ c, negb (bookkeeping c)) safe) as [|c1 cs1] eqn:Econtent.
  - intros _. apply same_draft; [|done]. simpl.
    assert (forallb bookkeeping safe = true) as Hb.
    { apply forallb_elem_of. intros c Hc. destruct (bookkeeping c) eqn:E; [done|].
      exfalso. apply (not_elem_of_nil c). rewrite <- Econtent. apply elem_of_lfilter. by rewrite E. }
    pose proof (f_equal (List.map (λ c : _ * Position,
      Build_SnapNode c.1.1.1.1 (type_name c.1.1.1.2) (snap_position c.2) c.1.1.2)) (nodes_kept safe (fs_nodes s) Hb)) as E.
    rewrite !List.map_map in E. exact E.
  - rewrite <- Econtent. clear Econtent c1 cs1. set (content := List.filter _ safe).
    destruct (unique (omap removed_id content)); [|apply remove_seen].
    destruct (existsb drag_end content); [|by apply commit_seen].
    intros Hc. apply (history_seen _ _ _ (seal_changeSeq _ _ _ Hc)). by apply commit_seen.
Qed.

Lemma edges_seen `{!ReactFlowLaws} now cs s :
  fs_changeSeq (onEdgesChange now cs s) = fs_changeSeq s →
  sameSnapshot (draft_of s) (draft_of (onEdgesChange now cs s)) = true.
Proof.
  unfold onEdgesChange. set (own := List.filter _ cs).
  destruct own as [|c0 cs0] eqn:Eown; [intros _; by apply same_draft|]. rewrite <- Eown. clear Eown c0 cs0.
  destruct (forallb is_edge_select own) eqn:Es; [|by apply commit_seen].
  intros _. apply same_draft; [done|]. simpl. rewrite forallb_elem_of in Es.
  assert (omap removed_edge own = []) as Hr.
  { destruct (omap removed_edge own) as [|x l] eqn:E; [done|]. assert (x ∈ omap removed_edge own) as Hx
      by (rewrite E; by apply elem_of_cons; left).
    apply list_elem_of_omap in Hx as (c & Hc & Ec). specialize (Es c Hc). by destruct c. }
  assert (forallb no_new_edge own = true) as Hn
    by (apply forallb_elem_of; intros c Hc; specialize (Es c Hc); by destruct c).
  pose proof (edges_removed own (fs_edges s) Hn) as E. rewrite Hr, lfilter_all in E by done.
  apply (f_equal (List.map (λ c, Build_SnapEdge c.1.1 c.1.2.1 (Some c.1.2.2.1) c.1.2.2.2 (Some c.2)))) in E.
  rewrite !List.map_map in E. exact E.
Qed.

Lemma restore_seen step s :
  fs_changeSeq (restore step s) = fs_changeSeq s → sameSnapshot (draft_of s) (draft_of (restore step s)) = true.
Proof.
  destruct step as [[h snap]|]; [|intros _; by apply same_draft]. unfold restore.
  destruct (fromSnapshot snap). simpl. lia.
Qed.

Lemma commit_seqs now nodes edges key extra po s :
  keeps_draft extra →
  let s' := commit now nodes edges key extra po s in
  (fs_changeSeq s ≤ fs_changeSeq s')%Z ∧ fs_savedSeq s' = fs_savedSeq s.
Proof.
  intros Hk. unfold commit. cbv zeta.
  match goal with |- context [extra ?x] => destruct (Hk x) as (_ & _ & _ & -> & -> & _) end.
  simpl. destruct (recorded _ _ _ _ _); lia.
Qed.

Lemma commit_seqs_drawn now nodes edges key extra po k s :
  keeps_draft extra →
  let s' := commit now nodes edges key extra po (set_drawn k s) in
  (fs_changeSeq s ≤ fs_changeSeq s')%Z ∧ fs_savedSeq s' = fs_savedSeq s.
Proof. exact (commit_seqs now nodes edges key extra po (set_drawn k s)). Qed.

Lemma remove_seqs now ids s :
  (fs_changeSeq s ≤ fs_changeSeq (removeBlocks now ids s))%Z ∧ fs_savedSeq (removeBlocks now ids s) = fs_savedSeq s.
Proof. unfold removeBlocks. destruct (gone_ids _ _); [done|]. by apply commit_seqs. Qed.

(** What an action does to the counters autosave watches. *)
Lemma act_seqs now a s :
  let s' := act now a s in
  match a with
  | a_load _ _ => (fs_changeSeq s' = fs_changeSeq s + 1 ∧ fs_savedSeq s' = fs_changeSeq s + 1)%Z
  | a_markSaved seq _ => fs_changeSeq s' = fs_changeSeq s ∧ fs_savedSeq s' = Z.max (fs_savedSeq s) seq
  | _ => (fs_changeSeq s ≤ fs_changeSeq s')%Z ∧ fs_savedSeq s' = fs_savedSeq s
  end.
Proof.
  destruct a; cbn [act]; cbv zeta; try done.
  - unfold load. by destruct (fromGraph _ _).
  - unfold onNodesChange. cbv zeta. repeat case_match; try done; try apply remove_seqs; by apply commit_seqs.
  - unfold onEdgesChange. cbv zeta. repeat case_match; try done; by apply commit_seqs.
  - unfold onPreviewNodesChange. by repeat case_match.
  - unfold connect. destruct (connectionProblem _ _ _ _ _); [done|]. by apply commit_seqs_drawn.
  - by apply commit_seqs.
  - unfold addBlock. cbv zeta.
    destruct (match from with Some (source, handle) => _ | None => None end) as [[source handle]|];
      by apply commit_seqs_drawn.
  - by apply commit_seqs.
  - by apply commit_seqs.
  - apply remove_seqs.
  - unfold setName. case_match; simpl; lia.
  - by apply commit_seqs.
  - unfold undo, restore. repeat case_match; simpl; lia.
  - unfold redo, restore. repeat case_match; simpl; lia.
  - unfold showProposal. by destruct (fromGraph _ _).
  - unfold revealNext. by repeat case_match.
  - unfold clearProposal. by case_match.
  - unfold replaceDraft. destruct (fromGraph _ _). by apply commit_seqs_drawn.
  - unfold contentGraph. by repeat case_match.
Qed.

Lemma act_seen `{!ReactFlowLaws} now a s :
  allowed s a → fs_changeSeq (act now a s) = fs_changeSeq s →
  sameSnapshot (draft_of s) (draft_of (act now a s)) = true ∧ fs_name (act now a s) = fs_name s.
Proof.
  intros Ha Hc.
  assert (∀ nodes edges key extra po s', keeps_draft extra → (∀ x, fs_name (extra x) = fs_name x) →
    fs_name (commit now nodes edges key extra po s') = fs_name s') as Hname
    by (intros nodes edges key extra po s' _ Hx; unfold commit; by rewrite Hx).
  assert (∀ ids, fs_name (removeBlocks now ids s) = fs_name s) as Hrem
    by (intros ids; unfold removeBlocks; by case_match).
  assert (∀ step, fs_name (restore step s) = fs_name s) as Hres
    by (intros [[h snap]|]; done).
  destruct a; cbn [act allowed] in *; try (by split; [apply same_draft|done]).
  - unfold load in Hc. destruct (fromGraph _ _). simpl in Hc. lia.
  - split; [by apply nodes_seen|]. unfold onNodesChange. cbv zeta. repeat case_match; done.
  - split; [by apply edges_seen|]. unfold onEdgesChange. cbv zeta. repeat case_match; done.
  - unfold onPreviewNodesChange. repeat case_match; (split; [by apply same_draft|done]).
  - unfold connect in *. destruct (connectionProblem _ _ _ _ _); [split; [by apply same_draft|done]|].
    split; [by apply commit_seen_drawn|done].
  - split; [by apply commit_seen|done].
  - unfold addBlock in *. cbv zeta in *.
    destruct (match from with Some (source, handle) => _ | None => None end) as [[source handle]|];
      (split; [by apply commit_seen_drawn|done]).
  - split; [by apply commit_seen|done].
  - split; [by apply commit_seen|done].
  - split; [by apply remove_seen|apply Hrem].
  - split; [|done]. apply same_draft; [|done]. simpl. rewrite List.map_map. apply List.map_ext. intros n.
    unfold select_node. by destruct (fn_selected n ==? _).
  - split; [|done]. apply same_draft; [|done]. simpl. rewrite List.map_map. apply List.map_ext. intros n.
    unfold select_node. by destruct (fn_selected n ==? _).
  - unfold setName in *. case_match; simpl in *; [split; [by apply same_draft|done]|lia].
  - split; [by apply commit_seen|done].
  - split; [by apply restore_seen|apply Hres].
  - split; [by apply restore_seen|apply Hres].
  - unfold showProposal. destruct (fromGraph _ _) as [w k]. split; [|done]. apply same_draft; [|done]. simpl.
    rewrite List.map_map. apply List.map_ext. intros n. unfold deselect. by destruct (fn_selected n) as [[]|].
  - unfold revealNext. repeat case_match; (split; [by apply same_draft|done]).
  - unfold clearProposal. case_match; (split; [by apply same_draft|done]).
  - unfold replaceDraft in *. destruct (fromGraph _ _). split; [by apply commit_seen_drawn|done].
  - unfold contentGraph. repeat case_match; (split; [by apply same_draft|done]).
Qed.

(** No edit escapes autosave: an action that leaves the change counter
    alone leaves the draft, compared as JSON, and the flow's name alone. *)
Theorem no_silent_edit `{!ReactFlowLaws} now a s :
  allowed s a → fs_changeSeq (act now a s) = fs_changeSeq s →
  sameSnapshot (draft_of s) (draft_of (act now a s)) = true ∧ fs_name (act now a s) = fs_name s.
Proof. apply act_seen. Qed.
End acting.
End store_ok.
