(* ===== verification/StoreRun.v ===== *)
(** * The store at work ([flow/store/flowStore.ts])

    A concrete [applyNodeChanges] and [applyEdgeChanges] that keep what React
    Flow documents, a session of edits, and the store's theorems applied to
    it; and what the store does not promise. *)
From S2P Require Import Prelude JsString JsValue Blocks Graph History Layout Effects FlowState Store StoreOk.

Local Open Scope string_scope.
Local Open Scope nat_scope.
Local Open Scope list_scope.

(** ** A concrete React Flow *)

Definition node_change (ns : list FlowNode) (c : NodeChange) : list FlowNode :=
  match c with
  | nc_select id b => List.map (update_node id (set_selected b)) ns
  | nc_dimensions _ _ => ns
  | nc_position id p _ => List.map (update_node id (λ n, set_position (default (fn_position n) p) n)) ns
  | nc_remove id => List.filter (λ n, fn_id n !=? id) ns
  | nc_add item => ns ++ [item]
  | nc_replace id item => List.map (update_node id (λ _, item)) ns
  end.

Definition select_edge (b : bool) (e : FlowEdge) : FlowEdge :=
  {| fe_id := fe_id e; fe_source := fe_source e; fe_sourceHandle := fe_sourceHandle e; fe_target := fe_target e;
     fe_keep := fe_keep e; fe_ui := om_set "selected" (VBool b) (fe_ui e) |}.

Definition update_edge (id : string) (f : FlowEdge → FlowEdge) (e : FlowEdge) : FlowEdge :=
  if fe_id e ==? id then f e else e.

Definition edge_change (es : list FlowEdge) (c : EdgeChange) : list FlowEdge :=
  match c with
  | ec_select id b => List.map (update_edge id (select_edge b)) es
  | ec_remove id => List.filter (λ e, fe_id e !=? id) es
  | ec_add item => es ++ [item]
  | ec_replace id item => List.map (update_edge id (λ _, item)) es
  end.

#[export] Instance basic_flow : ReactFlow :=
  { applyNodeChanges cs ns := fold_left node_change cs ns;
    applyEdgeChanges cs es := fold_left edge_change cs es }.

Lemma fold_keeps {A C K} (step : list A → C → list A) (key : A → K) (ok : C → bool) cs ns :
  (∀ ns c, ok c = true → List.map key (step ns c) = List.map key ns) →
  forallb ok cs = true → List.map key (fold_left step cs ns) = List.map key ns.
Proof.
  intros Hs. revert ns. induction cs as [|c cs IH]; intros ns; simpl; [done|].
  intros [Hc Hcs]%andb_true_iff. rewrite IH by done. by apply Hs.
Qed.

Lemma map_update_same {K} (key : FlowNode → K) id f ns :
  (∀ n, key (f n) = key n) → List.map key (List.map (update_node id f) ns) = List.map key ns.
Proof.
  intros Hf. rewrite List.map_map. apply List.map_ext. intros n. unfold update_node.
  by destruct (fn_id n ==? id).
Qed.

Lemma edges_selected id b (p : string → bool) es :
  List.map edge_core (List.filter (λ e, p (fe_id e)) (List.map (update_edge id (select_edge b)) es))
  = List.map edge_core (List.filter (λ e, p (fe_id e)) es).
Proof.
  induction es as [|e es IH]; simpl; [done|].
  assert (fe_id (update_edge id (select_edge b) e) = fe_id e ∧ edge_core (update_edge id (select_edge b) e) = edge_core e)
    as [-> Ec] by (unfold update_edge; by destruct (fe_id e ==? id)).
  destruct (p (fe_id e)); simpl; by rewrite ?Ec, IH.
Qed.

Lemma lfilter_lfilter {A} (f g : A → bool) l : List.filter f (List.filter g l) = List.filter (λ x, g x && f x) l.
Proof. induction l as [|x l IH]; simpl; [done|]. destruct (g x); simpl; [destruct (f x); by rewrite IH|done]. Qed.

#[export] Instance basic_flow_laws : ReactFlowLaws.
Proof.
  split.
  - intros cs ns. apply fold_keeps. intros l [] Hc; try done. by apply map_update_same.
  - intros cs ns. apply fold_keeps. intros l [] Hc; try done; by apply map_update_same.
  - intros cs es. simpl. revert es. induction cs as [|c cs IH]; intros es; simpl.
    { intros _. by rewrite lfilter_all. }
    intros [Hc Hcs]%andb_true_iff. rewrite IH by done. destruct c as [id b|id|item|id item]; try done; csimpl.
    + apply (edges_selected id b (λ i, negb (includes (omap removed_edge cs) i))).
    + rewrite lfilter_lfilter. f_equal. apply List.filter_ext. intros e. csimpl. unfold includes. simpl.
      rewrite negb_orb. f_equal. by rewrite (bool_decide_ext _ (id = fe_id e)).
Qed.

(** ** A session *)

Definition sample_api_flow : Flow :=
  {| fl_id := 1; fl_name := "Main line"; fl_revision := 3; fl_published_version := None; fl_published_at := None;
     fl_numbers := []; fl_draft_graph := sample_input |}.

Definition start_state : FlowState := @createFlowStore numerals sample_api_flow.

(** A menu is added under the message block. *)
Definition edited_state : FlowState :=
  @act numerals basic_flow 5000 (a_addBlock menu None (Some ("hi", "next"))) start_state.

Lemma sample_server_draft k : @server_draft numerals k sample_input.
Proof.
  split_and!; [unfold sample_input; wf_literal|apply numerals_fresh|].
  assert (List.map edge_shape (loaded_edges (@fromGraph numerals k sample_input).1)
    = [] ++ [("start", ("next", "hi"))]) as -> by (by vm_compute).
  apply acyclic_add.
  - intros id Hc. assert (∀ x y, tc (leads []) x y → False) as Hn; [|by eapply Hn].
    intros x y. induction 1 as [x y [h []%not_elem_of_nil]|x y z [h []%not_elem_of_nil]].
  - intros Hr. inversion Hr as [|x y z [h []%not_elem_of_nil]].
Qed.

Lemma start_reachable : @reachable numerals basic_flow sample_api_flow start_state.
Proof. constructor. apply sample_server_draft. Qed.

Lemma edited_reachable : @reachable numerals basic_flow sample_api_flow edited_state.
Proof. apply reachable_step; [apply start_reachable|done]. Qed.

Lemma edited_shape :
  List.map node_shape (fs_nodes edited_state) = [("start", entry); ("hi", play); ("n_1", menu)] ∧
  List.map edge_shape (fs_edges edited_state) = [("start", ("next", "hi")); ("hi", ("next", "n_1"))].
Proof. by vm_compute. Qed.


Lemma edited_ok : store_ok (H := numerals) edited_state.
Proof.
  apply (@act_ok numerals basic_flow basic_flow_laws); [|by apply create_ok, sample_server_draft|done].
  intros i j E. unfold nano, numerals in E. apply (inj pretty) in E. lia.
Qed.

Lemma updateConfig_exits_witness :
  ∃ e, e ∈ fs_edges (@updateConfig 6000 "n_1" [("digits", VArr [VStr "2"; VStr "1"])] None edited_state) ∧
    live_exit (fs_nodes (@updateConfig 6000 "n_1" [("digits", VArr [VStr "2"; VStr "1"])] None edited_state)) e = true.
Proof.
  exists (toFlowEdge "e_2" "hi" "next" "n_1" None). split; [|by vm_compute].
  apply (@updateConfig_exits numerals 6000 "n_1" _ None edited_state _ edited_ok).
  split; [|by vm_compute]. vm_compute. right. left.
Defined.

(** Start is asked to go too, and stays. *)
Definition emptied_state : FlowState := removeBlocks 7000 ["start"; "hi"] edited_state.

Lemma removeBlocks_spec_witness :
  "start" ∈ ids_of (fs_nodes emptied_state) ∧ ("hi" ∉ ids_of (fs_nodes emptied_state)) ∧
  ∀ e, e ∈ fs_edges emptied_state → fe_source e ∈ ids_of (fs_nodes emptied_state).
Proof.
  destruct (@removeBlocks_spec numerals 7000 ["start"; "hi"] edited_state edited_ok) as (Hids & He & _).
  split_and!.
  - apply Hids. split; [vm_compute; left|]. intros _. by vm_compute.
  - intros [_ Hs]%Hids. assert (type_of (fs_nodes edited_state) "hi" = Some entry) as E; [|by vm_compute in E].
    apply Hs. by apply elem_of_cons; right; apply elem_of_cons; left.
  - intros e Hin. by apply (He e Hin).
Defined.

Definition proposal_input : value :=
  VObj [("nodes", VArr [VObj [("id", VStr "s2"); ("type", VStr "entry")]]); ("edges", VArr [])].

Lemma replaceDraft_undo_witness :
  graph (undo (@replaceDraft numerals 8000 proposal_input edited_state)) = graph edited_state.
Proof.
  refine (proj1 (@replaceDraft_undo numerals 8000 proposal_input edited_state _)). by vm_compute.
Defined.

Lemma no_silent_edit_witness :
  sameSnapshot (draft_of edited_state) (draft_of (@act numerals basic_flow 9000 (a_select (Some "hi")) edited_state)) = true.
Proof.
  refine (proj1 (@no_silent_edit numerals basic_flow basic_flow_laws 9000 (a_select (Some "hi")) edited_state _ _)).
  - vm_compute. right. left.
  - by vm_compute.
Defined.

Lemma connect_spec_witness :
  let r := @connect numerals 9000 "hi" "next" "hi" edited_state in r.2 ≠ None ∧ r.1 = edited_state.
Proof.
  pose proof (@connect_spec numerals 9000 "hi" "next" "hi" edited_state) as H.
  destruct (connect 9000 "hi" "next" "hi" edited_state) as [s' p]. destruct H as [[Hp _] Hs].
  simpl. destruct p as [why|].
  - split; [done|]. by rewrite bool_decide_eq_false_2 in Hs.
  - exfalso. destruct (Hp eq_refl) as (a & b & _ & _ & _ & Hne & _). done.
Defined.

(** ** What the store does not promise *)

(** Restoring a version is undoable, but undo gives back only blocks and
    connections: the foreign blocks of the draft before are lost. *)
Lemma restore_undo_loses_foreign :
  let s := start_state in
  let restored := {| fl_id := 1; fl_name := "Main line"; fl_revision := 4; fl_published_version := Some 1%Z;
                     fl_published_at := None; fl_numbers := []; fl_draft_graph := proposal_input |} in
  let s' := undo (@load numerals 5000 restored true s) in
  fs_foreignNodes s = [[("id", VStr "fax"); ("type", VStr "fax")]] ∧
  sameSnapshot (draft_of s) (draft_of s') = true ∧ fs_foreignNodes s' = [].
Proof. by vm_compute. Qed.
