(* ===== verification/UnionFind.v ===== *)
(** * Union-find with path compression
    ([pages/troubleshooting/callGrouping.ts], [find], [ensure], [union])

    The parent map is a JavaScript [Map]; the loops of [find] run on fuel, one
    turn per entry of the map being enough.  [find_root_of] is what a search
    answers, [links_same] what a run of unions connects. *)
From S2P Require Import Prelude.

Local Open Scope nat_scope.
Local Open Scope list_scope.

Abbreviation parents := (list (string * string)).

Section union_find.
Implicit Types (p : parents) (x y r : string).

(** [while (parent.has(root) && parent.get(root) !== root)] *)
Fixpoint find_root (fuel : nat) p x : option string :=
  match om_get x p with
  | None => Some x
  | Some y =>
      if y ==? x then Some x
      else match fuel with O => None | S fuel => find_root fuel p y end
  end.

(** [while (current !== root)] *)
Fixpoint compress (fuel : nat) p current root : option parents :=
  if current ==? root then Some p
  else match fuel with
       | O => None
       | S fuel => compress fuel (om_set current root p) (default current (om_get current p)) root
       end.

(** [None]: the fuel is spent. *)
Definition find_set p x : option (string * parents) :=
  match find_root (length p) p x with
  | None => None
  | Some root => match compress (length p) p x root with
                 | None => None
                 | Some p' => Some (root, p')
                 end
  end.

Definition ensure p x : parents := if om_has x p then p else om_set x x p.

Definition union p a b : option parents :=
  match find_set (ensure (ensure p a) b) a with
  | None => None
  | Some (rootA, p1) =>
      match find_set p1 b with
      | None => None
      | Some (rootB, p2) => Some (if rootA ==? rootB then p2 else om_set rootB rootA p2)
      end
  end.

Fixpoint union_all p (links : list (string * string)) : option parents :=
  match links with
  | [] => Some p
  | (a, b) :: links => match union p a b with None => None | Some p' => union_all p' links end
  end.

(** ** Chains of parents *)

(** [x] comes to the root [r] in [n] steps. *)
Inductive up p : string → string → nat → Prop :=
  | up_root x : om_get x p = None ∨ om_get x p = Some x → up p x x 0
  | up_step x y r n : om_get x p = Some y → y ≠ x → up p y r n → up p x r (S n).

Definition root p x r : Prop := ∃ n, up p x r n.

(** Every chain ends. *)
Definition forest p : Prop := ∀ x, ∃ r, root p x r.

Lemma up_fun p x r n r' n' : up p x r n → up p x r' n' → r = r' ∧ n = n'.
Proof.
  intros Hu. revert r' n'. induction Hu as [x Hx|x y r n Hx Hne _ IH]; intros r' n' Hu'.
  - inversion Hu' as [|? y r0 n0 Hy Hney]; [done|]. destruct Hx; congruence.
  - inversion Hu' as [? Hx'|? y' r0 n0 Hy' Hne' Hu0]; simplify_eq.
    + destruct Hx'; congruence.
    + destruct (IH _ _ Hu0). split; congruence.
Qed.

Lemma root_fun p x r r' : root p x r → root p x r' → r = r'.
Proof. intros [n Hn] [n' Hn']. by destruct (up_fun _ _ _ _ _ _ Hn Hn'). Qed.

Lemma up_is_root p x r n : up p x r n → om_get r p = None ∨ om_get r p = Some r.
Proof. by induction 1. Qed.

Lemma root_root p x r : root p x r → root p r r.
Proof. intros [n Hn%up_is_root]. exists 0. by constructor. Qed.

(** The ids of a chain are distinct keys of the map, so it is no longer than
    the map. *)
Lemma up_bound p x r n : up p x r n → n ≤ length p.
Proof.
  intros Hu.
  assert (∃ l, NoDup l ∧ length l = n ∧ ∀ z, z ∈ l → z ∈ om_keys p ∧ ∃ m, up p z r m ∧ 0 < m ≤ n) as (l & Hnd & <- & Hl).
  { induction Hu as [x Hx|x y r n Hx Hne Hu (l & Hnd & Hlen & Hl)].
    - exists []. split_and!; [constructor|done|]. intros z []%not_elem_of_nil.
    - exists (x :: l). split_and!.
      + apply NoDup_cons. split; [|done]. intros (_ & m & Hm & Hmn)%Hl.
        destruct (up_fun _ _ _ _ _ _ Hm (up_step _ _ _ _ _ Hx Hne Hu)). lia.
      + simpl. lia.
      + intros z [->|Hz]%elem_of_cons.
        * split; [apply elem_of_lmap; exists (x, y); split; [done|]; by apply om_get_Some_elem|].
          exists (S n). split; [by eapply up_step|lia].
        * destruct (Hl z Hz) as (? & m & ? & ?). split; [done|]. exists m. split; [done|lia]. }
  replace (length p) with (length (om_keys p)) by (unfold om_keys; apply length_map).
  apply submseteq_length, NoDup_submseteq; [done|]. intros z Hz. by apply Hl.
Qed.

Lemma find_root_up fuel p x r n : up p x r n → n ≤ fuel → find_root fuel p x = Some r.
Proof.
  intros Hu. revert fuel. induction Hu as [x Hx|x y r n Hx Hne Hu IH]; intros fuel Hf.
  - destruct fuel; simpl; destruct Hx as [-> | ->]; try done; by rewrite bool_decide_eq_true_2.
  - destruct fuel as [|fuel]; [lia|]. simpl. rewrite Hx, bool_decide_eq_false_2 by done. apply IH. lia.
Qed.

(** ** Changing one parent *)

(** Chains that do not meet [x] stay. *)
Lemma up_set_other p x v y r n :
  up p y r n → (∀ m, m ≤ n → ¬ up p x r m) → up (om_set x v p) y r n.
Proof.
  induction 1 as [y Hy|y z r n Hy Hne Hu IH]; intros Hx.
  - constructor. rewrite om_get_set_ne; [done|]. intros ->. apply (Hx 0); [lia|by constructor].
  - apply up_step with z; [|done|].
    + rewrite om_get_set_ne; [done|]. intros ->. apply (Hx (S n)); [lia|by eapply up_step].
    + apply IH. intros m Hm. apply Hx. lia.
Qed.

(** Pointing [x] straight at its root changes no root. *)
Lemma root_shortcut p x r y s : root p x r → x ≠ r → root p y s → root (om_set x r p) y s.
Proof.
  intros [k Hk] Hne [n Hn]. pose proof (up_is_root _ _ _ _ Hk) as Hr.
  assert (root (om_set x r p) x r) as Hxr.
  { exists 1. apply up_step with r; [apply om_get_set_eq|congruence|]. constructor. by rewrite om_get_set_ne. }
  induction Hn as [y Hy|y z s n Hy Hyz Hu IH].
  - destruct (decide (y = x)) as [->|].
    + exfalso. apply Hne. destruct (up_fun _ _ _ _ _ _ Hk (up_root _ _ Hy)) as [? _]. congruence.
    + exists 0. constructor. by rewrite om_get_set_ne.
  - destruct (decide (y = x)) as [->|].
    + assert (s = r) as ->; [|done].
      by destruct (up_fun _ _ _ _ _ _ Hk (up_step _ _ _ _ _ Hy Hyz Hu)).
    + destruct IH as [m Hm]. exists (S m). apply up_step with z; [by rewrite om_get_set_ne|done..].
Qed.

(** Two maps whose chains end at the same roots. *)
Definition same_roots p p' : Prop := ∀ y s, root p y s → root p' y s.

Lemma same_roots_trans p p1 p2 : same_roots p p1 → same_roots p1 p2 → same_roots p p2.
Proof. unfold same_roots. auto. Qed.

Lemma compress_ok fuel p x r n :
  up p x r n → n ≤ fuel → ∃ p', compress fuel p x r = Some p' ∧ same_roots p p'.
Proof.
  revert p x n. induction fuel as [|fuel IH]; intros p x n Hu Hf; simpl.
  - assert (n = 0) as -> by lia. inversion Hu; subst. rewrite bool_decide_eq_true_2 by done.
    exists p. split; [done|]. by intros ??.
  - destruct (decide (x = r)) as [->|Hne]; [rewrite bool_decide_eq_true_2 by done; exists p; split; [done|]; by intros ??|].
    rewrite bool_decide_eq_false_2 by done. inversion Hu as [|? y ? m Hy Hyx Hu']; subst; [done|].
    rewrite Hy. simpl. destruct (IH (om_set x r p) y m) as (p' & -> & Hs); [|lia|].
    + apply up_set_other; [done|]. intros k Hk Hx. destruct (up_fun _ _ _ _ _ _ Hx Hu). lia.
    + exists p'. split; [done|]. eapply same_roots_trans; [|done]. intros z s.
      apply root_shortcut; [by exists (S m)|done].
Qed.

Lemma forest_same p p' : same_roots p p' → forest p → forest p'.
Proof. intros Hs Hf x. destruct (Hf x) as [r Hr]. exists r. by apply Hs. Qed.

(** A search answers the root and changes no root; its fuel is enough. *)
Lemma find_root_of p x :
  forest p → ∃ r p', find_set p x = Some (r, p') ∧ root p x r ∧ same_roots p p'.
Proof.
  intros Hf. destruct (Hf x) as [r [n Hn]]. unfold find_set. pose proof (up_bound _ _ _ _ Hn) as Hb.
  rewrite (find_root_up _ _ _ _ _ Hn Hb). destruct (compress_ok _ _ _ _ _ Hn Hb) as (p' & -> & Hs).
  exists r, p'. split_and!; [done|by exists n|done].
Qed.

Lemma ensure_roots p x : same_roots p (ensure p x).
Proof.
  unfold ensure. destruct (om_has x p) eqn:E; [by intros ??|]. apply om_has_false, om_get_None in E.
  intros y s [n Hn]. exists n. induction Hn as [y Hy|y z r n Hy Hne Hu IH].
  - constructor. destruct (decide (y = x)) as [->|]; [right; apply om_get_set_eq|by rewrite om_get_set_ne].
  - apply up_step with z; [|done..]. rewrite om_get_set_ne; [done|]. congruence.
Qed.

(** Hanging the root [rb] under the root [ra]. *)
Lemma root_join p ra rb y s :
  root p ra ra → root p rb rb → ra ≠ rb → root p y s →
  root (om_set rb ra p) y (if s ==? rb then ra else s).
Proof.
  intros [k Ha] [k' Hb] Hne [n Hn]. apply up_is_root in Ha, Hb.
  assert (root (om_set rb ra p) ra ra) as Hra by (exists 0; constructor; by rewrite om_get_set_ne).
  assert (root (om_set rb ra p) rb ra) as Hrb.
  { destruct Hra as [m Hm]. exists (S m). by apply up_step with ra; [apply om_get_set_eq|..]. }
  induction Hn as [y Hy|y z s n Hy Hyz Hu IH].
  - case_bool_decide as E; [by subst|]. exists 0. constructor. rewrite om_get_set_ne; [done|congruence].
  - destruct IH as [m Hm]. exists (S m). apply up_step with z; [|done..].
    rewrite om_get_set_ne; [done|]. intros ->. destruct Hb; congruence.
Qed.

(** ** What unions connect *)

Definition same p x y : Prop := ∃ r, root p x r ∧ root p y r.

(** Linked by a chain of links, taken in either direction. *)
Definition linked (links : list (string * string)) : string → string → Prop := rtsc (λ a b, (a, b) ∈ links).

Lemma same_roots_same p p' x y : forest p → same_roots p p' → same p x y ↔ same p' x y.
Proof.
  intros Hf Hs. split.
  - intros (r & Hx & Hy). exists r. split; by apply Hs.
  - intros (r & Hx & Hy). destruct (Hf x) as [rx Hrx], (Hf y) as [ry Hry].
    assert (rx = r) as -> by (eapply root_fun; [by apply Hs|done]).
    assert (ry = r) as -> by (eapply root_fun; [by apply Hs|done]). by exists r.
Qed.

Lemma same_iff p x y r s : root p x r → root p y s → same p x y ↔ r = s.
Proof.
  intros Hx Hy. split; [|intros ->; by exists s].
  intros (t & Hx' & Hy'). by rewrite (root_fun _ _ _ _ Hx Hx'), (root_fun _ _ _ _ Hy Hy').
Qed.

Lemma union_ok p a b :
  forest p → ∃ p', union p a b = Some p' ∧ forest p' ∧
    ∀ x y, same p' x y ↔ same p x y ∨ (same p x a ∧ same p b y) ∨ (same p x b ∧ same p a y).
Proof.
  intros Hf. unfold union. set (p0 := ensure (ensure p a) b).
  assert (same_roots p p0) as H0 by (eapply same_roots_trans; apply ensure_roots).
  pose proof (forest_same _ _ H0 Hf) as Hf0.
  destruct (find_root_of p0 a Hf0) as (ra & p1 & -> & Ha0 & H1). pose proof (forest_same _ _ H1 Hf0) as Hf1.
  destruct (find_root_of p1 b Hf1) as (rb & p2 & -> & Hb1 & H2). pose proof (forest_same _ _ H2 Hf1) as Hf2.
  assert (same_roots p p2) as Hs by (eauto using same_roots_trans).
  assert (root p a ra ∧ root p b rb) as [Ha Hb].
  { destruct (Hf a) as [r Hr], (Hf b) as [s Hr']. assert (same_roots p p1) as Hs1 by eauto using same_roots_trans.
    by rewrite (root_fun _ _ _ _ Ha0 (H0 _ _ Hr)), (root_fun _ _ _ _ Hb1 (Hs1 _ _ Hr')). }
  assert (∀ x y r s, root p x r → root p y s →
    (same p x y ∨ (same p x a ∧ same p b y) ∨ (same p x b ∧ same p a y)) ↔
    (r = s ∨ (r = ra ∧ rb = s) ∨ (r = rb ∧ ra = s))) as Hiff.
  { intros x y r s Hx Hy. by rewrite !same_iff. }
  eexists. split; [done|]. case_bool_decide as E.
  - subst rb. split; [done|]. intros x y. destruct (Hf x) as [r Hr], (Hf y) as [s Hr'].
    rewrite Hiff by done. rewrite <- (same_roots_same p p2) by done. rewrite same_iff by done.
    split; [by left|]. intros [?|[[-> <-]|[-> <-]]]; done.
  - pose proof (Hs _ _ (root_root _ _ _ Ha)) as Hra. pose proof (Hs _ _ (root_root _ _ _ Hb)) as Hrb.
    assert (∀ y s, root p y s → root (om_set rb ra p2) y (if s ==? rb then ra else s)) as Hj
      by (intros y s Hy; apply root_join; auto).
    split; [intros x; destruct (Hf x) as [r Hr]; eauto|]. intros x y. destruct (Hf x) as [r Hr], (Hf y) as [s Hr'].
    rewrite Hiff by done. rewrite (same_iff _ _ _ _ _ (Hj _ _ Hr) (Hj _ _ Hr')).
    repeat case_bool_decide; subst; naive_solver.
Qed.

Lemma linked_add links a b x y :
  linked (links ++ [(a, b)]) x y ↔
  linked links x y ∨ (linked links x a ∧ linked links b y) ∨ (linked links x b ∧ linked links a y).
Proof.
  assert (∀ u v, linked links u v → linked (links ++ [(a, b)]) u v) as Hmono.
  { intros u v. unfold linked, rtsc. apply rtc_subrel. intros c d [?|?]; [left|right]; apply elem_of_app; by left. }
  assert (linked (links ++ [(a, b)]) a b) as Hab by (apply rtc_once; left; apply elem_of_app; right; by apply list_elem_of_singleton).
  assert (linked (links ++ [(a, b)]) b a) as Hba by (apply rtc_once; right; apply elem_of_app; right; by apply list_elem_of_singleton).
  split.
  - unfold linked at 1, rtsc. induction 1 as [x|x z y Hxz _ IH]; [left; by apply rtc_refl|].
    assert (linked links x z ∨ (x = a ∧ z = b) ∨ (x = b ∧ z = a)) as [Hl|[[-> ->]|[-> ->]]].
    { destruct Hxz as [[?|[= <- <-]%list_elem_of_singleton]%elem_of_app|[?|[= <- <-]%list_elem_of_singleton]%elem_of_app].
      - left. apply rtc_once. by left.
      - by right; left.
      - left. apply rtc_once. by right.
      - by right; right. }
    + destruct IH as [IH|[[? ?]|[? ?]]]; [left|right; left|right; right]; try (split; [|done]); by etrans.
    + destruct IH as [IH|[[? ?]|[? ?]]]; [right; left|right; left|left]; try split; try done; apply rtc_refl.
    + destruct IH as [IH|[[? ?]|[? ?]]]; [right; right|left|right; right]; try split; try done; apply rtc_refl.
  - intros [?|[[? ?]|[? ?]]]; [by apply Hmono|etrans; [by apply Hmono|]; etrans; [exact Hab|by apply Hmono]|].
    etrans; [by apply Hmono|]. etrans; [exact Hba|by apply Hmono].
Qed.

(** Uniting pair after pair puts under one root exactly the ids a chain of
    pairs links. *)
Lemma union_all_ok p done_ links :
  forest p → (∀ x y, same p x y ↔ linked done_ x y) →
  ∃ p', union_all p links = Some p' ∧ forest p' ∧ ∀ x y, same p' x y ↔ linked (done_ ++ links) x y.
Proof.
  revert p done_. induction links as [|[a b] links IH]; intros p done_ Hf Hs; simpl.
  - exists p. rewrite app_nil_r. done.
  - destruct (union_ok p a b Hf) as (p' & -> & Hf' & Hs').
    destruct (IH p' (done_ ++ [(a, b)])) as (p'' & E & Hf'' & Hs''); [done| |].
    + intros x y. rewrite Hs', linked_add, !Hs. done.
    + exists p''. split_and!; [done..|]. by rewrite <- app_assoc in Hs''.
Qed.
End union_find.
