(* ===== verification/Homer.v ===== *)
(** * SIP trace rows ([api/homer.ts])

    What the trace search sends for each captured message and call leg.  An
    absent field and [null] are both [None]; nanosecond times are the
    integers the JSON numbers stand for. *)
From S2P Require Import Prelude JsString JsValue.

Record HomerSearchResult := {
  hr_timestamp : string;
  hr_timestamp_ns : option Z;
  hr_from_user : string;
  hr_to_user : string;
  hr_callid : string;
  hr_method : string;
  hr_src_ip : string;
  hr_dst_ip : string;
  hr_status : option Z;
  hr_node : option string;
  hr_cseq : option string;
  hr_via_branch : option string;
  hr_hairpin : bool;
  hr_ts_corrected : bool;
  hr_seq : option Z;
  hr_raw_msg : option string;
  hr_attestation : option obj;
}.

Inductive HomerLegRole := role_A | role_B.

#[export] Instance HomerLegRole_eq_dec : EqDecision HomerLegRole.
Proof. solve_decision. Defined.

Record HomerLegInfo := {
  li_role : HomerLegRole;
  li_a_callid : string;
  li_attempt : value;
}.
