(* ===== verification/CallGrouping.v ===== *)
(** * One row per call ([pages/troubleshooting/callGrouping.ts])

    SIP messages are grouped into calls by union-find over two link sources,
    and each group is summed up: the A leg, the result the caller saw, the
    talk time, the bridge attempts. *)
From S2P Require Import Prelude JsString JsValue Format Homer UnionFind.

Local Open Scope string_scope.
Local Open Scope Z_scope.
Local Open Scope list_scope.

(** [String.prototype.localeCompare] of the platform's locale. *)
Class Locale := localeCompare : string → string → Z.

Record LegAttempt := {
  at_callid : string;
  at_attempt : option num;
  at_finalStatus : option Z;
}.

Record CallGroup := {
  cg_representative : HomerSearchResult;
  cg_callIds : list string;
  cg_messages : list HomerSearchResult;
  cg_finalStatus : option Z;
  cg_durationSec : option Z;
  cg_attestation : option obj;
  cg_aLegCallId : option string;
  cg_attempts : list LegAttempt;
  cg_ladderCorrelations : list (string * list string);
}.

(** ** SIP helpers *)

(** [/^\s*(\d+)/] *)
Definition cseqNumber (m : HomerSearchResult) : option Z :=
  match hr_cseq m with
  | None => None
  | Some s => let d := (span_digits (ltrim s)).1 in if d ==? "" then None else Some (num_of_digits d)
  end.

(** [/^\s*\d+\s+(\S+)/] *)
Definition cseq_method (s : string) : option string :=
  let '(d, r) := span_digits (ltrim s) in
  let w := take_word (ltrim r) in
  if (d ==? "") || (ltrim r ==? r) || (w ==? "") then None else Some w.

Definition txnMethod (m : HomerSearchResult) : string :=
  upper (match hr_cseq m with
         | Some s => default (hr_method m) (cseq_method s)
         | None => hr_method m
         end).

Definition isInviteRequest (m : HomerSearchResult) : bool :=
  (upper (hr_method m) ==? "INVITE") && (hr_status m ==? None).

Definition isByeRequest (m : HomerSearchResult) : bool :=
  (upper (hr_method m) ==? "BYE") && (hr_status m ==? None).

(** The instant, when [validNs] holds. *)
Definition validNs (ns : option Z) : option Z :=
  match ns with Some n => if 0 <? n then Some n else None | None => None end.

Definition isLegInfo (v : value) : option HomerLegInfo :=
  match v with
  | VObj o =>
      match get "a_callid" o with
      | VStr a =>
          if get "role" o ==? VStr "A" then Some (Build_HomerLegInfo role_A a (get "attempt" o))
          else if get "role" o ==? VStr "B" then Some (Build_HomerLegInfo role_B a (get "attempt" o))
          else None
      | _ => None
      end
  | _ => None
  end.

Record LegOutcome := {
  lo_status : option Z;
  lo_answer : option HomerSearchResult;
}.

(** [m.status !== null && m.status >= lo && m.status < hi] *)
Definition status_in (lo hi : Z) (m : HomerSearchResult) : bool :=
  match hr_status m with Some s => (lo <=? s) && (s <? hi) | None => false end.
Definition status_from (lo : Z) (m : HomerSearchResult) : bool :=
  match hr_status m with Some s => lo <=? s | None => false end.

Definition lowest_cseq (acc : option Z) (r : HomerSearchResult) : option Z :=
  match cseqNumber r, acc with
  | Some n, None => Some n
  | Some n, Some a => if n <? a then Some n else acc
  | None, _ => acc
  end.

(** [inviteResponses] *)
Definition invite_finals (legMessages : list HomerSearchResult) : list HomerSearchResult :=
  List.filter (λ m, status_from 200 m && (txnMethod m ==? "INVITE")) legMessages.

Definition initial_cseq (legMessages : list HomerSearchResult) : option Z :=
  match match find isInviteRequest legMessages with Some q => cseqNumber q | None => None end with
  | Some n => Some n
  | None => fold_left lowest_cseq (invite_finals legMessages) None
  end.

(** The final responses to the initial INVITE. *)
Definition initial_finals (legMessages : list HomerSearchResult) : list HomerSearchResult :=
  let initialSeq := initial_cseq legMessages in
  List.filter (λ r, match initialSeq, cseqNumber r with
                    | Some i, Some n => n =? i
                    | _, _ => true
                    end) (invite_finals legMessages).

Definition initialInviteOutcome (legMessages : list HomerSearchResult) : LegOutcome :=
  let finals := initial_finals legMessages in
  match find (status_in 200 300) finals with
  | Some answer => Build_LegOutcome (hr_status answer) (Some answer)
  | None => Build_LegOutcome (match last finals with Some l => hr_status l | None => None end) None
  end.

(** [best === null || msg.status > best] *)
Definition higher (best : option Z) (s : Z) : option Z :=
  match best with Some b => if b <? s then Some s else best | None => Some s end.

Definition highest_in (test : HomerSearchResult → bool) (messages : list HomerSearchResult) : option Z :=
  fold_left (λ best m, match hr_status m with
                       | Some s => if test m then higher best s else best
                       | None => best
                       end) messages None.

Definition legacyFinalStatus (messages : list HomerSearchResult) : option Z :=
  match highest_in (status_from 200) messages with
  | Some best => Some best
  | None => highest_in (status_in 100 200) messages
  end.

(** [Math.round((endNs - startNs) / 1_000_000_000)] *)
Definition secondsBetween (startNs endNs : option Z) : option Z :=
  match validNs startNs, validNs endNs with
  | Some s, Some e => if e <? s then None else Some ((2 * (e - s) + 1000000000) / 2000000000)
  | _, _ => None
  end.

Definition legacyDuration (messages : list HomerSearchResult) : option Z :=
  match find isInviteRequest messages, find (λ m, upper (hr_method m) ==? "BYE") (rev messages) with
  | Some firstInvite, Some lastBye => secondsBetween (hr_timestamp_ns firstInvite) (hr_timestamp_ns lastBye)
  | _, _ => None
  end.

(** ** The legs of a call *)

(** The leg map as checked: an object of leg infos. *)
Abbreviation LegMap := (list (string * HomerLegInfo)).

Definition has_role (role : HomerLegRole) (legs : LegMap) (cid : string) : bool :=
  match om_get cid legs with Some i => li_role i ==? role | None => false end.

Definition pickALeg (callIds : list string) (messages : list HomerSearchResult) (legs : LegMap) : option string :=
  match find (has_role role_A legs) callIds with
  | Some cid => Some cid
  | None =>
      match find (includes callIds) (omap (λ cid, li_a_callid <$> om_get cid legs) callIds) with
      | Some target => Some target
      | None => hr_callid <$> find isInviteRequest messages
      end
  end.

(** A row of [buildAttempts] with its [startNs]. *)
Definition attempt_row (byCallId : list (string * list HomerSearchResult)) (legs : LegMap) (cid : string) : LegAttempt * Z :=
  let legMessages := default [] (om_get cid byCallId) in
  (Build_LegAttempt cid
     (match li_attempt <$> om_get cid legs with
      | Some (VNum n) => if is_finite n then Some n else None
      | _ => None
      end)
     (lo_status (initialInviteOutcome legMessages)),
   match legMessages with m :: _ => default 0 (hr_timestamp_ns m) | [] => 0 end).

(** Not after, in the order of the sort of [buildAttempts]. *)
Definition attempt_le (allNumbered : bool) (a b : LegAttempt * Z) : bool :=
  match at_attempt a.1, at_attempt b.1 with
  | Some m, Some n =>
      if allNumbered && negb (num_le m n && num_le n m) then num_le m n else a.2 <=? b.2
  | _, _ => a.2 <=? b.2
  end.

Definition numbered (r : LegAttempt * Z) : bool := match at_attempt r.1 with Some _ => true | None => false end.

Definition buildAttempts (callIds : list string) (aLegCallId : option string)
    (byCallId : list (string * list HomerSearchResult)) (legs : LegMap) : list LegAttempt :=
  let rows := List.map (attempt_row byCallId legs)
    (List.filter (λ cid, negb ((Some cid ==? aLegCallId) || has_role role_A legs cid)) callIds) in
  List.map fst (sort_by (attempt_le (forallb numbered rows)) rows).

(** [RESULT]: what the caller saw. *)
Definition call_result (aMessages messages : list HomerSearchResult) : option Z :=
  match lo_status (initialInviteOutcome aMessages) with
  | Some s => Some s
  | None =>
      match find (λ m, status_in 200 300 m && (txnMethod m ==? "INVITE")) messages with
      | Some anyAnswer => hr_status anyAnswer
      | None => legacyFinalStatus messages
      end
  end.

Definition bye_after (answerNs : Z) (m : HomerSearchResult) : bool :=
  isByeRequest m && match validNs (hr_timestamp_ns m) with Some n => answerNs <=? n | None => false end.

Definition first_some {A} (a b : option A) : option A := match a with Some _ => a | None => b end.

Definition call_duration (aMessages messages : list HomerSearchResult) : option Z :=
  let talked :=
    match lo_answer (initialInviteOutcome aMessages) with
    | Some answer =>
        match validNs (hr_timestamp_ns answer) with
        | Some answerNs =>
            match first_some (find (bye_after answerNs) aMessages) (find (bye_after answerNs) messages) with
            | Some bye => secondsBetween (Some answerNs) (hr_timestamp_ns bye)
            | None => None
            end
        | None => None
        end
    | None => None
    end in
  first_some talked (legacyDuration messages).

(** ** Groups *)

(** One turn of the loops that fill a [Map] of lists. *)
Definition push_to {A} (k : string) (x : A) (m : list (string * list A)) : list (string * list A) :=
  om_set k (default [] (om_get k m) ++ [x]) m.

Definition by_callid (messages : list HomerSearchResult) : list (string * list HomerSearchResult) :=
  fold_left (λ m x, push_to (hr_callid x) x m) messages [].

Definition ladder_map (callIds : list string) (aLegCallId : option string) (legs : LegMap) : list (string * list string) :=
  let linked := List.filter (λ cid, (Some cid ==? aLegCallId) || negb (has_role role_A legs cid)) callIds in
  if (1 <? Z.of_nat (length linked)) then List.map (λ cid, (cid, linked)) linked else [].

Section grouping.
Context `{Locale}.

Definition earlier (a b : HomerSearchResult) : bool := localeCompare (hr_timestamp a) (hr_timestamp b) <=? 0.

(** [None]: a group with no message, which has no representative. *)
Definition build_group (legs : LegMap) (rows : list HomerSearchResult) : option CallGroup :=
  let messages := sort_by earlier rows in
  let byCallId := by_callid messages in
  let callIds := om_keys byCallId in
  let aLegCallId := pickALeg callIds messages legs in
  let aMessages := match aLegCallId with Some a => default [] (om_get a byCallId) | None => [] end in
  match first_some (find isInviteRequest aMessages) (first_some (find isInviteRequest messages) (head messages)) with
  | None => None
  | Some representative =>
      Some {| cg_representative := representative;
              cg_callIds := callIds;
              cg_messages := messages;
              cg_finalStatus := call_result aMessages messages;
              cg_durationSec := call_duration aMessages messages;
              cg_attestation := head (omap hr_attestation messages);
              cg_aLegCallId := aLegCallId;
              cg_attempts := buildAttempts callIds aLegCallId byCallId legs;
              cg_ladderCorrelations := ladder_map callIds aLegCallId legs |}
  end.

(** The entries of the wire's leg map that are leg infos. *)
Definition leg_map (legs : option obj) : LegMap :=
  om_of_list (omap (λ '(cid, v), (λ i, (cid, i)) <$> isLegInfo v) (default [] legs)).

(** One entry of [correlations]. *)
Definition link_related (p : option parents) (c : string * list string) : option parents :=
  match p with
  | Some p => union_all (ensure p c.1) (List.map (λ r, (c.1, r)) c.2)
  | None => None
  end.

Definition leg_link (l : string * HomerLegInfo) : option (string * string) :=
  if (li_a_callid l.2 ==? "") || (li_a_callid l.2 ==? l.1) then None else Some (li_a_callid l.2, l.1).

(** The parent map after both link sources. *)
Definition link_calls (results : list HomerSearchResult) (correlations : list (string * list string)) (legs : LegMap)
    : option parents :=
  match fold_left link_related correlations (Some (fold_left ensure (List.map hr_callid results) [])) with
  | Some p => union_all p (omap leg_link legs)
  | None => None
  end.

(** One row of the loop that groups by root. *)
Definition place_row (acc : option (parents * list (string * list HomerSearchResult))) (row : HomerSearchResult)
    : option (parents * list (string * list HomerSearchResult)) :=
  match acc with
  | None => None
  | Some (p, groups) =>
      match find_set p (hr_callid row) with
      | None => None
      | Some (root, p') => Some (p', push_to root row groups)
      end
  end.

(** Newest first. *)
Definition newer (a b : CallGroup) : bool :=
  localeCompare (hr_timestamp (cg_representative b)) (hr_timestamp (cg_representative a)) <=? 0.

(** [None]: the fuel of a search is spent; [correlations] and [legs] list
    the entries of the wire's objects in the order [Object.entries] gives. *)
Definition groupMessagesByCall (results : list HomerSearchResult) (correlations : list (string * list string))
    (legs : option obj) : option (list CallGroup) :=
  let legMap := leg_map legs in
  match link_calls results correlations legMap with
  | None => None
  | Some p =>
      match fold_left place_row results (Some (p, [])) with
      | None => None
      | Some (_, groups) => Some (sort_by newer (omap (λ g, build_group legMap g.2) groups))
      end
  end.
End grouping.

(** ** Display *)

Definition summarizeAttempts (attempts : list LegAttempt) : option string :=
  if (Z.of_nat (length attempts) <? 2) then None
  else Some (join " → " (List.map (λ a, match at_finalStatus a with Some s => print_int s | None => "—" end) attempts)).

Record CorrelationNotice := {
  cn_status : option string;
  cn_reason : option string;
  cn_truncated : bool;
}.

Definition deriveCorrelationNotice (response : option obj) : option CorrelationNotice :=
  match response with
  | None => None
  | Some r =>
      let status := match get "correlation_status" r with
                    | VStr s => if s ==? "" then None else Some s
                    | _ => None
                    end in
      let truncated := get "correlation_truncated" r ==? VBool true in
      let statusBad := match status with Some s => s !=? "ok" | None => false end in
      if negb statusBad && negb truncated then None
      else Some {| cn_status := status;
                   cn_reason := match get "correlation_reason" r with
                                | VStr s => if trim s ==? "" then None else Some (trim s)
                                | _ => None
                                end;
                   cn_truncated := truncated |}
  end.
