(* ===== verification/CallGroupingOk.v ===== *)
(** * What call grouping promises ([pages/troubleshooting/callGrouping.ts])

    The groups are the classes of the links, every message lands in exactly
    one of them, and a failed bridge attempt never masks an answer. *)
From S2P Require Import Prelude JsString JsValue Format Homer UnionFind CallGrouping.

Local Open Scope string_scope.
Local Open Scope Z_scope.
Local Open Scope list_scope.

(** Every pair of Call-IDs one of the two sources links. *)
Definition call_links (correlations : list (string * list string)) (legs : LegMap) : list (string * string) :=
  flat_map (λ c, List.map (λ r, (c.1, r)) c.2) correlations ++ omap leg_link legs.

(** ** Lemmas: linking *)

Lemma ensure_all_ok ids p :
  forest p → forest (fold_left ensure ids p) ∧ same_roots p (fold_left ensure ids p).
Proof.
  revert p. induction ids as [|x ids IH]; intros p Hf; simpl; [split; [done|by intros ??]|].
  pose proof (ensure_roots p x) as Hs. destruct (IH (ensure p x)) as [Hf' Hs']; [by eapply forest_same|].
  split; [done|]. by eapply same_roots_trans.
Qed.

Lemma empty_forest : forest [].
Proof. intros x. exists x, 0%nat. constructor. by left. Qed.

Lemma empty_same x y : same [] x y ↔ linked [] x y.
Proof.
  assert (∀ z r, root [] z r → r = z) as Hr by (intros z r [n Hn]; by inversion Hn).
  split.
  - intros (r & <-%Hr & Hy%Hr). rewrite Hy. apply rtc_refl.
  - unfold linked, rtsc. induction 1 as [z|z u v [[]%not_elem_of_nil|[]%not_elem_of_nil] _ _].
    exists z. split; exists 0%nat; constructor; by left.
Qed.

Lemma link_related_ok p done_ correlations :
  forest p → (∀ x y, same p x y ↔ linked done_ x y) →
  ∃ p', fold_left link_related correlations (Some p) = Some p' ∧ forest p' ∧
    ∀ x y, same p' x y ↔ linked (done_ ++ flat_map (λ c, List.map (λ r, (c.1, r)) c.2) correlations) x y.
Proof.
  revert p done_. induction correlations as [|[cid related] cs IH]; intros p done_ Hf Hs; simpl.
  - exists p. by rewrite app_nil_r.
  - pose proof (ensure_roots p cid) as He. pose proof (forest_same _ _ He Hf) as Hfe.
    destruct (union_all_ok (ensure p cid) done_ (List.map (λ r, (cid, r)) related)) as (p' & E & Hf' & Hs'); [done| |].
    + intros x y. by rewrite <- (same_roots_same p).
    + destruct (IH p' _ Hf' Hs') as (p'' & E' & Hf'' & Hs''). exists p''.
      rewrite E. split_and!; [done..|]. by rewrite <- app_assoc in Hs''.
Qed.

Lemma link_calls_ok results correlations legs :
  ∃ p, link_calls results correlations legs = Some p ∧ forest p ∧
    ∀ x y, same p x y ↔ linked (call_links correlations legs) x y.
Proof.
  unfold link_calls. destruct (ensure_all_ok (List.map hr_callid results) [] empty_forest) as [Hf Hs].
  destruct (link_related_ok (fold_left ensure (List.map hr_callid results) []) [] correlations) as (p & -> & Hf' & Hs').
  - done.
  - intros x y. rewrite <- (same_roots_same [] _ x y empty_forest Hs). apply empty_same.
  - destruct (union_all_ok p _ (omap leg_link legs) Hf' Hs') as (p' & E & Hf'' & Hs''). eauto.
Qed.

(** ** Lemmas: placing *)

Lemma push_to_elem {A} k (x : A) m k' l :
  NoDup (om_keys m) → (k', l) ∈ push_to k x m →
  (k' = k ∧ l = default [] (om_get k m) ++ [x]) ∨ (k' ≠ k ∧ (k', l) ∈ m).
Proof.
  intros Hnd Hin. unfold push_to in Hin.
  pose proof (om_get_elem k' l _ (om_set_NoDup k (default [] (om_get k m) ++ [x]) _ Hnd) Hin) as E.
  destruct (decide (k' = k)) as [->|Hne].
  - left. rewrite om_get_set_eq in E. by injection E.
  - right. rewrite om_get_set_ne in E by done. split; [done|]. by apply om_get_Some_elem.
Qed.

Lemma push_to_concat {A} k (x : A) m :
  concat (List.map snd (push_to k x m)) ≡ₚ x :: concat (List.map snd m).
Proof.
  unfold push_to. induction m as [|[k' l] m IH]; simpl; [done|].
  destruct (k' ==? k) eqn:E; simpl.
  - rewrite <- app_assoc. simpl. by rewrite Permutation_middle.
  - rewrite IH. by rewrite Permutation_middle.
Qed.

(** The groups so far: rows by the root of their Call-ID, none empty. *)
Record placed (p0 : parents) (rows : list HomerSearchResult) (p : parents)
    (groups : list (string * list HomerSearchResult)) : Prop := {
  pl_forest : forest p;
  pl_roots : same_roots p0 p;
  pl_keys : NoDup (om_keys groups);
  pl_root : ∀ r l, (r, l) ∈ groups → l ≠ [] ∧ ∀ m, m ∈ l → root p0 (hr_callid m) r;
  pl_perm : concat (List.map snd groups) ≡ₚ rows;
}.

Lemma place_row_ok p0 rows p groups row :
  forest p0 → placed p0 rows p groups →
  ∃ p' groups', place_row (Some (p, groups)) row = Some (p', groups') ∧ placed p0 (rows ++ [row]) p' groups'.
Proof.
  intros Hf0 [Hf Hs Hk Hr Hp]. simpl. destruct (find_root_of p (hr_callid row) Hf) as (r & p' & -> & Hroot & Hs').
  exists p', (push_to r row groups). split; [done|].
  assert (root p0 (hr_callid row) r) as Hroot0.
  { destruct (Hf0 (hr_callid row)) as [r0 Hr0]. by rewrite (root_fun _ _ _ _ Hroot (Hs _ _ Hr0)). }
  split.
  - by eapply forest_same.
  - by eapply same_roots_trans.
  - by apply om_set_NoDup.
  - intros r' l [[-> ->]|[Hne Hin]]%push_to_elem; [|by apply Hr|done]. split; [by destruct (default _ _)|].
    intros m [Hm| ->%list_elem_of_singleton]%elem_of_app; [|done].
    destruct (om_get r groups) as [l0|] eqn:E; [|by apply not_elem_of_nil in Hm].
    apply om_get_Some_elem in E. by apply (Hr r l0).
  - rewrite push_to_concat, Hp. by rewrite Permutation_app_comm.
Qed.

Lemma place_all_ok p0 rows results p groups :
  forest p0 → placed p0 rows p groups →
  ∃ p' groups', fold_left place_row results (Some (p, groups)) = Some (p', groups') ∧
    placed p0 (rows ++ results) p' groups'.
Proof.
  intros Hf0. revert rows p groups. induction results as [|row results IH]; intros rows p groups Hpl.
  - exists p, groups. by rewrite app_nil_r.
  - destruct (place_row_ok p0 rows p groups row Hf0 Hpl) as (p1 & g1 & E & Hpl1).
    destruct (IH _ _ _ Hpl1) as (p2 & g2 & E2 & Hpl2). exists p2, g2. simpl in *. rewrite E, E2.
    split; [done|]. by rewrite <- app_assoc in Hpl2.
Qed.

(** ** Lemmas: groups *)

Section groups.
Context `{Locale}.

Lemma build_group_some legs l : l ≠ [] → ∃ g, build_group legs l = Some g ∧ cg_messages g ≡ₚ l.
Proof.
  intros Hne. unfold build_group. cbv zeta. pose proof (sort_by_perm earlier l) as Hp.
  destruct (sort_by earlier l) as [|m ms] eqn:E.
  { apply Permutation_nil_l in Hp. by subst. }
  rewrite <- E in *. set (aMessages := match pickALeg _ _ _ with Some a => _ | None => _ end).
  assert (∃ x, first_some (find isInviteRequest aMessages)
    (first_some (find isInviteRequest (sort_by earlier l)) (head (sort_by earlier l))) = Some x) as [x ->].
  { unfold first_some. rewrite E. destruct (find _ aMessages); [eauto|]. destruct (find _ (m :: ms)); simpl; eauto. }
  eexists. split; [done|]. done.
Qed.

Lemma build_groups_perm legs (groups : list (string * list HomerSearchResult)) :
  (∀ r l, (r, l) ∈ groups → l ≠ []) →
  concat (List.map cg_messages (omap (λ g, build_group legs g.2) groups)) ≡ₚ concat (List.map snd groups).
Proof.
  induction groups as [|[r l] groups IH]; intros Hne; csimpl; [done|].
  destruct (build_group_some legs l) as (g & -> & Hp); [apply (Hne r); by apply elem_of_cons; left|].
  simpl. rewrite Hp, IH; [done|]. intros r' l' Hin. apply (Hne r'). by apply elem_of_cons; right.
Qed.

(** The groups as [groupMessagesByCall] builds them, before the last sort. *)
Lemma grouping_ok results correlations legs :
  ∃ p groups, groupMessagesByCall results correlations legs
      = Some (sort_by newer (omap (λ g, build_group (leg_map legs) g.2) groups)) ∧
    forest p ∧ (∀ x y, same p x y ↔ linked (call_links correlations (leg_map legs)) x y) ∧
    NoDup (om_keys groups) ∧
    (∀ r l, (r, l) ∈ groups → l ≠ [] ∧ ∀ m, m ∈ l → root p (hr_callid m) r) ∧
    concat (List.map snd groups) ≡ₚ results.
Proof.
  unfold groupMessagesByCall. destruct (link_calls_ok results correlations (leg_map legs)) as (p & -> & Hf & Hs).
  destruct (place_all_ok p [] results p []) as (p' & groups & -> & []); [done| |].
  - split; try done; [by intros ??|constructor|intros r l []%not_elem_of_nil].
  - exists p, groups. done.
Qed.

Lemma concat_map_perm {A B} (f : A → list B) l l' :
  l ≡ₚ l' → concat (List.map f l) ≡ₚ concat (List.map f l').
Proof.
  induction 1 as [|x l l' _ IH|x y l|]; simpl; [done|by rewrite IH| |by etrans].
  by rewrite !app_assoc, (Permutation_app_comm (f y)).
Qed.

(** C6 Grouping always ends, loses and repeats no message, and puts two
    messages in the same row of the table exactly when a chain of
    correlations and leg links joins their Call-IDs, whatever order the links
    come in. *)
Theorem groups_partition results correlations legs :
  ∃ gs, groupMessagesByCall results correlations legs = Some gs ∧
    concat (List.map cg_messages gs) ≡ₚ results ∧
    ∀ g g' m m', g ∈ gs → g' ∈ gs → m ∈ cg_messages g → m' ∈ cg_messages g' →
      (g = g' ↔ linked (call_links correlations (leg_map legs)) (hr_callid m) (hr_callid m')).
Proof.
  destruct (grouping_ok results correlations legs) as (p & groups & E & Hf & Hs & Hk & Hr & Hp).
  eexists. split; [exact E|]. split.
  - rewrite (concat_map_perm _ _ _ (sort_by_perm newer _)), build_groups_perm; [done|].
    intros r l Hin. by apply (Hr r l).
  - intros g g' m m' Hg Hg' Hm Hm'. rewrite sort_by_perm in Hg, Hg'.
    apply list_elem_of_omap in Hg as ([r l] & Hin & Eg), Hg' as ([r' l'] & Hin' & Eg'). simpl in Eg, Eg'.
    destruct (Hr r l Hin) as [Hne Hroot], (Hr r' l' Hin') as [Hne' Hroot'].
    destruct (build_group_some (leg_map legs) l Hne) as (g0 & Eg0 & Hpm). rewrite Eg in Eg0. injection Eg0 as <-.
    destruct (build_group_some (leg_map legs) l' Hne') as (g0 & Eg0 & Hpm'). rewrite Eg' in Eg0. injection Eg0 as <-.
    rewrite Hpm in Hm. rewrite Hpm' in Hm'. rewrite <- Hs, (same_iff p _ _ r r'); [|by apply Hroot|by apply Hroot'].
    split.
    + intros <-. assert (m' ∈ l) as Hx by (by rewrite <- Hpm, Hpm').
      eapply root_fun; [by apply Hroot|by apply Hroot'].
    + intros <-. assert (l = l') as <-; [|congruence].
      pose proof (om_get_elem _ _ _ Hk Hin). pose proof (om_get_elem _ _ _ Hk Hin'). congruence.
Qed.
End groups.

(** ** Lemmas: results *)

(** The messages of one leg. *)
Definition leg_of (messages : list HomerSearchResult) (a : option string) : list HomerSearchResult :=
  match a with Some a => List.filter (λ m, hr_callid m ==? a) messages | None => [] end.

Lemma by_callid_get messages k : default [] (om_get k (by_callid messages)) = leg_of messages (Some k).
Proof.
  unfold by_callid, leg_of. induction messages as [|m ms IH] using rev_ind; [done|].
  rewrite fold_left_app, List.filter_app. cbn [fold_left List.filter]. unfold push_to at 1.
  destruct (decide (hr_callid m = k)) as [->|Hne].
  - rewrite om_get_set_eq, IH, bool_decide_eq_true_2 by done. done.
  - rewrite om_get_set_ne, IH, bool_decide_eq_false_2 by done. by rewrite app_nil_r.
Qed.

Lemma group_result `{Locale} legs rows g :
  build_group legs rows = Some g →
  cg_finalStatus g = call_result (leg_of (cg_messages g) (cg_aLegCallId g)) (cg_messages g).
Proof.
  unfold build_group. cbv zeta. destruct (first_some _ _); [|done]. intros [= <-]. simpl.
  destruct (pickALeg _ _ _) as [a|]; simpl; [|done]. by rewrite by_callid_get.
Qed.

Lemma finals_status leg m : m ∈ initial_finals leg → ∃ s, hr_status m = Some s ∧ 200 ≤ s.
Proof.
  intros [[_ Hm]%elem_of_lfilter _]%elem_of_lfilter. bool_hyps. unfold status_from in *.
  destruct (hr_status m) as [s|]; [|done]. exists s. by rewrite Z.leb_le in *.
Qed.

Lemma status_in_spec lo hi m : status_in lo hi m = true ↔ ∃ s, hr_status m = Some s ∧ lo ≤ s < hi.
Proof.
  unfold status_in. destruct (hr_status m) as [s|]; [|naive_solver]. rewrite andb_true_iff, Z.leb_le, Z.ltb_lt.
  split; [eauto|]. by intros (s' & [= <-] & ?).
Qed.

(** The final answers of the caller's leg decide, when it has any. *)
Lemma outcome_spec leg :
  match find (status_in 200 300) (initial_finals leg) with
  | Some m => m ∈ initial_finals leg ∧ ∃ s, lo_status (initialInviteOutcome leg) = Some s ∧ 200 ≤ s < 300
  | None => (∀ m, m ∈ initial_finals leg → status_in 200 300 m = false) ∧
            lo_status (initialInviteOutcome leg) = (last (initial_finals leg) ≫= hr_status)
  end.
Proof.
  unfold initialInviteOutcome. cbv zeta. destruct (find _ (initial_finals leg)) as [m|] eqn:E.
  - apply find_some_iff in E as [Hm (s & Es & Hs)%status_in_spec]. split; [done|]. exists s. by rewrite <- Es.
  - split; [by apply find_none_iff|]. by destruct (last _).
Qed.

(** The result shown for a call is what its caller saw: an answer on the
    caller's leg shows as answered whatever the other legs got, and a failure
    is only shown when it is the last final response the caller's leg got and
    that leg was never answered, or when no leg of the call was answered at
    all. *)
Theorem result_is_callers `{Locale} legs rows g :
  build_group legs rows = Some g →
  let finals := initial_finals (leg_of (cg_messages g) (cg_aLegCallId g)) in
  ((∃ m, m ∈ finals ∧ status_in 200 300 m = true) → ∃ s, cg_finalStatus g = Some s ∧ 200 ≤ s < 300) ∧
  (∀ s, cg_finalStatus g = Some s → 300 ≤ s →
     (last finals ≫= hr_status = Some s ∧ ∀ m, m ∈ finals → status_in 200 300 m = false) ∨
     (finals = [] ∧ ∀ m, m ∈ cg_messages g → status_in 200 300 m = true → txnMethod m ≠ "INVITE")).
Proof.
  intros Hg finals. rewrite (group_result _ _ _ Hg). unfold call_result.
  pose proof (outcome_spec (leg_of (cg_messages g) (cg_aLegCallId g))) as Ho. fold finals in Ho.
  destruct (find (status_in 200 300) finals) as [m|] eqn:E.
  - destruct Ho as (_ & s & -> & Hs). split; [eauto|]. intros s' [= <-] ?. lia.
  - destruct Ho as [Hno ->]. split.
    + intros (m & Hm & Hs). by rewrite (Hno m Hm) in Hs.
    + intros s. destruct (last finals ≫= hr_status) as [s0|] eqn:El; [intros [= ->] _; by left|].
      intros Hres Hs. right. split.
      * destruct (last finals) as [x|] eqn:Ex; [|by apply last_None]. exfalso.
        apply last_Some_elem_of, finals_status in Ex as (sx & Ex & _). simpl in El. congruence.
      * intros m Hm Hst Htx. destruct (find (λ m, status_in 200 300 m && _) (cg_messages g)) as [a|] eqn:Ef.
        -- apply find_some_iff in Ef as [_ Ha]. bool_hyps.
           assert (∃ s0, hr_status a = Some s0 ∧ 200 ≤ s0 < 300) as (s0 & ? & ?) by by apply status_in_spec.
           simplify_eq. lia.
        -- rewrite find_none_iff in Ef. specialize (Ef m Hm). rewrite Hst, Htx in Ef. done.
Qed.

(** ** Witnesses *)

#[local] Instance byte_order : Locale := λ a b,
  match String.compare a b with Lt => -1 | Eq => 0 | Gt => 1 end.

Definition row (t : string) (cid method : string) (status : option Z) (cseq : string) : HomerSearchResult :=
  {| hr_timestamp := t; hr_timestamp_ns := None; hr_from_user := "100"; hr_to_user := "200"; hr_callid := cid;
     hr_method := method; hr_src_ip := "a"; hr_dst_ip := "b"; hr_status := status; hr_node := None;
     hr_cseq := Some cseq; hr_via_branch := None; hr_hairpin := false; hr_ts_corrected := false; hr_seq := None;
     hr_raw_msg := None; hr_attestation := None |}.

(** A forwarded call whose first bridge attempt fails with 503 and whose
    second is answered, and another caller's call. *)
Definition sample_rows : list HomerSearchResult :=
  [row "01" "a" "INVITE" None "1 INVITE"; row "02" "b1" "INVITE" None "7 INVITE";
   row "03" "b1" "SIP/2.0" (Some 503) "7 INVITE"; row "04" "b2" "INVITE" None "8 INVITE";
   row "05" "b2" "SIP/2.0" (Some 200) "8 INVITE"; row "06" "z" "INVITE" None "1 INVITE";
   row "07" "a" "SIP/2.0" (Some 200) "1 INVITE"].

Definition sample_legs : option obj :=
  Some [("b2", VObj [("role", VStr "B"); ("a_callid", VStr "a"); ("attempt", vint 2)])].

Example sample_groups :
  option_map (List.map (λ g, (cg_callIds g, cg_finalStatus g)))
    (groupMessagesByCall sample_rows [("a", ["b1"])] sample_legs)
  = Some [(["z"], None); (["a"; "b1"; "b2"], Some 200)].
Proof. by vm_compute. Qed.

Lemma groups_partition_witness :
  ∃ gs, groupMessagesByCall sample_rows [("a", ["b1"])] sample_legs = Some gs ∧
    concat (List.map cg_messages gs) ≡ₚ sample_rows.
Proof.
  destruct (groups_partition sample_rows [("a", ["b1"])] sample_legs) as (gs & E & Hp & _). eauto.
Defined.

Definition call_rows : list HomerSearchResult := List.filter (λ m, hr_callid m !=? "z") sample_rows.

Lemma sample_finals :
  match build_group (leg_map sample_legs) call_rows with
  | Some g => initial_finals (leg_of (cg_messages g) (cg_aLegCallId g)) = [row "07" "a" "SIP/2.0" (Some 200) "1 INVITE"]
  | None => False
  end.
Proof. by vm_compute. Qed.

Lemma result_is_callers_witness :
  match build_group (leg_map sample_legs) call_rows with
  | Some g => ∃ s, cg_finalStatus g = Some s ∧ 200 ≤ s < 300
  | None => False
  end.
Proof.
  pose proof sample_finals as Hf. destruct (build_group (leg_map sample_legs) call_rows) as [g|] eqn:E; [|done].
  destruct (result_is_callers (leg_map sample_legs) _ g E) as [H _]. apply H.
  exists (row "07" "a" "SIP/2.0" (Some 200) "1 INVITE"). rewrite Hf. split; [left|done].
Defined.
