(* ===== verification/LadderOrder.v ===== *)
(** * Column order of the SIP ladder ([components/sip-ladder/ladderOrder.ts])

    The participants of a call are ranked by the platform's topology and
    sorted left to right.  Ranks are counted in quarters, the code's
    [RANK_EPSILON] being a quarter of a rank. *)
From S2P Require Import Prelude JsString.

Local Open Scope string_scope.
Local Open Scope Z_scope.
Local Open Scope list_scope.

Inductive NodeRole := carrier_ingress | carrier_egress | sbc_vip | sbc | media_server | unknown_role.

#[export] Instance NodeRole_eq_dec : EqDecision NodeRole.
Proof. solve_decision. Defined.

Record OrderParticipant := { op_id : string; op_role : NodeRole }.

Record OrderWireMessage := { om_src : string; om_dst : string; om_isInviteRequest : bool }.

Inductive EndpointTag := tag_orig | tag_term.

Record OrderedColumns := {
  oc_orderedIds : list string;
  oc_bLegInsertIndex : nat;
  oc_endpointTags : list (string * EndpointTag);
}.

Definition RANK_ORIG_EXTERNAL : Z := 0.
Definition RANK_EXTERNAL_VIP : Z := 4.
Definition RANK_SBC_A : Z := 8.
Definition RANK_MEDIA : Z := 12.
Definition RANK_SIGNALING_VIP : Z := 16.
Definition RANK_EGRESS_EXTERNAL : Z := 20.
Definition RANK_TERM_EXTERNAL : Z := 24.
Definition RANK_EPSILON : Z := 1.

(** ** Vocabulary *)

(** [[A-Z0-9]] *)
Definition word_char (a : ascii) : bool := is_digit a || ((65 <=? code a) && (code a <=? 90)).

Definition word_start (s : string) : bool := match s with "" => false | String a _ => word_char a end.

(** [/(^|[^A-Z0-9])FS($|[^A-Z0-9])/], [free] telling that no word character
    comes just before. *)
Fixpoint fs_token (free : bool) (s : string) : bool :=
  (free && starts_with "FS" s && negb (word_start (slice_from 2 s)))
  || match s with "" => false | String a s => fs_token (negb (word_char a)) s end.

Definition isPlatformAlias (name : string) : bool :=
  let up := upper name in
  contains "SBC" up || contains "VIP" up || contains "FREESWITCH" up || contains "SERVICES" up || fs_token true up.

(** [name.slice(0, name.indexOf('-'))], all of [name] when there is no dash. *)
Fixpoint before_dash (name : string) : string :=
  match name with "" => "" | String a s => if (code a =? 45) then "" else String a (before_dash s) end.

Definition matchesCarrierVocab (name : string) : bool :=
  includes ["BW"; "BANDWIDTH"; "SINCH"] (upper (before_dash name)).

(** [/SIG[-_]?VIP|SIGNALING/i] *)
Definition SIGVIP_NAME_RE (id : string) : bool :=
  let up := upper id in
  contains "SIGVIP" up || contains "SIG-VIP" up || contains "SIG_VIP" up || contains "SIGNALING" up.

(** ** The passes *)

Section order.
Context (participants : list OrderParticipant) (messages : list OrderWireMessage).

Definition roleById : list (string * NodeRole) := om_of_list (List.map (λ p, (op_id p, op_role p)) participants).

Definition isExternal (id : string) : bool :=
  match om_get id roleById with
  | Some carrier_ingress | Some carrier_egress => true
  | None | Some unknown_role => negb (isPlatformAlias id)
  | Some _ => false
  end.

(** What pass 1 collects, [sn_at] being its index. *)
Record Scan := {
  sn_at : nat;
  sn_first : list (string * nat);
  sn_sent : list string;
  sn_received : list string;
  sn_orig : option string;
  sn_term : option string;
}.

Definition note_first (id : string) (i : nat) (m : list (string * nat)) : list (string * nat) :=
  if om_has id m then m else om_set id i m.

Definition scan_step (s : Scan) (m : OrderWireMessage) : Scan :=
  let first := note_first (om_dst m) (sn_at s) (note_first (om_src m) (sn_at s) (sn_first s)) in
  if negb (om_isInviteRequest m)
  then Build_Scan (S (sn_at s)) first (sn_sent s) (sn_received s) (sn_orig s) (sn_term s)
  else
    let out := isExternal (om_src m) in
    let into := isExternal (om_dst m) in
    Build_Scan (S (sn_at s)) first
      (if out then sn_sent s ++ [om_src m] else sn_sent s)
      (if into then sn_received s ++ [om_dst m] else sn_received s)
      (if out then match sn_orig s with None => Some (om_src m) | o => o end else sn_orig s)
      (if into then Some (om_dst m) else sn_term s).

Definition scanned : Scan := fold_left scan_step messages (Build_Scan 0 [] [] [] None None).

Definition orig : option string := sn_orig scanned.

(** One external endpoint only: no termination column. *)
Definition term : option string :=
  if sn_term scanned ==? orig then None else sn_term scanned.

(** [None]: no verdict from the messages so far; [receives]: one came in. *)
Fixpoint signaling_walk (id : string) (ms : list OrderWireMessage) (receives : bool) : bool :=
  match ms with
  | [] => receives
  | m :: ms =>
      if (om_dst m ==? id) && isExternal (om_src m) then false
      else if (om_src m ==? id) && isExternal (om_dst m) then false
      else signaling_walk id ms (receives || (om_dst m ==? id))
  end.

Definition isSignalingVip (id : string) : bool := SIGVIP_NAME_RE id || signaling_walk id messages false.

(** Pass 2: the rank of a participant, [None] when it is left to pass 3. *)
Definition first_rank (p : OrderParticipant) : option Z :=
  let id := op_id p in
  if isExternal id then
    if Some id ==? orig then Some RANK_ORIG_EXTERNAL
    else if Some id ==? term then Some RANK_TERM_EXTERNAL
    else if includes (sn_received scanned) id then Some RANK_EGRESS_EXTERNAL
    else if includes (sn_sent scanned) id then Some RANK_ORIG_EXTERNAL
    else None
  else match op_role p with
       | sbc_vip => Some (if isSignalingVip id then RANK_SIGNALING_VIP else RANK_EXTERNAL_VIP)
       | sbc => Some RANK_SBC_A
       | media_server => Some RANK_MEDIA
       | _ => None
       end.

Definition rank_step (acc : list (string * Z) * list string) (p : OrderParticipant) : list (string * Z) * list string :=
  match first_rank p with
  | Some r => (om_set (op_id p) r acc.1, acc.2)
  | None => (acc.1, acc.2 ++ [op_id p])
  end.

Definition clampInside (r : Z) : Z :=
  Z.min (Z.max r (RANK_ORIG_EXTERNAL + RANK_EPSILON)) (RANK_TERM_EXTERNAL - RANK_EPSILON).

(** Where the first ranked peer puts [id]. *)
Definition peer_of (id : string) (m : OrderWireMessage) : string := if om_src m ==? id then om_dst m else om_src m.

Definition anchored (ranks : list (string * Z)) (id : string) : option Z :=
  match find (λ m, ((om_src m ==? id) || (om_dst m ==? id)) && (om_src m !=? om_dst m)
                   && om_has (peer_of id m) ranks) messages with
  | None => None
  | Some m =>
      match om_get (peer_of id m) ranks with
      | Some peerRank =>
          Some (clampInside (if om_src m ==? id then peerRank - RANK_EPSILON else peerRank + RANK_EPSILON))
      | None => None
      end
  end.

(** One round of the loop: the first unresolved id with an anchor is ranked. *)
Fixpoint place_one (ranks : list (string * Z)) (unresolved : list string)
    : option (list (string * Z) * list string) :=
  match unresolved with
  | [] => None
  | id :: rest =>
      match anchored ranks id with
      | Some r => Some (om_set id r ranks, rest)
      | None => match place_one ranks rest with
                | Some (ranks', rest') => Some (ranks', id :: rest')
                | None => None
                end
      end
  end.

(** [while (progress && unresolved.length > 0)]: each round takes one id. *)
Fixpoint place_rounds (fuel : nat) (ranks : list (string * Z)) (unresolved : list string)
    : list (string * Z) * list string :=
  match fuel with
  | O => (ranks, unresolved)
  | S fuel => match place_one ranks unresolved with
              | Some (ranks', rest) => place_rounds fuel ranks' rest
              | None => (ranks, unresolved)
              end
  end.

Definition ranks_of : list (string * Z) :=
  let '(ranks, unresolved) := fold_left rank_step participants ([], []) in
  let '(ranks, isolated) := place_rounds (length unresolved) ranks unresolved in
  fold_left (λ r id, om_set id (clampInside (RANK_MEDIA + RANK_EPSILON)) r) isolated ranks.

(** ** The sort *)

Definition inputOrder : list (string * nat) :=
  om_of_list (imap (λ i p, (op_id p, i)) participants).

Definition MAX_SAFE_INTEGER : Z := 9007199254740991.

Definition rank_of (id : string) : Z := default 0 (om_get id ranks_of).
Definition activity_of (id : string) : Z :=
  match om_get id (sn_first scanned) with Some i => Z.of_nat i | None => MAX_SAFE_INTEGER end.
Definition input_of (id : string) : Z := Z.of_nat (default 0%nat (om_get id inputOrder)).

(** The comparator is not positive. *)
Definition column_le (a b : string) : bool :=
  if negb (rank_of a =? rank_of b) then rank_of a <? rank_of b
  else if negb (activity_of a =? activity_of b) then activity_of a <? activity_of b
  else input_of a <=? input_of b.

Definition orderedIds : list string := sort_by column_le (List.map op_id participants).

Fixpoint find_index (f : string → bool) (l : list string) : nat :=
  match l with [] => 0 | x :: l => if f x then 0 else S (find_index f l) end.

Definition tags : list (string * EndpointTag) :=
  let m := match orig with Some o => [(o, tag_orig)] | None => [] end in
  match term with Some t => om_set t tag_term m | None => m end.

Definition orderLadderColumns : OrderedColumns :=
  {| oc_orderedIds := orderedIds;
     oc_bLegInsertIndex := find_index (λ id, RANK_EGRESS_EXTERNAL <=? rank_of id) orderedIds;
     oc_endpointTags := tags |}.

(** ** The ranks *)

Definition inside (r : Z) : Prop := 1 ≤ r ≤ 23.

Lemma clampInside_inside r : inside (clampInside r).
Proof. unfold inside, clampInside, RANK_ORIG_EXTERNAL, RANK_EPSILON, RANK_TERM_EXTERNAL. lia. Qed.

Lemma first_pass ps acc id :
  NoDup (List.map op_id ps) →
  let acc' := fold_left rank_step ps acc in
  acc'.2 = acc.2 ++ List.map op_id (List.filter (λ p, bool_decide (first_rank p = None)) ps)
  ∧ (id ∉ List.map op_id ps → om_get id acc'.1 = om_get id acc.1)
  ∧ (∀ p r, p ∈ ps → op_id p = id → first_rank p = Some r → om_get id acc'.1 = Some r).
Proof.
  revert acc. induction ps as [|p ps IH]; intros acc; simpl.
  { intros _. split; [by rewrite app_nil_r|]. split; [done|]. by intros p r []%not_elem_of_nil. }
  intros [Hp Hnd]%NoDup_cons. destruct (IH (rank_step acc p) Hnd) as (IH1 & IH2 & IH3).
  split; [|split].
  - rewrite IH1. unfold rank_step. destruct (first_rank p) eqn:E; simpl; [done|]. by rewrite <- app_assoc.
  - intros Hid. rewrite not_elem_of_cons in Hid. destruct Hid as [Hne Hid]. rewrite IH2 by done.
    unfold rank_step. destruct (first_rank p); simpl; [|done]. by apply om_get_set_ne.
  - intros q r [->|Hq]%elem_of_cons; [|by apply IH3]. intros <- E. rewrite IH2 by done.
    unfold rank_step. rewrite E. simpl. apply om_get_set_eq.
Qed.

(** [ranks'] differs from [ranks] on [u] only, where it holds a rank strictly
    inside the bookends, but for the ids of [u'], still to place. *)
Definition settles (u : list string) (ranks ranks' : list (string * Z)) (u' : list string) : Prop :=
  u' ⊆ u
  ∧ (∀ id, id ∉ u → om_get id ranks' = om_get id ranks)
  ∧ (∀ id, id ∈ u → id ∈ u' ∨ ∃ r, om_get id ranks' = Some r ∧ inside r).

Lemma settles_trans u1 u2 u3 m1 m2 m3 : settles u1 m1 m2 u2 → settles u2 m2 m3 u3 → settles u1 m1 m3 u3.
Proof.
  intros (S1 & K1 & D1) (S2 & K2 & D2). split; [set_solver|]. split.
  - intros id Hid. rewrite K2 by set_solver. by apply K1.
  - intros id Hid. destruct (decide (id ∈ u2)) as [H2|H2]; [by apply D2|].
    right. rewrite K2 by done. by destruct (D1 id Hid).
Qed.

Lemma settles_set u u' id r m :
  u ⊆ id :: u' → u' ⊆ u → id ∈ u → inside r → settles u m (om_set id r m) u'.
Proof.
  intros Hu Hu' Hid Hr. split; [done|]. split.
  - intros i Hi. apply om_get_set_ne. by intros ->.
  - intros i [->|Hi]%Hu%elem_of_cons; [|by left]. right. exists r. split; [apply om_get_set_eq|done].
Qed.

Lemma anchored_inside m id r : anchored m id = Some r → inside r.
Proof.
  unfold anchored. destruct (find _ _) as [w|]; [|done]. destruct (om_get _ _); [|done].
  intros [= <-]. apply clampInside_inside.
Qed.

Lemma place_one_spec m u m' u' :
  place_one m u = Some (m', u') → settles u m m' u' ∧ length u = S (length u').
Proof.
  revert m' u'. induction u as [|id u IH]; intros m' u'; simpl; [done|].
  destruct (anchored m id) as [r|] eqn:E.
  - intros [= <- <-]. split; [|done]. apply settles_set; [done|set_solver|set_solver|by eapply anchored_inside].
  - destruct (place_one m u) as [[m1 u1]|]; [|done]. intros [= <- <-].
    destruct (IH _ _ eq_refl) as ((S1 & K1 & D1) & L1). split; [|simpl; lia].
    split; [set_solver|]. split.
    + intros i Hi. apply K1. set_solver.
    + intros i [->|Hi]%elem_of_cons; [left; set_solver|]. destruct (D1 i Hi); [left; set_solver|by right].
Qed.

Lemma place_rounds_settles fuel m u : settles u m (place_rounds fuel m u).1 (place_rounds fuel m u).2.
Proof.
  assert (∀ m u, settles u m m u) as Hrefl by (intros; split; [done|split; [done|by left]]).
  revert m u. induction fuel as [|fuel IH]; intros m u; simpl; [apply Hrefl|].
  destruct (place_one m u) as [[m1 u1]|] eqn:E; [|apply Hrefl].
  eapply settles_trans; [by apply place_one_spec|apply IH].
Qed.

(** The rounds given are enough: the loop of the code ends there too. *)
Lemma place_rounds_done m u :
  place_one (place_rounds (length u) m u).1 (place_rounds (length u) m u).2 = None.
Proof.
  remember (length u) as k eqn:Hk. revert m u Hk. induction k as [|k IH]; intros m u Hk; simpl.
  - by destruct u.
  - destruct (place_one m u) as [[m1 u1]|] eqn:E; [|done].
    apply place_one_spec in E as [_ E]. apply IH. lia.
Qed.

Lemma isolated_settles u m :
  settles u m (fold_left (λ r id, om_set id (clampInside (RANK_MEDIA + RANK_EPSILON)) r) u m) [].
Proof.
  revert m. induction u as [|id u IH]; intros m; simpl; [by split; [|split; [|left]]|].
  eapply settles_trans; [|apply IH].
  apply settles_set; [done|set_solver|set_solver|apply clampInside_inside].
Qed.

Lemma ranks_of_spec p :
  NoDup (List.map op_id participants) → p ∈ participants →
  ∃ r, om_get (op_id p) ranks_of = Some r
       ∧ match first_rank p with Some r' => r = r' | None => inside r end.
Proof.
  intros Hnd Hp. unfold ranks_of.
  destruct (first_pass participants ([], []) (op_id p) Hnd) as (H1 & _ & H3).
  destruct (fold_left rank_step participants _) as [m u]. simpl in *. subst u.
  set (u := List.map _ _). pose proof (place_rounds_settles (length u) m u) as Hs.
  destruct (place_rounds _ _ _) as [m1 u1]. simpl in Hs.
  destruct (settles_trans _ _ _ _ _ _ Hs (isolated_settles u1 m1)) as (_ & K & D).
  assert (op_id p ∈ u ↔ first_rank p = None) as Hu.
  { unfold u. rewrite elem_of_lmap. split.
    - intros (q & E & [Hq Hf]%elem_of_lfilter). apply bool_decide_eq_true in Hf.
      by rewrite (NoDup_map_inj op_id participants p q).
    - intros E. exists p. split; [done|]. apply elem_of_lfilter. by rewrite bool_decide_eq_true. }
  destruct (first_rank p) as [r|] eqn:E.
  - exists r. split; [|done]. rewrite K; [by eapply H3|]. by rewrite Hu.
  - destruct (D (op_id p)) as [[]%not_elem_of_nil|?]; [by apply Hu|done].
Qed.

(** ** The endpoints *)

Lemma scan_ok ms s :
  (∀ x, x ∈ sn_sent s → isExternal x = true ∧ ∃ m, m ∈ messages ∧ om_isInviteRequest m = true ∧ om_src m = x) →
  (∀ o, sn_orig s = Some o → o ∈ sn_sent s) →
  (∀ t, sn_term s = Some t → isExternal t = true) → ms ⊆ messages →
  let s' := fold_left scan_step ms s in
  (∀ x, x ∈ sn_sent s' → isExternal x = true ∧ ∃ m, m ∈ messages ∧ om_isInviteRequest m = true ∧ om_src m = x)
  ∧ (∀ o, sn_orig s' = Some o → o ∈ sn_sent s')
  ∧ (∀ t, sn_term s' = Some t → isExternal t = true).
Proof.
  revert s. induction ms as [|m ms IH]; intros s H1 H2 H3 Hms; simpl; [done|].
  apply IH; [| | |set_solver]; unfold scan_step; destruct (om_isInviteRequest m) eqn:Hi; simpl; try done.
  - destruct (isExternal (om_src m)) eqn:E; [|done].
    intros x [?| ->%list_elem_of_singleton]%elem_of_app; [by apply H1|]. split; [done|]. exists m. set_solver.
  - destruct (isExternal (om_src m)) eqn:E; [|done].
    destruct (sn_orig s); intros o [= <-]; [apply elem_of_app; left; by apply H2|set_solver].
  - destruct (isExternal (om_dst m)) eqn:E; [|done]. by intros t [= <-].
Qed.

Lemma scanned_ok :
  (∀ x, x ∈ sn_sent scanned → isExternal x = true ∧ ∃ m, m ∈ messages ∧ om_isInviteRequest m = true ∧ om_src m = x)
  ∧ (∀ o, orig = Some o → o ∈ sn_sent scanned)
  ∧ (∀ t, sn_term scanned = Some t → isExternal t = true).
Proof.
  apply scan_ok; simpl; try done. by intros x []%not_elem_of_nil.
Qed.

Lemma term_external t : term = Some t → isExternal t = true ∧ Some t ≠ orig.
Proof.
  unfold term. case_bool_decide as E; [done|]. intros H. split; [by apply scanned_ok|]. congruence.
Qed.

(** The INVITEs out of, and into, the platform. *)
Definition invites_from : list string :=
  List.map om_src (List.filter (λ m, om_isInviteRequest m && isExternal (om_src m)) messages).
Definition invites_to : list string :=
  List.map om_dst (List.filter (λ m, om_isInviteRequest m && isExternal (om_dst m)) messages).

Lemma scan_endpoints ms s :
  let s' := fold_left scan_step ms s in
  sn_orig s' = match sn_orig s with
               | None => head (List.map om_src (List.filter (λ m, om_isInviteRequest m && isExternal (om_src m)) ms))
               | o => o
               end
  ∧ sn_term s' = match last (List.map om_dst (List.filter (λ m, om_isInviteRequest m && isExternal (om_dst m)) ms)) with
                 | None => sn_term s
                 | t => t
                 end.
Proof.
  revert s. induction ms as [|m ms IH]; intros s; simpl; [by destruct (sn_orig s)|].
  destruct (IH (scan_step s m)) as [-> ->]. unfold scan_step.
  destruct (om_isInviteRequest m); simpl; [|done].
  destruct (isExternal (om_src m)), (isExternal (om_dst m)); simpl; split; try done;
    try (by destruct (sn_orig s)); rewrite last_cons; by destruct (last _).
Qed.

Lemma orig_spec : orig = head invites_from.
Proof. by destruct (scan_endpoints messages (Build_Scan 0 [] [] [] None None)). Qed.

Lemma term_spec : term = if last invites_to ==? head invites_from then None else last invites_to.
Proof.
  unfold term. rewrite orig_spec. unfold scanned.
  destruct (scan_endpoints messages (Build_Scan 0 [] [] [] None None)) as [_ ->]. simpl.
  fold invites_to. by destruct (last invites_to).
Qed.

(** ** The order *)

Lemma first_rank_bounds p r :
  first_rank p = Some r →
  0 ≤ r ≤ 24 ∧ (r = 24 → term = Some (op_id p)) ∧ (r = 0 → op_id p ∈ sn_sent scanned).
Proof.
  destruct scanned_ok as (_ & Ho & _). unfold first_rank, RANK_ORIG_EXTERNAL, RANK_TERM_EXTERNAL, RANK_EGRESS_EXTERNAL,
    RANK_SIGNALING_VIP, RANK_EXTERNAL_VIP, RANK_SBC_A, RANK_MEDIA.
  destruct (isExternal _).
  - case_bool_decide as E1; [intros [= <-]; split; [lia|split; [done|by intros _; apply Ho]]|].
    case_bool_decide as E2; [intros [= <-]; split; [lia|split; [done|lia]]|].
    destruct (includes _ _); [intros [= <-]; lia|].
    destruct (includes (sn_sent _) _) eqn:E; [|done]. intros [= <-].
    apply includes_true in E. split; [lia|split; [lia|done]].
  - destruct (op_role p); try done; try destruct (isSignalingVip _); intros [= <-]; lia.
Qed.

Lemma rank_of_spec id :
  NoDup (List.map op_id participants) → id ∈ List.map op_id participants →
  0 ≤ rank_of id ≤ 24
  ∧ (rank_of id = 24 ↔ term = Some id)
  ∧ (orig = Some id → rank_of id = 0)
  ∧ (rank_of id = 0 → id ∈ sn_sent scanned).
Proof.
  intros Hnd (p & -> & Hp)%elem_of_lmap. destruct (ranks_of_spec p Hnd Hp) as (r & Hr & Hf).
  unfold rank_of. rewrite Hr. simpl. destruct (first_rank p) as [r'|] eqn:E.
  - subst r'. destruct (first_rank_bounds p r E) as (H1 & H2 & H3). split; [done|]. split.
    + split; [done|]. intros Ht. destruct (term_external _ Ht) as [Hx Hne]. revert E. unfold first_rank.
      rewrite Hx, bool_decide_eq_false_2, bool_decide_eq_true_2 by done. by intros [= <-].
    + split; [|done]. intros Ho. revert E. unfold first_rank.
      assert (isExternal (op_id p) = true) as ->.
      { destruct scanned_ok as (Hx & Hs & _). by apply Hx, Hs. }
      rewrite bool_decide_eq_true_2 by done. by intros [= <-].
  - unfold inside in Hf. split; [lia|]. unfold first_rank in E. split; [|split; [|lia]].
    + split; [lia|]. intros Ht. destruct (term_external _ Ht) as [Hx Hne]. rewrite Hx in E.
      rewrite bool_decide_eq_false_2, bool_decide_eq_true_2 in E by done. done.
    + intros Ho. assert (isExternal (op_id p) = true) as Hx.
      { destruct scanned_ok as (Hx & Hs & _). by apply Hx, Hs. }
      rewrite Hx, bool_decide_eq_true_2 in E by done. done.
Qed.

Lemma column_le_true a b :
  column_le a b = true ↔
  rank_of a < rank_of b
  ∨ rank_of a = rank_of b ∧ (activity_of a < activity_of b
                             ∨ activity_of a = activity_of b ∧ input_of a ≤ input_of b).
Proof.
  unfold column_le. destruct (rank_of a =? rank_of b) eqn:E1; simpl; [|lia].
  destruct (activity_of a =? activity_of b) eqn:E2; simpl; lia.
Qed.

Lemma column_le_total a b : column_le a b = true ∨ column_le b a = true.
Proof. rewrite !column_le_true. lia. Qed.

Lemma column_le_trans a b c : column_le a b = true → column_le b c = true → column_le a c = true.
Proof. rewrite !column_le_true. lia. Qed.

Lemma ordered_before l1 l2 x y : orderedIds = l1 ++ l2 → x ∈ l1 → y ∈ l2 → rank_of x ≤ rank_of y.
Proof.
  intros E Hx Hy. assert (column_le x y = true) as H; [|rewrite column_le_true in H; lia].
  eapply sort_by_before; eauto using column_le_total, column_le_trans.
Qed.

Lemma find_index_split f l :
  (∀ l1 l2 x y, l = l1 ++ l2 → x ∈ l1 → y ∈ l2 → f x = true → f y = true) →
  ∀ i x, l !! i = Some x → (find_index f l ≤ i)%nat ↔ f x = true.
Proof.
  induction l as [|z l IH]; intros Hf i x Hi; [done|]. simpl. destruct (f z) eqn:Ez.
  - split; [|lia]. intros _. destruct i as [|i]; simpl in Hi; [congruence|].
    apply (Hf [z] l z); [done|set_solver|by apply list_elem_of_lookup_2 in Hi|done].
  - destruct i as [|i]; simpl in Hi; [simplify_eq; rewrite Ez; split; [lia|done]|].
    rewrite <- (IH (λ l1 l2 a b E Ha Hb, Hf (z :: l1) l2 a b ltac:(by rewrite E) ltac:(by apply elem_of_cons; right) Hb) i x Hi).
    lia.
Qed.
End order.

Lemma tags_spec participants messages id :
  (om_get id (tags participants messages) = Some tag_orig ↔ orig participants messages = Some id)
  ∧ (om_get id (tags participants messages) = Some tag_term ↔ term participants messages = Some id).
Proof.
  pose proof (term_external participants messages) as H. unfold tags.
  destruct (term participants messages) as [t|]; [specialize (H t eq_refl) as [_ H]|];
    destruct (orig participants messages) as [o|]; simpl in *;
    repeat case_bool_decide; simpl; repeat case_bool_decide; naive_solver.
Qed.

Lemma sent_invites participants messages x :
  x ∈ sn_sent (scanned participants messages) → x ∈ invites_from participants messages.
Proof.
  intros (Hx & m & Hm & Hi & <-)%scanned_ok. apply elem_of_lmap. exists m. split; [done|].
  apply elem_of_lfilter. split; [done|]. by rewrite Hi, Hx.
Qed.

(** The columns of the ladder are its participants, each once.  The
    origination is the source of the earliest INVITE sent from outside and
    the termination the target of the last one sent outside, unless they are
    the same endpoint; the termination column is the last one, only outside
    endpoints that sent an INVITE themselves may stand left of the
    origination, and the splice index of the B-leg columns is where the
    egress ranks begin. *)
Theorem ladder_bookends participants messages :
  NoDup (List.map op_id participants) →
  let r := orderLadderColumns participants messages in
  oc_orderedIds r ≡ₚ List.map op_id participants
  ∧ (∀ o, om_get o (oc_endpointTags r) = Some tag_orig ↔ head (invites_from participants messages) = Some o)
  ∧ (∀ t, om_get t (oc_endpointTags r) = Some tag_term ↔
          last (invites_to participants messages) = Some t ∧ head (invites_from participants messages) ≠ Some t)
  ∧ (∀ t, om_get t (oc_endpointTags r) = Some tag_term → t ∈ oc_orderedIds r → last (oc_orderedIds r) = Some t)
  ∧ (∀ o l1 l2 x, om_get o (oc_endpointTags r) = Some tag_orig → oc_orderedIds r = l1 ++ o :: l2 → x ∈ l1 →
       x ∈ invites_from participants messages)
  ∧ (∀ i x, oc_orderedIds r !! i = Some x →
       (oc_bLegInsertIndex r ≤ i)%nat ↔ 20 ≤ rank_of participants messages x).
Proof.
  intros Hnd r.
  assert (orderedIds participants messages ≡ₚ List.map op_id participants) as Hp by apply sort_by_perm.
  assert (∀ x, x ∈ orderedIds participants messages → x ∈ List.map op_id participants) as Hin by (intros x; by rewrite Hp).
  split; [done|]. split; [|split; [|split; [|split]]].
  - intros o. simpl. by rewrite (proj1 (tags_spec _ _ _)), orig_spec.
  - intros t. simpl. rewrite (proj2 (tags_spec _ _ _)), term_spec.
    case_bool_decide as E.
    + split; [done|]. intros [H1 H2]. congruence.
    + split; [|by intros [? _]]. intros H. split; [done|]. congruence.
  - intros t Ht (l1 & l2 & E)%list_elem_of_split. simpl in *. apply tags_spec in Ht.
    destruct l2 as [|y l2]; [by rewrite E, last_snoc|]. exfalso.
    assert (NoDup (orderedIds participants messages)) as Hnd' by by rewrite Hp.
    assert (rank_of participants messages t ≤ rank_of participants messages y) as Hle.
    { apply (ordered_before _ _ (l1 ++ [t]) (y :: l2)); [by rewrite <- app_assoc|set_solver|set_solver]. }
    assert (t ∈ List.map op_id participants ∧ y ∈ List.map op_id participants) as [Ht' Hy] by
      (split; apply Hin; rewrite E; set_solver).
    destruct (rank_of_spec _ messages t Hnd Ht') as (_ & Et & _).
    destruct (rank_of_spec _ messages y Hnd Hy) as (By & Ey & _).
    apply Et in Ht as Ht24. assert (term participants messages = Some y) by (apply Ey; lia).
    rewrite E in Hnd'. apply NoDup_app in Hnd' as (_ & _ & [Hn _]%NoDup_cons). apply Hn. set_solver.
  - intros o l1 l2 x Ho E Hx. simpl in *. apply tags_spec in Ho. apply sent_invites.
    assert (rank_of participants messages x ≤ rank_of participants messages o) as Hle.
    { apply (ordered_before _ _ l1 (o :: l2)); [done|done|set_solver]. }
    assert (o ∈ List.map op_id participants ∧ x ∈ List.map op_id participants) as [Ho' Hx'] by
      (split; apply Hin; rewrite E; set_solver).
    destruct (rank_of_spec _ messages o Hnd Ho') as (_ & _ & Eo & _).
    destruct (rank_of_spec _ messages x Hnd Hx') as (Bx & _ & _ & Ex).
    apply Ex. specialize (Eo Ho). lia.
  - intros i x. simpl. intros Hi. rewrite (find_index_split _ _) with (x := x); [|clear i x Hi|done].
    + unfold RANK_EGRESS_EXTERNAL. lia.
    + intros l1 l2 x y E Hx Hy. pose proof (ordered_before _ _ _ _ _ _ E Hx Hy).
      unfold RANK_EGRESS_EXTERNAL. lia.
Qed.

(** A call over two carriers with a failover, and the endpoints of its
    ladder. *)
Definition sample_participants : list OrderParticipant :=
  [ Build_OrderParticipant "BW-DAL" unknown_role; Build_OrderParticipant "West-SBC-2" sbc;
    Build_OrderParticipant "FS-1" media_server; Build_OrderParticipant "Sinch-Denver" carrier_ingress;
    Build_OrderParticipant "10.1.2.3" unknown_role; Build_OrderParticipant "West-SBC-SigVIP" sbc_vip;
    Build_OrderParticipant "West-SBC-VIP" sbc_vip; Build_OrderParticipant "Sinch-LA" unknown_role ].

Definition sample_wire : list OrderWireMessage :=
  [ Build_OrderWireMessage "Sinch-Denver" "West-SBC-VIP" true; Build_OrderWireMessage "West-SBC-VIP" "West-SBC-2" true;
    Build_OrderWireMessage "West-SBC-2" "FS-1" true; Build_OrderWireMessage "FS-1" "West-SBC-SigVIP" true;
    Build_OrderWireMessage "West-SBC-SigVIP" "West-SBC-2" true; Build_OrderWireMessage "West-SBC-2" "Sinch-LA" true;
    Build_OrderWireMessage "Sinch-LA" "West-SBC-2" false; Build_OrderWireMessage "West-SBC-2" "BW-DAL" true;
    Build_OrderWireMessage "10.1.2.3" "FS-1" false ].

Example sample_order :
  orderLadderColumns sample_participants sample_wire
  = {| oc_orderedIds := ["Sinch-Denver"; "West-SBC-VIP"; "West-SBC-2"; "10.1.2.3"; "FS-1"; "West-SBC-SigVIP"; "Sinch-LA"; "BW-DAL"];
       oc_bLegInsertIndex := 6; oc_endpointTags := [("Sinch-Denver", tag_orig); ("BW-DAL", tag_term)] |}.
Proof. vm_compute. reflexivity. Qed.

Lemma ladder_bookends_witness :
  NoDup (List.map op_id sample_participants)
  ∧ last (oc_orderedIds (orderLadderColumns sample_participants sample_wire)) = Some "BW-DAL".
Proof.
  assert (NoDup (List.map op_id sample_participants)) as H by (apply (bool_decide_unpack _); vm_compute; exact I).
  split; [exact H|]. destruct (ladder_bookends sample_participants sample_wire H) as (_ & _ & _ & Ht & _).
  apply Ht; rewrite sample_order; [reflexivity|]. apply (bool_decide_unpack _). vm_compute. exact I.
Defined.

(** The origination is not always leftmost: a second outside endpoint that
    sent an INVITE later, but something else before, stands left of it. *)
Lemma orig_not_leftmost :
  let wire := [ Build_OrderWireMessage "BW-DAL" "West-SBC-2" false; Build_OrderWireMessage "Sinch-LA" "West-SBC-2" true;
                Build_OrderWireMessage "BW-DAL" "West-SBC-2" true ] in
  let r := orderLadderColumns [Build_OrderParticipant "Sinch-LA" unknown_role; Build_OrderParticipant "BW-DAL" unknown_role;
                               Build_OrderParticipant "West-SBC-2" sbc] wire in
  om_get "Sinch-LA" (oc_endpointTags r) = Some tag_orig
  ∧ oc_orderedIds r = ["BW-DAL"; "Sinch-LA"; "West-SBC-2"].
Proof. split; vm_compute; reflexivity. Qed.
