(* ===== verification/IvrError.v ===== *)
(** * The API's errors ([api/client.ts], [pages/ivr/ivrData.ts])

    What a failed request throws, the record the IVR pages read out of its
    body, and the wording for the customer. *)
From S2P Require Import Prelude JsString JsValue.

Local Open Scope string_scope.
Local Open Scope Z_scope.
Local Open Scope list_scope.

(** [class ApiError]; [ae_raw] is [undefined] when there was no body. *)
Record ApiError := {
  ae_status : Z;
  ae_message : string;
  ae_raw : value;
}.

(** What a [catch] sees: an [ApiError], or anything else (the network). *)
Inductive thrown := api_error (e : ApiError) | other_error.

Record Issue := {
  is_code : string;
  is_message : string;
  is_node_id : option string;
  is_handle : option string;
}.

Record IvrErrorBody := {
  eb_code : option string;
  eb_currentRevision : option num;
  eb_errors : list Issue;
  eb_flows : list string;
}.

Definition no_body : IvrErrorBody := Build_IvrErrorBody None None [] [].

Definition asIssue (i : obj) : option Issue :=
  match get "message" i with
  | VStr message =>
      Some {| is_code := default "invalid" (as_string (get "code" i)); is_message := message;
              is_node_id := as_string (get "node_id" i); is_handle := as_string (get "handle" i) |}
  | _ => None
  end.

Definition asIssues (v : value) : list Issue :=
  match v with VArr l => omap asIssue (omap as_record l) | _ => [] end.

(** A flow given by its name or by an object with one. *)
Definition flow_title (f : value) : option string :=
  match f with VStr s => Some s | VObj o => as_string (get "name" o) | _ => None end.

Definition error_code (top inner : obj) : option string :=
  match get "detail" top with
  | VStr s => Some s
  | _ => match get "code" inner with
         | VStr s => Some s
         | _ => as_string (get "detail" inner)
         end
  end.

Definition readIvrError (err : thrown) : IvrErrorBody :=
  match err with
  | other_error => no_body
  | api_error e =>
      match ae_raw e with
      | VObj top =>
          let inner := match get "detail" top with VObj o => o | _ => [] end in
          let merged := spread (spread [] inner) top in
          {| eb_code := error_code top inner;
             eb_currentRevision := as_number (get "current_revision" merged);
             eb_errors := asIssues (get "errors" merged);
             eb_flows := match get "flows" merged with VArr l => omap flow_title l | _ => [] end |}
      | _ => no_body
      end
  end.

Definition isIvrError (err : thrown) (status : Z) (code : string) : bool :=
  match err with
  | api_error e => (ae_status e =? status) && (eb_code (readIvrError err) ==? Some code)
  | other_error => false
  end.

(** The wording of a code; [None]: the status decides. *)
Definition code_text (code : option string) (flows : list string) : option string :=
  if code ==? Some "ivr_not_enabled" then Some "IVR isn’t switched on for this account."
  else if code ==? Some "customer_id required" then Some "Pick a customer first."
  else if code ==? Some "stale_revision" then Some "This flow was changed somewhere else since you opened it."
  else if code ==? Some "flow_in_use"
  then Some "A number still uses this flow. Point the number at another flow first."
  else if code ==? Some "prompt_in_use"
  then Some (match flows with
             | [] => "This message is still used by a flow. Remove it from the flow first."
             | _ => "This message is still used by " +:+ join ", " (List.map (λ f, "“" +:+ f +:+ "”") flows)
                    +:+ ". Remove it from " +:+ (match flows with [_] => "that flow" | _ => "those flows" end)
                    +:+ " first."
             end)
  else if code ==? Some "invalid_flow" then Some "The flow has problems to fix before it can be published."
  else None.

Definition status_text (e : ApiError) (fallback : string) : string :=
  let s := ae_status e in
  if s =? 429 then "Too many previews in a minute. Wait a moment and try again."
  else if s =? 503 then "The IVR service is temporarily unavailable. Try again in a minute."
  else if s =? 403 then "You don’t have permission to do that."
  else if s =? 404 then "That item no longer exists. Refresh the page."
  else if s =? 413 then "That file is too large."
  else if 500 <=? s then fallback
  else if negb (ae_message e ==? "") && negb (starts_with "{" (ae_message e)) then ae_message e
  else fallback.

Definition ivrErrorText (err : thrown) (fallback : string) : string :=
  match err with
  | other_error => fallback
  | api_error e =>
      let b := readIvrError err in
      default (status_text e fallback) (code_text (eb_code b) (eb_flows b))
  end.

(** The three shapes the API wraps an error in read the same: the code
    beside its details, or nested with them under [detail] as [code] or as
    [detail]. *)
Theorem readIvrError_wraps status message code o :
  NoDup (om_keys o) → "detail" ∉ om_keys o → "code" ∉ om_keys o →
  let read raw := readIvrError (api_error (Build_ApiError status message (VObj raw))) in
  let nested k := read [("detail", VObj ((k, VStr code) :: o))] in
  read (("detail", VStr code) :: o) = nested "code" ∧ nested "detail" = nested "code"
  ∧ eb_code (nested "code") = Some code
  ∧ eb_currentRevision (nested "code") = as_number (get "current_revision" o).
Proof.
  intros Hnd Hd Hc.
  assert (∀ k v, k ∉ om_keys o → NoDup (om_keys ((k, v) :: o))) as Hcons by (intros; by apply NoDup_cons).
  assert (∀ k x v, k ∉ om_keys o → get x ((k, v) :: o) = if k ==? x then v else get x o) as Hget.
  { intros. unfold get. simpl. by case_bool_decide. }
  assert (∀ x k, k ∉ om_keys o → k ≠ x → "detail" ≠ x →
    get x (spread (spread [] ((k, VStr code) :: o)) [("detail", VObj ((k, VStr code) :: o))]) = get x o) as Hnest.
  { intros x k Hk Hne Hx. rewrite get_spread by (apply NoDup_singleton).
    rewrite (proj2 (om_has_false _ _)) by (simpl; set_solver).
    rewrite spread_nil by auto. rewrite Hget by done. by rewrite bool_decide_eq_false_2. }
  assert (∀ x, "detail" ≠ x → get x (spread (spread [] []) (("detail", VStr code) :: o)) = get x o) as Hflat.
  { intros x Hx. rewrite get_spread by auto. rewrite Hget, bool_decide_eq_false_2 by done.
    destruct (om_has x _) eqn:E; [done|]. apply om_has_false in E. unfold get.
    rewrite (proj2 (om_get_None x o)); [done|set_solver]. }
  unfold readIvrError. cbn [ae_raw]. unfold error_code.
  change (get "detail" (("detail", VStr code) :: o)) with (VStr code).
  change (get "detail" [("detail", VObj (("code", VStr code) :: o))]) with (VObj (("code", VStr code) :: o)).
  change (get "detail" [("detail", VObj (("detail", VStr code) :: o))]) with (VObj (("detail", VStr code) :: o)).
  cbv iota. rewrite !Hnest, !Hflat, !Hget by done. simpl.
  assert (get "code" o = VUndef) as -> by (unfold get; by rewrite (proj2 (om_get_None "code" o))). done.
Qed.

Lemma readIvrError_wraps_witness :
  eb_currentRevision (readIvrError (api_error (Build_ApiError 409 "stale_revision"
    (VObj [("detail", VObj [("code", VStr "stale_revision"); ("current_revision", vint 7)])])))) = Some (num_of_Z 7).
Proof.
  refine (proj2 (proj2 (proj2 (readIvrError_wraps 409 "stale_revision" "stale_revision"
    [("current_revision", vint 7)] _ _ _)))); apply (bool_decide_unpack _); vm_compute; exact I.
Defined.
