(* ===== verification/Autosave.v ===== *)
(** * Autosave ([flow/useAutosave.ts])

    The hook as a state machine around the builder's store.  Every event
    handler of the hook is one function: a store update and its listener, the
    timeout, the answer of a request, and the three calls it offers.  What
    awaits the request in flight is a list of continuations, run in the order
    they were registered once it is answered. *)
From S2P Require Import Prelude JsString JsValue Graph FlowState Store IvrError.

Local Open Scope string_scope.
Local Open Scope Z_scope.
Local Open Scope list_scope.

Inductive SaveStatus :=
  | st_saved (at_ : option Z)
  | st_pending
  | st_saving
  | st_error (message : string) (retryInMs : option Z)
  | st_conflict (currentRevision : option Z)
  | st_readonly.

Definition is_conflict (s : SaveStatus) : bool := match s with st_conflict _ => true | _ => false end.
Definition is_error (s : SaveStatus) : bool := match s with st_error _ _ => true | _ => false end.
Definition is_saving (s : SaveStatus) : bool := match s with st_saving => true | _ => false end.

Definition QUIET_MS : Z := 1200.
Definition RETRY_MS : list Z := [2000; 5000; 15000; 30000].

Definition retry_wait (attempt : nat) : Z :=
  default 0 (RETRY_MS !! Nat.min attempt (length RETRY_MS - 1)%nat).

(** [FlowUpdate]: [name] only when it changed. *)
Record FlowUpdate := {
  fu_draft_graph : value;
  fu_revision : Z;
  fu_name : option string;
}.

(** The timeout that is set: after an edit, or to retry. *)
Inductive Timer := t_quiet | t_retry (wait : Z).

(** A PUT in flight, with the change counter it saves up to. *)
Record Put := {
  pt_seq : Z;
  pt_body : FlowUpdate;
}.

(** What awaits the request in flight: the timeout that found one
    ([w_save]), a [flush] ([w_flush]), and a caller that was given its
    promise ([w_report]). *)
Inductive Waiter := w_save | w_flush | w_report.

(** [au_keeping] and
    [au_loading] count the reads [keepMine] and [loadLatest] wait for. *)
Record Auto := {
  au_store : FlowState;
  au_status : SaveStatus;
  au_inFlight : option Put;
  au_waiters : list Waiter;
  au_timer : option Timer;
  au_attempt : nat;
  au_savedName : string;
  au_keeping : nat;
  au_loading : nat;
}.

Definition with_store (x : FlowState) (a : Auto) : Auto :=
  Build_Auto x (au_status a) (au_inFlight a) (au_waiters a) (au_timer a) (au_attempt a) (au_savedName a)
    (au_keeping a) (au_loading a).
Definition with_status (x : SaveStatus) (a : Auto) : Auto :=
  Build_Auto (au_store a) x (au_inFlight a) (au_waiters a) (au_timer a) (au_attempt a) (au_savedName a)
    (au_keeping a) (au_loading a).
Definition with_put (x : option Put) (w : list Waiter) (a : Auto) : Auto :=
  Build_Auto (au_store a) (au_status a) x w (au_timer a) (au_attempt a) (au_savedName a)
    (au_keeping a) (au_loading a).
Definition with_timer (x : option Timer) (a : Auto) : Auto :=
  Build_Auto (au_store a) (au_status a) (au_inFlight a) (au_waiters a) x (au_attempt a) (au_savedName a)
    (au_keeping a) (au_loading a).
Definition with_attempt (x : nat) (a : Auto) : Auto :=
  Build_Auto (au_store a) (au_status a) (au_inFlight a) (au_waiters a) (au_timer a) x (au_savedName a)
    (au_keeping a) (au_loading a).
Definition with_savedName (x : string) (a : Auto) : Auto :=
  Build_Auto (au_store a) (au_status a) (au_inFlight a) (au_waiters a) (au_timer a) (au_attempt a) x
    (au_keeping a) (au_loading a).
Definition with_reads (k l : nat) (a : Auto) : Auto :=
  Build_Auto (au_store a) (au_status a) (au_inFlight a) (au_waiters a) (au_timer a) (au_attempt a) (au_savedName a) k l.

Definition dirty (s : FlowState) : bool := fs_savedSeq s <? fs_changeSeq s.

(** [currentRevision] as the store's revision: revisions are whole numbers. *)
Definition revision_of (n : option num) : option Z := n ≫= Z_of_num.

Section autosave.
Context `{IdSupply} (readOnly : bool).

Definition start (s : FlowState) : Auto :=
  {| au_store := s; au_status := if readOnly then st_readonly else st_saved None; au_inFlight := None;
     au_waiters := []; au_timer := None; au_attempt := 0; au_savedName := fs_name s; au_keeping := 0; au_loading := 0 |}.

(** The store's listener, after a change from [prev]. *)
Definition listen (prev : FlowState) (a : Auto) : Auto :=
  let s := au_store a in
  if readOnly then a
  else if (fs_changeSeq s =? fs_changeSeq prev) && (fs_savedSeq s =? fs_savedSeq prev) then a
  else if negb (dirty s) || is_conflict (au_status a) then a
  else if is_error (au_status a) then a
  else with_timer (Some t_quiet) (if is_saving (au_status a) then a else with_status st_pending a).

(** The store set to [s], and the listener called. *)
Definition set_store (s : FlowState) (a : Auto) : Auto := listen (au_store a) (with_store s a).

(** [s.name.trim() || 'Untitled flow'] *)
Definition put_name (s : FlowState) : string :=
  if trim (fs_name s) ==? "" then "Untitled flow" else trim (fs_name s).

Definition put_of (revisionOverride : option Z) (a : Auto) : Put :=
  let s := au_store a in
  {| pt_seq := fs_changeSeq s;
     pt_body := {| fu_draft_graph := graph s; fu_revision := default (fs_revision s) revisionOverride;
                   fu_name := if put_name s ==? au_savedName a then None else Some (put_name s) |} |}.

(** [save]; its promise is the request in flight afterwards. *)
Definition save (revisionOverride : option Z) (a : Auto) : Auto :=
  if readOnly then a
  else match au_inFlight a with
       | Some _ => a
       | None => with_put (Some (put_of revisionOverride a)) [] (with_status st_saving a)
       end.

(** [save] with a caller that waits for what it resolves to. *)
Definition save_report (revisionOverride : option Z) (a : Auto) : Auto * list bool :=
  if readOnly then (a, [true])
  else let a := save revisionOverride a in (with_put (au_inFlight a) (au_waiters a ++ [w_report]) a, []).

(** What [flush] does once nothing is in flight. *)
Definition flush_now (a : Auto) : Auto * list bool :=
  if dirty (au_store a) then save_report None a else (a, [true]).

(** One continuation; [result] is what the request in flight resolved to. *)
Definition wake (result : bool) (acc : Auto * list bool) (w : Waiter) : Auto * list bool :=
  match w with
  | w_save => (save None acc.1, acc.2)
  | w_flush => let '(a, r) := flush_now acc.1 in (a, acc.2 ++ r)
  | w_report => (acc.1, acc.2 ++ [result])
  end.

(** What the answer says of the published version. *)
Definition published_patch (flow : Flow) : MetaPatch :=
  {| mp_id := None; mp_publishedVersion := Some (fl_published_version flow);
     mp_publishedAt := Some (fl_published_at flow); mp_numbers := Some (fl_numbers flow) |}.

Definition take_saved (p : Put) (flow : Flow) (a : Auto) : Auto :=
  set_store (markSaved (pt_seq p) (fl_revision flow) (au_store a)) a.
Definition take_meta (flow : Flow) (a : Auto) : Auto := set_store (setMeta (published_patch flow) (au_store a)) a.
Definition take_status (now : Z) (a : Auto) : Auto :=
  with_status (if dirty (au_store a) then st_pending else st_saved (Some now)) (with_attempt 0 a).

(** The answer of the PUT in flight. *)
Definition answered_ok (p : Put) (flow : Flow) (now : Z) (a : Auto) : Auto :=
  take_status now (take_meta flow (take_saved p flow (with_savedName (fl_name flow) a))).

Definition answered_error (err : thrown) (a : Auto) : Auto :=
  if isIvrError err 409 "stale_revision"
  then with_status (st_conflict (revision_of (eb_currentRevision (readIvrError err)))) a
  else
    let wait := retry_wait (au_attempt a) in
    with_timer (Some (t_retry wait))
      (with_status (st_error (ivrErrorText err "Couldn’t save your changes.") (Some wait))
         (with_attempt (S (au_attempt a)) a)).

Definition answered (answer : Flow + thrown) (now : Z) (a : Auto) : Auto * list bool :=
  match au_inFlight a with
  | None => (a, [])
  | Some p =>
      let waiters := au_waiters a in
      let a1 := match answer with inl flow => answered_ok p flow now a | inr err => answered_error err a end in
      let result := match answer with inl _ => negb (dirty (au_store a1)) | inr _ => false end in
      fold_left (wake result) waiters (with_put None [] a1, [])
  end.

(** The delay of a timeout. *)
Definition delay (t : Timer) : Z := match t with t_quiet => QUIET_MS | t_retry wait => wait end.

(** The timeout: after an edit it waits for the request in flight first. *)
Definition fire (a : Auto) : Auto :=
  match au_timer a with
  | None => a
  | Some t =>
      let a := with_timer None a in
      match t, au_inFlight a with
      | t_quiet, Some _ => with_put (au_inFlight a) (au_waiters a ++ [w_save]) a
      | _, _ => save None a
      end
  end.

Definition flush (a : Auto) : Auto * list bool :=
  if readOnly then (a, [true])
  else if is_conflict (au_status a) then (a, [false])
  else
    let a := with_timer None a in
    match au_inFlight a with
    | Some _ => (with_put (au_inFlight a) (au_waiters a ++ [w_flush]) a, [])
    | None => flush_now a
    end.

(** [keepMine] with the revision to overwrite. *)
Definition keep_at (rev : Z) (a : Auto) : Auto * list bool :=
  save_report (Some rev) (set_store (setRevision rev (au_store a)) a).

Definition keepMine (a : Auto) : Auto * list bool :=
  match au_status a with
  | st_conflict (Some rev) => keep_at rev a
  | _ => (with_reads (S (au_keeping a)) (au_loading a) a, [])
  end.

Definition keepMine_read (answer : Flow + thrown) (a : Auto) : Auto * list bool :=
  match au_keeping a with
  | O => (a, [])
  | S k =>
      let a := with_reads k (au_loading a) a in
      match answer with
      | inl flow => keep_at (fl_revision flow) a
      | inr err => (with_status (st_error (ivrErrorText err "Couldn’t reach the server.") None) a, [false])
      end
  end.

Definition loadLatest (a : Auto) : Auto := with_reads (au_keeping a) (S (au_loading a)) a.

Definition loadLatest_read (answer : Flow + thrown) (now : Z) (a : Auto) : Auto * list bool :=
  match au_loading a with
  | O => (a, [])
  | S l =>
      let a := with_reads (au_keeping a) l a in
      match answer with
      | inl flow =>
          let a := with_savedName (fl_name flow) (with_timer None a) in
          let a := set_store (load now flow false (au_store a)) a in
          (with_status (st_saved (Some now)) a, [true])
      | inr err => (with_status (st_error (ivrErrorText err "Couldn’t load the latest version.") None) a, [false])
      end
  end.

(** [onBeforeUnload]: whether the browser asks. *)
Definition unload_asks (a : Auto) : bool :=
  negb readOnly && (dirty (au_store a) || is_saving (au_status a) || is_conflict (au_status a)).

(** Leaving the builder: the timeout is dropped and what is pending sent. *)
Definition unmount (a : Auto) : Auto :=
  let a := with_timer None a in
  if readOnly then a
  else if dirty (au_store a) && negb (is_conflict (au_status a)) && (au_inFlight a ==? None) then save None a
  else a.
End autosave.

Arguments save : simpl never.
Arguments flush_now : simpl never.
Arguments set_store : simpl never.
