(* ===== verification/AutosaveOk.v ===== *)
(** * Autosave: what it promises

    The events of a session, their composition with the builder's actions,
    and the theorems: what is reported saved is what the builder shows, every
    PUT carries a revision the builder was given, and an edit is always on its
    way to the server. *)
From S2P Require Import Prelude JsString JsValue Blocks Graph History FlowState Store StoreOk StoreRun IvrError Autosave.

Local Open Scope string_scope.
Local Open Scope Z_scope.
Local Open Scope list_scope.

(** ** A session *)

Inductive event :=
  | ev_act (now : Z) (act_ : action)
  | ev_fire
  | ev_answer (answer : Flow + thrown) (now : Z)
  | ev_flush
  | ev_keepMine
  | ev_keepMine_read (answer : Flow + thrown)
  | ev_loadLatest
  | ev_loadLatest_read (answer : Flow + thrown) (now : Z).

(** The actions the builder's components call: the two that concern the
    server's revision are autosave's own. *)
Definition own_action (a : action) : bool :=
  match a with a_markSaved _ _ | a_setRevision _ => false | _ => true end.

Section session.
Context `{IdSupply} `{!ReactFlow}.

Definition run (e : event) (a : Auto) : Auto * list bool :=
  match e with
  | ev_act now x => (set_store false (act now x (au_store a)) a, [])
  | ev_fire => (fire false a, [])
  | ev_answer answer now => answered false answer now a
  | ev_flush => flush false a
  | ev_keepMine => keepMine false a
  | ev_keepMine_read answer => keepMine_read false answer a
  | ev_loadLatest => (loadLatest a, [])
  | ev_loadLatest_read answer now => loadLatest_read false answer now a
  end.

Definition may (e : event) (a : Auto) : Prop :=
  match e with
  | ev_act _ x => own_action x = true ∧ allowed (au_store a) x
  | _ => True
  end.

(** A draft the server gave was put on the canvas while a PUT was in flight
    ([cr_under]), and that PUT was then accepted: the server has the draft of
    before, the canvas shows the loaded one ([cr_crossed]). *)
Inductive crossing := cr_none | cr_under | cr_crossed.

(** The server as the builder has seen it: the draft it last took from the
    builder or gave to it, and whether a PUT and a load crossed. *)
Record ServerSeen := { sn_draft : value; sn_crossing : crossing }.

(** A draft given by the server is now the canvas. *)
Definition gave (a : Auto) (s : FlowState) : ServerSeen :=
  {| sn_draft := graph s; sn_crossing := match au_inFlight a with Some _ => cr_under | None => cr_none end |}.

(** The server took the draft of [p]. *)
Definition took (p : Put) (v : ServerSeen) : ServerSeen :=
  {| sn_draft := fu_draft_graph (pt_body p);
     sn_crossing := match sn_crossing v with cr_under => cr_crossed | _ => cr_none end |}.

Definition refused (v : ServerSeen) : ServerSeen :=
  {| sn_draft := sn_draft v; sn_crossing := match sn_crossing v with cr_under => cr_none | c => c end |}.

Definition last_after (e : event) (a : Auto) (last : ServerSeen) : ServerSeen :=
  match e with
  | ev_act now (a_load flow u) => gave a (load now flow u (au_store a))
  | ev_loadLatest_read (inl flow) now =>
      match au_loading a with O => last | S _ => gave a (load now flow false (au_store a)) end
  | ev_answer answer _ =>
      match au_inFlight a, answer with
      | Some p, inl _ => took p last
      | Some _, inr _ => refused last
      | None, _ => last
      end
  | _ => last
  end.

(** The revisions the builder got with a draft it shows or saved itself. *)
Definition shown_after (e : event) (a : Auto) (shown : list Z) : list Z :=
  match e with
  | ev_act _ (a_load flow _) => fl_revision flow :: shown
  | ev_answer (inl flow) _ => match au_inFlight a with Some _ => fl_revision flow :: shown | None => shown end
  | ev_loadLatest_read (inl flow) _ => match au_loading a with O => shown | S _ => fl_revision flow :: shown end
  | _ => shown
  end.

(** The revisions the customer chose to overwrite. *)
Definition kept_after (e : event) (a : Auto) (kept : list Z) : list Z :=
  match e with
  | ev_keepMine => match au_status a with st_conflict (Some rev) => rev :: kept | _ => kept end
  | ev_keepMine_read (inl flow) => match au_keeping a with O => kept | S _ => fl_revision flow :: kept end
  | _ => kept
  end.

(** A state, what the server has, the revisions shown and kept, and what the
    last event reported to its callers. *)
Inductive session (flow : Flow) : Auto → ServerSeen → list Z → list Z → list bool → Prop :=
  | session_start : session flow (start false (createFlowStore flow))
      {| sn_draft := graph (createFlowStore flow); sn_crossing := cr_none |} [fl_revision flow] [] []
  | session_step a last shown kept r e :
      session flow a last shown kept r → may e a →
      session flow (run e a).1 (last_after e a last) (shown_after e a shown) (kept_after e a kept) (run e a).2.

(** ** Frames *)

Lemma listen_frame prev a :
  au_store (listen false prev a) = au_store a ∧ au_inFlight (listen false prev a) = au_inFlight a
  ∧ au_waiters (listen false prev a) = au_waiters a ∧ au_keeping (listen false prev a) = au_keeping a
  ∧ au_loading (listen false prev a) = au_loading a.
Proof. unfold listen. by repeat case_match. Qed.

Lemma set_store_frame s a :
  au_store (set_store false s a) = s ∧ au_inFlight (set_store false s a) = au_inFlight a
  ∧ au_waiters (set_store false s a) = au_waiters a ∧ au_keeping (set_store false s a) = au_keeping a
  ∧ au_loading (set_store false s a) = au_loading a.
Proof. exact (listen_frame (au_store a) (with_store s a)). Qed.

Lemma save_store rev a : au_store (save false rev a) = au_store a.
Proof. unfold save. by case_match. Qed.

Lemma save_report_store rev a : au_store (save_report false rev a).1 = au_store a.
Proof. apply save_store. Qed.

Lemma flush_now_store a : au_store (flush_now false a).1 = au_store a.
Proof. unfold flush_now. case_match; [apply save_report_store|done]. Qed.

Lemma wakes_store result ws a r : au_store (fold_left (wake false result) ws (a, r)).1 = au_store a.
Proof.
  revert a r. induction ws as [|w ws IH]; intros a r; [done|]. simpl. destruct w; simpl.
  - rewrite IH. apply save_store.
  - destruct (flush_now false a) as [a' r'] eqn:E. rewrite IH. rewrite <- (flush_now_store a). by rewrite E.
  - apply IH.
Qed.

Lemma set_store_store s a : au_store (set_store false s a) = s.
Proof. apply set_store_frame. Qed.

Lemma with_savedName_store n a : au_store (with_savedName n a) = au_store a.
Proof. reflexivity. Qed.

Lemma with_timer_store x a : au_store (with_timer x a) = au_store a.
Proof. reflexivity. Qed.

Lemma with_reads_store k l a : au_store (with_reads k l a) = au_store a.
Proof. reflexivity. Qed.

Lemma with_status_store x a : au_store (with_status x a) = au_store a.
Proof. reflexivity. Qed.

Lemma with_put_store x w a : au_store (with_put x w a) = au_store a.
Proof. reflexivity. Qed.

Lemma take_saved_store p flow a :
  au_store (take_saved false p flow a) = markSaved (pt_seq p) (fl_revision flow) (au_store a).
Proof. apply set_store_store. Qed.

Lemma take_meta_store flow a : au_store (take_meta false flow a) = setMeta (published_patch flow) (au_store a).
Proof. apply set_store_store. Qed.

Lemma take_status_store now a : au_store (take_status now a) = au_store a.
Proof. reflexivity. Qed.

Lemma answered_ok_store p flow now a :
  au_store (answered_ok false p flow now a)
  = setMeta (published_patch flow) (markSaved (pt_seq p) (fl_revision flow) (au_store a)).
Proof.
  unfold answered_ok. rewrite take_status_store, take_meta_store, take_saved_store, with_savedName_store. reflexivity.
Qed.

Lemma answered_error_frame err a :
  au_store (answered_error err a) = au_store a ∧ au_inFlight (answered_error err a) = au_inFlight a.
Proof. unfold answered_error. by case_match. Qed.

Lemma answered_store answer now a :
  au_store (answered false answer now a).1
  = match au_inFlight a, answer with
    | Some p, inl flow => setMeta (published_patch flow) (markSaved (pt_seq p) (fl_revision flow) (au_store a))
    | _, _ => au_store a
    end.
Proof.
  unfold answered. destruct (au_inFlight a) as [p|]; [|reflexivity]. rewrite wakes_store, with_put_store.
  destruct answer; [apply answered_ok_store|apply answered_error_frame].
Qed.

Lemma loadLatest_store answer now a :
  au_store (loadLatest_read false answer now a).1
  = match au_loading a, answer with
    | S _, inl flow => load now flow false (au_store a)
    | _, _ => au_store a
    end.
Proof.
  unfold loadLatest_read. destruct (au_loading a); [reflexivity|]. destruct answer; [|reflexivity]. cbn [fst].
  rewrite with_status_store, set_store_store, with_savedName_store, with_timer_store, with_reads_store. reflexivity.
Qed.

(** ** Requests *)

(** [p] was read from [s]. *)
Definition sent (s : FlowState) (p : Put) : Prop :=
  pt_seq p = fs_changeSeq s ∧ fu_draft_graph (pt_body p) = graph s ∧ fu_revision (pt_body p) = fs_revision s.

Lemma save_put rev a p :
  default (fs_revision (au_store a)) rev = fs_revision (au_store a) → au_inFlight (save false rev a) = Some p →
  au_inFlight a = Some p ∨ sent (au_store a) p.
Proof.
  intros Hr. unfold save. destruct (au_inFlight a) eqn:E; [rewrite E; by left|].
  intros [= <-]. right. by split.
Qed.

Lemma flush_now_put a p :
  au_inFlight (flush_now false a).1 = Some p → au_inFlight a = Some p ∨ sent (au_store a) p.
Proof. unfold flush_now. case_match; [by apply (save_put None)|by left]. Qed.

Lemma wakes_put result ws a r p :
  au_inFlight (fold_left (wake false result) ws (a, r)).1 = Some p →
  au_inFlight a = Some p ∨ sent (au_store a) p.
Proof.
  revert a r. induction ws as [|w ws IH]; intros a r; [by left|]. simpl. destruct w; simpl.
  - intros [Hp|Hp]%IH; [by apply (save_put None)|right]. by rewrite save_store in Hp.
  - pose proof (flush_now_put a p) as Hf. pose proof (flush_now_store a) as Hs.
    destruct (flush_now false a) as [a' r']. simpl in *. intros [Hp|Hp]%IH; [by apply Hf|right]. by rewrite Hs in Hp.
  - apply IH.
Qed.

Lemma keep_at_put rev a p :
  au_inFlight (keep_at false rev a).1 = Some p → au_inFlight a = Some p ∨ sent (au_store (keep_at false rev a).1) p.
Proof.
  unfold keep_at. rewrite save_report_store.
  set (b := set_store false (setRevision rev (au_store a)) a).
  assert (au_store b = setRevision rev (au_store a)) as Hs by apply set_store_frame.
  assert (au_inFlight b = au_inFlight a) as Hb by apply set_store_frame.
  intros Hp. rewrite <- Hb. apply (save_put (Some rev)); [by rewrite Hs|exact Hp].
Qed.

(** A request in flight was in flight, unanswered, or was just read from the
    store as it is. *)
Lemma run_put e a p :
  au_inFlight (run e a).1 = Some p →
  sent (au_store (run e a).1) p ∨ au_inFlight a = Some p ∧ ∀ answer now, e ≠ ev_answer answer now.
Proof.
  destruct e as [now x| |answer now| | |answer| |answer now]; cbn [run fst].
  - rewrite (proj1 (proj2 (set_store_frame _ _))). by right.
  - unfold fire. destruct (au_timer a) as [tm|]; [|by right].
    assert (au_inFlight (save false None (with_timer None a)) = Some p →
      sent (au_store (save false None (with_timer None a))) p ∨ au_inFlight a = Some p) as Hs.
    { intros [?|?]%(save_put None); [by right|left|done]. by rewrite save_store. }
    change (au_inFlight (with_timer None a)) with (au_inFlight a).
    destruct tm; [destruct (au_inFlight a) eqn:E|]; [by right|..];
      (intros [?|?]%Hs; [by left|by right]).
  - unfold answered. destruct (au_inFlight a) as [q|] eqn:E; [|by simpl; rewrite E].
    intros [Hp|Hp]%wakes_put; [done|]. left. by rewrite wakes_store.
  - unfold flush. destruct (is_conflict (au_status a)); [by right|].
    change (au_inFlight (with_timer None a)) with (au_inFlight a).
    destruct (au_inFlight a) eqn:E; [by right|].
    intros [Hp|?]%flush_now_put; [by simpl in Hp; congruence|left]. by rewrite flush_now_store.
  - unfold keepMine. destruct (au_status a) as [| | | |[rev|]|]; try (by right).
    intros [?|?]%keep_at_put; [by right|by left].
  - unfold keepMine_read. destruct (au_keeping a); [by right|]. destruct answer; [|by right].
    intros [?|?]%keep_at_put; [by right|by left].
  - by right.
  - unfold loadLatest_read. destruct (au_loading a); [by right|]. destruct answer; [|by right].
    cbn [fst au_inFlight with_status]. rewrite (proj1 (proj2 (set_store_frame _ _))). by right.
Qed.

(** ** The draft *)

Context `{!ReactFlowLaws}.

(** [s'] comes after [s], and is no edit of it when the counter stands. *)
Definition follows (s s' : FlowState) : Prop :=
  fs_changeSeq s ≤ fs_changeSeq s'
  ∧ (fs_changeSeq s' = fs_changeSeq s → sameSnapshot (draft_of s) (draft_of s') = true).

Lemma follows_refl s : follows s s.
Proof. split; [lia|]. intros _. apply sameSnapshot_refl. Qed.

Lemma follows_same s s' : fs_changeSeq s' = fs_changeSeq s → draft_of s' = draft_of s → follows s s'.
Proof. intros Hc Hd. split; [lia|]. intros _. rewrite Hd. apply sameSnapshot_refl. Qed.

Lemma follows_act now x s : allowed s x → follows s (act now x s).
Proof.
  intros Hx. split; [|by apply act_seen].
  pose proof (act_seqs now x s) as Hs. cbv zeta in Hs. destruct x; destruct Hs as [Hs _]; rewrite ?Hs; lia.
Qed.

Lemma load_seqs now flow u s :
  fs_changeSeq (load now flow u s) = fs_changeSeq s + 1 ∧ fs_savedSeq (load now flow u s) = fs_changeSeq s + 1.
Proof. exact (act_seqs now (a_load flow u) s). Qed.

Lemma keep_at_store rev a : au_store (keep_at false rev a).1 = setRevision rev (au_store a).
Proof. unfold keep_at. by rewrite save_report_store, set_store_store. Qed.

Lemma fire_store a : au_store (fire false a) = au_store a.
Proof. unfold fire. repeat case_match; rewrite ?save_store; done. Qed.

Lemma flush_store a : au_store (flush false a).1 = au_store a.
Proof. unfold flush. repeat case_match; rewrite ?flush_now_store; done. Qed.

Lemma keepMine_follows a : follows (au_store a) (au_store (keepMine false a).1).
Proof.
  unfold keepMine. destruct (au_status a) as [| | | |[rev|]|]; try apply follows_refl.
  rewrite keep_at_store. by apply follows_same.
Qed.

Lemma run_follows e a : may e a → follows (au_store a) (au_store (run e a).1).
Proof.
  destruct e as [now x| |answer now| | |answer| |answer now]; cbn [run fst may].
  - intros [_ Hx]. rewrite set_store_store. by apply follows_act.
  - intros _. rewrite fire_store. apply follows_refl.
  - intros _. rewrite answered_store. destruct (au_inFlight a) as [p|]; [|apply follows_refl].
    destruct answer as [flow|err]; [by apply follows_same|apply follows_refl].
  - intros _. rewrite flush_store. apply follows_refl.
  - intros _. apply keepMine_follows.
  - intros _. unfold keepMine_read. destruct (au_keeping a); [apply follows_refl|].
    destruct answer; [|apply follows_refl]. rewrite keep_at_store. by apply follows_same.
  - intros _. apply follows_refl.
  - intros _. rewrite loadLatest_store. destruct (au_loading a); [apply follows_refl|].
    destruct answer; [|apply follows_refl]. split; rewrite (proj1 (load_seqs _ _ _ _)); lia.
Qed.

(** [d] is the JSON of a draft that is the one of [s] when [n] is the counter
    of [s]. *)
Definition draft_at (n : Z) (d : value) (s : FlowState) : Prop :=
  n ≤ fs_changeSeq s
  ∧ ∃ s0, d = graph s0 ∧ (n = fs_changeSeq s → sameSnapshot (draft_of s0) (draft_of s) = true).

Lemma draft_at_refl s : draft_at (fs_changeSeq s) (graph s) s.
Proof. split; [lia|]. exists s. split; [done|]. intros _. apply sameSnapshot_refl. Qed.

Lemma draft_at_follows n d s s' : follows s s' → draft_at n d s → draft_at n d s'.
Proof.
  intros [Hle Hs] (Hn & s0 & Hd & Hs0). split; [lia|]. exists s0. split; [done|]. intros E.
  eapply sameSnapshot_trans; [apply Hs0; lia|apply Hs; lia].
Qed.

(** What is in flight and what the server has, against the builder's draft. *)
Record on_its_way (a : Auto) (last : ServerSeen) : Prop := {
  ow_seq : fs_savedSeq (au_store a) ≤ fs_changeSeq (au_store a);
  ow_saved : sn_crossing last ≠ cr_crossed → draft_at (fs_savedSeq (au_store a)) (sn_draft last) (au_store a);
  ow_put : ∀ p, au_inFlight a = Some p → draft_at (pt_seq p) (fu_draft_graph (pt_body p)) (au_store a);
  ow_order : sn_crossing last ≠ cr_under → ∀ p, au_inFlight a = Some p → fs_savedSeq (au_store a) ≤ pt_seq p;
}.

Lemma act_saved now x a last :
  own_action x = true →
  (∃ flow u, x = a_load flow u)
  ∨ fs_savedSeq (act now x (au_store a)) = fs_savedSeq (au_store a) ∧ last_after (ev_act now x) a last = last.
Proof.
  intros Ho. pose proof (act_seqs now x (au_store a)) as Hs. cbv zeta in Hs.
  destruct x; try done; try (right; split; [apply Hs|reflexivity]). left. eauto.
Qed.

Lemma load_at now flow u s :
  draft_at (fs_savedSeq (load now flow u s)) (graph (load now flow u s)) (load now flow u s).
Proof. destruct (load_seqs now flow u s) as [Hc Hv]. rewrite Hv, <- Hc. apply draft_at_refl. Qed.

(** A step that gives the server nothing and takes nothing from it. *)
Lemma on_its_way_quiet a b last :
  on_its_way a last → follows (au_store a) (au_store b) → fs_savedSeq (au_store b) = fs_savedSeq (au_store a) →
  (∀ p, au_inFlight b = Some p → sent (au_store b) p ∨ au_inFlight a = Some p) → on_its_way b last.
Proof.
  intros [Hq Hs Hp Ho] Hf Hv Hin. pose proof Hf as [Hle _]. split; rewrite ?Hv.
  - lia.
  - intros Hc. eapply draft_at_follows; [exact Hf|auto].
  - intros p [(E & -> & _)|E]%Hin; [rewrite E; apply draft_at_refl|]. eapply draft_at_follows; [exact Hf|auto].
  - intros Hc p [(E & _)|E]%Hin; [lia|auto].
Qed.

(** A draft the server gave is put on the canvas. *)
Lemma on_its_way_load a b last now flow u :
  on_its_way a last → au_store b = load now flow u (au_store a) → au_inFlight b = au_inFlight a →
  on_its_way b (gave a (load now flow u (au_store a))).
Proof.
  intros [Hq Hs Hp Ho] Hb Hi. pose proof (load_seqs now flow u (au_store a)) as [Hc Hv]. split; rewrite ?Hb, ?Hi.
  - lia.
  - intros _. apply load_at.
  - intros p E. eapply draft_at_follows; [|by apply Hp]. split; rewrite Hc; lia.
  - unfold gave. cbn [sn_crossing]. intros Hne p E. by rewrite E in Hne.
Qed.

Lemma answered_on_its_way answer now a last :
  on_its_way a last → on_its_way (answered false answer now a).1 (last_after (ev_answer answer now) a last).
Proof.
  intros Hi. pose proof Hi as [Hq Hs Hp Ho]. cbn [last_after]. pose proof (run_put (ev_answer answer now) a) as Hin.
  cbn [run fst] in Hin. pose proof (answered_store answer now a) as Est.
  destruct (au_inFlight a) as [p|] eqn:Ep; [|unfold answered in *; rewrite Ep in *; by destruct answer].
  assert (∀ q, au_inFlight (answered false answer now a).1 = Some q → sent (au_store (answered false answer now a).1) q) as Hsent.
  { intros q [?|[_ Hne]]%Hin; [done|]. by destruct (Hne answer now). }
  specialize (Hp p eq_refl). destruct answer as [flow|err].
  - destruct Hp as (Hle & s0 & Hd & Hs0).
    assert (fs_changeSeq (au_store (answered false (inl flow) now a).1) = fs_changeSeq (au_store a)
      ∧ draft_of (au_store (answered false (inl flow) now a).1) = draft_of (au_store a)
      ∧ fs_savedSeq (au_store (answered false (inl flow) now a).1) = Z.max (fs_savedSeq (au_store a)) (pt_seq p)) as (Hc & Hdr & Hv)
      by (rewrite Est; by split_and!).
    split; rewrite ?Hc, ?Hv.
    + lia.
    + unfold took. cbn [sn_crossing sn_draft]. intros Hne.
      assert (sn_crossing last ≠ cr_under) as Hnu by (by destruct (sn_crossing last)).
      specialize (Ho Hnu p eq_refl). rewrite Z.max_r by done. split; [by rewrite Hc|]. exists s0. by rewrite Hc, Hdr.
    + intros q (E & -> & _)%Hsent. rewrite E. apply draft_at_refl.
    + intros _ q (E & _)%Hsent. lia.
  - assert (on_its_way (answered false (inr err) now a).1 last ∨ True) as _ by (by right).
    split; rewrite ?Est.
    + done.
    + unfold refused. cbn [sn_crossing sn_draft]. intros Hne. apply Hs. by destruct (sn_crossing last).
    + intros q (E & -> & _)%Hsent. rewrite E, Est. apply draft_at_refl.
    + intros _ q (E & _)%Hsent. rewrite E, Est. lia.
Qed.

(** The events that neither load a draft nor answer a request. *)
Lemma quiet_saved e a last :
  match e with ev_act _ _ | ev_answer _ _ | ev_loadLatest_read _ _ => False | _ => True end →
  fs_savedSeq (au_store (run e a).1) = fs_savedSeq (au_store a) ∧ last_after e a last = last.
Proof.
  destruct e as [now x| |answer now| | |answer| |answer now]; try done; intros _; (split; [|done]); cbn [run fst].
  - by rewrite fire_store.
  - by rewrite flush_store.
  - unfold keepMine. destruct (au_status a) as [| | | |[rev|]|]; try done. by rewrite keep_at_store.
  - unfold keepMine_read. destruct (au_keeping a); [done|]. destruct answer; [|done]. by rewrite keep_at_store.
Qed.

Lemma run_on_its_way e a last : may e a → on_its_way a last → on_its_way (run e a).1 (last_after e a last).
Proof.
  intros Hm Hi. pose proof (run_follows e a Hm) as Hf.
  assert (∀ p, au_inFlight (run e a).1 = Some p → sent (au_store (run e a).1) p ∨ au_inFlight a = Some p) as Hin
    by (intros p [?|[? _]]%run_put; auto).
  assert (last_after e a last = last → fs_savedSeq (au_store (run e a).1) = fs_savedSeq (au_store a) →
    on_its_way (run e a).1 (last_after e a last)) as Hquiet
    by (intros -> Hv; by eapply on_its_way_quiet).
  destruct e as [now x| |answer now| | |answer| |answer now]; try (by apply Hquiet; apply (quiet_saved _ a last)).
  - destruct (act_saved now x a last (proj1 Hm)) as [(flow & u & ->)|[Hv Hl]].
    + apply (on_its_way_load _ _ last); [done| |]; apply set_store_frame.
    + apply Hquiet; [done|]. cbn [run fst]. by rewrite set_store_store.
  - by apply answered_on_its_way.
  - cbn [run] in *. pose proof (loadLatest_store answer now a) as Est. destruct answer as [flow|err].
    + cbn [last_after] in *. unfold loadLatest_read in *. destruct (au_loading a) as [|l] eqn:El; [by apply Hquiet|].
      apply (on_its_way_load _ _ last); [done| |]; cbn [fst au_inFlight with_status];
        rewrite ?with_status_store, ?set_store_store; [reflexivity|]. rewrite (proj1 (proj2 (set_store_frame _ _))). reflexivity.
    + apply Hquiet; [done|]. cbn [run]. rewrite Est. by destruct (au_loading a).
Qed.

(** ** What is reported *)

Lemma wakes_report result ws a r :
  true ∈ (fold_left (wake false result) ws (a, r)).2 →
  true ∈ r ∨ dirty (au_store a) = false ∨ result = true.
Proof.
  revert a r. induction ws as [|w ws IH]; intros a r; [by left|]. cbn [fold_left]. destruct w; cbn [wake fst snd].
  - intros Hi%IH. by rewrite save_store in Hi.
  - destruct (flush_now false a) as [a' r'] eqn:E. intros Hi%IH.
    assert (au_store a' = au_store a) as Hs by (rewrite <- (flush_now_store a); by rewrite E). rewrite Hs in Hi.
    destruct Hi as [[?|Hr]%elem_of_app|?]; [by left|right; left|by right].
    revert E. unfold flush_now. destruct (dirty (au_store a)); [|done]. intros [= _ <-]. by apply not_elem_of_nil in Hr.
  - intros [[?|Hr%list_elem_of_singleton]%elem_of_app|?]%IH; [by left|by right; right|by right].
Qed.

Lemma save_report_report rev a : (save_report false rev a).2 = [].
Proof. reflexivity. Qed.

Lemma keep_at_report rev a : (keep_at false rev a).2 = [].
Proof. apply save_report_report. Qed.

Lemma flush_now_report a : true ∈ (flush_now false a).2 → dirty (au_store a) = false.
Proof.
  unfold flush_now. destruct (dirty (au_store a)); [|done]. rewrite save_report_report. by intros []%not_elem_of_nil.
Qed.

Lemma answered_report answer now a :
  true ∈ (answered false answer now a).2 → dirty (au_store (answered false answer now a).1) = false.
Proof.
  unfold answered. destruct (au_inFlight a) as [p|]; [|by intros []%not_elem_of_nil].
  set (a1 := match answer with inl flow => answered_ok false p flow now a | inr err => answered_error err a end).
  clearbody a1. intros [[]%not_elem_of_nil|Hd]%wakes_report; rewrite wakes_store, with_put_store in *.
  destruct Hd as [Hd|Hd]; [done|]. destruct answer; [|done]. by apply negb_true_iff.
Qed.

Lemma flush_report a : true ∈ (flush false a).2 → dirty (au_store a) = false.
Proof.
  unfold flush. destruct (is_conflict (au_status a)); [by intros ?%list_elem_of_singleton|].
  destruct (au_inFlight (with_timer None a)); [by intros []%not_elem_of_nil|].
  intros Hb%flush_now_report. by rewrite with_timer_store in Hb.
Qed.

Lemma keepMine_report a : true ∉ (keepMine false a).2.
Proof.
  unfold keepMine. destruct (au_status a) as [| | | |[rev|]|]; rewrite ?keep_at_report; apply not_elem_of_nil.
Qed.

Lemma keepMine_read_report answer a : true ∉ (keepMine_read false answer a).2.
Proof.
  unfold keepMine_read. destruct (au_keeping a); [apply not_elem_of_nil|].
  destruct answer; [rewrite keep_at_report; apply not_elem_of_nil|by intros ?%list_elem_of_singleton].
Qed.

Lemma loadLatest_report answer now a :
  true ∈ (loadLatest_read false answer now a).2 → dirty (au_store (loadLatest_read false answer now a).1) = false.
Proof.
  rewrite loadLatest_store. unfold loadLatest_read. destruct (au_loading a); [by intros []%not_elem_of_nil|].
  destruct answer as [flow|]; [|by intros ?%list_elem_of_singleton]. intros _. unfold dirty.
  destruct (load_seqs now flow false (au_store a)) as [Hc Hv]. rewrite Hc, Hv. lia.
Qed.

Lemma run_report e a : true ∈ (run e a).2 → dirty (au_store (run e a).1) = false.
Proof.
  destruct e as [now x| |answer now| | |answer| |answer now]; cbn [run fst snd];
    try (by intros []%not_elem_of_nil).
  - apply answered_report.
  - rewrite flush_store. apply flush_report.
  - by intros []%keepMine_report.
  - by intros []%keepMine_read_report.
  - apply loadLatest_report.
Qed.

Lemma session_on_its_way flow a last shown kept r :
  session flow a last shown kept r → on_its_way a last ∧ (true ∈ r → dirty (au_store a) = false).
Proof.
  induction 1 as [|a last shown kept r e _ [IH _] Hm].
  - split; [|by intros []%not_elem_of_nil].
    assert (fs_savedSeq (createFlowStore flow) = 0 ∧ fs_changeSeq (createFlowStore flow) = 0) as [Hs Hc]
      by (unfold createFlowStore; by destruct (fromGraph _ _)).
    split; cbn [start au_store au_inFlight sn_draft]; rewrite ?Hs, ?Hc; try done.
    intros _. pose proof (draft_at_refl (createFlowStore flow)) as Hr. by rewrite Hc in Hr.
  - split; [by apply run_on_its_way|apply run_report].
Qed.

(** C8 What autosave counts as saved is what the server has: when nothing is
    unsaved, and whenever [flush], [keepMine] or [loadLatest] resolves to
    true, the draft on the canvas is, compared as the undo history compares
    drafts, the one the server last took from the builder or gave to it.  The
    one exception is a draft that was loaded while a PUT was in flight, when
    the server then accepts that PUT: until the next load, or the next PUT it
    accepts, the server holds the draft of before ([load_crosses_put] shows
    it happens). *)
Theorem saved_is_held flow a last shown kept r :
  session flow a last shown kept r → sn_crossing last ≠ cr_crossed → dirty (au_store a) = false ∨ true ∈ r →
  ∃ s0, sn_draft last = graph s0 ∧ sameSnapshot (draft_of s0) (draft_of (au_store a)) = true.
Proof.
  intros [[Hq Hl _ _] Hr]%session_on_its_way Hx Hd. destruct (Hl Hx) as (Hle & s0 & Es & Hs).
  exists s0. split; [done|]. apply Hs.
  assert (dirty (au_store a) = false) as Hc by (destruct Hd; auto). unfold dirty in Hc. lia.
Qed.

(** ** Revisions *)

Lemma commit_revision now nodes edges key extra po s :
  (∀ x, fs_revision (extra x) = fs_revision x) →
  fs_revision (commit now nodes edges key extra po s) = fs_revision s.
Proof. intros He. unfold commit. by rewrite He. Qed.

Lemma remove_revision now ids s : fs_revision (removeBlocks now ids s) = fs_revision s.
Proof. unfold removeBlocks. destruct (gone_ids _ _); [done|]. by rewrite commit_revision. Qed.

Lemma act_revision now x s :
  own_action x = true →
  fs_revision (act now x s) = match x with a_load flow _ => fl_revision flow | _ => fs_revision s end.
Proof.
  destruct x; try done; intros _; cbn [act]; try (by rewrite commit_revision).
  - unfold load. by destruct (fromGraph _ _).
  - unfold onNodesChange. cbv zeta. repeat case_match; try done; try apply remove_revision; by rewrite commit_revision.
  - unfold onEdgesChange. cbv zeta. repeat case_match; try done; by rewrite commit_revision.
  - unfold onPreviewNodesChange. by repeat case_match.
  - unfold connect. destruct (connectionProblem _ _ _ _ _); [done|]. cbn [fst]. by rewrite commit_revision.
  - unfold addBlock. cbv zeta.
    destruct (match from with Some (source, handle) => _ | None => None end) as [[source handle]|];
      cbn [fst]; by rewrite commit_revision.
  - apply remove_revision.
  - unfold setName. by case_match.
  - unfold undo, restore. by repeat case_match.
  - unfold redo, restore. by repeat case_match.
  - unfold showProposal. by destruct (fromGraph _ _).
  - unfold revealNext. by repeat case_match.
  - unfold clearProposal. by case_match.
  - unfold replaceDraft. destruct (fromGraph _ _). by rewrite commit_revision.
  - unfold contentGraph. by repeat case_match.
Qed.

Lemma run_revision e a shown kept :
  may e a → fs_revision (au_store a) ∈ shown ++ kept →
  fs_revision (au_store (run e a).1) ∈ shown_after e a shown ++ kept_after e a kept.
Proof.
  intros Hm Hr.
  assert (∀ x, fs_revision (au_store a) ∈ (x :: shown) ++ kept) as Hc by (intros; by apply elem_of_cons; right).
  assert (∀ x, x ∈ shown ++ x :: kept) as Hk by (intros; apply elem_of_app; right; apply elem_of_cons; by left).
  destruct e as [now x| |answer now| | |answer| |answer now]; cbn [run fst shown_after kept_after].
  - rewrite set_store_store, act_revision by apply Hm. destruct x; try done. simpl. by apply elem_of_cons; left.
  - by rewrite fire_store.
  - rewrite answered_store. destruct answer as [flow|err], (au_inFlight a); try done. simpl.
    by apply elem_of_cons; left.
  - by rewrite flush_store.
  - unfold keepMine. destruct (au_status a) as [| | | |[rev|]|]; try done. by rewrite keep_at_store.
  - unfold keepMine_read. destruct (au_keeping a); [by destruct answer|].
    destruct answer; [|done]. by rewrite keep_at_store.
  - done.
  - rewrite loadLatest_store. destruct (au_loading a), answer as [flow|]; try done.
    change (load now flow false (au_store a)) with (act now (a_load flow false) (au_store a)).
    rewrite act_revision by done. simpl. by apply elem_of_cons; left.
Qed.

Lemma after_incl e a shown kept : shown ++ kept ⊆ shown_after e a shown ++ kept_after e a kept.
Proof.
  intros x. rewrite !elem_of_app.
  assert (x ∈ shown → x ∈ shown_after e a shown) as Hs
    by (intros; destruct e as [? []| |[] ?| | |?| |[] ?]; simpl; try done; repeat case_match; try done; by apply elem_of_cons; right).
  assert (x ∈ kept → x ∈ kept_after e a kept) as Hk
    by (intros; destruct e as [| | | | |[]| |]; simpl; try done; repeat case_match; try done; by apply elem_of_cons; right).
  tauto.
Qed.

(** C9 No change made elsewhere is overwritten unseen: the revision a PUT
    carries is one the builder got with a draft it showed or saved itself, or
    the one of the change the customer chose to overwrite. *)
Theorem put_revision_known flow a last shown kept r p :
  session flow a last shown kept r → au_inFlight a = Some p → fu_revision (pt_body p) ∈ shown ++ kept.
Proof.
  intros Hs. enough (fs_revision (au_store a) ∈ shown ++ kept
    ∧ ∀ p, au_inFlight a = Some p → fu_revision (pt_body p) ∈ shown ++ kept) as [_ Hp] by apply Hp.
  clear p. induction Hs as [|a last shown kept r e _ [IHr IHp] Hm].
  - split; [|done]. apply list_elem_of_singleton. unfold start, createFlowStore. cbn [au_store]. by destruct (fromGraph _ _).
  - pose proof (run_revision e a shown kept Hm IHr) as Hr. split; [done|].
    intros p [(_ & _ & ->)|[Hp _]]%run_put; [done|]. by apply after_incl, IHp.
Qed.

(** ** Every edit is on its way *)

(** The reads of [keepMine] and [loadLatest] succeed. *)
Definition calm (e : event) : Prop :=
  match e with ev_keepMine_read (inr _) | ev_loadLatest_read (inr _) _ => False | _ => True end.

Inductive steady (flow : Flow) : Auto → Prop :=
  | steady_start : steady flow (start false (createFlowStore flow))
  | steady_step a e : steady flow a → may e a → calm e → steady flow (run e a).1.

(** Neither in conflict nor in error. *)
Definition fine (s : SaveStatus) : bool := negb (is_conflict s) && negb (is_error s).

Definition will_retry (w : Waiter) : bool := match w with w_report => false | _ => true end.

(** Some continuation or timeout will look again. *)
Definition looks_again (a : Auto) : Prop :=
  au_timer a = Some t_quiet ∨ existsb will_retry (au_waiters a) = true.

Record scheduled (a : Auto) : Prop := {
  sd_flight : au_inFlight a ≠ None → fine (au_status a) = true;
  sd_timer : au_inFlight a = None → fine (au_status a) = true → dirty (au_store a) = true → au_timer a ≠ None;
  sd_again : ∀ p, au_inFlight a = Some p → pt_seq p < fs_changeSeq (au_store a) → dirty (au_store a) = true → looks_again a;
}.

(** A PUT of the draft as it is was just sent. *)
Definition sending (a : Auto) : Prop :=
  au_status a = st_saving ∧ ∃ p, au_inFlight a = Some p ∧ pt_seq p = fs_changeSeq (au_store a).

Lemma sending_scheduled a : sending a → scheduled a.
Proof.
  intros (Hs & p & Hp & Hq). split; rewrite ?Hs, ?Hp; try done. intros ? [= <-]. lia.
Qed.

Lemma save_sending rev a : au_inFlight a = None → sending (save false rev a).
Proof. intros E. unfold save. rewrite E. split; [done|]. eexists. split; [done|]. done. Qed.

Lemma save_again rev a p : au_inFlight a = Some p → save false rev a = a.
Proof. intros E. unfold save. by rewrite E. Qed.

Lemma report_sending a w : sending a → sending (with_put (au_inFlight a) w a).
Proof. done. Qed.

Lemma save_report_sending rev a : au_inFlight a = None → sending (save_report false rev a).1.
Proof. intros E. apply report_sending. by apply save_sending. Qed.

Lemma save_report_again rev a p :
  au_inFlight a = Some p → (save_report false rev a).1 = with_put (au_inFlight a) (au_waiters a ++ [w_report]) a.
Proof. intros E. unfold save_report. cbn [fst]. by rewrite (save_again _ _ p). Qed.

Lemma wake_sending result w a r : sending a → sending (wake false result (a, r) w).1.
Proof.
  intros Hs. pose proof Hs as (_ & p & Hp & _). destruct w; cbn [wake fst snd].
  - by rewrite (save_again _ _ p).
  - destruct (flush_now false a) as [a' r'] eqn:E. cbn [fst]. change a' with (a', r').1. rewrite <- E.
    unfold flush_now. destruct (dirty (au_store a)); [|done]. by rewrite (save_report_again _ _ p).
  - done.
Qed.

Lemma wakes_sending result ws a r : sending a → sending (fold_left (wake false result) ws (a, r)).1.
Proof.
  revert a r. induction ws as [|w ws IH]; intros a r Hs; [done|]. cbn [fold_left].
  pose proof (wake_sending result w a r Hs) as H2. destruct (wake _ _ _ _) as [a' r']. by apply IH.
Qed.

(** The continuations leave the state alone or send. *)
Lemma wake_cases result w a r :
  au_inFlight a = None →
  (wake false result (a, r) w).1 = a ∧ (will_retry w = true → dirty (au_store a) = false)
  ∨ sending (wake false result (a, r) w).1.
Proof.
  intros E. destruct w; cbn [wake fst snd].
  - right. by apply save_sending.
  - destruct (flush_now false a) as [a' r'] eqn:Ef. cbn [fst]. change a' with (a', r').1. rewrite <- Ef.
    unfold flush_now. destruct (dirty (au_store a)) eqn:Ed; [|by left]. right. by apply save_report_sending.
  - by left.
Qed.

Lemma wakes_cases result ws a r :
  au_inFlight a = None →
  let a' := (fold_left (wake false result) ws (a, r)).1 in
  a' = a ∧ (existsb will_retry ws = true → dirty (au_store a) = false) ∨ sending a'.
Proof.
  intros E. cbv zeta. revert r. induction ws as [|w ws IH]; intros r; [by left|]. cbn [fold_left existsb].
  destruct (wake_cases result w a r E) as [[Hw Hd]|Hs]; destruct (wake false result (a, r) w) as [a' r']; simpl in *.
  - subst a'. destruct (IH r') as [[-> Hx]|?]; [left|by right]. split; [done|]. intros [?|?]%orb_true_iff; auto.
  - right. by apply wakes_sending.
Qed.

Lemma set_store_scheduled s a : scheduled a → scheduled (set_store false s a).
Proof.
  intros [Hf Ht Hl]. unfold set_store, listen. cbn [au_store with_store au_status].
  destruct ((fs_changeSeq s =? fs_changeSeq (au_store a)) && (fs_savedSeq s =? fs_savedSeq (au_store a))) eqn:E.
  { apply andb_true_iff in E as [Ec%Z.eqb_eq Es%Z.eqb_eq].
    assert (dirty s = dirty (au_store a)) as Hd by (unfold dirty; by rewrite Ec, Es).
    split; cbn [au_inFlight au_status au_timer au_store with_store]; [done|by rewrite Hd|].
    intros p. rewrite Ec, Hd. apply Hl. }
  destruct (dirty s) eqn:Hd; cbn [negb orb].
  - destruct (is_conflict (au_status a)) eqn:Hc; [|destruct (is_error (au_status a)) eqn:He].
    + split; cbn [au_inFlight au_status au_timer au_store with_store]; [done|by unfold fine; rewrite Hc|].
      intros p Hp. specialize (Hf ltac:(by rewrite Hp)). unfold fine in Hf. by rewrite Hc in Hf.
    + split; cbn [au_inFlight au_status au_timer au_store with_store]; [done|by unfold fine; rewrite Hc, He|].
      intros p Hp. specialize (Hf ltac:(by rewrite Hp)). unfold fine in Hf. by rewrite Hc, He in Hf.
    + assert (fine (au_status a) = true) as Hok by (unfold fine; by rewrite Hc, He).
      destruct (is_saving (au_status a)); split; try done; by left.
  - split; cbn [au_inFlight au_status au_timer au_store with_store]; rewrite ?Hd; done.
Qed.

Lemma fire_scheduled a : scheduled a → scheduled (fire false a).
Proof.
  intros Hs. pose proof Hs as [Hf Ht Hl]. unfold fire. destruct (au_timer a) as [tm|] eqn:Et; [|done].
  change (au_inFlight (with_timer None a)) with (au_inFlight a).
  destruct (au_inFlight a) as [p|] eqn:Ep.
  - destruct tm.
    + split; cbn [au_inFlight au_status au_store with_put with_timer]; [auto|done|].
      intros q _ _ _. right. cbn [au_waiters with_put with_timer]. by rewrite existsb_app, orb_true_r.
    + rewrite (save_again _ _ p) by done. split; cbn [au_inFlight au_status au_store with_timer]; rewrite Ep; [auto|done|].
      intros q [= <-] Hq Hd. destruct (Hl p eq_refl Hq Hd) as [Hx|?]; [congruence|by right].
  - assert (sending (save false None (with_timer None a))) as Hx by by apply save_sending.
    by destruct tm; apply sending_scheduled.
Qed.

Lemma take_saved_timer p flow a : au_timer a ≠ None → au_timer (take_saved false p flow a) ≠ None.
Proof. unfold take_saved, set_store, listen. by repeat case_match. Qed.

Lemma take_meta_timer flow a : au_timer a ≠ None → au_timer (take_meta false flow a) ≠ None.
Proof. unfold take_meta, set_store, listen. by repeat case_match. Qed.

Lemma answered_ok_timer p flow now a : au_timer a ≠ None → au_timer (answered_ok false p flow now a) ≠ None.
Proof.
  intros Ht. unfold answered_ok.
  change (au_timer (take_status now ?b)) with (au_timer b). by apply take_meta_timer, take_saved_timer.
Qed.

Lemma answered_error_fine err a : fine (au_status (answered_error err a)) = false.
Proof. unfold answered_error. by case_match. Qed.

(** After an error nothing is fine unless a continuation sends. *)
Lemma answered_scheduled answer now a : scheduled a → scheduled (answered false answer now a).1.
Proof.
  intros Hs. pose proof Hs as [Hf Ht Hl]. unfold answered. destruct (au_inFlight a) as [p|] eqn:Ep; [|done].
  set (a1 := match answer with inl flow => answered_ok false p flow now a | inr err => answered_error err a end).
  assert (fine (au_status a1) = true → dirty (au_store a1) = true →
    au_timer a1 ≠ None ∨ existsb will_retry (au_waiters a) = true) as Hr1.
  { subst a1. destruct answer as [flow|err]; [|by rewrite answered_error_fine]. intros _.
    rewrite answered_ok_store. unfold dirty. change (fs_savedSeq (setMeta _ (markSaved ?q _ ?s))) with (Z.max (fs_savedSeq s) q).
    change (fs_changeSeq (setMeta _ (markSaved _ _ ?s))) with (fs_changeSeq s). intros Hd.
    destruct (Hl p eq_refl) as [Hq|?]; [lia|unfold dirty; lia| |by right].
    left. apply answered_ok_timer. by rewrite Hq. }
  clearbody a1.
  destruct (wakes_cases (match answer with inl _ => negb (dirty (au_store a1)) | inr _ => false end) (au_waiters a)
    (with_put None [] a1) [] eq_refl) as [[-> Hx]|?]; [|by apply sending_scheduled].
  split; cbn [au_inFlight au_status au_timer with_put]; try done. rewrite with_put_store in *.
  intros _ Hok Hd. destruct (Hr1 Hok Hd) as [?|Hw]; [done|]. by rewrite (Hx Hw) in Hd.
Qed.

Lemma report_scheduled rev a : scheduled a → scheduled (save_report false rev a).1.
Proof.
  intros [Hf Ht Hl]. destruct (au_inFlight a) as [p|] eqn:Ep.
  - rewrite (save_report_again _ _ p) by done.
    split; cbn [au_inFlight au_status au_timer with_put]; rewrite ?Ep; [auto|done|].
    rewrite with_put_store. intros q Hq Hlt Hd. destruct (Hl q Hq Hlt Hd) as [?|Hw]; [by left|right].
    cbn [au_waiters with_put]. by rewrite existsb_app, Hw.
  - by apply sending_scheduled, save_report_sending.
Qed.

Lemma flush_scheduled a : scheduled a → scheduled (flush false a).1.
Proof.
  intros Hs. pose proof Hs as [Hf Ht Hl]. unfold flush. destruct (is_conflict (au_status a)); [done|].
  change (au_inFlight (with_timer None a)) with (au_inFlight a). destruct (au_inFlight a) as [p|] eqn:Ep.
  - split; cbn [fst au_inFlight au_status with_put with_timer]; [auto|done|].
    intros q _ _ _. right. cbn [fst au_waiters with_put with_timer]. by rewrite existsb_app, orb_true_r.
  - unfold flush_now. rewrite with_timer_store. destruct (dirty (au_store a)) eqn:Hd.
    + by apply sending_scheduled, save_report_sending.
    + split; cbn [fst au_inFlight au_status au_timer with_timer]; rewrite ?with_timer_store, ?Ep, ?Hd; done.
Qed.

Lemma keep_at_scheduled rev a : scheduled a → scheduled (keep_at false rev a).1.
Proof. intros Hs. unfold keep_at. by apply report_scheduled, set_store_scheduled. Qed.

Lemma run_scheduled e a : calm e → scheduled a → scheduled (run e a).1.
Proof.
  assert (∀ k l b, scheduled b → scheduled (with_reads k l b)) as Hreads by (by intros k l b []).
  intros Hc Hs. destruct e as [now x| |answer now| | |answer| |answer now]; cbn [run fst].
  - by apply set_store_scheduled.
  - by apply fire_scheduled.
  - by apply answered_scheduled.
  - by apply flush_scheduled.
  - unfold keepMine. destruct (au_status a) as [| | | |[rev|]|]; try (by apply Hreads). by apply keep_at_scheduled.
  - unfold keepMine_read. destruct (au_keeping a); [done|]. destruct answer; [|done].
    by apply keep_at_scheduled, Hreads.
  - by apply Hreads.
  - unfold loadLatest_read in *. destruct (au_loading a) eqn:El; [done|]. destruct answer as [flow|]; [|done].
    pose proof (loadLatest_store (inl flow) now a) as Hst. unfold loadLatest_read in Hst. rewrite El in Hst. cbn [fst] in *.
    assert (dirty (load now flow false (au_store a)) = false) as Hd.
    { unfold dirty. destruct (load_seqs now flow false (au_store a)) as [-> ->]. lia. }
    split; [done|intros _ _|intros p _ _]; by rewrite Hst, Hd.
Qed.

Lemma steady_scheduled flow a : steady flow a → scheduled a.
Proof.
  induction 1 as [|a e _ IH _ Hc]; [|by apply run_scheduled]. split; try done.
  intros _ _. unfold start, createFlowStore, dirty. cbn [au_store]. by destruct (fromGraph _ _).
Qed.

(** ** Progress *)

(** The next thing to happen when nobody edits and the server takes every
    PUT: an answer, or the timeout. *)
Definition drain (respond : Put → Flow) (now : Z) (a : Auto) : Auto :=
  match au_inFlight a with
  | Some p => (answered false (inl (respond p)) now a).1
  | None => fire false a
  end.

Lemma drain_store respond now a :
  let s := au_store (drain respond now a) in
  draft_of s = draft_of (au_store a) ∧ fs_changeSeq s = fs_changeSeq (au_store a)
  ∧ fs_savedSeq s = match au_inFlight a with
                    | Some p => Z.max (fs_savedSeq (au_store a)) (pt_seq p)
                    | None => fs_savedSeq (au_store a)
                    end.
Proof.
  unfold drain. destruct (au_inFlight a) as [p|] eqn:E; [|by rewrite fire_store].
  rewrite answered_store, E. by split; [|split].
Qed.

Lemma drain_clean respond now a : dirty (au_store a) = false → dirty (au_store (drain respond now a)) = false.
Proof. destruct (drain_store respond now a) as (_ & Hc & Hs). unfold dirty. rewrite Hc, Hs. case_match; lia. Qed.

Lemma drain_sending respond now a p :
  au_inFlight a = Some p → pt_seq p = fs_changeSeq (au_store a) → dirty (au_store (drain respond now a)) = false.
Proof.
  intros Ep Hq. destruct (drain_store respond now a) as (_ & Hc & Hs). unfold dirty. rewrite Hc, Hs, Ep. lia.
Qed.

Lemma fire_sending a : au_inFlight a = None → au_timer a ≠ None → sending (fire false a).
Proof.
  intros Ep Ht. unfold fire. destruct (au_timer a) as [tm|]; [|done].
  change (au_inFlight (with_timer None a)) with (au_inFlight a). rewrite Ep.
  by destruct tm; apply save_sending.
Qed.

Lemma drain_timer respond now a :
  au_inFlight a = None → au_timer a ≠ None →
  dirty (au_store (drain respond now (drain respond now a))) = false.
Proof.
  intros Ep Ht. unfold drain at 2. rewrite Ep. destruct (fire_sending a Ep Ht) as (_ & p & Hp & Hq).
  by eapply drain_sending.
Qed.

Lemma answered_ok_fine p flow now a : fine (au_status (answered_ok false p flow now a)) = true.
Proof. unfold answered_ok, take_status. cbn [au_status with_status]. by case_match. Qed.

Lemma answered_ok_cases p flow now a :
  au_inFlight a = Some p →
  let b := (answered false (inl flow) now a).1 in
  sending b ∨ au_inFlight b = None ∧ fine (au_status b) = true.
Proof.
  intros Ep. cbv zeta. unfold answered. rewrite Ep.
  pose proof (answered_ok_fine p flow now a) as Hok. revert Hok.
  generalize (answered_ok false p flow now a). intros a1 Hok.
  destruct (wakes_cases (negb (dirty (au_store a1))) (au_waiters a) (with_put None [] a1) [] eq_refl)
    as [[-> _]|?]; [by right|by left].
Qed.

(** After an answer: saved, sent again, or timed. *)
Lemma drain_answer respond now a p :
  au_inFlight a = Some p → scheduled a →
  let b := drain respond now a in sending b ∨ au_inFlight b = None ∧ (dirty (au_store b) = true → au_timer b ≠ None).
Proof.
  intros Ep Hs. cbv zeta. pose proof (answered_scheduled (inl (respond p)) now a Hs) as Hb.
  pose proof (answered_ok_cases p (respond p) now a Ep) as Hc. cbv zeta in Hc.
  unfold drain. rewrite Ep. revert Hb Hc. generalize ((answered false (inl (respond p)) now a).1). intros b Hb [?|[? ?]]; [by left|right].
  split; [done|]. by apply (sd_timer _ Hb).
Qed.

Lemma drain_iter_store respond now n a :
  draft_of (au_store (Nat.iter n (drain respond now) a)) = draft_of (au_store a).
Proof.
  induction n as [|n IH]; [done|]. simpl. rewrite <- IH. apply drain_store.
Qed.

(** C7 No edit is stranded: as long as the reads that resolve a conflict
    succeed, a session that is neither in conflict nor stopped on an error
    without a retry saves the draft it shows once the customer pauses and the
    server answers: at most three more steps (the PUT in flight, the timeout,
    its PUT), whatever it went through before. *)
Theorem autosave_progress flow a respond now n :
  steady flow a → is_conflict (au_status a) = false → (is_error (au_status a) = true → au_timer a ≠ None) →
  (3 ≤ n)%nat →
  let b := Nat.iter n (drain respond now) a in
  dirty (au_store b) = false ∧ draft_of (au_store b) = draft_of (au_store a).
Proof.
  intros Hs%steady_scheduled Hc He Hn. cbv zeta. split; [|apply drain_iter_store].
  assert (∀ m b, dirty (au_store b) = false → dirty (au_store (Nat.iter m (drain respond now) b)) = false) as Hclean.
  { intros m b Hb. induction m; [done|]. by apply drain_clean. }
  replace n with (n - 3 + 3)%nat by lia. rewrite Nat.iter_add. apply Hclean. clear n Hn. simpl.
  assert (∀ b, (au_inFlight b = None ∧ (dirty (au_store b) = true → au_timer b ≠ None)) →
    dirty (au_store (drain respond now (drain respond now b))) = false) as Htwo.
  { intros b [Hf Ht]. destruct (dirty (au_store b)) eqn:Ed; [|by do 2 apply drain_clean].
    apply drain_timer; auto. }
  destruct (au_inFlight a) as [p|] eqn:Ep.
  - destruct (drain_answer respond now a p Ep Hs) as [(_ & q & Hq & Hsq)|Hb]; [|by apply Htwo].
    apply drain_clean. by eapply drain_sending.
  - apply drain_clean, Htwo. split; [done|]. intros Hd.
    destruct (is_error (au_status a)) eqn:E; [auto|]. apply (sd_timer _ Hs); [done| |done].
    unfold fine. by rewrite Hc, E.
Qed.

(** ** Where autosave stops *)

(** In an error without a retry, as a failed [keepMine] or [loadLatest]
    leaves it, the listener takes the retry timer for running and sets none:
    no edit is sent until something else saves. *)
Lemma error_without_retry_ignores_edits a now x message :
  au_status a = st_error message None → au_timer a = None → au_inFlight a = None →
  let b := (run (ev_act now x) a).1 in
  au_status b = st_error message None ∧ au_timer b = None ∧ au_inFlight b = None.
Proof.
  intros Hs Ht Hf. cbn [run fst]. unfold set_store, listen. cbn [au_store with_store au_status]. rewrite Hs. cbn [is_conflict is_error].
  by repeat case_match.
Qed.
End session.

#[local] Existing Instance numerals.
#[local] Existing Instance basic_flow.
#[local] Existing Instance basic_flow_laws.

(** What the API answers a PUT with. *)
Definition accept (p : Put) : Flow :=
  {| fl_id := 1; fl_name := default "Main line" (fu_name (pt_body p)); fl_revision := fu_revision (pt_body p) + 1;
     fl_published_version := None; fl_published_at := None; fl_numbers := [];
     fl_draft_graph := fu_draft_graph (pt_body p) |}.

Definition stale : thrown :=
  api_error (Build_ApiError 409 "stale_revision" (VObj [("detail", VStr "stale_revision"); ("current_revision", vint 5)])).

Definition opened : Auto := start false (createFlowStore sample_api_flow).

Definition rename (name : string) : event := ev_act 5000 (a_setName name).

(** The state after a list of events. *)
Definition after (es : list event) (a : Auto) : Auto := fold_left (λ a e, (run e a).1) es a.

Lemma after_steady es a :
  steady sample_api_flow a → Forall (λ e, calm e ∧ ∀ b, may e b) es → steady sample_api_flow (after es a).
Proof.
  intros Ha Hes. revert a Ha. induction Hes as [|e es [Hc Hm] _ IH]; intros a Ha; [done|].
  apply IH. by apply steady_step.
Qed.

(** A rename is sent and another follows before the answer. *)
Definition busy : Auto := after [rename "Support"; ev_fire; rename "Help desk"] opened.

Lemma busy_steady : steady sample_api_flow busy.
Proof. apply after_steady; [constructor|]. by repeat constructor. Qed.

Lemma autosave_progress_witness :
  dirty (au_store busy) = true ∧ dirty (au_store (Nat.iter 3 (drain accept 9000) busy)) = false.
Proof.
  split; [vm_compute; reflexivity|].
  refine (proj1 (autosave_progress sample_api_flow busy accept 9000 3 busy_steady _ _ _));
    [vm_compute; reflexivity|vm_compute; discriminate|lia].
Defined.

(** The session of one rename, its PUT and the answer. *)
Definition renamed : Auto := (run (rename "Support") opened).1.

Definition sent_state : Auto := (run ev_fire renamed).1.

Definition sent_put : Put := put_of None renamed.

Lemma sent_in_flight : au_inFlight sent_state = Some sent_put.
Proof. vm_compute. reflexivity. Qed.

Lemma sent_session : session sample_api_flow sent_state {| sn_draft := graph (createFlowStore sample_api_flow); sn_crossing := cr_none |} [3] [] [].
Proof.
  exact (session_step _ renamed _ _ _ _ ev_fire
    (session_step _ opened _ _ _ _ (rename "Support") (session_start sample_api_flow) (conj eq_refl I)) I).
Qed.

Lemma put_revision_known_witness : au_inFlight sent_state = Some sent_put ∧ fu_revision (pt_body sent_put) ∈ [3] ++ [].
Proof.
  split; [exact sent_in_flight|].
  exact (put_revision_known sample_api_flow sent_state _ [3] [] [] sent_put sent_session sent_in_flight).
Defined.

Lemma saved_is_held_witness :
  let e := ev_answer (inl (accept sent_put)) 9000 in
  let a := (run e sent_state).1 in
  dirty (au_store a) = false
  ∧ ∃ s0, fu_draft_graph (pt_body sent_put) = graph s0
          ∧ History.sameSnapshot (draft_of s0) (draft_of (au_store a)) = true.
Proof.
  cbv zeta. split; [vm_compute; reflexivity|].
  refine (saved_is_held sample_api_flow _ _ _ _ _
    (session_step sample_api_flow sent_state _ [3] [] [] (ev_answer (inl (accept sent_put)) 9000) sent_session I) _ _).
  - vm_compute. discriminate.
  - left. vm_compute. reflexivity.
Defined.

(** An edit made while the PUT is in flight sets a timeout that a conflict
    does not clear: the loop sends the draft again, at the revision that was
    just refused. *)
Lemma conflict_does_not_stop :
  let conflict := after [rename "Support"; ev_fire; rename "Help desk"; ev_answer (inr stale) 9000] opened in
  au_status conflict = st_conflict (Some 5)
  ∧ au_status (after [ev_fire] conflict) = st_saving
  ∧ fu_revision ∘ pt_body <$> au_inFlight (after [ev_fire] conflict) = Some 3.
Proof. split_and!; vm_compute; reflexivity. Qed.

(** The draft another tab saved at revision 5. *)
Definition theirs : Flow :=
  {| fl_id := 1; fl_name := "Theirs"; fl_revision := 5; fl_published_version := None; fl_published_at := None;
     fl_numbers := []; fl_draft_graph := VObj [] |}.

(** While [loadLatest] reads, the timeout a conflict did not clear sends the
    draft again; the second refusal opens a new dialog, where Keep my version
    is pressed.  The read is answered before that PUT: the canvas shows their
    draft, the server takes ours, [keepMine] resolves to true and nothing
    counts as unsaved. *)
Lemma load_crosses_put :
  let before := after [rename "Support"; ev_fire; rename "Help desk"; ev_answer (inr stale) 9000; ev_loadLatest;
                       ev_fire; ev_answer (inr stale) 9200; ev_keepMine; ev_loadLatest_read (inl theirs) 9300] opened in
  let e := ev_answer (inl {| fl_id := 1; fl_name := "Support"; fl_revision := 6; fl_published_version := None;
                             fl_published_at := None; fl_numbers := []; fl_draft_graph := VObj [] |}) 9400 in
  (run e before).2 = [true]
  ∧ dirty (au_store (run e before).1) = false
  ∧ fu_draft_graph ∘ pt_body <$> au_inFlight before = Some (graph (au_store opened))
  ∧ ids_of (fs_nodes (au_store opened)) = ["start"; "hi"] ∧ ids_of (fs_nodes (au_store (run e before).1)) = ["n_1"].
Proof. split_and!; vm_compute; reflexivity. Qed.

(** After a failed [loadLatest] edits are not saved: no timeout is set. *)
Lemma failed_load_stops_autosave :
  let failed := after [rename "Support"; ev_fire; ev_answer (inr stale) 9000; ev_loadLatest;
                       ev_loadLatest_read (inr other_error) 9500; rename "Help desk"] opened in
  dirty (au_store failed) = true
  ∧ au_status failed = st_error "Couldn’t load the latest version." None
  ∧ au_timer failed = None ∧ au_inFlight failed = None.
Proof. split_and!; vm_compute; reflexivity. Qed.
