(* ===== verification/ContentOk.v ===== *)
(** * What an action leaves of the call logic

    The builder counts the edits that may change what callers hear
    ([contentSeq]) apart from those that only move blocks.  Here: an action
    that leaves the counter alone leaves the call logic alone, and the JSON
    the compiler reads ([contentGraph]) has the call logic of the canvas. *)
From S2P Require Import Prelude JsString JsValue Blocks Graph History Layout Effects FlowState Store StoreOk.

Local Open Scope string_scope.
Local Open Scope Z_scope.
Local Open Scope list_scope.

(** ** Drafts up to where their blocks stand *)

Definition unplaced_node {D} (n : SnapNode D) : SnapNode D :=
  Build_SnapNode (sn_id n) (sn_type n) (Build_SnapPosition (num_of_Z 0) (num_of_Z 0)) (sn_data n).
Definition unplaced {D E} (s : Snapshot D E) : Snapshot D E :=
  Build_Snapshot (List.map unplaced_node (ss_nodes s)) (ss_edges s).

(** The same blocks, settings and connections, compared as the undo history
    compares drafts. *)
Definition same_logic (a b : FlowSnapshot) : bool := sameSnapshot (unplaced a) (unplaced b).

Lemma same_logic_refl a : same_logic a a = true.
Proof. apply sameSnapshot_refl. Qed.

Lemma same_logic_trans a b c : same_logic a b = true → same_logic b c = true → same_logic a c = true.
Proof. apply sameSnapshot_trans. Qed.

Lemma sameSnapshot_sym {D E} `{ToJson D} `{ToJson E} (a b : Snapshot D E) : sameSnapshot a b = true → sameSnapshot b a = true.
Proof.
  unfold sameSnapshot, same_json.
  destruct (length (ss_nodes a) =? length (ss_nodes b))%nat eqn:E1; [|done]. apply Nat.eqb_eq in E1 as ->.
  destruct (length (ss_edges a) =? length (ss_edges b))%nat eqn:E2; [|done]. apply Nat.eqb_eq in E2 as ->.
  rewrite !Nat.eqb_refl. cbn. intros ->%bool_decide_eq_true. by apply bool_decide_eq_true.
Qed.

Lemma same_logic_sym a b : same_logic a b = true → same_logic b a = true.
Proof. apply sameSnapshot_sym. Qed.

Lemma norm_node (n : SnapNode FlowData) :
  json_norm (json_node n) =
  VObj [("id", VStr (sn_id n)); ("type", VStr (sn_type n));
        ("position", json_norm (VObj [("x", VNum (sp_x (sn_position n))); ("y", VNum (sp_y (sn_position n)))]));
        ("data", json_norm (to_json (sn_data n)))].
Proof. reflexivity. Qed.

Lemma cons_eq_inv {A} (x y : A) l l' : x :: l = y :: l' → x = y ∧ l = l'.
Proof. by intros [= -> ->]. Qed.

Lemma norm_snapshot (a : FlowSnapshot) :
  json_norm (json_snapshot a) =
  VObj [("nodes", VArr (List.map (λ n, json_norm (json_node n)) (ss_nodes a)));
        ("edges", VArr (List.map (λ e, json_norm (json_edge e)) (ss_edges a)))].
Proof.
  rewrite <- (norm_varr json_node), <- (norm_varr json_edge) by done. reflexivity.
Qed.

Lemma norm_unplaced (l l' : list (SnapNode FlowData)) :
  List.map (λ n, json_norm (json_node n)) l = List.map (λ n, json_norm (json_node n)) l' →
  List.map (λ n, json_norm (json_node n)) (List.map unplaced_node l)
  = List.map (λ n, json_norm (json_node n)) (List.map unplaced_node l').
Proof.
  revert l'. induction l as [|n l IH]; intros [|n' l']; try done. cbn [List.map].
  intros [En El]%cons_eq_inv. f_equal; [|by apply IH]. revert En. rewrite !norm_node.
  cbn [sn_id sn_type sn_position sn_data unplaced_node].
  generalize (json_norm (to_json (sn_data n))) (json_norm (to_json (sn_data n'))). by intros d d' [= -> -> _ _ ->].
Qed.

(** The same text is the same logic. *)
Lemma same_logic_of (a b : FlowSnapshot) : sameSnapshot a b = true → same_logic a b = true.
Proof.
  unfold same_logic, sameSnapshot. cbn [ss_nodes ss_edges unplaced]. rewrite !length_map.
  destruct (_ || _); [done|]. unfold same_json. rewrite !bool_decide_eq_true, !norm_snapshot.
  intros [En Ee]%obj2_inv. cbn [ss_nodes ss_edges unplaced]. by rewrite (norm_unplaced _ _ En), Ee.
Qed.

(** ** Actions *)

Section content.
Context `{IdSupply} `{ReactFlow} `{!ReactFlowLaws}.

(** [s'] has the call logic of [s] as long as the counter stands. *)
Definition quiet (s s' : FlowState) : Prop :=
  fs_contentSeq s ≤ fs_contentSeq s' ∧
  (fs_contentSeq s' = fs_contentSeq s → same_logic (draft_of s) (draft_of s') = true).

Lemma quiet_same s s' :
  fs_contentSeq s' = fs_contentSeq s →
  List.map snap_node (fs_nodes s') = List.map snap_node (fs_nodes s) →
  List.map snap_edge (fs_edges s') = List.map snap_edge (fs_edges s) → quiet s s'.
Proof. intros Hc En Ee. split; [lia|]. intros _. by apply same_logic_of, same_draft. Qed.

(** The same blocks, wherever they stand. *)
Lemma cores_logic nodes nodes' edges :
  List.map node_core nodes' = List.map node_core nodes →
  same_logic (snapshotOf nodes edges) (snapshotOf nodes' edges) = true.
Proof.
  intros E. unfold same_logic, snapshotOf, unplaced. cbn [ss_nodes ss_edges]. rewrite !List.map_map.
  apply (f_equal (List.map (λ c : (string * IvrNodeType) * FlowData * option bool,
    Build_SnapNode c.1.1.1 (type_name c.1.1.2) (Build_SnapPosition (num_of_Z 0) (num_of_Z 0)) c.1.2))) in E.
  rewrite !List.map_map in E. cbn in E. unfold unplaced_node; cbn.
  change (λ x : FlowNode, Build_SnapNode (fn_id x) (type_name (fn_type x)) (Build_SnapPosition (num_of_Z 0) (num_of_Z 0)) (fn_data x))
    with (λ x : FlowNode, Build_SnapNode (node_core x).1.1.1 (type_name (node_core x).1.1.2) (Build_SnapPosition (num_of_Z 0) (num_of_Z 0)) (node_core x).1.2).
  cbn. rewrite E. apply sameSnapshot_refl.
Qed.

(** [extra] leaves the counter alone. *)
Definition keeps_content (extra : FlowState → FlowState) : Prop := ∀ x, fs_contentSeq (extra x) = fs_contentSeq x.

Lemma quiet_commit now nodes edges key extra po s :
  keeps_draft extra → keeps_content extra →
  (po = true → same_logic (draft_of s) (snapshotOf nodes edges) = true) →
  quiet s (commit now nodes edges key extra po s).
Proof.
  intros Hk Hc Hp. unfold quiet, commit, draft_of. cbv zeta. rewrite Hc.
  match goal with |- context [extra ?x] => destruct (Hk x) as (-> & -> & _) end.
  cbn [fs_nodes fs_edges fs_contentSeq set_nodes set_edges set_history set_changeSeq set_contentSeq].
  destruct (recorded _ _ _ _ _) eqn:Er; cbn [andb].
  - destruct po; cbn [negb]; split; try lia. intros _. by apply Hp.
  - split; [lia|]. intros _. apply same_logic_of. unfold recorded in Er. apply orb_false_iff in Er as [_ Er].
    by apply negb_false_iff in Er.
Qed.

Lemma quiet_commit_drawn now nodes edges key extra k s :
  keeps_draft extra → keeps_content extra → quiet s (commit now nodes edges key extra false (set_drawn k s)).
Proof. intros Hk Hc. exact (quiet_commit now nodes edges key extra false (set_drawn k s) Hk Hc ltac:(done)). Qed.

Lemma quiet_edit now nodes edges key extra s :
  keeps_draft extra → keeps_content extra → quiet s (commit now nodes edges key extra false s).
Proof. intros Hk Hc. by apply quiet_commit. Qed.

Lemma quiet_remove now ids s : quiet s (removeBlocks now ids s).
Proof. unfold removeBlocks. destruct (gone_ids _ _); [by apply quiet_same|]. by apply quiet_edit. Qed.

Lemma quiet_seal h s s' : quiet s s' → quiet s (set_history h s').
Proof. done. Qed.

Lemma omap_length_le {A B} (f : A → option B) l : (length (omap f l) ≤ length l)%nat.
Proof. induction l as [|x l IH]; [done|]. cbn. destruct (f x); cbn; cbn in IH; lia. Qed.

(** Changes of which every one moves, selects or measures leave the blocks. *)
Lemma moving_in_place (l : list NodeChange) :
  length (omap moved_id (List.filter (λ c, negb (bookkeeping c)) l)) = length (List.filter (λ c, negb (bookkeeping c)) l) →
  forallb in_place l = true.
Proof.
  assert (∀ m : list NodeChange, (length (omap moved_id m) ≤ length m)%nat) as Hle by (intros m; apply omap_length_le).
  induction l as [|c l IH]; [done|]. cbn [List.filter forallb].
  destruct c; cbn [bookkeeping negb in_place andb]; try apply IH; cbn; intros E;
    try (pose proof (Hle (List.filter (λ c, negb (bookkeeping c)) l)) as Hl; cbn in Hl; lia).
  apply IH. by injection E.
Qed.

Lemma quiet_nodes now cs s : quiet s (onNodesChange now cs s).
Proof.
  unfold onNodesChange. set (safe := List.filter _ cs).
  destruct safe as [|c0 cs0] eqn:Esafe; [by apply quiet_same|]. rewrite <- Esafe. clear Esafe c0 cs0.
  destruct (List.filter (λ c, negb (bookkeeping c)) safe) as [|c1 cs1] eqn:Econtent.
  - split; [done|]. intros _. apply cores_logic, nodes_in_place, moving_in_place. by rewrite Econtent.
  - rewrite <- Econtent. clear Econtent c1 cs1. set (content := List.filter _ safe).
    destruct (unique (omap removed_id content)); [|apply quiet_remove].
    assert (quiet s (commit now (applyNodeChanges safe (fs_nodes s)) (fs_edges s)
              match omap moved_id content with [] => None | _ => Some ("move:" +:+ join "," (sort_strings (omap moved_id content))) end
              (set_selectedId (fold_left select_step safe (fs_selectedId s)))
              (length (omap moved_id content) =? length content)%nat s)) as Hq.
    { apply quiet_commit; [done..|]. intros E%Nat.eqb_eq. by apply cores_logic, nodes_in_place, moving_in_place. }
    destruct (existsb drag_end content); [by apply quiet_seal|done].
Qed.

Lemma quiet_edges now cs s : quiet s (onEdgesChange now cs s).
Proof.
  pose proof (edges_seen now cs s) as He. unfold onEdgesChange in *. set (own := List.filter _ cs) in *.
  destruct own as [|c0 cs0] eqn:Eown; [by apply quiet_same|]. rewrite <- Eown in *. clear Eown c0 cs0.
  destruct (forallb is_edge_select own) eqn:Es; [|by apply quiet_edit].
  split; [done|]. intros _. by apply same_logic_of, He.
Qed.

Lemma quiet_restore step s : quiet s (restore step s).
Proof.
  destruct step as [[h snap]|]; [|by apply quiet_same]. unfold restore. destruct (fromSnapshot snap).
  split; cbn; lia.
Qed.

Lemma place_core pos nodes : List.map node_core (List.map (place pos) nodes) = List.map node_core nodes.
Proof. rewrite List.map_map. apply List.map_ext. intros n. unfold place. by destruct (om_get _ _) as [[x y]|]. Qed.

Lemma select_core id nodes : List.map snap_node (List.map (select_node id) nodes) = List.map snap_node nodes.
Proof. rewrite List.map_map. apply List.map_ext. intros n. unfold select_node. by destruct (fn_selected n ==? _). Qed.

Lemma quiet_act now a s : quiet s (act now a s).
Proof.
  destruct a; cbn [act]; try (by apply quiet_same).
  - unfold load. destruct (fromGraph _ _). split; cbn; lia.
  - apply quiet_nodes.
  - apply quiet_edges.
  - unfold onPreviewNodesChange. repeat case_match; by apply quiet_same.
  - unfold connect. destruct (connectionProblem _ _ _ _ _); [by apply quiet_same|]. by apply quiet_commit_drawn.
  - by apply quiet_edit.
  - unfold addBlock. cbv zeta.
    destruct (match from with Some (source, handle) => _ | None => None end) as [[source handle]|]; by apply quiet_commit_drawn.
  - by apply quiet_edit.
  - by apply quiet_edit.
  - apply quiet_remove.
  - apply quiet_same; [done| |done]. apply select_core.
  - apply quiet_same; [done| |done]. apply select_core.
  - unfold setName. case_match; by apply quiet_same.
  - apply quiet_commit; [done..|]. intros _. apply cores_logic, place_core.
  - apply quiet_restore.
  - apply quiet_restore.
  - unfold showProposal. destruct (fromGraph _ _) as [w k]. apply quiet_same; [done| |done].
    cbn. rewrite List.map_map. apply List.map_ext. intros n. unfold deselect. by destruct (fn_selected n) as [[]|].
  - unfold revealNext. repeat case_match; by apply quiet_same.
  - unfold clearProposal. case_match; by apply quiet_same.
  - unfold replaceDraft. destruct (fromGraph _ _). by apply quiet_commit_drawn.
  - unfold contentGraph. repeat case_match; by apply quiet_same.
Qed.
(** ** The JSON the builder derives from *)

(** [g] is the JSON of a draft with the call logic of [s], when [n] is the
    counter of [s]. *)
Definition fresh_at (n : Z) (g : value) (s : FlowState) : Prop :=
  n ≤ fs_contentSeq s ∧
  (n = fs_contentSeq s → ∃ s0, g = graph s0 ∧ same_logic (draft_of s0) (draft_of s) = true).

Lemma fresh_graph s : fresh_at (fs_contentSeq s) (graph s) s.
Proof. split; [done|]. intros _. exists s. split; [done|]. apply same_logic_refl. Qed.

Lemma fresh_quiet n g s s' : quiet s s' → fresh_at n g s → fresh_at n g s'.
Proof.
  intros [Hle Hq] [Hn Hg]. split; [lia|]. intros E. destruct Hg as (s0 & -> & Hs); [lia|].
  exists s0. split; [done|]. eapply same_logic_trans; [done|]. apply Hq. lia.
Qed.

(** The cached JSON is the one of its counter. *)
Definition cache_ok (s : FlowState) : Prop := ∀ n g, fs_cached s = Some (n, g) → fresh_at n g s.

Lemma act_cached now a s : a = a_contentGraph ∨ fs_cached (act now a s) = fs_cached s.
Proof.
  assert (∀ ids, fs_cached (removeBlocks now ids s) = fs_cached s) as Hr by (intros ids; unfold removeBlocks; by case_match).
  assert (∀ step, fs_cached (restore step s) = fs_cached s) as Hs by (intros [[h snap]|]; done).
  destruct a; try (by left); right; cbn [act]; try done; try apply Hr; try apply Hs.
  - unfold load. by destruct (fromGraph _ _).
  - unfold onNodesChange. cbv zeta. repeat case_match; (apply Hr || done).
  - unfold onEdgesChange. by repeat case_match.
  - unfold onPreviewNodesChange. by repeat case_match.
  - unfold connect. by case_match.
  - unfold addBlock. cbv zeta. by repeat case_match.
  - unfold setName. by case_match.
  - unfold showProposal. by destruct (fromGraph _ _).
  - unfold revealNext. by repeat case_match.
  - unfold clearProposal. by case_match.
  - unfold replaceDraft. by destruct (fromGraph _ _).
Qed.

Lemma contentGraph_fresh s :
  cache_ok s → fresh_at (fs_contentSeq s) (contentGraph s).2 s ∧ cache_ok (contentGraph s).1.
Proof.
  intros Hc. pose proof (fresh_graph s) as Hf.
  assert (∀ n g, fs_cached (set_cached (Some (fs_contentSeq s, graph s)) s) = Some (n, g) →
            fresh_at n g (set_cached (Some (fs_contentSeq s, graph s)) s)) as Hn by (intros n g [= <- <-]; exact Hf).
  unfold contentGraph. destruct (fs_cached s) as [[n g]|] eqn:E; [|by split].
  destruct (n =? fs_contentSeq s) eqn:En; [|by split]. apply Z.eqb_eq in En as ->. split; [by apply Hc|done].
Qed.

Lemma contentGraph_quiet s : quiet s (contentGraph s).1 ∧ fs_contentSeq (contentGraph s).1 = fs_contentSeq s.
Proof. split; [exact (quiet_act 0 a_contentGraph s)|]. unfold contentGraph. by repeat case_match. Qed.

Lemma cache_act now a s : cache_ok s → cache_ok (act now a s).
Proof.
  intros Hc. destruct (act_cached now a s) as [->|Ha]; [by apply contentGraph_fresh|].
  intros n g. rewrite Ha. intros E. eapply fresh_quiet; [apply quiet_act|]. by apply Hc.
Qed.

Lemma cache_start flow : cache_ok (createFlowStore flow).
Proof. unfold cache_ok, createFlowStore. by destruct (fromGraph _ _). Qed.
End content.
