(* ===== verification/Analysis.v ===== *)
(** * What the builder shows of a draft ([flow/useFlowAnalysis.ts])

    The findings on the blocks: the client's own compile of the draft, and
    the server's check of it, which is asked for when the call logic has been
    still for a while.  The hook is a state machine over the store's actions,
    its renders, its timer and the answers of the server; what it returns is
    a function of that state. *)
From S2P Require Import Prelude JsString JsValue Blocks Graph IvrTypes Summary Effects Compile FlowState Store StoreOk IvrError.

Local Open Scope string_scope.
Local Open Scope Z_scope.
Local Open Scope list_scope.

(** ** Findings *)

Inductive finding_source := from_client | from_server.

#[export] Instance finding_source_eq_dec : EqDecision finding_source.
Proof. solve_decision. Defined.

Record ShownIssue := { sh_issue : ClientIssue; sh_source : finding_source }.

(** The places findings are pinned to. *)
Definition locationKey (nodeId handle : option string) : string := slot_of (default "" nodeId) (default "" handle).
Definition location (i : ShownIssue) : string := locationKey (ci_nodeId (sh_issue i)) (ci_handle (sh_issue i)).

Definition fromServer (found : list Issue) (severity : Severity) : list ShownIssue :=
  List.map (λ i, {| sh_issue := Build_ClientIssue severity (is_code i) (is_message i) (truthy (is_node_id i)) (truthy (is_handle i));
                    sh_source := from_server |}) found.

(** The server's findings, and the client's where it has none. *)
Definition shown_issues (serverIssues : list ShownIssue) (client : list ClientIssue) : list ShownIssue :=
  let taken := List.map location serverIssues in
  serverIssues ++
  List.map (λ i, Build_ShownIssue i from_client)
    (List.filter (λ i, negb (includes taken (locationKey (ci_nodeId i) (ci_handle i)))) client).

Definition pin (m : list (string * list ShownIssue)) (i : ShownIssue) : list (string * list ShownIssue) :=
  match truthy (ci_nodeId (sh_issue i)) with
  | None => m
  | Some id => om_set id (default [] (om_get id m) ++ [i]) m
  end.

Definition has_severity (s : Severity) (i : ShownIssue) : bool := ci_severity (sh_issue i) ==? s.

(** ** What the hook returns *)

Inductive server_state := sv_off | sv_checking | sv_current | sv_unavailable.

#[export] Instance server_state_eq_dec : EqDecision server_state.
Proof. solve_decision. Defined.

(** [fa_titleOf] is [None] where it throws: the title of a block of an
    unknown type. *)
Record FlowAnalysis := {
  fa_compiled : CompileResult;
  fa_issues : list ShownIssue;
  fa_issuesByNode : list (string * list ShownIssue);
  fa_errorCount : nat;
  fa_warningCount : nat;
  fa_server : server_state;
  fa_summary : SummaryContext;
  fa_targets : list (string * string);
  fa_titleOf : string → option string;
}.

Definition titleOf (nodes : list IvrNode) (id : string) : option string :=
  match om_get id (nodes_by_id nodes) with Some n => blockTitle n | None => Some "a deleted block" end.

(** What the server found, and in which content. *)
Record Checked := {
  cd_seq : Z;
  cd_errors : list Issue;
  cd_warnings : list Issue;
}.

(** The server's check, when it is one of this content. *)
Definition current_check (contentSeq : Z) (server : option Checked) : option Checked :=
  match server with Some c => if cd_seq c =? contentSeq then Some c else None | None => None end.

Definition server_state_of (serverCheck : bool) (contentSeq : Z) (server : option Checked) (serverFailed : option Z) : server_state :=
  if negb serverCheck then sv_off
  else match current_check contentSeq server with
       | Some _ => sv_current
       | None => if serverFailed ==? Some contentSeq then sv_unavailable else sv_checking
       end.

(** The wording context of the block summaries. *)
Definition summary_of (ctx : CompileContext) (nodes : list IvrNode) : SummaryContext :=
  {| sx_promptName := λ id, pi_name <$> (prompts ← cx_prompts ctx; om_get id prompts);
     sx_destinations := cx_destinations ctx;
     sx_titleOf := λ id, if om_has id (nodes_by_id nodes) then titleOf nodes id else None |}.

Definition analysis_of (serverCheck : bool) (ctx : CompileContext) (graph : value) (edges : list FlowEdge) (contentSeq : Z)
    (server : option Checked) (serverFailed : option Z) : stop + FlowAnalysis :=
  match compileIvr (graph_view graph) ctx with
  | inl e => inl e
  | inr compiled =>
      let serverIssues := match current_check contentSeq server with
                          | Some c => fromServer (cd_errors c) sev_error ++ fromServer (cd_warnings c) sev_warning
                          | None => []
                          end in
      let issues := shown_issues serverIssues (cr_issues compiled) in
      inr {| fa_compiled := compiled; fa_issues := issues; fa_issuesByNode := fold_left pin issues [];
             fa_errorCount := length (List.filter (has_severity sev_error) issues);
             fa_warningCount := length (List.filter (has_severity sev_warning) issues);
             fa_server := server_state_of serverCheck contentSeq server serverFailed;
             fa_summary := summary_of ctx (ig_nodes (graph_view graph));
             fa_targets := om_of_list (List.map (λ e, (slotKey (fe_source e) (Some (fe_sourceHandle e)), fe_target e)) edges);
             fa_titleOf := titleOf (ig_nodes (graph_view graph)) |}
  end.

(** The dashed lines of the Go to blocks. *)
Definition gotoJumps (nodes : list FlowNode) : list (string * (string * string)) :=
  omap (λ n, if fn_type n ==? goto then
               let t := gc_targetNodeId (as_goto (bd_config (fd_block (fn_data n)))) in
               if (t !=? "") && (t !=? fn_id n) && includes (List.map fn_id nodes) t
               then Some ("jump:" +:+ fn_id n, (fn_id n, t)) else None
             else None) nodes.

(** ** The hook *)

(** [ah_ran] is the content the effect last ran for, [ah_timer] and
    [ah_asked] the checks to be sent and under way, with the draft they are
    about.  [ah_log] is what the server answered, to which draft. *)
Record Hook := {
  ah_store : FlowState;
  ah_ran : option Z;
  ah_latest : Z;
  ah_timer : option (Z * value);
  ah_asked : list (Z * value);
  ah_server : option Checked;
  ah_failed : option Z;
  ah_log : list (value * Checked);
}.

Definition with_flow (s : FlowState) (h : Hook) : Hook :=
  Build_Hook s (ah_ran h) (ah_latest h) (ah_timer h) (ah_asked h) (ah_server h) (ah_failed h) (ah_log h).

Section hook.
Context `{IdSupply} `{ReactFlow} (serverCheck : bool).

Definition open_builder (s : FlowState) : Hook := Build_Hook s None (fs_contentSeq s) None [] None None [].

(** A render, and the effect if the content is another. *)
Definition render (h : Hook) : Hook :=
  let '(s, g) := contentGraph (ah_store h) in
  let seq := fs_contentSeq s in
  if ah_ran h ==? Some seq then with_flow s h
  else Build_Hook s (Some seq) seq (if serverCheck then Some (seq, g) else None) (ah_asked h) (ah_server h) (ah_failed h) (ah_log h).

(** The quiet time is over: the draft is sent. *)
Definition ask (h : Hook) : option Hook :=
  match ah_timer h with
  | None => None
  | Some check =>
      Some (Build_Hook (ah_store h) (ah_ran h) (ah_latest h) None (ah_asked h ++ [check]) (ah_server h) (ah_failed h) (ah_log h))
  end.

(** The answer to the check at [i]: [None] when it failed. *)
Definition checked (i : nat) (answer : option (list Issue * list Issue)) (h : Hook) : option Hook :=
  match ah_asked h !! i with
  | None => None
  | Some (seq, g) =>
      let asked := delete i (ah_asked h) in
      let stale := negb (ah_latest h =? seq) in
      Some (match answer with
            | Some (errors, warnings) =>
                let found := Build_Checked seq errors warnings in
                let log := (g, found) :: ah_log h in
                if stale then Build_Hook (ah_store h) (ah_ran h) (ah_latest h) (ah_timer h) asked (ah_server h) (ah_failed h) log
                else Build_Hook (ah_store h) (ah_ran h) (ah_latest h) (ah_timer h) asked (Some found) None log
            | None =>
                Build_Hook (ah_store h) (ah_ran h) (ah_latest h) (ah_timer h) asked (ah_server h)
                  (if stale then ah_failed h else Some seq) (ah_log h)
            end)
  end.

Inductive hook_event :=
  | he_act (now : Z) (a : action)
  | he_render
  | he_ask
  | he_checked (i : nat) (answer : option (list Issue * list Issue)).

Definition hook_step (h : Hook) (e : hook_event) : option Hook :=
  match e with
  | he_act now a => Some (with_flow (act now a (ah_store h)) h)
  | he_render => Some (render h)
  | he_ask => ask h
  | he_checked i answer => checked i answer h
  end.

Fixpoint hook_run (h : Hook) (events : list hook_event) : option Hook :=
  match events with
  | [] => Some h
  | e :: events => match hook_step h e with Some h => hook_run h events | None => None end
  end.

(** What a render shows. *)
Definition useFlowAnalysis (ctx : CompileContext) (h : Hook) : stop + FlowAnalysis :=
  let '(s, g) := contentGraph (ah_store h) in
  analysis_of serverCheck ctx g (fs_edges s) (fs_contentSeq s) (ah_server h) (ah_failed h).
End hook.
