(* ===== verification/AnalysisOk.v ===== *)
(** * Findings and the draft they are about

    Theorems on [Analysis]: what is shown as the server's check is a check of
    the call logic on the canvas, the check of a draft that rests is never
    forgotten, and how the two lists of findings are merged. *)
From S2P Require Import Prelude JsString JsValue Blocks Graph History IvrTypes Summary Effects Compile FlowState Store StoreOk StoreRun ContentOk IvrError Analysis.

Local Open Scope string_scope.
Local Open Scope Z_scope.
Local Open Scope list_scope.

Section hook_ok.
Context `{IdSupply} `{ReactFlow} `{!ReactFlowLaws} (serverCheck : bool).

(** What the hook holds is about drafts of its store. *)
Record hook_ok (h : Hook) : Prop := {
  ho_cache : cache_ok (ah_store h);
  ho_checks : ∀ n g, ah_timer h = Some (n, g) ∨ (n, g) ∈ ah_asked h → fresh_at n g (ah_store h);
  ho_log : ∀ g c, (g, c) ∈ ah_log h → fresh_at (cd_seq c) g (ah_store h);
  ho_server : ∀ c, ah_server h = Some c → ∃ g, (g, c) ∈ ah_log h;
  ho_latest : ah_latest h ≤ fs_contentSeq (ah_store h) ∧ ∀ n, ah_ran h = Some n → ah_latest h = n;
  ho_due : serverCheck = true → ∀ n, ah_ran h = Some n →
    (∃ g, ah_timer h = Some (n, g) ∨ (n, g) ∈ ah_asked h) ∨ (∃ c, ah_server h = Some c ∧ cd_seq c = n) ∨ ah_failed h = Some n;
  ho_off : serverCheck = false → ah_timer h = None ∧ ah_asked h = [] ∧ ah_server h = None;
}.

Lemma hook_open_ok s : cache_ok s → hook_ok (open_builder s).
Proof. intros Hc. constructor; cbn; try done. - intros n g [[=]|[]%not_elem_of_nil]. - by intros g c []%not_elem_of_nil. Qed.

(** The store moves on. *)
Lemma with_flow_ok s h : quiet (ah_store h) s → cache_ok s → hook_ok h → hook_ok (with_flow s h).
Proof.
  intros Hq Hs [Hc Ht Hl Hv [Hle Hr] Hd Hoff]. constructor; cbn; try done.
  - intros n g Hn. eapply fresh_quiet; [done|]. by apply Ht.
  - intros g c Hn. eapply fresh_quiet; [done|]. by apply Hl.
  - split; [|done]. destruct Hq. lia.
Qed.

Lemma render_ok h : hook_ok h → hook_ok (render serverCheck h).
Proof.
  intros Hh. destruct (contentGraph_fresh (ah_store h) (ho_cache _ Hh)) as [Hf Hc].
  destruct (contentGraph_quiet (ah_store h)) as [Hq Hn].
  unfold render. destruct (contentGraph (ah_store h)) as [s g]. cbn [fst snd] in *.
  pose proof (with_flow_ok s h Hq Hc Hh) as [_ Ht Hl Hv [Hle Hr] Hd Hoff].
  destruct (ah_ran h ==? Some (fs_contentSeq s)) eqn:Er; [by constructor|].
  constructor; cbn in *; try done.
  - intros n g' [Ht'|Ha]; [|apply Ht; by right]. destruct serverCheck; [|done]. injection Ht' as <- <-.
    rewrite Hn. by eapply fresh_quiet.
  - split; [done|]. by intros n [= <-].
  - intros -> n [= <-]. left. exists g. by left.
  - intros ->. by destruct (Hoff eq_refl) as (_ & ? & ?).
Qed.

Lemma ask_ok h h' : hook_ok h → ask h = Some h' → hook_ok h'.
Proof.
  intros [Hc Ht Hl Hv Hr Hd Hoff]. unfold ask. destruct (ah_timer h) as [[n0 g0]|] eqn:Et; [|done]. intros [= <-].
  constructor; cbn; try done.
  - intros n g [[=]|[Ha|Ha%list_elem_of_singleton]%elem_of_app]; [apply Ht; by right|]. simplify_eq. apply Ht. by left.
  - intros Hs n Hn. destruct (Hd Hs n Hn) as [(g & [[= -> ->]|Ha])|Ho]; [left; exists g; right..|by right]; set_solver.
  - intros Hs. by destruct (Hoff Hs) as (? & _).
Qed.

Lemma checked_ok i answer h h' : hook_ok h → checked i answer h = Some h' → hook_ok h'.
Proof.
  intros [Hc Ht Hl Hv [Hle Hr] Hd Hoff]. unfold checked. destruct (ah_asked h !! i) as [[n0 g0]|] eqn:Ei; [|done].
  assert (Hsub : ∀ x, x ∈ delete i (ah_asked h) → x ∈ ah_asked h) by (intros x; rewrite delete_take_drop, elem_of_app;
    intros [Hx|Hx]; [by eapply elem_of_take in Hx as (? & ? & _); eapply list_elem_of_lookup_2|by eapply subseteq_drop]).
  assert (Hin : ∀ x, x ∈ ah_asked h → x = (n0, g0) ∨ x ∈ delete i (ah_asked h)).
  { intros x Hx. rewrite delete_Permutation in Hx by done. by apply elem_of_cons in Hx. }
  assert (Hf0 : fresh_at n0 g0 (ah_store h)) by (apply Ht; right; by eapply list_elem_of_lookup_2).
  assert (Hdue : serverCheck = true → ∀ n, ah_ran h = Some n → n ≠ n0 →
            (∃ g, ah_timer h = Some (n, g) ∨ (n, g) ∈ delete i (ah_asked h)) ∨ (∃ c, ah_server h = Some c ∧ cd_seq c = n) ∨ ah_failed h = Some n).
  { intros Hs n Hn Hne. destruct (Hd Hs n Hn) as [(g & [Ha|Ha])|Ho]; [left; exists g; by left| |by right].
    apply Hin in Ha as [[= -> ->]|Ha]; [done|left; exists g; by right]. }
  destruct (ah_latest h =? n0) eqn:El; [apply Z.eqb_eq in El|apply Z.eqb_neq in El]; destruct answer as [[errors warnings]|];
    cbn [negb]; intros [= <-]; constructor; cbn; try done;
    try (intros Hs; destruct (Hoff Hs) as (_ & E & _); by rewrite E in Ei);
    try (intros n g [Ht'|Ha]; [apply Ht; by left|apply Ht; right; by apply Hsub]);
    try (intros g c [[= -> ->]|Hg]%elem_of_cons; [exact Hf0|by apply Hl]);
    try (intros Hs n Hn; apply Hdue; [done..|]; pose proof (Hr _ Hn); congruence).
  - intros c [= <-]. exists g0. left.
  - intros Hs n Hn. right. left. eexists. split; [done|]. pose proof (Hr _ Hn). cbn. congruence.
  - intros Hs n Hn. right. right. pose proof (Hr _ Hn). congruence.
  - intros c Hc'. destruct (Hv c Hc') as [g Hg]. exists g. by right.
Qed.

Lemma hook_step_ok h e h' : hook_ok h → hook_step serverCheck h e = Some h' → hook_ok h'.
Proof.
  intros Hh. destruct e as [now a| | |i answer]; cbn [hook_step].
  - intros [= <-]. apply with_flow_ok; [apply quiet_act| |done]. by apply cache_act, ho_cache.
  - intros [= <-]. by apply render_ok.
  - by apply ask_ok.
  - by apply checked_ok.
Qed.

Lemma hook_run_ok h events h' : hook_ok h → hook_run serverCheck h events = Some h' → hook_ok h'.
Proof.
  revert h. induction events as [|e events IH]; cbn; intros h Hh Hr; [by simplify_eq|].
  destruct (hook_step serverCheck h e) as [h1|] eqn:E; [|done]. eapply IH; [|done]. by eapply hook_step_ok.
Qed.

(** What a render shows, by the draft it is about. *)
Lemma shown_inv ctx h v :
  hook_ok h → useFlowAnalysis serverCheck ctx h = inr v →
  (∃ s1, same_logic (draft_of s1) (draft_of (ah_store h)) = true ∧ compileIvr (graph_view (graph s1)) ctx = inr (fa_compiled v)) ∧
  fa_server v = server_state_of serverCheck (fs_contentSeq (ah_store h)) (ah_server h) (ah_failed h) ∧
  fa_issues v = shown_issues (match current_check (fs_contentSeq (ah_store h)) (ah_server h) with
                              | Some c => fromServer (cd_errors c) sev_error ++ fromServer (cd_warnings c) sev_warning
                              | None => []
                              end) (cr_issues (fa_compiled v)) ∧
  fa_issuesByNode v = fold_left pin (fa_issues v) [].
Proof.
  intros Hh. destruct (contentGraph_fresh (ah_store h) (ho_cache _ Hh)) as [[_ Hf] _].
  destruct (contentGraph_quiet (ah_store h)) as [_ Hn]. unfold useFlowAnalysis, analysis_of.
  destruct (contentGraph (ah_store h)) as [s g]. cbn [fst snd] in *.
  destruct (compileIvr (graph_view g) ctx) as [e|compiled] eqn:Ec; [done|]. intros [= <-]. cbn. rewrite Hn.
  repeat split. destruct Hf as (s1 & -> & Hs); [done|]. by exists s1.
Qed.

(** A check shown as current is one of the draft. *)
Lemma current_about h c :
  hook_ok h → current_check (fs_contentSeq (ah_store h)) (ah_server h) = Some c →
  ∃ s0, (graph s0, c) ∈ ah_log h ∧ same_logic (draft_of s0) (draft_of (ah_store h)) = true.
Proof.
  intros Hh. unfold current_check. destruct (ah_server h) as [c'|] eqn:E; [|done].
  destruct (cd_seq c' =? fs_contentSeq (ah_store h)) eqn:Ec; [|done]. intros [= ->]. apply Z.eqb_eq in Ec.
  destruct (ho_server _ Hh _ E) as [g Hg]. destruct (ho_log _ Hh _ _ Hg) as [_ Hs]. destruct (Hs Ec) as (s0 & -> & Hl).
  by exists s0.
Qed.

(** ** Merging *)

Definition is_server (i : ShownIssue) : bool := sh_source i ==? from_server.

Lemma fromServer_all found sev : forallb is_server (fromServer found sev) = true.
Proof. by induction found. Qed.

Lemma pins_get issues m id :
  id ≠ "" →
  default [] (om_get id (fold_left pin issues m)) =
  default [] (om_get id m) ++ List.filter (λ i, ci_nodeId (sh_issue i) ==? Some id) issues.
Proof.
  intros Hid. revert m. induction issues as [|i issues IH]; intros m; cbn; [by rewrite app_nil_r|]. rewrite IH.
  unfold pin, truthy. destruct (ci_nodeId (sh_issue i)) as [n|] eqn:En; [|done].
  destruct (n ==? "") eqn:Ee.
  - apply bool_decide_eq_true in Ee as ->. by rewrite (bool_decide_eq_false_2 (Some "" = Some id)) by congruence.
  - destruct (decide (n = id)) as [->|Hne].
    + rewrite om_get_set_eq, (bool_decide_eq_true_2 (Some id = Some id)) by done. cbn. by rewrite <- app_assoc.
    + rewrite om_get_set_ne by done. by rewrite (bool_decide_eq_false_2 (Some n = Some id)) by congruence.
Qed.

Lemma server_part serverIssues client :
  forallb is_server serverIssues = true → List.filter is_server (shown_issues serverIssues client) = serverIssues.
Proof.
  intros Hs. unfold shown_issues. rewrite List.filter_app, (lfilter_all _ serverIssues) by by apply forallb_elem_of.
  rewrite lfilter_none; [by rewrite app_nil_r|]. by intros x (i & -> & _)%elem_of_lmap.
Qed.

Lemma client_part serverIssues client i :
  forallb is_server serverIssues = true →
  Build_ShownIssue i from_client ∈ shown_issues serverIssues client ↔
  i ∈ client ∧ ∀ j, j ∈ serverIssues → location j ≠ locationKey (ci_nodeId i) (ci_handle i).
Proof.
  intros Hs. rewrite forallb_elem_of in Hs. unfold shown_issues. rewrite elem_of_app, elem_of_lmap. split.
  - intros [Hi|(j & [= ->] & Hj)]; [by specialize (Hs _ Hi)|]. apply elem_of_lfilter in Hj as [Hj Hn]. split; [done|].
    intros j' Hj' E. apply negb_true_iff, includes_false in Hn. apply Hn. rewrite <- E. apply elem_of_lmap. by exists j'.
  - intros [Hi Hn]. right. exists i. split; [done|]. apply elem_of_lfilter. split; [done|]. apply negb_true_iff, includes_false.
    intros (j & E & Hj)%elem_of_lmap. by apply (Hn j).
Qed.

(** C11 The findings on the blocks are about the draft on the canvas: the
    compiled result is the one of a draft with its blocks, settings and
    connections; the server's check is shown as current only when it is the
    server's answer to such a draft, with exactly the findings of the answer,
    and otherwise no finding of the server is shown; a finding of the client
    is shown exactly where the server has none at its place; and every block
    has its findings in order. *)
Theorem findings_of_the_draft flow events h ctx v :
  hook_run serverCheck (open_builder (createFlowStore flow)) events = Some h →
  useFlowAnalysis serverCheck ctx h = inr v →
  (∃ s1, same_logic (draft_of s1) (draft_of (ah_store h)) = true ∧ compileIvr (graph_view (graph s1)) ctx = inr (fa_compiled v)) ∧
  ((fa_server v ≠ sv_current ∧ List.filter is_server (fa_issues v) = []) ∨
   (fa_server v = sv_current ∧
    ∃ s0 c, (graph s0, c) ∈ ah_log h ∧ same_logic (draft_of s0) (draft_of (ah_store h)) = true ∧
            List.filter is_server (fa_issues v) = fromServer (cd_errors c) sev_error ++ fromServer (cd_warnings c) sev_warning)) ∧
  (∀ i, Build_ShownIssue i from_client ∈ fa_issues v ↔
        i ∈ cr_issues (fa_compiled v) ∧
        ∀ j, j ∈ List.filter is_server (fa_issues v) → location j ≠ locationKey (ci_nodeId i) (ci_handle i)) ∧
  (∀ id, id ≠ "" → default [] (om_get id (fa_issuesByNode v)) = List.filter (λ i, ci_nodeId (sh_issue i) ==? Some id) (fa_issues v)).
Proof.
  intros Hr Hv. assert (Hh : hook_ok h) by (eapply hook_run_ok; [|done]; apply hook_open_ok, cache_start).
  destruct (shown_inv _ _ _ Hh Hv) as (Hc & Hs & Hi & Hb). split; [done|].
  set (mine := match current_check (fs_contentSeq (ah_store h)) (ah_server h) with Some c => _ | None => _ end) in Hi.
  assert (Hm : forallb is_server mine = true).
  { subst mine. destruct (current_check _ _); [|done]. by rewrite forallb_app, !fromServer_all. }
  rewrite Hi, Hb, server_part by done. split; [|split].
  - subst mine. rewrite Hs. unfold server_state_of. destruct (current_check _ _) as [c|] eqn:Ec.
    + destruct serverCheck eqn:Es; cbn [negb].
      * right. split; [done|]. destruct (current_about _ _ Hh Ec) as (s0 & Hl & Hd). by exists s0, c.
      * destruct (ho_off _ Hh Es) as (_ & _ & E). by rewrite E in Ec.
    + left. split; [|done]. destruct serverCheck; cbn; [|done]. by case_match.
  - intros i. by apply client_part.
  - intros id Hid. rewrite Hi. by apply (pins_get _ []).
Qed.

(** C12 A draft that rests gets its check: as long as the builder reads as
    checking, a render that sets the quiet time is due, the quiet time of this
    very content runs, or a check of it is under way; and whatever else is
    under way, an answer to that check ends it: as current when there is one,
    as current or unavailable when it failed. *)
Theorem check_comes flow events h :
  serverCheck = true → hook_run serverCheck (open_builder (createFlowStore flow)) events = Some h →
  let seq := fs_contentSeq (ah_store h) in
  let state h := server_state_of serverCheck (fs_contentSeq (ah_store h)) (ah_server h) (ah_failed h) in
  (state h = sv_checking →
     (ah_ran h ≠ Some seq ∧ ∃ g, ah_timer (render serverCheck h) = Some (seq, g)) ∨
     (ah_ran h = Some seq ∧ ((∃ g, ah_timer h = Some (seq, g)) ∨ ∃ i g, ah_asked h !! i = Some (seq, g)))) ∧
  (ah_ran h = Some seq → ∀ i g answer h',
     ah_asked h !! i = Some (seq, g) → checked i answer h = Some h' →
     state h' ≠ sv_checking ∧ (is_Some answer → state h' = sv_current)).
Proof.
  intros Hs Hr seq state. assert (Hh : hook_ok h) by (eapply hook_run_ok; [|done]; apply hook_open_ok, cache_start). split.
  - intros Hc. destruct (decide (ah_ran h = Some seq)) as [Er|Er].
    + right. split; [done|]. destruct (ho_due _ Hh Hs _ Er) as [(g & [Ht|Ha])|[(c & Ev & Ec)|Ef]].
      * left. by exists g.
      * right. apply list_elem_of_lookup in Ha as [i Hi]. by exists i, g.
      * subst state. cbn in Hc. unfold server_state_of, current_check in Hc. rewrite Hs, Ev, Ec, Z.eqb_refl in Hc. done.
      * subst state. cbn in Hc. unfold server_state_of in Hc. rewrite Hs, Ef in Hc. cbn [negb] in Hc.
        rewrite (bool_decide_eq_true_2 (Some seq = Some (fs_contentSeq (ah_store h)))) in Hc by done. by case_match.
    + left. split; [done|]. destruct (contentGraph_quiet (ah_store h)) as [_ Hn]. unfold render.
      destruct (contentGraph (ah_store h)) as [s g]. cbn [fst] in Hn. rewrite Hn, (bool_decide_eq_false_2 _ Er), Hs. by exists g.
  - intros Er i g answer h' Hi. destruct (ho_latest _ Hh) as [_ Hl]. specialize (Hl _ Er).
    unfold checked. rewrite Hi, Hl, Z.eqb_refl. cbn [negb]. intros [= <-]. subst state. cbn.
    unfold server_state_of, current_check. rewrite Hs. cbn [negb].
    destruct answer as [[errors warnings]|]; cbn; rewrite ?Z.eqb_refl; [by split|]. split; [|by intros [? [=]]].
    fold seq. rewrite (bool_decide_eq_true_2 (Some seq = Some seq)) by done. by case_match.
Qed.
End hook_ok.

(** ** A session *)

Definition nothing_known : CompileContext := Build_CompileContext None None [] None.

Definition greeting_line : Flow :=
  {| fl_id := 1; fl_name := "Main line"; fl_revision := 3; fl_published_version := None; fl_published_at := None;
     fl_numbers := [];
     fl_draft_graph :=
       VObj [("nodes", VArr [VObj [("id", VStr "start"); ("type", VStr "entry")]; VObj [("id", VStr "hi"); ("type", VStr "play")]]);
             ("edges", VArr [VObj [("source", VStr "start"); ("target", VStr "hi")]])] |}.

(** A menu is added while the first check is under way; the second is
    answered before the first. *)
Definition no_key : Issue := Build_Issue "menu_empty" "Add at least one key." (Some "n_1") None.
Definition two_checks : list hook_event :=
  [he_render; he_ask; he_act 5000 (a_addBlock menu None (Some ("hi", "next"))); he_render; he_ask;
   he_checked 1 (Some ([no_key], [])); he_checked 0 (Some ([], []))].

Abbreviation hooked := (open_builder (@createFlowStore numerals greeting_line)).

Definition after_two : Hook :=
  Eval vm_compute in default hooked (@hook_run numerals basic_flow true hooked two_checks).

Definition shown_after_two : stop + FlowAnalysis := useFlowAnalysis true nothing_known after_two.

(** The answer to the later check is shown, the late answer to the earlier one
    is not; the client's own findings are shown where the server has none. *)
Example two_checks_shown :
  match shown_after_two with
  | inr v => fa_server v = sv_current ∧
             List.map (λ i, ci_code (sh_issue i)) (List.filter is_server (fa_issues v)) = ["menu_empty"] ∧
             om_keys (fa_issuesByNode v) = ["n_1"; "hi"] ∧ (fa_errorCount v, fa_warningCount v) = (4, 2)%nat ∧
             fa_titleOf v "n_1" = Some "Menu"
  | inl _ => False
  end.
Proof. vm_compute. repeat split. Qed.

Definition two_shown : FlowAnalysis :=
  match shown_after_two with
  | inr v => v
  | inl _ => Build_FlowAnalysis (Build_CompileResult true [] (Build_PlanPreview None 0 0 [] []) []) [] [] 0 0 sv_off
               (summary_of nothing_known []) [] (λ _, None)
  end.

Lemma shown_is_two : shown_after_two = inr two_shown.
Proof.
  assert (match shown_after_two with inr _ => true | inl _ => false end = true) as E by (vm_compute; reflexivity).
  unfold two_shown. by destruct shown_after_two.
Qed.

Lemma findings_of_the_draft_witness :
  (fa_server two_shown ≠ sv_current ∧ List.filter is_server (fa_issues two_shown) = []) ∨
  (fa_server two_shown = sv_current ∧
   ∃ s0 c, (graph s0, c) ∈ ah_log after_two ∧ same_logic (draft_of s0) (draft_of (ah_store after_two)) = true ∧
           List.filter is_server (fa_issues two_shown) = fromServer (cd_errors c) sev_error ++ fromServer (cd_warnings c) sev_warning).
Proof.
  refine (proj1 (proj2 (@findings_of_the_draft numerals basic_flow basic_flow_laws true greeting_line two_checks after_two nothing_known two_shown _ _)));
    [vm_compute; reflexivity|exact shown_is_two].
Defined.

(** The check of the menu is under way. *)
Definition menu_asked : Hook :=
  Eval vm_compute in default hooked (@hook_run numerals basic_flow true hooked (take 5 two_checks)).

Lemma check_comes_witness :
  server_state_of true (fs_contentSeq (ah_store menu_asked)) (ah_server menu_asked) (ah_failed menu_asked) = sv_checking ∧
  ((ah_ran menu_asked ≠ Some (fs_contentSeq (ah_store menu_asked)) ∧
   ∃ g, ah_timer (render true menu_asked) = Some (fs_contentSeq (ah_store menu_asked), g)) ∨
  (ah_ran menu_asked = Some (fs_contentSeq (ah_store menu_asked)) ∧
   ((∃ g, ah_timer menu_asked = Some (fs_contentSeq (ah_store menu_asked), g)) ∨
    ∃ i g, ah_asked menu_asked !! i = Some (fs_contentSeq (ah_store menu_asked), g)))).
Proof.
  split; [vm_compute; reflexivity|].
  refine (proj1 (@check_comes numerals basic_flow basic_flow_laws true greeting_line (take 5 two_checks) menu_asked _ _) _);
    vm_compute; reflexivity.
Defined.
