(* ===== verification/Publish.v ===== *)
(** * Publishing a draft ([flow/panels/PublishPanel.tsx])

    The panel saves the draft, has the server check it, and publishes by
    revision; it works on the autosave of the builder ([Autosave]) while the
    canvas stays editable beside it.  The server is its drafts by revision
    and the draft callers hear. *)
From S2P Require Import Prelude JsString JsValue Blocks Graph History IvrTypes Effects Compile FlowState Store StoreOk IvrError Autosave AutosaveOk.

Local Open Scope string_scope.
Local Open Scope Z_scope.
Local Open Scope list_scope.

(** ** The panel *)

Definition ValidateResult : Type := list Issue * list Issue.

(** [ph_checked None]: the server could not be asked. *)
Inductive Phase := ph_saving | ph_save_failed | ph_checking | ph_checked (result : option ValidateResult).

(** Where the latest run of the effect stands: at [await flush()], or at the
    check of a draft. *)
Inductive Stage := sg_flush | sg_check (draft : value).

(** [pn_ran] is the content the effect last ran for.  [pn_about] is the draft
    the check shown was asked about, and the second part of [pn_publishing]
    the draft on the canvas when Publish was pressed; nothing reads them. *)
Record Panel := {
  pn_phase : Phase;
  pn_ran : Z;
  pn_run : option Stage;
  pn_about : option value;
  pn_publishing : option (Z * FlowSnapshot);
  pn_publishErrors : option (list Issue);
}.

Definition client_errors (ctx : CompileContext) (graph : value) : option (list ClientIssue) :=
  match compileIvr (graph_view graph) ctx with
  | inl _ => None
  | inr compiled => Some (List.filter (λ i, ci_severity i ==? sev_error) (cr_issues compiled))
  end.

(** The messages of the errors that block publishing. *)
Definition panel_errors (ctx : CompileContext) (graph : value) (p : Panel) : option (list string) :=
  let result := match pn_phase p with ph_checked r => r | _ => None end in
  match pn_phase p, result with
  | ph_checked None, _ => List.map ci_message <$> client_errors ctx graph
  | _, _ =>
      Some (List.map is_message
              (match pn_publishErrors p with
               | Some errors => errors
               | None => match result with Some r => r.1 | None => [] end
               end))
  end.

Definition canPublish (ctx : CompileContext) (graph : value) (p : Panel) : bool :=
  match pn_phase p with
  | ph_checked _ => (panel_errors ctx graph p ==? Some []) && (match pn_publishing p with None => true | Some _ => false end)
  | _ => false
  end.

(** The effect runs: a new run, the earlier one being dropped. *)
Definition run_effect (contentSeq : Z) (p : Panel) : Panel :=
  Build_Panel (pn_phase p) contentSeq (Some sg_flush) (pn_about p) (pn_publishing p) (pn_publishErrors p).

(** After [await flush()], and after the check. *)
Definition flushed (saved : bool) (draft : value) (p : Panel) : Panel :=
  if saved then Build_Panel ph_checking (pn_ran p) (Some (sg_check draft)) (pn_about p) (pn_publishing p) (pn_publishErrors p)
  else Build_Panel ph_save_failed (pn_ran p) None (pn_about p) (pn_publishing p) (pn_publishErrors p).

Definition validated (draft : value) (result : option ValidateResult) (p : Panel) : Panel :=
  Build_Panel (ph_checked result) (pn_ran p) None (Some draft) (pn_publishing p) (pn_publishErrors p).

(** Publish is pressed. *)
Definition press_publish (s : FlowState) (p : Panel) : Panel :=
  Build_Panel (pn_phase p) (pn_ran p) (pn_run p) (pn_about p) (Some (fs_revision s, draft_of s)) None.

Record PublishResult := { pr_version : Z; pr_published_at : string }.

(** [onError]; [None] closes the panel. *)
Definition publish_failed (err : thrown) (p : Panel) : option Panel :=
  let p := Build_Panel (pn_phase p) (pn_ran p) (pn_run p) (pn_about p) None (pn_publishErrors p) in
  if isIvrError err 409 "stale_revision" then None
  else if isIvrError err 422 "invalid_flow"
  then Some (Build_Panel (pn_phase p) (pn_ran p) (pn_run p) (pn_about p) None (Some (eb_errors (readIvrError err))))
  else Some p.

Definition published_meta (r : PublishResult) : MetaPatch :=
  Build_MetaPatch None (Some (Some (pr_version r))) (Some (Some (pr_published_at r))) None.

(** ** The server *)

(** [sv_log] has every draft the server held, by its revision, the latest
    first. *)
Record Server := {
  sv_log : list (Z * value);
  sv_live : option value;
}.

Definition held (sv : Server) : option (Z * value) := head (sv_log sv).

(** The server has a new draft, at a revision above the last. *)
Definition new_draft (rev : Z) (d : value) (sv : Server) : option Server :=
  match held sv with
  | Some (r, _) => if r <? rev then Some (Build_Server ((rev, d) :: sv_log sv) (sv_live sv)) else None
  | None => None
  end.

Definition rev_draft (rev : Z) (sv : Server) : option value :=
  match held sv with Some (r, d) => if r =? rev then Some d else None | None => None end.

(** ** The builder with the panel *)

(** [wd_taken] is the revision the server gave the PUT under way once it took
    it, [wd_done] whether it took the publish under way. *)
Record World := {
  wd_auto : Auto;
  wd_panel : option Panel;
  wd_server : Server;
  wd_taken : option Z;
  wd_done : bool;
}.

Definition with_auto (a : Auto) (w : World) : World := Build_World a (wd_panel w) (wd_server w) (wd_taken w) (wd_done w).
Definition with_panel (p : option Panel) (w : World) : World := Build_World (wd_auto w) p (wd_server w) (wd_taken w) (wd_done w).
Definition with_server (sv : Server) (w : World) : World := Build_World (wd_auto w) (wd_panel w) sv (wd_taken w) (wd_done w).
Definition with_taken (t : option Z) (w : World) : World := Build_World (wd_auto w) (wd_panel w) (wd_server w) t (wd_done w).
Definition with_done (b : bool) (w : World) : World := Build_World (wd_auto w) (wd_panel w) (wd_server w) (wd_taken w) b.

Definition store_of (w : World) : FlowState := au_store (wd_auto w).

(** [reported] is what a step of autosave told those who wait for it; the
    panel's run goes on when it is told, [mine] being what. *)
Inductive world_event :=
  | we_auto (e : event) (mine : option bool)
  | we_take (rev : Z)
  | we_elsewhere (rev : Z) (d : value)
  | we_open (mine : option bool)
  | we_render (mine : option bool)
  | we_validated (result : option ValidateResult)
  | we_publish
  | we_publish_take
  | we_published (answer : PublishResult + thrown)
  | we_close.

Section world.
Context `{IdSupply} `{ReactFlow} (ctx : CompileContext).

(** An answer to a PUT is the server's, a draft that is loaded the one it has. *)
Definition server_says (e : event) (w : World) : bool :=
  match e with
  | ev_answer (inl flow) _ => wd_taken w ==? Some (fl_revision flow)
  | ev_loadLatest_read (inl flow) _ | ev_keepMine_read (inl flow) | ev_act _ (a_load flow _) =>
      held (wd_server w) ==? Some (fl_revision flow, fl_draft_graph flow)
  | _ => true
  end.

(** The run that waits for [flush] is told. *)
Definition tell_panel (mine : option bool) (reported : list bool) (w : World) : option World :=
  match mine with
  | None => Some w
  | Some saved =>
      match wd_panel w with
      | Some p =>
          match pn_run p with
          | Some sg_flush =>
              if includes reported saved then Some (with_panel (Some (flushed saved (graph (store_of w)) p)) w) else None
          | _ => None
          end
      | None => None
      end
  end.

Definition is_answer (e : event) : bool := match e with ev_answer _ _ => true | _ => false end.

(** A step of autosave. *)
Definition auto_step (e : event) (mine : option bool) (w : World) : option World :=
  if server_says e w then
    let '(a, reported) := run e (wd_auto w) in
    tell_panel mine reported (with_taken (if is_answer e then None else wd_taken w) (with_auto a w))
  else None.

(** The effect of the panel: [flush] is called. *)
Definition effect (p : Panel) (mine : option bool) (w : World) : option World :=
  let '(a, reported) := flush false (wd_auto w) in
  tell_panel mine reported (with_panel (Some (run_effect (fs_contentSeq (store_of w)) p)) (with_auto a w)).

Definition world_step (w : World) (e : world_event) : option World :=
  let s := store_of w in
  match e with
  | we_auto e mine => auto_step e mine w
  | we_take rev =>
      match au_inFlight (wd_auto w), wd_taken w with
      | Some p, None =>
          _ ← rev_draft (fu_revision (pt_body p)) (wd_server w);
          sv ← new_draft rev (fu_draft_graph (pt_body p)) (wd_server w);
          Some (with_taken (Some rev) (with_server sv w))
      | _, _ => None
      end
  | we_elsewhere rev d => sv ← new_draft rev d (wd_server w); Some (with_server sv w)
  | we_open mine =>
      match wd_panel w with
      | None => effect (Build_Panel ph_saving 0 None None None None) mine w
      | Some _ => None
      end
  | we_render mine =>
      match wd_panel w with
      | Some p => if pn_ran p =? fs_contentSeq s then None else effect p mine w
      | None => None
      end
  | we_validated result =>
      match wd_panel w with
      | Some p => match pn_run p with Some (sg_check d) => Some (with_panel (Some (validated d result p)) w) | _ => None end
      | None => None
      end
  | we_publish =>
      match wd_panel w with
      | Some p =>
          if canPublish ctx (contentGraph s).2 p then Some (with_done false (with_panel (Some (press_publish s p)) w)) else None
      | None => None
      end
  | we_publish_take =>
      match wd_panel w with
      | Some p =>
          '(rev, _) ← pn_publishing p;
          if wd_done w then None
          else d ← rev_draft rev (wd_server w);
               Some (with_done true (with_server (Build_Server (sv_log (wd_server w)) (Some d)) w))
      | None => None
      end
  | we_published answer =>
      match wd_panel w with
      | Some p =>
          _ ← pn_publishing p;
          match answer with
          | inl r =>
              if wd_done w
              then Some (with_panel None (with_auto (set_store false (setMeta (published_meta r) s) (wd_auto w)) w))
              else None
          | inr err => Some (with_panel (publish_failed err p) w)
          end
      | None => None
      end
  | we_close =>
      match wd_panel w with
      | Some p => match pn_publishing p with None => Some (with_panel None w) | Some _ => None end
      | None => None
      end
  end.

Fixpoint world_run (w : World) (events : list world_event) : option World :=
  match events with
  | [] => Some w
  | e :: events => match world_step w e with Some w => world_run w events | None => None end
  end.

(** The builder is opened on the draft the server has. *)
Definition open_flow (flow : Flow) : World :=
  Build_World (start false (createFlowStore flow)) None
    (Build_Server [(fl_revision flow, fl_draft_graph flow)] None) None false.
End world.
