(* ===== verification/PublishOk.v ===== *)
(** * What callers hear is what was shown and checked

    Theorems on [Publish]: the draft that goes live has the blocks, settings
    and connections that were on the canvas when Publish was pressed, and the
    check that let it be pressed was of them; and where that fails. *)
From S2P Require Import Prelude JsString JsValue Blocks Graph History IvrTypes Effects Compile FlowState Store StoreOk StoreRun IvrError Autosave AutosaveOk ContentOk Analysis AnalysisOk Publish.

Local Open Scope string_scope.
Local Open Scope Z_scope.
Local Open Scope list_scope.

Section publish_ok.
Context `{IdSupply} `{ReactFlow} `{!ReactFlowLaws} (ctx : CompileContext).

(** ** Drafts as JSON *)

Definition loaded_draft (k : nat) (d : value) : FlowSnapshot :=
  let g := (fromGraph k d).1 in snapshotOf (List.map flow_node (wg_nodes g)) (List.map flow_edge (wg_edges g)).

(** [d] was written from a draft, or is read as one, that [same] compares
    equal to [snap]. *)
Definition stands (same : FlowSnapshot → FlowSnapshot → bool) (d : value) (snap : FlowSnapshot) : Prop :=
  (∃ s0, d = graph s0 ∧ same (draft_of s0) snap = true) ∨ (∃ k, same (loaded_draft k d) snap = true).

Lemma stands_logic d snap : stands sameSnapshot d snap → stands same_logic d snap.
Proof. intros [(s0 & -> & Hs)|[k Hk]]; [left; exists s0; split; [done|]|right; exists k]; by apply same_logic_of. Qed.

Lemma stands_trans same d snap snap' :
  (∀ a b c, same a b = true → same b c = true → same a c = true) →
  stands same d snap → same snap snap' = true → stands same d snap'.
Proof. intros Ht [(s0 & -> & Hs)|[k Hk]] Hn; [left; exists s0; split; [done|]|right; exists k]; by eapply Ht. Qed.

Lemma load_draft_of now flow u s : draft_of (load now flow u s) = loaded_draft (fs_drawn s) (fl_draft_graph flow).
Proof. unfold load, loaded_draft, draft_of. by destruct (fromGraph _ _). Qed.

Lemma create_draft_of flow : draft_of (createFlowStore flow) = loaded_draft 0 (fl_draft_graph flow).
Proof. unfold createFlowStore, loaded_draft, draft_of. by destruct (fromGraph _ _). Qed.

(** ** Steps of autosave *)

(** Conflicts are not resolved by overwriting, and drafts are loaded with no
    PUT under way. *)
Definition timely (e : event) (a : Auto) : Prop :=
  may e a ∧
  match e with
  | ev_keepMine | ev_keepMine_read _ => False
  | ev_act _ (a_load _ _) | ev_loadLatest_read _ _ => au_inFlight a = None
  | _ => True
  end.

Lemma flush_now_keeps a p : au_inFlight a = Some p → au_inFlight (flush_now false a).1 = Some p.
Proof. intros E. unfold flush_now. case_match; [|done]. unfold save_report, save. rewrite E. cbn. by rewrite E. Qed.

Lemma run_keeps_put e a p :
  timely e a → au_inFlight a = Some p → is_answer e = false → au_inFlight (run e a).1 = Some p.
Proof.
  intros [_ Ht] E He. destruct e as [now x| |answer now| | |answer| |answer now]; try done; cbn [run fst].
  - by rewrite (proj1 (proj2 (set_store_frame _ _))).
  - unfold fire. destruct (au_timer a) as [[]|]; [|unfold save|done]; cbn; by rewrite E.
  - unfold flush. destruct (is_conflict (au_status a)); [done|]. change (au_inFlight (with_timer None a)) with (au_inFlight a).
    by rewrite E.
  - congruence.
Qed.

(** A draft of the server is loaded. *)
Definition loads (a : Auto) (s' : FlowState) : Prop :=
  ∃ now flow u, s' = load now flow u (au_store a) ∧ au_inFlight a = None.

(** The counters stand or move on, the draft being the same while they stand. *)
Definition moves_on (s s' : FlowState) : Prop :=
  fs_revision s' = fs_revision s ∧ fs_savedSeq s' = fs_savedSeq s ∧ follows s s' ∧ quiet s s'.

Lemma moves_refl s : moves_on s s.
Proof. repeat split; try done. - intros _. apply sameSnapshot_refl. - intros _. apply same_logic_refl. Qed.

Lemma quiet_answer p flow s : quiet s (setMeta (published_patch flow) (markSaved (pt_seq p) (fl_revision flow) s)).
Proof. by apply quiet_same. Qed.

(** What a step does to the store. *)
Lemma run_cases e a :
  timely e a →
  (∃ now flow u, (e = ev_act now (a_load flow u) ∨ e = ev_loadLatest_read (inl flow) now) ∧
     au_store (run e a).1 = load now flow u (au_store a) ∧ au_inFlight a = None) ∨
  (∃ p flow now, e = ev_answer (inl flow) now ∧ au_inFlight a = Some p ∧
     au_store (run e a).1 = setMeta (published_patch flow) (markSaved (pt_seq p) (fl_revision flow) (au_store a))) ∨
  moves_on (au_store a) (au_store (run e a).1).
Proof.
  intros [Hm Ht]. pose proof (run_follows e a Hm) as Hf. destruct e as [now x| |answer now| | |answer| |answer now]; try done.
  - destruct (match x with a_load _ _ => true | _ => false end) eqn:Ex.
    + destruct x as [flow u| | | | | | | | | | | | | | | | | | | | | | | | | | | |]; try done. left. exists now, flow, u.
      split; [by left|]. cbn [run fst]. by rewrite set_store_store.
    + right. right. cbn [run fst] in *. rewrite set_store_store in *. split; [|split; [|split; [exact Hf|apply quiet_act]]].
      * rewrite act_revision by apply Hm. by destruct x.
      * destruct (act_saved now x a (Build_ServerSeen VUndef cr_none) (proj1 Hm)) as [(flow & u & ->)|[Hv _]]; [done|exact Hv].
  - right. right. cbn [run fst]. rewrite fire_store. apply moves_refl.
  - destruct answer as [flow|err], (au_inFlight a) as [p|] eqn:E.
    + right. left. exists p, flow, now. split; [done|]. split; [done|]. cbn [run]. by rewrite answered_store, E.
    + right. right. cbn [run]. rewrite answered_store, E. apply moves_refl.
    + right. right. cbn [run]. rewrite answered_store, E. apply moves_refl.
    + right. right. cbn [run]. rewrite answered_store, E. apply moves_refl.
  - right. right. cbn [run]. rewrite flush_store. apply moves_refl.
  - right. right. apply moves_refl.
  - cbn [run]. destruct (au_loading a) eqn:El; [right; right; rewrite loadLatest_store, El; apply moves_refl|].
    destruct answer as [flow|err]; [|right; right; rewrite loadLatest_store, El; apply moves_refl].
    left. exists now, flow, false. split; [by right|]. by rewrite loadLatest_store, El.
Qed.

(** ** The invariant *)

(** The server's drafts go up in revision. *)
Definition log_ok (sv : Server) : Prop := StronglySorted (λ x y, y.1 < x.1) (sv_log sv).

(** The store's revision is one of a draft with its call logic, and so is the
    draft of the PUT under way. *)
Definition settled_on (a : Auto) (sv : Server) : Prop :=
  (∃ d, (fs_revision (au_store a), d) ∈ sv_log sv ∧ stands same_logic d (draft_of (au_store a))) ∧
  ∀ p, au_inFlight a = Some p → stands same_logic (fu_draft_graph (pt_body p)) (draft_of (au_store a)).

(** The store's revision is the one of the draft that was saved last. *)
Record auto_ok (a : Auto) (sv : Server) : Prop := {
  ak_held : ∃ d, (fs_revision (au_store a), d) ∈ sv_log sv ∧ fs_savedSeq (au_store a) ≤ fs_changeSeq (au_store a) ∧
            (fs_savedSeq (au_store a) = fs_changeSeq (au_store a) → stands sameSnapshot d (draft_of (au_store a)));
  ak_put : ∀ p, au_inFlight a = Some p →
           fs_savedSeq (au_store a) ≤ pt_seq p ≤ fs_changeSeq (au_store a) ∧
           (pt_seq p = fs_changeSeq (au_store a) → stands sameSnapshot (fu_draft_graph (pt_body p)) (draft_of (au_store a)));
}.

(** What the panel goes by is about the canvas, while its content is the one
    the effect ran for. *)
Definition panel_ok (a : Auto) (sv : Server) (p : Panel) : Prop :=
  pn_ran p ≤ fs_contentSeq (au_store a) ∧
  (pn_ran p = fs_contentSeq (au_store a) →
   let about d := settled_on a sv ∧ stands same_logic d (draft_of (au_store a)) in
   match pn_run p, pn_phase p with
   | Some (sg_check d), _ => about d
   | None, ph_checked _ => ∃ d, pn_about p = Some d ∧ about d
   | _, _ => True
   end).

Record world_ok (w : World) : Prop := {
  wk_log : log_ok (wd_server w);
  wk_auto : auto_ok (wd_auto w) (wd_server w);
  wk_taken : ∀ rev, wd_taken w = Some rev →
             ∃ p, au_inFlight (wd_auto w) = Some p ∧ (rev, fu_draft_graph (pt_body p)) ∈ sv_log (wd_server w);
  wk_panel : ∀ p, wd_panel w = Some p → panel_ok (wd_auto w) (wd_server w) p;
  wk_publishing : ∀ p r seen, wd_panel w = Some p → pn_publishing p = Some (r, seen) →
                  ∃ d, (r, d) ∈ sv_log (wd_server w) ∧ stands same_logic d seen;
}.

(** Nothing unsaved: the draft saved last is the one on the canvas. *)
Lemma clean_settled a sv : auto_ok a sv → dirty (au_store a) = false → settled_on a sv.
Proof.
  intros [(d & Hd & Hle & Hs) Hp] Hc. unfold dirty in Hc. apply Z.ltb_ge in Hc. split.
  - exists d. split; [done|]. apply stands_logic, Hs. lia.
  - intros p Ep. destruct (Hp p Ep) as [Hl Hs']. apply stands_logic, Hs'. lia.
Qed.

(** ** Steps of the server *)

Definition grows (sv sv' : Server) : Prop := ∀ x, x ∈ sv_log sv → x ∈ sv_log sv'.

Lemma settled_grows a sv sv' : grows sv sv' → settled_on a sv → settled_on a sv'.
Proof. intros Hg [(d & Hd & Hs) Hp]. split; [|done]. exists d. split; [by apply Hg|done]. Qed.

Lemma auto_grows a sv sv' : grows sv sv' → auto_ok a sv → auto_ok a sv'.
Proof. intros Hg [(d & Hd & Hs) Hp]. constructor; [|done]. exists d. split; [by apply Hg|done]. Qed.

Lemma panel_grows a sv sv' p : grows sv sv' → panel_ok a sv p → panel_ok a sv' p.
Proof.
  intros Hg [Hle Hp]. split; [done|]. intros E. specialize (Hp E). cbv zeta in *.
  destruct (pn_run p) as [[|d]|]; [done| |destruct (pn_phase p); try done].
  - destruct Hp. split; [by eapply settled_grows|done].
  - destruct Hp as (d & Ed & Hs & Hd). exists d. split; [done|]. split; [by eapply settled_grows|done].
Qed.

Lemma new_draft_ok rev d sv sv' :
  log_ok sv → new_draft rev d sv = Some sv' → log_ok sv' ∧ grows sv sv' ∧ (rev, d) ∈ sv_log sv'.
Proof.
  unfold new_draft, held, log_ok, grows. destruct (sv_log sv) as [|[r d0] l] eqn:E; [done|]. cbn.
  destruct (r <? rev) eqn:Er; [|done]. apply Z.ltb_lt in Er. intros Hs [= <-]. cbn. split; [|split].
  - constructor; [done|]. apply StronglySorted_inv in Hs as [_ Hs]. constructor; [done|].
    eapply Forall_impl; [exact Hs|]. cbn. intros x Hx. lia.
  - intros x. by apply list_elem_of_further.
  - left.
Qed.

Lemma log_unique sv r d d' : log_ok sv → (r, d) ∈ sv_log sv → (r, d') ∈ sv_log sv → d = d'.
Proof.
  unfold log_ok. induction (sv_log sv) as [|[r0 d0] l IH]; [by intros _ ?%not_elem_of_nil|].
  intros [Hs Hf]%StronglySorted_inv. rewrite Forall_forall in Hf.
  intros [[= -> ->]|Ha]%elem_of_cons [[= ->]|Hb]%elem_of_cons; try done.
  - apply Hf in Hb. cbn in Hb. lia.
  - apply Hf in Ha. cbn in Ha. simplify_eq. lia.
  - by apply IH.
Qed.

Lemma rev_draft_log rev sv d : rev_draft rev sv = Some d → (rev, d) ∈ sv_log sv.
Proof.
  unfold rev_draft, held. destruct (sv_log sv) as [|[r d0] l]; [done|]. cbn. destruct (r =? rev) eqn:E; [|done].
  apply Z.eqb_eq in E as ->. intros [= ->]. left.
Qed.

Lemma held_log sv r d : held sv = Some (r, d) → (r, d) ∈ sv_log sv.
Proof. unfold held. destruct (sv_log sv); [done|]. intros [= ->]. left. Qed.

(** ** Steps of autosave keep the invariant *)

Lemma stands_graph same s snap : same (draft_of s) snap = true → stands same (graph s) snap.
Proof. intros Hs. left. by exists s. Qed.

(** The PUT after a step. *)
Lemma put_after e a p :
  au_inFlight (run e a).1 = Some p →
  (pt_seq p = fs_changeSeq (au_store (run e a).1) ∧ fu_draft_graph (pt_body p) = graph (au_store (run e a).1)) ∨
  (au_inFlight a = Some p ∧ is_answer e = false).
Proof.
  intros [(Hs & Hg & _)|[Hp He]]%run_put; [by left|right]. split; [done|].
  destruct e; try done. by exfalso; eapply He.
Qed.

Lemma auto_step_ok e w :
  world_ok w → timely e (wd_auto w) → server_says e w = true → auto_ok (run e (wd_auto w)).1 (wd_server w).
Proof.
  intros Hw Ht Hs. pose proof (wk_auto _ Hw) as [(d & Hd & Hle & Hsd) Hp].
  assert (Hf : follows (au_store (wd_auto w)) (au_store (run e (wd_auto w)).1)) by (apply run_follows, Ht).
  assert (Hput : ∀ p, au_inFlight (run e (wd_auto w)).1 = Some p →
     fs_savedSeq (au_store (run e (wd_auto w)).1) ≤ fs_changeSeq (au_store (run e (wd_auto w)).1) →
     (is_answer e = false → au_inFlight (wd_auto w) = Some p → fs_savedSeq (au_store (run e (wd_auto w)).1) ≤ pt_seq p) →
     fs_savedSeq (au_store (run e (wd_auto w)).1) ≤ pt_seq p ≤ fs_changeSeq (au_store (run e (wd_auto w)).1) ∧
     (pt_seq p = fs_changeSeq (au_store (run e (wd_auto w)).1) →
        stands sameSnapshot (fu_draft_graph (pt_body p)) (draft_of (au_store (run e (wd_auto w)).1)))).
  { intros p Ep Hle' Hold. apply put_after in Ep as [[Es Eg]|[Ep Ee]].
    - rewrite Es, Eg. split; [lia|]. intros _. apply stands_graph, sameSnapshot_refl.
    - destruct (Hp p Ep) as [Hl Hsp]. destruct Hf as [Hc Hq]. split; [specialize (Hold Ee Ep); lia|]. intros E.
      eapply stands_trans; [apply sameSnapshot_trans|apply Hsp; lia|apply Hq; lia]. }
  destruct (run_cases e (wd_auto w) Ht) as [(now & flow & u & He & Es & En)|[(p & flow & now & -> & Ep & Es)|(Er & Ev & _ & _)]].
  - destruct (load_seqs now flow u (au_store (wd_auto w))) as [Hc Hv].
    assert (Hrev : fs_revision (load now flow u (au_store (wd_auto w))) = fl_revision flow)
      by (unfold load; by destruct (fromGraph _ _)).
    constructor; [|intros p Ep; apply Hput; [done|rewrite Es, Hc, Hv; lia|intros _; congruence]].
    rewrite Es, Hrev, Hc, Hv. exists (fl_draft_graph flow). split; [|split; [done|]].
    + apply held_log. destruct He as [-> | ->]; cbn in Hs; by apply bool_decide_eq_true in Hs.
    + intros _. rewrite load_draft_of. right. exists (fs_drawn (au_store (wd_auto w))). apply sameSnapshot_refl.
  - cbn in Hs. apply bool_decide_eq_true in Hs. destruct (wk_taken _ Hw _ Hs) as (p' & Ep' & Hlog).
    rewrite Ep in Ep'. injection Ep' as <-. destruct (Hp p Ep) as [Hl Hsp].
    assert (Hmax : Z.max (fs_savedSeq (au_store (wd_auto w))) (pt_seq p) = pt_seq p) by lia.
    constructor; [|intros q Eq; apply Hput; [done| |done]]; rewrite Es; cbn; rewrite Hmax; [|lia].
    exists (fu_draft_graph (pt_body p)). split; [done|]. split; [lia|]. exact Hsp.
  - destruct Hf as [Hc Hq]. constructor; [|intros p Ep; apply Hput; [done|lia|]].
    + rewrite Er, Ev. exists d. split; [done|]. split; [lia|]. intros E.
      eapply stands_trans; [apply sameSnapshot_trans|apply Hsd; lia|apply Hq; lia].
    + intros _ Ep'. rewrite Ev. apply (Hp p Ep').
Qed.

Lemma settled_on_step e w :
  world_ok w → timely e (wd_auto w) → server_says e w = true → settled_on (wd_auto w) (wd_server w) →
  fs_contentSeq (au_store (run e (wd_auto w)).1) = fs_contentSeq (au_store (wd_auto w)) →
  settled_on (run e (wd_auto w)).1 (wd_server w) ∧
  same_logic (draft_of (au_store (wd_auto w))) (draft_of (au_store (run e (wd_auto w)).1)) = true.
Proof.
  intros Hw Ht Hs [(d & Hd & Hsd) Hp] Hc.
  assert (Hput : ∀ p, same_logic (draft_of (au_store (wd_auto w))) (draft_of (au_store (run e (wd_auto w)).1)) = true →
     au_inFlight (run e (wd_auto w)).1 = Some p →
     stands same_logic (fu_draft_graph (pt_body p)) (draft_of (au_store (run e (wd_auto w)).1))).
  { intros p Hq [[_ Eg]|[Ep _]]%put_after; [rewrite Eg; apply stands_graph, same_logic_refl|].
    eapply stands_trans; [apply same_logic_trans|by apply Hp|done]. }
  destruct (run_cases e (wd_auto w) Ht) as [(now & flow & u & He & Es & En)|[(p & flow & now & -> & Ep & Es)|(Er & Ev & _ & Hm & Hq)]].
  - exfalso. rewrite Es in Hc. revert Hc. unfold load. destruct (fromGraph _ _). cbn. lia.
  - cbn in Hs. apply bool_decide_eq_true in Hs. destruct (wk_taken _ Hw _ Hs) as (p' & Ep' & Hlog).
    rewrite Ep in Ep'. injection Ep' as <-.
    assert (Hq : same_logic (draft_of (au_store (wd_auto w))) (draft_of (au_store (run (ev_answer (inl flow) now) (wd_auto w)).1)) = true)
      by (rewrite Es; apply same_logic_refl).
    split; [|done]. split; [|by intros q Eq; apply Hput]. rewrite Es. exists (fu_draft_graph (pt_body p)).
    split; [exact Hlog|]. by apply Hp.
  - specialize (Hq Hc). split; [|done]. split; [|by intros p Ep; apply Hput]. rewrite Er. exists d. split; [done|].
    eapply stands_trans; [apply same_logic_trans|done|done].
Qed.

Lemma panel_step e w p :
  world_ok w → timely e (wd_auto w) → server_says e w = true → wd_panel w = Some p →
  panel_ok (run e (wd_auto w)).1 (wd_server w) p.
Proof.
  intros Hw Ht Hs Ep. destruct (wk_panel _ Hw p Ep) as [Hle Hp].
  assert (Hmono : fs_contentSeq (au_store (wd_auto w)) ≤ fs_contentSeq (au_store (run e (wd_auto w)).1)).
  { destruct (run_cases e (wd_auto w) Ht) as [(now & flow & u & _ & -> & _)|[(q & flow & now & _ & _ & ->)|(_ & _ & _ & Hm & _)]];
      [|cbn; lia|done]. unfold load. destruct (fromGraph _ _). cbn. lia. }
  split; [lia|]. intros E. cbv zeta in *. specialize (Hp ltac:(lia)).
  assert (Hgo : ∀ d, settled_on (wd_auto w) (wd_server w) ∧ stands same_logic d (draft_of (au_store (wd_auto w))) →
            settled_on (run e (wd_auto w)).1 (wd_server w) ∧ stands same_logic d (draft_of (au_store (run e (wd_auto w)).1))).
  { intros d [Hset Hd]. destruct (settled_on_step e w Hw Ht Hs Hset ltac:(lia)) as [Hset' Hq]. split; [done|].
    eapply stands_trans; [apply same_logic_trans|done|done]. }
  destruct (pn_run p) as [[|d]|]; [done|by apply Hgo|]. destruct (pn_phase p); try done.
  destruct Hp as (d & Ed & Hd). exists d. split; [done|]. by apply Hgo.
Qed.

(** ** Every step *)

(** The panel's run goes on. *)
Lemma tell_ok mine reported w w' :
  world_ok w → (true ∈ reported → dirty (store_of w) = false) → tell_panel mine reported w = Some w' → world_ok w'.
Proof.
  intros Hw Hr. unfold tell_panel. destruct mine as [saved|]; [|by intros [= <-]].
  destruct (wd_panel w) as [p|] eqn:Ep; [|done]. destruct (pn_run p) as [[|]|] eqn:Er; try done.
  destruct (includes reported saved) eqn:Ei; [|done]. apply includes_true in Ei. intros [= <-].
  destruct (wk_panel _ Hw p Ep) as [Hle _].
  constructor; try apply Hw; cbn.
  - intros p' [= <-]. unfold flushed. destruct saved; (split; [done|]); cbn; [|done]. intros _.
    split; [apply clean_settled; [apply Hw|by apply Hr]|]. apply stands_graph, same_logic_refl.
  - intros p' r seen [= <-] E. apply (wk_publishing _ Hw p r seen); [done|]. unfold flushed in E. by destruct saved.
Qed.

Lemma auto_event_ok e mine w w' : world_ok w → timely e (wd_auto w) → auto_step e mine w = Some w' → world_ok w'.
Proof.
  intros Hw Ht. unfold auto_step. destruct (server_says e w) eqn:Hs; [|done].
  pose proof (run_report e (wd_auto w)) as Hrep. pose proof (auto_step_ok e w Hw Ht Hs) as Ha.
  pose proof (panel_step e w) as Hp. pose proof (run_keeps_put e (wd_auto w)) as Hk.
  destruct (run e (wd_auto w)) as [a reported]. cbn [fst snd] in *. apply tell_ok; [|done].
  constructor; cbn; try apply Hw; try done.
  - intros rev Et. destruct (is_answer e) eqn:Ee; [done|]. destruct (wk_taken _ Hw _ Et) as (p & Ep & Hl).
    exists p. split; [by apply Hk|done].
  - intros p Ep. by apply Hp.
Qed.

Lemma effect_ok p0 mine w w' :
  world_ok w → (∀ r seen, pn_publishing p0 = Some (r, seen) → ∃ d, (r, d) ∈ sv_log (wd_server w) ∧ stands same_logic d seen) →
  effect p0 mine w = Some w' → world_ok w'.
Proof.
  intros Hw Hp0. unfold effect.
  assert (Ht : timely ev_flush (wd_auto w)) by done. assert (Hs : server_says ev_flush w = true) by done.
  pose proof (run_report ev_flush (wd_auto w)) as Hrep. pose proof (auto_step_ok ev_flush w Hw Ht Hs) as Ha.
  pose proof (run_keeps_put ev_flush (wd_auto w)) as Hk. pose proof (flush_store (wd_auto w)) as Hst.
  cbn [run] in *. destruct (flush false (wd_auto w)) as [a reported]. cbn [fst snd] in *. apply tell_ok; [|done].
  constructor; cbn; try apply Hw; try done.
  - intros rev Et. destruct (wk_taken _ Hw _ Et) as (p & Ep & Hl). exists p. split; [by apply Hk|done].
  - intros p [= <-]. split; cbn; [|done]. unfold store_of. by rewrite Hst.
  - intros p r seen [= <-] E. by apply Hp0.
Qed.

(** A new draft of the server leaves the rest. *)
Lemma server_ok taken sv w :
  world_ok w → log_ok sv → grows (wd_server w) sv →
  (∀ rev, taken = Some rev → ∃ p, au_inFlight (wd_auto w) = Some p ∧ (rev, fu_draft_graph (pt_body p)) ∈ sv_log sv) →
  world_ok (with_taken taken (with_server sv w)).
Proof.
  intros [Hl Ha Ht Hp Hb] Hl' Hg Ht'. constructor; cbn; try done.
  - by eapply auto_grows.
  - intros p Ep. by eapply panel_grows, Hp.
  - intros p r seen Ep E. destruct (Hb p r seen Ep E) as (d & Hd & Hs). exists d. split; [by apply Hg|done].
Qed.

(** A change of the panel leaves the rest. *)
Lemma panel_change_ok b p w :
  world_ok w → (∀ p', p = Some p' → panel_ok (wd_auto w) (wd_server w) p') →
  (∀ p' r seen, p = Some p' → pn_publishing p' = Some (r, seen) → ∃ d, (r, d) ∈ sv_log (wd_server w) ∧ stands same_logic d seen) →
  world_ok (with_done b (with_panel p w)).
Proof. intros [Hl Ha Ht Hp Hb] Hp' Hb'. constructor; cbn; try done. Qed.

(** Publish is pressed on a panel whose check is of the canvas. *)
Definition world_timely (w : World) (e : world_event) : Prop :=
  match e with
  | we_auto e _ => timely e (wd_auto w)
  | we_publish =>
      match wd_panel w with Some p => pn_ran p = fs_contentSeq (store_of w) ∧ pn_run p = None | None => True end
  | _ => True
  end.

Lemma can_publish_checked p g : canPublish ctx g p = true → ∃ r, pn_phase p = ph_checked r ∧ panel_errors ctx g p = Some [] ∧ pn_publishing p = None.
Proof.
  unfold canPublish. destruct (pn_phase p) as [| | |r]; [done..|]. intros [He Hn]%andb_true_iff.
  apply bool_decide_eq_true in He. exists r. by destruct (pn_publishing p).
Qed.

(** A publish the server refused keeps Publish disabled: no later check of the
    panel clears its errors. *)
Lemma refusal_stays p errors g d result :
  errors ≠ [] → pn_publishErrors p = Some errors →
  canPublish ctx g (validated d (Some result) (flushed true d (run_effect 0 p))) = false.
Proof.
  intros Hne He. unfold canPublish, panel_errors. cbn. rewrite He. apply andb_false_iff. left. apply bool_decide_eq_false.
  intros [= E]. by destruct errors.
Qed.

Lemma world_step_ok w e w' : world_ok w → world_timely w e → world_step ctx w e = Some w' → world_ok w'.
Proof.
  intros Hw Ht. destruct e as [e mine|rev|rev d|mine|mine|result| | |answer|]; cbn [world_step world_timely] in *.
  - by apply auto_event_ok.
  - destruct (au_inFlight (wd_auto w)) as [p|] eqn:Ep, (wd_taken w) eqn:Et; try done.
    destruct (rev_draft _ _) as [d0|]; [|done]. cbn. destruct (new_draft rev _ _) as [sv|] eqn:En; [|done]. cbn. intros [= <-].
    apply new_draft_ok in En as (Hl & Hg & Hin); [|apply Hw]. apply server_ok; try done. intros r [= <-]. by exists p.
  - destruct (new_draft rev d _) as [sv|] eqn:En; [|done]. cbn. intros [= <-].
    apply new_draft_ok in En as (Hl & Hg & Hin); [|apply Hw].
    change (with_server sv w) with (with_taken (wd_taken w) (with_server sv w)). apply server_ok; try done.
    intros r Er. destruct (wk_taken _ Hw _ Er) as (p & Ep & Hin'). exists p. split; [done|by apply Hg].
  - destruct (wd_panel w) eqn:Ep; [done|]. by apply effect_ok.
  - destruct (wd_panel w) as [p|] eqn:Ep; [|done]. destruct (_ =? _); [done|]. apply effect_ok; [done|].
    intros r seen. by apply (wk_publishing _ Hw p).
  - destruct (wd_panel w) as [p|] eqn:Ep; [|done]. destruct (pn_run p) as [[|d]|] eqn:Er; try done. intros [= <-].
    change (with_panel ?x w) with (with_done (wd_done w) (with_panel x w)). destruct (wk_panel _ Hw p Ep) as [Hle Hp].
    apply panel_change_ok; [done| |intros p' r seen [= <-]; by apply (wk_publishing _ Hw p)].
    intros p' [= <-]. split; [done|]. cbn. intros E. specialize (Hp E). cbv zeta in Hp. rewrite Er in Hp. by exists d.
  - destruct (wd_panel w) as [p|] eqn:Ep; [|done]. destruct (canPublish _ _ _) eqn:Ec; [|done]. intros [= <-].
    destruct Ht as [Hran Hrun]. apply can_publish_checked in Ec as (res & Eph & _ & _).
    destruct (wk_panel _ Hw p Ep) as [Hle Hp]. pose proof (Hp Hran) as Hp'. cbv zeta in Hp'. rewrite Hrun, Eph in Hp'.
    destruct Hp' as (d & Ed & [(d0 & Hd0 & Hs0) _] & _). apply panel_change_ok; [done| |].
    + intros p' [= <-]. by split.
    + intros p' r seen [= <-] [= <- <-]. by exists d0.
  - destruct (wd_panel w) as [p|] eqn:Ep; [|done]. destruct (pn_publishing p) as [[r seen]|]; [|done]. cbn.
    destruct (wd_done w); [done|]. destruct (rev_draft r _) as [d|]; [|done]. cbn. intros [= <-].
    destruct (server_ok (wd_taken w) (Build_Server (sv_log (wd_server w)) (Some d)) w Hw) as [Hl Ha Htk Hpn Hpb];
      [apply Hw|by intros x|apply Hw|]. by constructor.
  - destruct (wd_panel w) as [p|] eqn:Ep; [|done]. destruct (pn_publishing p) as [rs|] eqn:Epub; [|done]. cbn.
    destruct answer as [r|err].
    + destruct (wd_done w); [|done]. intros [= <-].
      assert (Hx : world_ok (with_taken (wd_taken w) (with_auto (set_store false (setMeta (published_meta r) (store_of w)) (wd_auto w)) w)))
        by by apply (auto_event_ok (ev_act 0 (a_setMeta (published_meta r))) None w).
      by apply (panel_change_ok (wd_done w) None) in Hx.
    + intros [= <-]. change (with_panel ?x w) with (with_done (wd_done w) (with_panel x w)).
      destruct (wk_panel _ Hw p Ep) as [Hle Hp].
      apply panel_change_ok; [done| |]; unfold publish_failed; cbv zeta;
        destruct (isIvrError err 409 "stale_revision"), (isIvrError err 422 "invalid_flow"); try done.
      * intros p' [= <-]. exact (conj Hle Hp).
      * intros p' [= <-]. exact (conj Hle Hp).
      * by intros p' r seen [= <-].
      * by intros p' r seen [= <-].
  - destruct (wd_panel w) as [p|] eqn:Ep; [|done]. destruct (pn_publishing p); [done|]. intros [= <-].
    by apply (panel_change_ok (wd_done w) None).
Qed.

(** The sessions the theorem is about. *)
Inductive session_of (flow : Flow) : World → Prop :=
  | session_opened : session_of flow (open_flow flow)
  | session_goes_on w e w' : session_of flow w → world_timely w e → world_step ctx w e = Some w' → session_of flow w'.

Lemma open_flow_ok flow : world_ok (open_flow flow).
Proof.
  constructor; cbn; try done.
  - by repeat constructor.
  - constructor; cbn; [|done]. exists (fl_draft_graph flow).
    assert (E : fs_revision (createFlowStore flow) = fl_revision flow ∧ fs_savedSeq (createFlowStore flow) = 0 ∧
                fs_changeSeq (createFlowStore flow) = 0) by (unfold createFlowStore; by destruct (fromGraph _ _)).
    destruct E as (-> & -> & ->). split; [left|]. split; [done|]. intros _. right. exists 0%nat.
    rewrite create_draft_of. apply sameSnapshot_refl.
Qed.

Lemma session_of_ok flow w : session_of flow w → world_ok w.
Proof. induction 1 as [|w e w' _ IH Ht Hs]; [apply open_flow_ok|by eapply world_step_ok]. Qed.

(** C10 What goes live is what was shown and checked, for a customer who
    presses Publish when the panel's check is finished and is of the content
    on the canvas ([world_timely]); who never resolves a conflict by
    overwriting; and on whom no draft is loaded over a PUT.  Whatever else is
    edited, saved and answered meanwhile, and whoever else saves the flow:
    when Publish can be pressed on such a check, the check was of a draft with
    the blocks, settings and connections on the canvas and left no error to
    show; and if the server then publishes, callers hear a draft with exactly
    those.  Pressed while an edit is still on its way to the panel it is not so
    ([edit_left_out]), nor after Keep my version ([other_version_goes_live]). *)
Theorem published_as_shown flow w p :
  session_of flow w → wd_panel w = Some p →
  (canPublish ctx (contentGraph (store_of w)).2 p = true → pn_ran p = fs_contentSeq (store_of w) → pn_run p = None →
   ∃ d, pn_about p = Some d ∧ stands same_logic d (draft_of (store_of w)) ∧
        panel_errors ctx (contentGraph (store_of w)).2 p = Some []) ∧
  (∀ r seen w', pn_publishing p = Some (r, seen) → world_step ctx w we_publish_take = Some w' →
   ∃ d, sv_live (wd_server w') = Some d ∧ stands same_logic d seen).
Proof.
  intros Hw%session_of_ok Ep. split.
  - intros Hc Hran Hrun. apply can_publish_checked in Hc as (res & Eph & He & _).
    destruct (wk_panel _ Hw p Ep) as [_ Hp]. specialize (Hp Hran). cbv zeta in Hp. rewrite Hrun, Eph in Hp.
    destruct Hp as (d & Ed & _ & Hd). by exists d.
  - intros r seen w' Epub. cbn. rewrite Ep, Epub. cbn. destruct (wd_done w); [done|].
    destruct (rev_draft r _) as [d|] eqn:Er; [|done]. cbn. intros [= <-]. exists d. split; [done|].
    apply rev_draft_log in Er. destruct (wk_publishing _ Hw p r seen Ep Epub) as (d' & Hd' & Hs).
    by rewrite (log_unique _ _ _ _ (wk_log _ Hw) Er Hd').
Qed.
End publish_ok.

#[local] Existing Instance numerals.
#[local] Existing Instance basic_flow.
#[local] Existing Instance basic_flow_laws.

(** ** A flow goes live *)

Abbreviation step := (world_step nothing_known).
Abbreviation wrun := (world_run nothing_known).

Definition add_menu : world_event := we_auto (ev_act 5000 (a_addBlock menu None (Some ("hi", "next")))) None.
Definition move_menu : world_event :=
  we_auto (ev_act 6000 (a_nodesChange [nc_position "n_1" (Some (Build_Position (num_of_Z 40) (num_of_Z 80))) (Some false)])) None.
Definition saved_at (rev : Z) (w : World) : world_event :=
  we_auto (ev_answer (match au_inFlight (wd_auto w) with
                      | Some p => inl (Build_Flow 1 "Main line" rev None None [] (fu_draft_graph (pt_body p)))
                      | None => inr other_error
                      end) 7000) None.

Definition flow_world : World := Eval vm_compute in open_flow greeting_line.
Definition world_a : World := Eval vm_compute in default flow_world (step flow_world add_menu).
Definition world_b : World := Eval vm_compute in default world_a (step world_a (we_open None)).
Definition world_c : World := Eval vm_compute in default world_b (step world_b (we_take 4)).
Definition answer_c : world_event := Eval vm_compute in
  match saved_at 4 world_c with we_auto e _ => we_auto e (Some true) | e => e end.
Definition world_d : World := Eval vm_compute in default world_c (step world_c answer_c).
Definition world_e : World := Eval vm_compute in default world_d (step world_d (we_validated (Some ([], [])))).
Definition world_f : World := Eval vm_compute in default world_e (step world_e move_menu).
Definition world_g : World := Eval vm_compute in default world_f (step world_f we_publish).
Definition world_h : World := Eval vm_compute in default world_g (step world_g we_publish_take).

Example goes_live : (pn_phase <$> wd_panel world_f) = Some (ph_checked (Some ([], []))) ∧ is_Some (sv_live (wd_server world_h)).
Proof. vm_compute. by split; [|eexists]. Qed.

Lemma goes_on w e w' :
  session_of nothing_known greeting_line w → world_timely w e → step w e = Some w' → session_of nothing_known greeting_line w'.
Proof. apply session_goes_on. Qed.

Lemma session_g : session_of nothing_known greeting_line world_g.
Proof.
  assert (session_of nothing_known greeting_line flow_world) as S0 by exact (session_opened nothing_known greeting_line).
  assert (session_of nothing_known greeting_line world_a) as Sa by (apply (goes_on _ add_menu _ S0); [done|vm_compute; reflexivity]).
  assert (session_of nothing_known greeting_line world_b) as Sb by (apply (goes_on _ (we_open None) _ Sa); [done|vm_compute; reflexivity]).
  assert (session_of nothing_known greeting_line world_c) as Sc by (apply (goes_on _ (we_take 4) _ Sb); [done|vm_compute; reflexivity]).
  assert (session_of nothing_known greeting_line world_d) as Sd
    by (apply (goes_on _ answer_c _ Sc); [by split|vm_compute; reflexivity]).
  assert (session_of nothing_known greeting_line world_e) as Se by (apply (goes_on _ (we_validated (Some ([], []))) _ Sd); [done|vm_compute; reflexivity]).
  assert (session_of nothing_known greeting_line world_f) as Sf.
  { apply (goes_on _ move_menu _ Se); [|vm_compute; reflexivity]. split; [|done]. split; [done|]. split; [done|].
    intros id Hid. by apply list_elem_of_singleton in Hid. }
  apply (goes_on _ we_publish _ Sf); [by split|vm_compute; reflexivity].
Qed.

Definition panel_g : Panel := Eval vm_compute in default (Build_Panel ph_saving 0 None None None None) (wd_panel world_g).
Definition seen_g : FlowSnapshot := Eval vm_compute in draft_of (store_of world_f).

Lemma published_as_shown_witness :
  ∃ d, sv_live (wd_server world_h) = Some d ∧ stands same_logic d seen_g.
Proof.
  refine (proj2 (published_as_shown nothing_known greeting_line world_g panel_g session_g _) 4 seen_g world_h _ _);
    vm_compute; reflexivity.
Defined.

(** ** Where callers hear something else *)

Definition blocks_of (d : option value) : nat := match d with Some d => length (ig_nodes (graph_view d)) | None => 0 end.

(** A block is added while the panel shows its check: until the edit is saved
    the panel still lets Publish be pressed, and callers hear the draft
    without the block that is on the canvas. *)
Lemma edit_left_out :
  ∃ w p, wrun world_e [we_auto (ev_act 8000 (a_addBlock hangup None (Some ("n_1", "noInput")))) None; we_render None;
                       we_publish; we_publish_take] = Some w ∧
    wd_panel w = Some p ∧ pn_phase p = ph_checked (Some ([], [])) ∧
    blocks_of (sv_live (wd_server w)) = 3%nat ∧ length (fs_nodes (store_of w)) = 4%nat.
Proof.
  destruct (wrun world_e _) as [w|] eqn:E; [|exfalso; revert E; vm_compute; done].
  revert E. vm_compute. intros [= <-]. eexists _, _. by repeat split.
Qed.

(** Someone else saves the flow; the customer keeps the version on the canvas,
    but saving it fails.  Publish can still be pressed, and callers hear the
    other version, which was never shown. *)
Definition other_draft : value := VObj [("nodes", VArr [VObj [("id", VStr "start"); ("type", VStr "entry")]]); ("edges", VArr [])].

Lemma other_version_goes_live :
  ∃ w p, wrun world_f [we_elsewhere 5 other_draft; we_auto ev_fire None; we_auto (ev_answer (inr stale) 7000) None;
                       we_auto ev_keepMine None; we_auto (ev_answer (inr other_error) 7500) None;
                       we_publish; we_publish_take] = Some w ∧
    wd_panel w = Some p ∧ pn_ran p = fs_contentSeq (store_of w) ∧ pn_run p = None ∧
    sv_live (wd_server w) = Some other_draft ∧ length (fs_nodes (store_of w)) = 3%nat.
Proof.
  destruct (wrun world_f _) as [w|] eqn:E; [|exfalso; revert E; vm_compute; done].
  revert E. vm_compute. intros [= <-]. eexists _, _. by repeat split.
Qed.

(** A publish refused because the flow was changed elsewhere closes the panel,
    and nothing says so: autosave has met no conflict. *)
Lemma stale_publish_is_silent :
  ∃ w, wrun world_g [we_elsewhere 5 other_draft; we_published (inr stale)] = Some w ∧
       wd_panel w = None ∧ is_conflict (au_status (wd_auto w)) = false ∧ is_error (au_status (wd_auto w)) = false.
Proof.
  destruct (wrun world_g _) as [w|] eqn:E; [|exfalso; revert E; vm_compute; done].
  revert E. vm_compute. intros [= <-]. eexists. by repeat split.
Qed.
