(* ===== verification/Wav.v ===== *)
(** * Greeting audio ([pages/voicemail/audio/wav.ts])

    The WAV encoder and the chunk walk that checks a file, on bytes.  A
    buffer is the list of its bytes; a [DataView] access outside it is the
    [RangeError] the platform throws.  Samples are the exact values of the
    32-bit floats, whose products with the 16-bit full scales a double holds
    exactly; the quotients of [durationSec] are kept exact. *)
From Stdlib Require Import QArith Qround.
From S2P Require Import Prelude JsString JsValue Format.

Local Close Scope Q_scope.
Local Open Scope string_scope.
Local Open Scope Z_scope.
Local Open Scope list_scope.

Definition GREETING_MAX_SECONDS : Z := 120.
Definition GREETING_MIN_SECONDS : Z := 1.
Definition GREETING_MAX_BYTES : Z := 5000000.
Definition WAV_HEADER_BYTES : Z := 44.

(** ** Bytes *)

Abbreviation buffer := (list Z).

(** [view.setUint8(offset, v)] *)
Fixpoint setUint8 (offset : nat) (v : Z) (buf : buffer) : option buffer :=
  match buf, offset with
  | [], _ => None
  | _ :: buf, O => Some (v mod 256 :: buf)
  | x :: buf, S offset => (λ b, x :: b) <$> setUint8 offset v buf
  end.

(** Little-endian writes; a negative value is written in two's complement. *)
Definition setUint16 (offset : nat) (v : Z) (buf : buffer) : option buffer :=
  setUint8 offset v buf ≫= setUint8 (offset + 1) (Z.shiftr v 8).
Definition setUint32 (offset : nat) (v : Z) (buf : buffer) : option buffer :=
  setUint16 offset v buf ≫= setUint16 (offset + 2) (Z.shiftr v 16).
Definition setInt16 : nat → Z → buffer → option buffer := setUint16.

Fixpoint writeAscii (offset : nat) (text : string) (buf : buffer) : option buffer :=
  match text with
  | "" => Some buf
  | String a text => setUint8 offset (code a) buf ≫= writeAscii (S offset) text
  end.

Definition getUint8 (offset : Z) (buf : buffer) : option Z :=
  if offset <? 0 then None else buf !! Z.to_nat offset.
Definition getUint16 (offset : Z) (buf : buffer) : option Z :=
  match getUint8 offset buf, getUint8 (offset + 1) buf with
  | Some a, Some b => Some (a + 256 * b)
  | _, _ => None
  end.
Definition getUint32 (offset : Z) (buf : buffer) : option Z :=
  match getUint16 offset buf, getUint16 (offset + 2) buf with
  | Some a, Some b => Some (a + 65536 * b)
  | _, _ => None
  end.

(** [String.fromCharCode] of a byte, as the character of that code. *)
Fixpoint readAscii (offset : Z) (length : nat) (buf : buffer) : option string :=
  match length with
  | O => Some ""
  | S length =>
      match getUint8 offset buf, readAscii (offset + 1) length buf with
      | Some b, Some s => Some (String (ascii_of_N (Z.to_N b)) s)
      | _, _ => None
      end
  end.

(** ** Encoding *)

Definition wavByteLength (sampleCount : Z) : Z := WAV_HEADER_BYTES + sampleCount * 2.

(** [Math.max(-1, Math.min(1, sample))], 0 when not finite. *)
Definition clip (sample : num) : Q :=
  match sample with
  | Fin q => if Qle_bool 1 q then 1%Q else if Qle_bool q (-1 # 1) then (-1 # 1)%Q else q
  | _ => 0%Q
  end.

Definition floatToPcm16 (sample : num) : Z :=
  let s := clip sample in
  if Qle_bool 0 s then Q_round (s * (32767 # 1))%Q else Q_round (s * (32768 # 1))%Q.

Inductive WavError := wav_format (message : string) | range_error (message : string).

Definition out_of_bounds {A} (x : option A) : WavError + A :=
  match x with Some x => inr x | None => inl (range_error "Offset is outside the bounds of the DataView") end.

(** A sequence of writes. *)
Fixpoint write_all (writes : list (buffer → option buffer)) (buf : buffer) : option buffer :=
  match writes with
  | [] => Some buf
  | w :: writes => match w buf with Some buf => write_all writes buf | None => None end
  end.

(** The header's writes, in the order of the code. *)
Definition write_header (sampleRate dataBytes : Z) : buffer → option buffer :=
  write_all [
    writeAscii 0 "RIFF";
    setUint32 4 (36 + dataBytes);
    writeAscii 8 "WAVE";
    writeAscii 12 "fmt ";
    setUint32 16 16;
    setUint16 20 1;
    setUint16 22 1;
    setUint32 24 sampleRate;
    setUint32 28 (sampleRate * 2);
    setUint16 32 2;
    setUint16 34 16;
    writeAscii 36 "data";
    setUint32 40 dataBytes ].

Fixpoint write_samples (offset : nat) (samples : list num) (buf : buffer) : option buffer :=
  match samples with
  | [] => Some buf
  | s :: samples => setInt16 offset (floatToPcm16 s) buf ≫= write_samples (offset + 2) samples
  end.

Definition encodeWavPcm16 (samples : list num) (sampleRate : num) : WavError + buffer :=
  match Z_of_num sampleRate with
  | Some rate =>
      if rate <=? 0 then inl (range_error "sampleRate must be a positive integer")
      else out_of_bounds
             (write_header rate (Z.of_nat (length samples) * 2) (replicate (44 + length samples * 2) 0)
              ≫= write_samples 44 samples)
  | None => inl (range_error "sampleRate must be a positive integer")
  end.

(** ** Parsing *)

Record WavFmt := {
  wf_audioFormat : Z;
  wf_channels : Z;
  wf_sampleRate : Z;
  wf_bitsPerSample : Z;
}.

Record WavInfo := {
  wi_fmt : WavFmt;
  wi_dataOffset : Z;
  wi_dataBytes : Z;
  wi_durationSec : Q;
}.

Definition read_fmt (body : Z) (buf : buffer) : WavError + WavFmt :=
  out_of_bounds
    match getUint16 body buf, getUint16 (body + 2) buf, getUint32 (body + 4) buf, getUint16 (body + 14) buf with
    | Some a, Some c, Some r, Some b => Some (Build_WavFmt a c r b)
    | _, _, _, _ => None
    end.

Definition data_info (fmt : WavFmt) (body size : Z) (buf : buffer) : WavInfo :=
  let dataBytes := Z.min size (Z.of_nat (length buf) - body) in
  let bytesPerSecond := (inject_Z (wf_sampleRate fmt * wf_channels fmt) * (wf_bitsPerSample fmt # 8))%Q in
  {| wi_fmt := fmt; wi_dataOffset := body; wi_dataBytes := dataBytes;
     wi_durationSec := if Qle_bool bytesPerSecond 0 then 0%Q else (inject_Z dataBytes / bytesPerSecond)%Q |}.

(** One turn of the loop per chunk; [None]: the fuel is spent. *)
Fixpoint chunks (fuel : nat) (offset : Z) (fmt : option WavFmt) (buf : buffer) : option (WavError + WavInfo) :=
  match fuel with
  | O => None
  | S fuel =>
      if Z.of_nat (length buf) <? offset + 8
      then Some (inl (wav_format (match fmt with Some _ => "No data chunk" | None => "No fmt chunk" end)))
      else
        match readAscii offset 4 buf, getUint32 (offset + 4) buf with
        | Some id, Some size =>
            let body := offset + 8 in
            let next := body + size + size mod 2 in
            if id ==? "fmt " then
              if (size <? 16) || (Z.of_nat (length buf) <? body + 16) then Some (inl (wav_format "Truncated fmt chunk"))
              else match read_fmt body buf with
                   | inl e => Some (inl e)
                   | inr f => chunks fuel next (Some f) buf
                   end
            else if id ==? "data" then
              match fmt with
              | None => Some (inl (wav_format "data chunk before fmt chunk"))
              | Some f => Some (inr (data_info f body size buf))
              end
            else chunks fuel next fmt buf
        | _, _ => Some (inl (range_error "Offset is outside the bounds of the DataView"))
        end
  end.

(** Every chunk takes 8 bytes or more, so the fuel is not spent. *)
Definition parseWav (buf : buffer) : option (WavError + WavInfo) :=
  if (Z.of_nat (length buf) <? 12) || (readAscii 0 4 buf !=? Some "RIFF") || (readAscii 8 4 buf !=? Some "WAVE")
  then Some (inl (wav_format "Not a RIFF/WAVE file"))
  else chunks (S (length buf)) 12 None buf.

(** ** Greeting limits *)

Definition pad2 (s : string) : string := if (String.length s <? 2)%nat then "0" +:+ s else s.

Definition greetingProblem (durationSec : num) (bytes : Z) (noun : string) : option string :=
  if negb (num_le (num_of_Z GREETING_MIN_SECONDS) durationSec)
  then Some ("That recording is too short — a " +:+ noun +:+ " needs at least a second of audio.")
  else if negb (num_le durationSec (Fin (2401 # 20)))
  then match durationSec with
       | Fin d =>
           let m := Qfloor (d / 60)%Q in
           let s := Q_round (d - inject_Z (60 * m))%Q in
           Some ("That clip is " +:+ print_int m +:+ ":" +:+ pad2 (print_int s) +:+ " long — " +:+ noun
                 +:+ "s can be up to 2:00. Trim it and try again.")
       | _ => Some ("That clip is Infinity:NaN long — " +:+ noun +:+ "s can be up to 2:00. Trim it and try again.")
       end
  else if GREETING_MAX_BYTES <? bytes
  then Some ("That " +:+ noun +:+ " is larger than 5 MB once converted. Try a shorter clip.")
  else None.

Definition isApiGreetingFormat (info : WavInfo) : bool :=
  let f := wi_fmt info in
  (wf_audioFormat f =? 1) && (wf_channels f =? 1) && (wf_bitsPerSample f =? 16)
  && ((wf_sampleRate f =? 8000) || (wf_sampleRate f =? 16000)).
