(* ===== verification/WavOk.v ===== *)
(** * Greeting audio: what the encoder and the parser promise *)
From Stdlib Require Import QArith Qround.
From S2P Require Import Prelude JsString JsValue Format Wav.

Local Close Scope Q_scope.
Local Open Scope string_scope.
Local Open Scope Z_scope.
Local Open Scope list_scope.

(** ** Writing *)

Definition le16 (v : Z) : list Z := [v mod 256; Z.shiftr v 8 mod 256].
Definition le32 (v : Z) : list Z := le16 v ++ le16 (Z.shiftr v 16).

Lemma setUint8_app pre x post v : setUint8 (length pre) v (pre ++ x :: post) = Some (pre ++ v mod 256 :: post).
Proof. induction pre as [|y pre IH]; simpl; [done|]. by rewrite IH. Qed.

Lemma setUint16_app pre x y post v :
  setUint16 (length pre) v (pre ++ x :: y :: post) = Some (pre ++ le16 v ++ post).
Proof.
  unfold setUint16. rewrite setUint8_app. simpl.
  replace (pre ++ v mod 256 :: y :: post) with ((pre ++ [v mod 256]) ++ y :: post) by by rewrite <- app_assoc.
  replace (length pre + 1)%nat with (length (pre ++ [v mod 256])) by (rewrite length_app; done).
  rewrite setUint8_app. by rewrite <- app_assoc.
Qed.

Lemma write_samples_app samples pre :
  write_samples (length pre) samples (pre ++ replicate (length samples * 2) 0)
  = Some (pre ++ concat (List.map (λ s, le16 (floatToPcm16 s)) samples)).
Proof.
  revert pre. induction samples as [|s samples IH]; intros pre; simpl; [done|].
  unfold setInt16. rewrite setUint16_app. simpl.
  replace (length pre + 2)%nat with (length (pre ++ le16 (floatToPcm16 s))) by by rewrite length_app.
  specialize (IH (pre ++ le16 (floatToPcm16 s))). rewrite <- app_assoc in IH. simpl in IH. rewrite IH.
  by rewrite <- app_assoc.
Qed.

Fixpoint ascii_bytes (s : string) : list Z :=
  match s with "" => [] | String a s => code a mod 256 :: ascii_bytes s end.

(** The 44 bytes of the header. *)
Definition header (rate dataBytes : Z) : list Z :=
  ascii_bytes "RIFF" ++ le32 (36 + dataBytes) ++ ascii_bytes "WAVEfmt " ++ le32 16 ++ le16 1 ++ le16 1
  ++ le32 rate ++ le32 (rate * 2) ++ le16 2 ++ le16 16 ++ ascii_bytes "data" ++ le32 dataBytes.

Lemma write_header_app rate dataBytes tail :
  write_header rate dataBytes (replicate 44 0 ++ tail) = Some (header rate dataBytes ++ tail).
Proof. reflexivity. Qed.

Lemma encode_eq samples rate :
  0 < rate →
  encodeWavPcm16 samples (num_of_Z rate)
  = inr (header rate (Z.of_nat (length samples) * 2) ++ concat (List.map (λ s, le16 (floatToPcm16 s)) samples)).
Proof.
  intros Hr. unfold encodeWavPcm16. rewrite Z_of_num_of_Z.
  destruct (Z.leb_spec rate 0); [lia|]. rewrite replicate_add, write_header_app.
  cbn [mbind option_bind].
  change 44%nat with (length (header rate (Z.of_nat (length samples) * 2))). by rewrite write_samples_app.
Qed.

(** ** Reading *)

Lemma le16_value v : 0 ≤ v < 65536 → v mod 256 + 256 * (Z.shiftr v 8 mod 256) = v.
Proof. intros Hv. rewrite Z.shiftr_div_pow2 by lia. change (2 ^ 8) with 256. Z.div_mod_to_equations. lia. Qed.

Lemma le32_value v :
  0 ≤ v < 4294967296 →
  v mod 256 + 256 * (Z.shiftr v 8 mod 256)
  + 65536 * (Z.shiftr v 16 mod 256 + 256 * (Z.shiftr (Z.shiftr v 16) 8 mod 256)) = v.
Proof.
  intros Hv. rewrite !Z.shiftr_div_pow2 by lia. change (2 ^ 8) with 256. change (2 ^ 16) with 65536.
  Z.div_mod_to_equations. lia.
Qed.

(** The number two bytes stand for, signed. *)
Definition int16_of (a b : Z) : Z := let v := a + 256 * b in if v <? 32768 then v else v - 65536.

Lemma int16_of_le16 v : -32768 ≤ v ≤ 32767 → int16_of (v mod 256) (Z.shiftr v 8 mod 256) = v.
Proof.
  intros Hv. unfold int16_of. rewrite Z.shiftr_div_pow2 by lia. change (2 ^ 8) with 256.
  destruct (Z.ltb_spec (v mod 256 + 256 * ((v / 256) mod 256)) 32768); Z.div_mod_to_equations; lia.
Qed.

(** ** Samples *)

Lemma clip_bounds s : ((-1 # 1) <= clip s /\ clip s <= 1)%Q.
Proof.
  unfold clip. destruct s as [q| |]; [|by split..].
  destruct (Qle_bool 1 q) eqn:E1; [by split|]. destruct (Qle_bool q (-1 # 1)) eqn:E2; [by split|].
  split.
  - destruct (Qlt_le_dec (-1 # 1) q) as [?|H]; [by apply Qlt_le_weak|].
    apply Qle_bool_iff in H. congruence.
  - destruct (Qlt_le_dec q 1) as [?|H]; [by apply Qlt_le_weak|]. apply Qle_bool_iff in H. congruence.
Qed.

Lemma Q_round_bounds q a b : (inject_Z a <= q)%Q → (q <= inject_Z b)%Q → a ≤ Q_round q ≤ b.
Proof.
  intros Ha Hb. rewrite <- (Q_round_int a), <- (Q_round_int b). unfold Q_round.
  split; apply Qfloor_resp_le, Qplus_le_compat; done || apply Qle_refl.
Qed.

Lemma floatToPcm16_bounds s : -32768 ≤ floatToPcm16 s ≤ 32767.
Proof.
  pose proof (clip_bounds s) as [Hl Hu]. unfold floatToPcm16. destruct (Qle_bool 0 (clip s)) eqn:E.
  - apply Qle_bool_iff in E. enough (0 ≤ Q_round (clip s * (32767 # 1))%Q ≤ 32767) by lia.
    apply Q_round_bounds; unfold Qle in *; simpl in *; lia.
  - assert (clip s <= 0)%Q as Hn.
    { destruct (Qlt_le_dec (clip s) 0) as [?|H]; [by apply Qlt_le_weak|]. apply Qle_bool_iff in H. congruence. }
    enough (-32768 ≤ Q_round (clip s * (32768 # 1))%Q ≤ 0) by lia.
    apply Q_round_bounds; unfold Qle in *; simpl in *; lia.
Qed.

(** ** Round trip *)

Lemma lookup_app_add (l k : list Z) i : (l ++ k) !! (length l + i)%nat = k !! i.
Proof. rewrite lookup_app_r by lia. f_equal. lia. Qed.

Lemma read_fmt_header rate d tail :
  0 ≤ rate < 4294967296 → read_fmt 20 (header rate d ++ tail) = inr (Build_WavFmt 1 1 rate 16).
Proof.
  intros Hr. transitivity (@inr WavError _ (Build_WavFmt 1 1 (rate mod 256 + 256 * (Z.shiftr rate 8 mod 256)
      + 65536 * (Z.shiftr rate 16 mod 256 + 256 * (Z.shiftr (Z.shiftr rate 16) 8 mod 256))) 16)); [reflexivity|].
  by rewrite le32_value.
Qed.

Lemma data_size_header rate d tail :
  0 ≤ d < 4294967296 → getUint32 40 (header rate d ++ tail) = Some d.
Proof.
  intros Hd. transitivity (Some (d mod 256 + 256 * (Z.shiftr d 8 mod 256)
      + 65536 * (Z.shiftr d 16 mod 256 + 256 * (Z.shiftr (Z.shiftr d 16) 8 mod 256)))); [reflexivity|].
  by rewrite le32_value.
Qed.

Lemma chunks_fmt fuel offset o buf size f :
  readAscii offset 4 buf = Some "fmt " → getUint32 (offset + 4) buf = Some size → 16 ≤ size →
  offset + 24 ≤ Z.of_nat (length buf) → read_fmt (offset + 8) buf = inr f →
  chunks (S fuel) offset o buf = chunks fuel (offset + 8 + size + size mod 2) (Some f) buf.
Proof.
  intros Hi Hs Hz Hl Hf. cbn [chunks]. rewrite Hi, Hs, Hf.
  destruct (Z.ltb_spec (Z.of_nat (length buf)) (offset + 8)); [lia|]. rewrite bool_decide_eq_true_2 by done.
  destruct (Z.ltb_spec size 16); [lia|].
  by destruct (Z.ltb_spec (Z.of_nat (length buf)) (offset + 8 + 16)); [lia|].
Qed.

Lemma chunks_data fuel offset f buf size :
  readAscii offset 4 buf = Some "data" → getUint32 (offset + 4) buf = Some size →
  offset + 8 ≤ Z.of_nat (length buf) →
  chunks (S fuel) offset (Some f) buf = Some (inr (data_info f (offset + 8) size buf)).
Proof.
  intros Hi Hs Hl. cbn [chunks]. rewrite Hi, Hs.
  destruct (Z.ltb_spec (Z.of_nat (length buf)) (offset + 8)); [lia|].
  rewrite bool_decide_eq_false_2 by done. by rewrite bool_decide_eq_true_2.
Qed.

Lemma parse_header rate d tail :
  0 ≤ rate < 4294967296 → 0 ≤ d < 4294967296 → Z.of_nat (length tail) = d →
  parseWav (header rate d ++ tail)
  = Some (inr (data_info (Build_WavFmt 1 1 rate 16) 44 d (header rate d ++ tail))).
Proof.
  intros Hr Hd Hl.
  assert (length (header rate d ++ tail) = S (S (42 + length tail))) as Hb by (by rewrite length_app).
  assert (readAscii 0 4 (header rate d ++ tail) = Some "RIFF") as R0 by reflexivity.
  assert (readAscii 8 4 (header rate d ++ tail) = Some "WAVE") as R8 by reflexivity.
  assert (readAscii 12 4 (header rate d ++ tail) = Some "fmt ") as R12 by reflexivity.
  assert (readAscii 36 4 (header rate d ++ tail) = Some "data") as R36 by reflexivity.
  assert (getUint32 16 (header rate d ++ tail) = Some 16) as S16 by reflexivity.
  pose proof (data_size_header rate d tail Hd) as S40. pose proof (read_fmt_header rate d tail Hr) as F.
  revert Hb R0 R8 R12 R36 S16 S40 F. generalize (header rate d ++ tail). intros b Hb R0 R8 R12 R36 S16 S40 F.
  unfold parseWav. rewrite R0, R8. destruct (Z.ltb_spec (Z.of_nat (length b)) 12); [lia|].
  rewrite !bool_decide_eq_true_2 by done. cbn [negb orb]. rewrite Hb at 1.
  rewrite (chunks_fmt _ 12 None b 16 _ R12 S16 ltac:(lia) ltac:(lia) F).
  by rewrite (chunks_data _ 36 _ b d R36 S40) by lia.
Qed.

Lemma concat_le16_lookup {A} (f : A → Z) l i x :
  l !! i = Some x →
  concat (List.map (λ s, le16 (f s)) l) !! (2 * i)%nat = Some (f x mod 256)
  ∧ concat (List.map (λ s, le16 (f s)) l) !! (2 * i + 1)%nat = Some (Z.shiftr (f x) 8 mod 256).
Proof.
  revert i. induction l as [|y l IH]; intros [|i]; simpl; try done; [by intros [= ->]|].
  intros Hi. destruct (IH i Hi) as [H1 H2].
  replace (i + S (i + 0))%nat with (S (2 * i)) by lia. replace (S (2 * i) + 1)%nat with (S (2 * i + 1)) by lia.
  by simpl.
Qed.

Lemma concat_le16_length {A} (f : A → Z) l : length (concat (List.map (λ s, le16 (f s)) l)) = (length l * 2)%nat.
Proof. induction l as [|y l IH]; simpl; [done|]. by rewrite IH. Qed.

(** The [i]-th sample of a file whose data starts at byte 44. *)
Definition sample_at (buf : buffer) (i : nat) : option Z :=
  match buf !! (44 + 2 * i)%nat, buf !! (44 + 2 * i + 1)%nat with
  | Some a, Some b => Some (int16_of a b)
  | _, _ => None
  end.

(** C38 Encoding a clip at a rate and parsing the file gives back the rate,
    one channel of 16-bit PCM at byte 44 and the duration; the file has the
    promised size, and every sample reads back as the signed 16-bit value of
    its clipped float, no overflow wrapping it. *)
Theorem wav_roundtrip samples rate :
  0 < rate < 4294967296 → 36 + Z.of_nat (length samples) * 2 < 4294967296 →
  ∃ buf, encodeWavPcm16 samples (num_of_Z rate) = inr buf
    ∧ Z.of_nat (length buf) = wavByteLength (Z.of_nat (length samples))
    ∧ (∃ info, parseWav buf = Some (inr info) ∧ wi_fmt info = Build_WavFmt 1 1 rate 16
        ∧ wi_dataOffset info = WAV_HEADER_BYTES ∧ wi_dataBytes info = Z.of_nat (length samples) * 2
        ∧ (wi_durationSec info * inject_Z rate == inject_Z (Z.of_nat (length samples)))%Q)
    ∧ ∀ i s, samples !! i = Some s → sample_at buf i = Some (floatToPcm16 s) ∧ -32768 ≤ floatToPcm16 s ≤ 32767.
Proof.
  intros Hr Hn. set (tail := concat (List.map (λ s, le16 (floatToPcm16 s)) samples)).
  assert (length tail = length samples * 2)%nat as Ht by apply concat_le16_length.
  exists (header rate (Z.of_nat (length samples) * 2) ++ tail).
  split; [apply encode_eq; lia|]. split; [|split].
  - rewrite length_app, Ht. unfold wavByteLength, WAV_HEADER_BYTES.
    change (length (header _ _)) with 44%nat. lia.
  - eexists. split; [apply parse_header; lia|]. split; [done|]. split; [done|].
    assert (Z.min (Z.of_nat (length samples) * 2)
      (Z.of_nat (length (header rate (Z.of_nat (length samples) * 2) ++ tail)) - 44) = Z.of_nat (length samples) * 2) as E.
    { rewrite length_app, Ht. change (length (header _ _)) with 44%nat. lia. }
    split; [exact E|]. unfold data_info. cbn [wi_durationSec wf_sampleRate wf_channels wf_bitsPerSample]. rewrite E.
    destruct (Qle_bool _ 0) eqn:Eb.
    + apply Qle_bool_iff in Eb. unfold Qle in Eb. simpl in Eb. lia.
    + assert (~ inject_Z rate == 0)%Q as Hne by (unfold Qeq; simpl; lia).
      rewrite Z.mul_1_r. rewrite inject_Z_mult. change (16 # 8)%Q with (2 * (8 # 8))%Q. 
      field_simplify_eq; [|done]. reflexivity.
  - intros i s Hi. split; [|apply floatToPcm16_bounds].
    destruct (concat_le16_lookup floatToPcm16 samples i s Hi) as [H1 H2]. fold tail in H1, H2.
    unfold sample_at. replace (44 + 2 * i + 1)%nat with (44 + (2 * i + 1))%nat by lia.
    change 44%nat with (length (header rate (Z.of_nat (length samples) * 2))) at 1 2.
    rewrite !lookup_app_add, H1, H2. by rewrite int16_of_le16 by apply floatToPcm16_bounds.
Qed.

(** ** Any file *)

Definition bytes (buf : buffer) : Prop := Forall (λ b, 0 ≤ b < 256) buf.

Section any_file.
Context (buf : buffer) (Hbytes : bytes buf).

Lemma getUint8_some offset :
  0 ≤ offset < Z.of_nat (length buf) → ∃ b, getUint8 offset buf = Some b ∧ 0 ≤ b < 256.
Proof using Hbytes.
  intros Ho. unfold getUint8. destruct (Z.ltb_spec offset 0); [lia|].
  destruct (lookup_lt_is_Some_2 buf (Z.to_nat offset)) as [b Hb]; [lia|]. exists b. split; [done|].
  unfold bytes in Hbytes. rewrite Forall_lookup in Hbytes. by eapply Hbytes.
Qed.

Lemma getUint16_some offset :
  0 ≤ offset → offset + 2 ≤ Z.of_nat (length buf) → ∃ b, getUint16 offset buf = Some b ∧ 0 ≤ b.
Proof using Hbytes.
  intros Ho Hl. unfold getUint16.
  destruct (getUint8_some offset) as (a & -> & ?); [lia|]. destruct (getUint8_some (offset + 1)) as (b & -> & ?); [lia|].
  eexists. split; [done|]. lia.
Qed.

Lemma getUint32_some offset :
  0 ≤ offset → offset + 4 ≤ Z.of_nat (length buf) → ∃ b, getUint32 offset buf = Some b ∧ 0 ≤ b.
Proof using Hbytes.
  intros Ho Hl. unfold getUint32.
  destruct (getUint16_some offset) as (a & -> & ?); [lia..|].
  destruct (getUint16_some (offset + 2)) as (b & -> & ?); [lia..|]. eexists. split; [done|]. lia.
Qed.

Lemma readAscii_some n offset :
  0 ≤ offset → offset + Z.of_nat n ≤ Z.of_nat (length buf) → ∃ s, readAscii offset n buf = Some s.
Proof using Hbytes.
  revert offset. induction n as [|n IH]; intros offset Ho Hl; simpl; [by eexists|].
  destruct (getUint8_some offset) as (a & -> & ?); [lia|]. destruct (IH (offset + 1)) as [s ->]; [lia..|]. by eexists.
Qed.

Lemma read_fmt_some body : 0 ≤ body → body + 16 ≤ Z.of_nat (length buf) → ∃ f, read_fmt body buf = inr f.
Proof using Hbytes.
  intros Ho Hl. unfold read_fmt.
  destruct (getUint16_some body) as (? & -> & _); [lia..|]. destruct (getUint16_some (body + 2)) as (? & -> & _); [lia..|].
  destruct (getUint32_some (body + 4)) as (? & -> & _); [lia..|]. destruct (getUint16_some (body + 14)) as (? & -> & _); [lia..|].
  by eexists.
Qed.

(** A result that reports a format problem or a data region of the file. *)
Definition sound_result (r : WavError + WavInfo) : Prop :=
  match r with
  | inl (wav_format _) => True
  | inl (range_error _) => False
  | inr info => 20 ≤ wi_dataOffset info ∧ 0 ≤ wi_dataBytes info
                ∧ wi_dataOffset info + wi_dataBytes info ≤ Z.of_nat (length buf)
  end.

Lemma chunks_sound fuel offset fmt :
  12 ≤ offset → (1 ≤ fuel)%nat → Z.of_nat (length buf) - offset < 8 * Z.of_nat fuel →
  ∃ r, chunks fuel offset fmt buf = Some r ∧ sound_result r.
Proof using Hbytes.
  revert offset fmt. induction fuel as [|fuel IH]; intros offset fmt Ho Hf Hm; [lia|]. cbn [chunks].
  destruct (Z.ltb_spec (Z.of_nat (length buf)) (offset + 8)) as [Hlt|Hlt]; [by eexists|].
  destruct (readAscii_some 4 offset) as [id ->]; [lia..|].
  destruct (getUint32_some (offset + 4)) as (size & -> & Hsize); [lia..|].
  assert (0 ≤ size mod 2) as Hpad by (apply Z.mod_pos_bound; lia).
  case_bool_decide.
  - destruct (Z.ltb_spec size 16); [by eexists|]. cbn [orb].
    destruct (Z.ltb_spec (Z.of_nat (length buf)) (offset + 8 + 16)); [by eexists|].
    destruct (read_fmt_some (offset + 8)) as [f ->]; [lia..|]. apply IH; lia.
  - case_bool_decide; [|apply IH; lia]. destruct fmt as [f|]; [|by eexists].
    eexists. split; [done|]. simpl. lia.
Qed.
End any_file.

(** Parsing ends on every file, however its chunk sizes lie: it gives a
    format problem, or a data region that lies inside the file; it never
    reads outside the buffer. *)
Theorem parseWav_sound buf : bytes buf → ∃ r, parseWav buf = Some r ∧ sound_result buf r.
Proof.
  intros Hb. unfold parseWav. case_match; [by eexists|]. apply chunks_sound; [done|lia..].
Qed.

(** A file with a chunk the parser does not know, of odd size, and a data
    chunk that claims more bytes than there are. *)
Definition odd_file : buffer :=
  ascii_bytes "RIFF" ++ le32 1000 ++ ascii_bytes "WAVELIST" ++ le32 3 ++ [1; 2; 3; 0] ++ ascii_bytes "fmt " ++ le32 16
  ++ le16 1 ++ le16 1 ++ le32 8000 ++ le32 16000 ++ le16 2 ++ le16 16 ++ ascii_bytes "data" ++ le32 4294967295 ++ [7; 0].

Lemma parseWav_sound_witness :
  bytes odd_file ∧ (∃ r, parseWav odd_file = Some r ∧ sound_result odd_file r)
  ∧ (∃ info, parseWav odd_file = Some (inr info) ∧ wi_dataOffset info = 56 ∧ wi_dataBytes info = 2).
Proof.
  assert (bytes odd_file) as H by (unfold bytes, odd_file; vm_compute; repeat constructor; discriminate).
  split; [exact H|]. split; [exact (parseWav_sound odd_file H)|]. eexists. split; [vm_compute; reflexivity|]. split; reflexivity.
Defined.

Lemma wav_roundtrip_witness :
  ∃ buf, encodeWavPcm16 [Fin (1 # 2); NaN; Fin (-3 # 1)] (num_of_Z 16000) = inr buf ∧ length buf = 50%nat
    ∧ sample_at buf 0 = Some 16384 ∧ sample_at buf 2 = Some (-32768).
Proof.
  destruct (wav_roundtrip [Fin (1 # 2); NaN; Fin (-3 # 1)] 16000) as (buf & He & Hl & _ & Hs); [lia|simpl; lia|].
  exists buf. split; [exact He|]. split; [|split].
  - apply Nat2Z.inj. exact Hl.
  - exact (proj1 (Hs 0%nat (Fin (1 # 2)) eq_refl)).
  - exact (proj1 (Hs 2%nat (Fin (-3 # 1)) eq_refl)).
Defined.

(** ** The limits *)

(** A clip encoded for upload is refused exactly for its length: at 16 kHz
    the 5 MB cap never refuses what the two minutes allow. *)
Theorem greeting_cap_never_binds n noun :
  0 ≤ n →
  greetingProblem (Fin (n # 16000)) (wavByteLength n) noun = None ↔ 16000 ≤ n ≤ 1920800.
Proof.
  intros Hn. unfold greetingProblem, GREETING_MIN_SECONDS. cbn [num_le num_of_Z].
  destruct (Qle_bool (inject_Z 1) (n # 16000)) eqn:E1.
  - apply Qle_bool_iff in E1. unfold Qle in E1. simpl in E1. cbn [negb].
    destruct (Qle_bool (n # 16000) (2401 # 20)) eqn:E2; cbn [negb].
    + apply Qle_bool_iff in E2. unfold Qle in E2. simpl in E2.
      unfold GREETING_MAX_BYTES, wavByteLength, WAV_HEADER_BYTES.
      destruct (Z.ltb_spec 5000000 (44 + n * 2)); [lia|]. split; [lia|done].
    + split; [done|]. intros H. enough (Qle_bool (n # 16000) (2401 # 20) = true) by congruence.
      apply Qle_bool_iff. unfold Qle. simpl. lia.
  - split; [done|]. intros H. enough (Qle_bool (inject_Z 1) (n # 16000) = true) by congruence.
    apply Qle_bool_iff. unfold Qle. simpl. lia.
Qed.

Lemma greeting_cap_never_binds_witness : greetingProblem (Fin (1920800 # 16000)) (wavByteLength 1920800) "greeting" = None.
Proof. apply (greeting_cap_never_binds 1920800 "greeting"); lia. Defined.
