(* ===== verification/Csv.v ===== *)
(** * CSV export ([utils/csv.ts])

    The file the exports write, and a reader of RFC 4180 text to read it back
    with. *)
From S2P Require Import Prelude JsString Format.

Local Open Scope string_scope.
Local Open Scope nat_scope.
Local Open Scope list_scope.

Definition COMMA : ascii := ",".
Definition NL : ascii := ch 10.

(** [s.includes(c)] for one character. *)
Fixpoint has_char (c : ascii) (s : string) : bool :=
  match s with "" => false | String a s => (a ==? c) || has_char c s end.

(** [value == null ? '' : String(value)], on cells that are text. *)
Definition cell_text (value : option string) : string := default "" value.

Definition escapeCell (value : option string) : string :=
  let str := cell_text value in
  if has_char COMMA str || has_char QUOT str || has_char NL str
  then String QUOT (replace_char QUOT (String QUOT (String QUOT "")) str +:+ String QUOT "")
  else str.

Definition buildCsv (headers : list string) (rows : list (list (option string))) : string :=
  join (String NL "")
    (List.map (λ row, join "," (List.map escapeCell row)) (List.map Some headers :: rows)).


(** A reader of RFC 4180 text: [quoted] inside quotes, [cell] and [row] what
    was read so far. *)
Fixpoint read (quoted : bool) (cell : string) (row : list string) (s : string) : list (list string) :=
  match s with
  | "" => [row ++ [cell]]
  | String a s1 =>
      if quoted then
        if a ==? QUOT then
          match s1 with
          | String b s2 => if b ==? QUOT then read true (cell +:+ String QUOT "") row s2 else read false cell row s1
          | "" => [row ++ [cell]]
          end
        else read true (cell +:+ String a "") row s1
      else if a ==? QUOT then read true cell row s1
      else if a ==? COMMA then read false "" (row ++ [cell]) s1
      else if a ==? NL then (row ++ [cell]) :: read false "" [] s1
      else read false (cell +:+ String a "") row s1
  end.

Definition parse_csv (s : string) : list (list string) := read false "" [] s.

(** Where a cell ends. *)
Definition cell_end (s : string) : Prop := s = "" ∨ (∃ s', s = String COMMA s') ∨ ∃ s', s = String NL s'.

Lemma read_plain cell row c rest :
  has_char COMMA c = false → has_char QUOT c = false → has_char NL c = false →
  read false cell row (c +:+ rest) = read false (cell +:+ c) row rest.
Proof.
  revert cell. induction c as [|a c IH]; intros cell; [by rewrite sapp_nil_r|]. simpl.
  intros [Hc ?]%orb_false_iff [Hq ?]%orb_false_iff [Hn ?]%orb_false_iff.
  rewrite Hc, Hq, Hn, IH by done. by rewrite <- sapp_assoc.
Qed.

Lemma read_quoted cell row c rest :
  cell_end rest →
  read true cell row (replace_char QUOT (String QUOT (String QUOT "")) c +:+ String QUOT rest)
  = read false (cell +:+ c) row rest.
Proof.
  intros Hr. revert cell. induction c as [|a c IH]; intros cell.
  - rewrite sapp_nil_r. cbn [replace_char]. change ("" +:+ String QUOT rest) with (String QUOT rest).
    cbn [read]. rewrite bool_decide_eq_true_2 by done. by destruct Hr as [->|[[s ->]|[s ->]]].
  - cbn [replace_char]. destruct (a ==? QUOT) eqn:E.
    + apply bool_decide_eq_true in E as ->.
      change ((String QUOT (String QUOT "") +:+ ?x) +:+ ?y) with (String QUOT (String QUOT (x +:+ y))).
      cbn [read]. rewrite !bool_decide_eq_true_2 by done. rewrite IH. by rewrite <- sapp_assoc.
    + change (String a ?x +:+ ?y) with (String a (x +:+ y)). cbn [read]. rewrite E, IH. by rewrite <- sapp_assoc.
Qed.

Lemma read_cell row c rest :
  cell_end rest → read false "" row (escapeCell c +:+ rest) = read false (cell_text c) row rest.
Proof.
  intros Hr. unfold escapeCell. destruct (_ || _) eqn:E.
  - change (String QUOT ?x +:+ ?y) with (String QUOT (x +:+ y)). rewrite <- sapp_assoc.
    change (String QUOT "" +:+ rest) with (String QUOT rest). cbn [read].
    rewrite bool_decide_eq_true_2 by done. by rewrite read_quoted.
  - apply orb_false_iff in E as [[? ?]%orb_false_iff ?]. by rewrite read_plain.
Qed.

(** Text after a row: nothing, or the next line. *)
Definition read_rest (rest : string) : list (list string) :=
  match rest with "" => [] | String _ s => parse_csv s end.

Lemma read_row row cells rest :
  cells ≠ [] → rest = "" ∨ (∃ s, rest = String NL s) →
  read false "" row (join "," (List.map escapeCell cells) +:+ rest)
  = (row ++ List.map cell_text cells) :: read_rest rest.
Proof.
  intros Hne Hr. revert row. induction cells as [|c cells IH]; intros row; [done|]. clear Hne.
  destruct cells as [|c' cells].
  - simpl. rewrite read_cell by (destruct Hr as [->|[s ->]]; [by left|by right; right; eexists]).
    by destruct Hr as [->|[s ->]].
  - change (join "," (List.map escapeCell (c :: c' :: cells)))
      with (escapeCell c +:+ ("," +:+ join "," (List.map escapeCell (c' :: cells)))).
    rewrite <- !sapp_assoc, read_cell by (by right; left; eexists).
    change ("," +:+ ?x) with (String COMMA x). cbn [read].
    change (COMMA ==? QUOT) with false. change (COMMA ==? COMMA) with true. cbv iota. rewrite IH by done.
    by rewrite <- app_assoc.
Qed.

Lemma parse_lines row rows :
  row ≠ [] → Forall (λ r, r ≠ []) rows →
  parse_csv (join (String NL "") (List.map (λ r, join "," (List.map escapeCell r)) (row :: rows)))
  = List.map (List.map cell_text) (row :: rows).
Proof.
  intros Hrow Hrows. revert row Hrow. induction Hrows as [|r rows Hr Hrs IH]; intros row Hrow.
  - cbn [List.map join]. rewrite <- (sapp_nil_r (join _ _)). unfold parse_csv. rewrite read_row by auto. done.
  - change (join (String NL "") (List.map ?f (row :: r :: rows)))
      with (f row +:+ (String NL "" +:+ join (String NL "") (List.map f (r :: rows)))).
    unfold parse_csv. change (String NL "" +:+ ?x) with (String NL x). rewrite read_row by eauto.
    cbn [app read_rest]. by rewrite IH.
Qed.

(** A spreadsheet reads an export back cell by cell: whatever commas,
    quotes and line breaks the cells hold, an RFC 4180 reader finds the
    headers and rows that were written. *)
Theorem csv_roundtrip headers rows :
  headers ≠ [] → Forall (λ r, r ≠ []) rows →
  parse_csv (buildCsv headers rows) = headers :: List.map (List.map cell_text) rows.
Proof.
  intros Hh Hr. unfold buildCsv. rewrite parse_lines by (done || by destruct headers).
  cbn [List.map]. rewrite List.map_map. by rewrite List.map_id.
Qed.

Lemma csv_roundtrip_witness :
  let q := String QUOT "" in
  parse_csv (buildCsv ["From"; "Note"] [[Some "Smith, J"; Some ("say " +:+ q +:+ "hi" +:+ q)]; [None; Some ("a" +:+ String NL "b")]])
  = [["From"; "Note"]; ["Smith, J"; "say " +:+ q +:+ "hi" +:+ q]; [""; "a" +:+ String NL "b"]].
Proof.
  exact (csv_roundtrip ["From"; "Note"]
    [[Some "Smith, J"; Some ("say " +:+ String QUOT "" +:+ "hi" +:+ String QUOT "")]; [None; Some ("a" +:+ String NL "b")]]
    ltac:(discriminate) ltac:(repeat constructor; discriminate)).
Defined.
