(* ===== verification/Ip.v ===== *)
(** * IP addresses and CIDR blocks ([utils/ip.ts])

    The check of the onboarding form, and the grammar of the texts it takes
    for addresses. *)
From S2P Require Import Prelude JsString Format.

Local Open Scope string_scope.
Local Open Scope Z_scope.
Local Open Scope list_scope.

Definition DOT : ascii := ".".
Definition COLON : ascii := ":".
Definition SLASH : ascii := "/".

Inductive IpValidationResult := ip_ok (value : string) | ip_error (error : string).

(** [/^\d{1,3}$/] *)
Definition one_to_three_digits (p : string) : bool :=
  sforall is_digit p && (1 <=? Z.of_nat (String.length p)) && (Z.of_nat (String.length p) <=? 3).

(** An octet: no leading zero, at most 255. *)
Definition is_octet (p : string) : bool :=
  one_to_three_digits p
  && ((String.length p =? 1)%nat || negb (starts_with "0" p))
  && (num_of_digits p <=? 255).

Definition isValidIpv4 (addr : string) : bool :=
  let parts := split_on DOT addr in
  (length parts =? 4)%nat && forallb is_octet parts.

(** [[0-9a-fA-F]] *)
Definition is_hex (a : ascii) : bool :=
  is_digit a || ((97 <=? code a) && (code a <=? 102)) || ((65 <=? code a) && (code a <=? 70)).

(** [/^[0-9a-fA-F]{1,4}$/] *)
Definition is_group (g : string) : bool :=
  sforall is_hex g && (1 <=? Z.of_nat (String.length g)) && (Z.of_nat (String.length g) <=? 4).

(** The text up to the last colon, with it, and what follows:
    [/^(.*:)(...)$/] for a second part without a colon. *)
Fixpoint last_colon (s : string) : option (string * string) :=
  match s with
  | "" => None
  | String a s =>
      match last_colon s with
      | Some (p, t) => Some (String a p, t)
      | None => if a ==? COLON then Some (String a "", s) else None
      end
  end.

(** [/^(?:\d{1,3}\.){3}\d{1,3}$/] *)
Definition dotted_digits (t : string) : bool :=
  let parts := split_on DOT t in
  (length parts =? 4)%nat && forallb one_to_three_digits parts.

(** [.] does not match a line break. *)
Definition is_line_break (a : ascii) : bool := (code a =? 10) || (code a =? 13).

Definition v4Tail (s : string) : option (string * string) :=
  match last_colon s with
  | Some (p, t) => if sforall (λ a, negb (is_line_break a)) p && dotted_digits t then Some (p, t) else None
  | None => None
  end.

(** [s.split('::')] *)
Fixpoint split_double (s : string) : list string :=
  match s with
  | "" => [""]
  | String a s1 =>
      match s1 with
      | String b s2 =>
          if (a ==? COLON) && (b ==? COLON) then "" :: split_double s2
          else match split_double s1 with x :: l => String a x :: l | [] => [String a ""] end
      | "" => [String a ""]
      end
  end.

Definition parseGroups (part : string) : option (list string) :=
  if part ==? "" then Some []
  else let groups := split_on COLON part in if forallb is_group groups then Some groups else None.

(** [isValidIpv6] once the IPv4 tail is replaced. *)
Definition valid_groups (s : string) : bool :=
  if s ==? "::" then true
  else match split_double s with
       | [h] => match parseGroups h with Some head => (length head =? 8)%nat | None => false end
       | [h; t] =>
           match parseGroups h, parseGroups t with
           | Some head, Some tail => (length head + length tail <=? 7)%nat
           | _, _ => false
           end
       | _ => false
       end.

Definition isValidIpv6 (addr : string) : bool :=
  match v4Tail addr with
  | Some (p, t) => if isValidIpv4 t then valid_groups (p +:+ "0:0") else false
  | None => valid_groups addr
  end.

(** [entry.indexOf('/')] with the two sides; [None]: there is no slash. *)
Fixpoint at_slash (s : string) : option (string * string) :=
  match s with
  | "" => None
  | String a s =>
      if a ==? SLASH then Some ("", s)
      else match at_slash s with Some (p, t) => Some (String a p, t) | None => None end
  end.

Definition in_quotes (s : string) : string := String QUOT (s +:+ String QUOT "").

Definition check_prefix (prefix widest longest : Z) (family entry : string) : IpValidationResult :=
  if longest <? prefix
  then ip_error (in_quotes ("/" +:+ print_int prefix) +:+ " is not a valid " +:+ family +:+ " prefix")
  else if prefix <? widest
  then ip_error ("CIDR block too large — /" +:+ print_int widest +:+ " is the widest " +:+ family +:+ " block accepted")
  else ip_ok entry.

Definition validateIpOrCidr (raw : string) : IpValidationResult :=
  let entry := trim raw in
  if entry ==? "" then ip_error "Enter an IP address or CIDR block"
  else match at_slash entry with
       | Some (addr, prefixStr) =>
           if negb (one_to_three_digits prefixStr) then ip_error (in_quotes entry +:+ " has an invalid CIDR prefix")
           else
             let prefix := num_of_digits prefixStr in
             if isValidIpv4 addr then check_prefix prefix 24 32 "IPv4" entry
             else if isValidIpv6 addr then check_prefix prefix 64 128 "IPv6" entry
             else ip_error (in_quotes addr +:+ " is not a valid IP address")
       | None =>
           if isValidIpv4 entry || isValidIpv6 entry then ip_ok entry
           else ip_error (in_quotes entry +:+ " is not a valid IPv4 or IPv6 address")
       end.

(** ** The grammar *)

Definition octet (n : Z) : Prop := 0 ≤ n ≤ 255.

(** Four numbers up to 255, written in decimal. *)
Definition ipv4_text (s : string) : Prop :=
  ∃ a b c d, octet a ∧ octet b ∧ octet c ∧ octet d
    ∧ s = join "." [print_int a; print_int b; print_int c; print_int d].

(** Eight groups of hexadecimal digits, or fewer around one [::]. *)
Definition ipv6_groups (s : string) : Prop :=
  (∃ gs, length gs = 8%nat ∧ Forall (λ g, is_group g = true) gs ∧ s = join ":" gs)
  ∨ (∃ hs ts, Forall (λ g, is_group g = true) hs ∧ Forall (λ g, is_group g = true) ts ∧ (length hs + length ts ≤ 7)%nat
       ∧ s = join ":" hs +:+ "::" +:+ join ":" ts).

(** The last two groups may be written as an IPv4 address. *)
Definition ipv6_text (s : string) : Prop :=
  ipv6_groups s ∨ ∃ p v4, ipv4_text v4 ∧ s = p +:+ ":" +:+ v4 ∧ ipv6_groups (p +:+ ":0:0").

(** ** Splitting and joining *)

Definition lacks (c : ascii) (s : string) : bool := sforall (λ a, negb (a ==? c)) s.

Lemma split_on_lacks c s : lacks c s = true → split_on c s = [s].
Proof.
  induction s as [|a s IH]; simpl; [done|]. intros [Ha Hs]%andb_true_iff.
  apply negb_true_iff in Ha. rewrite Ha, IH by done. done.
Qed.

Lemma split_on_app c s t : lacks c s = true → split_on c (s +:+ String c t) = s :: split_on c t.
Proof.
  induction s as [|a s IH]; simpl; [by rewrite bool_decide_eq_true_2|]. intros [Ha Hs]%andb_true_iff.
  apply negb_true_iff in Ha. by rewrite Ha, IH.
Qed.

Lemma split_on_join c parts :
  parts ≠ [] → Forall (λ p, lacks c p = true) parts → split_on c (join (String c "") parts) = parts.
Proof.
  intros Hne Hp. induction Hp as [|p parts Hp Hps IH]; [done|]. destruct parts as [|q parts].
  - by apply split_on_lacks.
  - change (join (String c "") (p :: q :: parts)) with (p +:+ String c (join (String c "") (q :: parts))).
    by rewrite split_on_app, IH.
Qed.

Lemma split_on_ne c s : split_on c s ≠ [].
Proof. induction s as [|a s IH]; simpl; [done|]. repeat case_match; done. Qed.

Lemma join_split_on c s : join (String c "") (split_on c s) = s.
Proof.
  induction s as [|a s IH]; simpl; [done|]. pose proof (split_on_ne c s) as Hne.
  case_bool_decide as E.
  - subst a. destruct (split_on c s) as [|x l]; [done|]. by rewrite <- IH.
  - destruct (split_on c s) as [|x l]; [done|]. rewrite <- IH. by destruct l.
Qed.

Lemma split_on_parts c s : Forall (λ p, lacks c p = true) (split_on c s).
Proof.
  induction s as [|a s IH]; simpl; [by repeat constructor|]. destruct (a ==? c) eqn:E; [by constructor|].
  destruct (split_on c s) as [|x l]; [constructor; [by unfold lacks; simpl; rewrite E|constructor]|].
  apply Forall_cons in IH as [Hx Hl]. constructor; [|done]. unfold lacks in *. simpl. by rewrite E.
Qed.

(** ** IPv4 *)

(** The texts of up to three digits. *)
Definition digit_chars : list ascii := ["0"; "1"; "2"; "3"; "4"; "5"; "6"; "7"; "8"; "9"]%char.
Fixpoint digit_texts (n : nat) : list string :=
  match n with
  | O => [""]
  | S n => "" :: flat_map (λ s, List.map (λ a, String a s) digit_chars) (digit_texts n)
  end.

Lemma is_digit_chars a : is_digit a = true → a ∈ digit_chars.
Proof.
  assert (forallb (λ a, negb (is_digit a) || includes digit_chars a) (List.map ascii_of_nat (seq 0 256)) = true) as H
    by (vm_compute; reflexivity).
  rewrite forallb_elem_of in H. intros Ha. specialize (H a).
  rewrite Ha in H. apply includes_true. apply H. apply elem_of_lmap. exists (nat_of_ascii a).
  split; [by rewrite ascii_nat_embedding|]. apply elem_of_seq. pose proof (nat_ascii_bounded a). lia.
Qed.

Lemma digit_texts_all s n : sforall is_digit s = true → (String.length s ≤ n)%nat → s ∈ digit_texts n.
Proof.
  revert n. induction s as [|a s IH]; intros n; [by destruct n; intros; set_solver|].
  simpl. intros [Ha Hs]%andb_true_iff Hn. destruct n as [|n]; [lia|]. cbn [digit_texts]. apply elem_of_cons. right.
  apply list_elem_of_In, in_flat_map. exists s. split; [apply list_elem_of_In, IH; [done|lia]|].
  apply list_elem_of_In, elem_of_lmap. exists a. split; [done|]. by apply is_digit_chars.
Qed.

Definition octet_number (p : string) : bool :=
  negb (is_octet p) || ((p ==? print_int (num_of_digits p)) && (0 <=? num_of_digits p) && (num_of_digits p <=? 255)).

Lemma is_octet_number p : is_octet p = true → octet (num_of_digits p) ∧ p = print_int (num_of_digits p).
Proof.
  intros Hp. assert (forallb octet_number (digit_texts 3) = true) as H by (vm_compute; reflexivity).
  rewrite forallb_elem_of in H. assert (p ∈ digit_texts 3) as Hin.
  { unfold is_octet, one_to_three_digits in Hp. repeat (apply andb_true_iff in Hp as [Hp ?]). apply digit_texts_all; [done|lia]. }
  specialize (H p Hin). unfold octet_number in H. rewrite Hp in H. cbn [negb orb] in H.
  apply andb_true_iff in H as [[Hq H0]%andb_true_iff H2]. apply bool_decide_eq_true in Hq. split; [|done]. unfold octet. lia.
Qed.

Lemma is_octet_print n : octet n → is_octet (print_int n) = true.
Proof.
  intros Hn. assert (forallb (λ k, is_octet (print_int (Z.of_nat k))) (seq 0 256) = true) as H by (vm_compute; reflexivity).
  rewrite forallb_elem_of in H. replace n with (Z.of_nat (Z.to_nat n)) by (unfold octet in Hn; lia).
  apply H. apply elem_of_seq. unfold octet in Hn. lia.
Qed.

Lemma octet_chars p : is_octet p = true → sforall is_digit p = true.
Proof. unfold is_octet, one_to_three_digits. intros H. repeat (apply andb_true_iff in H as [H ?]). done. Qed.

Lemma digits_lack c p : is_digit c = false → sforall is_digit p = true → lacks c p = true.
Proof.
  intros Hc. apply sforall_impl. intros a Ha. apply negb_true_iff, bool_decide_eq_false. congruence.
Qed.

Lemma isValidIpv4_iff s : isValidIpv4 s = true ↔ ipv4_text s.
Proof.
  unfold isValidIpv4. split.
  - intros [Hl Ho]%andb_true_iff. apply Nat.eqb_eq in Hl.
    destruct (split_on DOT s) as [|a [|b [|c [|d [|]]]]] eqn:E; try done. simpl in Ho.
    repeat rewrite andb_true_iff in Ho. destruct Ho as (Ha & Hb & Hc & Hd & _).
    apply is_octet_number in Ha as [Ha1 Ha2], Hb as [Hb1 Hb2], Hc as [Hc1 Hc2], Hd as [Hd1 Hd2].
    exists (num_of_digits a), (num_of_digits b), (num_of_digits c), (num_of_digits d).
    split_and!; try done. rewrite <- Ha2, <- Hb2, <- Hc2, <- Hd2, <- E. symmetry. apply (join_split_on DOT).
  - intros (a & b & c & d & Ha & Hb & Hc & Hd & ->).
    apply is_octet_print in Ha, Hb, Hc, Hd. change "." with (String DOT "").
    rewrite split_on_join; [|done|]; [simpl; by rewrite Ha, Hb, Hc, Hd|].
    repeat constructor; by apply digits_lack, octet_chars.
Qed.

(** ** IPv6 *)

(** No two colons in a row. *)
Fixpoint singles (s : string) : bool :=
  match s with
  | String a s1 =>
      match s1 with
      | String b _ => negb ((a ==? COLON) && (b ==? COLON)) && singles s1
      | "" => true
      end
  | "" => true
  end.

Fixpoint ends_colon (s : string) : bool :=
  match s with
  | "" => false
  | String a s1 => match s1 with "" => a ==? COLON | String _ _ => ends_colon s1 end
  end.

Lemma split_double_app h t :
  singles h = true → ends_colon h = false → split_double (h +:+ "::" +:+ t) = h :: split_double t.
Proof.
  induction h as [|a h IH]; [done|]. intros Hs He. destruct h as [|b h].
  - simpl in He. change (split_double (String a "" +:+ "::" +:+ t))
      with (if (a ==? COLON) && (COLON ==? COLON) then "" :: split_double (":" +:+ t)
            else match split_double ("::" +:+ t) with x :: l => String a x :: l | [] => [String a ""] end).
    rewrite He. simpl andb. cbv iota. change ("::" +:+ t) with ("" +:+ "::" +:+ t). by rewrite IH.
  - simpl in Hs. apply andb_true_iff in Hs as [Hab Hs]. apply negb_true_iff in Hab.
    change (split_double (String a (String b h) +:+ "::" +:+ t))
      with (if (a ==? COLON) && (b ==? COLON) then "" :: split_double (h +:+ "::" +:+ t)
            else match split_double (String b h +:+ "::" +:+ t) with x :: l => String a x :: l | [] => [String a ""] end).
    rewrite Hab. by rewrite IH.
Qed.

Lemma split_double_single s : singles s = true → split_double s = [s].
Proof.
  induction s as [|a s IH]; [done|]. destruct s as [|b s]; [done|]. intros Hs. simpl in Hs.
  apply andb_true_iff in Hs as [Hab Hs]. apply negb_true_iff in Hab.
  change (split_double (String a (String b s)))
    with (if (a ==? COLON) && (b ==? COLON) then "" :: split_double s
          else match split_double (String b s) with x :: l => String a x :: l | [] => [String a ""] end).
  by rewrite Hab, IH.
Qed.

Lemma join_split_double s : join "::" (split_double s) = s ∧ split_double s ≠ [].
Proof.
  enough (∀ n s, (String.length s ≤ n)%nat → join "::" (split_double s) = s ∧ split_double s ≠ []) as H by by eapply H.
  clear s. induction n as [|n IH]; intros s Hn; [by destruct s; [|simpl in Hn; lia]|].
  destruct s as [|a [|b s]]; [done..|]. simpl in Hn.
  change (split_double (String a (String b s)))
    with (if (a ==? COLON) && (b ==? COLON) then "" :: split_double s
          else match split_double (String b s) with x :: l => String a x :: l | [] => [String a ""] end).
  destruct (_ && _) eqn:E.
  - apply andb_true_iff in E as [->%bool_decide_eq_true ->%bool_decide_eq_true].
    destruct (IH s) as [Hj Hne]; [lia|]. split; [|done]. destruct (split_double s) as [|x l]; [done|].
    change (join "::" ("" :: x :: l)) with ("::" +:+ join "::" (x :: l)). by rewrite Hj.
  - destruct (IH (String b s)) as [Hj Hne]; [simpl; lia|].
    destruct (split_double (String b s)) as [|x l]; [done|]. split; [|done]. rewrite <- Hj. by destruct l.
Qed.

Lemma group_chars g : is_group g = true → g ≠ "" ∧ lacks COLON g = true ∧ lacks DOT g = true.
Proof.
  unfold is_group. intros [[Hg Hl]%andb_true_iff _]%andb_true_iff. split; [by intros ->|].
  split; revert Hg; apply sforall_impl; intros a Ha; apply negb_true_iff, bool_decide_eq_false; intros ->; done.
Qed.

Lemma singles_lacks g r : g ≠ "" → lacks COLON g = true →
  singles (g +:+ r) = match r with String c r' => singles r | "" => true end.
Proof.
  induction g as [|a g IH]; [done|]. intros _ [Ha Hg]%andb_true_iff. apply negb_true_iff in Ha.
  destruct g as [|b g].
  - simpl. destruct r; [done|]. by rewrite Ha.
  - change (String a (String b g) +:+ r) with (String a (String b g +:+ r)).
    assert (singles (String a (String b g +:+ r)) = singles (String b g +:+ r)) as -> by (simpl; by rewrite Ha).
    by apply IH.
Qed.

Lemma ends_lacks g r : g ≠ "" → lacks COLON g = true →
  ends_colon (g +:+ r) = ends_colon r.
Proof.
  induction g as [|a g IH]; [done|]. intros _ [Ha Hg]%andb_true_iff. apply negb_true_iff in Ha.
  destruct g as [|b g]; [simpl; by destruct r|]. by apply IH.
Qed.

(** Groups joined by colons: none doubled, none at an end. *)
Lemma join_groups gs :
  Forall (λ g, is_group g = true) gs → singles (join ":" gs) = true ∧ ends_colon (join ":" gs) = false.
Proof.
  induction 1 as [|g gs Hg Hgs [IH1 IH2]]; [done|]. destruct (group_chars g Hg) as (Hne & Hc & _).
  destruct gs as [|k gs].
  - simpl. rewrite <- (sapp_nil_r g). by rewrite singles_lacks, ends_lacks.
  - change (join ":" (g :: k :: gs)) with (g +:+ String COLON (join ":" (k :: gs))).
    rewrite singles_lacks, ends_lacks by done. inversion Hgs as [|? ? Hk]. subst.
    destruct (group_chars k Hk) as (Hkne & Hkc & _). destruct k as [|c k]; [done|].
    simpl in Hkc. apply andb_true_iff in Hkc as [Hc1 _]. apply negb_true_iff in Hc1.
    assert (∃ r, join ":" (String c k :: gs) = String c r) as [r Er] by (destruct gs; simpl; eauto).
    rewrite Er in *. split; [|exact IH2].
    change (singles (String COLON (String c r)))
      with (negb ((COLON ==? COLON) && (c ==? COLON)) && singles (String c r)).
    rewrite Hc1, IH1. by rewrite andb_false_r.
Qed.

Lemma parseGroups_Some part gs :
  parseGroups part = Some gs ↔ Forall (λ g, is_group g = true) gs ∧ part = join ":" gs.
Proof.
  unfold parseGroups. split.
  - case_bool_decide as E; [intros [= <-]; by subst|]. destruct (forallb _ _) eqn:Ef; [|done]. intros [= <-].
    rewrite forallb_elem_of in Ef. split; [by apply Forall_forall|]. symmetry. apply (join_split_on COLON).
  - intros [Hg ->]. destruct gs as [|g gs]; [done|]. rewrite bool_decide_eq_false_2.
    + change ":" with (String COLON ""). rewrite split_on_join; [|done|].
      * rewrite (proj2 (forallb_elem_of _ _)); [done|]. by apply Forall_forall.
      * eapply Forall_impl; [exact Hg|]. intros x Hx. by apply group_chars.
    + inversion Hg as [|? ? Hx]. subst. destruct (group_chars g Hx) as (Hne & _). destruct g; [done|]. by destruct gs.
Qed.

Lemma valid_groups_iff s : valid_groups s = true ↔ ipv6_groups s.
Proof.
  unfold valid_groups. split.
  - case_bool_decide as E; [intros _; subst; right; exists [], []; split_and!; [constructor|constructor|simpl; lia|done]|].
    destruct (join_split_double s) as [Hj _]. destruct (split_double s) as [|h [|t [|]]]; try done; simpl in Hj.
    + destruct (parseGroups h) as [gs|] eqn:Eg; [|done]. apply parseGroups_Some in Eg as [Hg ->].
      intros Hl%Nat.eqb_eq. left. exists gs. by subst.
    + destruct (parseGroups h) as [hs|] eqn:Eh; [|done]. destruct (parseGroups t) as [ts|] eqn:Et; [|done].
      apply parseGroups_Some in Eh as [Hh ->], Et as [Ht ->]. intros Hl%Nat.leb_le. right. exists hs, ts. by subst.
  - intros [(gs & Hl & Hg & ->)|(hs & ts & Hh & Ht & Hl & ->)].
    + rewrite bool_decide_eq_false_2.
      * rewrite split_double_single by by apply join_groups. rewrite (proj2 (parseGroups_Some _ gs)) by done.
        by apply Nat.eqb_eq.
      * destruct (join_groups gs Hg) as [Hs _]. intros E. by rewrite E in Hs.
    + case_bool_decide; [done|].
      rewrite split_double_app, split_double_single by by apply join_groups.
      rewrite (proj2 (parseGroups_Some _ hs)), (proj2 (parseGroups_Some _ ts)) by done. by apply Nat.leb_le.
Qed.

(** ** The IPv4 tail *)

Lemma last_colon_lacks t : lacks COLON t = true → last_colon t = None.
Proof.
  induction t as [|a t IH]; [done|]. simpl. intros [Ha Ht]%andb_true_iff. apply negb_true_iff in Ha.
  by rewrite IH, Ha.
Qed.

Lemma last_colon_app p t : lacks COLON t = true → last_colon (p +:+ String COLON t) = Some (p +:+ ":", t).
Proof.
  intros Ht. induction p as [|a p IH]; simpl; [|by rewrite IH].
  by rewrite last_colon_lacks.
Qed.

Lemma last_colon_Some s p t : last_colon s = Some (p, t) → ∃ p', p = p' +:+ ":" ∧ s = p' +:+ ":" +:+ t.
Proof.
  revert p t. induction s as [|a s IH]; intros p t; simpl; [done|].
  destruct (last_colon s) as [[p1 t1]|]; [|destruct (a ==? COLON) eqn:E; [|done]].
  - intros [= <- <-]. destruct (IH _ _ eq_refl) as (p' & -> & ->). by exists (String a p').
  - apply bool_decide_eq_true in E as ->. intros [= <- <-]. by exists "".
Qed.

(** The characters of an address without a tail. *)
Definition v6_char (a : ascii) : bool := is_hex a || (a ==? COLON).

Lemma join_v6_chars gs : Forall (λ g, is_group g = true) gs → sforall v6_char (join ":" gs) = true.
Proof.
  assert (∀ g, is_group g = true → sforall v6_char g = true) as Hg.
  { intros g. unfold is_group. intros [[Hg _]%andb_true_iff _]%andb_true_iff. revert Hg. apply sforall_impl.
    intros a Ha. unfold v6_char. by rewrite Ha. }
  induction 1 as [|g gs Hx Hxs IH]; [done|]. destruct gs as [|k gs]; [by apply Hg|].
  change (join ":" (g :: k :: gs)) with (g +:+ ":" +:+ join ":" (k :: gs)). rewrite !sforall_app, Hg, IH by done. done.
Qed.

Lemma ipv6_groups_chars s : ipv6_groups s → sforall v6_char s = true.
Proof.
  intros [(gs & _ & Hg & ->)|(hs & ts & Hh & Ht & _ & ->)]; [by apply join_v6_chars|].
  by rewrite !sforall_app, !join_v6_chars.
Qed.

Lemma v6_char_facts : (∀ a, v6_char a = true → (a ==? DOT) = false) ∧ (∀ a, v6_char a = true → is_line_break a = false).
Proof.
  split; intros a Ha.
  - apply bool_decide_eq_false. intros ->. done.
  - destruct (is_line_break a) eqn:E; [|done]. unfold is_line_break in E. exfalso.
    unfold v6_char, is_hex, is_digit in Ha. apply orb_true_iff in Ha as [Ha|Ha]; [lia|].
    apply bool_decide_eq_true in Ha. subst. done.
Qed.

Lemma dotted_digits_dot t : lacks DOT t = true → dotted_digits t = false.
Proof. intros Ht. unfold dotted_digits. by rewrite split_on_lacks. Qed.

Lemma ipv4_dotted t : ipv4_text t → dotted_digits t = true ∧ lacks COLON t = true.
Proof.
  intros Ht. apply isValidIpv4_iff in Ht. unfold isValidIpv4, dotted_digits in *.
  apply andb_true_iff in Ht as [Hl Ho]. rewrite Hl. rewrite forallb_elem_of in Ho. split.
  - apply forallb_elem_of. intros p Hp. specialize (Ho p Hp). unfold is_octet in Ho.
    apply andb_true_iff in Ho as [Ho _]. by apply andb_true_iff in Ho as [Ho _].
  - rewrite <- (join_split_on DOT t).
    assert (Forall (λ p, lacks COLON p = true) (split_on DOT t)) as Hc
      by (apply Forall_forall; intros p Hp; by apply digits_lack, octet_chars, Ho).
    clear Hl Ho. induction Hc as [|p ps Hp Hps IH]; [done|]. destruct ps as [|q ps]; [done|].
    change (join (String DOT "") (p :: q :: ps)) with (p +:+ (String DOT "" +:+ join (String DOT "") (q :: ps))).
    unfold lacks in *. rewrite !sforall_app, Hp, IH. done.
Qed.

Lemma ipv6_groups_no_tail s : ipv6_groups s → v4Tail s = None.
Proof.
  intros Hs%ipv6_groups_chars. unfold v4Tail. destruct (last_colon s) as [[p t]|] eqn:E; [|done].
  apply last_colon_Some in E as (p' & -> & ->). rewrite !sforall_app in Hs.
  apply andb_true_iff in Hs as [_ [_ Ht]%andb_true_iff]. rewrite dotted_digits_dot; [by rewrite andb_false_r|].
  revert Ht. apply sforall_impl. intros a Ha. apply negb_true_iff. by apply v6_char_facts.
Qed.

Lemma isValidIpv6_iff s : isValidIpv6 s = true ↔ ipv6_text s.
Proof.
  unfold isValidIpv6. split.
  - unfold v4Tail. destruct (last_colon s) as [[p t]|] eqn:E; [|by left; apply valid_groups_iff].
    destruct (_ && dotted_digits t) eqn:Ed; [|by left; apply valid_groups_iff].
    apply last_colon_Some in E as (p' & -> & ->). destruct (isValidIpv4 t) eqn:Et; [|done].
    intros Hg%valid_groups_iff. right. exists p', t. split; [by apply isValidIpv4_iff|]. split; [done|].
    by rewrite <- sapp_assoc in Hg.
  - intros [Hg|(p & v4 & H4 & -> & Hg)]; [rewrite ipv6_groups_no_tail by done; by apply valid_groups_iff|].
    destruct (ipv4_dotted v4 H4) as [Hd Hc]. unfold v4Tail.
    change (":" +:+ v4) with (String COLON v4). rewrite last_colon_app, Hd by done.
    assert (sforall (λ a, negb (is_line_break a)) (p +:+ ":") = true) as ->.
    { pose proof (ipv6_groups_chars _ Hg) as Hch. change ":0:0" with (":" +:+ "0:0") in Hch.
      rewrite sapp_assoc, sforall_app in Hch. apply andb_true_iff in Hch as [Hch _]. revert Hch. apply sforall_impl.
      intros a Ha. apply negb_true_iff. by apply v6_char_facts. }
    cbn [andb]. apply isValidIpv4_iff in H4. rewrite H4. apply valid_groups_iff.
    by rewrite <- sapp_assoc.
Qed.

(** C39 The address check decides the grammar of addresses: four decimal
    octets without leading zeros for IPv4; for IPv6 eight groups of one to
    four hexadecimal digits, or up to seven around one [::], the last two of
    which may be written as an IPv4 address. *)
Theorem address_check_iff s :
  (isValidIpv4 s = true ↔ ipv4_text s) ∧ (isValidIpv6 s = true ↔ ipv6_text s).
Proof. split; [apply isValidIpv4_iff|apply isValidIpv6_iff]. Qed.
