(* ===== verification/Phone.v ===== *)
(** * Numbers as typed ([utils/phone.ts])

    The client half of the E.164 canonicalisation. *)
From S2P Require Import Prelude JsString.

Local Open Scope string_scope.
Local Open Scope Z_scope.
Local Open Scope list_scope.

(** [[\s\-().+]], the ASCII part. *)
Definition is_sep (a : ascii) : bool :=
  ws1 a || (code a =? 45) || (code a =? 40) || (code a =? 41) || (code a =? 46) || (code a =? 43).

(** [s.replace(SEPARATORS_RE, '')] *)
Fixpoint strip (s : string) : string :=
  match s with
  | String a s1 =>
      if is_sep a then strip s1 else
      match s1 with
      | String b s2 =>
          if ws2 a b then strip s2 else
          match s2 with
          | String c s3 => if ws3 a b c then strip s3 else String a (strip s1)
          | _ => String a (strip s1)
          end
      | _ => String a (strip s1)
      end
  | _ => ""
  end.

(** [s.length]: the UTF-16 units of a UTF-8 text. *)
Fixpoint utf16_length (s : string) : Z :=
  match s with
  | "" => 0
  | String a s =>
      (if (128 <=? code a) && (code a <? 192) then 0 else if 240 <=? code a then 2 else 1) + utf16_length s
  end.

Definition isNanpLead (c : option ascii) : bool :=
  match c with Some a => (50 <=? code a) && (code a <=? 57) | None => false end.

(** [/^\d{3,6}$/] *)
Definition is_extension (s : string) : bool :=
  sforall is_digit s && (3 <=? Z.of_nat (String.length s)) && (Z.of_nat (String.length s) <=? 6).

Definition normalizeNumberInput (raw : string) : string :=
  let s := trim raw in
  if s ==? "" then ""
  else
    let digits := strip s in
    let n := utf16_length digits in
    if starts_with "+" s then if (8 <=? n) && (n <=? 15) then "+" +:+ digits else s
    else if (n =? 11) && starts_with "1" digits && isNanpLead (char_at 1 digits) then "+" +:+ digits
    else if (n =? 10) && isNanpLead (char_at 0 digits) then "+1" +:+ digits
    else if is_extension digits then digits
    else s.

(** [/^\+\d{8,15}$/] *)
Definition is_e164 (s : string) : bool :=
  starts_with "+" s && sforall is_digit (slice_from 1 s)
  && (8 <=? Z.of_nat (String.length (slice_from 1 s))) && (Z.of_nat (String.length (slice_from 1 s)) <=? 15).

Definition isEnterableNumber (raw : string) : bool :=
  let normalized := normalizeNumberInput raw in
  if normalized ==? "" then false else is_e164 normalized || is_extension normalized.

(** ** Lemmas *)

(** What a keyboard types: printable ASCII and white space. *)
Definition typed (a : ascii) : bool := plain a || ws1 a.

Lemma typed_sep a : typed a = true → is_sep a = false → plain a = true.
Proof.
  unfold typed, is_sep. intros [?|Hw]%orb_true_iff; [done|]. by rewrite Hw.
Qed.

Lemma typed_not_ws a : typed a = true → (∀ b, ws2 a b = false) ∧ ∀ b c, ws3 a b c = false.
Proof.
  unfold typed, plain, ws1, ws2, ws3. intros Ht. split; intros; apply not_true_is_false; intros E; lia.
Qed.

Lemma strip_typed s : sforall typed s = true → strip s = sfilter (λ a, negb (is_sep a)) s.
Proof.
  induction s as [|a s IH]; [done|]. simpl. intros [Ha Hs]%andb_true_iff. specialize (IH Hs).
  destruct (typed_not_ws a Ha) as [H2 H3]. destruct (is_sep a); simpl; [done|].
  destruct s as [|b s]; [done|]. rewrite H2. destruct s as [|c s]; rewrite ?H3; by rewrite IH.
Qed.

Definition clean (a : ascii) : bool := plain a && negb (is_sep a).

Lemma strip_clean s : sforall typed s = true → sforall clean (strip s) = true.
Proof.
  intros Hs. rewrite strip_typed by done. revert Hs. induction s as [|a s IH]; [done|]. simpl.
  intros [Ha Hs]%andb_true_iff. destruct (is_sep a) eqn:E; simpl; [auto|].
  unfold clean at 1. rewrite typed_sep, E, IH by done. done.
Qed.

Lemma clean_plain s : sforall clean s = true → sforall plain s = true.
Proof. apply sforall_impl. by intros a [Ha _]%andb_true_iff. Qed.

Lemma strip_again s : sforall clean s = true → strip s = s.
Proof.
  intros Hs. rewrite strip_typed.
  - apply sfilter_id. revert Hs. apply sforall_impl. by intros a [_ Ha]%andb_true_iff.
  - revert Hs. apply sforall_impl. intros a [Ha _]%andb_true_iff. unfold typed. by rewrite Ha.
Qed.

Lemma trim_typed s : sforall typed s = true → sforall typed (trim s) = true.
Proof.
  intros Hs. unfold trim. rewrite sforall_srev.
  assert (sforall typed (ltrim s) = true) as Hl.
  { induction s as [|a s IH]; [done|]. simpl in Hs. apply andb_true_iff in Hs as [Ha Hs].
    destruct (typed_not_ws a Ha) as [H2 H3]. simpl. destruct (ws1 a); [auto|].
    assert (sforall typed (String a s) = true) as Has by (simpl; by rewrite Ha, Hs).
    destruct s as [|b s]; [done|]. rewrite H2. destruct s as [|c s]; [done|]. by rewrite H3. }
  rewrite <- sforall_srev in Hl. destruct (rltrim_suffix (srev (ltrim s))) as [p Ep]. rewrite Ep, sforall_app in Hl.
  by apply andb_true_iff in Hl as [_ ?].
Qed.

(** What is written with a plus reads as it is. *)
Lemma normalize_plus d :
  sforall clean d = true → 8 ≤ utf16_length d ≤ 15 → normalizeNumberInput ("+" +:+ d) = "+" +:+ d.
Proof.
  intros Hd Hn. unfold normalizeNumberInput.
  rewrite trim_plain by (simpl; by apply clean_plain). rewrite bool_decide_eq_false_2 by done.
  assert (starts_with "+" ("+" +:+ d) = true) as -> by by destruct d.
  assert (strip ("+" +:+ d) = d) as -> by (simpl; by apply strip_again).
  destruct (Z.leb_spec 8 (utf16_length d)), (Z.leb_spec (utf16_length d) 15); done || lia.
Qed.

Lemma digits_clean s : sforall is_digit s = true → sforall clean s = true.
Proof.
  apply sforall_impl. intros a Ha. unfold clean. rewrite is_digit_plain by done. apply negb_true_iff.
  unfold is_digit in Ha. unfold is_sep, ws1. lia.
Qed.

Lemma normalize_extension d : is_extension d = true → normalizeNumberInput d = d.
Proof.
  intros He. pose proof He as [[Hd Hl]%andb_true_iff Hu]%andb_true_iff. apply Z.leb_le in Hl, Hu.
  pose proof (digits_clean d Hd) as Hc. unfold normalizeNumberInput.
  rewrite trim_plain by by apply clean_plain. rewrite strip_again by done.
  assert (utf16_length d = Z.of_nat (String.length d)) as Hlen.
  { clear He Hl Hu Hc. induction d as [|a d IH]; [done|]. simpl in Hd. apply andb_true_iff in Hd as [Ha Hd].
    cbn [utf16_length String.length]. rewrite IH by done. unfold is_digit in Ha.
    destruct (Z.leb_spec 128 (code a)); [lia|]. destruct (Z.leb_spec 240 (code a)); [lia|]. cbn [andb]. lia. }
  rewrite bool_decide_eq_false_2 by (intros ->; simpl in Hl; lia).
  assert (starts_with "+" d = false) as ->.
  { destruct d as [|a d]; [done|]. simpl in Hc. apply andb_true_iff in Hc as [Ha _]. unfold starts_with. simpl.
    case_match; [subst; done|done]. }
  destruct (Z.eqb_spec (utf16_length d) 11); [lia|]. destruct (Z.eqb_spec (utf16_length d) 10); [lia|].
  by rewrite He.
Qed.

(** Normalising twice is normalising once, on anything a keyboard types: the
    stored number is a fixed point, so saving a form again changes nothing. *)
Lemma normalizeNumberInput_idemp raw :
  sforall typed raw = true → normalizeNumberInput (normalizeNumberInput raw) = normalizeNumberInput raw.
Proof.
  intros Hr%trim_typed. unfold normalizeNumberInput at 2 3. pose proof (trim_idemp raw) as Ht.
  set (s := trim raw) in *. clearbody s. pose proof (strip_clean s Hr) as Hc.
  destruct (s ==? "") eqn:E0; [done|].
  destruct (starts_with "+" s) eqn:Ep.
  - destruct (_ && _) eqn:El.
    + apply normalize_plus; [done|]. lia.
    + unfold normalizeNumberInput. by rewrite Ht, E0, Ep, El.
  - destruct (_ && isNanpLead (char_at 1 _)) eqn:E1; [|destruct (_ && isNanpLead (char_at 0 _)) eqn:E2; [|destruct (is_extension (strip s)) eqn:E3]].
    + apply normalize_plus; [done|]. lia.
    + change ("+1" +:+ strip s) with ("+" +:+ String "1" (strip s)). apply normalize_plus; [by simpl|].
      cbn [utf16_length]. change (code "1") with 49. cbn [Z.leb Z.ltb Z.compare Pos.compare Pos.compare_cont andb]. lia.
    + by apply normalize_extension.
    + unfold normalizeNumberInput. by rewrite Ht, E0, Ep, E1, E2, E3.
Qed.

(** "Digits" are whatever is not a separator: letters are counted, and kept. *)
Lemma letters_become_a_number :
  normalizeNumberInput "+abcdefgh" = "+abcdefgh" ∧ normalizeNumberInput "2abcdefghi" = "+12abcdefghi"
  ∧ isEnterableNumber "2abcdefghi" = false.
Proof. split_and!; vm_compute; reflexivity. Qed.
