(* ===== verification/Assist.v ===== *)
(** * The Flow assistant's logic ([flow/assist/model.ts])

    The assistant's server answers a request with a job whose result may be a
    proposed flow.  Job bodies are untrusted JSON.  New messages a proposal
    needs stand in its graph as negative prompt ids until the customer
    accepts it. *)
From S2P Require Import Prelude JsString JsValue Blocks Graph Layout IvrError FlowState Store.

Local Open Scope string_scope.
Local Open Scope Z_scope.
Local Open Scope list_scope.

(** ** Limits *)

Definition MESSAGE_MAX_CHARS : nat := 2000.
Definition POLL_INTERVAL_MS : Z := 1500.
Definition POLL_LIMIT_MS : Z := 300000.

(** ** Types *)

Record AssistNewPrompt := {
  np_placeholder : Z;
  np_name : string;
  np_text : string;
}.

(** [ap_graph] is an object whose [nodes] and [edges] are arrays. *)
Record AssistProposal := {
  ap_graph : obj;
  ap_new_prompts : list AssistNewPrompt;
  ap_summary : string;
  ap_assumptions : list string;
  ap_issues : list Issue;
  ap_warnings : list Issue;
}.

Inductive AssistResult :=
  | ar_proposal (p : AssistProposal)
  | ar_clarify (question : string)
  | ar_cannot_build (message : string).

Inductive JobState :=
  | js_running
  | js_done (result : AssistResult)
  | js_failed (code message : string).

Record AssistJob := {
  aj_job_id : string;
  aj_conversation_id : string;
  aj_elapsed_ms : num;
  aj_state : JobState;
}.

(** ** The texts of failed jobs *)

Definition JOB_ERROR_TEXT : list (string * string) := [
  ("assistant_unavailable", "The flow assistant is unavailable right now. You can keep building by hand.");
  ("assistant_busy", "The flow assistant is busy. Try again in a minute.");
  ("assistant_failed", "The flow assistant couldn’t finish that request. Try rewording it, or build it by hand.") ].

Definition failed_text : string := default "" (om_get "assistant_failed" JOB_ERROR_TEXT).

Definition jobErrorText (c : option string) : string :=
  match c with
  | Some c => default failed_text (om_get c JOB_ERROR_TEXT)
  | None => failed_text
  end.

(** ** Parsing *)

(** [strs]: the strings that are not blank. *)
Definition full_strs (v : value) : list string := List.filter (λ s, trim s !=? "") (strs v).

Definition issues (v : value) : list Issue := List.filter (λ i, is_message i !=? "") (asIssues v).

(** The new message an element of [new_prompts] describes. *)
Definition read_prompt (seen : list Z) (p : value) : option AssistNewPrompt :=
  match p with
  | VObj p =>
      match get "placeholder_id" p, get "name" p, get "text" p with
      | VNum n, VStr name, VStr text =>
          match Z_of_num n with
          | Some id =>
              if (0 <=? id) || includes seen id || (trim text ==? "") then None
              else Some {| np_placeholder := id;
                           np_name := if trim name ==? "" then "New message" else trim name; np_text := text |}
          | None => None
          end
      | _, _, _ => None
      end
  | _ => None
  end.

(** One turn of the loop of [newPrompts]; [seen] is what [out] holds. *)
Definition prompt_step (out : list AssistNewPrompt) (p : value) : list AssistNewPrompt :=
  match read_prompt (List.map np_placeholder out) p with
  | Some np => out ++ [np]
  | None => out
  end.

Definition newPrompts (v : value) : list AssistNewPrompt := fold_left prompt_step (elems v) [].

Definition parse_proposal (raw : obj) : option AssistResult :=
  match get "draft_graph" raw with
  | VObj g =>
      match get "nodes" g, get "edges" g with
      | VArr _, VArr _ =>
          Some (ar_proposal
            {| ap_graph := g; ap_new_prompts := newPrompts (get "new_prompts" raw);
               ap_summary := str_or_empty (get "summary" raw);
               ap_assumptions := full_strs (get "assumptions" raw);
               ap_issues := issues (get "issues" raw); ap_warnings := issues (get "warnings" raw) |})
      | _, _ => None
      end
  | _ => None
  end.

Definition parseAssistResult (raw : value) : option AssistResult :=
  match raw with
  | VObj raw =>
      match get "kind" raw with
      | VStr kind =>
          if kind ==? "proposal" then parse_proposal raw
          else if kind ==? "clarify" then
            let question := str_or_empty (get "question" raw) in
            if trim question ==? "" then None else Some (ar_clarify question)
          else if kind ==? "cannot_build" then
            let message := str_or_empty (get "message" raw) in
            if trim message ==? "" then None else Some (ar_cannot_build message)
          else None
      | _ => None
      end
  | _ => None
  end.

Definition read_status (status : string) (raw : obj) : option JobState :=
  if status ==? "running" then Some js_running
  else if status ==? "done" then
    Some (match parseAssistResult (get "result" raw) with
          | Some r => js_done r
          | None => js_failed "assistant_failed" failed_text
          end)
  else if status ==? "failed" then
    let err := record_or_empty (get "error" raw) in
    let c := str_or_empty (get "code" err) in
    Some (js_failed (if c ==? "" then "assistant_failed" else c) (str_or_empty (get "message" err)))
  else None.

Definition parseAssistJob (raw : value) : option AssistJob :=
  match raw with
  | VObj raw =>
      match get "job_id" raw, get "status" raw with
      | VStr job_id, VStr status =>
          st ← read_status status raw;
          Some {| aj_job_id := job_id; aj_conversation_id := str_or_empty (get "conversation_id" raw);
                  aj_elapsed_ms := match get "elapsed_ms" raw with VNum n => n | _ => num_of_Z 0 end;
                  aj_state := st |}
      | _, _ => None
      end
  | _ => None
  end.

(** ** Placeholders *)

(** What [accept] can throw: a property of [null] read, a placeholder without
    a message, a message that could not be created, or no voice to read it. *)
Inductive accept_error :=
  | null_read
  | missing_message (placeholder : num)
  | prompt_failed (prompt : AssistNewPrompt) (cause : thrown)
  | no_voice.

Definition PROMPT_KEYS : list string := ["prompts"; "invalidPrompts"; "noInputPrompts"].

Definition config_in (data : value) : option obj :=
  match data with VObj d => as_record (get "config" d) | _ => None end.

(** [configOf]: [None] for [null], whose [data] cannot be read. *)
Definition configOf (node : value) : option (option obj) :=
  match node with
  | VUndef | VNull => None
  | VObj o => Some (config_in (get "data" o))
  | _ => Some None
  end.

(** [id < 0] and [id >= 0]: both false on NaN. *)
Definition below_zero (n : num) : bool := num_le n (num_of_Z 0) && negb (num_le (num_of_Z 0) n).
Definition from_zero (n : num) : bool := num_le (num_of_Z 0) n.

(** [===] on numbers. *)
Definition num_same (a b : num) : bool := num_le a b && num_le b a.

Definition add_placeholder (out : list num) (id : value) : list num :=
  match id with
  | VNum n => if below_zero n && negb (existsb (num_same n) out) then out ++ [n] else out
  | _ => out
  end.

(** The prompt ids of a config, list by list. *)
Definition config_prompts (config : obj) : list value :=
  flat_map (λ key, match get key config with VArr l => l | _ => [] end) PROMPT_KEYS.

(** One turn of the loop over the nodes. *)
Definition node_placeholders (out : option (list num)) (node : value) : option (list num) :=
  out ← out; config ← configOf node;
  Some (match config with Some c => fold_left add_placeholder (config_prompts c) out | None => out end).

(** [graph.nodes]: iterating anything but an array throws. *)
Definition graph_nodes (graph : obj) : option (list value) := as_array (get "nodes" graph).

Definition placeholderIds (graph : obj) : option (list num) :=
  nodes ← graph_nodes graph; fold_left node_placeholders nodes (Some []).

Definition usedNewPrompts (p : AssistProposal) : option (list AssistNewPrompt) :=
  used ← placeholderIds (ap_graph p);
  Some (List.filter (λ np, existsb (num_same (num_of_Z (np_placeholder np))) used) (ap_new_prompts p)).

(** Placeholder id to real prompt id. *)
Abbreviation Mapping := (list (Z * Z)).

Definition promptsToCreate (p : AssistProposal) (created : Mapping) : option (list AssistNewPrompt) :=
  used ← usedNewPrompts p;
  Some (List.filter (λ np, negb (om_has (np_placeholder np) created)) used).

(** [createMissingPrompts] while it awaits: the messages left, the first one
    being asked for, and the mapping so far. *)
Inductive creation :=
  | cr_asked (next : AssistNewPrompt) (rest : list AssistNewPrompt) (mapping : Mapping)
  | cr_done (mapping : Mapping)
  | cr_failed (error : accept_error) (mapping : Mapping).

Definition cr_mapping (c : creation) : Mapping :=
  match c with cr_asked _ _ m | cr_done m | cr_failed _ m => m end.

Definition ask_next (todo : list AssistNewPrompt) (mapping : Mapping) : creation :=
  match todo with
  | [] => cr_done mapping
  | np :: rest => cr_asked np rest mapping
  end.

(** The answer of [create]. *)
Definition create_answer (c : creation) (answer : Z + thrown) : creation :=
  match c with
  | cr_asked np rest mapping =>
      match answer with
      | inl id => ask_next rest (om_set (np_placeholder np) id mapping)
      | inr err => cr_failed (prompt_failed np err) mapping
      end
  | _ => c
  end.

Definition start_creation (p : AssistProposal) (mapping : Mapping) : creation :=
  match promptsToCreate p mapping with
  | Some todo => ask_next todo mapping
  | None => cr_failed null_read mapping
  end.

(** A run of it, given the answers that came. *)
Definition createMissingPrompts (p : AssistProposal) (mapping : Mapping) (answers : list (Z + thrown)) : creation :=
  fold_left create_answer answers (start_creation p mapping).

(** ** Substitution *)

Definition mapping_get (mapping : Mapping) (n : num) : option Z :=
  z ← Z_of_num n; om_get z mapping.

Definition swap (mapping : Mapping) (id : value) : accept_error + value :=
  match id with
  | VNum n =>
      if from_zero n then inr id
      else match mapping_get mapping n with
           | Some real => inr (vint real)
           | None => inl (missing_message n)
           end
  | _ => inr id
  end.

(** [l.map(f)] with an [f] that may throw. *)
Fixpoint try_map {A B} (f : A → accept_error + B) (l : list A) : accept_error + list B :=
  match l with
  | [] => inr []
  | x :: l =>
      match f x with
      | inl e => inl e
      | inr y => match try_map f l with inl e => inl e | inr l => inr (y :: l) end
      end
  end.

Definition swap_key (mapping : Mapping) (config : obj) (next : accept_error + obj) (key : string) : accept_error + obj :=
  match next with
  | inl e => inl e
  | inr next =>
      match get key config with
      | VArr l => match try_map (swap mapping) l with
                  | inl e => inl e
                  | inr l => inr (om_set key (VArr l) next)
                  end
      | _ => inr next
      end
  end.

Definition has_prompts (config : obj) : bool :=
  existsb (λ k, match get k config with VArr _ => true | _ => false end) PROMPT_KEYS.

Definition swap_config (mapping : Mapping) (config : obj) : accept_error + obj :=
  fold_left (swap_key mapping config) PROMPT_KEYS (inr (spread [] config)).

(** [{ ...node, data: { ...node.data, config } }] *)
Definition with_config (node : value) (config : obj) : value :=
  let o := record_or_empty node in
  VObj (om_set "data" (VObj (om_set "config" (VObj config) (spread [] (record_or_empty (get "data" o))))) (spread [] o)).

Definition swap_node (mapping : Mapping) (node : value) : accept_error + value :=
  match configOf node with
  | None => inl null_read
  | Some None => inr node
  | Some (Some config) =>
      if has_prompts config then
        match swap_config mapping config with
        | inl e => inl e
        | inr next => inr (with_config node next)
        end
      else inr node
  end.

Definition substitutePlaceholders (graph : obj) (mapping : Mapping) : accept_error + obj :=
  match graph_nodes graph with
  | None => inl null_read
  | Some nodes =>
      match try_map (swap_node mapping) nodes with
      | inl e => inl e
      | inr nodes => inr (om_set "nodes" (VArr nodes) (spread [] graph))
      end
  end.

Definition proposalPromptName (newPrompts : list AssistNewPrompt) (existing : num → option string) (id : num)
    : option string :=
  if below_zero id then
    Some (default "a new message"
      (z ← Z_of_num id; om_get z (om_of_list (List.map (λ p, (np_placeholder p, np_name p)) newPrompts))))
  else existing id.

(** ** Layout *)

Definition move_node (pos : list (string * (Z * Z))) (n : value) : accept_error + value :=
  match n with
  | VUndef | VNull => inl null_read
  | VObj o =>
      match get "id" o with
      | VStr id =>
          match om_get id pos with
          | Some p => inr (VObj (om_set "position" (VObj [("x", vint p.1); ("y", vint p.2)]) (spread [] o)))
          | None => inr n
          end
      | _ => inr n
      end
  | _ => inr n
  end.

Section layout.
Context `{IdSupply}.

Definition withTidyPositions (k : nat) (graph : obj) : (accept_error + obj) * nat :=
  let '(work, k') := fromGraph k (VObj graph) in
  let pos := default [] (tidyLayout (wg_nodes work) (work_edges work)) in
  (match graph_nodes graph with
   | None => inl null_read
   | Some nodes =>
       match try_map (move_node pos) nodes with
       | inl e => inl e
       | inr nodes => inr (om_set "nodes" (VArr nodes) (spread [] graph))
       end
   end, k').

Definition acceptedGraph (k : nat) (proposalGraph : obj) (mapping : Mapping) : (accept_error + obj) * nat :=
  match substitutePlaceholders proposalGraph mapping with
  | inl e => (inl e, k)
  | inr g =>
      let '(r, k) := withTidyPositions k g in
      (match r with inl e => inl e | inr out => inr (om_del "viewport" (spread [] out)) end, k)
  end.
End layout.

(** ** What changed *)

Inductive ProposalMark := m_new | m_changed.

Record ProposalChanges := {
  pc_marks : list (string * ProposalMark);
  pc_added : nat;
  pc_changed : nat;
  pc_removed : nat;
}.

Definition key_le (a b : string * value) : bool :=
  match String.compare a.1 b.1 with Gt => false | _ => true end.

(** [stable]: texts are compared, so the model is the normal form of what is
    written, keys in order, [undefined] and what JSON cannot hold as null.
    The order only has to be the same on both sides. *)
Fixpoint stable (v : value) : value :=
  match v with
  | VUndef => VNull
  | VNum n => norm_num n
  | VArr l => VArr (List.map stable l)
  | VObj o => VObj (sort_by key_le (List.map (λ kv, (kv.1, stable kv.2)) o))
  | _ => v
  end.

Definition out_text (e : WorkEdge) : string := we_sourceHandle e +:+ ">" +:+ we_target e.

Definition signature (node : WorkNode) (edges : list WorkEdge) : value :=
  let outs := sort_strings (List.map out_text (List.filter (λ e, we_source e ==? wn_id node) edges)) in
  stable (VArr [VStr (type_name (wn_type node)); VStr (default "" (bd_label (wn_data node)));
                VObj (bd_config (wn_data node)); varr VStr outs]).

(** One turn of the loop over the proposal's blocks. *)
Definition mark_node (old : list (string * value)) (edges : list WorkEdge) (c : ProposalChanges) (n : WorkNode)
    : ProposalChanges :=
  if is_entry n then c
  else match om_get (wn_id n) old with
       | None => Build_ProposalChanges (om_set (wn_id n) m_new (pc_marks c)) (S (pc_added c)) (pc_changed c) (pc_removed c)
       | Some was =>
           if was ==? signature n edges then c
           else Build_ProposalChanges (om_set (wn_id n) m_changed (pc_marks c)) (pc_added c) (S (pc_changed c)) (pc_removed c)
       end.

Definition proposalChanges `{IdSupply} (k : nat) (draft proposal : value) : ProposalChanges * nat :=
  let '(before, k) := fromGraph k draft in
  let '(after, k) := fromGraph k proposal in
  let old := om_of_list (List.map (λ n, (wn_id n, signature n (wg_edges before))) (wg_nodes before)) in
  let kept := List.map wn_id (wg_nodes after) in
  let removed := length (List.filter (λ n, negb (is_entry n) && negb (includes kept (wn_id n))) (wg_nodes before)) in
  let c := fold_left (mark_node old (wg_edges after)) (wg_nodes after) (Build_ProposalChanges [] 0 0 0) in
  (Build_ProposalChanges (pc_marks c) (pc_added c) (pc_changed c) removed, k).
