(* ===== verification/AssistOk.v ===== *)
(** * The Flow assistant's logic: what it promises ([flow/assist/model.ts])

    What an untrusted job body can become, that a retried Accept makes every
    new message once, and that an accepted graph is the proposal with real
    messages in it. *)
From Stdlib Require Import QArith.
From S2P Require Import Prelude JsString JsValue Blocks Graph Layout IvrError FlowState Store Assist.

Local Close Scope Q_scope.
Local Open Scope string_scope.
Local Open Scope Z_scope.
Local Open Scope list_scope.

(** ** Parsing *)

Record prompt_ok (np : AssistNewPrompt) : Prop := {
  po_negative : np_placeholder np < 0;
  po_named : trim (np_name np) ≠ "";
  po_spoken : trim (np_text np) ≠ "";
}.

Record proposal_ok (p : AssistProposal) : Prop := {
  pr_nodes : ∃ l, get "nodes" (ap_graph p) = VArr l;
  pr_edges : ∃ l, get "edges" (ap_graph p) = VArr l;
  pr_distinct : NoDup (List.map np_placeholder (ap_new_prompts p));
  pr_prompts : ∀ np, np ∈ ap_new_prompts p → prompt_ok np;
  pr_assumptions : ∀ a, a ∈ ap_assumptions p → trim a ≠ "";
  pr_issues : ∀ i, i ∈ ap_issues p ++ ap_warnings p → is_message i ≠ "";
}.

Definition result_ok (r : AssistResult) : Prop :=
  match r with
  | ar_proposal p => proposal_ok p
  | ar_clarify question => trim question ≠ ""
  | ar_cannot_build message => trim message ≠ ""
  end.

(** What the panel handles: a job still running, a result it can show, or a
    failure with a code. *)
Definition job_ok (j : AssistJob) : Prop :=
  match aj_state j with
  | js_running => True
  | js_done r => result_ok r
  | js_failed code _ => code ≠ ""
  end.

Lemma read_prompt_ok seen p np : read_prompt seen p = Some np → prompt_ok np ∧ np_placeholder np ∉ seen.
Proof.
  unfold read_prompt. intros E. repeat case_match; try done.
  all: injection E as <-; bool_hyps; split; [|by apply includes_false]; split; simpl; [lia| |done].
  all: first [done | by rewrite trim_idemp].
Qed.

Lemma newPrompts_ok v :
  NoDup (List.map np_placeholder (newPrompts v)) ∧ ∀ np, np ∈ newPrompts v → prompt_ok np.
Proof.
  unfold newPrompts. set (P := λ l, NoDup (List.map np_placeholder l) ∧ ∀ np, np ∈ l → prompt_ok np).
  assert (∀ l out, P out → P (fold_left prompt_step l out)) as Hf.
  { induction l as [|p l IH]; intros out Hout; [done|]. apply IH. unfold prompt_step.
    destruct (read_prompt _ p) as [np|] eqn:E; [|done]. apply read_prompt_ok in E as [Hnp Hfresh].
    destruct Hout as [Hd Hok]. split; [|set_solver].
    rewrite List.map_app. apply NoDup_app. repeat split; [done| |apply NoDup_singleton]. set_solver. }
  apply Hf. split; [constructor|]. by intros np ?%not_elem_of_nil.
Qed.

Lemma issues_ok v i : i ∈ issues v → is_message i ≠ "".
Proof. intros [_ E]%elem_of_lfilter. by bool_hyps. Qed.

Lemma full_strs_ok v s : s ∈ full_strs v → trim s ≠ "".
Proof. intros [_ E]%elem_of_lfilter. by bool_hyps. Qed.

Lemma parseAssistResult_ok raw r : parseAssistResult raw = Some r → result_ok r.
Proof.
  unfold parseAssistResult. destruct raw as [| | | | | |raw]; try done. destruct (get "kind" raw) as [| | | |kind| |]; try done.
  case_bool_decide as Ek; [|repeat case_bool_decide; try done; intros [= <-]; done].
  unfold parse_proposal. destruct (get "draft_graph" raw) as [| | | | | |g]; try done.
  destruct (get "nodes" g) eqn:En; try done. destruct (get "edges" g) eqn:Ee; try done. intros [= <-].
  destruct (newPrompts_ok (get "new_prompts" raw)) as [Hd Hok].
  split; simpl; eauto using full_strs_ok. intros i [Hi|Hi]%elem_of_app; by eapply issues_ok.
Qed.

(** C27 Whatever a poll answers, a job that is read as one is still running,
    failed with a code that has a text, or done with a result the panel can
    show: a question or a refusal that is not blank, or a proposal whose
    graph has its two arrays, whose new messages have distinct negative ids,
    names and texts, and whose findings say something. *)
Theorem parseAssistJob_ok raw j : parseAssistJob raw = Some j → job_ok j.
Proof.
  unfold parseAssistJob. destruct raw as [| | | | | |raw]; try done.
  destruct (get "job_id" raw); try done. destruct (get "status" raw) as [| | | |status| |]; try done.
  unfold read_status. repeat case_bool_decide; simpl; try done; intros [= <-]; unfold job_ok; simpl; try done.
  destruct (parseAssistResult _) eqn:E; [by apply parseAssistResult_ok in E|done].
Qed.

(** ** Numbers *)

Lemma num_same_spec z n : num_same (num_of_Z z) n = true ↔ Z_of_num n = Some z.
Proof.
  unfold num_same, num_of_Z. destruct n as [q| |[]]; simpl; try done; [|by rewrite ?andb_false_r..].
  unfold Q_is_int. destruct q as [a b]. rewrite andb_true_iff, !Qle_bool_iff. unfold Qle, inject_Z. simpl.
  rewrite !Z.mul_1_r. split.
  - intros [? ?]. assert (a = z * Zpos b) as -> by lia.
    rewrite Z_mod_mult. simpl. by rewrite Z_div_mult.
  - destruct (a mod Zpos b =? 0) eqn:E; [|done]. intros [= <-]. bool_hyps.
    pose proof (Z_div_exact_full_2 a (Zpos b) ltac:(lia) ltac:(done)). lia.
Qed.

Lemma num_same_refl n : below_zero n = true → num_same n n = true.
Proof.
  unfold below_zero, num_same. destruct n as [q| |[]]; simpl; try done. intros _.
  by rewrite andb_diag, Qle_bool_iff; apply Qle_refl.
Qed.

(** ** Creating the messages *)

Definition made_entry (x : AssistNewPrompt * Z) : Z * Z := (np_placeholder x.1, x.2).

Lemma creation_done answers c : (∀ np rest m, c ≠ cr_asked np rest m) → fold_left create_answer answers c = c.
Proof.
  revert c. induction answers as [|a answers IH]; intros c Hc; [done|]. simpl.
  assert (create_answer c a = c) as -> by (destruct c; [by edestruct Hc|done..]). by apply IH.
Qed.

Lemma om_get_app {K V} `{EqDecision K} (k : K) (m m' : list (K * V)) :
  om_get k (m ++ m') = match om_get k m with Some v => Some v | None => om_get k m' end.
Proof. induction m as [|[k' v'] m IH]; simpl; [done|]. by case_bool_decide. Qed.

Lemma lfilter_filter {A} (f g : A → bool) (l : list A) :
  List.filter f (List.filter g l) = List.filter (λ x, g x && f x) l.
Proof.
  induction l as [|x l IH]; simpl; [done|]. destruct (g x); simpl; [|done]. by destruct (f x); rewrite IH.
Qed.

(** What a run left unmade, read off where it stands. *)
Definition stands (c : creation) (rest : list AssistNewPrompt) : Prop :=
  match c with
  | cr_asked np l _ => rest = np :: l
  | cr_done _ => rest = []
  | cr_failed (prompt_failed np err) _ => ∃ l, rest = np :: l
  | cr_failed _ _ => False
  end.

Lemma run_creation answers todo m :
  NoDup (List.map np_placeholder todo) → (∀ np, np ∈ todo → np_placeholder np ∉ om_keys m) →
  let c := fold_left create_answer answers (ask_next todo m) in
  ∃ made rest, todo = List.map fst made ++ rest ∧ cr_mapping c = m ++ List.map made_entry made
    ∧ List.map (λ x, inl x.2) made `prefix_of` answers ∧ stands c rest.
Proof.
  revert todo m. induction answers as [|a answers IH]; intros todo m Hd Hm; simpl.
  { exists [], todo. destruct todo; simpl; rewrite ?app_nil_r; by split_and!. }
  destruct todo as [|np todo]; simpl.
  { rewrite creation_done by done. exists [], []. simpl. rewrite app_nil_r. split_and!; try done. apply prefix_nil. }
  apply NoDup_cons in Hd as [Hnp Hd]. destruct a as [id|err].
  - assert (np_placeholder np ∉ om_keys m) as Hfresh by (apply Hm; left).
    rewrite om_set_new by done. destruct (IH todo (m ++ [(np_placeholder np, id)])) as (made & rest & -> & Em & Hp & Hs).
    + done.
    + intros np' Hnp'. rewrite om_keys_app. simpl.
      assert (np_placeholder np' ≠ np_placeholder np) by (intros E; apply Hnp; rewrite <- E; apply elem_of_lmap; eauto).
      assert (np_placeholder np' ∉ om_keys m) by (apply Hm; by right). set_solver.
    + exists ((np, id) :: made), rest. simpl. rewrite Em, <- app_assoc. split_and!; try done. by apply prefix_cons.
  - rewrite creation_done by done. exists [], (np :: todo). simpl. rewrite app_nil_r.
    split_and!; try done; [apply prefix_nil|eauto].
Qed.

(** C15 Accept creates every new message once.  A run asks for the messages
    that have no real id yet, in the proposal's order, and records each id
    as soon as it is there; wherever it stops (an answer outstanding, a
    failure, the end) what is recorded is exactly what was made, and a run
    started again from that record asks for exactly the rest. *)
Theorem createMissingPrompts_resumes p m answers todo :
  NoDup (List.map np_placeholder (ap_new_prompts p)) → promptsToCreate p m = Some todo →
  let c := createMissingPrompts p m answers in
  ∃ made rest, todo = List.map fst made ++ rest
    ∧ cr_mapping c = m ++ List.map made_entry made
    ∧ List.map (λ x, inl x.2) made `prefix_of` answers
    ∧ promptsToCreate p (cr_mapping c) = Some rest
    ∧ stands c rest.
Proof.
  intros Hd Ht. unfold createMissingPrompts, start_creation. rewrite Ht.
  unfold promptsToCreate in *. destruct (usedNewPrompts p) as [used|] eqn:Eu; [|done]. injection Ht as <-. simpl.
  assert (NoDup (List.map np_placeholder used)) as Hu.
  { unfold usedNewPrompts in Eu. destruct (placeholderIds _); [|done]. injection Eu as <-. by apply NoDup_map_lfilter. }
  set (todo := List.filter _ used).
  assert (NoDup (List.map np_placeholder todo)) as Htd by by apply NoDup_map_lfilter.
  destruct (run_creation answers todo m) as (made & rest & Et & Em & Hp & Hs); [done| |].
  { intros np [_ E]%elem_of_lfilter. bool_hyps. by apply om_has_false. }
  exists made, rest. split_and!; try done. rewrite Em. f_equal.
  transitivity (List.filter (λ np, negb (om_has (np_placeholder np) (List.map made_entry made))) todo).
  - unfold todo. rewrite lfilter_filter. apply List.filter_ext. intros np.
    unfold om_has. rewrite om_get_app. by destruct (om_get _ m), (om_get _ (List.map _ _)).
  - rewrite Et in Htd |- *. rewrite List.map_app in Htd. apply NoDup_app in Htd as (_ & Hdis & _).
    rewrite List.filter_app, lfilter_none, lfilter_all; [done|..].
    + intros np Hnp. apply negb_true_iff, om_has_false. intros Hin.
      apply (Hdis (np_placeholder np)); [|apply elem_of_lmap; eauto].
      unfold om_keys in Hin. rewrite List.map_map in Hin |- *. done.
    + intros np Hnp. apply negb_false_iff, om_has_true. unfold om_keys. rewrite List.map_map.
      apply elem_of_lmap in Hnp as (x & -> & Hx). apply elem_of_lmap. by exists x.
Qed.

(** ** Numbers and mappings *)

Lemma num_same_sym a b : num_same a b = num_same b a.
Proof. apply andb_comm. Qed.

Lemma num_same_trans a b c : num_same a b = true → num_same b c = true → num_same a c = true.
Proof.
  unfold num_same. destruct a as [p| |[]], b as [q| |[]], c as [r| |[]]; simpl; try done.
  rewrite !andb_true_iff, !Qle_bool_iff. intros [??] [??]. split; by eapply Qle_trans.
Qed.

Lemma num_same_Z a b : num_same a b = true → Z_of_num a = Z_of_num b.
Proof.
  intros E. destruct (Z_of_num a) as [z|] eqn:Ea.
  - symmetry. apply num_same_spec. apply num_same_spec in Ea. by eapply num_same_trans.
  - destruct (Z_of_num b) as [z|] eqn:Eb; [|done]. apply num_same_spec in Eb.
    rewrite num_same_sym in E. enough (Z_of_num a = Some z) by congruence. apply num_same_spec. by eapply num_same_trans.
Qed.

Lemma mapping_get_same m a b : num_same a b = true → mapping_get m a = mapping_get m b.
Proof. intros E%num_same_Z. unfold mapping_get. by rewrite E. Qed.

Lemma num_order n : n ≠ NaN → below_zero n = negb (from_zero n).
Proof.
  unfold below_zero, from_zero. intros Hn. destruct n as [[a b]| |[]]; try done. simpl.
  unfold Qle_bool. simpl. rewrite !Z.mul_1_r. destruct (Z.leb_spec a 0), (Z.leb_spec 0 a); simpl; try done; lia.
Qed.

(** ** The placeholders of a graph *)

(** Every prompt id the graph's nodes hold. *)
Definition all_prompts (graph : obj) : option (list value) :=
  nodes ← graph_nodes graph;
  configs ← mapM configOf nodes;
  Some (flat_map (λ c, match c with Some c => config_prompts c | None => [] end) configs).

Lemma placeholders_fold nodes out :
  fold_left node_placeholders nodes (Some out)
  = configs ← mapM configOf nodes;
    Some (fold_left add_placeholder (flat_map (λ c, match c with Some c => config_prompts c | None => [] end) configs) out).
Proof.
  revert out. induction nodes as [|n nodes IH]; intros out; [done|]. simpl.
  destruct (configOf n) as [c|]; simpl.
  - rewrite IH. destruct (mapM configOf nodes) as [cs|]; simpl; [|done]. f_equal.
    rewrite fold_left_app. by destruct c.
  - clear IH. by induction nodes.
Qed.

Lemma placeholderIds_prompts graph :
  placeholderIds graph = (l ← all_prompts graph; Some (fold_left add_placeholder l [])).
Proof.
  unfold placeholderIds, all_prompts. destruct (graph_nodes graph) as [nodes|]; simpl; [|done].
  rewrite placeholders_fold. by destruct (mapM configOf nodes).
Qed.

Lemma fold_placeholders l out n :
  n ∈ fold_left add_placeholder l out → n ∈ out ∨ VNum n ∈ l ∧ below_zero n = true.
Proof.
  revert out. induction l as [|v l IH]; intros out; [by left|]. simpl. intros [Hn|[Hn Hb]]%IH.
  - destruct v as [| | |q| | |]; try (by left). simpl in Hn.
    destruct (below_zero q && negb (existsb (num_same q) out)) eqn:E; [|by left].
    bool_hyps. apply elem_of_app in Hn as [Hn|Hn%list_elem_of_singleton]; [by left|]. subst. right. split; [left|done].
  - right. split; [by right|done].
Qed.

Lemma fold_placeholders_has l out n :
  (∃ n', n' ∈ out ∧ num_same n n' = true) ∨ VNum n ∈ l ∧ below_zero n = true →
  ∃ n', n' ∈ fold_left add_placeholder l out ∧ num_same n n' = true.
Proof.
  revert out. induction l as [|v l IH]; intros out; simpl.
  - intros [?|[?%not_elem_of_nil _]]; done.
  - intros H. apply IH. destruct H as [(n' & Hn' & E)|[[<-|Hn]%elem_of_cons Hb]].
    + left. exists n'. split; [|done]. destruct v; try done. simpl. case_match; [set_solver|done].
    + left. simpl. rewrite Hb. simpl. destruct (existsb (num_same n) out) eqn:E; simpl.
      * apply existsb_elem_of in E as (n' & ? & ?). eauto.
      * exists n. split; [set_solver|by apply num_same_refl].
    + by right.
Qed.

(** Used placeholders, as the values the nodes hold. *)
Lemma placeholderIds_used graph l used :
  all_prompts graph = Some l → placeholderIds graph = Some used →
  (∀ n, n ∈ used → VNum n ∈ l ∧ below_zero n = true)
  ∧ ∀ n, VNum n ∈ l → below_zero n = true → ∃ n', n' ∈ used ∧ num_same n n' = true.
Proof.
  rewrite placeholderIds_prompts. intros El. rewrite El. simpl. intros [= <-]. split.
  - by intros n [Hn%not_elem_of_nil|?]%fold_placeholders.
  - intros n Hn Hb. apply fold_placeholders_has. by right.
Qed.

(** ** Substitution *)

Lemma try_map_inr {A B} (f : A → accept_error + B) l l' : try_map f l = inr l' ↔ Forall2 (λ x y, f x = inr y) l l'.
Proof.
  revert l'. induction l as [|x l IH]; intros l'; simpl.
  - split; [intros [= <-]; constructor|inversion 1; done].
  - split.
    + destruct (f x) eqn:Ex; [done|]. destruct (try_map f l); [done|]. intros [= <-]. constructor; [done|by apply IH].
    + inversion 1 as [|? y ? ly Ey Hl]; subst. rewrite Ey. apply IH in Hl. by rewrite Hl.
Qed.

Lemma try_map_inl {A B} (f : A → accept_error + B) l e : try_map f l = inl e → ∃ x, x ∈ l ∧ f x = inl e.
Proof.
  induction l as [|x l IH]; simpl; [done|]. destruct (f x) eqn:Ex.
  - intros [= <-]. exists x. split; [left|done].
  - destruct (try_map f l); [|done]. intros [= <-]. destruct (IH eq_refl) as (y & ? & ?). exists y. split; [by right|done].
Qed.

Section substitution.
Context (m : Mapping).

(** One prompt list of a config before and after. *)
Definition swapped (v v' : value) : Prop :=
  match v with
  | VArr l => ∃ l', try_map (swap m) l = inr l' ∧ v' = VArr l'
  | _ => v' = v
  end.

Lemma fold_swap_error config ks e : fold_left (swap_key m config) ks (inl e) = inl e.
Proof. by induction ks. Qed.

Lemma fold_swap_inr config ks next c' :
  NoDup ks → (∀ k, k ∈ ks → get k next = get k config) →
  fold_left (swap_key m config) ks (inr next) = inr c' →
  (∀ k, k ∉ ks → get k c' = get k next) ∧ (∀ k, k ∈ ks → swapped (get k config) (get k c')).
Proof.
  revert next. induction ks as [|k ks IH]; intros next Hd Hn; cbn [fold_left].
  { intros [= <-]. split; [done|]. by intros k ?%not_elem_of_nil. }
  apply NoDup_cons in Hd as [Hk Hd].
  destruct (match get k config with VArr l => Some l | _ => None end) as [l|] eqn:El.
  - destruct (get k config) as [| | | | |l0|] eqn:Ek; try done. injection El as ->.
    assert (swap_key m config (inr next) k
            = match try_map (swap m) l with inl e => inl e | inr l => inr (om_set k (VArr l) next) end) as ->
      by (simpl; by rewrite Ek).
    destruct (try_map (swap m) l) as [e|l'] eqn:Et; [by rewrite fold_swap_error|].
    intros E. apply IH in E as [Hout Hin]; [|done|].
    + split; [intros k' Hk'; rewrite Hout by set_solver; apply get_set_ne; set_solver|].
      intros k' [->|Hk']%elem_of_cons; [|by apply Hin].
      rewrite Ek. simpl. exists l'. split; [done|]. rewrite Hout by done. apply get_set_eq.
    + intros k' Hk'. rewrite get_set_ne by set_solver. apply Hn. set_solver.
  - assert (swap_key m config (inr next) k = inr next) as -> by (simpl; destruct (get k config); done).
    intros E. apply IH in E as [Hout Hin]; [|done|set_solver].
    split; [intros k' Hk'; apply Hout; set_solver|].
    intros k' [->|Hk']%elem_of_cons; [|by apply Hin].
    rewrite Hout, Hn by set_solver. by destruct (get k config).
Qed.

Lemma fold_swap_inl config ks next e :
  fold_left (swap_key m config) ks (inr next) = inl e →
  ∃ k l, k ∈ ks ∧ get k config = VArr l ∧ try_map (swap m) l = inl e.
Proof.
  revert next. induction ks as [|k ks IH]; intros next; simpl; [done|].
  destruct (get k config) as [| | | | |l|] eqn:Ek; try (intros (k' & l' & ? & ?)%IH; exists k', l'; split; [by right|done]).
  destruct (try_map (swap m) l) as [e'|l'] eqn:Et.
  - rewrite fold_swap_error. intros [= ->]. exists k, l. split; [left|done].
  - intros (k' & l1 & ? & ?)%IH. exists k', l1. split; [by right|done].
Qed.

(** ** What substitution and tidying keep *)

Definition accepted_config (c c' : obj) : Prop :=
  (∀ k, k ∉ PROMPT_KEYS → get k c' = get k c) ∧ ∀ k, k ∈ PROMPT_KEYS → swapped (get k c) (get k c').

Definition accepted_data (d d' : value) : Prop :=
  match d, config_in d with
  | VObj dd, Some c => ∃ dd' c', d' = VObj dd' ∧ (∀ k, k ≠ "config" → get k dd' = get k dd)
                        ∧ get "config" dd' = VObj c' ∧ accepted_config c c'
  | _, _ => d' = d
  end.

(** A block of the proposal and of the accepted graph. *)
Definition accepted_node (n n' : value) : Prop :=
  match n with
  | VObj o => ∃ o', n' = VObj o' ∧ (∀ k, k ≠ "data" → k ≠ "position" → get k o' = get k o)
                ∧ accepted_data (get "data" o) (get "data" o')
  | _ => n' = n
  end.

Lemma no_prompts_accepted c : has_prompts c = false → accepted_config c c.
Proof.
  intros E. split; [done|]. intros k Hk. assert (∀ l, get k c ≠ VArr l) as Hl.
  { intros l El. apply not_true_iff_false in E. apply E, existsb_elem_of. exists k. by rewrite El. }
  destruct (get k c) as [| | | | |l|]; try done. by destruct (Hl l).
Qed.

Lemma accepted_data_refl d : (∀ c, config_in d = Some c → accepted_config c c) → accepted_data d d.
Proof.
  intros H. unfold accepted_data. destruct d as [| | | | | |dd]; try done.
  destruct (config_in (VObj dd)) as [c|] eqn:E; [|done]. exists dd, c. split_and!; try done; [|by apply H].
  unfold config_in, as_record in E. by destruct (get "config" dd); simplify_eq.
Qed.

Lemma swap_config_accepted c c' : NoDup (om_keys c) → swap_config m c = inr c' → accepted_config c c'.
Proof.
  intros Hd E. apply fold_swap_inr in E as [Hout Hin]; [|by apply (bool_decide_unpack _)|by intros; rewrite spread_nil].
  split; [|done]. intros k Hk. by rewrite Hout, spread_nil.
Qed.

Lemma swap_node_accepted n n' : wf_value n → swap_node m n = inr n' → accepted_node n n'.
Proof.
  intros Hw. unfold swap_node. destruct n as [| | | | | |o]; simpl; try (by intros [= <-]); try done.
  pose proof (wf_keys _ Hw) as Ho. unfold keys_ok in Ho. simpl in Ho.
  destruct (config_in (get "data" o)) as [c|] eqn:Ec.
  2: { intros [= <-]. exists o. split_and!; [done..|]. apply accepted_data_refl. by rewrite Ec. }
  destruct (has_prompts c) eqn:Eh.
  2: { intros [= <-]. exists o. split_and!; [done..|]. apply accepted_data_refl. rewrite Ec. intros ? [= <-].
       by apply no_prompts_accepted. }
  pose proof (wf_get "data" o Hw) as Hd. destruct (get "data" o) as [| | | | | |dd] eqn:Ed; try done. simpl in Ec.
  pose proof (wf_get "config" dd Hd) as Hc. destruct (get "config" dd) as [| | | | | |c0] eqn:Ecc; try done. injection Ec as ->.
  destruct (swap_config m c) as [e|c'] eqn:Es; [done|]. intros [= <-]. unfold with_config. simpl. rewrite Ed. simpl.
  apply wf_keys in Hd, Hc. unfold keys_ok in Hd, Hc. simpl in Hd, Hc.
  eexists. split; [done|]. split.
  { intros k Hk _. by rewrite get_set_ne, spread_nil. }
  rewrite get_set_eq. unfold accepted_data. simpl. rewrite Ecc. simpl.
  eexists _, c'. split; [done|]. split; [intros k Hk; by rewrite get_set_ne, spread_nil|].
  split; [apply get_set_eq|by apply swap_config_accepted].
Qed.

Lemma swap_node_keys n n' : wf_value n → swap_node m n = inr n' → keys_ok n'.
Proof.
  intros Hw%wf_keys. unfold swap_node. destruct (configOf n) as [[c|]|]; [|by intros [= <-]|done].
  destruct (has_prompts c); [|by intros [= <-]]. destruct (swap_config m c); [done|]. intros [= <-].
  unfold keys_ok. simpl. apply om_set_NoDup. rewrite spread_nil; done.
Qed.

Lemma move_node_accepted pos n n1 n' : keys_ok n1 → accepted_node n n1 → move_node pos n1 = inr n' → accepted_node n n'.
Proof.
  intros Hw Ha. unfold move_node.
  destruct n1 as [| | | | | |o1]; try done; try (by intros [= <-]).
  destruct (get "id" o1) as [| | | |id| |]; try (by intros [= <-]). destruct (om_get id pos) as [p|]; [|by intros [= <-]].
  intros [= <-]. destruct n as [| | | | | |o]; try done. destruct Ha as (o' & [= <-] & Hk & Hd).
  unfold keys_ok in Hw. simpl in Hw. rewrite spread_nil by done.
  eexists. split; [done|]. split; [intros k ??; rewrite get_set_ne by done; by apply Hk|]. by rewrite get_set_ne by done.
Qed.

Lemma accepted_configOf n n' :
  accepted_node n n' →
  match configOf n, configOf n' with
  | Some (Some c), Some (Some c') => accepted_config c c'
  | Some None, Some None | None, None => True
  | _, _ => False
  end.
Proof.
  destruct n as [| | | | | |o]; try (by intros ->). intros (o' & -> & _ & Hd). simpl. unfold accepted_data in Hd.
  destruct (get "data" o) as [| | | | | |dd]; try (rewrite Hd; done). simpl.
  destruct (get "config" dd) as [| | | | | |c] eqn:Ec; simpl in *; rewrite ?Ec in Hd; try (rewrite Hd; simpl; by rewrite Ec).
  destruct Hd as (dd' & c' & -> & _ & Ec' & Hc). simpl. by rewrite Ec'.
Qed.

Lemma config_prompts_in c v : v ∈ config_prompts c ↔ ∃ k l, k ∈ PROMPT_KEYS ∧ get k c = VArr l ∧ v ∈ l.
Proof.
  unfold config_prompts. rewrite list_elem_of_In, in_flat_map. split.
  - intros (k & Hk%list_elem_of_In & Hv%list_elem_of_In). destruct (get k c) eqn:E; try by apply not_elem_of_nil in Hv. eauto.
  - intros (k & l & Hk & E & Hv). exists k. rewrite <- !list_elem_of_In, E. done.
Qed.

Lemma accepted_prompts_to c c' v' :
  accepted_config c c' → v' ∈ config_prompts c' → ∃ v, v ∈ config_prompts c ∧ swap m v = inr v'.
Proof.
  intros [_ Hin] (k & l' & Hk & E & Hv)%config_prompts_in. specialize (Hin k Hk). rewrite E in Hin.
  unfold swapped in Hin. destruct (get k c) as [| | | | |l|] eqn:Ek; try done.
  destruct Hin as (l1 & Hl%try_map_inr & [= <-]).
  apply list_elem_of_lookup in Hv as [i Hi]. destruct (Forall2_lookup_r _ _ _ _ _ Hl Hi) as (v & Hv & Es).
  exists v. split; [|done]. apply config_prompts_in. exists k, l. split_and!; try done. by eapply list_elem_of_lookup_2.
Qed.

Lemma accepted_prompts_from c c' v :
  accepted_config c c' → v ∈ config_prompts c → ∃ v', swap m v = inr v'.
Proof.
  intros [_ Hin] (k & l & Hk & E & Hv)%config_prompts_in. specialize (Hin k Hk). unfold swapped in Hin. rewrite E in Hin.
  destruct Hin as (l' & Hl%try_map_inr & _). apply list_elem_of_lookup in Hv as [i Hi].
  destruct (Forall2_lookup_l _ _ _ _ _ Hl Hi) as (v' & _ & Es). eauto.
Qed.
End substitution.

(** ** The flow a graph draws *)

(** What connections and callers see of a block beside its config. *)
Definition node_shape (n : WorkNode) : string * IvrNodeType * option string := (wn_id n, wn_type n, bd_label (wn_data n)).

Lemma accepted_label m o o' :
  accepted_data m (get "data" o) (get "data" o') →
  get "label" (record_or_empty (get "data" o')) = get "label" (record_or_empty (get "data" o)).
Proof.
  unfold accepted_data. destruct (get "data" o) as [| | | | | |dd]; try (by intros ->).
  destruct (config_in (VObj dd)); [|by intros ->]. intros (dd' & c' & -> & Hk & _). simpl. by apply Hk.
Qed.

Definition same_reading (a a' : node_acc) : Prop :=
  List.map node_shape (na_nodes a) = List.map node_shape (na_nodes a') ∧ na_seen a = na_seen a'.

Lemma read_node_same m a a' v v' :
  accepted_node m v v' → same_reading a a' → same_reading (read_node a v) (read_node a' v').
Proof.
  unfold accepted_node. destruct v as [| | | | | |o]; try (intros ->; done). intros (o' & -> & Hk & Hd) [Hn Hs].
  simpl. rewrite (Hk "id"), (Hk "type"), Hs by done.
  destruct (str_or_empty (get "id" o) ==? ""); simpl; [done|].
  destruct (includes (na_seen a') _); simpl; [done|].
  destruct (isIvrNodeType (get "type" o)); split; simpl; try done; [|by rewrite Hs..].
  rewrite !List.map_app, Hn. unfold node_shape at 2 4. simpl. by rewrite (accepted_label m o o').
Qed.

Lemma mark_entry_same l l' :
  List.map node_shape l = List.map node_shape l' →
  match mark_entry l, mark_entry l' with
  | Some r, Some r' => List.map node_shape r = List.map node_shape r'
  | None, None => True
  | _, _ => False
  end.
Proof.
  revert l'. induction l as [|n l IH]; intros [|n' l']; simpl; try done. intros [= Ei Et El E].
  unfold is_entry. rewrite Et. case_bool_decide.
  - simpl. unfold node_shape in *. simpl. by rewrite Ei, Et, El, E.
  - specialize (IH _ E). destruct (mark_entry l), (mark_entry l'); try done. simpl. unfold node_shape in *.
    by rewrite Ei, Et, El, IH.
Qed.

Lemma node_types_same l l' :
  List.map node_shape l = List.map node_shape l' → node_types l = node_types l'.
Proof.
  intros E. unfold node_types. f_equal.
  assert (∀ l, List.map (λ n, (wn_id n, wn_type n)) l = List.map fst (List.map node_shape l)) as Hs.
  { intros l0. by rewrite List.map_map. }
  by rewrite !Hs, E.
Qed.

(** Substituted and tidied, a graph draws the same blocks and connections. *)
Lemma accepted_same_flow `{IdSupply} m k g g' nodes nodes' :
  get "nodes" g = VArr nodes → get "nodes" g' = VArr nodes' → get "edges" g' = get "edges" g →
  Forall2 (accepted_node m) nodes nodes' →
  List.map node_shape (wg_nodes (fromGraph k (VObj g')).1) = List.map node_shape (wg_nodes (fromGraph k (VObj g)).1)
  ∧ wg_edges (fromGraph k (VObj g')).1 = wg_edges (fromGraph k (VObj g)).1.
Proof.
  intros En En' Ee Hn. unfold fromGraph. simpl. rewrite En, En', Ee. simpl.
  assert (same_reading (fold_left read_node nodes (Build_node_acc [] [] [])) (fold_left read_node nodes' (Build_node_acc [] [] []))) as [Hs _].
  { clear En En'. assert (same_reading (Build_node_acc [] [] []) (Build_node_acc [] [] [])) as H0 by done.
    revert H0. generalize (Build_node_acc [] [] []) at 1 3. generalize (Build_node_acc [] [] []).
    induction Hn as [|n n' l l' Ha Hl IH]; intros a a' Haa; [done|]. simpl. apply IH. by eapply read_node_same. }
  generalize dependent (na_nodes (fold_left read_node nodes (Build_node_acc [] [] []))).
  generalize dependent (na_nodes (fold_left read_node nodes' (Build_node_acc [] [] []))). intros l' l E.
  unfold ensure_entry. pose proof (mark_entry_same _ _ E) as Hm.
  destruct (mark_entry l) as [r|], (mark_entry l') as [r'|]; try done; simpl.
  - by rewrite (node_types_same r r').
  - rewrite E. split; [done|]. by rewrite (node_types_same (fresh_entry (newNodeId k) :: l) (fresh_entry (newNodeId k) :: l')) by (simpl; by rewrite E).
Qed.

(** ** Accepting *)

Section accepting.
Context `{IdSupply} (m : Mapping).

Lemma configs_accepted nodes nodes' cs :
  Forall2 (accepted_node m) nodes nodes' → mapM configOf nodes = Some cs →
  ∃ cs', mapM configOf nodes' = Some cs'
    ∧ Forall2 (λ a b, match a, b with Some c, Some c' => accepted_config m c c' | None, None => True | _, _ => False end) cs cs'.
Proof.
  intros Hn. revert cs. induction Hn as [|n n' l l' Ha Hl IH]; intros cs; simpl.
  { intros [= <-]. eauto. }
  apply accepted_configOf in Ha. destruct (configOf n) as [c|]; [|done]. simpl.
  destruct (mapM configOf l) as [cs0|]; [|done]. intros [= <-]. destruct (IH _ eq_refl) as (cs' & E & Hc).
  destruct (configOf n') as [c'|]; [|by destruct c]. simpl. rewrite E. eexists. split; [done|]. constructor; [|done].
  by destruct c, c'.
Qed.

Lemma accepted_all g g' nodes nodes' l :
  get "nodes" g = VArr nodes → get "nodes" g' = VArr nodes' → Forall2 (accepted_node m) nodes nodes' →
  all_prompts g = Some l →
  ∃ l', all_prompts g' = Some l' ∧ (∀ v', v' ∈ l' → ∃ v, v ∈ l ∧ swap m v = inr v') ∧ (∀ v, v ∈ l → ∃ v', swap m v = inr v').
Proof.
  intros En En' Hn. unfold all_prompts, graph_nodes. rewrite En, En'. simpl.
  destruct (mapM configOf nodes) as [cs|] eqn:E; [|done]. intros [= <-].
  destruct (configs_accepted _ _ _ Hn E) as (cs' & E' & Hc). rewrite E'. simpl. eexists. split; [done|]. clear - Hc.
  induction Hc as [|c c' cs cs' Hcc Hcs [IHto IHfrom]]; [by split; intros v ?%not_elem_of_nil|].
  simpl. split; intros v [Hv|Hv]%elem_of_app.
  - destruct c, c'; try done; [|by apply not_elem_of_nil in Hv].
    destruct (accepted_prompts_to _ _ _ _ Hcc Hv) as (v0 & ? & ?). exists v0. set_solver.
  - destruct (IHto v Hv) as (v0 & ? & ?). exists v0. set_solver.
  - destruct c, c'; try done; [|by apply not_elem_of_nil in Hv]. by eapply accepted_prompts_from.
  - auto.
Qed.

(** No prompt id of the graph is missing. *)
Definition mapped (used : list num) : Prop := ∀ n, n ∈ used → mapping_get m n ≠ None.

Lemma substitute_inl g used l e :
  all_prompts g = Some l → VNum NaN ∉ l → placeholderIds g = Some used → substitutePlaceholders g m = inl e →
  ∃ n n', n' ∈ used ∧ num_same n n' = true ∧ mapping_get m n' = None ∧ e = missing_message n.
Proof.
  intros El Hnan Eu. destruct (placeholderIds_used g l used El Eu) as [_ Hused].
  unfold substitutePlaceholders. unfold all_prompts in El. destruct (graph_nodes g) as [nodes|]; [|done]. simpl in El.
  destruct (mapM configOf nodes) as [cs|] eqn:Ec; [|done]. injection El as El.
  destruct (try_map (swap_node m) nodes) as [e'|] eqn:Et; [|done]. intros [= ->].
  apply try_map_inl in Et as (n & Hn & En). unfold swap_node in En.
  assert (∃ c, configOf n = Some c ∧ c ∈ cs) as (c & Ecn & Hc).
  { apply mapM_Some in Ec. apply list_elem_of_lookup in Hn as [i Hi].
    destruct (Forall2_lookup_l _ _ _ _ _ Ec Hi) as (c & Hc & E). exists c. split; [done|by eapply list_elem_of_lookup_2]. }
  rewrite Ecn in En. destruct c as [c|]; [|done]. destruct (has_prompts c); [|done].
  destruct (swap_config m c) as [e'|] eqn:Es; [|done]. injection En as ->.
  apply fold_swap_inl in Es as (k & ids & Hk & Ek & (v & Hv & Ev)%try_map_inl).
  assert (v ∈ l) as Hvl.
  { rewrite <- El. apply list_elem_of_In, in_flat_map. exists (Some c). rewrite <- !list_elem_of_In.
    split; [done|]. apply config_prompts_in. eauto. }
  unfold swap in Ev. destruct v as [| | |n0| | |]; try done. destruct (from_zero n0) eqn:Ez; [done|].
  destruct (mapping_get m n0) eqn:Em; [done|]. injection Ev as <-.
  destruct (Hused n0 Hvl) as (n' & Hn' & Hsame). { rewrite num_order, Ez; [done|]. by intros ->. }
  exists n0, n'. split_and!; try done. by rewrite <- (mapping_get_same m n0 n').
Qed.

Lemma swap_from_zero v v' :
  (∀ x, x ∈ m → 0 ≤ x.2) → VNum NaN ≠ v → swap m v = inr v' → ∀ n, v' = VNum n → below_zero n = false.
Proof.
  intros Hm Hv E n ->. unfold swap in E. destruct v as [| | |n0| | |]; try done.
  destruct (from_zero n0) eqn:Ez.
  - injection E as <-. rewrite num_order, Ez; [done|]. by intros ->.
  - unfold mapping_get in E. destruct (Z_of_num n0) as [z|]; [|done]. simpl in E.
    destruct (om_get z m) as [real|] eqn:Er; [|done]. injection E as <-.
    apply om_get_Some_elem, Hm in Er. simpl in Er. unfold below_zero, num_of_Z. simpl.
    apply andb_false_iff. right. apply negb_false_iff. apply Qle_bool_iff. unfold Qle. simpl. lia.
Qed.

Lemma no_placeholder_left l : (∀ n, VNum n ∈ l → below_zero n = false) → fold_left add_placeholder l [] = [].
Proof.
  intros Hl. induction l as [|v l IH]; [done|]. simpl.
  assert (add_placeholder [] v = []) as -> by (destruct v as [| | |n| | |]; try done; simpl; rewrite Hl by left; done).
  apply IH. intros n Hn. apply Hl. by right.
Qed.

Lemma get_del_ne k k' o : k ≠ k' → get k' (om_del k o) = get k' o.
Proof. intros Hk. unfold get. by rewrite om_get_del_ne. Qed.

Lemma get_del_eq k o : get k (om_del k o) = VUndef.
Proof. unfold get. by rewrite om_get_del_eq. Qed.

(** Tidying never fails on what substitution gave, and keeps it. *)
Lemma tidy_accepted k g g1 :
  wf_value (VObj g) → substitutePlaceholders g m = inr g1 →
  ∃ nodes nodes' g' k', get "nodes" g = VArr nodes ∧ withTidyPositions k g1 = (inr g', k')
    ∧ g' = om_set "nodes" (VArr nodes') g1 ∧ NoDup (om_keys g1)
    ∧ Forall2 (accepted_node m) nodes nodes'
    ∧ (∀ key, key ≠ "nodes" → get key g1 = get key g).
Proof.
  intros Hw. unfold substitutePlaceholders, graph_nodes.
  destruct (get "nodes" g) as [| | | | |nodes|] eqn:En; simpl; try done.
  destruct (try_map (swap_node m) nodes) as [e|nodes1] eqn:Es; [done|]. intros [= <-].
  pose proof (wf_keys _ Hw) as Hd. unfold keys_ok in Hd. simpl in Hd. rewrite spread_nil by done.
  pose proof (wf_get "nodes" g Hw) as Hwn. rewrite En in Hwn.
  apply try_map_inr in Es. unfold withTidyPositions, graph_nodes. rewrite get_set_eq. simpl.
  destruct (fromGraph k _) as [work k']. set (pos := default [] _). clearbody pos.
  assert (NoDup (om_keys (om_set "nodes" (VArr nodes1) g))) as Hd1 by by apply om_set_NoDup.
  destruct (try_map (move_node pos) nodes1) as [e|nodes'] eqn:Em.
  { exfalso. apply try_map_inl in Em as (n1 & Hn1 & E). apply list_elem_of_lookup in Hn1 as [i Hi].
    destruct (Forall2_lookup_r _ _ _ _ _ Es Hi) as (n & Hn & Esn).
    apply list_elem_of_lookup_2 in Hn. pose proof (wf_elem n nodes Hwn Hn) as Hwe.
    apply (swap_node_accepted m n n1 Hwe) in Esn as Ha.
    destruct n1 as [| | | | | |o1]; try done; try (by destruct n; try done; destruct Ha as (? & ? & _)).
    simpl in E. destruct (get "id" o1); try done. by destruct (om_get _ pos). }
  apply try_map_inr in Em.
  exists nodes, nodes', (om_set "nodes" (VArr nodes') (om_set "nodes" (VArr nodes1) g)), k'.
  rewrite spread_nil by done. split_and!; try done; [|intros key Hk; by apply get_set_ne].
  clear - Es Em Hwn. revert nodes' Em.
  induction Es as [|n n1 l l1 Ea Hl IH]; intros nodes' Em; inversion Em as [|? n' ? l' Ec Hl']; subst; [constructor|].
  assert (wf_value n) as Hwe by (apply (wf_elem _ _ Hwn); left). constructor.
  - eapply move_node_accepted; [by eapply swap_node_keys|by apply swap_node_accepted|done].
  - apply IH; [|done]. inversion Hwn as [v Hv|l0 Hl0|]; subst; [done|]. apply wf_arr. intros v Hv. apply Hl0. by right.
Qed.

(** Accepting a proposal either succeeds with the proposal itself, its
    placeholders replaced: same blocks, same names, same connections, every
    config but for its prompt lists, every other key of the graph but the
    viewport, and no placeholder left; or it fails on a placeholder no
    message was made for, and then only. *)
Theorem acceptedGraph_spec k g l used :
  wf_value (VObj g) → all_prompts g = Some l → VNum NaN ∉ l → placeholderIds g = Some used →
  match (acceptedGraph k g m).1 with
  | inl e => ∃ n n', n' ∈ used ∧ num_same n n' = true ∧ mapping_get m n' = None ∧ e = missing_message n
  | inr g' =>
      mapped used
      ∧ (∀ key, key ≠ "nodes" → key ≠ "viewport" → get key g' = get key g) ∧ get "viewport" g' = VUndef
      ∧ (∃ nodes nodes', get "nodes" g = VArr nodes ∧ get "nodes" g' = VArr nodes' ∧ Forall2 (accepted_node m) nodes nodes')
      ∧ List.map node_shape (wg_nodes (fromGraph k (VObj g')).1) = List.map node_shape (wg_nodes (fromGraph k (VObj g)).1)
      ∧ wg_edges (fromGraph k (VObj g')).1 = wg_edges (fromGraph k (VObj g)).1
      ∧ ((∀ x, x ∈ m → 0 ≤ x.2) → placeholderIds g' = Some [])
  end.
Proof.
  intros Hw El Hnan Eu. unfold acceptedGraph.
  destruct (substitutePlaceholders g m) as [e|g1] eqn:Es; [by eapply substitute_inl|].
  destruct (tidy_accepted k g g1 Hw Es) as (nodes & nodes' & g2 & k' & En & -> & -> & Hd & Hn & Hkeys).
  simpl. rewrite spread_nil by by apply om_set_NoDup. set (g' := om_del _ _).
  assert (get "nodes" g' = VArr nodes') as En' by (unfold g'; by rewrite get_del_ne, get_set_eq).
  assert (∀ key, key ≠ "nodes" → key ≠ "viewport" → get key g' = get key g) as Hg.
  { intros key Hk Hv. unfold g'. rewrite get_del_ne, get_set_ne by done. by apply Hkeys. }
  destruct (accepted_all g g' nodes nodes' l En En' Hn El) as (l' & El' & Hto & Hfrom).
  destruct (placeholderIds_used g l used El Eu) as [Hin _].
  split_and!; [|done|by apply get_del_eq|eauto|..].
  - intros n [Hnl Hb]%Hin Hm. destruct (Hfrom _ Hnl) as [v' Ev]. unfold swap in Ev.
    rewrite num_order in Hb by (by intros ->). destruct (from_zero n); [done|]. by rewrite Hm in Ev.
  - eapply accepted_same_flow; eauto.
  - eapply accepted_same_flow; eauto.
  - intros Hm. rewrite placeholderIds_prompts, El'. simpl. f_equal. apply no_placeholder_left.
    intros n (v & Hv & Ev)%Hto. apply (swap_from_zero v (VNum n) Hm); [by intros <-|exact Ev|done].
Qed.
End accepting.
