(* ===== verification/Conversation.v ===== *)
(** * The Flow assistant's conversation ([flow/assist/conversation.ts])

    The reducer behind the assistant's panel, what it derives from the
    state, and the wording of a refused request. *)
From Stdlib Require Import QArith Qround.
From S2P Require Import Prelude JsString JsValue Format Graph IvrError Assist.

Local Close Scope Q_scope.
Local Open Scope string_scope.
Local Open Scope Z_scope.
Local Open Scope list_scope.

(** ** State *)

Inductive ProposalTurnState := ts_shown | ts_accepted | ts_discarded | ts_replaced.

#[export] Instance ProposalTurnState_eq_dec : EqDecision ProposalTurnState.
Proof. solve_decision. Defined.

Inductive ReplyKind := rk_clarify | rk_cannot_build.

(** A turn without its id. *)
Inductive NewTurn :=
  | nt_customer (text : string) (refining : bool)
  | nt_proposal (jobId text : string) (state : ProposalTurnState)
  | nt_reply (kind : ReplyKind) (text : string)
  | nt_error (text : string).

Record Turn := { tn_id : Z; tn_body : NewTurn }.

Record RunningJob := { rj_jobId : string; rj_startedAt : Z }.

Record ShownProposal := { sp_jobId : string; sp_result : AssistProposal }.

Record ConversationState := {
  cs_conversationId : option string;
  cs_turns : list Turn;
  cs_nextId : Z;
  cs_sending : bool;
  cs_running : option RunningJob;
  cs_proposal : option ShownProposal;
  cs_refineOf : option string;
  cs_accepting : bool;
  cs_acceptError : option string;
  cs_notice : option string;
  cs_blocked : option string;
  cs_announcement : string;
  cs_announceSeq : Z;
}.

Inductive ConversationAction :=
  | ca_send
  | ca_started (jobId conversationId text : string) (refining : bool) (at_ : Z)
  | ca_startFailed (text : string) (blocked : bool)
  | ca_done (jobId : string) (result : AssistResult)
  | ca_failed (jobId text : string)
  | ca_refine
  | ca_cancelRefine
  | ca_acceptStart
  | ca_acceptFailed (text : string)
  | ca_accepted
  | ca_discarded
  | ca_reset.

Definition initialConversation : ConversationState :=
  {| cs_conversationId := None; cs_turns := []; cs_nextId := 1; cs_sending := false; cs_running := None;
     cs_proposal := None; cs_refineOf := None; cs_accepting := false; cs_acceptError := None; cs_notice := None;
     cs_blocked := None; cs_announcement := ""; cs_announceSeq := 0 |}.

(** ** The reducer *)

(** [append]: the turns and the next id after it. *)
Fixpoint number_turns (id : Z) (turns : list NewTurn) : list Turn :=
  match turns with
  | [] => []
  | t :: turns => Build_Turn id t :: number_turns (id + 1) turns
  end.

Definition append (s : ConversationState) (turns : list NewTurn) : list Turn * Z :=
  (cs_turns s ++ number_turns (cs_nextId s) turns, cs_nextId s + Z.of_nat (length turns)).

Definition is_shown (jobId : option string) (t : NewTurn) : bool :=
  match t with
  | nt_proposal job _ st => (st ==? ts_shown) && match jobId with None => true | Some j => job ==? j end
  | _ => false
  end.

Definition mark_turn (jobId : option string) (state : ProposalTurnState) (t : Turn) : Turn :=
  match tn_body t with
  | nt_proposal job text _ =>
      if is_shown jobId (tn_body t) then Build_Turn (tn_id t) (nt_proposal job text state) else t
  | _ => t
  end.

Definition markProposal (turns : list Turn) (jobId : option string) (state : ProposalTurnState) : list Turn :=
  List.map (mark_turn jobId state) turns.

(** The job that runs is [jobId] ([s.running?.jobId !== a.jobId]). *)
Definition runs (s : ConversationState) (jobId : string) : bool :=
  match cs_running s with Some r => rj_jobId r ==? jobId | None => false end.

(** [a || b] on an optional string. *)
Definition or_else (a : string) (b : option string) : option string := if a ==? "" then b else Some a.

Definition WORKING : string := "The flow assistant is working on your request.".
Definition READY : string :=
  "A proposed flow is ready. It is shown on the canvas, and nothing has changed yet.".
Definition ACCEPTED : string := "The proposal is now your draft. Nothing is live until you publish.".
Definition DISCARDED : string := "Proposal discarded. Your draft is unchanged.".

(** A new proposal takes the place of the one on screen. *)
Definition show_proposal (jobId : string) (p : AssistProposal) (s : ConversationState) : ConversationState :=
  let turns := markProposal (cs_turns s) None ts_replaced in
  let text := if ap_summary p ==? "" then "Here is a proposed flow." else ap_summary p in
  {| cs_conversationId := cs_conversationId s;
     cs_turns := turns ++ number_turns (cs_nextId s) [nt_proposal jobId text ts_shown];
     cs_nextId := cs_nextId s + 1; cs_sending := cs_sending s; cs_running := None;
     cs_proposal := Some (Build_ShownProposal jobId p); cs_refineOf := None; cs_accepting := cs_accepting s;
     cs_acceptError := None; cs_notice := cs_notice s; cs_blocked := cs_blocked s; cs_announcement := READY;
     cs_announceSeq := cs_announceSeq s + 1 |}.

(** The job is over and leaves one turn. *)
Definition end_job (turn : NewTurn) (announcement : string) (s : ConversationState) : ConversationState :=
  let '(turns, nextId) := append s [turn] in
  {| cs_conversationId := cs_conversationId s; cs_turns := turns; cs_nextId := nextId; cs_sending := cs_sending s;
     cs_running := None; cs_proposal := cs_proposal s; cs_refineOf := cs_refineOf s; cs_accepting := cs_accepting s;
     cs_acceptError := cs_acceptError s; cs_notice := cs_notice s; cs_blocked := cs_blocked s;
     cs_announcement := announcement; cs_announceSeq := cs_announceSeq s + 1 |}.

(** The proposal leaves the canvas, its turn saying how. *)
Definition close_proposal (state : ProposalTurnState) (announcement : string) (s : ConversationState) : ConversationState :=
  {| cs_conversationId := cs_conversationId s;
     cs_turns := markProposal (cs_turns s) (sp_jobId <$> cs_proposal s) state;
     cs_nextId := cs_nextId s; cs_sending := cs_sending s; cs_running := cs_running s; cs_proposal := None;
     cs_refineOf := None; cs_accepting := false; cs_acceptError := None; cs_notice := cs_notice s;
     cs_blocked := cs_blocked s; cs_announcement := announcement; cs_announceSeq := cs_announceSeq s + 1 |}.

Definition set_refine (refineOf notice : option string) (s : ConversationState) : ConversationState :=
  {| cs_conversationId := cs_conversationId s; cs_turns := cs_turns s; cs_nextId := cs_nextId s;
     cs_sending := cs_sending s; cs_running := cs_running s; cs_proposal := cs_proposal s; cs_refineOf := refineOf;
     cs_accepting := cs_accepting s; cs_acceptError := cs_acceptError s; cs_notice := notice;
     cs_blocked := cs_blocked s; cs_announcement := cs_announcement s; cs_announceSeq := cs_announceSeq s |}.

Definition set_accepting (accepting : bool) (err : option string) (announced : option string) (s : ConversationState)
    : ConversationState :=
  {| cs_conversationId := cs_conversationId s; cs_turns := cs_turns s; cs_nextId := cs_nextId s;
     cs_sending := cs_sending s; cs_running := cs_running s; cs_proposal := cs_proposal s;
     cs_refineOf := cs_refineOf s; cs_accepting := accepting; cs_acceptError := err; cs_notice := cs_notice s;
     cs_blocked := cs_blocked s; cs_announcement := default (cs_announcement s) announced;
     cs_announceSeq := match announced with Some _ => cs_announceSeq s + 1 | None => cs_announceSeq s end |}.

Definition set_sending (sending : bool) (notice blocked announced : option string) (s : ConversationState)
    : ConversationState :=
  {| cs_conversationId := cs_conversationId s; cs_turns := cs_turns s; cs_nextId := cs_nextId s;
     cs_sending := sending; cs_running := cs_running s; cs_proposal := cs_proposal s; cs_refineOf := cs_refineOf s;
     cs_accepting := cs_accepting s; cs_acceptError := cs_acceptError s; cs_notice := notice; cs_blocked := blocked;
     cs_announcement := default (cs_announcement s) announced;
     cs_announceSeq := match announced with Some _ => cs_announceSeq s + 1 | None => cs_announceSeq s end |}.

Definition start_job (jobId conversationId text : string) (refining : bool) (at_ : Z) (s : ConversationState)
    : ConversationState :=
  let '(turns, nextId) := append s [nt_customer text refining] in
  {| cs_conversationId := or_else conversationId (cs_conversationId s); cs_turns := turns; cs_nextId := nextId;
     cs_sending := false; cs_running := Some (Build_RunningJob jobId at_); cs_proposal := cs_proposal s;
     cs_refineOf := cs_refineOf s; cs_accepting := cs_accepting s; cs_acceptError := cs_acceptError s;
     cs_notice := cs_notice s; cs_blocked := cs_blocked s; cs_announcement := WORKING;
     cs_announceSeq := cs_announceSeq s + 1 |}.

Definition blocked_again (blocked : option string) : ConversationState :=
  let i := initialConversation in
  {| cs_conversationId := cs_conversationId i; cs_turns := cs_turns i; cs_nextId := cs_nextId i;
     cs_sending := cs_sending i; cs_running := cs_running i; cs_proposal := cs_proposal i;
     cs_refineOf := cs_refineOf i; cs_accepting := cs_accepting i; cs_acceptError := cs_acceptError i;
     cs_notice := cs_notice i; cs_blocked := blocked; cs_announcement := cs_announcement i;
     cs_announceSeq := cs_announceSeq i |}.

Definition conversationReducer (s : ConversationState) (a : ConversationAction) : ConversationState :=
  match a with
  | ca_send => set_sending true None (cs_blocked s) None s
  | ca_started jobId conversationId text refining at_ => start_job jobId conversationId text refining at_ s
  | ca_startFailed text blocked =>
      set_sending false (Some text) (if blocked then Some text else cs_blocked s) (Some text) s
  | ca_done jobId result =>
      if runs s jobId then
        match result with
        | ar_proposal p => show_proposal jobId p s
        | ar_clarify text => end_job (nt_reply rk_clarify text) ("The flow assistant asks: " +:+ text) s
        | ar_cannot_build text => end_job (nt_reply rk_cannot_build text) text s
        end
      else s
  | ca_failed jobId text => if runs s jobId then end_job (nt_error text) text s else s
  | ca_refine =>
      match cs_proposal s with
      | Some p => set_refine (Some (sp_jobId p)) None s
      | None => s
      end
  | ca_cancelRefine => set_refine None (cs_notice s) s
  | ca_acceptStart => set_accepting true None None s
  | ca_acceptFailed text => set_accepting false (Some text) (Some text) s
  | ca_accepted => close_proposal ts_accepted ACCEPTED s
  | ca_discarded => close_proposal ts_discarded DISCARDED s
  | ca_reset => blocked_again (cs_blocked s)
  end.

(** ** Derived *)

Definition canCompose (s : ConversationState) : bool :=
  match cs_blocked s, cs_running s with
  | None, None =>
      negb (cs_sending s) && negb (cs_accepting s)
      && match cs_proposal s with None => true | Some _ => match cs_refineOf s with Some _ => true | None => false end end
  | _, _ => false
  end.

(** A string that is set and not empty. *)
Definition truthy (v : option string) : option string :=
  match v with Some s => if s ==? "" then None else Some s | None => None end.

Definition is_some {A} (o : option A) : bool := match o with Some _ => true | None => false end.

Definition composeBlockedReason (s : ConversationState) : option string :=
  match truthy (cs_blocked s) with
  | Some b => Some b
  | None =>
      if cs_sending s || is_some (cs_running s) then None
      else if cs_accepting s then Some "Adding the proposal to your draft…"
      else match cs_proposal s, cs_refineOf s with
           | Some _, None => Some "Accept, refine or discard the proposal to continue."
           | _, _ => None
           end
  end.

(** ** Starting a job *)

(** The UTF-16 length of a character, by its first byte in UTF-8. *)
Definition units (a : ascii) : nat :=
  if (128 <=? code a) && (code a <? 192) then 0 else if 240 <=? code a then 2 else 1.

(** [s.length] *)
Fixpoint js_length (s : string) : nat :=
  match s with EmptyString => 0 | String a s => units a + js_length s end.

(** [s.slice(0, n)]; of a pair the cut would halve, neither half is kept. *)
Fixpoint js_take (n : nat) (s : string) : string :=
  match s with
  | EmptyString => ""
  | String a s => if (units a <=? n)%nat then String a (js_take (n - units a) s) else ""
  end.

Record AssistStartRequest := {
  sr_message : string;
  sr_conversation_id : option string;
  sr_refine_job_id : option string;
  sr_draft_graph : option value;
}.

Definition buildStartRequest (text : string) (s : ConversationState) (draft : value) : AssistStartRequest :=
  {| sr_message := js_take MESSAGE_MAX_CHARS (trim text);
     sr_conversation_id := truthy (cs_conversationId s);
     sr_refine_job_id := truthy (cs_refineOf s);
     sr_draft_graph := match truthy (cs_refineOf s) with Some _ => None | None => Some draft end |}.

(** ** Start errors *)

Record StartFailure := {
  sf_status : option Z;
  sf_code : option string;
  sf_retryAfterS : option Z;
}.

(** [pick]: a positive finite number, rounded up. *)
Definition positive_ceil (v : value) : option Z :=
  match v with
  | VNum (Fin q) => if Qle_bool q 0 then None else Some (Qceiling q)
  | _ => None
  end.

Definition readRetryAfter (raw : value) : option Z :=
  match raw with
  | VObj top =>
      match positive_ceil (get "retry_after_s" top) with
      | Some n => Some n
      | None => positive_ceil (get "retry_after_s" (record_or_empty (get "detail" top)))
      end
  | _ => None
  end.

Definition LOTS : string := "That’s a lot of requests in a row. Try again in ".

Definition rate_text (retryAfterS : option Z) : string :=
  match retryAfterS with
  | Some n => if n =? 0 then LOTS +:+ "a minute."
              else LOTS +:+ print_int n +:+ " second" +:+ (if n =? 1 then "" else "s") +:+ "."
  | None => LOTS +:+ "a minute."
  end.

(** The text by the error's code, then by its status. *)
Definition start_by_code (f : StartFailure) : option (string * bool) :=
  match sf_code f with
  | None => None
  | Some c =>
      if c ==? "ivr_assist_not_enabled" then
        Some ("The flow assistant isn’t available for this account. You can keep building by hand.", true)
      else if c ==? "assist_busy" then
        Some ("The flow assistant is already working on a request for this flow. Try again in a minute.", false)
      else if c ==? "assist_rate_limited" then Some (rate_text (sf_retryAfterS f), false)
      else if c ==? "assist_daily_limit" then
        Some ("You’ve reached today’s limit for the flow assistant. You can keep building by hand.", false)
      else if c ==? "ivr_not_enabled" then Some ("IVR isn’t switched on for this account.", true)
      else None
  end.

Definition startErrorText (f : StartFailure) : string * bool :=
  match start_by_code f with
  | Some r => r
  | None =>
      if sf_status f ==? Some 404 then ("This flow doesn’t exist any more. Go back to IVR and open it again.", true)
      else if sf_status f ==? Some 403 then ("You don’t have permission to use the flow assistant on this flow.", true)
      else if sf_status f ==? Some 422 then
        ("The flow assistant couldn’t take that request. Shorten it and try again.", false)
      else (default "" (om_get "assistant_unavailable" JOB_ERROR_TEXT), false)
  end.
