(* ===== verification/Assistant.v ===== *)
(** * The Flow assistant in the builder ([flow/assist/useFlowAssistant.ts])

    The hook as a state machine around the conversation and the builder's
    store: one function per event it handles.  What runs between two events
    (a dispatch and the effects it triggers, the steps of an [async] function
    up to its next [await]) is one step; a handler reads the state of the
    render the click was made on, which is the current one.  The queries the
    hook refreshes and the toast's text hold nothing it reads back. *)
From S2P Require Import Prelude JsString JsValue Graph Layout IvrError FlowState Store StoreOk Assist Conversation.

Local Open Scope string_scope.
Local Open Scope Z_scope.
Local Open Scope list_scope.

(** ** State *)

(** The effect that polls the running job: its timer set, or its request
    unanswered.  An effect that was cleaned up does nothing more. *)
Inductive Poll := pl_timer | pl_asked.

(** [accept] at its [await]: the proposal it was called on, and where the
    creation of its messages stands. *)
Record AcceptRun := {
  ac_jobId : string;
  ac_proposal : AssistProposal;
  ac_creation : creation;
}.

(** The POST in flight: the text sent, whether it refines. *)
Record StartRun := {
  st_text : string;
  st_refining : bool;
  st_body : AssistStartRequest;
}.

(** [as_toasts] are the sequence numbers the Undo buttons wait for, and
    [as_outcomes] the outcomes posted. *)
Record Assistant := {
  as_conv : ConversationState;
  as_store : FlowState;
  as_draft : string;
  as_voice : string;
  as_mappings : list (string * Mapping);
  as_request : option StartRun;
  as_poll : option Poll;
  as_accept : option AcceptRun;
  as_toasts : list Z;
  as_outcomes : list (string * ProposalTurnState);
}.

Definition with_conv (c : ConversationState) (p : option Poll) (a : Assistant) : Assistant :=
  Build_Assistant c (as_store a) (as_draft a) (as_voice a) (as_mappings a) (as_request a) p (as_accept a)
    (as_toasts a) (as_outcomes a).
Definition with_flow (s : FlowState) (a : Assistant) : Assistant :=
  Build_Assistant (as_conv a) s (as_draft a) (as_voice a) (as_mappings a) (as_request a) (as_poll a) (as_accept a)
    (as_toasts a) (as_outcomes a).
Definition with_draft (d : string) (a : Assistant) : Assistant :=
  Build_Assistant (as_conv a) (as_store a) d (as_voice a) (as_mappings a) (as_request a) (as_poll a) (as_accept a)
    (as_toasts a) (as_outcomes a).
Definition with_voice (v : string) (a : Assistant) : Assistant :=
  Build_Assistant (as_conv a) (as_store a) (as_draft a) v (as_mappings a) (as_request a) (as_poll a) (as_accept a)
    (as_toasts a) (as_outcomes a).
Definition with_mappings (m : list (string * Mapping)) (a : Assistant) : Assistant :=
  Build_Assistant (as_conv a) (as_store a) (as_draft a) (as_voice a) m (as_request a) (as_poll a) (as_accept a)
    (as_toasts a) (as_outcomes a).
Definition with_request (r : option StartRun) (a : Assistant) : Assistant :=
  Build_Assistant (as_conv a) (as_store a) (as_draft a) (as_voice a) (as_mappings a) r (as_poll a) (as_accept a)
    (as_toasts a) (as_outcomes a).
Definition with_poll (p : option Poll) (a : Assistant) : Assistant := with_conv (as_conv a) p a.
Definition with_accept (r : option AcceptRun) (a : Assistant) : Assistant :=
  Build_Assistant (as_conv a) (as_store a) (as_draft a) (as_voice a) (as_mappings a) (as_request a) (as_poll a) r
    (as_toasts a) (as_outcomes a).
Definition with_toast (seq : Z) (a : Assistant) : Assistant :=
  Build_Assistant (as_conv a) (as_store a) (as_draft a) (as_voice a) (as_mappings a) (as_request a) (as_poll a)
    (as_accept a) (seq :: as_toasts a) (as_outcomes a).
Definition with_outcome (job : string) (o : ProposalTurnState) (a : Assistant) : Assistant :=
  Build_Assistant (as_conv a) (as_store a) (as_draft a) (as_voice a) (as_mappings a) (as_request a) (as_poll a)
    (as_accept a) (as_toasts a) (as_outcomes a ++ [(job, o)]).

#[export] Instance RunningJob_eq_dec : EqDecision RunningJob.
Proof. solve_decision. Defined.

(** The polling effect after a render: kept while the job is the same, else
    cleaned up and started for the new one. *)
Definition next_poll (before after : option RunningJob) (p : option Poll) : option Poll :=
  if before ==? after then p else match after with Some _ => Some pl_timer | None => None end.

Definition dispatch (x : ConversationAction) (a : Assistant) : Assistant :=
  let c := conversationReducer (as_conv a) x in
  with_conv c (next_poll (cs_running (as_conv a)) (cs_running c) (as_poll a)) a.

Definition initialAssistant (store : FlowState) (voice : string) : Assistant :=
  {| as_conv := initialConversation; as_store := store; as_draft := ""; as_voice := voice; as_mappings := [];
     as_request := None; as_poll := None; as_accept := None; as_toasts := []; as_outcomes := [] |}.

(** ** Texts *)

Definition KEEP : string := "Your draft hasn’t changed. Try again — messages already made are reused.".

Definition acceptErrorText (e : accept_error) : string :=
  match e with
  | prompt_failed prompt cause =>
      "The message “" +:+ np_name prompt +:+ "” couldn’t be created: "
      +:+ ivrErrorText cause "try again in a moment." +:+ " " +:+ KEEP
  | missing_message _ =>
      "This proposal uses a message that isn’t there. Refine it, or build that part by hand."
  | no_voice =>
      "Text to speech is unavailable right now, so the new messages can’t be made. Try again later."
  | null_read => "The proposal couldn’t be added to your draft. " +:+ KEEP
  end.

Section hook.
Context `{IdSupply} `{!ReactFlow} (available : bool).

(** ** Sending *)

Definition may_send (a : Assistant) : bool :=
  let text := trim (as_draft a) in
  available && (text !=? "") && (js_length text <=? MESSAGE_MAX_CHARS)%nat && canCompose (as_conv a).

Definition send (a : Assistant) : Assistant :=
  if may_send a then
    let text := trim (as_draft a) in
    let refining := is_some (cs_refineOf (as_conv a)) in
    let body := buildStartRequest text (as_conv a) (graph (as_store a)) in
    with_request (Some (Build_StartRun text refining body)) (dispatch ca_send a)
  else a.

Definition start_failed (f : StartFailure) (a : Assistant) : Assistant :=
  let '(why, blocked) := startErrorText f in dispatch (ca_startFailed why blocked) a.

Definition failure_of (err : thrown) : StartFailure :=
  {| sf_status := match err with api_error e => Some (ae_status e) | other_error => None end;
     sf_code := eb_code (readIvrError err);
     sf_retryAfterS := match err with api_error e => readRetryAfter (ae_raw e) | other_error => None end |}.

(** The job id of a start's answer; [None] when it is thrown out. *)
Definition started_job (answer : value) : option string :=
  match answer with VObj r => truthy (as_string (get "job_id" r)) | _ => None end.

(** The answer of the POST. *)
Definition started (answer : value + thrown) (now : Z) (a : Assistant) : Assistant :=
  match as_request a with
  | None => a
  | Some q =>
      let a := with_request None a in
      match answer with
      | inr err => start_failed (failure_of err) a
      | inl r =>
          match started_job r with
          | None => start_failed (failure_of other_error) a
          | Some job =>
              let conversation := str_or_empty (get "conversation_id" (record_or_empty r)) in
              with_draft "" (dispatch (ca_started job conversation (st_text q) (st_refining q) now) a)
          end
      end
  end.

(** ** Polling *)

Definition tick (now : Z) (a : Assistant) : Assistant :=
  match as_poll a, cs_running (as_conv a) with
  | Some pl_timer, Some r =>
      if POLL_LIMIT_MS <=? now - rj_startedAt r then dispatch (ca_failed (rj_jobId r) failed_text) a
      else with_poll (Some pl_asked) a
  | _, _ => a
  end.

(** The job is gone or not ours. *)
Definition gone (err : thrown) : bool :=
  match err with api_error e => includes [400; 403; 404] (ae_status e) | other_error => false end.

(** A proposal is drawn on the canvas before the conversation takes it. *)
Definition draw (jobId : string) (instant : bool) (r : AssistResult) (a : Assistant) : Assistant :=
  match r with
  | ar_proposal p => with_flow (showProposal jobId (VObj (ap_graph p)) instant (as_store a)) a
  | _ => a
  end.

(** The answer of a poll; [reduced] is [prefers-reduced-motion]. *)
Definition polled (answer : value + thrown) (reduced : bool) (a : Assistant) : Assistant :=
  match as_poll a, cs_running (as_conv a) with
  | Some pl_asked, Some run =>
      let jobId := rj_jobId run in
      match answer with
      | inr err => if gone err then dispatch (ca_failed jobId failed_text) a else with_poll (Some pl_timer) a
      | inl body =>
          match parseAssistJob body with
          | None => dispatch (ca_failed jobId failed_text) a
          | Some job =>
              match aj_state job with
              | js_running => with_poll (Some pl_timer) a
              | js_done r => dispatch (ca_done jobId r) (draw jobId reduced r a)
              | js_failed code _ => dispatch (ca_failed jobId (jobErrorText (Some code))) a
              end
          end
      end
  | _, _ => a
  end.

(** ** Accepting *)

Definition mapping_of (jobId : string) (a : Assistant) : Mapping := default [] (om_get jobId (as_mappings a)).

Definition accept_failed (e : accept_error) (a : Assistant) : Assistant :=
  dispatch (ca_acceptFailed (acceptErrorText e)) (with_accept None a).

(** The draft is replaced, and the proposal's turn closed. *)
Definition take_over (now : Z) (jobId : string) (graph : obj) (a : Assistant) : Assistant :=
  let a := with_flow (replaceDraft now (VObj graph) (as_store a)) a in
  let a := dispatch ca_accepted (with_mappings (om_del jobId (as_mappings a)) (with_accept None a)) in
  with_toast (fs_changeSeq (as_store a)) (with_outcome jobId ts_accepted a).

(** Where the creation stands decides what [accept] does next. *)
Definition resume_accept (now : Z) (jobId : string) (p : AssistProposal) (c : creation) (a : Assistant) : Assistant :=
  let a := with_mappings (om_set jobId (cr_mapping c) (as_mappings a)) a in
  match c with
  | cr_asked _ _ _ => with_accept (Some (Build_AcceptRun jobId p c)) a
  | cr_failed e _ => accept_failed e a
  | cr_done mapping =>
      let '(r, k) := acceptedGraph (fs_drawn (as_store a)) (ap_graph p) mapping in
      let a := with_flow (set_drawn k (as_store a)) a in
      match r with
      | inl e => accept_failed e a
      | inr g => take_over now jobId g a
      end
  end.

(** Something has to be read, and nobody can. *)
Definition voiceless (p : AssistProposal) (mapping : Mapping) (a : Assistant) : bool :=
  match promptsToCreate p mapping with Some (_ :: _) => as_voice a ==? "" | _ => false end.

Definition accept (now : Z) (a : Assistant) : Assistant :=
  match cs_proposal (as_conv a) with
  | None => a
  | Some p =>
      if cs_accepting (as_conv a) then a
      else
        let job := sp_jobId p in
        let mapping := mapping_of job a in
        let a := dispatch ca_acceptStart (with_mappings (om_set job mapping (as_mappings a)) a) in
        if voiceless (sp_result p) mapping a then accept_failed no_voice a
        else resume_accept now job (sp_result p) (start_creation (sp_result p) mapping) a
  end.

(** The answer of the POST that creates a message. *)
Definition created (answer : Z + thrown) (now : Z) (a : Assistant) : Assistant :=
  match as_accept a with
  | None => a
  | Some r => resume_accept now (ac_jobId r) (ac_proposal r) (create_answer (ac_creation r) answer) a
  end.

(** The Undo of an accept's toast: only while the accept is the latest edit. *)
Definition toast_undo (seq : Z) (a : Assistant) : Assistant :=
  if includes (as_toasts a) seq && (fs_changeSeq (as_store a) =? seq) then with_flow (undo (as_store a)) a else a.

(** ** The rest *)

Definition discard (a : Assistant) : Assistant :=
  match cs_proposal (as_conv a) with
  | None => a
  | Some p =>
      if cs_accepting (as_conv a) then a
      else
        let a := with_flow (clearProposal (as_store a)) a in
        with_outcome (sp_jobId p) ts_discarded
          (dispatch ca_discarded (with_mappings (om_del (sp_jobId p) (as_mappings a)) a))
  end.

Definition reset (a : Assistant) : Assistant :=
  if is_some (cs_running (as_conv a)) || cs_sending (as_conv a) || is_some (cs_proposal (as_conv a)) then a
  else with_draft "" (dispatch ca_reset a).

(** ** Events *)

(** The builder's other actions leave the proposal on the canvas alone. *)
Definition assistant_action (x : action) : bool :=
  match x with
  | a_showProposal _ _ _ | a_clearProposal | a_replaceDraft _ | a_revealNext => true
  | _ => false
  end.

Inductive event :=
  | ev_type (text : string)
  | ev_voice (voice : string)
  | ev_send
  | ev_started (answer : value + thrown) (now : Z)
  | ev_tick (now : Z)
  | ev_polled (answer : value + thrown) (reduced : bool)
  | ev_reveal
  | ev_accept (now : Z)
  | ev_created (answer : Z + thrown) (now : Z)
  | ev_discard
  | ev_refine
  | ev_cancelRefine
  | ev_reset
  | ev_toast_undo (seq : Z)
  | ev_builder (now : Z) (x : action).

Definition handle (e : event) (a : Assistant) : Assistant :=
  match e with
  | ev_type text => with_draft text a
  | ev_voice voice => with_voice voice a
  | ev_send => send a
  | ev_started answer now => started answer now a
  | ev_tick now => tick now a
  | ev_polled answer reduced => polled answer reduced a
  | ev_reveal => with_flow (revealNext (as_store a)).1 a
  | ev_accept now => accept now a
  | ev_created answer now => created answer now a
  | ev_discard => discard a
  | ev_refine => dispatch ca_refine a
  | ev_cancelRefine => dispatch ca_cancelRefine a
  | ev_reset => reset a
  | ev_toast_undo seq => toast_undo seq a
  | ev_builder now x => if assistant_action x then a else with_flow (act now x (as_store a)) a
  end.

Definition session (store : FlowState) (voice : string) (events : list event) : Assistant :=
  fold_left (λ a e, handle e a) events (initialAssistant store voice).
End hook.
