(* ===== verification/AssistantOk.v ===== *)
(** * The Flow assistant: what it promises
    ([flow/assist/conversation.ts], [flow/assist/useFlowAssistant.ts])

    The invariant of the panel and the canvas, that nothing but Accept and
    its Undo touches the draft, that a job always ends, and a recorded session
    for the witnesses. *)
From S2P Require Import Prelude JsString JsValue Blocks Graph History Layout FlowState Store StoreOk StoreRun IvrError Assist AssistOk Conversation Assistant.

Local Open Scope string_scope.
Local Open Scope Z_scope.
Local Open Scope list_scope.

(** ** The conversation *)

(** The jobs whose turn reads as the proposal on the canvas. *)
Definition shown_job (t : Turn) : option string :=
  match tn_body t with nt_proposal job _ ts_shown => Some job | _ => None end.
Definition shown_jobs (turns : list Turn) : list string := omap shown_job turns.

Record conv_ok (s : ConversationState) : Prop := {
  cv_ids : NoDup (List.map tn_id (cs_turns s));
  cv_next : ∀ t, t ∈ cs_turns s → tn_id t < cs_nextId s;
  cv_shown : shown_jobs (cs_turns s) = match cs_proposal s with Some p => [sp_jobId p] | None => [] end;
  cv_refine : ∀ j, cs_refineOf s = Some j → sp_jobId <$> cs_proposal s = Some j;
  cv_sending : cs_sending s = true → cs_running s = None;
  cv_accepting : cs_accepting s = true → cs_proposal s ≠ None;
  cv_blocked : cs_blocked s ≠ Some "";
}.

(** What the hook dispatches, and when. *)
Definition legal (s : ConversationState) (x : ConversationAction) : Prop :=
  match x with
  | ca_send => cs_running s = None
  | ca_startFailed text _ => text ≠ ""
  | ca_acceptStart => cs_proposal s ≠ None
  | _ => True
  end.

Lemma mark_turn_id j st t : tn_id (mark_turn j st t) = tn_id t.
Proof. unfold mark_turn. destruct (tn_body t) eqn:E; try done. by destruct (is_shown _ _). Qed.

Lemma mark_ids turns j st : List.map tn_id (markProposal turns j st) = List.map tn_id turns.
Proof. unfold markProposal. rewrite List.map_map. apply List.map_ext. intros t. apply mark_turn_id. Qed.

Lemma mark_next turns j st n :
  (∀ t, t ∈ turns → tn_id t < n) → ∀ t, t ∈ markProposal turns j st → tn_id t < n.
Proof. intros Hn t (t0 & -> & Ht)%elem_of_lmap. rewrite mark_turn_id. by apply Hn. Qed.

(** Closing the turns of a job leaves no shown turn but other jobs'. *)
Lemma mark_shown turns j st :
  st ≠ ts_shown → (∀ k, k ∈ shown_jobs turns → j = None ∨ j = Some k) → shown_jobs (markProposal turns j st) = [].
Proof.
  intros Hst Hj. unfold shown_jobs, markProposal in *. induction turns as [|t turns IH]; [done|]. simpl in *.
  assert (shown_job (mark_turn j st t) = None) as E.
  { unfold mark_turn. unfold shown_job at 1 in Hj. destruct t as [i b]; simpl in *.
    destruct b as [| job text s | |]; simpl in *; try done.
    destruct s; simpl in *; rewrite ?andb_false_l; try done.
    destruct (Hj job) as [->| ->]; [left|..]; simpl; rewrite ?bool_decide_eq_true_2 by done; by destruct st. }
  rewrite E. apply IH. intros k Hk. apply Hj. destruct (shown_job t); [by right|done].
Qed.

Lemma shown_app l l' : shown_jobs (l ++ l') = shown_jobs l ++ shown_jobs l'.
Proof. apply omap_app. Qed.

(** A turn more. *)
Lemma one_more s b :
  NoDup (List.map tn_id (cs_turns s)) → (∀ t, t ∈ cs_turns s → tn_id t < cs_nextId s) →
  NoDup (List.map tn_id (cs_turns s ++ number_turns (cs_nextId s) [b]))
  ∧ ∀ t, t ∈ cs_turns s ++ number_turns (cs_nextId s) [b] → tn_id t < cs_nextId s + 1.
Proof.
  intros Hd Hn. split.
  - rewrite List.map_app. apply NoDup_app. split_and!; [done| |apply NoDup_singleton].
    intros i (t & -> & Ht)%elem_of_lmap E%list_elem_of_singleton. apply Hn in Ht. simpl in E. lia.
  - intros t [Ht%Hn|Ht%list_elem_of_singleton]%elem_of_app; [lia|]. subst t. simpl. lia.
Qed.

Lemma end_job_ok b text s : (∀ i, shown_job (Build_Turn i b) = None) → conv_ok s → conv_ok (end_job b text s).
Proof.
  intros Hb [Hd Hn Hs Hr Hse Ha Hbl]. destruct (one_more s b Hd Hn) as [Hd' Hn'].
  split; simpl in *; try done. rewrite shown_app, Hs. unfold shown_jobs. simpl. rewrite Hb. simpl. apply app_nil_r.
Qed.

Lemma reducer_ok s x : legal s x → conv_ok s → conv_ok (conversationReducer s x).
Proof.
  intros Hl Hok. pose proof Hok as [Hd Hn Hs Hr Hse Ha Hb]. destruct x as
    [|job conv text refining t|text b|job r|job text| | | |text| | |]; simpl in *.
  - by split.
  - destruct (one_more s (nt_customer text refining) Hd Hn). split; simpl in *; try done.
    rewrite shown_app, Hs. unfold shown_jobs. simpl. by rewrite app_nil_r.
  - split; simpl; try done. destruct b; [congruence|done].
  - destruct (runs s job) eqn:Er; [|done]. destruct r as [p|text|text]; [|by apply end_job_ok..].
    unfold show_proposal.
    assert (NoDup (List.map tn_id (markProposal (cs_turns s) None ts_replaced))) as Hd1 by by rewrite mark_ids.
    pose proof (mark_next _ None ts_replaced _ Hn) as Hn1.
    set (text := if ap_summary p ==? "" then _ else _). split; simpl; try done.
    + rewrite List.map_app. apply NoDup_app. split_and!; [done| |apply NoDup_singleton].
      intros i (t & -> & Ht)%elem_of_lmap E%list_elem_of_singleton. apply Hn1 in Ht. simpl in E. lia.
    + intros t [Ht%Hn1|Ht%list_elem_of_singleton]%elem_of_app; [lia|]. subst t. simpl. lia.
    + rewrite shown_app, mark_shown; [done|done|]. intros k _. by left.
  - destruct (runs s job); [|done]. by apply end_job_ok.
  - destruct (cs_proposal s) as [p|] eqn:Ep; [|done]. split; simpl; rewrite ?Ep; try done.
  - split; simpl; try done.
  - split; simpl; try done.
  - split; simpl; try done.
  - split; simpl; try done; [by rewrite mark_ids|by apply mark_next|].
    apply mark_shown; [done|]. rewrite Hs. destruct (cs_proposal s); simpl; [|by intros k ?%not_elem_of_nil].
    intros k ->%list_elem_of_singleton. by right.
  - split; simpl; try done; [by rewrite mark_ids|by apply mark_next|].
    apply mark_shown; [done|]. rewrite Hs. destruct (cs_proposal s); simpl; [|by intros k ?%not_elem_of_nil].
    intros k ->%list_elem_of_singleton. by right.
  - split; simpl; try done; [constructor|by intros t ?%not_elem_of_nil].
Qed.

(** A closed message box is explained: by a reason under it, or by a job
    under way, which the live status reports. *)
Lemma compose_explained s :
  cs_blocked s ≠ Some "" →
  canCompose s = negb (is_some (composeBlockedReason s)) && negb (cs_sending s || is_some (cs_running s)).
Proof.
  intros Hb. unfold canCompose, composeBlockedReason. destruct (cs_blocked s) as [b|]; simpl.
  - rewrite bool_decide_eq_false_2 by congruence. done.
  - destruct (cs_running s); simpl; [by rewrite orb_true_r|].
    destruct (cs_sending s); simpl; [done|]. destruct (cs_accepting s); simpl; [done|].
    by destruct (cs_proposal s), (cs_refineOf s).
Qed.

(** ** The canvas *)

(** The job whose proposal is on the canvas. *)
Definition canvas_job (s : FlowState) : option string := po_jobId <$> fs_proposal s.

Section hook.
Context `{IdSupply} `{!ReactFlow}.

Lemma commit_canvas now nodes edges key extra po s :
  (∀ x, fs_proposal (extra x) = fs_proposal x) →
  canvas_job (commit now nodes edges key extra po s) = canvas_job s.
Proof. intros He. unfold canvas_job, commit. by rewrite He. Qed.

Lemma remove_canvas now ids s : canvas_job (removeBlocks now ids s) = canvas_job s.
Proof. unfold removeBlocks. destruct (gone_ids _ _); [done|]. by rewrite commit_canvas. Qed.

(** The builder's other actions leave the overlay. *)
Lemma act_canvas now x s : assistant_action x = false → canvas_job (act now x s) = canvas_job s.
Proof.
  destruct x; try done; intros _; cbn [act]; try (by rewrite commit_canvas).
  - unfold load. by destruct (fromGraph _ _).
  - unfold onNodesChange. cbv zeta. repeat case_match; try done; try apply remove_canvas; by rewrite commit_canvas.
  - unfold onEdgesChange. cbv zeta. repeat case_match; try done; by rewrite commit_canvas.
  - unfold onPreviewNodesChange, canvas_job. cbv zeta. destruct (List.filter _ _); [done|].
    destruct (fs_preview s); [done|]. by destruct (fs_proposal s) as [q|] eqn:E; simpl; rewrite ?E.
  - unfold connect. destruct (connectionProblem _ _ _ _ _); [done|]. cbn [fst]. by rewrite commit_canvas.
  - unfold addBlock. cbv zeta.
    destruct (match from with Some (source, handle) => _ | None => None end) as [[source handle]|];
      cbn [fst]; by rewrite commit_canvas.
  - apply remove_canvas.
  - unfold setName. by case_match.
  - unfold undo, restore. by repeat case_match.
  - unfold redo, restore. by repeat case_match.
  - unfold contentGraph. by repeat case_match.
Qed.

Lemma show_canvas job g instant s : canvas_job (showProposal job g instant s) = Some job.
Proof. unfold showProposal. by destruct (fromGraph _ _). Qed.

Lemma reveal_canvas s : canvas_job (revealNext s).1 = canvas_job s.
Proof. unfold revealNext, canvas_job. destruct (fs_proposal s) eqn:E; [case_match|]; simpl; by rewrite ?E. Qed.

Lemma clear_canvas s : canvas_job (clearProposal s) = None.
Proof. unfold clearProposal, canvas_job. destruct (fs_proposal s) eqn:E; simpl; by rewrite ?E. Qed.

Lemma replace_canvas now g s : canvas_job (replaceDraft now g s) = None.
Proof. unfold replaceDraft. by destruct (fromGraph _ _). Qed.

Lemma undo_canvas s : canvas_job (undo s) = canvas_job s.
Proof. unfold undo, restore. by repeat case_match. Qed.

(** ** The hook *)

(** A run of Accept waits for a message, and what it made is on record. *)
Definition run_ok (a : Assistant) (r : AcceptRun) : Prop :=
  ∃ np rest m, ac_creation r = cr_asked np rest m ∧ om_get (ac_jobId r) (as_mappings a) = Some m.

Record assistant_ok (a : Assistant) : Prop := {
  ak_conv : conv_ok (as_conv a);
  ak_canvas : canvas_job (as_store a) = sp_jobId <$> cs_proposal (as_conv a);
  ak_sending : cs_sending (as_conv a) = is_some (as_request a);
  ak_accepting : cs_accepting (as_conv a) = is_some (as_accept a);
  ak_poll : is_some (as_poll a) = is_some (cs_running (as_conv a));
  ak_run : ∀ r, as_accept a = Some r → run_ok a r;
}.

Lemma next_poll_ok before after p :
  is_some p = is_some before → is_some (next_poll before after p) = is_some after.
Proof. unfold next_poll. intros E. case_bool_decide as Eb; [by subst|]. by destruct after. Qed.

(** Changes of fields the invariant does not read. *)
Lemma text_ok a d : assistant_ok a → assistant_ok (with_draft d a).
Proof. intros [? ? ? ? ? Hr]. by split. Qed.
Lemma voice_ok a v : assistant_ok a → assistant_ok (with_voice v a).
Proof. intros [? ? ? ? ? Hr]. by split. Qed.
Lemma flow_ok a s : canvas_job s = canvas_job (as_store a) → assistant_ok a → assistant_ok (with_flow s a).
Proof. intros E [? Hc ? ? ? Hr]. split; simpl; try done. by rewrite E. Qed.
Lemma poll_ok a p : is_some p = is_some (as_poll a) → assistant_ok a → assistant_ok (with_poll p a).
Proof. intros E [? ? ? ? Hp Hr]. split; simpl; try done. by rewrite E. Qed.
Lemma toast_ok a seq : assistant_ok a → assistant_ok (with_toast seq a).
Proof. intros [? ? ? ? ? Hr]. by split. Qed.
Lemma outcome_ok a j o : assistant_ok a → assistant_ok (with_outcome j o a).
Proof. intros [? ? ? ? ? Hr]. by split. Qed.

Lemma started_ok answer now a : assistant_ok a → assistant_ok (started answer now a).
Proof.
  intros [Hc Hv Hs Ha Hp Hr]. unfold started. destruct (as_request a) as [q|] eqn:Eq; [|by split; rewrite ?Eq].
  assert (∀ f, assistant_ok (start_failed f (with_request None a))) as Hf.
  { intros f. unfold start_failed. destruct (startErrorText f) as [why b] eqn:Ef.
    assert (why ≠ "") as Hw.
    { unfold startErrorText, start_by_code, rate_text in Ef. repeat case_match; simplify_eq; done. }
    split; simpl; try done; [|by apply next_poll_ok]. by apply (reducer_ok _ (ca_startFailed why b)). }
  destruct answer as [r|err]; [|apply Hf]. destruct (started_job r) as [job|]; [|apply Hf].
  apply text_ok. split; simpl; try done; [|by apply next_poll_ok].
  by apply (reducer_ok _ (ca_started job _ (st_text q) (st_refining q) now)).
Qed.

Lemma send_ok available a : assistant_ok a → assistant_ok (send available a).
Proof.
  intros [Hc Hv Hs Ha Hp Hr]. unfold send. destruct (may_send available a) eqn:E; [|by split].
  unfold may_send, canCompose in E. bool_hyps. destruct (cs_blocked (as_conv a)), (cs_running (as_conv a)) eqn:Er; try done.
  split; simpl; try done; [by apply (reducer_ok _ ca_send)|]. apply next_poll_ok. by rewrite Er.
Qed.

(** A dispatch: what the new conversation has to agree with. *)
Lemma dispatch_ok x a :
  conv_ok (as_conv a) → legal (as_conv a) x → is_some (as_poll a) = is_some (cs_running (as_conv a)) →
  (∀ r, as_accept a = Some r → run_ok a r) →
  canvas_job (as_store a) = sp_jobId <$> cs_proposal (conversationReducer (as_conv a) x) →
  cs_sending (conversationReducer (as_conv a) x) = is_some (as_request a) →
  cs_accepting (conversationReducer (as_conv a) x) = is_some (as_accept a) →
  assistant_ok (dispatch x a).
Proof.
  intros Hc Hl Hp Hr Hv Hs Ha. split; simpl; try done; [by apply reducer_ok|by apply next_poll_ok].
Qed.

Lemma failed_ok job text a : assistant_ok a → assistant_ok (dispatch (ca_failed job text) a).
Proof.
  intros [Hc Hv Hs Ha Hp Hr]. apply dispatch_ok; try done; simpl; by destruct (runs _ _).
Qed.

Lemma tick_ok now a : assistant_ok a → assistant_ok (tick now a).
Proof.
  intros Ha. unfold tick. destruct (as_poll a) as [[]|] eqn:Ep, (cs_running (as_conv a)) as [r|]; try done.
  case_match; [by apply failed_ok|]. apply poll_ok; [by rewrite Ep|done].
Qed.

Lemma done_ok job r reduced a :
  runs (as_conv a) job = true → assistant_ok a → assistant_ok (dispatch (ca_done job r) (draw job reduced r a)).
Proof.
  intros Hrun [Hc Hv Hs Ha Hp Hr]. destruct r as [p|text|text]; simpl; apply dispatch_ok; try done; simpl; rewrite Hrun; try done.
  by rewrite show_canvas.
Qed.

Lemma polled_ok answer reduced a : assistant_ok a → assistant_ok (polled answer reduced a).
Proof.
  intros Ha. unfold polled. destruct (as_poll a) as [[]|] eqn:Ep, (cs_running (as_conv a)) as [r|] eqn:Er; try done.
  assert (assistant_ok (with_poll (Some pl_timer) a)) as Ht by (apply poll_ok; [by rewrite Ep|done]).
  destruct answer as [body|err]; [|destruct (gone err); [by apply failed_ok|done]].
  destruct (parseAssistJob body) as [job|]; [|by apply failed_ok].
  destruct (aj_state job); [done| |by apply failed_ok].
  apply done_ok; [|done]. unfold runs. rewrite Er. by apply bool_decide_eq_true.
Qed.

(** A run of Accept fails: nothing waits any more. *)
Lemma accept_failed_ok e a :
  conv_ok (as_conv a) → canvas_job (as_store a) = sp_jobId <$> cs_proposal (as_conv a) →
  cs_sending (as_conv a) = is_some (as_request a) → is_some (as_poll a) = is_some (cs_running (as_conv a)) →
  assistant_ok (accept_failed e a).
Proof. intros Hc Hv Hs Hp. by apply dispatch_ok. Qed.

(** Accept runs on: its proposal is on the canvas. *)
Lemma resume_ok now job p c a :
  cs_accepting (as_conv a) = true → conv_ok (as_conv a) →
  canvas_job (as_store a) = sp_jobId <$> cs_proposal (as_conv a) →
  cs_sending (as_conv a) = is_some (as_request a) → is_some (as_poll a) = is_some (cs_running (as_conv a)) →
  assistant_ok (resume_accept now job p c a).
Proof.
  intros Ha Hc Hv Hs Hp. unfold resume_accept. destruct c as [np rest m|m|e m].
  - split; simpl; try done. intros r [= <-]. exists np, rest, m. split; [done|]. apply om_get_set_eq.
  - destruct (acceptedGraph _ _ m) as [[e|g] k]; [by apply accept_failed_ok|].
    unfold take_over. apply toast_ok, outcome_ok. apply dispatch_ok; try done. simpl. apply replace_canvas.
  - by apply accept_failed_ok.
Qed.

Lemma accept_ok now a : assistant_ok a → assistant_ok (accept now a).
Proof.
  intros [Hc Hv Hs Ha Hp Hr]. unfold accept. destruct (cs_proposal (as_conv a)) as [p|] eqn:Ep; [|by split; rewrite ?Ep].
  destruct (cs_accepting (as_conv a)) eqn:Eac; [by split; rewrite ?Ep, ?Eac|].
  set (a1 := dispatch ca_acceptStart _).
  assert (conv_ok (as_conv a1)) as Hc1 by (apply reducer_ok; [|done]; simpl; by rewrite Ep).
  assert (is_some (as_poll a1) = is_some (cs_running (as_conv a1))) as Hp1 by by apply next_poll_ok.
  assert (canvas_job (as_store a1) = sp_jobId <$> cs_proposal (as_conv a1)) as Hv1 by (simpl; by rewrite Ep).
  destruct (voiceless _ _ _); [by apply accept_failed_ok|by apply resume_ok].
Qed.

Lemma created_ok answer now a : assistant_ok a → assistant_ok (created answer now a).
Proof.
  intros Hok. pose proof Hok as [Hc Hv Hs Ha Hp Hr]. unfold created. destruct (as_accept a) as [r|]; [|done].
  by apply resume_ok.
Qed.

Lemma discard_ok a : assistant_ok a → assistant_ok (discard a).
Proof.
  intros Hok. pose proof Hok as [Hc Hv Hs Ha Hp Hr]. unfold discard. destruct (cs_proposal (as_conv a)) as [p|]; [|done].
  destruct (cs_accepting (as_conv a)) eqn:Eac; [done|]. destruct (as_accept a) eqn:Ea; [done|].
  apply outcome_ok, dispatch_ok; simpl; rewrite ?Ea; try done. apply clear_canvas.
Qed.

Lemma reset_ok a : assistant_ok a → assistant_ok (reset a).
Proof.
  intros Hok. pose proof Hok as [Hc Hv Hs Ha Hp Hr]. unfold reset. case_match eqn:E; [done|].
  bool_hyps. destruct (cs_running (as_conv a)) eqn:Er; [done|]. destruct (cs_proposal (as_conv a)) eqn:Ep; [done|].
  assert (as_accept a = None) as Ea.
  { destruct (as_accept a); [|done]. destruct (cv_accepting _ Hc); [by rewrite Ha|done]. }
  apply text_ok, dispatch_ok; simpl; rewrite ?Ea, ?Er, ?Ep; try done. congruence.
Qed.

Lemma refine_ok x a : (x = ca_refine ∨ x = ca_cancelRefine) → assistant_ok a → assistant_ok (dispatch x a).
Proof.
  intros Hx [Hc Hv Hs Ha Hp Hr]. destruct Hx as [-> | ->]; apply dispatch_ok; simpl; try done;
    by destruct (cs_proposal (as_conv a)) eqn:E; simpl; rewrite ?E.
Qed.

Lemma handle_ok available e a : assistant_ok a → assistant_ok (handle available e a).
Proof.
  intros Ha. destruct e; cbn [handle].
  - by apply text_ok.
  - by apply voice_ok.
  - by apply send_ok.
  - by apply started_ok.
  - by apply tick_ok.
  - by apply polled_ok.
  - apply flow_ok; [apply reveal_canvas|done].
  - by apply accept_ok.
  - by apply created_ok.
  - by apply discard_ok.
  - apply refine_ok; [by left|done].
  - apply refine_ok; [by right|done].
  - by apply reset_ok.
  - unfold toast_undo. case_match; [|done]. apply flow_ok; [apply undo_canvas|done].
  - destruct (assistant_action x) eqn:E; [done|]. apply flow_ok; [by apply act_canvas|done].
Qed.

Lemma session_ok available store voice events :
  fs_proposal store = None → assistant_ok (session available store voice events).
Proof.
  intros Hs. assert (assistant_ok (initialAssistant store voice)) as H0'.
  { split; simpl; try done; [|unfold canvas_job; by rewrite Hs].
    split; simpl; try done; [constructor|by intros t ?%not_elem_of_nil]. }
  unfold session. revert H0'. generalize (initialAssistant store voice). clear.
  induction events as [|e l IH]; intros a Ha; [done|]. simpl. apply IH. by apply handle_ok.
Qed.

(** C13 Whatever a customer and the server do, the panel and the canvas
    agree: the proposal on the canvas is the one the panel asks about, it is
    the only turn that reads as shown, Refine is about it, at most one
    request is under way, a run of Accept waits for a message whose
    predecessors are on record, a running job is polled, turns are numbered
    apart, and a closed message box is explained. *)
Theorem assistant_invariant available store voice events :
  fs_proposal store = None →
  let a := session available store voice events in
  assistant_ok a
  ∧ canCompose (as_conv a)
    = negb (is_some (composeBlockedReason (as_conv a)))
      && negb (cs_sending (as_conv a) || is_some (cs_running (as_conv a))).
Proof.
  intros Hs. pose proof (session_ok available store voice events Hs) as Hok.
  split; [done|]. apply compose_explained, Hok.
Qed.

(** ** The draft *)

(** The draft and what autosave and undo keep about it. *)
Definition draft_state (s : FlowState) : FlowSnapshot * Z * FlowHistory * string :=
  (draft_of s, fs_changeSeq s, fs_history s, fs_name s).

(** The proposals Accept is about: the one on the canvas, or the one a run
    waits for. *)
Definition at_hand (a : Assistant) (p : AssistProposal) : Prop :=
  (∃ j, cs_proposal (as_conv a) = Some (Build_ShownProposal j p)) ∨ ∃ r, as_accept a = Some r ∧ ac_proposal r = p.

(** The draft is replaced by what Accept makes of [p], in one edit. *)
Definition taken (p : AssistProposal) (s s' : FlowState) : Prop :=
  ∃ now mapping g k, acceptedGraph (fs_drawn s) (ap_graph p) mapping = (inr g, k)
    ∧ s' = replaceDraft now (VObj g) (set_drawn k s).

Lemma show_draft job g instant s : draft_state (showProposal job g instant s) = draft_state s.
Proof.
  unfold showProposal. destruct (fromGraph _ _). unfold draft_state, draft_of, snapshotOf. simpl.
  do 4 f_equal. rewrite List.map_map. apply List.map_ext.
  intros x. unfold deselect. by destruct (fn_selected x) as [[]|].
Qed.

Lemma reveal_draft s : draft_state (revealNext s).1 = draft_state s.
Proof. unfold revealNext. by repeat case_match. Qed.

Lemma clear_draft s : draft_state (clearProposal s) = draft_state s.
Proof. unfold clearProposal. by case_match. Qed.

Lemma resume_draft now job p c a :
  draft_state (as_store (resume_accept now job p c a)) = draft_state (as_store a)
  ∨ taken p (as_store a) (as_store (resume_accept now job p c a)).
Proof.
  unfold resume_accept. destruct c as [np rest m|m|e m]; [by left| |by left].
  cbv zeta. cbn [as_store with_mappings].
  destruct (acceptedGraph (fs_drawn (as_store a)) (ap_graph p) m) as [[e|g] k] eqn:E; [by left|right].
  exists now, m, g, k. by split.
Qed.

(** C14 Nothing changes until the customer accepts: an event of the
    assistant leaves the draft, its undo history and the change counter that
    autosave watches alone, but for two.  An Accept that succeeds replaces
    the draft, in one edit, by the accepted graph of the proposal it was
    called on, and the Undo of its toast, only while that is the latest edit,
    takes that edit back. *)
Theorem draft_waits available e a :
  match e with ev_builder _ _ => False | _ => True end →
  let s := as_store a in let s' := as_store (handle available e a) in
  draft_state s' = draft_state s
  ∨ (∃ p, at_hand a p ∧ taken p s s')
  ∨ (∃ seq, e = ev_toast_undo seq ∧ seq ∈ as_toasts a ∧ fs_changeSeq s = seq ∧ s' = undo s).
Proof.
  intros He. destruct e as [text|v| |answer now|now|answer reduced| |now|answer now| | | | |seq|now x];
    cbn [handle]; try (by left); try done.
  - left. unfold send. by case_match.
  - left. unfold started, start_failed. destruct (as_request a); [|done].
    destruct answer as [r|err]; [destruct (started_job r); [done|]|]; by destruct (startErrorText _).
  - left. unfold tick. by repeat case_match.
  - left. unfold polled. destruct (as_poll a) as [[]|], (cs_running (as_conv a)); try done.
    destruct answer as [body|err]; [|by destruct (gone err)].
    destruct (parseAssistJob body) as [job|]; [|done]. destruct (aj_state job) as [|res|]; try done.
    destruct res; try done. apply show_draft.
  - left. apply reveal_draft.
  - unfold accept. destruct (cs_proposal (as_conv a)) as [[j p]|] eqn:Ep; [|by left].
    destruct (cs_accepting (as_conv a)); [by left|]. cbv zeta. destruct (voiceless _ _ _); [by left|].
    match goal with |- context [resume_accept now ?job ?q ?c ?b] => destruct (resume_draft now job q c b) as [E|E] end;
      [by left|right; left]. exists p. split; [left; eauto|exact E].
  - unfold created. destruct (as_accept a) as [r|] eqn:Er; [|by left].
    destruct (resume_draft now (ac_jobId r) (ac_proposal r) (create_answer (ac_creation r) answer) a) as [E|E];
      [by left|right; left]. exists (ac_proposal r). split; [right; eauto|exact E].
  - left. unfold discard. destruct (cs_proposal (as_conv a)); [|done]. destruct (cs_accepting (as_conv a)); [done|].
    apply clear_draft.
  - left. unfold reset. by case_match.
  - unfold toast_undo. destruct (includes (as_toasts a) seq && _) eqn:E; [|by left]. bool_hyps.
    right. right. exists seq. split_and!; try done. by apply includes_true.
Qed.

(** ** Jobs end *)

(** C28 A running job is always being polled, and it ends: once it is 300
    seconds old, the poll's timer closes it with an error turn; an answered
    poll closes it or sets the timer again; and any answer but a job still
    running or a fault of the network closes it at once. *)
Theorem job_ends a run :
  assistant_ok a → cs_running (as_conv a) = Some run →
  (as_poll a = Some pl_timer ∧
    ∀ now, POLL_LIMIT_MS ≤ now - rj_startedAt run →
      let c := as_conv (tick now a) in
      cs_running c = None ∧ ∃ i, cs_turns c = cs_turns (as_conv a) ++ [Build_Turn i (nt_error failed_text)])
  ∨ (as_poll a = Some pl_asked ∧
    ∀ answer reduced, let a' := polled answer reduced a in
      cs_running (as_conv a') = None
      ∨ (cs_running (as_conv a') = Some run ∧ as_poll a' = Some pl_timer
         ∧ match answer with
           | inl body => ∃ j, parseAssistJob body = Some j ∧ aj_state j = js_running
           | inr err => gone err = false
           end)).
Proof.
  intros [Hc Hv Hs Ha Hp Hr] Erun. rewrite Erun in Hp.
  assert (runs (as_conv a) (rj_jobId run) = true) as Hj by (unfold runs; rewrite Erun; by apply bool_decide_eq_true).
  assert (∀ text b, as_store b = as_store b → as_conv b = as_conv a →
    cs_running (as_conv (dispatch (ca_failed (rj_jobId run) text) b)) = None) as Hf.
  { intros text b _ Eb. simpl. rewrite Eb, Hj. done. }
  destruct (as_poll a) as [[]|] eqn:Ep; [left|right|done]; (split; [done|]).
  - intros now Hnow. unfold tick. rewrite Ep, Erun. destruct (POLL_LIMIT_MS <=? now - rj_startedAt run) eqn:E; [|lia].
    simpl. rewrite Hj. simpl. eauto.
  - intros answer reduced. unfold polled. rewrite Ep, Erun. destruct answer as [body|err].
    + destruct (parseAssistJob body) as [j|] eqn:Ej; [|left; by apply Hf].
      destruct (aj_state j) as [|r|] eqn:Es; [right|left|left; by apply Hf].
      * simpl. rewrite Erun. eauto.
      * destruct r; simpl; by rewrite Hj.
    + destruct (gone err) eqn:Eg; [left; by apply Hf|right]. simpl. rewrite Erun. eauto.
Qed.
End hook.

(** ** A proposal *)

Definition raw_block (id type : string) (config : obj) : value :=
  VObj [("id", VStr id); ("type", VStr type); ("position", VObj [("x", vint 0); ("y", vint 0)]);
        ("data", VObj [("config", VObj config)])].

Definition raw_edge (id source handle target : string) : value :=
  VObj [("id", VStr id); ("source", VStr source); ("sourceHandle", VStr handle); ("target", VStr target)].

(** Start, a message to be made, hang up. *)
Definition sample_graph : obj :=
  [("schemaVersion", vint 1);
   ("nodes", VArr [raw_block "start" "entry" []; raw_block "hi" "play" [("prompts", VArr [vint (-1); vint 7])];
                   raw_block "bye" "hangup" []]);
   ("edges", VArr [raw_edge "e1" "start" "next" "hi"; raw_edge "e2" "hi" "next" "bye"]);
   ("viewport", VObj [("x", vint 0); ("y", vint 0); ("zoom", vint 1)])].

Definition sample_new_prompts : value :=
  VArr [VObj [("placeholder_id", vint (-1)); ("name", VStr "Welcome"); ("text", VStr "Hello.")]].

Definition proposal_body (job summary : string) : value :=
  VObj [("job_id", VStr job); ("status", VStr "done");
        ("result", VObj [("kind", VStr "proposal"); ("draft_graph", VObj sample_graph);
                         ("new_prompts", sample_new_prompts); ("summary", VStr summary)])].

Definition start_answer (job : string) : value := VObj [("job_id", VStr job); ("conversation_id", VStr "c1")].

Definition sample_proposal : AssistProposal :=
  {| ap_graph := sample_graph; ap_new_prompts := newPrompts sample_new_prompts; ap_summary := "A greeting.";
     ap_assumptions := []; ap_issues := []; ap_warnings := [] |}.

Lemma parseAssistJob_ok_witness :
  ∃ j, parseAssistJob (proposal_body "j1" "A greeting.") = Some j ∧ aj_state j = js_done (ar_proposal sample_proposal)
       ∧ job_ok j.
Proof.
  eexists. split; [vm_compute; reflexivity|]. split; [by vm_compute|].
  apply (parseAssistJob_ok (proposal_body "j1" "A greeting.")). vm_compute. reflexivity.
Defined.

(** A first try fails after nothing, the second makes the message. *)
Lemma createMissingPrompts_resumes_witness :
  let c := createMissingPrompts sample_proposal [] [inl 42] in
  c = cr_done [(-1, 42)]
  ∧ ∃ made rest, ap_new_prompts sample_proposal = List.map fst made ++ rest
    ∧ cr_mapping c = [] ++ List.map made_entry made
    ∧ List.map (λ x, inl x.2) made `prefix_of` ([inl 42] : list (Z + thrown))
    ∧ promptsToCreate sample_proposal (cr_mapping c) = Some rest ∧ stands c rest.
Proof.
  split; [by vm_compute|].
  apply (createMissingPrompts_resumes sample_proposal [] [inl 42] (ap_new_prompts sample_proposal)).
  - apply (bool_decide_unpack _). by vm_compute.
  - by vm_compute.
Defined.

Lemma acceptedGraph_spec_witness :
  ∃ g', (@acceptedGraph numerals 0 sample_graph [(-1, 42)]).1 = inr g' ∧ get "viewport" g' = VUndef
        ∧ placeholderIds g' = Some [].
Proof.
  assert (wf_value (VObj sample_graph)) as Hw by (unfold sample_graph, raw_block, raw_edge; wf_literal).
  assert (all_prompts sample_graph = Some [vint (-1); vint 7]) as El by (by vm_compute).
  assert (VNum NaN ∉ [vint (-1); vint 7]) as Hn by (apply (bool_decide_unpack _); by vm_compute).
  assert (placeholderIds sample_graph = Some [num_of_Z (-1)]) as Eu by (by vm_compute).
  pose proof (@acceptedGraph_spec numerals [(-1, 42)] 0 sample_graph _ _ Hw El Hn Eu) as Hs.
  destruct ((@acceptedGraph numerals 0 sample_graph [(-1, 42)]).1) as [e|g'] eqn:E; [by vm_compute in E|].
  destruct Hs as (_ & _ & Hv & _ & _ & _ & Hp). exists g'. split; [done|]. split; [done|].
  apply Hp. by intros x ->%list_elem_of_singleton.
Defined.

(** ** A session *)

Definition run_events : list event → Assistant := @session numerals basic_flow true start_state "en-1".

(** Asked, started, and the proposal drawn. *)
Definition ask (text job : string) (now : Z) : list event :=
  [ev_type text; ev_send; ev_started (inl (start_answer job)) now; ev_tick (now + 1500)].

Definition proposed : list event :=
  ask "Greet callers" "j1" 1000 ++ [ev_polled (inl (proposal_body "j1" "A greeting.")) true].

(** Accepted, once the second try made the message. *)
Definition accepting : list event := proposed ++ [ev_accept 4000; ev_created (inr other_error) 4100; ev_accept 4200].

Definition proposal_states (a : Assistant) : list (string * ProposalTurnState) :=
  omap (λ t, match tn_body t with nt_proposal j _ st => Some (j, st) | _ => None end) (cs_turns (as_conv a)).

Lemma assistant_invariant_witness :
  let a := run_events (accepting ++ [ev_created (inl 42) 4300]) in
  fs_proposal start_state = None ∧ proposal_states a = [("j1", ts_accepted)] ∧ canCompose (as_conv a) = true
  ∧ assistant_ok a.
Proof.
  cbv zeta. assert (fs_proposal start_state = None) as Hs by (by vm_compute).
  split; [done|]. split; [by vm_compute|]. split; [by vm_compute|].
  apply (proj1 (@assistant_invariant numerals basic_flow true start_state "en-1" (accepting ++ [ev_created (inl 42) 4300]) Hs)).
Defined.

(** The answer that completes Accept: the draft holds the message made. *)
Lemma draft_waits_witness :
  let a := run_events accepting in
  let e := ev_created (inl 42) 4300 in
  let s := as_store a in let s' := as_store (@handle numerals basic_flow true e a) in
  fs_changeSeq s' = fs_changeSeq s + 1
  ∧ (draft_state s' = draft_state s
     ∨ (∃ p, at_hand a p ∧ @taken numerals p s s')
     ∨ (∃ seq, e = ev_toast_undo seq ∧ seq ∈ as_toasts a ∧ fs_changeSeq s = seq ∧ s' = Store.undo s)).
Proof.
  cbv zeta. split; [by vm_compute|].
  apply (@draft_waits numerals basic_flow true (ev_created (inl 42) 4300) (run_events accepting)). exact I.
Defined.

Lemma job_ends_witness :
  let a := run_events (ask "Greet callers" "j1" 1000) in
  let run := Build_RunningJob "j1" 1000 in
  cs_running (as_conv a) = Some run
  ∧ (as_poll a = Some pl_timer ∧
      (∀ now, POLL_LIMIT_MS ≤ now - rj_startedAt run →
        let c := as_conv (tick now a) in
        cs_running c = None ∧ ∃ i, cs_turns c = cs_turns (as_conv a) ++ [Build_Turn i (nt_error failed_text)])
    ∨ as_poll a = Some pl_asked ∧
      (∀ answer reduced, let a' := @polled numerals answer reduced a in
        cs_running (as_conv a') = None
        ∨ (cs_running (as_conv a') = Some run ∧ as_poll a' = Some pl_timer
           ∧ match answer with
             | inl body => ∃ j, parseAssistJob body = Some j ∧ aj_state j = js_running
             | inr err => gone err = false
             end))).
Proof.
  cbv zeta. assert (cs_running (as_conv (run_events (ask "Greet callers" "j1" 1000))) = Some (Build_RunningJob "j1" 1000)) as Hr
    by (by vm_compute).
  split; [exact Hr|].
  apply (@job_ends numerals (run_events (ask "Greet callers" "j1" 1000)) (Build_RunningJob "j1" 1000)); [|exact Hr].
  apply session_ok. by vm_compute.
Defined.

(** ** A proposal that arrives while Accept waits *)

(** Refine is asked for, then the first proposal is accepted after all: while
    its message is made, the refined proposal arrives. *)
Definition race : list event :=
  proposed ++ [ev_refine] ++ ask "And say thanks" "j2" 5000
  ++ [ev_accept 6000; ev_polled (inl (proposal_body "j2" "A greeting and thanks.")) true; ev_created (inl 42) 7000].

(** The draft is made of the first proposal, and its outcome is posted; the
    turn that reads Accepted is the second one's, whose proposal is gone from
    the canvas without an outcome. *)
Lemma accept_marks_the_wrong_proposal :
  let a := run_events race in
  proposal_states a = [("j1", ts_replaced); ("j2", ts_accepted)]
  ∧ as_outcomes a = [("j1", ts_accepted)] ∧ canvas_job (as_store a) = None.
Proof. by vm_compute. Qed.
