(* ===== verification/Double.v ===== *)
(** * Doubles

    The arithmetic of JavaScript numbers on values that are not integers:
    the exact result, a rational, rounded to 53 significant bits, ties to
    even.  Subnormal results and results out of range, which the durations
    this is used for do not have, are not treated. *)
From S2P Require Import Prelude JsString Format.
From Stdlib Require Import QArith Qround Qpower Lqa.

Local Open Scope Q_scope.

Definition pow2 (k : Z) : Q := Qpower 2 k.

(** The nearest integer, a half going to the even one. *)
Definition half_even (q : Q) : Z :=
  let f := Qfloor q in
  match ((q - inject_Z f) ?= (1 # 2))%Q with
  | Lt => f
  | Gt => (f + 1)%Z
  | Eq => if Z.even f then f else (f + 1)%Z
  end.

(** The exponent of a positive rational: [pow2 e <= q < pow2 (e + 1)]. *)
Definition exponent (q : Q) : Z :=
  let e := (Z.log2 (Qnum q) - Z.log2 (Zpos (Qden q)))%Z in
  if Qle_bool (pow2 e) q then e else (e - 1)%Z.

Definition rnd_pos (q : Q) : Q :=
  let e := (exponent q - 52)%Z in inject_Z (half_even (q * pow2 (- e))) * pow2 e.

Definition rnd (q : Q) : Q :=
  match q ?= 0 with
  | Gt => Qred (rnd_pos q)
  | Lt => Qred (- rnd_pos (- q))
  | Eq => 0
  end.

(** [a - b] and [a / b] on doubles. *)
Definition sub_d (a b : Q) : Q := rnd (a - b).
Definition div_d (a b : Q) : Q := rnd (a / b).

(** [Math.round(q)] *)
Definition round_d (q : Q) : Z := Qfloor (q + (1 # 2))%Q.

(** [q.toFixed(1)] for a number that is not negative: the nearest tenth, a
    half going up. *)
Definition toFixed1 (q : Q) : string :=
  let n := Qfloor (q * 10 + (1 # 2))%Q in
  (print_int (n / 10) +:+ "." +:+ print_int (n mod 10))%string.

Example rnd_third : rnd (1 # 3) == (6004799503160661 # 18014398509481984).
Proof. reflexivity. Qed.
Example rnd_ties_to_even : rnd (9007199254740993 # 1) == 9007199254740992 # 1.
Proof. reflexivity. Qed.

(** ** Rounding keeps order *)

Lemma pow2_pos k : 0 < pow2 k.
Proof. apply Qpower_0_lt. reflexivity. Qed.

Lemma pow2_plus a b : pow2 (a + b) == pow2 a * pow2 b.
Proof. apply Qpower_plus. discriminate. Qed.

Lemma pow2_cancel k : pow2 (- k) * pow2 k == 1.
Proof. rewrite <-pow2_plus. replace (- k + k)%Z with 0%Z by lia. reflexivity. Qed.

Lemma pow2_Z k : (0 ≤ k)%Z → pow2 k == inject_Z (2 ^ k).
Proof. intros H. unfold pow2. rewrite Zpower_Qpower by lia. reflexivity. Qed.

Lemma pow2_le a b : (a ≤ b)%Z → pow2 a <= pow2 b.
Proof.
  intros H. replace b with ((b - a) + a)%Z by lia. rewrite pow2_plus.
  rewrite (pow2_Z (b - a)) by lia.
  assert (1 <= inject_Z (2 ^ (b - a))).
  { change 1 with (inject_Z 1). rewrite <-Zle_Qle.
    assert (0 < 2 ^ (b - a))%Z by (apply Z.pow_pos_nonneg; lia). lia. }
  pose proof (pow2_pos a). rewrite <-(Qmult_1_l (pow2 a)) at 1.
  apply Qmult_le_compat_r; [done|]. apply Qlt_le_weak; done.
Qed.

Lemma half_even_spec q : (Qfloor q ≤ half_even q ≤ Qfloor q + 1)%Z.
Proof. unfold half_even. destruct (_ ?= _); [destruct (Z.even _)|..]; lia. Qed.

Lemma half_even_Z z : half_even (inject_Z z) = z.
Proof.
  unfold half_even. rewrite Qfloor_Z.
  destruct (_ ?= _) eqn:E; [|done|].
  - apply Qeq_alt in E. exfalso. lra.
  - apply Qgt_alt in E. exfalso. lra.
Qed.

#[export] Instance Qfloor_proper : Proper (Qeq ==> eq) Qfloor.
Proof. intros a b E. apply Qfloor_comp. done. Qed.

#[export] Instance half_even_proper : Proper (Qeq ==> eq) half_even.
Proof.
  intros a b E. unfold half_even. rewrite (Qfloor_comp _ _ E).
  erewrite (Qcompare_comp (a - _)); [|rewrite E; reflexivity|reflexivity]. done.
Qed.

Lemma half_even_mono p q : p <= q → (half_even p ≤ half_even q)%Z.
Proof.
  intros H. pose proof (half_even_spec p) as Hp. pose proof (half_even_spec q) as Hq.
  pose proof (Qfloor_resp_le _ _ H) as Hf.
  destruct (decide (Qfloor p = Qfloor q)) as [E|]; [|lia].
  unfold half_even. rewrite E.
  destruct (Qcompare_spec (p - inject_Z (Qfloor q)) (1 # 2));
    destruct (Qcompare_spec (q - inject_Z (Qfloor q)) (1 # 2));
    try (exfalso; lra); try destruct (Z.even _); lia.
Qed.

Lemma exponent_spec q : 0 < q → pow2 (exponent q) <= q ∧ q < pow2 (exponent q + 1).
Proof.
  destruct q as [n d]. intros Hq. unfold Qlt in Hq. simpl in Hq.
  assert (Hn : (0 < n)%Z) by lia.
  pose proof (Z.log2_spec n Hn) as [Hn1 Hn2]. pose proof (Z.log2_spec (Zpos d) eq_refl) as [Hd1 Hd2].
  pose proof (Z.log2_nonneg n). pose proof (Z.log2_nonneg (Zpos d)).
  set (a := Z.log2 n) in *. set (b := Z.log2 (Zpos d)) in *.
  assert (Hq' : n # d == inject_Z n / inject_Z (Zpos d)) by (unfold Qeq, Qdiv, Qinv, Qmult; simpl; lia).
  assert (Hlo : pow2 (a - b - 1) <= n # d).
  { rewrite Hq'. apply Qle_shift_div_l; [done|].
    apply Qle_trans with (pow2 (a - b - 1) * pow2 (Z.succ b)).
    - rewrite !(Qmult_comm (pow2 (a - b - 1))). apply Qmult_le_compat_r; [|apply Qlt_le_weak, pow2_pos].
      rewrite pow2_Z by lia. rewrite <-Zle_Qle. lia.
    - rewrite <-pow2_plus. replace (a - b - 1 + Z.succ b)%Z with a by lia.
      rewrite pow2_Z by lia. rewrite <-Zle_Qle. lia. }
  assert (Hhi : n # d < pow2 (a - b + 1)).
  { rewrite Hq'. apply Qlt_shift_div_r; [done|].
    apply Qlt_le_trans with (pow2 (Z.succ a)).
    - rewrite pow2_Z by lia. rewrite <-Zlt_Qlt. lia.
    - replace (Z.succ a) with ((a - b + 1) + b)%Z by lia. rewrite pow2_plus, (pow2_Z b) by lia.
      rewrite !(Qmult_comm (pow2 (a - b + 1))). apply Qmult_le_compat_r; [|apply Qlt_le_weak, pow2_pos].
      rewrite <-Zle_Qle. lia. }
  unfold exponent. cbn [Qnum Qden]. fold a b.
  destruct (Qle_bool (pow2 (a - b)) (n # d)) eqn:E.
  - apply Qle_bool_iff in E. split; assumption.
  - split; [done|]. replace (a - b - 1 + 1)%Z with (a - b)%Z by lia.
    apply Qnot_le_lt. intros H'. apply Qle_bool_iff in H'. congruence.
Qed.

(** The rounded value stays within its binade. *)
Lemma rnd_pos_bounds q : 0 < q → pow2 (exponent q) <= rnd_pos q ∧ rnd_pos q <= pow2 (exponent q + 1).
Proof.
  intros Hq. destruct (exponent_spec q Hq) as [H1 H2]. unfold rnd_pos.
  set (e := (exponent q - 52)%Z). pose proof (pow2_pos e). pose proof (pow2_pos (- e)).
  assert (E1 : pow2 (exponent q) == inject_Z (2 ^ 52) * pow2 e).
  { replace (exponent q) with (52 + e)%Z by lia. rewrite pow2_plus, (pow2_Z 52) by lia. reflexivity. }
  assert (E2 : pow2 (exponent q + 1) == inject_Z (2 ^ 53) * pow2 e).
  { replace (exponent q + 1)%Z with (53 + e)%Z by lia. rewrite pow2_plus, (pow2_Z 53) by lia. reflexivity. }
  rewrite E1, E2. split; (apply Qmult_le_compat_r; [|apply Qlt_le_weak; done]); rewrite <-Zle_Qle.
  - rewrite <-(half_even_Z (2 ^ 52)). apply half_even_mono.
    apply Qle_trans with (pow2 (exponent q) * pow2 (- e)).
    + rewrite E1, <-Qmult_assoc, (Qmult_comm (pow2 e)), pow2_cancel, Qmult_1_r. apply Qle_refl.
    + apply Qmult_le_compat_r; [done|]. apply Qlt_le_weak; done.
  - rewrite <-(half_even_Z (2 ^ 53)). apply half_even_mono.
    apply Qle_trans with (pow2 (exponent q + 1) * pow2 (- e)).
    + apply Qmult_le_compat_r; apply Qlt_le_weak; done.
    + rewrite E2, <-Qmult_assoc, (Qmult_comm (pow2 e)), pow2_cancel, Qmult_1_r. apply Qle_refl.
Qed.

Lemma pow2_lt_inv a b : pow2 a < pow2 b → (a < b)%Z.
Proof.
  intros H. destruct (decide (b ≤ a)%Z) as [Hba|]; [|lia].
  exfalso. apply (Qlt_not_le _ _ H), pow2_le. done.
Qed.

Lemma rnd_pos_mono p q : 0 < p → p <= q → rnd_pos p <= rnd_pos q.
Proof.
  intros Hp Hpq. assert (Hq : 0 < q) by lra.
  destruct (exponent_spec p Hp) as [P1 P2]. destruct (exponent_spec q Hq) as [Q1 Q2].
  assert (exponent p < exponent q + 1)%Z.
  { apply pow2_lt_inv. lra. }
  destruct (decide (exponent p = exponent q)) as [E|].
  - unfold rnd_pos. rewrite E. apply Qmult_le_compat_r; [|apply Qlt_le_weak, pow2_pos].
    rewrite <-Zle_Qle. apply half_even_mono, Qmult_le_compat_r; [done|]. apply Qlt_le_weak, pow2_pos.
  - apply Qle_trans with (pow2 (exponent p + 1)); [apply rnd_pos_bounds; done|].
    apply Qle_trans with (pow2 (exponent q)); [apply pow2_le; lia|apply rnd_pos_bounds; done].
Qed.

Lemma rnd_pos_gt0 q : 0 < q → 0 < rnd_pos q.
Proof. intros H. apply Qlt_le_trans with (pow2 (exponent q)); [apply pow2_pos|apply rnd_pos_bounds; done]. Qed.

Lemma rnd_mono p q : p <= q → rnd p <= rnd q.
Proof.
  intros H. unfold rnd.
  destruct (Qcompare_spec p 0), (Qcompare_spec q 0); rewrite ?Qred_correct; try (exfalso; lra); try apply Qle_refl.
  - apply Qlt_le_weak, rnd_pos_gt0. done.
  - pose proof (rnd_pos_gt0 (- p)). lra.
  - pose proof (rnd_pos_mono (- q) (- p)). lra.
  - pose proof (rnd_pos_gt0 (- p)). pose proof (rnd_pos_gt0 q). lra.
  - apply rnd_pos_mono; done.
Qed.
