(* ===== verification/SipText.v ===== *)
(** * SIP headers ([components/sip-ladder/sipUtils.ts], the header parsers)

    Header lines, parameters, addresses and Via values of a raw SIP message.
    Case mapping is that of ASCII. *)
From S2P Require Import Prelude JsString Format LadderOrder.

Local Open Scope string_scope.
Local Open Scope Z_scope.
Local Open Scope list_scope.

(** ** Strings *)

Definition CR : ascii := ch 13.
Definition LF : ascii := ch 10.
Definition TAB : ascii := ch 9.
Definition SPACE : ascii := " ".

(** [toLowerCase] *)
Definition lower_char (a : ascii) : ascii :=
  if (65 <=? code a) && (code a <=? 90) then ascii_of_N (N_of_ascii a + 32) else a.
Fixpoint lower (s : string) : string :=
  match s with "" => "" | String a s => String (lower_char a) (lower s) end.

(** What comes before and after the first [c]: [indexOf] and two [slice]s. *)
Fixpoint cut (c : ascii) (s : string) : option (string * string) :=
  match s with
  | "" => None
  | String a s =>
      if a ==? c then Some ("", s)
      else match cut c s with Some (b, r) => Some (String a b, r) | None => None end
  end.

(** The same at the last [c]. *)
Fixpoint cut_last (c : ascii) (s : string) : option (string * string) :=
  match s with
  | "" => None
  | String a s =>
      match cut_last c s with
      | Some (b, r) => Some (String a b, r)
      | None => if a ==? c then Some ("", s) else None
      end
  end.

(** The same at the first occurrence of [p]. *)
Fixpoint cut_at (p : string) (s : string) : option (string * string) :=
  if starts_with p s then Some ("", slice_from (String.length p) s)
  else match s with
       | "" => None
       | String a s => match cut_at p s with Some (b, r) => Some (String a b, r) | None => None end
       end.

(** [s.split(/\r?\n/)] *)
Definition push_char (a : ascii) (l : list string) : list string :=
  match l with x :: l => String a x :: l | [] => [String a ""] end.

Fixpoint split_lines (s : string) : list string :=
  match s with
  | "" => [""]
  | String a s1 =>
      if a ==? LF then "" :: split_lines s1
      else if a ==? CR then
        match s1 with
        | String b s2 => if b ==? LF then "" :: split_lines s2 else push_char a (split_lines s1)
        | "" => push_char a [""]
        end
      else push_char a (split_lines s1)
  end.

(** [s.split(/\s+/)], [run] telling that white space came just before. *)
Fixpoint split_ws (run : bool) (s : string) : list string :=
  let sep rest := if run then rest else "" :: rest in
  match s with
  | "" => [""]
  | String a s1 =>
      if ws1 a then sep (split_ws true s1)
      else match s1 with
           | String b s2 =>
               if ws2 a b then sep (split_ws true s2)
               else match s2 with
                    | String c s3 => if ws3 a b c then sep (split_ws true s3) else push_char a (split_ws false s1)
                    | "" => push_char a (split_ws false s1)
                    end
           | "" => push_char a (split_ws false s1)
           end
  end.
Definition words (s : string) : list string := split_ws false s.

(** [/^\d+$/] *)
Definition all_digits (s : string) : bool := negb (s ==? "") && sforall is_digit s.

(** [s[0]] is white space, and what follows the white space. *)
Definition skip_ws (s : string) : option string := if ltrim s ==? s then None else Some (ltrim s).

(** ** Header lines *)

Definition compact_of (lowerName : string) : option string :=
  om_get lowerName
    [("call-id", "i"); ("contact", "m"); ("content-encoding", "e"); ("content-length", "l"); ("content-type", "c");
     ("from", "f"); ("subject", "s"); ("supported", "k"); ("to", "t"); ("via", "v"); ("allow-events", "u");
     ("event", "o"); ("refer-to", "r")].

(** [getAllHeaders] knows two of them. *)
Definition compact_of_list (lowerName : string) : option string := om_get lowerName [("via", "v"); ("contact", "m")].

(** The value of a line that bears the name, or its compact form. *)
Definition header_line (lowerName : string) (compact : option string) (line : string) : option string :=
  match cut ":" line with
  | Some (name, value) =>
      let name := lower (trim name) in
      if (name ==? lowerName) || (Some name ==? compact) then Some (trim value) else None
  | None => None
  end.

Definition is_continuation (line : string) : bool := starts_with " " line || starts_with (String TAB "") line.

(** [value] with the continuation lines after it. *)
Fixpoint continued (value : string) (lines : list string) : string :=
  match lines with
  | line :: lines => if is_continuation line then continued (value +:+ " " +:+ trim line) lines else value
  | [] => value
  end.

Fixpoint first_header (lowerName : string) (compact : option string) (lines : list string) : string :=
  match lines with
  | [] => ""
  | line :: lines =>
      match header_line lowerName compact line with
      | Some value => continued value lines
      | None => first_header lowerName compact lines
      end
  end.

Definition getHeader (raw name : string) : string :=
  let lowerName := lower name in first_header lowerName (compact_of lowerName) (split_lines raw).

(** The loop of [splitHeaderValues]; [prev] is the character before. *)
Record splitting := {
  sv_results : list string;
  sv_depth : Z;
  sv_inQuote : bool;
  sv_current : string;
  sv_prev : ascii;
}.

Definition flush_current (results : list string) (current : string) : list string :=
  let trimmed := trim current in if trimmed ==? "" then results else results ++ [trimmed].

Definition split_step (st : splitting) (c : ascii) : splitting :=
  let grown := sv_current st +:+ String c "" in
  if (c ==? QUOT) && (sv_prev st !=? "\"%char) then
    Build_splitting (sv_results st) (sv_depth st) (negb (sv_inQuote st)) grown c
  else if negb (sv_inQuote st) && (c ==? "<"%char) then
    Build_splitting (sv_results st) (sv_depth st + 1) (sv_inQuote st) grown c
  else if negb (sv_inQuote st) && (c ==? ">"%char) then
    Build_splitting (sv_results st) (sv_depth st - 1) (sv_inQuote st) grown c
  else if negb (sv_inQuote st) && (sv_depth st =? 0) && (c ==? ","%char) then
    Build_splitting (flush_current (sv_results st) (sv_current st)) (sv_depth st) (sv_inQuote st) "" c
  else Build_splitting (sv_results st) (sv_depth st) (sv_inQuote st) grown c.

Fixpoint split_run (st : splitting) (value : string) : splitting :=
  match value with "" => st | String c value => split_run (split_step st c) value end.

(** At the start there is no character before, which is no backslash. *)
Definition splitHeaderValues (value : string) : list string :=
  let st := split_run (Build_splitting [] 0 false "" SPACE) value in flush_current (sv_results st) (sv_current st).

Fixpoint all_headers (lowerName : string) (compact : option string) (lines : list string) : list string :=
  match lines with
  | [] => []
  | line :: lines =>
      match header_line lowerName compact line with
      | Some value =>
          let value := continued value lines in
          (if lowerName ==? "contact" then [value] else splitHeaderValues value) ++ all_headers lowerName compact lines
      | None => all_headers lowerName compact lines
      end
  end.

Definition getAllHeaders (raw name : string) : list string :=
  let lowerName := lower name in all_headers lowerName (compact_of_list lowerName) (split_lines raw).

(** ** Parameters and addresses *)

(** [val.slice(1, -1)] of a quoted value. *)
Definition unquote (val : string) : string :=
  if starts_with (String QUOT "") val && starts_with (String QUOT "") (srev val)
  then stake (String.length val - 2) (slice_from 1 val) else val.

(** Up to the first [;], else the first [,], else the first space. *)
Definition param_end (s : string) : string :=
  match cut ";" s with
  | Some (v, _) => v
  | None => match cut "," s with
            | Some (v, _) => v
            | None => match cut SPACE s with Some (v, _) => v | None => s end
            end
  end.

Definition extractParam (params name : string) : string :=
  match cut_at (lower name +:+ "=") (lower params) with
  | None => ""
  | Some (before, _) =>
      let start := (String.length before + String.length name + 1)%nat in
      unquote (trim (param_end (slice_from start params)))
  end.

(** [/<([^>]+)>/] *)
Fixpoint in_angles (s : string) : option string :=
  match s with
  | "" => None
  | String a s =>
      if a ==? "<"%char then
        match cut ">" s with
        | Some (uri, _) => if uri ==? "" then in_angles s else Some uri
        | None => in_angles s
        end
      else in_angles s
  end.

Definition has_scheme (s : string) : bool := starts_with "sip:" s || starts_with "sips:" s || starts_with "tel:" s.

Definition extractUri (headerValue : string) : string :=
  match in_angles headerValue with
  | Some uri => uri
  | None =>
      match cut ";" headerValue with
      | Some (before, _) =>
          if (before !=? "") && has_scheme (trim before) then trim before else trim headerValue
      | None => trim headerValue
      end
  end.

(** A name in quotes at the start, white space, and an angle bracket. *)
Definition quoted_name (s : string) : option string :=
  match s with
  | String q s =>
      if q ==? QUOT then
        match cut QUOT s with
        | Some (name, rest) => if starts_with "<" (ltrim rest) then Some name else None
        | None => None
        end
      else None
  | "" => None
  end.

Definition extractDisplayName (headerValue : string) : string :=
  match quoted_name headerValue with
  | Some name => name
  | None =>
      match cut "<" headerValue with
      | Some (before, _) =>
          let name := trim before in
          if starts_with "sip:" name || starts_with "sips:" name then "" else name
      | None => ""
      end
  end.

Definition drop_prefix (p s : string) : string := if starts_with p s then slice_from (String.length p) s else s.

(** [.replace(/^sips?:/, '').replace(/^tel:/, '')] *)
Definition drop_scheme (uri : string) : string :=
  drop_prefix "tel:" (if starts_with "sips:" uri then drop_prefix "sips:" uri else drop_prefix "sip:" uri).

Definition after_at (s : string) : string := match cut "@" s with Some (_, r) => r | None => s end.
Definition before_semi (s : string) : string := match cut ";" s with Some (b, _) => b | None => s end.

(** [host:port], the port being digits. *)
Definition split_port (s : string) : string * string :=
  match cut_last ":" s with
  | Some (host, port) => if all_digits port then (host, port) else (s, "")
  | None => (s, "")
  end.

Definition extractHostPort (uri : string) : string * string :=
  let cleaned := before_semi (after_at (drop_scheme uri)) in
  match cleaned with
  | String "["%char rest =>
      match cut "]" rest with
      | Some (host, after) => (host, match cut ":" after with Some (_, port) => port | None => "" end)
      | None => split_port cleaned
      end
  | _ => split_port cleaned
  end.

(** ** Via *)

Record ViaInfo := {
  vi_protocol : string;
  vi_transport : string;
  vi_host : string;
  vi_port : string;
  vi_branch : string;
  vi_received : string;
  vi_rport : string;
  vi_raw : string;
}.

Definition version_char (a : ascii) : bool := is_digit a || (a ==? "."%char).

(** The longest prefix of characters in a class, and the rest. *)
Fixpoint span (f : ascii → bool) (s : string) : string * string :=
  match s with
  | "" => ("", "")
  | String a s' => if f a then let '(p, r) := span f s' in (String a p, r) else ("", s)
  end.

(** [/^SIP\/[\d.]+/]: the version, and the rest. *)
Definition sip_version (s : string) : option (string * string) :=
  if starts_with "SIP/" s then
    let '(v, rest) := span version_char (slice_from 4 s) in
    if v ==? "" then None else Some ("SIP/" +:+ v, rest)
  else None.

(** The same ignoring case, as the Via expression has it. *)
Definition sip_version_any_case (s : string) : option (string * string) :=
  if starts_with "sip/" (lower s) then
    let '(v, rest) := span version_char (slice_from 4 s) in
    if v ==? "" then None else Some (stake 4 s +:+ v, rest)
  else None.

Definition TRANSPORTS : list string := ["udp"; "tcp"; "tls"; "wss"; "ws"; "sctp"].

(** [(UDP|TCP|TLS|WSS?|SCTP)], then what [after] asks for. *)
Fixpoint find_transport {A} (after : string → option A) (s : string) (l : list string) : option (string * A) :=
  match l with
  | [] => None
  | t :: l =>
      if starts_with t (lower s) then
        match after (slice_from (String.length t) s) with
        | Some r => Some (stake (String.length t) s, r)
        | None => find_transport after s l
        end
      else find_transport after s l
  end.

(** [protocolMatch]: protocol, transport, and what follows the white space. *)
Definition via_protocol (raw : string) : option (string * string * string) :=
  match sip_version_any_case raw with
  | Some (protocol, String "/"%char rest) =>
      match find_transport skip_ws rest TRANSPORTS with
      | Some (transport, rest) => Some (protocol, upper transport, rest)
      | None => None
      end
  | _ => None
  end.

(** Host and port of a Via: after brackets the port need not be digits. *)
Definition via_host_port (s : string) : string * string :=
  match s with
  | String "["%char rest =>
      match cut "]" rest with
      | Some (host, after) => (host, match after with String ":"%char port => port | _ => "" end)
      | None => (s, "")
      end
  | _ => split_port s
  end.

(** [;rport], with a value or as a flag. *)
Definition via_rport (params : string) : string :=
  match cut_at "rport" (lower params) with
  | None => ""
  | Some (before, _) =>
      match slice_from (String.length before + 5) params with
      | String "="%char value => before_semi value
      | _ => "present"
      end
  end.

Definition parseViaInfo (viaValue : string) : ViaInfo :=
  let raw := trim viaValue in
  let '(protocol, transport, afterProtocol) := default ("SIP/2.0", "UDP", raw) (via_protocol raw) in
  let '(hostPortStr, params) :=
    match cut ";" afterProtocol with
    | Some (before, after) => (trim before, String ";" after)
    | None => (trim afterProtocol, "")
    end in
  let '(host, port) := via_host_port hostPortStr in
  {| vi_protocol := protocol; vi_transport := transport; vi_host := host; vi_port := port;
     vi_branch := extractParam params "branch"; vi_received := extractParam params "received";
     vi_rport := via_rport params; vi_raw := raw |}.

(** ** Contact, Route, authentication *)

Record ContactInfo := {
  ci_displayName : string;
  ci_uri : string;
  ci_host : string;
  ci_port : string;
  ci_transport : string;
  ci_expires : string;
  ci_raw : string;
}.

(** [/transport=(UDP|TCP|TLS|WSS?|SCTP)/i] *)
Fixpoint transport_param (s : string) : string :=
  match (if starts_with "transport=" (lower s) then find_transport Some (slice_from 10 s) TRANSPORTS else None) with
  | Some (t, _) => upper t
  | None => match s with "" => "" | String _ s => transport_param s end
  end.

Definition parseContactInfo (contactValue : string) : ContactInfo :=
  let raw := trim contactValue in
  if raw ==? "*" then Build_ContactInfo "" "*" "" "" "" "" raw
  else
    let uri := extractUri raw in
    let '(host, port) := extractHostPort uri in
    {| ci_displayName := extractDisplayName raw; ci_uri := uri; ci_host := host; ci_port := port;
       ci_transport := transport_param raw; ci_expires := extractParam raw "expires"; ci_raw := raw |}.

(** [RecordRouteInfo] and [RouteInfo]. *)
Record RouteInfo := {
  ri_uri : string;
  ri_host : string;
  ri_port : string;
  ri_lr : bool;
  ri_raw : string;
}.

Definition parseRoute (value : string) : RouteInfo :=
  let raw := trim value in
  let uri := extractUri raw in
  let '(host, port) := extractHostPort uri in
  {| ri_uri := uri; ri_host := host; ri_port := port;
     ri_lr := contains ";lr" (lower raw) || contains ";lr" (lower uri); ri_raw := raw |}.

Definition parseRecordRoute (value : string) : RouteInfo := parseRoute value.

Record AuthInfo := {
  ai_scheme : string;
  ai_realm : string;
  ai_nonce : string;
  ai_algorithm : string;
  ai_qop : string;
  ai_opaque : string;
  ai_raw : string;
}.

(** [\w] *)
Definition is_w (a : ascii) : bool :=
  is_digit a || ((65 <=? code a) && (code a <=? 90)) || ((97 <=? code a) && (code a <=? 122)) || (code a =? 95).

(** [/^(\w+)\s+/] *)
Definition leading_word (s : string) : option (string * string) :=
  let '(w, rest) := span is_w s in
  if w ==? "" then None else match skip_ws rest with Some r => Some (w, r) | None => None end.

Definition parseAuthHeader (value : string) : option AuthInfo :=
  if value ==? "" then None
  else
    let raw := trim value in
    let '(scheme, params) := default ("", raw) (leading_word raw) in
    Some {| ai_scheme := scheme; ai_realm := extractParam params "realm"; ai_nonce := extractParam params "nonce";
            ai_algorithm := extractParam params "algorithm"; ai_qop := extractParam params "qop";
            ai_opaque := extractParam params "opaque"; ai_raw := raw |}.
