(* ===== verification/SipInfo.v ===== *)
(** * SIP messages ([components/sip-ladder/sipUtils.ts], [extractSDPInfo],
    [extractSIPInfo] and [detectRoutingLoop])

    A raw message read into its fields.  [parseInt] gives an integer or NaN
    ([None]); integers are exact, as JavaScript's are below 2^53. *)
From S2P Require Import Prelude JsString Format LadderOrder SipText.

Local Open Scope string_scope.
Local Open Scope Z_scope.
Local Open Scope list_scope.

(** ** Numbers in text *)

(** A number that may be NaN. *)
Definition jsint : Type := option Z.

Definition digits_value (s : string) : jsint :=
  let '(d, _) := span_digits s in if d ==? "" then None else Some (num_of_digits d).

(** [parseInt(s, 10)] *)
Definition parseInt (s : string) : jsint :=
  match ltrim s with
  | String a s' as t =>
      if a ==? "-"%char then Z.opp <$> digits_value s'
      else if a ==? "+"%char then digits_value s'
      else digits_value t
  | "" => None
  end.

(** [a === b]: NaN is equal to nothing. *)
Definition int_eq (a b : jsint) : bool := match a, b with Some x, Some y => x =? y | _, _ => false end.

(** [s || d] *)
Definition or_else (d s : string) : string := if s ==? "" then d else s.

(** [l[n] || ''] *)
Definition nth_or (n : nat) (l : list string) : string := default "" (l !! n).

(** What follows a prefix, trimmed: [value.slice(n).trim()]. *)
Definition after_prefix (p value : string) : string := trim (slice_from (String.length p) value).

(** ** SDP *)

Record CodecInfo := {
  cd_payloadType : jsint;
  cd_name : string;
  cd_clockRate : jsint;
  cd_channels : option jsint;
  cd_fmtp : string;
}.

Record SDPMediaStream := {
  ms_type : string;
  ms_port : jsint;
  ms_protocol : string;
  ms_payloadTypes : list Z;
  ms_codecs : list CodecInfo;
  ms_direction : string;
  ms_connectionAddress : string;
  ms_rtcpPort : option Z;
  ms_rtcpMux : bool;
  ms_encryption : string;
  ms_iceUfrag : string;
  ms_icePwd : string;
  ms_candidates : list string;
  ms_bandwidth : string;
  ms_ptime : option Z;
  ms_raw : string;
}.

Record SDPInfo := {
  sd_version : string;
  sd_origin : string;
  sd_sessionName : string;
  sd_connectionAddress : string;
  sd_timing : string;
  sd_mediaStreams : list SDPMediaStream;
  sd_iceUfrag : string;
  sd_icePwd : string;
  sd_fingerprint : string;
  sd_setup : string;
  sd_raw : string;
}.

(** [CODEC_REGISTRY]: name, clock rate, channels. *)
Definition CODEC_REGISTRY : list (Z * (string * Z * option Z)) :=
  [(0, ("PCMU", 8000, Some 1)); (3, ("GSM", 8000, Some 1)); (4, ("G723", 8000, Some 1));
   (5, ("DVI4", 8000, Some 1)); (6, ("DVI4", 16000, Some 1)); (7, ("LPC", 8000, Some 1));
   (8, ("PCMA", 8000, Some 1)); (9, ("G722", 8000, Some 1)); (10, ("L16", 44100, Some 2));
   (11, ("L16", 44100, Some 1)); (12, ("QCELP", 8000, Some 1)); (13, ("CN", 8000, Some 1));
   (14, ("MPA", 90000, None)); (15, ("G728", 8000, Some 1)); (16, ("DVI4", 11025, Some 1));
   (17, ("DVI4", 22050, Some 1)); (18, ("G729", 8000, Some 1)); (25, ("CelB", 90000, None));
   (26, ("JPEG", 90000, None)); (28, ("nv", 90000, None)); (31, ("H261", 90000, None));
   (32, ("MPV", 90000, None)); (33, ("MP2T", 90000, None)); (34, ("H263", 90000, None));
   (96, ("dynamic", 0, None)); (97, ("dynamic", 0, None)); (98, ("dynamic", 0, None));
   (99, ("dynamic", 0, None)); (100, ("dynamic", 0, None)); (101, ("telephone-event", 8000, None));
   (102, ("dynamic", 0, None)); (103, ("dynamic", 0, None)); (104, ("dynamic", 0, None));
   (105, ("dynamic", 0, None)); (106, ("dynamic", 0, None)); (107, ("dynamic", 0, None));
   (108, ("dynamic", 0, None)); (109, ("dynamic", 0, None)); (110, ("dynamic", 0, None));
   (111, ("dynamic", 0, None)); (112, ("dynamic", 0, None)); (127, ("dynamic", 0, None))].

(** The codec a payload type stands for before any [a=rtpmap]. *)
Definition static_codec (pt : Z) : CodecInfo :=
  let unknown := Build_CodecInfo (Some pt) ("PT" +:+ print_int pt) (Some 0) None "" in
  match om_get pt CODEC_REGISTRY with
  | Some (name, clockRate, channels) =>
      if name !=? "dynamic" then Build_CodecInfo (Some pt) name (Some clockRate) (Some <$> channels) "" else unknown
  | None => unknown
  end.

Definition parseSdpConnection (value : string) : string :=
  let parts := words value in
  match parts !! 2%nat with Some addr => addr | None => value end.

Definition encryption_of (protocol : string) : string :=
  let up := upper protocol in
  if contains "DTLS" up || contains "TLS" up then "DTLS-SRTP"
  else if contains "SAVPF" up || contains "SAVP" up then "SRTP"
  else "none".

Definition parseMediaLine (value sessionConnection : string) : SDPMediaStream :=
  let parts := words value in
  let payloadTypes := omap parseInt (drop 3 parts) in
  {| ms_type := or_else "unknown" (nth_or 0 parts); ms_port := parseInt (or_else "0" (nth_or 1 parts));
     ms_protocol := nth_or 2 parts; ms_payloadTypes := payloadTypes; ms_codecs := List.map static_codec payloadTypes;
     ms_direction := "sendrecv"; ms_connectionAddress := sessionConnection; ms_rtcpPort := None; ms_rtcpMux := false;
     ms_encryption := encryption_of (nth_or 2 parts); ms_iceUfrag := ""; ms_icePwd := ""; ms_candidates := [];
     ms_bandwidth := ""; ms_ptime := None; ms_raw := "m=" +:+ value |}.

Definition ms_with (m : SDPMediaStream) (codecs : list CodecInfo) (direction address : string) (rtcpPort : option Z)
    (rtcpMux : bool) (encryption ufrag pwd : string) (candidates : list string) (bandwidth : string)
    (ptime : option Z) : SDPMediaStream :=
  Build_SDPMediaStream (ms_type m) (ms_port m) (ms_protocol m) (ms_payloadTypes m) codecs direction address rtcpPort
    rtcpMux encryption ufrag pwd candidates bandwidth ptime (ms_raw m).

Definition set_codecs (l : list CodecInfo) (m : SDPMediaStream) : SDPMediaStream :=
  ms_with m l (ms_direction m) (ms_connectionAddress m) (ms_rtcpPort m) (ms_rtcpMux m) (ms_encryption m)
    (ms_iceUfrag m) (ms_icePwd m) (ms_candidates m) (ms_bandwidth m) (ms_ptime m).
Definition set_direction (d : string) (m : SDPMediaStream) : SDPMediaStream :=
  ms_with m (ms_codecs m) d (ms_connectionAddress m) (ms_rtcpPort m) (ms_rtcpMux m) (ms_encryption m)
    (ms_iceUfrag m) (ms_icePwd m) (ms_candidates m) (ms_bandwidth m) (ms_ptime m).
Definition set_address (a : string) (m : SDPMediaStream) : SDPMediaStream :=
  ms_with m (ms_codecs m) (ms_direction m) a (ms_rtcpPort m) (ms_rtcpMux m) (ms_encryption m)
    (ms_iceUfrag m) (ms_icePwd m) (ms_candidates m) (ms_bandwidth m) (ms_ptime m).
Definition set_rtcpPort (p : Z) (m : SDPMediaStream) : SDPMediaStream :=
  ms_with m (ms_codecs m) (ms_direction m) (ms_connectionAddress m) (Some p) (ms_rtcpMux m) (ms_encryption m)
    (ms_iceUfrag m) (ms_icePwd m) (ms_candidates m) (ms_bandwidth m) (ms_ptime m).
Definition set_rtcpMux (m : SDPMediaStream) : SDPMediaStream :=
  ms_with m (ms_codecs m) (ms_direction m) (ms_connectionAddress m) (ms_rtcpPort m) true (ms_encryption m)
    (ms_iceUfrag m) (ms_icePwd m) (ms_candidates m) (ms_bandwidth m) (ms_ptime m).
Definition set_encryption (e : string) (m : SDPMediaStream) : SDPMediaStream :=
  ms_with m (ms_codecs m) (ms_direction m) (ms_connectionAddress m) (ms_rtcpPort m) (ms_rtcpMux m) e
    (ms_iceUfrag m) (ms_icePwd m) (ms_candidates m) (ms_bandwidth m) (ms_ptime m).
Definition set_iceUfrag (u : string) (m : SDPMediaStream) : SDPMediaStream :=
  ms_with m (ms_codecs m) (ms_direction m) (ms_connectionAddress m) (ms_rtcpPort m) (ms_rtcpMux m) (ms_encryption m)
    u (ms_icePwd m) (ms_candidates m) (ms_bandwidth m) (ms_ptime m).
Definition set_icePwd (p : string) (m : SDPMediaStream) : SDPMediaStream :=
  ms_with m (ms_codecs m) (ms_direction m) (ms_connectionAddress m) (ms_rtcpPort m) (ms_rtcpMux m) (ms_encryption m)
    (ms_iceUfrag m) p (ms_candidates m) (ms_bandwidth m) (ms_ptime m).
Definition add_candidate (c : string) (m : SDPMediaStream) : SDPMediaStream :=
  ms_with m (ms_codecs m) (ms_direction m) (ms_connectionAddress m) (ms_rtcpPort m) (ms_rtcpMux m) (ms_encryption m)
    (ms_iceUfrag m) (ms_icePwd m) (ms_candidates m ++ [c]) (ms_bandwidth m) (ms_ptime m).
Definition set_bandwidth (b : string) (m : SDPMediaStream) : SDPMediaStream :=
  ms_with m (ms_codecs m) (ms_direction m) (ms_connectionAddress m) (ms_rtcpPort m) (ms_rtcpMux m) (ms_encryption m)
    (ms_iceUfrag m) (ms_icePwd m) (ms_candidates m) b (ms_ptime m).
Definition set_ptime (p : Z) (m : SDPMediaStream) : SDPMediaStream :=
  ms_with m (ms_codecs m) (ms_direction m) (ms_connectionAddress m) (ms_rtcpPort m) (ms_rtcpMux m) (ms_encryption m)
    (ms_iceUfrag m) (ms_icePwd m) (ms_candidates m) (ms_bandwidth m) (Some p).

(** Changes the first codec of a payload type in place, [None] without one. *)
Fixpoint update_codec (pt : jsint) (f : CodecInfo → CodecInfo) (l : list CodecInfo) : option (list CodecInfo) :=
  match l with
  | [] => None
  | c :: l => if int_eq (cd_payloadType c) pt then Some (f c :: l) else cons c <$> update_codec pt f l
  end.

(** [a=rtpmap:pt name/clock/channels] *)
Definition apply_rtpmap (rtpmap : string) (m : SDPMediaStream) : SDPMediaStream :=
  match cut SPACE rtpmap with
  | Some (before, codecDesc) =>
      if before ==? "" then m
      else
        let pt := parseInt before in
        let codecParts := split_on "/" codecDesc in
        let clockRate := parseInt (or_else "0" (nth_or 1 codecParts)) in
        let channels := if nth_or 2 codecParts ==? "" then None else Some (parseInt (nth_or 2 codecParts)) in
        let named c := Build_CodecInfo (cd_payloadType c) (nth_or 0 codecParts) clockRate channels (cd_fmtp c) in
        match update_codec pt named (ms_codecs m) with
        | Some codecs => set_codecs codecs m
        | None => set_codecs (ms_codecs m ++ [Build_CodecInfo pt (nth_or 0 codecParts) clockRate channels ""]) m
        end
  | None => m
  end.

(** [a=fmtp:pt params] *)
Definition apply_fmtp (fmtp : string) (m : SDPMediaStream) : SDPMediaStream :=
  match cut SPACE fmtp with
  | Some (before, params) =>
      if before ==? "" then m
      else
        let with_params c :=
          Build_CodecInfo (cd_payloadType c) (cd_name c) (cd_clockRate c) (cd_channels c) params in
        match update_codec (parseInt before) with_params (ms_codecs m) with
        | Some codecs => set_codecs codecs m
        | None => m
        end
  | None => m
  end.

Definition apply_attribute (value : string) (m : SDPMediaStream) : SDPMediaStream :=
  if starts_with "rtpmap:" value then apply_rtpmap (after_prefix "rtpmap:" value) m
  else if starts_with "fmtp:" value then apply_fmtp (after_prefix "fmtp:" value) m
  else if (value ==? "sendrecv") || (value ==? "sendonly") || (value ==? "recvonly") || (value ==? "inactive") then
    set_direction value m
  else if starts_with "rtcp:" value then
    match parseInt (nth_or 0 (words (after_prefix "rtcp:" value))) with Some p => set_rtcpPort p m | None => m end
  else if value ==? "rtcp-mux" then set_rtcpMux m
  else if starts_with "ice-ufrag:" value then set_iceUfrag (after_prefix "ice-ufrag:" value) m
  else if starts_with "ice-pwd:" value then set_icePwd (after_prefix "ice-pwd:" value) m
  else if starts_with "candidate:" value then add_candidate value m
  else if starts_with "crypto:" value then (if ms_encryption m ==? "none" then set_encryption "SRTP" m else m)
  else if starts_with "fingerprint:" value then set_encryption "DTLS-SRTP" m
  else if starts_with "ptime:" value then
    match parseInt (after_prefix "ptime:" value) with Some p => set_ptime p m | None => m end
  else m.

Definition applyMediaAttribute (media : SDPMediaStream) (type : ascii) (value : string) : SDPMediaStream :=
  if type ==? "c"%char then set_address (parseSdpConnection value) media
  else if type ==? "b"%char then set_bandwidth value media
  else if type ==? "a"%char then apply_attribute value media
  else media.

(** The variables of the loop of [extractSDPInfo]. *)
Record sdp_loop := {
  sl_version : string;
  sl_origin : string;
  sl_sessionName : string;
  sl_address : string;
  sl_timing : string;
  sl_ufrag : string;
  sl_pwd : string;
  sl_fingerprint : string;
  sl_setup : string;
  sl_streams : list SDPMediaStream;
  sl_current : option SDPMediaStream;
}.

Definition with_media (st : sdp_loop) (streams : list SDPMediaStream) (current : option SDPMediaStream) : sdp_loop :=
  Build_sdp_loop (sl_version st) (sl_origin st) (sl_sessionName st) (sl_address st) (sl_timing st) (sl_ufrag st)
    (sl_pwd st) (sl_fingerprint st) (sl_setup st) streams current.

Definition with_session (st : sdp_loop) (version origin name address timing : string) : sdp_loop :=
  Build_sdp_loop version origin name address timing (sl_ufrag st) (sl_pwd st) (sl_fingerprint st) (sl_setup st)
    (sl_streams st) (sl_current st).

Definition with_security (st : sdp_loop) (ufrag pwd fingerprint setup : string) : sdp_loop :=
  Build_sdp_loop (sl_version st) (sl_origin st) (sl_sessionName st) (sl_address st) (sl_timing st) ufrag pwd
    fingerprint setup (sl_streams st) (sl_current st).

Definition session_line (st : sdp_loop) (type : ascii) (value : string) : sdp_loop :=
  let '(v, o, s, c, t) := (sl_version st, sl_origin st, sl_sessionName st, sl_address st, sl_timing st) in
  let '(u, p, f, su) := (sl_ufrag st, sl_pwd st, sl_fingerprint st, sl_setup st) in
  if type ==? "v"%char then with_session st value o s c t
  else if type ==? "o"%char then with_session st v value s c t
  else if type ==? "s"%char then with_session st v o value c t
  else if type ==? "c"%char then with_session st v o s (parseSdpConnection value) t
  else if type ==? "t"%char then with_session st v o s c value
  else if type ==? "a"%char then
    if starts_with "ice-ufrag:" value then with_security st (after_prefix "ice-ufrag:" value) p f su
    else if starts_with "ice-pwd:" value then with_security st u (after_prefix "ice-pwd:" value) f su
    else if starts_with "fingerprint:" value then with_security st u p (after_prefix "fingerprint:" value) su
    else if starts_with "setup:" value then with_security st u p f (after_prefix "setup:" value)
    else st
  else st.

(** [type] is the first character of a line, [value] all but its first two,
    the second being [=] in SDP. *)
Definition sdp_line (st : sdp_loop) (line : string) : sdp_loop :=
  match line with
  | "" => st
  | String type _ =>
      let value := slice_from 2 line in
      if type ==? "m"%char then
        with_media st (sl_streams st ++ option_list (sl_current st)) (Some (parseMediaLine value (sl_address st)))
      else
        match sl_current st with
        | Some media => with_media st (sl_streams st) (Some (applyMediaAttribute media type value))
        | None => session_line st type value
        end
  end.

Definition inherit (ufrag pwd address : string) (m : SDPMediaStream) : SDPMediaStream :=
  let m := if (ms_iceUfrag m ==? "") && (ufrag !=? "") then set_iceUfrag ufrag m else m in
  let m := if (ms_icePwd m ==? "") && (pwd !=? "") then set_icePwd pwd m else m in
  if (ms_connectionAddress m ==? "") && (address !=? "") then set_address address m else m.

Definition extractSDPInfo (sdpText : string) : SDPInfo :=
  let lines := List.filter (λ l, trim l !=? "") (split_lines sdpText) in
  let st := fold_left sdp_line lines (Build_sdp_loop "" "" "" "" "" "" "" "" "" [] None) in
  {| sd_version := sl_version st; sd_origin := sl_origin st; sd_sessionName := sl_sessionName st;
     sd_connectionAddress := sl_address st; sd_timing := sl_timing st;
     sd_mediaStreams :=
       List.map (inherit (sl_ufrag st) (sl_pwd st) (sl_address st)) (sl_streams st ++ option_list (sl_current st));
     sd_iceUfrag := sl_ufrag st; sd_icePwd := sl_pwd st; sd_fingerprint := sl_fingerprint st;
     sd_setup := sl_setup st; sd_raw := sdpText |}.

(** ** Messages *)

Record SIPMessageInfo := {
  si_isRequest : bool;
  si_method : string;
  si_requestUri : string;
  si_statusCode : option Z;
  si_reasonPhrase : string;
  si_sipVersion : string;
  si_callId : string;
  si_fromTag : string;
  si_fromUri : string;
  si_fromDisplay : string;
  si_toTag : string;
  si_toUri : string;
  si_toDisplay : string;
  si_cseq : string;
  si_cseqMethod : string;
  si_cseqNumber : jsint;
  si_maxForwards : option jsint;
  si_contentLength : option jsint;
  si_contentType : string;
  si_vias : list ViaInfo;
  si_contact : option ContactInfo;
  si_recordRoutes : list RouteInfo;
  si_routes : list RouteInfo;
  si_authorization : option AuthInfo;
  si_wwwAuthenticate : option AuthInfo;
  si_proxyAuthenticate : option AuthInfo;
  si_proxyAuthorization : option AuthInfo;
  si_sessionExpires : option Z;
  si_sessionRefresher : string;
  si_minSE : option jsint;
  si_userAgent : string;
  si_server : string;
  si_allow : list string;
  si_supported : list string;
  si_require : list string;
  si_xCarrier : string;
  si_pAssertedIdentity : string;
  si_pPreferredIdentity : string;
  si_diversion : string;
  si_reasonHeader : string;
  si_privacy : string;
  si_sdp : option SDPInfo;
  si_hasSDP : bool;
  si_raw : string;
  si_summary : string;
  si_direction : string;
}.

Definition createEmptySIPInfo (raw : string) : SIPMessageInfo :=
  {| si_isRequest := false; si_method := ""; si_requestUri := ""; si_statusCode := None; si_reasonPhrase := "";
     si_sipVersion := ""; si_callId := ""; si_fromTag := ""; si_fromUri := ""; si_fromDisplay := ""; si_toTag := "";
     si_toUri := ""; si_toDisplay := ""; si_cseq := ""; si_cseqMethod := ""; si_cseqNumber := Some 0;
     si_maxForwards := None; si_contentLength := None; si_contentType := ""; si_vias := []; si_contact := None;
     si_recordRoutes := []; si_routes := []; si_authorization := None; si_wwwAuthenticate := None;
     si_proxyAuthenticate := None; si_proxyAuthorization := None; si_sessionExpires := None;
     si_sessionRefresher := ""; si_minSE := None; si_userAgent := ""; si_server := ""; si_allow := [];
     si_supported := []; si_require := []; si_xCarrier := ""; si_pAssertedIdentity := "";
     si_pPreferredIdentity := ""; si_diversion := ""; si_reasonHeader := ""; si_privacy := ""; si_sdp := None;
     si_hasSDP := false; si_raw := raw; si_summary := ""; si_direction := "request" |}.

Definition PHRASES : list (Z * string) :=
  [(100, "Trying"); (180, "Ringing"); (181, "Call Is Being Forwarded"); (182, "Queued");
   (183, "Session Progress"); (199, "Early Dialog Terminated"); (200, "OK"); (202, "Accepted");
   (204, "No Notification"); (300, "Multiple Choices"); (301, "Moved Permanently");
   (302, "Moved Temporarily"); (305, "Use Proxy"); (380, "Alternative Service"); (400, "Bad Request");
   (401, "Unauthorized"); (402, "Payment Required"); (403, "Forbidden"); (404, "Not Found");
   (405, "Method Not Allowed"); (406, "Not Acceptable"); (407, "Proxy Authentication Required");
   (408, "Request Timeout"); (410, "Gone"); (412, "Conditional Request Failed");
   (413, "Request Entity Too Large"); (414, "Request-URI Too Long"); (415, "Unsupported Media Type");
   (416, "Unsupported URI Scheme"); (417, "Unknown Resource-Priority"); (420, "Bad Extension");
   (421, "Extension Required"); (422, "Session Interval Too Small"); (423, "Interval Too Brief");
   (424, "Bad Location Information"); (428, "Use Identity Header"); (429, "Provide Referrer Identity");
   (430, "Flow Failed"); (433, "Anonymity Disallowed"); (436, "Bad Identity-Info");
   (437, "Unsupported Certificate"); (438, "Invalid Identity Header");
   (439, "First Hop Lacks Outbound Support"); (440, "Max-Breadth Exceeded"); (469, "Bad Info Package");
   (470, "Consent Needed"); (480, "Temporarily Unavailable"); (481, "Call/Transaction Does Not Exist");
   (482, "Loop Detected"); (483, "Too Many Hops"); (484, "Address Incomplete"); (485, "Ambiguous");
   (486, "Busy Here"); (487, "Request Terminated"); (488, "Not Acceptable Here"); (489, "Bad Event");
   (491, "Request Pending"); (493, "Undecipherable"); (494, "Security Agreement Required");
   (500, "Server Internal Error"); (501, "Not Implemented"); (502, "Bad Gateway");
   (503, "Service Unavailable"); (504, "Server Time-out"); (505, "Version Not Supported");
   (513, "Message Too Large"); (555, "Push Notification Service Not Supported");
   (580, "Precondition Failure"); (600, "Busy Everywhere"); (603, "Decline");
   (604, "Does Not Exist Anywhere"); (606, "Not Acceptable"); (607, "Unwanted"); (608, "Rejected")].

Definition getDefaultReasonPhrase (code : Z) : string := default "Unknown" (om_get code PHRASES).

Definition generateSummary (isRequest : bool) (method : string) (statusCode : option Z)
    (reasonPhrase cseqMethod : string) : string :=
  if isRequest then method
  else match statusCode with
       | Some code =>
           let phrase := or_else (getDefaultReasonPhrase code) reasonPhrase in
           print_int code +:+ " " +:+ phrase +:+ " (" +:+ cseqMethod +:+ ")"
       | None => "Unknown"
       end.

(** [/\r?\n\r?\n/] at the start: what follows. *)
Definition line_break (s : string) : option string :=
  match s with
  | String a s1 =>
      if a ==? LF then Some s1
      else if a ==? CR then
        match s1 with String b s2 => if b ==? LF then Some s2 else None | "" => None end
      else None
  | "" => None
  end.
Definition blank_line (s : string) : option string :=
  match line_break s with Some s1 => line_break s1 | None => None end.

(** The headers and the body, at the first blank line. *)
Fixpoint split_body (raw : string) : option (string * string) :=
  match blank_line raw with
  | Some body => Some ("", body)
  | None =>
      match raw with
      | "" => None
      | String a rest => match split_body rest with Some (h, b) => Some (String a h, b) | None => None end
      end
  end.

(** What a dot repeated matches: up to a line terminator; U+2028 and U+2029 are E2 80 A8 and A9. *)
Fixpoint until_eol (s : string) : string :=
  match s with
  | "" => ""
  | String a s1 =>
      if (a ==? CR) || (a ==? LF) then ""
      else match s1 with
           | String b (String c _) =>
               if (code a =? 226) && (code b =? 128) && ((code c =? 168) || (code c =? 169)) then ""
               else String a (until_eol s1)
           | _ => String a (until_eol s1)
           end
  end.

(** What the first line of a message gives. *)
Record start_line := {
  st_isRequest : bool;
  st_method : string;
  st_requestUri : string;
  st_statusCode : option Z;
  st_reasonPhrase : string;
  st_sipVersion : string;
}.

(** [responseMatch]: version, three digits, and the rest of the line. *)
Definition response_match (firstLine : string) : option start_line :=
  match sip_version firstLine with
  | Some (version, rest) =>
      match skip_ws rest with
      | Some rest =>
          let digits := stake 3 rest in
          if (String.length digits =? 3)%nat && all_digits digits then
            let code := num_of_digits digits in
            let reason := until_eol (ltrim (slice_from 3 rest)) in
            Some (Build_start_line false "" "" (Some code) (or_else (getDefaultReasonPhrase code) reason) version)
          else None
      | None => None
      end
  | None => None
  end.

(** [requestMatch]: a word, an address, a version. *)
Definition request_match (firstLine : string) : option start_line :=
  match leading_word firstLine with
  | Some (method, rest) =>
      let uri := take_word rest in
      if uri ==? "" then None
      else match skip_ws (slice_from (String.length uri) rest) with
           | Some rest =>
               match sip_version rest with
               | Some (version, _) => Some (Build_start_line true (upper method) uri None "" version)
               | None => None
               end
           | None => None
           end
  | None => None
  end.

(** A first line that is neither: read word by word. *)
Definition best_effort (firstLine : string) : start_line :=
  let parts := words firstLine in
  if starts_with "SIP/" firstLine then
    let statusCode :=
      match parseInt (or_else "0" (nth_or 1 parts)) with Some z => if z =? 0 then None else Some z | None => None end in
    Build_start_line false "" "" statusCode (join " " (drop 2 parts)) (or_else "SIP/2.0" (nth_or 0 parts))
  else
    Build_start_line true (upper (nth_or 0 parts)) (nth_or 1 parts) None "" (or_else "SIP/2.0" (nth_or 2 parts)).

Definition parse_start_line (firstLine : string) : start_line :=
  match response_match firstLine with
  | Some s => s
  | None => default (best_effort firstLine) (request_match firstLine)
  end.

(** A comma-separated header: trimmed, without empty entries. *)
Definition comma_list (header : string) : list string :=
  if header ==? "" then [] else List.filter (λ s, s !=? "") (List.map trim (split_on "," header)).

(** [header ? parseInt(header, 10) : null] *)
Definition int_header (header : string) : option jsint := if header ==? "" then None else Some (parseInt header).

Definition extractSIPInfo (rawMessage : string) : SIPMessageInfo :=
  let raw := trim rawMessage in
  if raw ==? "" then createEmptySIPInfo raw
  else
    let '(headerSection, bodySection) := default (raw, "") (split_body raw) in
    let st := parse_start_line (nth_or 0 (split_lines headerSection)) in
    let fromHeader := getHeader raw "From" in
    let toHeader := getHeader raw "To" in
    let cseqHeader := getHeader raw "CSeq" in
    let contentType := getHeader raw "Content-Type" in
    let cseqParts := words (trim cseqHeader) in
    let cseqMethod := upper (or_else (st_method st) (nth_or 1 cseqParts)) in
    let method := if negb (st_isRequest st) && (st_method st ==? "") then cseqMethod else st_method st in
    let contactValue := getHeader raw "Contact" in
    let sessionExpiresHeader := getHeader raw "Session-Expires" in
    let hasSDP := (trim bodySection !=? "")
                  && (contains "application/sdp" (lower contentType) || contains "v=0" bodySection) in
    {| si_isRequest := st_isRequest st; si_method := method; si_requestUri := st_requestUri st;
       si_statusCode := st_statusCode st; si_reasonPhrase := st_reasonPhrase st; si_sipVersion := st_sipVersion st;
       si_callId := getHeader raw "Call-ID";
       si_fromTag := extractParam fromHeader "tag"; si_fromUri := extractUri fromHeader;
       si_fromDisplay := extractDisplayName fromHeader;
       si_toTag := extractParam toHeader "tag"; si_toUri := extractUri toHeader;
       si_toDisplay := extractDisplayName toHeader;
       si_cseq := cseqHeader; si_cseqMethod := cseqMethod;
       si_cseqNumber := parseInt (or_else "0" (nth_or 0 cseqParts));
       si_maxForwards := int_header (getHeader raw "Max-Forwards");
       si_contentLength := int_header (getHeader raw "Content-Length");
       si_contentType := contentType;
       si_vias := List.map parseViaInfo (getAllHeaders raw "Via");
       si_contact := if contactValue ==? "" then None else Some (parseContactInfo contactValue);
       si_recordRoutes := List.map parseRecordRoute (getAllHeaders raw "Record-Route");
       si_routes := List.map parseRoute (getAllHeaders raw "Route");
       si_authorization := parseAuthHeader (getHeader raw "Authorization");
       si_wwwAuthenticate := parseAuthHeader (getHeader raw "WWW-Authenticate");
       si_proxyAuthenticate := parseAuthHeader (getHeader raw "Proxy-Authenticate");
       si_proxyAuthorization := parseAuthHeader (getHeader raw "Proxy-Authorization");
       si_sessionExpires :=
         if sessionExpiresHeader ==? "" then None else parseInt (trim (before_semi sessionExpiresHeader));
       si_sessionRefresher :=
         if sessionExpiresHeader ==? "" then "" else extractParam sessionExpiresHeader "refresher";
       si_minSE := int_header (getHeader raw "Min-SE");
       si_userAgent := getHeader raw "User-Agent"; si_server := getHeader raw "Server";
       si_allow := comma_list (getHeader raw "Allow"); si_supported := comma_list (getHeader raw "Supported");
       si_require := comma_list (getHeader raw "Require");
       si_xCarrier := getHeader raw "X-Carrier"; si_pAssertedIdentity := getHeader raw "P-Asserted-Identity";
       si_pPreferredIdentity := getHeader raw "P-Preferred-Identity"; si_diversion := getHeader raw "Diversion";
       si_reasonHeader := getHeader raw "Reason"; si_privacy := getHeader raw "Privacy";
       si_sdp := if hasSDP then Some (extractSDPInfo bodySection) else None; si_hasSDP := hasSDP; si_raw := raw;
       si_summary := generateSummary (st_isRequest st) method (st_statusCode st) (st_reasonPhrase st) cseqMethod;
       si_direction := if st_isRequest st then "request" else "response" |}.

(** ** Routing loops *)

(** The hosts and ports seen before in the chain, in order. *)
Fixpoint via_duplicates (viaKeys : list string) (vias : list ViaInfo) : list string :=
  match vias with
  | [] => []
  | via :: vias =>
      let key := vi_host via +:+ ":" +:+ or_else "5060" (vi_port via) in
      (if bool_decide (key ∈ viaKeys) then [key] else []) ++ via_duplicates (key :: viaKeys) vias
  end.

(** [description] when a loop is detected. *)
Definition detectRoutingLoop (info : SIPMessageInfo) : option string :=
  match si_vias info with
  | [] => None
  | _ =>
    let duplicates := via_duplicates [] (si_vias info) in
    match duplicates with
    | _ :: _ => Some ("Duplicate Via entries for " +:+ join ", " duplicates +:+ " suggest a routing loop")
    | [] =>
        match si_maxForwards info with
        | Some (Some n) =>
            if n <=? 5 then
              Some ("Max-Forwards is critically low (" +:+ print_int n +:+ "), indicating possible loop")
            else if negb (si_isRequest info) && (si_statusCode info ==? Some 482) then
              Some "Server responded with 482 Loop Detected"
            else None
        | _ =>
            if negb (si_isRequest info) && (si_statusCode info ==? Some 482) then
              Some "Server responded with 482 Loop Detected"
            else None
        end
    end
  end.
