(* ===== verification/SipOk.v ===== *)
(** * What the SIP header parsers read back

    Messages as they are sent: a first line and headers, one to a line. *)
From S2P Require Import Prelude JsString Format LadderOrder Ip SipText SipInfo.

Local Open Scope string_scope.
Local Open Scope list_scope.

(** ** Lines *)

Definition CRLF : string := String CR (String LF "").

Definition in_line (a : ascii) : bool := (a !=? CR) && (a !=? LF).

Lemma split_lines_line s : sforall in_line s = true → split_lines s = [s].
Proof.
  induction s as [|a s IH]; simpl; [done|]. intros [Ha Hs]%andb_true_iff.
  unfold in_line in Ha. bool_hyps.
  rewrite !bool_decide_eq_false_2 by done. by rewrite IH.
Qed.

Lemma split_lines_app s t : sforall in_line s = true → split_lines (s +:+ CRLF +:+ t) = s :: split_lines t.
Proof.
  induction s as [|a s IH]; [done|]. intros [Ha Hs]%andb_true_iff.
  unfold in_line in Ha. bool_hyps.
  change (String a s +:+ CRLF +:+ t) with (String a (s +:+ CRLF +:+ t)).
  cbn [split_lines]. rewrite !bool_decide_eq_false_2 by done. rewrite IH by done. done.
Qed.

Lemma split_lines_join lines :
  lines ≠ [] → Forall (λ l, sforall in_line l = true) lines → split_lines (join CRLF lines) = lines.
Proof.
  induction lines as [|x lines IH]; [done|]. intros _ [Hx Hl]%Forall_cons.
  destruct lines as [|y lines]; [by apply split_lines_line|].
  change (join CRLF (x :: y :: lines)) with (x +:+ CRLF +:+ join CRLF (y :: lines)).
  rewrite split_lines_app by done. by rewrite IH.
Qed.

Lemma cut_app c s t : lacks c s = true → cut c (s +:+ String c t) = Some (s, t).
Proof.
  unfold lacks. induction s as [|a s IH]; simpl; [by rewrite bool_decide_eq_true_2|].
  intros [Ha Hs]%andb_true_iff. bool_hyps. rewrite bool_decide_eq_false_2 by done. by rewrite IH.
Qed.

(** ** Headers *)

Section message.
Context (start : string) (headers : list (string * string)).

Definition header_text (h : string * string) : string := h.1 +:+ ": " +:+ h.2.
Definition message : string := join CRLF (start :: List.map header_text headers).

(** A name is visible characters but no colon; a value is one line, trimmed. *)
Definition name_char (a : ascii) : bool := plain a && (a !=? ":"%char).
Definition header_ok (h : string * string) : Prop :=
  h.1 ≠ "" ∧ sforall name_char h.1 = true ∧ sforall in_line h.2 = true ∧ trim h.2 = h.2.

(** A header's name is the one asked for, in full or in its short form. *)
Definition named (name : string) (compact : option string) (h : string * string) : bool :=
  (lower h.1 ==? lower name) || (Some (lower h.1) ==? compact).
End message.

Lemma header_line_text lowerName compact h :
  header_ok h →
  header_line lowerName compact (header_text h) =
    if (lower h.1 ==? lowerName) || (Some (lower h.1) ==? compact) then Some h.2 else None.
Proof.
  intros (_ & Hn & _ & Hv). unfold header_line, header_text.
  change (": " +:+ h.2) with (String ":" (String SPACE h.2)).
  rewrite cut_app; last first.
  { unfold lacks. eapply sforall_impl; [|exact Hn]. intros a [_ Ha]%andb_true_iff. exact Ha. }
  rewrite trim_plain.
  2: { eapply sforall_impl; [|exact Hn]. by intros a [Ha _]%andb_true_iff. }
  change (trim (String SPACE h.2)) with (trim h.2). by rewrite Hv.
Qed.

Lemma starts_with_head c a s : starts_with (String c "") (String a s) = (a ==? c).
Proof.
  unfold starts_with. cbn [String.prefix]. destruct (ascii_dec c a) as [->|].
  - by rewrite bool_decide_eq_true_2; [destruct s|].
  - by rewrite bool_decide_eq_false_2.
Qed.

Lemma header_not_continuation h : header_ok h → is_continuation (header_text h) = false.
Proof.
  destruct h as [[|a n] v]; intros (Hne & Hn & _); [done|]. simpl in Hn.
  apply andb_true_iff in Hn as [[Ha _]%andb_true_iff _].
  unfold is_continuation, header_text. cbn [fst snd]. change (String a n +:+ ": " +:+ v) with (String a (n +:+ ": " +:+ v)).
  rewrite !starts_with_head. apply orb_false_iff. split; apply bool_decide_eq_false; intros ->; done.
Qed.

Lemma continued_headers v hs : Forall header_ok hs → continued v (List.map header_text hs) = v.
Proof.
  intros [|h l Hh _]; [done|]. simpl. by rewrite header_not_continuation.
Qed.

Lemma first_header_text name compact hs :
  Forall header_ok hs →
  first_header (lower name) compact (List.map header_text hs) =
    default "" (snd <$> List.find (named name compact) hs).
Proof.
  induction 1 as [|h hs Hh Hhs IH]; [done|]. simpl. rewrite header_line_text by done.
  unfold named at 1. destruct (_ || _); [|done]. simpl. by apply continued_headers.
Qed.

Lemma plain_in_line a : plain a = true → in_line a = true.
Proof.
  intros H. unfold in_line. apply andb_true_iff.
  split; apply negb_true_iff, bool_decide_eq_false; intros ->; vm_compute in H; discriminate.
Qed.

Lemma header_text_in_line h : header_ok h → sforall in_line (header_text h) = true.
Proof.
  intros (_ & Hn & Hv & _). unfold header_text. rewrite !sforall_app, Hv.
  rewrite (sforall_impl name_char in_line); [done| |done].
  intros a [Ha _]%andb_true_iff. by apply plain_in_line.
Qed.

Lemma message_lines start hs :
  sforall in_line start = true → Forall header_ok hs →
  split_lines (message start hs) = start :: List.map header_text hs.
Proof.
  intros Hs Hhs. apply split_lines_join; [done|]. constructor; [done|].
  apply Forall_map. eapply Forall_impl; [exact Hhs|]. apply header_text_in_line.
Qed.

(** The header helpers, on a message that is sent header by header. *)
Lemma getHeader_message start hs name :
  sforall in_line start = true → Forall header_ok hs →
  header_line (lower name) (compact_of (lower name)) start = None →
  getHeader (message start hs) name = default "" (snd <$> List.find (named name (compact_of (lower name))) hs).
Proof.
  intros Hs Hhs Hstart. unfold getHeader. rewrite message_lines by done. simpl. rewrite Hstart.
  by apply first_header_text.
Qed.

Lemma all_headers_text name compact hs :
  Forall header_ok hs →
  all_headers (lower name) compact (List.map header_text hs) =
    List.flat_map (λ h, if lower name ==? "contact" then [h.2] else splitHeaderValues h.2)
      (List.filter (named name compact) hs).
Proof.
  induction 1 as [|h hs Hh Hhs IH]; [done|]. simpl. rewrite header_line_text by done.
  fold (named name compact h). destruct (named name compact h); [|done].
  simpl. rewrite continued_headers by done. by rewrite IH.
Qed.

Lemma getAllHeaders_message start hs name :
  sforall in_line start = true → Forall header_ok hs →
  header_line (lower name) (compact_of_list (lower name)) start = None →
  getAllHeaders (message start hs) name =
    List.flat_map (λ h, if lower name ==? "contact" then [h.2] else splitHeaderValues h.2)
      (List.filter (named name (compact_of_list (lower name))) hs).
Proof.
  intros Hs Hhs Hstart. unfold getAllHeaders. rewrite message_lines by done. simpl. rewrite Hstart.
  by apply all_headers_text.
Qed.

(** ** Lists of values *)

(** A value a comma may follow: quotes and brackets are closed, and no comma
    stands outside them. *)
Fixpoint closed_from (depth : Z) (inQuote : bool) (prev : ascii) (v : string) : bool :=
  match v with
  | "" => (depth =? 0)%Z && negb inQuote
  | String c v =>
      if (c ==? QUOT) && (prev !=? "\"%char) then closed_from depth (negb inQuote) c v
      else if negb inQuote && (c ==? "<"%char) then closed_from (depth + 1) inQuote c v
      else if negb inQuote && (c ==? ">"%char) then closed_from (depth - 1) inQuote c v
      else if negb inQuote && (depth =? 0)%Z && (c ==? ","%char) then false
      else closed_from depth inQuote c v
  end.
Definition list_value (v : string) : Prop := v ≠ "" ∧ trim v = v ∧ closed_from 0 false SPACE v = true.

Lemma closed_run v results depth inQuote current prev rest :
  closed_from depth inQuote prev v = true →
  ∃ prev', split_run (Build_splitting results depth inQuote current prev) (v +:+ rest) =
           split_run (Build_splitting results 0 false (current +:+ v) prev') rest.
Proof.
  revert depth inQuote current prev.
  induction v as [|c v IH]; intros depth inQuote current prev; cbn [closed_from]; intros H.
  - bool_hyps. subst. exists prev. by rewrite sapp_nil_r.
  - change (String c v +:+ rest) with (String c (v +:+ rest)). cbn [split_run split_step].
    replace (current +:+ String c v) with ((current +:+ String c "") +:+ v) by (by rewrite <-sapp_assoc).
    unfold split_step. cbn [sv_results sv_depth sv_inQuote sv_current sv_prev].
    repeat case_match; try discriminate; by apply IH.
Qed.

Lemma flush_value results v : list_value v → flush_current results v = results ++ [v].
Proof. intros (Hne & Ht & _). unfold flush_current. by rewrite Ht, bool_decide_eq_false_2. Qed.

Lemma split_comma results current prev rest :
  split_run (Build_splitting results 0 false current prev) (", " +:+ rest) =
  split_run (Build_splitting (flush_current results current) 0 false " " SPACE) rest.
Proof. reflexivity. Qed.

Lemma split_values vs v results current :
  Forall list_value (v :: vs) → trim (current +:+ v) = v →
  let st := split_run (Build_splitting results 0 false current SPACE) (join ", " (v :: vs)) in
  flush_current (sv_results st) (sv_current st) = results ++ v :: vs.
Proof.
  revert v results current. induction vs as [|w vs IH]; intros v results current [Hv Hvs]%Forall_cons Ht; cbv zeta.
  - destruct Hv as (Hne & _ & Hc).
    destruct (closed_run v results 0 false current SPACE "" Hc) as [prev E].
    rewrite sapp_nil_r in E. change (join ", " [v]) with v. rewrite E. simpl. unfold flush_current. by rewrite Ht, bool_decide_eq_false_2.
  - destruct Hv as (Hne & _ & Hc).
    destruct (closed_run v results 0 false current SPACE (", " +:+ join ", " (w :: vs)) Hc) as [prev E].
    change (join ", " (v :: w :: vs)) with (v +:+ ", " +:+ join ", " (w :: vs)). rewrite E. clear E. rewrite split_comma.
    assert (Hf : flush_current results (current +:+ v) = results ++ [v]).
    { unfold flush_current. by rewrite Ht, bool_decide_eq_false_2. }
    rewrite Hf.
    rewrite (IH w (results ++ [v]) " "); [by rewrite <-app_assoc|done|].
    apply Forall_cons in Hvs as [(_ & Hw & _) _]. exact Hw.
Qed.

Lemma splitHeaderValues_join vs : Forall list_value vs → vs ≠ [] → splitHeaderValues (join ", " vs) = vs.
Proof.
  destruct vs as [|v vs]; [done|]. intros H _. unfold splitHeaderValues.
  apply (split_values vs v [] ""); [done|]. apply Forall_cons in H as [(_ & Ht & _) _]. exact Ht.
Qed.

(** ** Whole requests *)

(** A header as it is sent: its name and its values, commas between them. *)
Record header := { h_name : string; h_values : list string }.
Definition sent_header (h : header) : string * string := (h_name h, join ", " (h_values h)).

(** The header is called one of [names], which are written in lower case. *)
Definition goes_by (names : list string) (h : header) : bool := bool_decide (lower (h_name h) ∈ names).

(** The values of the first header of that name, none when there is no such
    header; their text; the values of every header of that name. *)
Fixpoint first_values (names : list string) (hs : list header) : list string :=
  match hs with
  | [] => []
  | h :: hs => if goes_by names h then h_values h else first_values names hs
  end.
Definition first_text (names : list string) (hs : list header) : string := join ", " (first_values names hs).
Fixpoint every_value (names : list string) (hs : list header) : list string :=
  match hs with
  | [] => []
  | h :: hs => (if goes_by names h then h_values h else []) ++ every_value names hs
  end.

(** A word that may stand in a list of words. *)
Definition word (v : string) : Prop := v ≠ "" ∧ sforall plain v = true ∧ lacks "," v = true.

(** A header that can be sent: lists of addresses have their quotes and
    brackets closed, lists of words hold words. *)
Definition sendable (h : header) : Prop :=
  header_ok (sent_header h)
  ∧ (goes_by ["via"; "v"; "route"; "record-route"] h = true → Forall list_value (h_values h))
  ∧ (goes_by ["allow"; "supported"; "k"; "require"] h = true → Forall word (h_values h)).

Definition request_line (method uri : string) : string := method +:+ " " +:+ uri +:+ " SIP/2.0".

Definition request_ok (method uri : string) : Prop :=
  method ≠ "" ∧ sforall is_w method = true ∧ sforall plain uri = true ∧ ∃ a u, uri = String a u ∧ a ≠ ":"%char.

Lemma is_w_plain a : is_w a = true → plain a = true.
Proof. unfold is_w, is_digit, plain. intros H. apply andb_true_iff. rewrite !orb_true_iff in H. naive_solver (bool_hyps; lia). Qed.

Lemma trim_ends a s z : plain a = true → plain z = true → trim (String a (s +:+ String z "")) = String a (s +:+ String z "").
Proof.
  intros Ha Hz. unfold trim. rewrite ltrim_plain by done.
  destruct (srev (String a (s +:+ String z ""))) as [|b t] eqn:E.
  - rewrite srev_cons in E. by destruct (srev _).
  - assert (b = z) as ->.
    { rewrite srev_cons, srev_app_distr in E. simpl in E. by injection E. }
    rewrite rltrim_plain by done. by rewrite <-E, srev_involutive.
Qed.

Lemma lower_lacks_space s : lacks SPACE (lower s) = lacks SPACE s.
Proof.
  unfold lacks. induction s as [|a s IH]; simpl; [done|]. rewrite IH. f_equal. f_equal.
  destruct a as [[] [] [] [] [] [] [] []]; reflexivity.
Qed.

Lemma lacks_app c s t : lacks c (s +:+ t) = lacks c s && lacks c t.
Proof. apply sforall_app. Qed.

Lemma plain_lacks_space s : sforall plain s = true → lacks SPACE s = true.
Proof.
  apply sforall_impl. intros a Ha. apply negb_true_iff, bool_decide_eq_false. intros ->. done.
Qed.

Lemma word_lacks_colon s : sforall is_w s = true → lacks ":" s = true.
Proof.
  apply sforall_impl. intros a Ha. apply negb_true_iff, bool_decide_eq_false. intros ->. done.
Qed.

Lemma snoc_inv s : s ≠ "" → ∃ t z, s = t +:+ String z "".
Proof.
  induction s as [|a s IH]; [done|]. intros _. destruct s as [|b s]; [by exists "", a|].
  destruct IH as (t & z & E); [done|]. exists (String a t), z. by rewrite E.
Qed.

(** Cut at a character inside the second part, a text leaves the first whole. *)
Lemma cut_after c s t : lacks c s = true → cut c (s +:+ t) = (λ p, (s +:+ p.1, p.2)) <$> cut c t.
Proof.
  unfold lacks. induction s as [|a s IH]; simpl; [by destruct (cut c t) as [[]|]|].
  intros [Ha Hs]%andb_true_iff. bool_hyps. rewrite bool_decide_eq_false_2 by done.
  rewrite IH by done. by destruct (cut c t) as [[]|].
Qed.

Lemma cut_app_some c s t b r : cut c s = Some (b, r) → cut c (s +:+ t) = Some (b, r +:+ t).
Proof.
  revert b. induction s as [|a s IH]; simpl; [done|]. intros b.
  case_bool_decide; [by intros [= <- <-]|]. destruct (cut c s) as [[b' r']|]; [|done].
  intros [= <- <-]. by rewrite (IH b').
Qed.

Lemma cut_app_none c s t : cut c s = None → cut c t = None → cut c (s +:+ t) = None.
Proof.
  intros Hs Ht. induction s as [|a s IH]; simpl in *; [done|].
  case_bool_decide; [done|]. destruct (cut c s) as [[]|]; [done|]. by rewrite IH.
Qed.

Lemma cut_forall f c s b r : sforall f s = true → cut c s = Some (b, r) → sforall f b = true.
Proof.
  revert b. induction s as [|a s IH]; simpl; [done|]. intros b [Ha Hs]%andb_true_iff.
  case_bool_decide; [intros [= <- _]; done|]. destruct (cut c s) as [[b' r']|] eqn:E; [|done].
  intros [= <- <-]. simpl. rewrite Ha. by eapply IH.
Qed.

(** The first line of a request is no header: what is before its colon, if
    it has one, holds a space. *)
Lemma request_line_not_header method uri name compact :
  request_ok method uri → lacks SPACE name = true → (∀ c, compact = Some c → lacks SPACE c = true) →
  header_line name compact (request_line method uri) = None.
Proof.
  intros (Hne & Hw & Hu & a & u & -> & Ha) Hn Hc. unfold header_line.
  destruct (cut ":" (request_line method (String a u))) as [[b r]|] eqn:E; [|done].
  unfold request_line in E. rewrite cut_after in E by by apply word_lacks_colon.
  change (" " +:+ String a u +:+ " SIP/2.0") with (String " " (String a (u +:+ " SIP/2.0"))) in E.
  cbn [cut] in E. rewrite (bool_decide_eq_false_2 (" " = ":")%char), (bool_decide_eq_false_2 (a = _)) in E by done.
  simpl in Hu. apply andb_true_iff in Hu as [Hpa Hpu].
  assert (∃ b' z, b = method +:+ " " +:+ b' +:+ String z "" ∧ plain z = true) as (b' & z & -> & Hz).
  { destruct (cut ":" u) as [[b1 r1]|] eqn:E1.
    - destruct (snoc_inv (String a b1)) as (t & z & Et); [done|]. exists t, z.
      rewrite (cut_app_some _ _ _ _ _ E1) in E. simpl in E. injection E as <- _. split; [by rewrite Et|].
      assert (Hall : sforall plain (String a b1) = true) by (simpl; rewrite Hpa; eapply cut_forall; eauto).
      rewrite Et, sforall_app in Hall. simpl in Hall. by bool_hyps.
    - by rewrite (cut_app_none ":" u " SIP/2.0") in E. }
  destruct method as [|m ms]; [done|]. simpl in Hw. apply andb_true_iff in Hw as [Hm Hms].
  assert (Ht : trim (String m ms +:+ " " +:+ b' +:+ String z "") = String m ms +:+ " " +:+ b' +:+ String z "").
  { replace (String m ms +:+ " " +:+ b' +:+ String z "") with (String m ((ms +:+ " " +:+ b') +:+ String z ""))
      by (simpl; by rewrite <-!sapp_assoc).
    apply trim_ends; [by apply is_w_plain|done]. }
  rewrite Ht.
  assert (Hl : ∀ n, lacks SPACE n = true → lower (String m ms +:+ " " +:+ b' +:+ String z "") ≠ n).
  { intros n Hln <-. rewrite lower_lacks_space, !lacks_app in Hln. bool_hyps. done. }
  rewrite bool_decide_eq_false_2 by by apply Hl. simpl.
  rewrite bool_decide_eq_false_2; [done|]. intros Ec. symmetry in Ec. by apply (Hl _ (Hc _ Ec)).
Qed.

(** *** The first line is read *)

Lemma no_version w s : sforall is_w w = true → starts_with "SIP/" (w +:+ " " +:+ s) = false.
Proof.
  intros Hw. destruct (starts_with "SIP/" (w +:+ " " +:+ s)) eqn:E; [|done]. exfalso.
  unfold starts_with in E.
  assert (∃ t, w +:+ " " +:+ s = "SIP/" +:+ t) as [t Et].
  { revert E. generalize (w +:+ " " +:+ s). intros x.
    do 4 (destruct x as [|? x]; simpl; [done|]; case_match; [subst|done]). intros _. by exists x. }
  do 4 (destruct w as [|? w]; simpl in Et; [by injection Et|]; simpl in Hw; apply andb_true_iff in Hw as [? Hw];
        injection Et as -> Et; try done).
Qed.

Lemma span_app f w a s : sforall f w = true → f a = false → span f (w +:+ String a s) = (w, String a s).
Proof.
  intros Hw Ha. induction w as [|b w IH]; simpl in *; [by rewrite Ha|].
  apply andb_true_iff in Hw as [-> Hw]. by rewrite IH.
Qed.

Lemma take_word_plain u s : sforall plain u = true → take_word (u +:+ String SPACE s) = u.
Proof.
  induction u as [|a u IH]; [done|]. simpl. intros [Ha Hu]%andb_true_iff. specialize (IH Hu).
  destruct (plain_not_ws a Ha) as (-> & Hb & _ & Hc & _).
  destruct u as [|b u]; simpl in *.
  - rewrite Hb. destruct s; [done|]. by rewrite Hc.
  - rewrite Hb. destruct u as [|c u]; simpl in *; rewrite Hc; by rewrite IH.
Qed.

Lemma skip_space s : match s with "" => True | String a _ => plain a = true end → skip_ws (String SPACE s) = Some s.
Proof.
  intros H. unfold skip_ws. change (ltrim (String SPACE s)) with (ltrim s).
  replace (ltrim s) with s by (destruct s; [done|]; by rewrite ltrim_plain).
  rewrite bool_decide_eq_false_2; [done|]. intros E. apply (f_equal String.length) in E. simpl in E. lia.
Qed.

Lemma request_line_read method uri :
  request_ok method uri →
  parse_start_line (request_line method uri) = Build_start_line true (upper method) uri None "" "SIP/2.0".
Proof.
  intros (Hne & Hw & Hu & a & u & -> & _). set (uri := String a u) in *. unfold parse_start_line, request_line.
  assert (Hr : response_match (method +:+ " " +:+ uri +:+ " SIP/2.0") = None).
  { unfold response_match, sip_version. by rewrite no_version. }
  rewrite Hr. unfold request_match, leading_word.
  change (method +:+ " " +:+ uri +:+ " SIP/2.0") with (method +:+ String SPACE (uri +:+ String SPACE "SIP/2.0")).
  rewrite span_app by done.
  rewrite bool_decide_eq_false_2 by done.
  assert (Hpa : plain a = true) by (simpl in Hu; by bool_hyps).
  rewrite skip_space by exact Hpa.
  rewrite take_word_plain by done. rewrite bool_decide_eq_false_2 by done.
  by rewrite slice_from_app.
Qed.

(** *** There is no body *)

Lemma split_body_line s : sforall in_line s = true → split_body s = None.
Proof.
  induction s as [|a s IH]; [done|]. simpl. intros [Ha Hs]%andb_true_iff. unfold in_line in Ha. bool_hyps.
  unfold blank_line. simpl. rewrite !bool_decide_eq_false_2 by done. by rewrite IH.
Qed.

Lemma split_body_app s t :
  sforall in_line s = true → line_break t = None → split_body t = None → split_body (s +:+ CRLF +:+ t) = None.
Proof.
  intros Hs Hb Ht. induction s as [|a s IH].
  - change ("" +:+ CRLF +:+ t) with (String CR (String LF t)). simpl. unfold blank_line. simpl. by rewrite Hb, Ht.
  - simpl in Hs. apply andb_true_iff in Hs as [Ha Hs]. unfold in_line in Ha. bool_hyps.
    change (String a s +:+ CRLF +:+ t) with (String a (s +:+ CRLF +:+ t)). cbn [split_body].
    unfold blank_line. cbn [line_break]. rewrite !bool_decide_eq_false_2 by done. by rewrite IH.
Qed.

Lemma split_body_join lines :
  Forall (λ l, l ≠ "" ∧ sforall in_line l = true) lines → split_body (join CRLF lines) = None.
Proof.
  induction 1 as [|x lines [Hne Hx] Hl IH]; [done|]. destruct lines as [|y lines]; [by apply split_body_line|].
  change (join CRLF (x :: y :: lines)) with (x +:+ CRLF +:+ join CRLF (y :: lines)).
  apply split_body_app; [done| |done]. apply Forall_cons in Hl as [[Hyn Hy] _].
  destruct y as [|b y]; [done|]. simpl in Hy. apply andb_true_iff in Hy as [Hb _]. unfold in_line in Hb. bool_hyps.
  assert (∃ t, join CRLF (String b y :: lines) = String b t) as [t ->] by (destruct lines; by eexists).
  simpl. by rewrite !bool_decide_eq_false_2.
Qed.

Section request.
Context (method uri : string) (hs : list (string * string)).
Hypothesis (Hr : request_ok method uri) (Hhs : Forall header_ok hs).

Lemma request_line_in_line : sforall in_line (request_line method uri) = true.
Proof using Hr.
  destruct Hr as (_ & Hw & Hu & _). unfold request_line. rewrite !sforall_app.
  assert (sforall in_line method = true) as ->
    by (eapply sforall_impl; [|exact Hw]; intros a Ha; by apply plain_in_line, is_w_plain).
  assert (sforall in_line uri = true) as -> by (eapply sforall_impl; [|exact Hu]; apply plain_in_line).
  done.
Qed.

(** The names the code asks for have no space, nor have the short forms. *)
Lemma compact_lacks_space name c : compact_of name = Some c → lacks SPACE c = true.
Proof.
  intros H. apply om_get_Some_elem in H. revert H. unfold compact_of.
  rewrite !elem_of_cons. intros E. repeat (destruct E as [[= _ ->]|E]; [done|]). by apply elem_of_nil in E.
Qed.

Lemma compact_list_lacks_space name c : compact_of_list name = Some c → lacks SPACE c = true.
Proof.
  intros H. apply om_get_Some_elem in H. revert H. unfold compact_of_list.
  rewrite !elem_of_cons. intros E. repeat (destruct E as [[= _ ->]|E]; [done|]). by apply elem_of_nil in E.
Qed.

Lemma request_header name :
  lacks SPACE (lower name) = true → getHeader (message (request_line method uri) hs) name =
    default "" (snd <$> List.find (named name (compact_of (lower name))) hs).
Proof using Hr Hhs.
  intros Hn. apply getHeader_message; [apply request_line_in_line|done|].
  apply request_line_not_header; [done..|]. intros c. apply compact_lacks_space.
Qed.

Lemma request_headers name :
  lacks SPACE (lower name) = true → lower name ≠ "contact" →
  getAllHeaders (message (request_line method uri) hs) name =
    List.flat_map (λ h, splitHeaderValues h.2) (List.filter (named name (compact_of_list (lower name))) hs).
Proof using Hr Hhs.
  intros Hn Hc. rewrite getAllHeaders_message; [|apply request_line_in_line|done|].
  - by rewrite bool_decide_eq_false_2.
  - apply request_line_not_header; [done..|]. intros c. apply compact_list_lacks_space.
Qed.

Lemma request_no_body : split_body (message (request_line method uri) hs) = None.
Proof using Hr Hhs.
  apply split_body_join. constructor.
  - split; [|apply request_line_in_line]. destruct Hr as (Hne & _). by destruct method.
  - apply Forall_map. eapply Forall_impl; [exact Hhs|]. intros h Hh. split.
    + destruct Hh as (Hne & _). unfold header_text. by destruct h as [[|? ?] ?].
    + by apply header_text_in_line.
Qed.
End request.

(** *** Headers by name *)

Lemma named_goes_by name compact h :
  named name compact (sent_header h) = goes_by (lower name :: option_list compact) h.
Proof.
  unfold named, goes_by, sent_header. cbn [fst]. apply eq_true_iff_eq.
  rewrite orb_true_iff, !bool_decide_eq_true, elem_of_cons.
  destruct compact as [c|]; simpl; [rewrite list_elem_of_singleton|rewrite elem_of_nil]; naive_solver.
Qed.

Lemma goes_by_more names more h : incl names more → goes_by names h = true → goes_by more h = true.
Proof. unfold goes_by. rewrite !bool_decide_eq_true, !list_elem_of_In. auto. Qed.

Lemma find_named name compact hs :
  default "" (snd <$> List.find (named name compact) (List.map sent_header hs)) =
    first_text (lower name :: option_list compact) hs.
Proof.
  unfold first_text. induction hs as [|h hs IH]; [done|]. cbn [List.map List.find first_values].
  rewrite named_goes_by. by destruct (goes_by _ h).
Qed.

Lemma splitHeaderValues_values vs : Forall list_value vs → splitHeaderValues (join ", " vs) = vs.
Proof. destruct vs; [done|]. intros. by apply splitHeaderValues_join. Qed.

Lemma every_named name compact hs :
  Forall sendable hs → incl (lower name :: option_list compact) ["via"; "v"; "route"; "record-route"] →
  List.flat_map (λ h, splitHeaderValues h.2) (List.filter (named name compact) (List.map sent_header hs)) =
    every_value (lower name :: option_list compact) hs.
Proof.
  intros H Hn. induction H as [|h hs (_ & Hh & _) _ IH]; [done|]. cbn [List.map List.filter every_value].
  rewrite named_goes_by. destruct (goes_by (_ :: option_list _) h) eqn:E; [|exact IH].
  cbn [List.flat_map]. rewrite IH. cbn [sent_header snd]. rewrite splitHeaderValues_values; [done|].
  apply Hh. by eapply goes_by_more.
Qed.

(** *** Numbers and words *)

Lemma pretty_digit x : is_digit (pretty_N_char (x `mod` 10)%N) = true ∧ digit_val (pretty_N_char (x `mod` 10)%N) = Z.of_N (x `mod` 10).
Proof.
  assert (Hx : (x `mod` 10 < 10)%N) by (apply N.mod_lt; lia).
  revert Hx. generalize (x `mod` 10)%N. intros y Hy.
  destruct y as [|p]; [done|]. do 4 (destruct p as [p|p|]; try done); exfalso; lia.
Qed.

Lemma pretty_go_read x s :
  ∃ d, pretty_N_go x s = d +:+ s ∧ sforall is_digit d = true ∧ ((0 < x)%N → d ≠ "")
       ∧ ∀ t, num_of_digits_acc 0 (d +:+ t) = num_of_digits_acc (Z.of_N x) t.
Proof.
  revert s. induction (N.lt_wf_0 x) as [x _ IH]. intros s.
  assert (x = 0 ∨ 0 < x)%N as [->|Hx] by lia.
  { exists "". rewrite pretty_N_go_0. done. }
  rewrite pretty_N_go_step by done.
  destruct (IH (x `div` 10)%N ltac:(apply N.div_lt; lia) (String (pretty_N_char (x `mod` 10)) s)) as (d & E & Hd & _ & Hv).
  destruct (pretty_digit x) as [Hc Hz].
  exists (d +:+ String (pretty_N_char (x `mod` 10)) ""). rewrite E. split; [by rewrite <-sapp_assoc|].
  rewrite sforall_app, Hd. simpl. rewrite Hc. split; [done|]. split; [by destruct d|].
  intros t. rewrite <-sapp_assoc, Hv. simpl. f_equal. rewrite Hz.
  rewrite N2Z.inj_div, N2Z.inj_mod. pose proof (Z.div_mod (Z.of_N x) 10). simpl in *. lia.
Qed.

Lemma print_read n :
  (0 ≤ n)%Z → print_int n ≠ "" ∧ sforall is_digit (print_int n) = true ∧ num_of_digits (print_int n) = n.
Proof.
  intros Hn. destruct n as [|p|p]; [done| |lia]. unfold print_int.
  change (pretty (Zpos p)) with (pretty_N_go (Npos p) "").
  destruct (pretty_go_read (Npos p) "") as (d & -> & Hd & Hne & Hv). rewrite sapp_nil_r.
  split; [by apply Hne|]. split; [done|]. unfold num_of_digits. specialize (Hv ""). by rewrite sapp_nil_r in Hv.
Qed.

Lemma span_digits_all s : sforall is_digit s = true → span_digits s = (s, "").
Proof. induction s as [|a s IH]; simpl; [done|]. intros [-> Hs]%andb_true_iff. by rewrite IH. Qed.

Lemma digits_plain s : sforall is_digit s = true → sforall plain s = true.
Proof. apply sforall_impl, is_digit_plain. Qed.

Lemma parseInt_print n : (0 ≤ n)%Z → parseInt (print_int n) = Some n.
Proof.
  intros Hn. destruct (print_read n Hn) as (Hne & Hd & Hv). unfold parseInt.
  rewrite <-Hv at 2. destruct (print_int n) as [|a s] eqn:E; [done|].
  pose proof Hd as [Ha Hs]%andb_true_iff. rewrite ltrim_plain by by apply is_digit_plain.
  rewrite !bool_decide_eq_false_2 by (intros ->; done).
  unfold digits_value. rewrite span_digits_all by done. by rewrite bool_decide_eq_false_2.
Qed.

Lemma word_trim v : word v → trim v = v.
Proof. intros (_ & Hv & _). by apply trim_plain. Qed.

Lemma split_words v vs x :
  Forall word (v :: vs) → lacks "," x = true → trim (x +:+ v) = v →
  List.filter (λ s, s !=? "") (List.map trim (split_on "," (x +:+ join ", " (v :: vs)))) = v :: vs.
Proof.
  revert v x. induction vs as [|w vs IH]; intros v x [(Hne & Hv & Hl) Hvs]%Forall_cons Hx Ht.
  - change (join ", " [v]) with v. rewrite split_on_lacks by (by rewrite lacks_app, Hx, Hl).
    cbn [List.map List.filter]. rewrite Ht. by rewrite bool_decide_eq_false_2.
  - change (join ", " (v :: w :: vs)) with (v +:+ String "," (" " +:+ join ", " (w :: vs))).
    rewrite sapp_assoc, split_on_app by (by rewrite lacks_app, Hx, Hl).
    cbn [List.map List.filter]. rewrite Ht, bool_decide_eq_false_2 by done. cbn [negb]. f_equal.
    apply IH; [done|done|]. change (trim (" " +:+ w)) with (trim w).
    apply Forall_cons in Hvs as [Hw _]. by apply word_trim.
Qed.

Lemma comma_list_values vs : Forall word vs → comma_list (join ", " vs) = vs.
Proof.
  destruct vs as [|v vs]; [done|]. intros H. unfold comma_list.
  assert (Hv : word v) by by apply Forall_cons in H as [].
  rewrite bool_decide_eq_false_2.
  - apply (split_words v vs ""); [done|done|]. by apply word_trim.
  - destruct Hv as (Hne & _). destruct v; [done|]. by destruct vs.
Qed.

(** *** Parameters and addresses *)

Lemma starts_with_app p s c t : lacks c p = true → starts_with p (s +:+ String c t) = true → starts_with p s = true.
Proof.
  unfold starts_with, lacks. revert s. induction p as [|a p IH]; intros s; [by destruct s|].
  intros [Ha Hp]%andb_true_iff. destruct s as [|b s]; simpl; destruct (ascii_dec _ _) as [->|]; [|done| |done].
  - by rewrite bool_decide_eq_true_2 in Ha.
  - by apply IH.
Qed.

(** The first place a text stands, when it is nowhere in what comes before. *)
Lemma cut_at_first p s c t :
  lacks c p = true → p ≠ "" → cut_at p s = None → cut_at p (s +:+ String c (p +:+ t)) = Some (s +:+ String c "", t).
Proof.
  intros Hc Hne. assert (Hp : ∀ x, starts_with p (p +:+ x) = true).
  { intros x. unfold starts_with. clear. induction p as [|a p IH]; [by destruct x|]. simpl. by destruct (ascii_dec a a). }
  induction s as [|a s IH].
  - intros _. change ("" +:+ String c (p +:+ t)) with (String c (p +:+ t)). cbn [cut_at].
    destruct (starts_with p (String c (p +:+ t))) eqn:E.
    { by apply (starts_with_app p "" c) in E as ?; destruct p. }
    assert (cut_at p (p +:+ t) = Some ("", t)) as ->; [|done].
    destruct (p +:+ t) eqn:Ept; [by destruct p|]. cbn [cut_at]. rewrite <-Ept, Hp. f_equal. f_equal.
    by rewrite slice_from_app.
  - change (String a s +:+ String c (p +:+ t)) with (String a (s +:+ String c (p +:+ t))). cbn [cut_at]. intros Hn.
    destruct (starts_with p (String a s)) eqn:E1; [done|].
    destruct (starts_with p (String a (s +:+ String c (p +:+ t)))) eqn:E2.
    { change (String a (s +:+ String c (p +:+ t))) with (String a s +:+ String c (p +:+ t)) in E2.
      apply starts_with_app in E2; [|done]. by rewrite E2 in E1. }
    destruct (cut_at p s) as [[]|]; [done|]. by rewrite IH.
Qed.

Lemma lower_app s t : lower (s +:+ t) = lower s +:+ lower t.
Proof. induction s as [|a s IH]; [done|]. simpl. by rewrite IH. Qed.

Lemma lower_length s : String.length (lower s) = String.length s.
Proof. induction s as [|a s IH]; [done|]. simpl. by rewrite IH. Qed.

(** A value that may stand in a parameter. *)
Definition parameter_value (v : string) : Prop :=
  v ≠ "" ∧ sforall plain v = true ∧ lacks ";" v = true ∧ lacks "," v = true ∧ lacks QUOT v = true.

(** The parameter is not named, not even inside a longer text. *)
Definition unnamed (name s : string) : Prop := contains (name +:+ "=") (lower s) = false.

Lemma contains_cut_at p s : contains p s = false → cut_at p s = None.
Proof.
  induction s as [|a s IH]; cbn [contains cut_at]; intros [H1 H2]%orb_false_iff; rewrite H1; [done|].
  by rewrite IH.
Qed.

Lemma cut_lacks c s : lacks c s = true → cut c s = None.
Proof.
  unfold lacks. induction s as [|a s IH]; simpl; [done|]. intros [Ha Hs]%andb_true_iff. bool_hyps.
  rewrite bool_decide_eq_false_2 by done. by rewrite IH.
Qed.

Lemma extractParam_none s name : lower name = name → unnamed name s → extractParam s name = "".
Proof. intros Hn Hs. unfold extractParam. by rewrite Hn, contains_cut_at. Qed.

Lemma extractParam_last s name v :
  lower name = name → lacks ";" (name +:+ "=") = true → unnamed name s → parameter_value v →
  extractParam (s +:+ ";" +:+ name +:+ "=" +:+ v) name = v.
Proof.
  intros Hn Hl Hs (Hne & Hv & H1 & H2 & H3). unfold extractParam.
  change (";" +:+ name +:+ "=" +:+ v) with (String ";" (name +:+ "=" +:+ v)).
  rewrite lower_app. change (lower (String ";" (name +:+ "=" +:+ v))) with (String ";" (lower (name +:+ "=" +:+ v))).
  rewrite !lower_app, Hn. change (lower "=") with "=". rewrite sapp_assoc.
  rewrite cut_at_first; [|done|by destruct name|by apply contains_cut_at].
  rewrite !slength_app, lower_length. simpl String.length.
  replace (String.length s + 1 + String.length name + 1)%nat with (String.length (s +:+ String ";" (name +:+ "=")))
    by (rewrite slength_app; simpl; rewrite slength_app; simpl; lia).
  replace (s +:+ String ";" (name +:+ "=" +:+ v)) with ((s +:+ String ";" (name +:+ "=")) +:+ v)
    by (by rewrite <-!sapp_assoc; simpl; rewrite <-sapp_assoc).
  rewrite slice_from_app. unfold param_end.
  rewrite !cut_lacks by (done || by apply plain_lacks_space). rewrite trim_plain by done.
  unfold unquote. destruct v as [|a v]; [done|]. rewrite starts_with_head.
  simpl in H3. apply andb_true_iff in H3 as [Ha _]. apply negb_true_iff in Ha. by rewrite Ha.
Qed.

(** A name and address as phones send it: the name in quotes, the URI in
    brackets, and a tag or none. *)
Definition name_addr (display uri : string) (tag : option string) : string :=
  String QUOT display +:+ String QUOT " <" +:+ uri +:+ ">" +:+
    match tag with Some t => ";tag=" +:+ t | None => "" end.

Definition address_ok (display uri : string) (tag : option string) : Prop :=
  lacks QUOT display = true ∧ lacks "<" display = true ∧ uri ≠ "" ∧ lacks ">" uri = true
  ∧ unnamed "tag" (name_addr display uri None) ∧ (∀ t, tag = Some t → parameter_value t).

Lemma in_angles_app s u r : lacks "<" s = true → u ≠ "" → lacks ">" u = true → in_angles (s +:+ "<" +:+ u +:+ ">" +:+ r) = Some u.
Proof.
  unfold lacks at 1. intros Hs Hne Hu. induction s as [|a s IH].
  - change (in_angles ("" +:+ "<" +:+ u +:+ ">" +:+ r)) with (in_angles (String "<" (u +:+ String ">" r))).
    cbn [in_angles]. rewrite bool_decide_eq_true_2 by done. rewrite cut_app by done. by rewrite bool_decide_eq_false_2.
  - simpl in Hs. bool_hyps. change (String a s +:+ "<" +:+ u +:+ ">" +:+ r) with (String a (s +:+ "<" +:+ u +:+ ">" +:+ r)).
    cbn [in_angles]. rewrite bool_decide_eq_false_2 by done. by apply IH.
Qed.

Lemma name_addr_read display uri tag :
  address_ok display uri tag →
  extractDisplayName (name_addr display uri tag) = display ∧ extractUri (name_addr display uri tag) = uri
  ∧ extractParam (name_addr display uri tag) "tag" = default "" tag.
Proof.
  intros (Hq & Hb & Hne & Hu & Ht & Hv). split; [|split].
  - assert (∃ r, name_addr display uri tag = String QUOT (display +:+ String QUOT (String SPACE (String "<" r)))) as [r ->]
      by by eexists.
    unfold extractDisplayName, quoted_name. rewrite (bool_decide_eq_true_2 (QUOT = QUOT)), cut_app by done.
    change (ltrim (String SPACE (String "<" r))) with (ltrim (String "<" r)). by rewrite ltrim_plain, starts_with_head.
  - unfold extractUri, name_addr.
    replace (String QUOT display +:+ String QUOT " <" +:+ uri +:+ ">" +:+ match tag with Some t => ";tag=" +:+ t | None => "" end)
      with ((String QUOT display +:+ String QUOT " ") +:+ "<" +:+ uri +:+ ">" +:+ match tag with Some t => ";tag=" +:+ t | None => "" end)
      by by rewrite <-sapp_assoc.
    rewrite in_angles_app; [done| |done|done]. rewrite lacks_app. apply andb_true_iff. done.
  - destruct tag as [t|]; [|by apply extractParam_none].
    replace (name_addr display uri (Some t)) with (name_addr display uri None +:+ ";" +:+ "tag" +:+ "=" +:+ t).
    + by apply extractParam_last; [..|apply Hv].
    + unfold name_addr. rewrite sapp_nil_r. by rewrite <-!sapp_assoc.
Qed.

(** *** What a request says *)

(** An address header, a number, the numbered method of a CSeq, a session
    timer: nothing without the header, and what it was written from. *)
Definition address_read (v display uri tag : string) : Prop :=
  (v = "" → display = "" ∧ uri = "" ∧ tag = "")
  ∧ ∀ d u t, address_ok d u t → v = name_addr d u t → display = d ∧ uri = u ∧ tag = default "" t.
Definition number_read (v : string) (field : option jsint) : Prop :=
  (v = "" → field = None) ∧ ∀ n, (0 ≤ n)%Z → v = print_int n → field = Some (Some n).
Definition cseq_read (v : string) (number : jsint) (method : string) : Prop :=
  ∀ n m, (0 ≤ n)%Z → word m → v = print_int n +:+ " " +:+ m → number = Some n ∧ method = upper m.
Definition timer_read (v : string) (expires : option Z) (refresher : string) : Prop :=
  (v = "" → expires = None ∧ refresher = "")
  ∧ ∀ n, (0 ≤ n)%Z → (v = print_int n → expires = Some n ∧ refresher = "")
      ∧ ∀ r, parameter_value r → v = print_int n +:+ ";refresher=" +:+ r → expires = Some n ∧ refresher = r.

Lemma address_reads v : address_read v (extractDisplayName v) (extractUri v) (extractParam v "tag").
Proof.
  split; [by intros ->|]. intros d u t H ->. by apply name_addr_read.
Qed.

Lemma number_reads v : number_read v (int_header v).
Proof.
  split; [by intros ->|]. intros n Hn ->. unfold int_header. destruct (print_read n Hn) as (Hne & _).
  by rewrite bool_decide_eq_false_2, parseInt_print.
Qed.

Lemma split_ws_plain run s : s ≠ "" → sforall plain s = true → split_ws run s = [s].
Proof.
  revert run. induction s as [|a s IH]; [done|]. intros run _ [Ha Hs]%andb_true_iff.
  destruct (plain_not_ws a Ha) as (H1 & H2 & _ & H3 & _).
  destruct s as [|b s]; [cbn [split_ws]; by rewrite H1|]. specialize (IH false ltac:(done) Hs).
  cbn [split_ws] in *. rewrite H1, H2. destruct s as [|c s]; [|rewrite H3]; by rewrite IH.
Qed.

Lemma split_ws_space s t : s ≠ "" → sforall plain s = true → split_ws false (s +:+ String SPACE t) = s :: split_ws true t.
Proof.
  induction s as [|a s IH]; [done|]. intros _ [Ha Hs]%andb_true_iff.
  destruct (plain_not_ws a Ha) as (H1 & H2 & _ & H3 & _).
  change (String a s +:+ String SPACE t) with (String a (s +:+ String SPACE t)).
  destruct s as [|b s].
  - change ("" +:+ String SPACE t) with (String SPACE t). cbn [split_ws]. rewrite H1, H2. by destruct t; [|rewrite H3].
  - specialize (IH ltac:(done) Hs). change (String b s +:+ String SPACE t) with (String b (s +:+ String SPACE t)) in *.
    assert (E : split_ws false (String a (String b (s +:+ String SPACE t))) =
                push_char a (split_ws false (String b (s +:+ String SPACE t)))).
    { cbn [split_ws]. rewrite H1, H2. by destruct (s +:+ String SPACE t); [|rewrite H3]. }
    by rewrite E, IH.
Qed.

Lemma cseq_reads v method :
  cseq_read v (parseInt (or_else "0" (nth_or 0 (words (trim v))))) (upper (or_else method (nth_or 1 (words (trim v))))).
Proof.
  intros n m Hn (Hm & Hp & _) ->. destruct (print_read n Hn) as (Hne & Hd & _). apply digits_plain in Hd.
  assert (trim (print_int n +:+ " " +:+ m) = print_int n +:+ String SPACE m) as ->.
  { destruct (print_int n) as [|a d]; [done|]. destruct (snoc_inv m Hm) as (t & z & ->).
    replace (String a d +:+ " " +:+ t +:+ String z "") with (String a ((d +:+ " " +:+ t) +:+ String z ""))
      by (simpl; by rewrite <-!sapp_assoc).
    rewrite sforall_app in Hp. simpl in Hd, Hp. rewrite trim_ends by (by bool_hyps). simpl. by rewrite <-!sapp_assoc. }
  unfold words. rewrite split_ws_space, split_ws_plain by done.
  change (nth_or 0 [print_int n; m]) with (print_int n). change (nth_or 1 [print_int n; m]) with m.
  unfold or_else. rewrite (bool_decide_eq_false_2 (print_int n = "")), (bool_decide_eq_false_2 (m = "")) by done.
  by rewrite parseInt_print.
Qed.

Lemma timer_reads v :
  timer_read v (if v ==? "" then None else parseInt (trim (before_semi v)))
    (if v ==? "" then "" else extractParam v "refresher").
Proof.
  split; [by intros ->|]. intros n Hn. destruct (print_read n Hn) as (Hne & Hd & _).
  assert (Hl : lacks ";" (print_int n) = true).
  { eapply sforall_impl; [|exact Hd]. intros a Ha. apply negb_true_iff, bool_decide_eq_false. by intros ->. }
  assert (Hr : unnamed "refresher" (print_int n)).
  { unfold unnamed. generalize (print_int n) Hd. clear. intros s. induction s as [|a s IH]; [done|].
    intros [Ha Hs]%andb_true_iff. cbn [lower contains]. rewrite IH by done. rewrite orb_false_r.
    revert Ha. clear. destruct a as [[] [] [] [] [] [] [] []]; done. }
  split.
  - intros ->. rewrite !bool_decide_eq_false_2 by done. unfold before_semi. rewrite cut_lacks by done.
    rewrite trim_plain by by apply digits_plain. rewrite parseInt_print by done. split; [done|].
    by apply extractParam_none.
  - intros r Hrv ->. assert (print_int n +:+ ";refresher=" +:+ r ≠ "") by by destruct (print_int n).
    rewrite !bool_decide_eq_false_2 by done. unfold before_semi.
    change (";refresher=" +:+ r) with (String ";" ("refresher=" +:+ r)). rewrite cut_app by done.
    rewrite trim_plain by by apply digits_plain. rewrite parseInt_print by done. split; [done|].
    change (String ";" ("refresher=" +:+ r)) with (";" +:+ "refresher" +:+ "=" +:+ r). by apply extractParam_last.
Qed.

Lemma sendable_ok hs : Forall sendable hs → Forall header_ok (List.map sent_header hs).
Proof. intros H. apply Forall_map. eapply Forall_impl; [exact H|]. by intros h []. Qed.

Lemma first_words names hs :
  Forall sendable hs → incl names ["allow"; "supported"; "k"; "require"] →
  comma_list (first_text names hs) = first_values names hs.
Proof.
  intros H Hn. unfold first_text. apply comma_list_values. induction H as [|h hs (_ & _ & Hh) _ IH]; [constructor|].
  cbn [first_values]. destruct (goes_by names h) eqn:E; [|done]. apply Hh.
  by eapply goes_by_more.
Qed.


Definition sample_headers : list header :=
  [Build_header "v" ["SIP/2.0/UDP 10.1.2.3:5060;branch=z9hG4bKa"; "SIP/2.0/TCP 10.1.2.4;branch=z9hG4bKb"];
   Build_header "FROM" [name_addr "Al, Ng" "sip:al@a.example" (Some "77")]; Build_header "t" ["<sip:bo@b.example>"];
   Build_header "i" ["c1@a"]; Build_header "CSeq" ["102 INVITE"]; Build_header "Max-Forwards" ["70"];
   Build_header "Session-Expires" ["1800;refresher=uac"]; Build_header "k" ["timer"; "100rel"];
   Build_header "Via" ["SIP/2.0/TLS edge;branch=z9hG4bKc"]].
Definition sample_request : string := message (request_line "INVITE" "sip:bo@b.example") (List.map sent_header sample_headers).

Lemma sample_caller : address_ok "Al, Ng" "sip:al@a.example" (Some "77").
Proof. split_and!; try done. by intros ? [= <-]. Qed.


(** A list of values written with commas between them is read back value by
    value, when each has its quotes and brackets closed and no comma outside. *)
Theorem header_list_read_back vs : Forall list_value vs → vs ≠ [] → splitHeaderValues (join ", " vs) = vs.
Proof. apply splitHeaderValues_join. Qed.

Lemma header_list_read_back_witness :
  splitHeaderValues (join ", " ["<sip:a@b;lr,x>"; "Al <sip:c@d>"]) = ["<sip:a@b;lr,x>"; "Al <sip:c@d>"].
Proof. apply header_list_read_back; [|done]. repeat constructor; done. Defined.

(** ** Where the parser is fooled *)

(** [getHeader] reads the whole message: a line of the body is taken for a
    header the message does not have. *)
Example body_line_taken_for_a_header :
  si_server (extractSIPInfo (sample_request +:+ CRLF +:+ CRLF +:+ "Server: none")) = "none".
Proof. vm_compute. reflexivity. Qed.

(** [extractParam] looks for the name anywhere: the tag of a From header is
    taken from the middle of another parameter's name, or from the URI. *)
Example tag_from_another_parameter :
  si_fromTag (extractSIPInfo (message (request_line "BYE" "sip:b") [("From", "<sip:a@b;x-tag=1>;tag=2")])) = "1>".
Proof. vm_compute. reflexivity. Qed.

(** RFC 4028 gives Session-Expires the short form [x], which [getHeader] does
    not know; and of Supported on two lines, which RFC 3261 lets a phone send,
    only the first line is read. *)
Example short_session_expires_missed :
  si_sessionExpires (extractSIPInfo (message (request_line "INVITE" "sip:b") [("x", "1800;refresher=uac")])) = None.
Proof. vm_compute. reflexivity. Qed.

Example second_supported_missed :
  si_supported (extractSIPInfo (message (request_line "INVITE" "sip:b") [("Supported", "timer"); ("Supported", "100rel")])) = ["timer"].
Proof. vm_compute. reflexivity. Qed.
