(* ===== verification/LadderRows.v ===== *)
(** * Rows of the SIP ladder ([components/sip-ladder/sipLadderUtils.ts])

    Labels, colours, retransmissions and node roles.  A colour is the
    property of [LADDER_COLORS] it comes from.  Times in milliseconds are
    doubles ([Double]); [timestamp_ns] is declared a number in every row. *)
From S2P Require Import Prelude JsString Format Homer LadderOrder Double.
From Stdlib Require Import QArith.

Local Close Scope Q_scope.
Local Open Scope string_scope.
Local Open Scope Z_scope.
Local Open Scope list_scope.

Inductive Leg := leg_a | leg_b | leg_unknown.

#[export] Instance Leg_eq_dec : EqDecision Leg.
Proof. solve_decision. Defined.

Inductive Color :=
  | c_invite | c_bye | c_ack | c_provisional | c_success | c_redirect | c_clientError | c_serverError
  | c_aLeg | c_bLeg | c_retransmission | c_internalHandoff | c_textMuted.

(** ** Descriptions *)

Definition RESPONSE_DESCRIPTIONS : list (Z * string) :=
  [(100, "Trying"); (180, "Ringing"); (181, "Call Is Being Forwarded"); (182, "Queued");
   (183, "Session Progress"); (199, "Early Dialog Terminated"); (200, "OK"); (202, "Accepted");
   (300, "Multiple Choices"); (301, "Moved Permanently"); (302, "Moved Temporarily"); (305, "Use Proxy");
   (380, "Alternative Service"); (400, "Bad Request"); (401, "Unauthorized"); (403, "Forbidden");
   (404, "Not Found"); (405, "Method Not Allowed"); (406, "Not Acceptable");
   (407, "Proxy Authentication Required"); (408, "Request Timeout"); (410, "Gone");
   (413, "Request Entity Too Large"); (415, "Unsupported Media Type"); (416, "Unsupported URI Scheme");
   (420, "Bad Extension"); (421, "Extension Required"); (422, "Session Interval Too Small");
   (423, "Interval Too Brief"); (480, "Temporarily Unavailable"); (481, "Call/Transaction Does Not Exist");
   (482, "Loop Detected"); (483, "Too Many Hops"); (484, "Address Incomplete"); (485, "Ambiguous");
   (486, "Busy Here"); (487, "Request Terminated"); (488, "Not Acceptable Here"); (489, "Bad Event");
   (491, "Request Pending"); (493, "Undecipherable"); (500, "Server Internal Error");
   (501, "Not Implemented"); (502, "Bad Gateway"); (503, "Service Unavailable"); (504, "Server Time-out");
   (505, "Version Not Supported"); (513, "Message Too Large"); (600, "Busy Everywhere"); (603, "Decline");
   (604, "Does Not Exist Anywhere"); (606, "Not Acceptable")].

Definition getResponseDescription (status : Z) : string :=
  match om_get status RESPONSE_DESCRIPTIONS with
  | Some known => known
  | None =>
      if (100 <=? status) && (status <? 200) then "Provisional"
      else if (200 <=? status) && (status <? 300) then "Success"
      else if (300 <=? status) && (status <? 400) then "Redirection"
      else if (400 <=? status) && (status <? 500) then "Client Error"
      else if (500 <=? status) && (status <? 600) then "Server Error"
      else if (600 <=? status) && (status <? 700) then "Global Failure"
      else "Unknown"
  end.

Definition formatMessageLabel (msg : HomerSearchResult) : string :=
  match hr_status msg with
  | None => hr_method msg
  | Some status => print_int status +:+ " " +:+ getResponseDescription status
  end.

(** The text of a duration of [deltaMs] milliseconds. *)
Definition format_positive (deltaMs : Q) : string :=
  if negb (Qle_bool 10 deltaMs) then toFixed1 deltaMs +:+ "ms"
  else if negb (Qle_bool 1000 deltaMs) then print_int (round_d deltaMs) +:+ "ms"
  else if negb (Qle_bool 10000 deltaMs) then toFixed1 (div_d deltaMs 1000) +:+ "s"
  else print_int (round_d (div_d deltaMs 1000)) +:+ "s".
Definition formatTimeDelta (deltaMs : Q) : string :=
  if negb (Qle_bool 0 deltaMs) then format_positive (- deltaMs) else format_positive deltaMs.

Definition getMessageColor (msg : HomerSearchResult) (leg : Leg) : Color :=
  match hr_status msg with
  | None =>
      if hr_method msg ==? "INVITE" then (match leg with leg_b => c_bLeg | _ => c_aLeg end)
      else if hr_method msg ==? "BYE" then c_bye
      else if hr_method msg ==? "ACK" then c_ack
      else if hr_method msg ==? "CANCEL" then c_serverError
      else c_invite
  | Some status =>
      if (200 <=? status) && (status <? 300) then c_success
      else if (100 <=? status) && (status <? 200) then c_provisional
      else if (300 <=? status) && (status <? 400) then c_redirect
      else if (400 <=? status) && (status <? 500) then c_clientError
      else if 500 <=? status then c_serverError
      else c_textMuted
  end.

(** ** Node roles *)

(** [/(^|[^A-Z0-9])BW($|[^A-Z0-9])/] *)
Fixpoint bw_token (free : bool) (s : string) : bool :=
  (free && starts_with "BW" s && negb (word_start (slice_from 2 s)))
  || match s with "" => false | String a s => bw_token (negb (word_char a)) s end.

Definition classifyNodeRole (name : string) : NodeRole :=
  let up := upper name in
  if contains "VIP" up then sbc_vip
  else if (up ==? "BW") || bw_token true up then carrier_ingress
  else if contains "SBC" up then sbc
  else if contains "FREESWITCH" up || fs_token true up then media_server
  else unknown_role.

(** ** Retransmissions *)

Definition timestamp (msg : HomerSearchResult) : Z := default 0 (hr_timestamp_ns msg).

(** [msg.timestamp_ns / 1_000_000] *)
Definition time_ms (msg : HomerSearchResult) : Q := div_d (inject_Z (timestamp msg)) 1000000.

Definition RETRANSMISSION_TXN_WINDOW_MS : Q := 32000.

(** [!!s] *)
Definition filled (s : option string) : bool := match s with Some t => t !=? "" | None => false end.

Definition has_txn_key (msg : HomerSearchResult) : bool := filled (hr_via_branch msg) && filled (hr_cseq msg).

Definition same_hop_same_shape (prev msg : HomerSearchResult) : bool :=
  (hr_callid prev ==? hr_callid msg) && (hr_method prev ==? hr_method msg) && (hr_status prev ==? hr_status msg)
  && (hr_src_ip prev ==? hr_src_ip msg) && (hr_dst_ip prev ==? hr_dst_ip msg).

Definition before (a b : Q) : bool := negb (Qle_bool b a).

(** The earlier messages, the most recent first. *)
Fixpoint retransmission_walk (msg : HomerSearchResult) (legacyStart txnStart : Q) (prevs : list HomerSearchResult) : bool :=
  match prevs with
  | [] => false
  | prev :: prevs =>
      let continue := retransmission_walk msg legacyStart txnStart prevs in
      if before (time_ms prev) txnStart && before (time_ms prev) legacyStart then false
      else if negb (same_hop_same_shape prev msg) then continue
      else if has_txn_key msg && has_txn_key prev then
        if (hr_via_branch prev ==? hr_via_branch msg) && (hr_cseq prev ==? hr_cseq msg)
           && Qle_bool txnStart (time_ms prev)
        then true else continue
      else if Qle_bool legacyStart (time_ms prev) then true
      else continue
  end.

Definition isRetransmission (msg : HomerSearchResult) (prevMessages : list HomerSearchResult) : bool :=
  retransmission_walk msg (sub_d (time_ms msg) 500) (sub_d (time_ms msg) RETRANSMISSION_TXN_WINDOW_MS)
    (rev prevMessages).
