(* ===== verification/LadderLayout.v ===== *)
(** * Layout of the SIP ladder ([components/sip-ladder/sipLadderLayout.ts])

    Messages are put in order, participants become columns, and every message
    an arrow between two of them.  A row is a message with its position in
    the input, which stands for the identity of the object. *)
From S2P Require Import Prelude JsString Format Homer LadderOrder Double SipText SipInfo LadderRows.
From Stdlib Require Import QArith.

Local Close Scope Q_scope.
Local Open Scope string_scope.
Local Open Scope Z_scope.
Local Open Scope list_scope.

Definition Row : Type := nat * HomerSearchResult.

(** [set.add(x)] on a set in insertion order. *)
Definition set_add (x : string) (l : list string) : list string := if includes l x then l else l ++ [x].

(** ** Order *)

Definition seq_of (r : Row) : Z := default 0 (hr_seq r.2).

Definition transactionKey (msg : HomerSearchResult) : string :=
  let cseq := trim (default "" (hr_cseq msg)) in
  hr_callid msg +:+ "|" +:+ (if cseq ==? "" then hr_method msg else cseq).

Definition row_key (r : Row) : string := transactionKey r.2.
Definition is_request (r : Row) : bool := match hr_status r.2 with None => true | Some _ => false end.

(** The variables of the loop of [enforceCausality]. *)
Record causal_loop := {
  cl_out : list Row;
  cl_moved : list nat;
  cl_seenRequest : list string;
  cl_deferred : list (string * list Row);
}.

Definition causal_step (hasRequest : list string) (st : causal_loop) (m : Row) : causal_loop :=
  let key := row_key m in
  if is_request m then
    if includes (cl_seenRequest st) key then
      Build_causal_loop (cl_out st ++ [m]) (cl_moved st) (cl_seenRequest st) (cl_deferred st)
    else
      let waiting := default [] (om_get key (cl_deferred st)) in
      Build_causal_loop (cl_out st ++ m :: waiting) (cl_moved st ++ List.map fst waiting)
        (set_add key (cl_seenRequest st)) (om_del key (cl_deferred st))
  else if includes (cl_seenRequest st) key || negb (includes hasRequest key) then
    Build_causal_loop (cl_out st ++ [m]) (cl_moved st) (cl_seenRequest st) (cl_deferred st)
  else
    Build_causal_loop (cl_out st) (cl_moved st) (cl_seenRequest st)
      (om_set key (default [] (om_get key (cl_deferred st)) ++ [m]) (cl_deferred st)).

Definition requests_of (rows : list Row) : list string :=
  fold_left (λ s m, if is_request m then set_add (row_key m) s else s) rows [].

Definition causal_run (byTimestamp : list Row) : causal_loop :=
  fold_left (causal_step (requests_of byTimestamp)) byTimestamp (Build_causal_loop [] [] [] []).

(** [sorted] and [causallyMoved]. *)
Definition enforceCausality (byTimestamp : list Row) : list Row * list nat :=
  let st := causal_run byTimestamp in
  (cl_out st ++ List.concat (List.map snd (cl_deferred st)), cl_moved st).

Definition has_seq (m : HomerSearchResult) : bool := match hr_seq m with Some _ => true | None => false end.

Definition orderMessages (messages : list HomerSearchResult) : list Row * list nat :=
  let rows := imap (λ i m, (i, m)) messages in
  if forallb has_seq messages then (sort_by (λ a b, seq_of a <=? seq_of b) rows, [])
  else enforceCausality (sort_by (λ a b : Row, timestamp a.2 <=? timestamp b.2) rows).

(** ** Legs *)

Definition isCarrierRole (role : NodeRole) : bool :=
  match role with carrier_ingress | carrier_egress => true | _ => false end.

Definition primaryInviteScore (msg : HomerSearchResult) : Z :=
  match classifyNodeRole (hr_src_ip msg) with
  | carrier_ingress | carrier_egress => 0
  | sbc_vip => 1
  | media_server => 3
  | sbc | unknown_role => 2
  end.

Definition invite_request (msg : HomerSearchResult) : bool :=
  (hr_method msg ==? "INVITE") && (hr_status msg ==? None).

(** The loop over the INVITEs; [best] has the score of the row kept. *)
Fixpoint best_invite (best : option (HomerSearchResult * Z)) (sorted : list HomerSearchResult) : option HomerSearchResult :=
  match sorted with
  | [] => fst <$> best
  | m :: sorted =>
      if negb (invite_request m) then best_invite best sorted
      else
        let score := primaryInviteScore m in
        if match best with Some (_, bestScore) => score <? bestScore | None => true end then
          if score =? 0 then Some m else best_invite (Some (m, score)) sorted
        else best_invite best sorted
  end.

(** The Call-IDs correlated to the primary one. *)
Definition correlated_ids (primaryCallId : string) (correlations : list (string * list string)) : list string :=
  fold_left
    (λ ids '(key, values),
      if (key ==? primaryCallId) || includes values primaryCallId
      then fold_left (λ ids v, set_add v ids) values (set_add key ids) else ids)
    correlations [].

(** A Call-ID in no correlation group. *)
Definition place_call (firstInvite : HomerSearchResult) (sorted : list HomerSearchResult)
    (legs : list string * list string) (callId : string) : list string * list string :=
  let '(a, b) := legs in
  if includes a callId || includes b callId then legs
  else match List.find (λ m, (hr_callid m ==? callId) && invite_request m) sorted with
       | Some its => if hr_src_ip its ==? hr_src_ip firstInvite then (set_add callId a, b) else (a, set_add callId b)
       | None => (a, set_add callId b)
       end.

(** [aLegCallIds] and [bLegCallIds]. *)
Definition classifyCallLegs (sorted : list HomerSearchResult) (correlations : list (string * list string))
    : list string * list string :=
  match best_invite None sorted with
  | None => match sorted with [] => ([], []) | m :: _ => ([hr_callid m], []) end
  | Some firstInvite =>
      let primaryCallId := hr_callid firstInvite in
      let b := List.filter (λ id, id !=? primaryCallId) (correlated_ids primaryCallId correlations) in
      let allCallIds := fold_left (λ s m, set_add (hr_callid m) s) sorted [] in
      fold_left (place_call firstInvite sorted) allCallIds ([primaryCallId], b)
  end.

Definition determineLeg (callId : string) (a b : list string) : Leg :=
  if includes a callId then leg_a else if includes b callId then leg_b else leg_unknown.

(** ** Columns *)

Record LadderNode := {
  ln_id : string;
  ln_displayLabel : option string;
  ln_role : NodeRole;
  ln_columnIndex : Z;
  ln_legTag : option Leg;
  ln_endpointTag : option EndpointTag;
}.

Definition discoverNodes (sorted : list HomerSearchResult) : list string :=
  fold_left (λ seen m, set_add (hr_dst_ip m) (set_add (hr_src_ip m) seen)) sorted [].

(** The nodes of each leg, and the carriers at the ends of its INVITEs. *)
Record leg_nodes := {
  lg_a : list string;
  lg_b : list string;
  lg_aInviteSrcs : list string;
  lg_bInviteDsts : list string;
}.

Definition leg_step (aLegCallIds bLegCallIds : list string) (s : leg_nodes) (m : HomerSearchResult) : leg_nodes :=
  if includes aLegCallIds (hr_callid m) then
    Build_leg_nodes (set_add (hr_dst_ip m) (set_add (hr_src_ip m) (lg_a s))) (lg_b s)
      (if invite_request m then set_add (hr_src_ip m) (lg_aInviteSrcs s) else lg_aInviteSrcs s) (lg_bInviteDsts s)
  else if includes bLegCallIds (hr_callid m) then
    Build_leg_nodes (lg_a s) (set_add (hr_dst_ip m) (set_add (hr_src_ip m) (lg_b s))) (lg_aInviteSrcs s)
      (if invite_request m then set_add (hr_dst_ip m) (lg_bInviteDsts s) else lg_bInviteDsts s)
  else s.

Definition legs_of (sorted : list HomerSearchResult) (a b : list string) : leg_nodes :=
  fold_left (leg_step a b) sorted (Build_leg_nodes [] [] [] []).

(** A node's role, a carrier's side taken from the call flow. *)
Definition refined_role (s : leg_nodes) (name : string) : NodeRole :=
  let role := classifyNodeRole name in
  if negb (isCarrierRole role) then role
  else if includes (lg_aInviteSrcs s) name || includes (lg_a s) name then carrier_ingress
  else if includes (lg_bInviteDsts s) name || includes (lg_b s) name then carrier_egress
  else role.

(** [orderedNodes] and [bLegInsertIndex]. *)
Definition orderNodes (sorted : list HomerSearchResult) (allNodeNames aLegCallIds bLegCallIds : list string)
    : list LadderNode * nat :=
  let role := refined_role (legs_of sorted aLegCallIds bLegCallIds) in
  let participants := List.map (λ id, Build_OrderParticipant id (role id)) allNodeNames in
  let wire := List.map (λ m, Build_OrderWireMessage (hr_src_ip m) (hr_dst_ip m) (invite_request m)) sorted in
  let columns := orderLadderColumns participants wire in
  (imap (λ i id, Build_LadderNode id None (role id) (Z.of_nat i) None (om_get id (oc_endpointTags columns)))
     (oc_orderedIds columns),
   oc_bLegInsertIndex columns).

Definition BLEG_SUFFIX : string := "__bleg".

(** [findIndex], counted from [i]. *)
Fixpoint find_node (f : LadderNode → bool) (i : Z) (l : list LadderNode) : Z :=
  match l with [] => -1 | x :: l => if f x then i else find_node f (i + 1) l end.
Definition is_media (n : LadderNode) : bool := ln_role n ==? media_server.
Definition media_column (nodes : list LadderNode) : Z := find_node is_media 0 nodes.

Definition must_split (s : leg_nodes) (mediaPivotIdx : Z) (idx : Z) (n : LadderNode) : bool :=
  includes (lg_a s) (ln_id n) && includes (lg_b s) (ln_id n)
  && ((ln_role n ==? sbc) || ((ln_role n ==? unknown_role) && (0 <=? mediaPivotIdx) && (idx <? mediaPivotIdx))).

Definition nodes_to_split (s : leg_nodes) (nodes : list LadderNode) : list string :=
  List.concat (imap (λ i n, if must_split s (media_column nodes) (Z.of_nat i) n then [ln_id n] else []) nodes).

Definition tag_a (split : list string) (n : LadderNode) : LadderNode :=
  if includes split (ln_id n)
  then Build_LadderNode (ln_id n) (ln_displayLabel n) (ln_role n) (ln_columnIndex n) (Some leg_a) (ln_endpointTag n)
  else n.
Definition virtual_b (n : LadderNode) : LadderNode :=
  Build_LadderNode (ln_id n +:+ BLEG_SUFFIX) (Some (ln_id n)) (ln_role n) (-1) (Some leg_b) None.
Definition at_column (i : nat) (n : LadderNode) : LadderNode :=
  Build_LadderNode (ln_id n) (ln_displayLabel n) (ln_role n) (Z.of_nat i) (ln_legTag n) (ln_endpointTag n).

(** [id.endsWith('__bleg')], and the id before it. *)
Definition physical_id (id : string) : option string :=
  if starts_with (srev BLEG_SUFFIX) (srev id) then Some (stake (String.length id - String.length BLEG_SUFFIX) id) else None.

(** [finalNodes] and [bLegColumnIndex]. *)
Definition splitDualLegNodes (orderedNodes : list LadderNode) (sorted : list HomerSearchResult)
    (aLegCallIds bLegCallIds : list string) (bLegInsertIndex : nat) : list LadderNode * list (string * Z) :=
  let split := nodes_to_split (legs_of sorted aLegCallIds bLegCallIds) orderedNodes in
  match split with
  | [] => (orderedNodes, [])
  | _ =>
      let tagged := List.map (tag_a split) orderedNodes in
      let virtuals := List.map virtual_b (List.filter (λ n, includes split (ln_id n)) orderedNodes) in
      let finalNodes := imap at_column (take bLegInsertIndex tagged ++ virtuals ++ drop bLegInsertIndex tagged) in
      (finalNodes,
       fold_left (λ m n, match physical_id (ln_id n) with Some p => om_set p (ln_columnIndex n) m | None => m end)
         finalNodes [])
  end.

(** ** Directions *)

Definition resolveColumn (physicalId : string) (leg : Leg) (columnIndex bLegColumnIndex : list (string * Z)) : option Z :=
  match (match leg with leg_b => om_get physicalId bLegColumnIndex | _ => None end) with
  | Some col => Some col
  | None => om_get physicalId columnIndex
  end.

Record HostColumnIndex := {
  hc_aLeg : list (string * Z);
  hc_bLeg : list (string * Z);
  hc_any : list (string * Z);
}.

Record ResolveContext := {
  rc_columnIndex : list (string * Z);
  rc_bLegColumnIndex : list (string * Z);
  rc_hostColumnIndex : HostColumnIndex;
  rc_mediaCol : Z;
  rc_nodeCount : Z;
}.

Record ResolvedDirection := {
  rd_sourceCol : Z;
  rd_destCol : Z;
  rd_inferred : bool;
}.

Definition set_if_absent (k : string) (col : Z) (m : list (string * Z)) : list (string * Z) :=
  if om_has k m then m else om_set k col m.

Definition record_host (b : bool) (h : HostColumnIndex) (hostKey : string) (col : Z) : HostColumnIndex :=
  let key := lower hostKey in
  Build_HostColumnIndex (if b then hc_aLeg h else om_set key col (hc_aLeg h))
    (if b then om_set key col (hc_bLeg h) else hc_bLeg h) (set_if_absent key col (hc_any h)).

Definition record_message (columnIndex : list (string * Z)) (h : HostColumnIndex) (msg : HomerSearchResult) : HostColumnIndex :=
  let h := match om_get (hr_src_ip msg) columnIndex with Some col => record_host false h (hr_src_ip msg) col | None => h end in
  match om_get (hr_dst_ip msg) columnIndex with Some col => record_host false h (hr_dst_ip msg) col | None => h end.

Definition buildHostColumnIndex (sorted : list HomerSearchResult) (columnIndex bLegColumnIndex : list (string * Z))
    : HostColumnIndex :=
  let h := fold_left (λ h '(node, col), record_host false h node col) columnIndex (Build_HostColumnIndex [] [] []) in
  let h := fold_left (λ h '(physicalId, col), record_host true h physicalId col) bLegColumnIndex h in
  fold_left (record_message columnIndex) sorted h.

Definition lookupHostColumn (host : string) (leg : Leg) (h : HostColumnIndex) : option Z :=
  if host ==? "" then None
  else
    let key := lower host in
    match (match leg with leg_b => om_get key (hc_bLeg h) | _ => om_get key (hc_aLeg h) end) with
    | Some col => Some col
    | None => om_get key (hc_any h)
    end.

Definition fallbackAnchorByLeg (leg : Leg) (ctx : ResolveContext) : Z :=
  if 0 <=? rc_mediaCol ctx then
    match leg with
    | leg_b => Z.min (rc_mediaCol ctx + 1) (rc_nodeCount ctx - 1)
    | _ => Z.max (rc_mediaCol ctx - 1) 0
    end
  else match leg with leg_b => rc_nodeCount ctx - 1 | _ => 0 end.

(** The scheme is dropped whatever its case, then [tel:]. *)
Definition drop_scheme_any_case (uri : string) : string :=
  let s := if starts_with "sips:" (lower uri) then slice_from 5 uri
           else if starts_with "sip:" (lower uri) then slice_from 4 uri else uri in
  if starts_with "tel:" (lower s) then slice_from 4 s else s.

Definition splitUriHost (uri : string) : string :=
  let cleaned := before_semi (after_at (drop_scheme_any_case uri)) in
  match (match cleaned with String "["%char rest => cut "]" rest | _ => None end) with
  | Some (host, _) => host
  | None => trim (fst (split_port cleaned))
  end.

(** Where a message goes next: for a request the topmost Route, its URI and
    its Contact; for a response the Via hosts, from the top. *)
Definition candidate_hosts (msg : HomerSearchResult) (info : SIPMessageInfo) : list string :=
  List.filter (λ h, h !=? "")
    (if si_isRequest info || (hr_status msg ==? None) then
       match si_routes info with r :: _ => [ri_host r] | [] => [] end
       ++ (if si_requestUri info ==? "" then [] else [splitUriHost (si_requestUri info)])
       ++ match si_contact info with Some c => [ci_host c] | None => [] end
     else List.map (λ via, or_else (vi_host via) (vi_received via)) (si_vias info)).

Fixpoint first_other_column (hosts : list string) (leg : Leg) (anchorCol : Z) (h : HostColumnIndex) : option Z :=
  match hosts with
  | [] => None
  | host :: hosts =>
      match lookupHostColumn host leg h with
      | Some col => if col =? anchorCol then first_other_column hosts leg anchorCol h else Some col
      | None => first_other_column hosts leg anchorCol h
      end
  end.

Definition resolvePeerColumnFromSip (msg : HomerSearchResult) (leg : Leg) (anchorCol : Z) (ctx : ResolveContext) : option Z :=
  match hr_raw_msg msg with
  | None => None
  | Some raw =>
      if raw ==? "" then None
      else first_other_column (candidate_hosts msg (extractSIPInfo raw)) leg anchorCol (rc_hostColumnIndex ctx)
  end.

Definition nearestAdjacentColumn (anchorCol : Z) (leg : Leg) (ctx : ResolveContext) : Z :=
  let last := rc_nodeCount ctx - 1 in
  if last <=? 0 then anchorCol
  else
    let pivot := if 0 <=? rc_mediaCol ctx then rc_mediaCol ctx else rc_nodeCount ctx / 2 in
    let towardRight := match leg with leg_b => true | _ => anchorCol <? pivot end in
    if towardRight && (anchorCol <? last) then anchorCol + 1
    else if negb towardRight && (0 <? anchorCol) then anchorCol - 1
    else if anchorCol <? last then anchorCol + 1 else anchorCol - 1.

Definition resolveMessageDirection (msg : HomerSearchResult) (leg : Leg) (ctx : ResolveContext) : ResolvedDirection :=
  let srcCol := resolveColumn (hr_src_ip msg) leg (rc_columnIndex ctx) (rc_bLegColumnIndex ctx) in
  let dstCol := resolveColumn (hr_dst_ip msg) leg (rc_columnIndex ctx) (rc_bLegColumnIndex ctx) in
  let inferred :=
    let anchorCol := default (default (fallbackAnchorByLeg leg ctx) dstCol) srcCol in
    match resolvePeerColumnFromSip msg leg anchorCol ctx with
    | Some peer =>
        if peer =? anchorCol then Build_ResolvedDirection anchorCol (nearestAdjacentColumn anchorCol leg ctx) true
        else Build_ResolvedDirection anchorCol peer true
    | None => Build_ResolvedDirection anchorCol (nearestAdjacentColumn anchorCol leg ctx) true
    end in
  match srcCol, dstCol with
  | Some s, Some d => if s =? d then inferred else Build_ResolvedDirection s d false
  | _, _ => inferred
  end.

(** [Math.min(...values)] *)
Definition min_column (m : list (string * Z)) : option Z :=
  match List.map snd m with [] => None | c :: l => Some (foldr Z.min c l) end.

Definition resolveHairpinColumn (msg : HomerSearchResult) (leg : Leg) (ctx : ResolveContext) : ResolvedDirection :=
  let column id := resolveColumn id leg (rc_columnIndex ctx) (rc_bLegColumnIndex ctx) in
  let col :=
    match (match leg with leg_b => min_column (rc_bLegColumnIndex ctx) | _ => None end) with
    | Some c => c
    | None => default (default (fallbackAnchorByLeg leg ctx) (column (hr_dst_ip msg))) (column (hr_src_ip msg))
    end in
  Build_ResolvedDirection col col false.

(** ** Messages *)

(** The React key of a message: Call-ID, time and position; a connector's is
    its anchor's with the columns it joins. *)
Inductive MessageKey :=
  | key_row (callid : string) (timestamp_ns : Z) (i : nat)
  | key_handoff (anchor : MessageKey) (inwards : bool) (fromCol toCol : Z).

Record LadderMessage := {
  lm_id : MessageKey;
  lm_original : HomerSearchResult;
  lm_sourceCol : Z;
  lm_destCol : Z;
  lm_right : bool;
  lm_color : Color;
  lm_label : string;
  lm_isRetransmission : bool;
  lm_isHairpin : bool;
  lm_tsCorrected : bool;
  lm_leg : Leg;
  lm_timeDeltaMs : option Q;
  lm_directionInferred : bool;
  lm_internalHandoff : bool;
}.

Definition is_hairpin (msg : HomerSearchResult) : bool :=
  hr_hairpin msg || ((hr_src_ip msg !=? "") && (hr_src_ip msg ==? hr_dst_ip msg)).

(** [(a - b) / 1_000_000] *)
Definition delta_ms (a b : Z) : Q := div_d (sub_d (inject_Z a) (inject_Z b)) 1000000.

(** One turn of the loop: row [i], with the rows before it. *)
Definition layout_message (ctx : ResolveContext) (a b : list string) (moved : list nat) (prev : list Row)
    (i : nat) (row : Row) : LadderMessage :=
  let msg := row.2 in
  let leg := determineLeg (hr_callid msg) a b in
  let isRetransmit := isRetransmission msg (List.map snd prev) in
  let isHairpin := is_hairpin msg in
  let resolved := if isHairpin then resolveHairpinColumn msg leg ctx else resolveMessageDirection msg leg ctx in
  {| lm_id := key_row (hr_callid msg) (timestamp msg) i; lm_original := msg;
     lm_sourceCol := rd_sourceCol resolved; lm_destCol := rd_destCol resolved;
     lm_right := rd_sourceCol resolved <=? rd_destCol resolved;
     lm_color := if isRetransmit then c_retransmission else getMessageColor msg leg;
     lm_label := formatMessageLabel msg; lm_isRetransmission := isRetransmit; lm_isHairpin := isHairpin;
     lm_tsCorrected := hr_ts_corrected msg || bool_decide (row.1 ∈ moved); lm_leg := leg;
     lm_timeDeltaMs := (λ p : Row, delta_ms (timestamp msg) (timestamp p.2)) <$> last prev;
     lm_directionInferred := rd_inferred resolved; lm_internalHandoff := false |}.

Fixpoint layout_messages (ctx : ResolveContext) (a b : list string) (moved : list nat) (prev rows : list Row)
    : list LadderMessage :=
  match rows with
  | [] => []
  | row :: rows => layout_message ctx a b moved prev (length prev) row :: layout_messages ctx a b moved (prev ++ [row]) rows
  end.

(** ** Internal handoffs *)

Definition zonePrefixOfSbcName (name : string) : option string := fst <$> cut_at "SBC" (upper name).

Definition shown_name (n : LadderNode) : string := default (ln_id n) (ln_displayLabel n).

(** The nearest column of an SBC in the zone, the first of two as near. *)
Fixpoint nearest_sbc (zone : string) (vipCol i : Z) (best : option (Z * Z)) (nodes : list LadderNode) : option Z :=
  match nodes with
  | [] => fst <$> best
  | node :: nodes =>
      let dist := Z.abs (i - vipCol) in
      let closer := match best with Some (_, bestDist) => dist <? bestDist | None => true end in
      if (ln_role node ==? sbc) && (zonePrefixOfSbcName (shown_name node) ==? Some zone) && closer
      then nearest_sbc zone vipCol (i + 1) (Some (i, dist)) nodes
      else nearest_sbc zone vipCol (i + 1) best nodes
  end.

Definition node_at (nodes : list LadderNode) (col : Z) : option LadderNode :=
  if col <? 0 then None else nodes !! Z.to_nat col.

Definition findSiblingSbcColumn (vipCol : Z) (nodes : list LadderNode) : option Z :=
  match node_at nodes vipCol with
  | Some vipNode =>
      match zonePrefixOfSbcName (shown_name vipNode) with
      | Some vipZone => nearest_sbc vipZone vipCol 0 None nodes
      | None => None
      end
  | None => None
  end.

Definition without_raw (m : HomerSearchResult) : HomerSearchResult :=
  Build_HomerSearchResult (hr_timestamp m) (hr_timestamp_ns m) (hr_from_user m) (hr_to_user m) (hr_callid m)
    (hr_method m) (hr_src_ip m) (hr_dst_ip m) (hr_status m) (hr_node m) (hr_cseq m) (hr_via_branch m) (hr_hairpin m)
    (hr_ts_corrected m) (hr_seq m) None (hr_attestation m).

Definition makeHandoffMessage (fromCol toCol : Z) (anchor : LadderMessage) (inwards : bool) : LadderMessage :=
  {| lm_id := key_handoff (lm_id anchor) inwards fromCol toCol; lm_original := without_raw (lm_original anchor);
     lm_sourceCol := fromCol; lm_destCol := toCol; lm_right := fromCol <=? toCol; lm_color := c_internalHandoff;
     lm_label := "internal loopback"; lm_isRetransmission := false; lm_isHairpin := false; lm_tsCorrected := false;
     lm_leg := lm_leg anchor; lm_timeDeltaMs := Some 0%Q; lm_directionInferred := true; lm_internalHandoff := true |}.

Definition role_at (nodes : list LadderNode) (col : Z) : option NodeRole := ln_role <$> node_at nodes col.
Definition is_vip_col (nodes : list LadderNode) (col : Z) : bool := role_at nodes col ==? Some sbc_vip.
Definition isCarrierCol (nodes : list LadderNode) (col : Z) : bool :=
  match role_at nodes col with Some r => isCarrierRole r | None => false end.

(** [lastSrcPos] and [firstDstPos], keyed by leg and column. *)
Definition bump (store : list (Leg * Z * nat)) (leg : Leg) (col : Z) (pos : nat) (keepLatest : bool)
    : list (Leg * Z * nat) :=
  match om_get (leg, col) store with
  | None => om_set (leg, col) pos store
  | Some cur =>
      if (if keepLatest then cur <? pos else pos <? cur)%nat then om_set (leg, col) pos store else store
  end.

Definition index_step (st : list (Leg * Z * nat) * list (Leg * Z * nat)) (im : nat * LadderMessage)
    : list (Leg * Z * nat) * list (Leg * Z * nat) :=
  let '(i, m) := im in
  if lm_internalHandoff m || lm_isHairpin m then st
  else (bump st.1 (lm_leg m) (lm_sourceCol m) i true, bump st.2 (lm_leg m) (lm_destCol m) i false).

Definition positions (messages : list LadderMessage) : list (Leg * Z * nat) * list (Leg * Z * nat) :=
  fold_left index_step (imap (λ i m, (i, m)) messages) ([], []).

Definition hasLaterSrc (messages : list LadderMessage) (leg : Leg) (col : Z) (pos : nat) : bool :=
  match om_get (leg, col) (positions messages).1 with Some p => (pos <? p)%nat | None => false end.
Definition hasEarlierDst (messages : list LadderMessage) (leg : Leg) (col : Z) (pos : nat) : bool :=
  match om_get (leg, col) (positions messages).2 with Some p => (p <? pos)%nat | None => false end.

Definition boundary (m : LadderMessage) : Leg * Z * Z := (lm_leg m, lm_sourceCol m, lm_destCol m).

(** [emitOnce]: the connectors pushed, and the boundaries emitted. *)
Definition emitOnce (emitted : list (Leg * Z * Z)) (from to : Z) (anchor : LadderMessage) (inwards : bool)
    : list LadderMessage * list (Leg * Z * Z) :=
  if from =? to then ([], emitted)
  else if bool_decide ((lm_leg anchor, from, to) ∈ emitted) then ([], emitted)
  else ([makeHandoffMessage from to anchor inwards], emitted ++ [(lm_leg anchor, from, to)]).

(** One turn of the walk: what is pushed for row [i]. *)
Definition handoff_step (messages : list LadderMessage) (nodes : list LadderNode)
    (emitted : list (Leg * Z * Z)) (i : nat) (msg : LadderMessage) : list LadderMessage * list (Leg * Z * Z) :=
  if lm_internalHandoff msg then ([msg], emitted)
  else
    let '(before, emitted) :=
      if negb (lm_isHairpin msg) && is_vip_col nodes (lm_sourceCol msg) && isCarrierCol nodes (lm_destCol msg) then
        match findSiblingSbcColumn (lm_sourceCol msg) nodes with
        | Some sibling =>
            if hasEarlierDst messages (lm_leg msg) sibling i
            then emitOnce emitted sibling (lm_sourceCol msg) msg false else ([], emitted)
        | None => ([], emitted)
        end
      else ([], emitted) in
    let '(after, emitted) :=
      if negb (lm_isHairpin msg) && is_vip_col nodes (lm_destCol msg) then
        match findSiblingSbcColumn (lm_destCol msg) nodes with
        | Some sibling =>
            if hasLaterSrc messages (lm_leg msg) sibling i
            then emitOnce emitted (lm_destCol msg) sibling msg true else ([], emitted)
        | None => ([], emitted)
        end
      else ([], emitted) in
    (before ++ msg :: after, emitted).

Fixpoint handoff_walk (messages : list LadderMessage) (nodes : list LadderNode) (emitted : list (Leg * Z * Z))
    (i : nat) (rest : list LadderMessage) : list LadderMessage :=
  match rest with
  | [] => []
  | msg :: rest =>
      let '(out, emitted) := handoff_step messages nodes emitted i msg in
      out ++ handoff_walk messages nodes emitted (S i) rest
  end.

Definition injectInternalHandoffs (messages : list LadderMessage) (nodes : list LadderNode) : list LadderMessage :=
  if existsb (λ n, ln_role n ==? sbc_vip) nodes then
    handoff_walk messages nodes (List.map boundary (List.filter lm_internalHandoff messages)) 0 messages
  else messages.

(** ** The layout *)

Record LadderLayout := {
  ll_nodes : list LadderNode;
  ll_messages : list LadderMessage;
  ll_aLegCallIds : list string;
  ll_bLegCallIds : list string;
  ll_callDurationMs : option Q;
}.

Definition call_duration (sorted : list HomerSearchResult) : option Q :=
  match List.map timestamp sorted with
  | t :: (_ :: _) as l => Some (delta_ms (foldr Z.max t l) (foldr Z.min t l))
  | _ => None
  end.

(** What resolving a message needs. *)
Definition layout_context (sorted : list HomerSearchResult) (finalNodes : list LadderNode)
    (bLegColumnIndex : list (string * Z)) : ResolveContext :=
  let columnIndex := om_of_list (imap (λ i n, (ln_id n, Z.of_nat i)) finalNodes) in
  {| rc_columnIndex := columnIndex; rc_bLegColumnIndex := bLegColumnIndex;
     rc_hostColumnIndex := buildHostColumnIndex sorted columnIndex bLegColumnIndex;
     rc_mediaCol := media_column finalNodes; rc_nodeCount := Z.of_nat (length finalNodes) |}.

Definition computeLayout (messages : list HomerSearchResult) (correlations : list (string * list string)) : LadderLayout :=
  if bool_decide (length messages = 0%nat) then Build_LadderLayout [] [] [] [] None
  else
    let '(rows, causallyMoved) := orderMessages messages in
    let sorted := List.map snd rows in
    let '(a, b) := classifyCallLegs sorted correlations in
    let '(orderedNodes, bLegInsertIndex) := orderNodes sorted (discoverNodes sorted) a b in
    let '(finalNodes, bLegColumnIndex) := splitDualLegNodes orderedNodes sorted a b bLegInsertIndex in
    let ctx := layout_context sorted finalNodes bLegColumnIndex in
    {| ll_nodes := finalNodes;
       ll_messages := injectInternalHandoffs (layout_messages ctx a b causallyMoved [] rows) finalNodes;
       ll_aLegCallIds := a; ll_bLegCallIds := b; ll_callDurationMs := call_duration sorted |}.
