(* ===== verification/CausalOk.v ===== *)
(** * The causality pass

    What [enforceCausality] promises: it loses no row, puts no response above
    the first request of its transaction, and moves only the responses that
    stood there. *)
From S2P Require Import Prelude JsString Homer LadderRows LadderLayout.

Local Open Scope nat_scope.

(** ** Sets *)

Lemma elem_of_set_add x y l : y ∈ set_add x l ↔ y = x ∨ y ∈ l.
Proof.
  unfold set_add. destruct (includes l x) eqn:E.
  - apply includes_true in E. naive_solver.
  - rewrite elem_of_app, list_elem_of_singleton. naive_solver.
Qed.

Lemma set_add_NoDup x l : NoDup l → NoDup (set_add x l).
Proof.
  intros H. unfold set_add. destruct (includes l x) eqn:E; [done|]. apply includes_false in E.
  apply NoDup_app. repeat split; [done| |by apply NoDup_singleton].
  intros y Hy ->%list_elem_of_singleton. done.
Qed.

(** ** The loop *)

Definition requested (rows : list Row) (k : string) : Prop := ∃ q, q ∈ rows ∧ is_request q = true ∧ row_key q = k.

Lemma requested_app l1 l2 k : requested (l1 ++ l2) k ↔ requested l1 k ∨ requested l2 k.
Proof. unfold requested. setoid_rewrite elem_of_app. naive_solver. Qed.

Lemma requested_one m k : requested [m] k ↔ is_request m = true ∧ row_key m = k.
Proof. unfold requested. setoid_rewrite list_elem_of_singleton. naive_solver. Qed.

Lemma requests_of_elem rows k : k ∈ requests_of rows ↔ requested rows k.
Proof.
  unfold requests_of.
  assert (H : ∀ s, k ∈ fold_left (λ s m, if is_request m then set_add (row_key m) s else s) rows s
                   ↔ k ∈ s ∨ requested rows k).
  { induction rows as [|m rows IH]; intros s; simpl.
    - split; [by left|]. intros [|(? & []%elem_of_nil & _)]; done.
    - rewrite IH. change (m :: rows) with ([m] ++ rows). rewrite requested_app, requested_one.
      destruct (is_request m); [rewrite elem_of_set_add|]; naive_solver. }
  rewrite H. split; [|by right]. by intros [[]%elem_of_nil|].
Qed.

(** A response with no request of its transaction before it. *)
Definition early (rows : list Row) (r : Row) : Prop :=
  is_request r = false ∧ ∃ l1 l2, rows = l1 ++ r :: l2 ∧ ¬ requested l1 (row_key r).

(** Every response that has a request has one before it. *)
Definition answered (all out : list Row) : Prop :=
  ∀ l1 r l2, out = l1 ++ r :: l2 → is_request r = false → requested all (row_key r) → requested l1 (row_key r).

Lemma answered_app all out add :
  answered all out →
  (∀ l1 r l2, add = l1 ++ r :: l2 → is_request r = false → requested all (row_key r) → requested (out ++ l1) (row_key r)) →
  answered all (out ++ add).
Proof.
  intros Ho Ha l1 r l2 E Hr Hq. apply app_eq_app in E as (l & [[-> E]|[-> E]]).
  - destruct l as [|x l]; simpl in E.
    + specialize (Ha [] r l2 (eq_sym E) Hr Hq). by rewrite !app_nil_r in Ha.
    + injection E as <- ->. by apply (Ho l1 r l).
  - apply (Ha l r l2); done.
Qed.

(** The rows other than those of [ids]. *)
Definition kept (ids : list nat) (r : Row) : bool := negb (includes ids r.1).

Lemma includes_ext (l l' : list nat) i : (i ∈ l ↔ i ∈ l') → includes l i = includes l' i.
Proof. intros H. apply eq_true_iff_eq. by rewrite !includes_true. Qed.

Lemma kept_ext l l' r : (r.1 ∈ l ↔ r.1 ∈ l') → kept l r = kept l' r.
Proof. intros H. unfold kept. by rewrite (includes_ext _ _ _ H). Qed.

Lemma app_cons_unique {A} (l1 l2 k1 k2 : list A) x :
  l1 ++ x :: l2 = k1 ++ x :: k2 → NoDup (l1 ++ x :: l2) → l1 = k1.
Proof.
  revert k1. induction l1 as [|y l1 IH]; intros [|z k1]; simpl; [done|..].
  - intros [= <- ->] [Hn _]%NoDup_cons. destruct Hn. apply elem_of_app. right. left.
  - intros [= -> _] [Hn _]%NoDup_cons. destruct Hn. apply elem_of_app. right. left.
  - intros [= -> E] [_ Hnd]%NoDup_cons. f_equal. by apply IH.
Qed.

(** What is before a row that keeps its place was there before. *)
Lemma kept_before ids out rows r q l1 l2 a b :
  List.filter (kept ids) out = List.filter (kept ids) rows → NoDup rows →
  out = l1 ++ r :: l2 → rows = a ++ r :: b → r.1 ∉ ids → q.1 ∉ ids → q ∈ l1 → q ∈ a.
Proof.
  assert (Hkept : ∀ x, x.1 ∉ ids → kept ids x = true).
  { intros x Hx. apply negb_true_iff. by apply includes_false. }
  intros E Hnd -> -> Hr%Hkept Hq%Hkept Hin.
  apply (NoDup_lfilter (kept ids)) in Hnd. rewrite <-E in Hnd.
  rewrite (List.filter_app _ l1) in E, Hnd. rewrite (List.filter_app _ a) in E. simpl in E, Hnd. rewrite Hr in E, Hnd.
  apply app_cons_unique in E; [|done].
  assert (Hf : q ∈ List.filter (kept ids) a) by (rewrite <-E; by apply elem_of_lfilter).
  by apply elem_of_lfilter in Hf as [? _].
Qed.

Section causality.
Context (rows : list Row).

Definition deferred_rows (st : causal_loop) : list Row := om_values (cl_deferred st).

(** After the rows of [P]. *)
Record causal_inv (P : list Row) (st : causal_loop) : Prop := {
ci_seen : ∀ k, k ∈ cl_seenRequest st ↔ requested P k;
ci_keys : NoDup (om_keys (cl_deferred st));
ci_deferred : ∀ k l, (k, l) ∈ cl_deferred st →
  requested rows k ∧ ¬ requested P k ∧ ∀ r, r ∈ l → is_request r = false ∧ row_key r = k;
ci_perm : cl_out st ++ deferred_rows st ≡ₚ P;
ci_answered : answered rows (cl_out st);
ci_moved : ∀ r, r ∈ P → r.1 ∈ cl_moved st → early rows r ∧ requested rows (row_key r);
ci_order : List.filter (kept (cl_moved st)) (cl_out st) =
           List.filter (kept (cl_moved st ++ List.map fst (deferred_rows st))) P;
ci_ids : ∀ i, i ∈ cl_moved st → i ∈ List.map fst P;
}.

Lemma causal_inv_start : causal_inv [] (Build_causal_loop [] [] [] []).
Proof.
split; simpl.
- intros k. split; [by intros ?%elem_of_nil|]. by intros (? & ?%elem_of_nil & _).
- apply NoDup_nil_2.
- by intros ? ? ?%elem_of_nil.
- done.
- intros l1 r l2 E. by destruct l1.
- by intros ? ?%elem_of_nil.
- done.
- by intros ? ?%elem_of_nil.
Qed.

Context (Hids : NoDup (List.map fst rows)).

Section step.
Context (P R : list Row) (m : Row) (st : causal_loop).
Context (Hrows : rows = P ++ m :: R) (I : causal_inv P st).

Lemma prefix_ids : NoDup (List.map fst P) ∧ m.1 ∉ List.map fst P.
Proof using Hids Hrows.
  revert Hids. rewrite Hrows, List.map_app. simpl. intros (HP & Hd & _)%NoDup_app.
  split; [done|]. intros Hin. apply (Hd _ Hin), list_elem_of_here.
Qed.

Lemma held_ids i : i ∈ cl_moved st ++ List.map fst (deferred_rows st) → i ∈ List.map fst P.
Proof using I.
  intros [H|(r & -> & H)%elem_of_lmap]%elem_of_app; [by apply I|].
  apply elem_of_lmap. exists r. split; [done|]. rewrite <-(ci_perm _ _ I), elem_of_app. by right.
Qed.

Lemma new_unheld : includes (cl_moved st ++ List.map fst (deferred_rows st)) m.1 = false.
Proof using Hids Hrows I. apply includes_false. intros ?%held_ids. by apply prefix_ids. Qed.

Lemma requested_rows k : requested (P ++ [m]) k → requested rows k.
Proof using Hrows.
  rewrite Hrows. change (m :: R) with ([m] ++ R). rewrite app_assoc, (requested_app (P ++ [m])). by left.
Qed.

(** Rows put out are not among those held back. *)
Lemma out_not_deferred r w : r ∈ cl_out st → w ∈ deferred_rows st → r.1 ≠ w.1.
Proof using Hids Hrows I.
  intros Hr Hw E. pose proof (proj1 prefix_ids) as Hnd. rewrite <-(ci_perm _ _ I), List.map_app in Hnd.
  apply NoDup_app in Hnd as (_ & Hd & _). apply (Hd r.1); [by apply elem_of_lmap; exists r|].
  apply elem_of_lmap. by exists w.
Qed.

(** A response whose request has passed, or that has none, or a request
nobody waits for. *)
Lemma place_inv seen :
  (∀ k, k ∈ seen ↔ requested (P ++ [m]) k) →
  (∀ k l, (k, l) ∈ cl_deferred st → ¬ requested [m] k) →
  (is_request m = false → requested rows (row_key m) → requested P (row_key m)) →
  causal_inv (P ++ [m]) (Build_causal_loop (cl_out st ++ [m]) (cl_moved st) seen (cl_deferred st)).
Proof using Hids Hrows I.
  intros Hseen Hwait Hm. pose proof new_unheld as Hnew. destruct I. split; simpl.
  - done.
  - done.
  - intros k l Hin. destruct (ci_deferred0 k l Hin) as (H1 & H2 & H3). split; [done|]. split; [|done].
rewrite requested_app. intros [?|?]; [done|]. by apply (Hwait k l).
  - unfold deferred_rows in *. simpl. rewrite <-app_assoc, (Permutation_app_comm [m]), app_assoc.
by rewrite ci_perm0.
  - apply answered_app; [done|]. intros l1 r l2 E Hr Hq. destruct l1; [|by destruct l1].
injection E as -> _. rewrite app_nil_r. apply Hm in Hq as (q & Hq & Hreq & Hk); [|done].
exists q. split; [|done]. rewrite <-ci_perm0, elem_of_app in Hq. destruct Hq as [|Hq]; [done|].
apply elem_of_om_values in Hq as (k & l & Hkl & Hql). destruct (ci_deferred0 k l Hkl) as (_ & _ & H3).
destruct (H3 q Hql). congruence.
  - intros r [Hr| ->%list_elem_of_singleton]%elem_of_app Hmv; [by apply ci_moved0|].
exfalso. apply includes_false in Hnew. apply Hnew, elem_of_app. by left.
  - unfold deferred_rows in *. simpl. rewrite !List.filter_app. f_equal; [exact ci_order0|]. simpl.
unfold kept. rewrite Hnew. apply includes_false in Hnew. rewrite elem_of_app in Hnew.
by rewrite (proj2 (includes_false (cl_moved st) m.1)) by naive_solver.
  - intros i Hi. rewrite List.map_app, elem_of_app. left. by apply ci_ids0.
Qed.

Definition waiting_for (k : string) : list Row := default [] (om_get k (cl_deferred st)).

Lemma waiting_elem k w : w ∈ waiting_for k → is_request w = false ∧ row_key w = k ∧ w ∈ deferred_rows st.
Proof using I.
  unfold waiting_for. destruct (om_get k (cl_deferred st)) as [l|] eqn:E; simpl; [|by intros ?%elem_of_nil].
  intros Hw. apply om_get_Some_elem in E. destruct (ci_deferred _ _ I k l E) as (_ & _ & H).
  destruct (H w Hw). repeat split; [done..|]. apply elem_of_om_values. by exists k, l.
Qed.

Lemma deferred_split k : deferred_rows st ≡ₚ waiting_for k ++ om_values (om_del k (cl_deferred st)).
Proof using I.
  unfold waiting_for, deferred_rows. destruct (om_get k (cl_deferred st)) as [l|] eqn:E; simpl.
  - apply om_values_del; [apply I|done].
  - by rewrite om_del_absent.
Qed.

Lemma deferred_in_P w : w ∈ deferred_rows st → w ∈ P.
Proof using I. intros H. rewrite <-(ci_perm _ _ I), elem_of_app. by right. Qed.

(** A row held back is early: no request of its transaction has come. *)
Lemma held_early r : r ∈ P → is_request r = false → ¬ requested P (row_key r) → early rows r.
Proof using Hrows.
  intros Hr Hresp Hq. apply list_elem_of_split in Hr as (l1 & l2 & E). split; [done|].
  exists l1, (l2 ++ m :: R). rewrite Hrows, E, <-app_assoc. split; [done|].
  intros ?. apply Hq. rewrite E. apply requested_app. by left.
Qed.

Lemma same_id_row r w : r ∈ P → w ∈ P → r.1 = w.1 → r = w.
Proof using Hids Hrows. intros Hr Hw E. apply (NoDup_map_inj fst P); [apply prefix_ids|done..]. Qed.

Lemma release_order k :
  List.filter (kept (cl_moved st ++ List.map fst (waiting_for k))) (cl_out st ++ m :: waiting_for k) =
  List.filter (kept ((cl_moved st ++ List.map fst (waiting_for k)) ++ List.map fst (om_values (om_del k (cl_deferred st))))) (P ++ [m]).
Proof using Hids Hrows I.
  assert (Hw : ∀ w, w ∈ waiting_for k → w ∈ deferred_rows st) by (intros w ?%waiting_elem; naive_solver).
  assert (Hset : ∀ i, i ∈ (cl_moved st ++ List.map fst (waiting_for k)) ++ List.map fst (om_values (om_del k (cl_deferred st)))
                  ↔ i ∈ cl_moved st ++ List.map fst (deferred_rows st)).
  { intros i. rewrite (deferred_split k), List.map_app, <-app_assoc. done. }
  rewrite !List.filter_app. f_equal.
  - rewrite (List.filter_ext_in _ (kept (cl_moved st))).
+ rewrite (ci_order _ _ I). apply List.filter_ext. intros r. by apply kept_ext.
+ intros r Hr%list_elem_of_In. apply kept_ext. rewrite elem_of_app. split; [|by left].
  intros [|(w & E & ?%Hw)%elem_of_lmap]; [done|]. by destruct (out_not_deferred r w).
  - simpl. unfold kept. rewrite (includes_ext _ _ _ (Hset m.1)), new_unheld. simpl.
rewrite (proj2 (includes_false _ m.1)); last first.
{ pose proof new_unheld as Hn. apply includes_false in Hn. intros Hin. apply Hn, Hset, elem_of_app. by left. }
simpl. f_equal. apply lfilter_none. intros w Hin. apply negb_false_iff, includes_true, elem_of_app. right.
apply elem_of_lmap. by exists w.
Qed.

(** The first request of a transaction, with the responses that wait for it. *)
Lemma release_inv :
  is_request m = true → ¬ requested P (row_key m) →
  causal_inv (P ++ [m])
(Build_causal_loop (cl_out st ++ m :: waiting_for (row_key m))
   (cl_moved st ++ List.map fst (waiting_for (row_key m)))
   (set_add (row_key m) (cl_seenRequest st)) (om_del (row_key m) (cl_deferred st))).
Proof using Hids Hrows I.
  intros Hm Hfirst. set (k := row_key m) in *. split; simpl.
  - intros k'. rewrite elem_of_set_add, requested_app, requested_one, (ci_seen _ _ I). naive_solver.
  - apply om_del_NoDup, I.
  - intros k' l [Hin Hne]%om_del_elem. destruct (ci_deferred _ _ I k' l Hin) as (H1 & H2 & H3).
repeat split; [done| |by apply H3..]. rewrite requested_app, requested_one. naive_solver.
  - unfold deferred_rows. simpl. change (m :: waiting_for k) with ([m] ++ waiting_for k).
rewrite <-!app_assoc, <-deferred_split, (Permutation_app_comm [m]), app_assoc. by rewrite (ci_perm _ _ I).
  - apply answered_app; [apply I|]. intros [|x l1] r l2 E Hr _; injection E as ? E; [congruence|]. subst x.
assert (Hw : r ∈ waiting_for k) by (rewrite E; apply elem_of_app; right; left).
apply waiting_elem in Hw as (_ & -> & _). exists m. repeat split; [|done].
apply elem_of_app. right. left.
  - intros r Hr [Hmv|(w & Ew & Hw)%elem_of_lmap]%elem_of_app.
+ apply elem_of_app in Hr as [Hr| ->%list_elem_of_singleton]; [by apply I|].
  destruct (proj2 prefix_ids). by apply I.
+ apply waiting_elem in Hw as (H1 & H2 & H3%deferred_in_P).
  assert (r = w) as ->; last first.
  { split; [by apply held_early; rewrite ?H2|]. rewrite H2. apply requested_rows, requested_app. right.
    by apply requested_one. }
  apply elem_of_app in Hr as [Hr| ->%list_elem_of_singleton]; [by apply same_id_row|].
  destruct (proj2 prefix_ids). apply elem_of_lmap. by exists w.
  - apply release_order.
  - intros i [Hi|(w & -> & Hw)%elem_of_lmap]%elem_of_app; rewrite List.map_app, elem_of_app; left.
+ by apply I.
+ apply waiting_elem in Hw as (_ & _ & Hw%deferred_in_P). apply elem_of_lmap. by exists w.
Qed.

(** A response that came before its request. *)
Lemma defer_inv :
  is_request m = false → ¬ requested P (row_key m) → requested rows (row_key m) →
  causal_inv (P ++ [m])
(Build_causal_loop (cl_out st) (cl_moved st) (cl_seenRequest st)
   (om_set (row_key m) (default [] (om_get (row_key m) (cl_deferred st)) ++ [m]) (cl_deferred st))).
Proof using Hids Hrows I.
  intros Hm Hfirst Hreq. set (k := row_key m) in *.
  assert (Hone : ∀ k', requested (P ++ [m]) k' ↔ requested P k').
  { intros k'. rewrite requested_app, requested_one, Hm. naive_solver. }
  split; simpl.
  - intros k'. rewrite Hone. apply I.
  - apply om_set_NoDup, I.
  - intros k' l [[= -> ->]|Hin]%om_set_elem; rewrite Hone.
+ repeat split; [done..| |]; apply elem_of_app in H as [H| ->%list_elem_of_singleton]; try done;
    by apply waiting_elem in H as (? & ? & _).
+ by apply I.
  - unfold deferred_rows. simpl. rewrite om_values_push, app_assoc. by rewrite (ci_perm _ _ I).
  - apply I.
  - intros r [Hr| ->%list_elem_of_singleton]%elem_of_app Hmv; [by apply I|].
destruct (proj2 prefix_ids). by apply I.
  - unfold deferred_rows. simpl. rewrite (ci_order _ _ I), List.filter_app. simpl.
unfold kept at 3.
rewrite (proj2 (includes_true _ m.1)); last first.
{ apply elem_of_app. right. apply elem_of_lmap. exists m. split; [done|]. rewrite om_values_push. apply elem_of_app. right. left. }
rewrite app_nil_r. apply List.filter_ext_in. intros r Hr%list_elem_of_In. apply kept_ext. rewrite !elem_of_app. split; [|].
+ intros [?|H]; [by left|right]. rewrite om_values_push, List.map_app, elem_of_app. by left.
+ intros [?|H]; [by left|right]. rewrite om_values_push, List.map_app, elem_of_app in H.
  destruct H as [|H%list_elem_of_singleton]; [done|]. destruct (proj2 prefix_ids). rewrite <-H.
  apply elem_of_lmap. by exists r.
  - intros i Hi. rewrite List.map_app, elem_of_app. left. by apply I.
Qed.

Lemma causal_step_inv : causal_inv (P ++ [m]) (causal_step (requests_of rows) st m).
Proof using Hids Hrows I.
  assert (Hseen : includes (cl_seenRequest st) (row_key m) = true ↔ requested P (row_key m)).
  { rewrite includes_true. apply I. }
  assert (Hreq : includes (requests_of rows) (row_key m) = true ↔ requested rows (row_key m)).
  { rewrite includes_true. apply requests_of_elem. }
  unfold causal_step. destruct (is_request m) eqn:Hm.
  - destruct (includes (cl_seenRequest st) _) eqn:E.
+ apply place_inv; [| |congruence].
  * intros k. rewrite (ci_seen _ _ I), requested_app, requested_one. naive_solver.
  * intros k l Hin [_ <-]%requested_one. apply (ci_deferred _ _ I) in Hin as (_ & Hn & _). naive_solver.
+ apply release_inv; [done|]. intros Hr%Hseen. done.
  - assert (Hone : ∀ k, ¬ requested [m] k) by (intros k [? _]%requested_one; congruence).
destruct (_ || _) eqn:E.
+ apply place_inv.
  * intros k. rewrite (ci_seen _ _ I), requested_app. naive_solver.
  * intros k l _. apply Hone.
  * intros _ Hr%Hreq. rewrite Hr, orb_false_r in E. by apply Hseen.
+ bool_hyps. apply defer_inv; [done| |by apply Hreq]. intros Hr%Hseen. congruence.
Qed.
End step.

Lemma causal_run_inv P st R :
rows = P ++ R → causal_inv P st → causal_inv rows (fold_left (causal_step (requests_of rows)) R st).
Proof using Hids.
revert P st. induction R as [|m R IH]; intros P st E I; simpl.
- by rewrite E, app_nil_r.
- apply (IH (P ++ [m])); [by rewrite <-app_assoc|]. by eapply causal_step_inv.
Qed.

Lemma causal_done : causal_inv rows (causal_run rows).
Proof using Hids. apply (causal_run_inv []); [done|apply causal_inv_start]. Qed.

(** Nothing is left for the safety net. *)
Lemma nothing_deferred : cl_deferred (causal_run rows) = [].
Proof using Hids.
destruct (cl_deferred _) as [|[k l] d] eqn:E; [done|].
destruct (ci_deferred _ _ causal_done k l) as (H1 & H2 & _); [rewrite E; left|]. done.
Qed.

Lemma moved_iff r :
r ∈ rows → (r.1 ∈ cl_moved (causal_run rows) ↔ early rows r ∧ requested rows (row_key r)).
Proof using Hids.
intros Hr. pose proof causal_done as I. pose proof nothing_deferred as Hd.
assert (Hperm : cl_out (causal_run rows) ≡ₚ rows).
{ rewrite <-(ci_perm _ _ I) at 2. unfold deferred_rows, om_values. by rewrite Hd, app_nil_r. }
assert (Hord := ci_order _ _ I). unfold deferred_rows in Hord. rewrite Hd in Hord. simpl in Hord. rewrite app_nil_r in Hord.
split.
- by apply I.
- intros [(Hresp & a & b & Ea & Hna) Hreq]. destruct (decide (r.1 ∈ cl_moved (causal_run rows))) as [|Hn]; [done|exfalso].
  assert (Hin : r ∈ cl_out (causal_run rows)) by by rewrite Hperm.
  apply list_elem_of_split in Hin as (l1 & l2 & El).
  destruct (ci_answered _ _ I l1 r l2 El Hresp Hreq) as (q & Hq & Hqr & Hqk).
  assert (Hqm : q.1 ∉ cl_moved (causal_run rows)).
  { intros Hqm. assert (Hqrows : q ∈ rows) by (rewrite <-Hperm, El; apply elem_of_app; by left).
    destruct (ci_moved _ _ I q Hqrows Hqm) as [[? _] _]. congruence. }
  apply Hna. exists q. repeat split; [|done..].
  eapply (kept_before _ _ _ r q l1 l2 a b Hord); [by eapply NoDup_fmap_1|done..].
Qed.
End causality.

(** ** The order of a call's messages *)

Definition indexed (messages : list HomerSearchResult) : list Row := imap (λ i m, (i, m)) messages.
Definition by_timestamp (messages : list HomerSearchResult) : list Row :=
  sort_by (λ a b : Row, (timestamp a.2 <=? timestamp b.2)%Z) (indexed messages).

Lemma imap_positions {A} (l : list A) k : imap (λ i _, k + i) l = seq k (length l).
Proof.
  revert k. induction l as [|x l IH]; intros k; [done|]. cbn [imap length seq]. f_equal; [lia|].
  rewrite <-IH. apply imap_ext. intros i y _. simpl. lia.
Qed.

Lemma indexed_ids messages : NoDup (List.map fst (indexed messages)).
Proof.
  unfold indexed. assert (E : List.map fst (imap (λ i m, (i, m)) messages) = imap (λ i _, 0 + i) messages)
    by apply (fmap_imap (λ i (m : HomerSearchResult), (i, m)) fst).
  rewrite E, imap_positions. apply NoDup_seq.
Qed.

Lemma by_timestamp_ids messages : NoDup (List.map fst (by_timestamp messages)).
Proof. unfold by_timestamp. rewrite sort_by_perm. apply indexed_ids. Qed.

Lemma orderMessages_perm messages : (orderMessages messages).1 ≡ₚ indexed messages.
Proof.
  unfold orderMessages. fold (indexed messages). destruct (forallb has_seq messages); [apply sort_by_perm|].
  fold (by_timestamp messages). pose proof (by_timestamp_ids messages) as Hids. set (stored := by_timestamp messages) in *.
  pose proof (ci_perm _ _ _ (causal_done stored Hids)) as Hperm.
  unfold enforceCausality. simpl. rewrite <-(sort_by_perm (λ a b : Row, (timestamp a.2 <=? timestamp b.2)%Z) (indexed messages)).
  exact Hperm.
Qed.

(** C30 The order of the rows.  Every message gets one row.  When all carry the
    API's [seq] the rows are sorted by it and none counts as moved.  Otherwise
    no response stands above the first request of its transaction, if the
    transaction has one; the rows moved are exactly the responses that stood
    there in the order of the timestamps, and all the others keep that order. *)
Theorem orderMessages_ok messages :
  let '(sorted, moved) := orderMessages messages in
  let stored := by_timestamp messages in
  sorted ≡ₚ indexed messages ∧
  (forallb has_seq messages = true → moved = [] ∧ Sorted (λ a b, (seq_of a <=? seq_of b)%Z = true) sorted) ∧
  (forallb has_seq messages = false →
     answered stored sorted ∧
     (∀ r, r ∈ stored → (r.1 ∈ moved ↔ early stored r ∧ requested stored (row_key r))) ∧
     List.filter (kept moved) sorted = List.filter (kept moved) stored).
Proof.
  unfold orderMessages. fold (indexed messages) (by_timestamp messages). destruct (forallb has_seq messages) eqn:E.
  - split; [apply sort_by_perm|]. split; [|done]. intros _. split; [done|]. apply sort_by_sorted; intros; lia.
  - pose proof (by_timestamp_ids messages) as Hids. set (stored := by_timestamp messages) in *.
    pose proof (causal_done stored Hids) as I. pose proof (nothing_deferred stored Hids) as Hd.
    pose proof (ci_perm _ _ _ I) as Hperm. pose proof (ci_order _ _ _ I) as Hord.
    unfold deferred_rows, om_values in Hperm, Hord. rewrite Hd in Hperm, Hord. simpl in Hperm, Hord.
    unfold enforceCausality. rewrite Hd. simpl. rewrite app_nil_r in Hperm, Hord |- *.
    split; [by rewrite Hperm; apply sort_by_perm|]. split; [done|]. intros _.
    split; [apply I|]. split; [intros r; by apply moved_iff|done].
Qed.
