(* ===== verification/LadderOk.v ===== *)
(** * The SIP ladder: arrows, columns and retransmissions *)
From S2P Require Import Prelude JsString Homer LadderOrder Double SipText SipInfo LadderRows LadderLayout CausalOk.
From Stdlib Require Import QArith Lqa.

Local Close Scope Q_scope.
Local Open Scope string_scope.
Local Open Scope Z_scope.
Local Open Scope list_scope.

(** ** Retransmissions *)

(** An earlier message that makes [msg] a retransmission. *)
Definition original_of (msg prev : HomerSearchResult) : bool :=
  same_hop_same_shape prev msg
  && (if has_txn_key msg && has_txn_key prev
      then (hr_via_branch prev ==? hr_via_branch msg) && (hr_cseq prev ==? hr_cseq msg)
           && Qle_bool (sub_d (time_ms msg) RETRANSMISSION_TXN_WINDOW_MS) (time_ms prev)
      else Qle_bool (sub_d (time_ms msg) 500) (time_ms prev)).

Definition earlier (a b : HomerSearchResult) : Prop := timestamp a ≤ timestamp b.

Lemma time_ms_mono a b : earlier a b → (time_ms a <= time_ms b)%Q.
Proof.
  intros H. unfold time_ms, div_d. apply rnd_mono. unfold Qdiv. apply Qmult_le_compat_r; [|done].
  by rewrite <-Zle_Qle.
Qed.

Lemma original_of_old msg prev :
  before (time_ms prev) (sub_d (time_ms msg) RETRANSMISSION_TXN_WINDOW_MS) = true →
  before (time_ms prev) (sub_d (time_ms msg) 500) = true → original_of msg prev = false.
Proof.
  unfold before, original_of. intros H1%negb_true_iff H2%negb_true_iff. rewrite H1, H2, !andb_false_r.
  by repeat case_match; rewrite ?andb_false_r.
Qed.

Lemma before_le p q t : (p <= q)%Q → before q t = true → before p t = true.
Proof.
  unfold before. intros H. rewrite !negb_true_iff. intros Hq. destruct (Qle_bool t p) eqn:E; [|done].
  apply Qle_bool_iff in E. rewrite <-Hq. symmetry. apply Qle_bool_iff. by apply Qle_trans with p.
Qed.

(** The walk stops at the first row that is too old: nothing older counts. *)
Lemma retransmission_walk_all msg prevs :
  StronglySorted (λ a b, earlier b a) prevs →
  retransmission_walk msg (sub_d (time_ms msg) 500) (sub_d (time_ms msg) RETRANSMISSION_TXN_WINDOW_MS) prevs =
  existsb (original_of msg) prevs.
Proof.
  induction 1 as [|prev prevs Hs IH Hle]; [done|]. cbn [retransmission_walk existsb]. rewrite IH.
  destruct (before (time_ms prev) _ && before (time_ms prev) _) eqn:E.
  - apply andb_true_iff in E as [E1 E2]. rewrite original_of_old by done. symmetry.
    apply existsb_elem_of_false. intros old Hold. rewrite Forall_forall in Hle.
    apply original_of_old; eapply before_le; eauto using time_ms_mono.
  - destruct (original_of msg prev) eqn:Eo; unfold original_of in Eo;
      destruct (same_hop_same_shape prev msg); simpl in Eo |- *; try done;
      destruct (has_txn_key msg && has_txn_key prev); by rewrite Eo.
Qed.

(** Against messages in time order, a message is a retransmission exactly
    when one of them has its Call-ID, method, status and hop and is the same
    transaction (branch and CSeq) within 32 seconds or, when either row lacks
    those fields, lies within half a second: stopping at the first row older
    than both windows misses none. *)
Theorem isRetransmission_spec msg prevs :
  StronglySorted earlier prevs → isRetransmission msg prevs = existsb (original_of msg) prevs.
Proof.
  intros Hs. unfold isRetransmission. rewrite retransmission_walk_all.
  - apply eq_true_iff_eq. rewrite !existsb_elem_of. split; intros (x & Hx & Ho); exists x; (split; [|done]).
    + by apply list_elem_of_In, in_rev, list_elem_of_In.
    + by apply list_elem_of_In, (proj1 (in_rev _ _)), list_elem_of_In.
  - induction Hs as [|a l Hs IH Ha]; simpl; [constructor|].
    apply StronglySorted_app. split; [|by repeat constructor].
    intros x y Hx%list_elem_of_In%in_rev%list_elem_of_In ->%list_elem_of_singleton.
    rewrite Forall_forall in Ha. by apply Ha.
Qed.

(** ** Arrows *)

Definition in_columns (n : Z) (col : Z) : Prop := 0 ≤ col < n.
Definition cols_ok (n : Z) (m : list (string * Z)) : Prop := ∀ k col, (k, col) ∈ m → in_columns n col.

(** Every lookup gives a column of the layout. *)
Record context_ok (ctx : ResolveContext) : Prop := {
  co_count : 0 < rc_nodeCount ctx;
  co_column : cols_ok (rc_nodeCount ctx) (rc_columnIndex ctx);
  co_bLeg : cols_ok (rc_nodeCount ctx) (rc_bLegColumnIndex ctx);
  co_hosts : cols_ok (rc_nodeCount ctx) (hc_aLeg (rc_hostColumnIndex ctx)) ∧
             cols_ok (rc_nodeCount ctx) (hc_bLeg (rc_hostColumnIndex ctx)) ∧
             cols_ok (rc_nodeCount ctx) (hc_any (rc_hostColumnIndex ctx));
  co_media : rc_mediaCol ctx < rc_nodeCount ctx;
}.

Lemma cols_ok_get n m k col : cols_ok n m → om_get k m = Some col → in_columns n col.
Proof. intros H ?%om_get_Some_elem. by eapply H. Qed.

Lemma cols_ok_set n m k col : cols_ok n m → in_columns n col → cols_ok n (om_set k col m).
Proof. intros H Hc k' c' [[= -> ->]|?]%om_set_elem; [done|]. by eapply H. Qed.

#[local] Hint Resolve cols_ok_get cols_ok_set : voip.

Lemma record_host_ok n b h k col :
  cols_ok n (hc_aLeg h) ∧ cols_ok n (hc_bLeg h) ∧ cols_ok n (hc_any h) → in_columns n col →
  let h' := record_host b h k col in cols_ok n (hc_aLeg h') ∧ cols_ok n (hc_bLeg h') ∧ cols_ok n (hc_any h').
Proof.
  intros (H1 & H2 & H3) Hc. unfold record_host, set_if_absent. cbn [hc_aLeg hc_bLeg hc_any].
  destruct b, (om_has (lower k) (hc_any h)); auto using cols_ok_set.
Qed.

Lemma fold_record_host_ok n b m h :
  cols_ok n m → cols_ok n (hc_aLeg h) ∧ cols_ok n (hc_bLeg h) ∧ cols_ok n (hc_any h) →
  let h' := fold_left (λ h '(k, col), record_host b h k col) m h in
  cols_ok n (hc_aLeg h') ∧ cols_ok n (hc_bLeg h') ∧ cols_ok n (hc_any h').
Proof.
  revert h. induction m as [|[k col] m IH]; intros h Hm Hh; [done|]. simpl. apply IH.
  - intros k' c' Hin. apply (Hm k'). by right.
  - apply record_host_ok; [done|]. apply (Hm k). left.
Qed.

Lemma buildHostColumnIndex_ok n sorted columns bLeg :
  cols_ok n columns → cols_ok n bLeg →
  let h := buildHostColumnIndex sorted columns bLeg in
  cols_ok n (hc_aLeg h) ∧ cols_ok n (hc_bLeg h) ∧ cols_ok n (hc_any h).
Proof.
  intros Hc Hb. unfold buildHostColumnIndex.
  set (h1 := fold_left _ columns _). set (h2 := fold_left _ bLeg h1).
  assert (H2 : cols_ok n (hc_aLeg h2) ∧ cols_ok n (hc_bLeg h2) ∧ cols_ok n (hc_any h2)).
  { apply fold_record_host_ok; [done|]. apply fold_record_host_ok; [done|].
    split_and!; by intros ? ? ?%elem_of_nil. }
  clearbody h2. clear h1. revert h2 H2. induction sorted as [|msg sorted IH]; intros h2 H2; [done|]. simpl. apply IH.
  unfold record_message.
  assert (H1 : ∀ h id, cols_ok n (hc_aLeg h) ∧ cols_ok n (hc_bLeg h) ∧ cols_ok n (hc_any h) →
    let h' := match om_get id columns with Some col => record_host false h id col | None => h end in
    cols_ok n (hc_aLeg h') ∧ cols_ok n (hc_bLeg h') ∧ cols_ok n (hc_any h')).
  { intros h id Hh. destruct (om_get id columns) eqn:E; [|done]. apply record_host_ok; eauto with voip. }
  by apply H1, H1.
Qed.

Section arrows.
Context (ctx : ResolveContext) (Hctx : context_ok ctx).

Lemma fallback_in_columns leg : in_columns (rc_nodeCount ctx) (fallbackAnchorByLeg leg ctx).
Proof using Hctx. destruct Hctx. unfold in_columns, fallbackAnchorByLeg. repeat case_match; bool_hyps; lia. Qed.

Lemma resolveColumn_in_columns id leg col :
resolveColumn id leg (rc_columnIndex ctx) (rc_bLegColumnIndex ctx) = Some col → in_columns (rc_nodeCount ctx) col.
Proof using Hctx.
destruct Hctx. unfold resolveColumn. intros H. destruct leg; try (eapply cols_ok_get; [|eassumption]; done).
destruct (om_get id (rc_bLegColumnIndex ctx)) eqn:E; simplify_eq; (eapply cols_ok_get; [|eassumption]; done).
Qed.

Lemma lookupHostColumn_in_columns host leg col :
lookupHostColumn host leg (rc_hostColumnIndex ctx) = Some col → in_columns (rc_nodeCount ctx) col.
Proof using Hctx.
destruct Hctx as [_ _ _ (H1 & H2 & H3) _]. unfold lookupHostColumn. case_bool_decide; [done|].
intros Hl. destruct leg; repeat case_match; simplify_eq; (eapply cols_ok_get; [|eassumption]; done).
Qed.

Lemma first_other_column_spec hosts leg anchor col :
first_other_column hosts leg anchor (rc_hostColumnIndex ctx) = Some col →
in_columns (rc_nodeCount ctx) col ∧ col ≠ anchor.
Proof using Hctx.
induction hosts as [|host hosts IH]; simpl; [done|].
destruct (lookupHostColumn _ _ _) eqn:E; [|done]. destruct (z =? anchor) eqn:Ez; [done|].
intros [= <-]. bool_hyps. split; [by eapply lookupHostColumn_in_columns|done].
Qed.

Lemma resolvePeer_spec msg leg anchor col :
resolvePeerColumnFromSip msg leg anchor ctx = Some col → in_columns (rc_nodeCount ctx) col ∧ col ≠ anchor.
Proof using Hctx. unfold resolvePeerColumnFromSip. repeat case_match; try done. apply first_other_column_spec. Qed.

Lemma adjacent_spec anchor leg :
in_columns (rc_nodeCount ctx) anchor →
let col := nearestAdjacentColumn anchor leg ctx in
in_columns (rc_nodeCount ctx) col ∧ (2 ≤ rc_nodeCount ctx → col ≠ anchor).
Proof using.
unfold in_columns, nearestAdjacentColumn. intros H. repeat case_match; bool_hyps; simpl in *; lia.
Qed.

Lemma inferred_ok msg leg anchor :
in_columns (rc_nodeCount ctx) anchor →
let d := match resolvePeerColumnFromSip msg leg anchor ctx with
         | Some peer => if peer =? anchor then Build_ResolvedDirection anchor (nearestAdjacentColumn anchor leg ctx) true
                        else Build_ResolvedDirection anchor peer true
         | None => Build_ResolvedDirection anchor (nearestAdjacentColumn anchor leg ctx) true
         end in
in_columns (rc_nodeCount ctx) (rd_sourceCol d) ∧ in_columns (rc_nodeCount ctx) (rd_destCol d) ∧
(2 ≤ rc_nodeCount ctx → rd_sourceCol d ≠ rd_destCol d).
Proof using Hctx.
intros Ha. pose proof (adjacent_spec anchor leg Ha) as [Hb Hne]. pose proof (resolvePeer_spec msg leg anchor) as Hp.
destruct (resolvePeerColumnFromSip _ _ _ _) as [peer|]; [destruct (peer =? anchor) eqn:E|]; simpl.
- split; [done|split; [done|]]. intros H E'. by apply Hne.
- destruct (Hp peer eq_refl). bool_hyps. done.
- split; [done|split; [done|]]. intros H E'. by apply Hne.
Qed.

(** An arrow that is no self-loop joins two columns of the layout, two
  distinct ones when there are two. *)
Lemma resolveMessageDirection_ok msg leg :
let d := resolveMessageDirection msg leg ctx in
in_columns (rc_nodeCount ctx) (rd_sourceCol d) ∧ in_columns (rc_nodeCount ctx) (rd_destCol d) ∧
(2 ≤ rc_nodeCount ctx → rd_sourceCol d ≠ rd_destCol d).
Proof using Hctx.
unfold resolveMessageDirection. cbv zeta.
pose proof (resolveColumn_in_columns (hr_src_ip msg) leg) as Hs.
pose proof (resolveColumn_in_columns (hr_dst_ip msg) leg) as Hd.
destruct (resolveColumn (hr_src_ip msg) _ _ _) as [s|], (resolveColumn (hr_dst_ip msg) _ _ _) as [d|]; cbn [default].
- destruct (s =? d) eqn:E; bool_hyps; [by apply inferred_ok, Hs|]. simpl. auto.
- by apply inferred_ok, Hs.
- by apply inferred_ok, Hd.
- apply inferred_ok, fallback_in_columns.
Qed.

Lemma min_column_ok m col : cols_ok (rc_nodeCount ctx) m → min_column m = Some col → in_columns (rc_nodeCount ctx) col.
Proof using.
unfold min_column. intros Hm. destruct m as [|[k c] m]; [done|]. simpl. intros [= <-].
assert (Hc : in_columns (rc_nodeCount ctx) c) by (apply (Hm k); left).
assert (Hl : Forall (in_columns (rc_nodeCount ctx)) (List.map snd m)).
{ apply Forall_forall. intros x ([k' c'] & -> & Hin)%elem_of_lmap. apply (Hm k'). by right. }
induction Hl; simpl; [done|]. unfold in_columns in *. lia.
Qed.

Lemma resolveHairpinColumn_ok msg leg :
let d := resolveHairpinColumn msg leg ctx in
in_columns (rc_nodeCount ctx) (rd_sourceCol d) ∧ rd_destCol d = rd_sourceCol d.
Proof using Hctx.
unfold resolveHairpinColumn. cbn [rd_sourceCol rd_destCol]. split; [|done].
destruct (match leg with leg_b => _ | _ => _ end) as [c|] eqn:E.
- destruct leg; try done. eapply min_column_ok; [apply co_bLeg, Hctx|done].
- destruct (resolveColumn (hr_src_ip msg) _ _ _) eqn:Es; simpl; [by eapply resolveColumn_in_columns|].
  destruct (resolveColumn (hr_dst_ip msg) _ _ _) eqn:Ed; simpl; [by eapply resolveColumn_in_columns|].
  apply fallback_in_columns.
Qed.

(** What holds of the arrow of every message. *)
Definition arrow_ok (n : Z) (m : LadderMessage) : Prop :=
in_columns n (lm_sourceCol m) ∧ in_columns n (lm_destCol m) ∧
lm_right m = (lm_sourceCol m <=? lm_destCol m) ∧
(if lm_isHairpin m then lm_destCol m = lm_sourceCol m else 2 ≤ n → lm_sourceCol m ≠ lm_destCol m).

Lemma layout_messages_ok a b moved prev rows :
Forall (arrow_ok (rc_nodeCount ctx)) (layout_messages ctx a b moved prev rows).
Proof using Hctx.
revert prev. induction rows as [|row rows IH]; intros prev; simpl; constructor; [|done].
unfold arrow_ok, layout_message. cbn [lm_sourceCol lm_destCol lm_right lm_isHairpin].
destruct (is_hairpin row.2).
- destruct (resolveHairpinColumn_ok row.2 (determineLeg (hr_callid row.2) a b)) as [H1 H2]. rewrite H2. auto.
- pose proof (resolveMessageDirection_ok row.2 (determineLeg (hr_callid row.2) a b)) as (H1 & H2 & H3). auto.
Qed.
End arrows.
