(* ===== verification/HandoffOk.v ===== *)
(** * The inferred handoffs of the SIP ladder

    What [injectInternalHandoffs] draws between a VIP column and the SBC
    behind it. *)
From S2P Require Import Prelude JsString Homer LadderOrder LadderRows LadderLayout.

Local Open Scope Z_scope.
Local Open Scope list_scope.

(** A captured row that leaves from, or arrives at, a column of a leg. *)
Definition captured (m : LadderMessage) : bool := negb (lm_internalHandoff m).
Definition counted (m : LadderMessage) : bool := negb (lm_internalHandoff m || lm_isHairpin m).
Definition leaves (leg : Leg) (col : Z) (m : LadderMessage) : Prop :=
  counted m = true ∧ lm_leg m = leg ∧ lm_sourceCol m = col.
Definition arrives (leg : Leg) (col : Z) (m : LadderMessage) : Prop :=
  counted m = true ∧ lm_leg m = leg ∧ lm_destCol m = col.

(** ** The positions of phase 1 *)

Section positions.
Implicit Types (st : list (Leg * Z * nat) * list (Leg * Z * nat)).

Definition below (k : nat) (m : list (Leg * Z * nat)) : Prop := ∀ key p, om_get key m = Some p → (p < k)%nat.

Lemma bump_later m leg col k key :
below k m → om_get key (bump m leg col k true) = if decide (key = (leg, col)) then Some k else om_get key m.
Proof.
intros Hb. unfold bump. destruct (om_get (leg, col) m) as [cur|] eqn:E.
- apply Hb in E as Hlt. rewrite (proj2 (Nat.ltb_lt _ _) Hlt).
  destruct (decide _) as [->|Hne]; [apply om_get_set_eq|by apply om_get_set_ne].
- destruct (decide _) as [->|Hne]; [apply om_get_set_eq|by apply om_get_set_ne].
Qed.

Lemma bump_first m leg col k key :
below k m →
om_get key (bump m leg col k false) =
  if decide (key = (leg, col)) then Some (default k (om_get (leg, col) m)) else om_get key m.
Proof.
intros Hb. unfold bump. destruct (om_get (leg, col) m) as [cur|] eqn:E; simpl.
- apply Hb in E as Hlt. replace (k <? cur)%nat with false by (symmetry; apply Nat.ltb_ge; lia).
  by destruct (decide _) as [->|Hne].
- destruct (decide _) as [->|Hne]; [apply om_get_set_eq|by apply om_get_set_ne].
Qed.

Lemma index_step_below st k m : below k st.1 → below k st.2 → 
below (S k) (index_step st (k, m)).1 ∧ below (S k) (index_step st (k, m)).2.
Proof.
intros H1 H2. unfold index_step. destruct (_ || _); simpl.
- split; intros key p Hp; [apply H1 in Hp|apply H2 in Hp]; lia.
- split; intros key p.
  + rewrite bump_later by done. destruct (decide _); [intros [= <-]; lia|]. intros Hp%H1. lia.
  + rewrite bump_first by done. destruct (decide _); [|intros Hp%H2; lia].
    intros [= <-]. destruct (om_get _ st.2) eqn:E; simpl; [apply H2 in E|]; lia.
Qed.

Lemma index_step_later st k m leg col i :
below k st.1 →
(∃ p, om_get (leg, col) (index_step st (k, m)).1 = Some p ∧ (i < p)%nat) ↔
(∃ p, om_get (leg, col) st.1 = Some p ∧ (i < p)%nat) ∨ (leaves leg col m ∧ (i < k)%nat).
Proof.
intros Hb. unfold index_step, leaves, counted. destruct (_ || _) eqn:E; simpl.
- split; [by left|]. by intros [|[[]]].
- rewrite bump_later by done. destruct (decide _) as [[= -> ->]|Hne].
  + split.
    * intros (p & [= <-] & Hp). right. auto.
    * intros [(p & Hp%Hb & ?)|[_ ?]]; exists k; split; [done|lia|done|done].
  + split; [by left|]. intros [|[(_ & <- & <-) _]]; done.
Qed.

Lemma index_step_earlier st k m leg col i :
below k st.2 →
(∃ p, om_get (leg, col) (index_step st (k, m)).2 = Some p ∧ (p < i)%nat) ↔
(∃ p, om_get (leg, col) st.2 = Some p ∧ (p < i)%nat) ∨ (arrives leg col m ∧ (k < i)%nat).
Proof.
intros Hb. unfold index_step, arrives, counted. destruct (_ || _) eqn:E; simpl.
- split; [by left|]. by intros [|[[]]].
- rewrite bump_first by done. destruct (decide _) as [[= -> ->]|Hne].
  + destruct (om_get _ st.2) as [c|] eqn:Ec; simpl.
    * apply Hb in Ec. split; [intros (p & [= <-] & Hp); left; by exists c|].
      intros [(p & [= <-] & ?)|[_ ?]]; exists c; split; [done|done|done|lia].
    * split; [intros (p & [= <-] & Hp); by right|]. intros [(p & ? & _)|[_ ?]]; [done|by exists k].
  + split; [by left|]. intros [|[(_ & <- & <-) _]]; done.
Qed.

Lemma exists_cons {A} (P : nat → A → Prop) x l :
(∃ j y, (x :: l) !! j = Some y ∧ P j y) ↔ P 0%nat x ∨ ∃ j y, l !! j = Some y ∧ P (S j) y.
Proof.
split.
- intros ([|j] & y & E & H); simplify_eq/=; [by left|right; eauto].
- intros [H|(j & y & E & H)]; [by exists 0%nat, x|by exists (S j), y].
Qed.

(** The last row that leaves from the column is after [i], or the first that
  arrives there before. *)
Lemma positions_spec l st k leg col i :
below k st.1 → below k st.2 →
let st' := fold_left index_step (imap (λ j m, ((k + j)%nat, m)) l) st in
((∃ p, om_get (leg, col) st'.1 = Some p ∧ (i < p)%nat) ↔
   (∃ p, om_get (leg, col) st.1 = Some p ∧ (i < p)%nat) ∨
   ∃ j m, l !! j = Some m ∧ leaves leg col m ∧ (i < k + j)%nat) ∧
((∃ p, om_get (leg, col) st'.2 = Some p ∧ (p < i)%nat) ↔
   (∃ p, om_get (leg, col) st.2 = Some p ∧ (p < i)%nat) ∨
   ∃ j m, l !! j = Some m ∧ arrives leg col m ∧ (k + j < i)%nat).
Proof.
revert st k. induction l as [|m l IH]; intros st k H1 H2; cbv zeta.
- simpl. split; (split; [by left|]); intros [|(? & ? & ? & _)]; done.
- cbn [imap fold_left]. rewrite Nat.add_0_r.
  replace (imap _ l) with (imap (λ j m, ((S k + j)%nat, m)) l) by (apply imap_ext; intros; simpl; f_equal; lia).
  destruct (index_step_below st k m H1 H2) as [H1' H2'].
  destruct (IH _ _ H1' H2') as [IH1 IH2]. clear IH H1' H2'. split.
  + rewrite IH1, index_step_later by done.
    rewrite (exists_cons (λ j m, leaves leg col m ∧ (i < k + j)%nat)).
    setoid_rewrite Nat.add_succ_r. rewrite Nat.add_0_r. tauto.
  + rewrite IH2, index_step_earlier by done.
    rewrite (exists_cons (λ j m, arrives leg col m ∧ (k + j < i)%nat)).
    setoid_rewrite Nat.add_succ_r. rewrite Nat.add_0_r. tauto.
Qed.
End positions.

Section sides.
Context (pre post : list LadderMessage) (msg : LadderMessage).

Lemma later_index (P : LadderMessage → Prop) :
(∃ j m, (pre ++ msg :: post) !! j = Some m ∧ P m ∧ (length pre < 0 + j)%nat) ↔ ∃ m, m ∈ post ∧ P m.
Proof.
split.
- intros (j & m & Hj & Hm & Hlt). exists m. split; [|done].
  rewrite lookup_app_r in Hj by lia. destruct (j - length pre)%nat as [|n] eqn:E; [lia|].
  simpl in Hj. by apply list_elem_of_lookup_2 in Hj.
- intros (m & (j & Hj)%list_elem_of_lookup & Hm). exists (length pre + S j)%nat, m.
  repeat split; [|done|lia]. rewrite lookup_app_r by lia. by replace (_ - _)%nat with (S j) by lia.
Qed.

Lemma earlier_index (P : LadderMessage → Prop) :
(∃ j m, (pre ++ msg :: post) !! j = Some m ∧ P m ∧ (0 + j < length pre)%nat) ↔ ∃ m, m ∈ pre ∧ P m.
Proof.
split.
- intros (j & m & Hj & Hm & Hlt). exists m. split; [|done].
  rewrite lookup_app_l in Hj by lia. by apply list_elem_of_lookup_2 in Hj.
- intros (m & (j & Hj)%list_elem_of_lookup & Hm). exists j, m. pose proof (lookup_lt_Some _ _ _ Hj).
  repeat split; [by rewrite lookup_app_l|done|lia].
Qed.

Lemma hasLaterSrc_spec leg col :
hasLaterSrc (pre ++ msg :: post) leg col (length pre) = true ↔ ∃ m, m ∈ post ∧ leaves leg col m.
Proof.
rewrite <-later_index.
pose proof (positions_spec (pre ++ msg :: post) ([], []) 0 leg col (length pre)) as [H _]; [done..|].
change (fold_left index_step _ _) with (positions (pre ++ msg :: post)) in H.
transitivity (∃ p, om_get (leg, col) (positions (pre ++ msg :: post)).1 = Some p ∧ (length pre < p)%nat).
- unfold hasLaterSrc. destruct (om_get _ _) as [p|]; rewrite ?Nat.ltb_lt; naive_solver.
- rewrite H. simpl. naive_solver.
Qed.

Lemma hasEarlierDst_spec leg col :
hasEarlierDst (pre ++ msg :: post) leg col (length pre) = true ↔ ∃ m, m ∈ pre ∧ arrives leg col m.
Proof.
rewrite <-earlier_index.
pose proof (positions_spec (pre ++ msg :: post) ([], []) 0 leg col (length pre)) as [_ H]; [done..|].
change (fold_left index_step _ _) with (positions (pre ++ msg :: post)) in H.
transitivity (∃ p, om_get (leg, col) (positions (pre ++ msg :: post)).2 = Some p ∧ (p < length pre)%nat).
- unfold hasEarlierDst. destruct (om_get _ _) as [p|]; rewrite ?Nat.ltb_lt; naive_solver.
- rewrite H. simpl. naive_solver.
Qed.
End sides.

(** ** What a row calls for *)

(** The crossings a captured row gives rise to, given the rows before and
    after it: out of the SBC before a row that leaves the VIP for a carrier,
    into the SBC after a row that arrives at the VIP. *)
Definition calls_for (nodes : list LadderNode) (pre : list LadderMessage) (msg : LadderMessage)
    (post : list LadderMessage) (b : Leg * Z * Z) : Prop :=
  counted msg = true ∧ ∃ vip sibling, findSiblingSbcColumn vip nodes = Some sibling ∧ is_vip_col nodes vip = true ∧
    sibling ≠ vip ∧
    ((b = (lm_leg msg, sibling, vip) ∧ lm_sourceCol msg = vip ∧ isCarrierCol nodes (lm_destCol msg) = true ∧
        ∃ m, m ∈ pre ∧ arrives (lm_leg msg) sibling m)
     ∨ (b = (lm_leg msg, vip, sibling) ∧ lm_destCol msg = vip ∧ ∃ m, m ∈ post ∧ leaves (lm_leg msg) sibling m)).

(** A connector drawn for a row. *)
Definition drawn_for (nodes : list LadderNode) (pre : list LadderMessage) (msg : LadderMessage)
    (post : list LadderMessage) (c : LadderMessage) : Prop :=
  calls_for nodes pre msg post (boundary c) ∧
  ∃ inwards, c = makeHandoffMessage (lm_sourceCol c) (lm_destCol c) msg inwards.

(** Where it stands: out of the SBC towards the VIP just before the row that
    leaves the VIP, into the SBC just after the row that arrives at it. *)
Definition drawn_before (nodes : list LadderNode) (pre : list LadderMessage) (msg : LadderMessage)
    (post : list LadderMessage) (c : LadderMessage) : Prop :=
  drawn_for nodes pre msg post c ∧ c = makeHandoffMessage (lm_sourceCol c) (lm_destCol c) msg false ∧
  lm_destCol c = lm_sourceCol msg ∧ isCarrierCol nodes (lm_destCol msg) = true ∧ ∃ m, m ∈ pre ∧ arrives (lm_leg msg) (lm_sourceCol c) m.

Definition drawn_after (nodes : list LadderNode) (pre : list LadderMessage) (msg : LadderMessage)
    (post : list LadderMessage) (c : LadderMessage) : Prop :=
  drawn_for nodes pre msg post c ∧ c = makeHandoffMessage (lm_sourceCol c) (lm_destCol c) msg true ∧
  lm_sourceCol c = lm_destCol msg ∧ ∃ m, m ∈ post ∧ leaves (lm_leg msg) (lm_destCol c) m.

(** The rows after [pre] with the connectors around each of them. *)
Inductive laid_out (nodes : list LadderNode) : list LadderMessage → list LadderMessage → list LadderMessage → Prop :=
  | laid_end pre : laid_out nodes pre [] []
  | laid_row pre msg post before after out :
      (∀ c, c ∈ before → drawn_before nodes pre msg post c) →
      (∀ c, c ∈ after → drawn_after nodes pre msg post c) →
      laid_out nodes (pre ++ [msg]) post out →
      laid_out nodes pre (msg :: post) ((before ++ msg :: after) ++ out).

Section step.
Context (nodes : list LadderNode) (pre post : list LadderMessage) (msg : LadderMessage).
Context (Hmsg : captured msg = true).

Lemma counted_hairpin : counted msg = negb (lm_isHairpin msg).
Proof using Hmsg. unfold counted, captured in *. by destruct (lm_internalHandoff msg). Qed.

(** One direction: what [emitOnce] does for a wanted crossing. *)
Lemma emitOnce_spec emitted from to inwards :
let '(new, emitted') := emitOnce emitted from to msg inwards in
emitted' = emitted ++ List.map boundary new ∧ NoDup (List.map boundary new) ∧
(∀ c, c ∈ new → from ≠ to ∧ boundary c = (lm_leg msg, from, to) ∧ c = makeHandoffMessage from to msg inwards ∧
                boundary c ∉ emitted) ∧
(from ≠ to → (lm_leg msg, from, to) ∈ emitted').
Proof using.
unfold emitOnce. destruct (from =? to) eqn:E; bool_hyps.
{ split_and!; [by rewrite app_nil_r|apply NoDup_nil_2|by intros ? ?%elem_of_nil|done]. }
case_bool_decide as Hin.
{ split_and!; [by rewrite app_nil_r|apply NoDup_nil_2|by intros ? ?%elem_of_nil|done]. }
split_and!; [done|apply NoDup_singleton| |].
- by intros c ->%list_elem_of_singleton.
- intros _. apply elem_of_app. right. left.
Qed.

(** One of the two phases of a turn. *)
Definition phase (c : bool) (vip : Z) (h : Z → bool) (ends : Z → Z * Z) (inwards : bool)
  (emitted : list (Leg * Z * Z)) : list LadderMessage * list (Leg * Z * Z) :=
if c then
  match findSiblingSbcColumn vip nodes with
  | Some sibling => if h sibling then emitOnce emitted (ends sibling).1 (ends sibling).2 msg inwards else ([], emitted)
  | None => ([], emitted)
  end
else ([], emitted).

Lemma phase_spec c vip h ends inwards emitted :
let '(new, emitted') := phase c vip h ends inwards emitted in
emitted' = emitted ++ List.map boundary new ∧ NoDup (List.map boundary new) ∧
(∀ x, x ∈ new → (boundary x ∉ emitted) ∧ ∃ s, c = true ∧ findSiblingSbcColumn vip nodes = Some s ∧ h s = true ∧
   (ends s).1 ≠ (ends s).2 ∧ boundary x = (lm_leg msg, (ends s).1, (ends s).2) ∧
   x = makeHandoffMessage (ends s).1 (ends s).2 msg inwards) ∧
(∀ s, c = true → findSiblingSbcColumn vip nodes = Some s → h s = true → (ends s).1 ≠ (ends s).2 →
   (lm_leg msg, (ends s).1, (ends s).2) ∈ emitted').
Proof using.
unfold phase. destruct c; [destruct (findSiblingSbcColumn vip nodes) as [s|] eqn:E; [destruct (h s) eqn:Eh|]|].
{ pose proof (emitOnce_spec emitted (ends s).1 (ends s).2 inwards) as H.
  destruct (emitOnce _ _ _ _ _) as [new emitted']. destruct H as (H1 & H2 & H3 & H4). split_and!; [done..| |].
  - intros x Hx. destruct (H3 x Hx) as (? & ? & ? & ?). eauto 10.
  - intros s' _ [= <-] _. apply H4. }
all: split_and!; [by rewrite app_nil_r|apply NoDup_nil_2|by intros ? ?%elem_of_nil|clear Hmsg; intros; congruence].
Qed.

Lemma handoff_step_spec emitted :
let '(out, emitted') := handoff_step (pre ++ msg :: post) nodes emitted (length pre) msg in
∃ b a, out = b ++ msg :: a ∧ emitted' = emitted ++ List.map boundary (b ++ a) ∧ NoDup (List.map boundary (b ++ a)) ∧
  (∀ c, c ∈ b ++ a → drawn_for nodes pre msg post c ∧ boundary c ∉ emitted) ∧
  (∀ x, calls_for nodes pre msg post x → x ∈ emitted') ∧
  (∀ c, c ∈ b → drawn_before nodes pre msg post c) ∧ (∀ c, c ∈ a → drawn_after nodes pre msg post c).
Proof using Hmsg.
set (c1 := negb (lm_isHairpin msg) && is_vip_col nodes (lm_sourceCol msg) && isCarrierCol nodes (lm_destCol msg)).
set (c2 := negb (lm_isHairpin msg) && is_vip_col nodes (lm_destCol msg)).
set (h1 := λ s, hasEarlierDst (pre ++ msg :: post) (lm_leg msg) s (length pre)).
set (h2 := λ s, hasLaterSrc (pre ++ msg :: post) (lm_leg msg) s (length pre)).
assert (E : handoff_step (pre ++ msg :: post) nodes emitted (length pre) msg =
  let '(b, e1) := phase c1 (lm_sourceCol msg) h1 (λ s, (s, lm_sourceCol msg)) false emitted in
  let '(a, e2) := phase c2 (lm_destCol msg) h2 (λ s, (lm_destCol msg, s)) true e1 in
  (b ++ msg :: a, e2)).
{ unfold handoff_step, captured in *. by destruct (lm_internalHandoff msg). }
rewrite E. clear E.
pose proof (phase_spec c1 (lm_sourceCol msg) h1 (λ s, (s, lm_sourceCol msg)) false emitted) as H1.
destruct (phase c1 _ _ _ _ _) as [b e1].
pose proof (phase_spec c2 (lm_destCol msg) h2 (λ s, (lm_destCol msg, s)) true e1) as H2.
destruct (phase c2 _ _ _ _ _) as [a e2]. simpl in H1, H2.
destruct H1 as (-> & Hnd1 & Hb & Hw1), H2 as (-> & Hnd2 & Ha & Hw2). exists b, a. rewrite List.map_app.
pose proof counted_hairpin as Hcount.
assert (Hbefore : ∀ c, c ∈ b → drawn_before nodes pre msg post c).
{ intros c Hc. destruct (Hb c Hc) as (_ & s & Hcond & Hf & Hh & Hne & Hbo & Hmk). unfold c1 in Hcond. bool_hyps.
  apply hasEarlierDst_spec in Hh. unfold boundary in Hbo. injection Hbo as _ Es Ed. unfold drawn_before. rewrite Es, Ed.
  split_and!; [|done..]. split; [|by exists false; rewrite Hmk].
  split; [rewrite Hcount; by apply negb_true_iff|]. exists (lm_sourceCol msg), s. split_and!; [done..|]. left.
  split_and!; [|done..]. unfold boundary. rewrite Es, Ed. by rewrite Hmk. }
assert (Hafter : ∀ c, c ∈ a → drawn_after nodes pre msg post c).
{ intros c Hc. destruct (Ha c Hc) as (_ & s & Hcond & Hf & Hh & Hne & Hbo & Hmk). unfold c2 in Hcond. bool_hyps.
  apply hasLaterSrc_spec in Hh. unfold boundary in Hbo. injection Hbo as _ Es Ed. unfold drawn_after. rewrite Es, Ed.
  split_and!; [|done..]. split; [|by exists true; rewrite Hmk].
  split; [rewrite Hcount; by apply negb_true_iff|]. exists (lm_destCol msg), s. split_and!; [done..|]. right.
  split_and!; [|done..]. unfold boundary. rewrite Es, Ed. by rewrite Hmk. }
split_and!; [done|by rewrite app_assoc| | | |done|done].
- apply NoDup_app. split_and!; [done| |done]. intros x Hx (c & -> & Hc)%elem_of_lmap.
  destruct (Ha c Hc) as [Hn _]. apply Hn, elem_of_app. by right.
- intros c [Hc|Hc]%elem_of_app.
  + split; [apply Hbefore, Hc|]. by destruct (Hb c Hc).
  + split; [apply Hafter, Hc|]. destruct (Ha c Hc) as [Hn _]. intros Hin. apply Hn, elem_of_app. by left.
- intros x (Hc & vip & s & Hf & Hv & Hne & [(-> & Hs & Hca & Hex)|(-> & Hd & Hex)]);
    rewrite counted_hairpin in Hc.
  + subst vip. apply elem_of_app. left. apply (Hw1 s); [unfold c1; by rewrite Hc, Hv, Hca|done| |done].
    by apply hasEarlierDst_spec.
  + subst vip. apply (Hw2 s); [unfold c2; by rewrite Hc, Hv|done| |congruence]. by apply hasLaterSrc_spec.
Qed.
End step.

(** ** The walk *)

Definition connectors (l : list LadderMessage) : list LadderMessage := List.filter lm_internalHandoff l.

Lemma drawn_is_connector nodes pre msg post c : drawn_for nodes pre msg post c → lm_internalHandoff c = true.
Proof. by intros (_ & inwards & ->). Qed.

Lemma connectors_app l1 l2 : connectors (l1 ++ l2) = connectors l1 ++ connectors l2.
Proof. apply List.filter_app. Qed.

(** What a turn pushes: the captured row, and connectors. *)
Lemma step_rows nodes pre msg post b a :
  captured msg = true → (∀ c, c ∈ b ++ a → drawn_for nodes pre msg post c) →
  List.filter captured (b ++ msg :: a) = [msg] ∧ connectors (b ++ msg :: a) = b ++ a.
Proof.
  intros Hm Hd. assert (Hc : ∀ c, c ∈ b ++ a → lm_internalHandoff c = true) by eauto using drawn_is_connector.
  assert (Hb : ∀ c, c ∈ b → lm_internalHandoff c = true) by (intros; apply Hc, elem_of_app; by left).
  assert (Ha : ∀ c, c ∈ a → lm_internalHandoff c = true) by (intros; apply Hc, elem_of_app; by right).
  unfold connectors. rewrite !List.filter_app. simpl. rewrite Hm. unfold captured in *. apply negb_true_iff in Hm. rewrite Hm.
  split.
  - rewrite !lfilter_none; [done|..]; intros c Hin; apply negb_false_iff; auto.
  - by rewrite !lfilter_all.
Qed.

Lemma walk_spec nodes ms pre rest emitted :
  (∀ m, m ∈ ms → captured m = true) → ms = pre ++ rest →
  let out := handoff_walk ms nodes emitted (length pre) rest in
  List.filter captured out = rest ∧ NoDup (List.map boundary (connectors out)) ∧
  (∀ c, c ∈ connectors out →
     (boundary c ∉ emitted) ∧ ∃ p m q, ms = p ++ m :: q ∧ drawn_for nodes p m q c) ∧
  (∀ p m q x, ms = p ++ m :: q → (length pre ≤ length p)%nat → calls_for nodes p m q x →
     x ∈ emitted ++ List.map boundary (connectors out)) ∧
  laid_out nodes pre rest out.
Proof.
  intros Hms. revert pre emitted. induction rest as [|m rest IH]; intros pre emitted E; cbn [handoff_walk]; cbv zeta.
  - split_and!; [done|apply NoDup_nil_2|by intros ? ?%elem_of_nil| |constructor]. intros p m q x Ep Hlen _.
    apply (f_equal length) in Ep. rewrite E, !length_app in Ep. simpl in Ep. lia.
  - assert (Hm : captured m = true) by (apply Hms; rewrite E; apply elem_of_app; right; left).
    pose proof (handoff_step_spec nodes pre rest m Hm emitted) as Hstep. rewrite <-E in Hstep.
    destruct (handoff_step _ _ _ _ _) as [out emitted'].
    destruct Hstep as (b & a & -> & -> & Hnd & Hdr & Hw & Hbef & Haft).
    destruct (step_rows nodes pre m rest b a Hm (λ c Hc, proj1 (Hdr c Hc))) as [Hcap Hcon].
    destruct (IH (pre ++ [m]) (emitted ++ List.map boundary (b ++ a))) as (IH1 & IH2 & IH3 & IH4 & IH5);
      [by rewrite <-app_assoc|]. clear IH. replace (length (pre ++ [m])) with (S (length pre)) in * by (rewrite length_app; simpl; lia).
    rewrite List.filter_app, connectors_app, Hcap, Hcon, IH1, List.map_app. split_and!; [done| | | |by constructor].
    + apply NoDup_app. split_and!; [done| |done]. intros x Hx (c & -> & Hc)%elem_of_lmap.
      destruct (IH3 c Hc) as [Hn _]. apply Hn, elem_of_app. by right.
    + intros c [Hc|Hc]%elem_of_app.
      * destruct (Hdr c Hc). eauto 10.
      * destruct (IH3 c Hc) as [Hn Hex]. split; [|done]. intros Hin. apply Hn, elem_of_app. by left.
    + intros p m' q x Ep Hlen Hcall. rewrite app_assoc.
      destruct (decide (length p = length pre)) as [Hl|].
      * assert (p = pre ∧ m' :: q = m :: rest) as [-> [= -> ->]] by (apply app_inj_1; [done|by rewrite <-E, <-Ep]).
        apply elem_of_app. left. by apply Hw.
      * apply (IH4 p m' q); [done|lia|done].
Qed.

(** Where nothing new is called for, nothing is drawn. *)
Lemma walk_quiet nodes ms pre rest emitted :
  ms = pre ++ rest →
  (∀ p m q x, ms = p ++ m :: q → captured m = true → calls_for nodes p m q x → x ∈ emitted) →
  handoff_walk ms nodes emitted (length pre) rest = rest.
Proof.
  intros E Hq. revert pre E. induction rest as [|m rest IH]; intros pre E; cbn [handoff_walk]; [done|].
  specialize (IH (pre ++ [m])). rewrite <-app_assoc in IH. specialize (IH E).
  rewrite length_app, Nat.add_1_r in IH. destruct (captured m) eqn:Hm.
  - pose proof (handoff_step_spec nodes pre rest m Hm emitted) as Hstep. rewrite <-E in Hstep.
    destruct (handoff_step _ _ _ _ _) as [out emitted']. destruct Hstep as (b & a & -> & -> & _ & Hdr & _ & _ & _).
    assert (b ++ a = []) as [-> ->]%app_nil.
    { destruct (b ++ a) as [|c l] eqn:Ec; [done|]. destruct (Hdr c) as [[Hcall _] Hn]; [left|].
      destruct Hn. by eapply Hq. }
    simpl. by rewrite app_nil_r, IH.
  - unfold captured in Hm. apply negb_false_iff in Hm. unfold handoff_step. rewrite Hm. simpl. by rewrite IH.
Qed.

Lemma calls_for_captured nodes p m q x :
  calls_for nodes p m q x → calls_for nodes (List.filter captured p) m (List.filter captured q) x.
Proof.
  intros (Hc & vip & s & Hf & Hv & Hne & H). split; [done|]. exists vip, s. split_and!; [done..|].
  assert (Hcount : ∀ m', counted m' = true → captured m' = true) by (intros m'; unfold counted, captured; by destruct (lm_internalHandoff m')).
  destruct H as [(-> & H1 & H2 & m' & Hin & Ha)|(-> & H1 & m' & Hin & Ha)]; [left|right]; split_and!; try done;
    exists m'; (split; [|done]); apply elem_of_lfilter; (split; [done|]); apply Hcount, Ha.
Qed.

Lemma calls_need_vip nodes p m q x : calls_for nodes p m q x → existsb (λ n, ln_role n ==? sbc_vip) nodes = true.
Proof.
  intros (_ & vip & s & _ & Hv & _). unfold is_vip_col, role_at in Hv. bool_hyps.
  destruct (node_at nodes vip) as [n|] eqn:E; [|done]. apply existsb_elem_of. exists n.
  unfold node_at in E. destruct (vip <? 0); [done|]. apply list_elem_of_lookup_2 in E.
  split; [done|]. apply bool_decide_eq_true. simpl in Hv. congruence.
Qed.

(** Rows with no connector around them. *)
Lemma laid_bare nodes pre rest : laid_out nodes pre rest rest.
Proof.
  revert pre. induction rest as [|m rest IH]; intros pre; [constructor|].
  apply (laid_row _ _ _ _ [] []); [by intros c ?%elem_of_nil..|apply IH].
Qed.

Lemma handoffs_ok messages nodes :
  (∀ m, m ∈ messages → captured m = true) →
  let out := injectInternalHandoffs messages nodes in
  List.filter captured out = messages ∧ NoDup (List.map boundary (connectors out)) ∧
  (∀ c, c ∈ connectors out → ∃ p m q, messages = p ++ m :: q ∧ drawn_for nodes p m q c) ∧
  (∀ b, b ∈ List.map boundary (connectors out) ↔ ∃ p m q, messages = p ++ m :: q ∧ calls_for nodes p m q b) ∧
  laid_out nodes [] messages out.
Proof.
  intros Hms. unfold injectInternalHandoffs. destruct (existsb _ nodes) eqn:Hvip; cbv zeta.
  - assert (Hnone : List.filter lm_internalHandoff messages = []).
    { apply lfilter_none. intros m Hm%Hms. by apply negb_true_iff in Hm. }
    rewrite Hnone. destruct (walk_spec nodes messages [] messages [] Hms eq_refl) as (H1 & H2 & H3 & H4 & H5).
    split_and!; [done..| | |done].
    + intros c Hc. by apply H3.
    + intros b. split.
      * intros (c & -> & Hc)%elem_of_lmap. destruct (H3 c Hc) as (_ & p & m & q & E & [Hcall _]). eauto.
      * intros (p & m & q & E & Hcall). apply (H4 p m q); [done|simpl; lia|done].
  - assert (Hnone : connectors messages = []).
    { apply lfilter_none. intros m Hm%Hms. by apply negb_true_iff in Hm. }
    rewrite Hnone. split_and!; [by apply lfilter_all|apply NoDup_nil_2|by intros ? ?%elem_of_nil| |apply laid_bare].
    intros b. split; [by intros ?%elem_of_nil|]. intros (p & m & q & _ & Hc%calls_need_vip). congruence.
Qed.

(** C31 The inferred handoffs.  The captured rows keep their order and nothing
    is lost; there is at most one connector for a leg and a pair of columns, and
    there is one exactly where some row calls for it: a row that arrives at a
    VIP when the leg later leaves the nearest SBC of its zone, or one that
    leaves the VIP for a carrier when the leg arrived at that SBC before.  Every
    connector is drawn for such a row, the first kind just after it, from the
    VIP, the second kind just before it, towards the VIP; and running the pass
    again adds none. *)
Theorem injectInternalHandoffs_spec messages nodes :
  (∀ m, m ∈ messages → captured m = true) →
  let out := injectInternalHandoffs messages nodes in
  List.filter captured out = messages ∧ NoDup (List.map boundary (connectors out)) ∧
  laid_out nodes [] messages out ∧
  (∀ b, b ∈ List.map boundary (connectors out) ↔ ∃ p m q, messages = p ++ m :: q ∧ calls_for nodes p m q b) ∧
  injectInternalHandoffs out nodes = out.
Proof.
  intros Hms. destruct (handoffs_ok messages nodes Hms) as (H1 & H2 & _ & H4 & H5). cbv zeta in *.
  split_and!; [done..|]. set (out := injectInternalHandoffs messages nodes) in *.
  unfold injectInternalHandoffs at 1. destruct (existsb _ nodes); [|done].
  apply (walk_quiet nodes out []); [done|]. intros p m q x E Hm Hc%calls_for_captured.
  apply H4. exists (List.filter captured p), m, (List.filter captured q). split; [|done].
  rewrite <-H1, E, List.filter_app. simpl. by rewrite Hm.
Qed.
