(* ===== verification/LadderGrid.v ===== *)
(** * The grid of the SIP ladder: legs, columns, the whole layout, and a
    recorded call laid out *)
From S2P Require Import Prelude JsString Homer LadderOrder Double SipText SipInfo LadderRows LadderLayout CausalOk LadderOk HandoffOk.

Local Open Scope Z_scope.
Local Open Scope list_scope.

(** ** Legs *)

Lemma best_invite_some best sorted m :
  best_invite best sorted = Some m → (∃ s, best = Some (m, s)) ∨ (m ∈ sorted ∧ invite_request m = true).
Proof.
  revert best. induction sorted as [|x sorted IH]; intros best; simpl.
  - destruct best as [[y s]|]; [|done]. intros [= ->]. left. eauto.
  - destruct (invite_request x) eqn:Ex; simpl.
    + destruct (match best with Some _ => _ | None => _ end).
      * destruct (_ =? 0); [intros H; simplify_eq; right; split; [left|done]|].
        intros [(s & H)|[H1 H2]]%IH; simplify_eq; right; (split; [|done]); [left|by right].
      * intros [?|[H1 H2]]%IH; [by left|right]. split; [by right|done].
    + intros [?|[H1 H2]]%IH; [by left|right]. split; [by right|done].
Qed.

Lemma best_invite_none best sorted :
  best_invite best sorted = None → best = None ∧ ∀ m, m ∈ sorted → invite_request m = false.
Proof.
  revert best. induction sorted as [|x sorted IH]; intros best; simpl.
  - destruct best; [done|]. split; [done|]. by intros ? ?%elem_of_nil.
  - destruct (invite_request x) eqn:Ex; simpl.
    + destruct best as [[y s]|]; [destruct (_ <? _)|]; repeat case_match; try done; intros Hn%IH; naive_solver.
    + intros [-> H]%IH. split; [done|]. by intros m [->|?]%elem_of_cons; auto.
Qed.

(** The sets stay apart and grow. *)
Definition apart (legs : list string * list string) : Prop := ∀ c, c ∈ legs.1 → c ∈ legs.2 → False.

Lemma place_call_ok first sorted legs c :
  apart legs →
  let legs' := place_call first sorted legs c in
  apart legs' ∧ (c ∈ legs'.1 ∨ c ∈ legs'.2) ∧
  (∀ x, x ∈ legs.1 → x ∈ legs'.1) ∧ (∀ x, x ∈ legs.2 → x ∈ legs'.2).
Proof.
  destruct legs as [a b]. unfold apart, place_call. simpl. intros Hap.
  destruct (includes a c || includes b c) eqn:E; simpl.
  - split_and!; [done| |done..]. apply orb_true_iff in E as [E|E]; apply includes_true in E; auto.
  - bool_hyps. apply includes_false in H, H0.
    repeat case_match; simpl; setoid_rewrite elem_of_set_add; naive_solver.
Qed.

Lemma place_calls_ok first sorted cs legs :
  apart legs →
  let legs' := fold_left (place_call first sorted) cs legs in
  apart legs' ∧ (∀ c, c ∈ cs → c ∈ legs'.1 ∨ c ∈ legs'.2) ∧
  (∀ x, x ∈ legs.1 → x ∈ legs'.1) ∧ (∀ x, x ∈ legs.2 → x ∈ legs'.2).
Proof.
  revert legs. induction cs as [|c cs IH]; intros legs Hap; simpl.
  - split_and!; [done|by intros ? ?%elem_of_nil|done..].
  - destruct (place_call_ok first sorted legs c Hap) as (H1 & H2 & H3 & H4).
    destruct (IH _ H1) as (I1 & I2 & I3 & I4). split_and!; [done| |auto..].
    intros x [->|Hx]%elem_of_cons; [|by apply I2]. destruct H2; auto.
Qed.

Lemma call_ids_elem sorted c :
  c ∈ fold_left (λ s m, set_add (hr_callid m) s) sorted [] ↔ ∃ m, m ∈ sorted ∧ hr_callid m = c.
Proof.
  assert (H : ∀ s, c ∈ fold_left (λ s m, set_add (hr_callid m) s) sorted s ↔ c ∈ s ∨ ∃ m, m ∈ sorted ∧ hr_callid m = c).
  { induction sorted as [|m sorted IH]; intros s; simpl.
    - split; [by left|]. intros [|(? & ?%elem_of_nil & _)]; done.
    - rewrite IH, elem_of_set_add. setoid_rewrite elem_of_cons. naive_solver. }
  rewrite H. split; [|by right]. by intros [?%elem_of_nil|].
Qed.

Lemma set_adds_elem values ids x : x ∈ fold_left (λ ids v, set_add v ids) values ids ↔ x ∈ ids ∨ x ∈ values.
Proof.
  revert ids. induction values as [|v values IH]; intros ids; simpl.
  - split; [by left|]. intros [|?%elem_of_nil]; done.
  - rewrite IH, elem_of_set_add, elem_of_cons. naive_solver.
Qed.

Lemma correlated_ids_elem primary correlations key values x :
  (key, values) ∈ correlations → key = primary ∨ primary ∈ values → x = key ∨ x ∈ values →
  x ∈ correlated_ids primary correlations.
Proof.
  intros Hin Hkey Hx. unfold correlated_ids. set (f := λ ids '(k, vs), _).
  assert (Hstep : ∀ ids kv y, y ∈ ids → y ∈ f ids kv).
  { intros ids [k vs] y Hy. unfold f. destruct (_ || _); [|done]. rewrite set_adds_elem, elem_of_set_add. auto. }
  assert (Hkeep : ∀ l ids y, y ∈ ids → y ∈ fold_left f l ids).
  { intros l. induction l as [|kv l IH]; intros ids y Hy; simpl; auto. }
  apply list_elem_of_split in Hin as (l1 & l2 & ->). rewrite fold_left_app. simpl. apply Hkeep.
  unfold f. replace ((key ==? primary) || includes values primary) with true.
  - rewrite set_adds_elem, elem_of_set_add. naive_solver.
  - symmetry. apply orb_true_iff. destruct Hkey; [left; by apply bool_decide_eq_true|right; by apply includes_true].
Qed.

(** The legs.  No Call-ID is in both; when the trace has an INVITE every
    message is in one of them, the A leg has the Call-ID of an INVITE, and what
    the correlation map ties to that Call-ID is in the B leg; without one only
    the first message's Call-ID is in a leg. *)
Theorem classifyCallLegs_ok sorted correlations :
  let legs := classifyCallLegs sorted correlations in
  apart legs ∧
  (existsb invite_request sorted = true →
     (∀ m, m ∈ sorted → determineLeg (hr_callid m) legs.1 legs.2 ≠ leg_unknown) ∧
     ∃ primary, primary ∈ sorted ∧ invite_request primary = true ∧ hr_callid primary ∈ legs.1 ∧
       ∀ key values x, (key, values) ∈ correlations → key = hr_callid primary ∨ hr_callid primary ∈ values →
         x = key ∨ x ∈ values → x ≠ hr_callid primary → x ∈ legs.2) ∧
  (existsb invite_request sorted = false → legs = (List.map hr_callid (take 1 sorted), [])).
Proof.
  unfold classifyCallLegs. destruct (best_invite None sorted) as [first|] eqn:E; cbv zeta.
  - apply best_invite_some in E as [(s & ?)|[Hin Hinv]]; [done|].
    set (b := List.filter _ (correlated_ids _ _)). set (cs := fold_left _ sorted []).
    destruct (place_calls_ok first sorted cs ([hr_callid first], b)) as (H1 & H2 & H3 & H4).
    { intros c ->%list_elem_of_singleton [_ Hn]%elem_of_lfilter. bool_hyps. done. }
    assert (Hex : existsb invite_request sorted = true) by (apply existsb_elem_of; by exists first).
    split_and!; [done| |congruence]. intros _. split.
    + intros m Hm. unfold determineLeg. destruct (includes _ _) eqn:Ea; [done|]. destruct (includes _.2 _) eqn:Eb; [done|].
      apply includes_false in Ea, Eb. destruct (H2 (hr_callid m)) as [?|?]; [|done..].
      apply call_ids_elem. by exists m.
    + exists first. split_and!; [done..|apply H3; left|].
      intros key values x Hkv Hkey Hx Hne. apply H4, elem_of_lfilter.
      split; [|by apply negb_true_iff, bool_decide_eq_false]. by eapply correlated_ids_elem.
  - apply best_invite_none in E as [_ E].
    assert (Hex : existsb invite_request sorted = false) by by apply existsb_elem_of_false.
    split_and!; [|congruence|]; destruct sorted as [|m sorted]; try done.
    by intros c _ ?%elem_of_nil.
    by intros c _ ?%elem_of_nil.
Qed.

(** ** Columns *)

Definition numbered (nodes : list LadderNode) : Prop := ∀ i n, nodes !! i = Some n → ln_columnIndex n = Z.of_nat i.

Lemma map_imap {A B C} (g : B → C) (f : nat → A → B) (h : A → C) l :
  (∀ i x, g (f i x) = h x) → List.map g (imap f l) = List.map h l.
Proof.
  revert f. induction l as [|x l IH]; intros f H; simpl; [done|]. rewrite H. f_equal. apply IH. intros. apply H.
Qed.

Lemma imap_numbered {A} (f : nat → A → LadderNode) l :
  (∀ i x, ln_columnIndex (f i x) = Z.of_nat i) → numbered (imap f l).
Proof. intros H i n. rewrite list_lookup_imap. destruct (l !! i); [|done]. by intros [= <-]. Qed.

Lemma discoverNodes_elem sorted id :
  id ∈ discoverNodes sorted ↔ ∃ m, m ∈ sorted ∧ (id = hr_src_ip m ∨ id = hr_dst_ip m).
Proof.
  unfold discoverNodes. set (f := λ _ m, _).
  assert (H : ∀ s, id ∈ fold_left f sorted s ↔ id ∈ s ∨ ∃ m, m ∈ sorted ∧ (id = hr_src_ip m ∨ id = hr_dst_ip m)).
  { induction sorted as [|m sorted IH]; intros s; simpl.
    - split; [by left|]. intros [|(? & ?%elem_of_nil & _)]; done.
    - rewrite IH. unfold f. rewrite !elem_of_set_add. setoid_rewrite elem_of_cons. naive_solver. }
  rewrite H. split; [|by right]. by intros [?%elem_of_nil|].
Qed.

Lemma discoverNodes_NoDup sorted : NoDup (discoverNodes sorted).
Proof.
  unfold discoverNodes. assert (H : NoDup (@nil string)) by apply NoDup_nil_2.
  revert H. generalize (@nil string). induction sorted as [|m sorted IH]; intros s Hs; simpl; [done|].
  by apply IH, set_add_NoDup, set_add_NoDup.
Qed.

Lemma orderNodes_ids sorted names a b :
  let '(nodes, i) := orderNodes sorted names a b in
  List.map ln_id nodes ≡ₚ names ∧ numbered nodes ∧ (∀ n, n ∈ nodes → ln_displayLabel n = None).
Proof.
  unfold orderNodes. split_and!.
  - set (ids := oc_orderedIds _).
    assert (E : ids ≡ₚ names).
    { unfold ids. simpl. unfold orderedIds. rewrite sort_by_perm, List.map_map. simpl. by rewrite List.map_id. }
    rewrite <-E. apply reflexive_eq. generalize ids. clear. intros ids.
    rewrite (map_imap ln_id _ id) by done. apply List.map_id.
  - by apply imap_numbered.
  - intros n (i & Hi)%list_elem_of_lookup. rewrite list_lookup_imap in Hi.
    destruct (oc_orderedIds _ !! i); [|done]. by injection Hi as <-.
Qed.

Lemma bLeg_columns_ok z final :
  (∀ n, n ∈ final → in_columns z (ln_columnIndex n)) →
  cols_ok z (fold_left (λ m n, match physical_id (ln_id n) with Some p => om_set p (ln_columnIndex n) m | None => m end)
               final []).
Proof.
  assert (H0 : cols_ok z []) by by intros ? ? ?%elem_of_nil. revert H0. generalize (@nil (string * Z)).
  induction final as [|n final IH]; intros m Hm Hcol; simpl; [done|]. apply IH.
  - destruct (physical_id (ln_id n)); [|done]. apply cols_ok_set; [done|]. apply Hcol. left.
  - intros n' Hn'. apply Hcol. by right.
Qed.

Section split.
Context (nodes : list LadderNode) (sorted : list HomerSearchResult) (a b : list string) (at_ : nat).

Definition splits : list string := nodes_to_split (legs_of sorted a b) nodes.
Definition clones : list string :=
List.map (λ id, id +:+ BLEG_SUFFIX) (List.filter (includes splits) (List.map ln_id nodes)).

(** The columns after the split: those there were, and one more for each
  node that is split, with the original name shown. *)
Lemma split_ids :
numbered nodes →
let '(final, bLeg) := splitDualLegNodes nodes sorted a b at_ in
List.map ln_id final ≡ₚ List.map ln_id nodes ++ clones ∧ numbered final ∧
cols_ok (Z.of_nat (length final)) bLeg.
Proof.
intros Hnum. unfold splitDualLegNodes. fold splits. destruct splits as [|x l] eqn:E.
- split_and!; [|done|by intros ? ? ?%elem_of_nil]. unfold clones. rewrite E, lfilter_none; [by rewrite app_nil_r|done].
- rewrite <-E. set (tagged := List.map (tag_a splits) nodes).
  set (virtuals := List.map virtual_b _). set (final := imap at_column _).
  assert (Hfinal : numbered final) by by apply imap_numbered.
  split_and!; [|done|].
  + transitivity (List.map ln_id (take at_ tagged ++ virtuals ++ drop at_ tagged)).
    { apply reflexive_eq. unfold final. generalize (take at_ tagged ++ virtuals ++ drop at_ tagged). intros k.
      by apply map_imap. }
    rewrite (Permutation_app_comm virtuals), app_assoc, take_drop, List.map_app. f_equiv.
    * unfold tagged. rewrite List.map_map. apply reflexive_eq, List.map_ext. intros n. unfold tag_a. by destruct (includes _ _).
    * unfold virtuals, clones. rewrite List.map_map. simpl. apply reflexive_eq.
      clear. generalize splits. intros sp. induction nodes as [|n l IH]; simpl; [done|].
      destruct (includes sp (ln_id n)); simpl; by rewrite IH.
  + assert (Hcol : ∀ n, n ∈ final → in_columns (Z.of_nat (length final)) (ln_columnIndex n)).
    { intros n (i & Hi)%list_elem_of_lookup. rewrite (Hfinal i n Hi). apply lookup_lt_Some in Hi. unfold in_columns. lia. }
    by apply bLeg_columns_ok.
Qed.
End split.

Lemma suffix_inj x y : x +:+ BLEG_SUFFIX = y +:+ BLEG_SUFFIX → x = y.
Proof. intros H. apply (f_equal srev) in H. rewrite !srev_app_distr in H. simpl in H. simplify_eq. by rewrite <-(srev_involutive x), H, srev_involutive. Qed.

(** Column ids are distinct, unless an alias is another one with the suffix of
    the clones. *)
Lemma split_ids_NoDup nodes sorted a b :
  NoDup (List.map ln_id nodes) →
  (∀ n n', n ∈ nodes → n' ∈ nodes → ln_id n ≠ ln_id n' +:+ BLEG_SUFFIX) →
  NoDup (List.map ln_id nodes ++ clones nodes sorted a b).
Proof.
  intros Hnd Hsuf. apply NoDup_app. split_and!; [done| |].
  - intros id (n & -> & Hn)%elem_of_lmap (id' & E & [(n' & -> & Hn')%elem_of_lmap _]%elem_of_lfilter)%elem_of_lmap.
    by apply (Hsuf n n').
  - apply (NoDup_fmap_2_strong (λ id, id +:+ BLEG_SUFFIX)); [|by apply NoDup_lfilter].
    intros x y _ _. apply suffix_inj.
Qed.

(** ** The nearest SBC *)

Lemma nearest_sbc_spec zone vip i best nodes col :
  nearest_sbc zone vip i best nodes = Some col → (∃ d, best = Some (col, d)) ∨ i ≤ col < i + Z.of_nat (length nodes).
Proof.
  revert i best. induction nodes as [|node nodes IH]; intros i best; cbn [nearest_sbc length].
  - destruct best as [[c d]|]; [|done]. intros [= ->]. eauto.
  - destruct (_ && _ && _); intros H%IH; [|destruct H; [eauto|lia]].
    destruct H as [(d & [= -> _])|]; lia.
Qed.

Lemma sibling_in_columns vip nodes col :
  findSiblingSbcColumn vip nodes = Some col → in_columns (Z.of_nat (length nodes)) col.
Proof.
  unfold findSiblingSbcColumn. repeat case_match; try done. intros [(? & ?)|?]%nearest_sbc_spec; [done|].
  unfold in_columns. lia.
Qed.

Lemma vip_in_columns nodes col : is_vip_col nodes col = true → in_columns (Z.of_nat (length nodes)) col.
Proof.
  unfold is_vip_col, role_at, node_at, in_columns. intros H. bool_hyps. destruct (col <? 0) eqn:E; [done|].
  bool_hyps. destruct (nodes !! Z.to_nat col) eqn:E'; [|done]. apply lookup_lt_Some in E'. lia.
Qed.

Lemma connector_ok nodes p m q c : drawn_for nodes p m q c → arrow_ok (Z.of_nat (length nodes)) c.
Proof.
  intros [(_ & vip & s & Hf%sibling_in_columns & Hv%vip_in_columns & Hne & H) (inwards & Ec)].
  destruct H as [(E & _)|(E & _)]; injection E as _ Es Ed; unfold arrow_ok; rewrite Ec; simpl; rewrite Es, Ed;
    split_and!; try done; intros _ E; by apply Hne.
Qed.

(** A connector needs two columns. *)
Lemma connector_two nodes p m q c : drawn_for nodes p m q c → 2 ≤ Z.of_nat (length nodes).
Proof.
  intros [(_ & vip & s & Hf%sibling_in_columns & Hv%vip_in_columns & Hne & _) _]. unfold in_columns in *. lia.
Qed.

(** ** The whole layout *)

Lemma layout_messages_hairpin ctx a b moved prev rows m :
  m ∈ layout_messages ctx a b moved prev rows → lm_isHairpin m = is_hairpin (lm_original m).
Proof.
  revert prev. induction rows as [|row rows IH]; intros prev; simpl; [by intros ?%elem_of_nil|].
  intros [->|Hm]%elem_of_cons; [done|by eapply IH].
Qed.

(** On a single column every row is a self-hop, or has no names at all. *)
Lemma single_column (ids : list string) msg :
  (length ids < 2)%nat → hr_src_ip msg ∈ ids → hr_dst_ip msg ∈ ids → (∃ x, x ∈ ids ∧ x ≠ ""%string) → is_hairpin msg = true.
Proof.
  intros Hn Hs Hd (x & Hx & Hne). destruct ids as [|y [|? ?]]; simpl in Hn; try lia; [by apply elem_of_nil in Hx|].
  apply list_elem_of_singleton in Hs, Hd, Hx. unfold is_hairpin. rewrite Hs, Hd, <- Hx.
  rewrite bool_decide_eq_false_2, bool_decide_eq_true_2 by done. by rewrite orb_true_r.
Qed.

Lemma layout_messages_rows ctx a b moved prev rows :
  List.map lm_original (layout_messages ctx a b moved prev rows) = List.map snd rows ∧
  ∀ m, m ∈ layout_messages ctx a b moved prev rows → captured m = true.
Proof.
  revert prev. induction rows as [|row rows IH]; intros prev; simpl.
  - split; [done|]. by intros ? ?%elem_of_nil.
  - destruct (IH (prev ++ [row])) as [-> H]. split; [done|]. by intros m [->|?]%elem_of_cons; auto.
Qed.

Lemma media_column_lt nodes : media_column nodes < Z.max 1 (Z.of_nat (length nodes)).
Proof.
  unfold media_column. assert (H : ∀ i, 0 ≤ i → find_node is_media i nodes < i + Z.max 1 (Z.of_nat (length nodes))).
  { induction nodes as [|n nodes IH]; intros i Hi; cbn [find_node length]; [lia|].
    destruct (is_media n); [lia|]. specialize (IH (i + 1)). destruct nodes; simpl in *; lia. }
  specialize (H 0). lia.
Qed.

Lemma layout_context_ok sorted final bLeg :
  final ≠ [] → cols_ok (Z.of_nat (length final)) bLeg → context_ok (layout_context sorted final bLeg).
Proof.
  intros Hne Hb. assert (0 < Z.of_nat (length final)) by (destruct final; simpl; [done|lia]).
  assert (Hc : cols_ok (Z.of_nat (length final)) (om_of_list (imap (λ i n, (ln_id n, Z.of_nat i)) final))).
  { intros k c (i & Hi)%om_of_list_elem%list_elem_of_lookup. rewrite list_lookup_imap in Hi.
    destruct (final !! i) eqn:E; [|done]. injection Hi as <- <-. apply lookup_lt_Some in E. unfold in_columns. lia. }
  split; simpl; [done..| |].
  - by apply buildHostColumnIndex_ok.
  - pose proof (media_column_lt final). lia.
Qed.

Lemma ordered_rows_perm messages : List.map snd (orderMessages messages).1 ≡ₚ messages.
Proof.
  assert (H : (orderMessages messages).1 ≡ₚ indexed messages).
  { pose proof (orderMessages_perm messages) as H. by destruct (orderMessages messages). }
  rewrite H. apply reflexive_eq. unfold indexed. rewrite (map_imap snd _ id) by done. apply List.map_id.
Qed.

(** C29 The layout of a trace.  Columns carry their position, every participant
    has one, and no two have the same id unless an alias is another one with
    the suffix of the clones ([clone_of_another] shows two that do); the
    captured rows are the messages in display order; every arrow, inferred ones
    included, joins columns of the layout and points the way it is drawn; and
    when the trace names any participant at all, an arrow that is not a hairpin
    joins two distinct columns, a hairpin staying on one: no message is drawn
    as a dot ([nameless_dot] is the one of a trace without names). *)
Theorem computeLayout_ok messages correlations :
  messages ≠ [] →
  let layout := computeLayout messages correlations in
  let ids := List.map ln_id (ll_nodes layout) in
  numbered (ll_nodes layout) ∧
  (∀ m, m ∈ messages → hr_src_ip m ∈ ids ∧ hr_dst_ip m ∈ ids) ∧
  ((∀ x y, x ∈ discoverNodes messages → y ∈ discoverNodes messages → x ≠ y +:+ BLEG_SUFFIX) → NoDup ids) ∧
  List.map lm_original (List.filter captured (ll_messages layout)) = List.map snd (orderMessages messages).1 ∧
  Forall (arrow_ok (Z.of_nat (length (ll_nodes layout)))) (ll_messages layout) ∧
  ((∃ x, x ∈ discoverNodes messages ∧ x ≠ ""%string) →
     ∀ m, m ∈ ll_messages layout → lm_isHairpin m = false → lm_sourceCol m ≠ lm_destCol m).
Proof.
  intros Hne. unfold computeLayout. rewrite bool_decide_eq_false_2 by by destruct messages.
  pose proof (ordered_rows_perm messages) as Hrows. destruct (orderMessages messages) as [rows moved]. simpl in Hrows.
  set (sorted := List.map snd rows) in *. destruct (classifyCallLegs sorted correlations) as [a b].
  pose proof (orderNodes_ids sorted (discoverNodes sorted) a b) as Hord.
  destruct (orderNodes _ _ _ _) as [nodes i]. destruct Hord as (Hids & Hnum & _).
  pose proof (split_ids nodes sorted a b i Hnum) as Hsplit.
  destruct (splitDualLegNodes _ _ _ _ _) as [final bLeg]. destruct Hsplit as (Hfin & Hfnum & Hb).
  cbn [ll_nodes ll_messages fst]. rewrite Hids in Hfin.
  assert (Hdisc : ∀ id, id ∈ discoverNodes sorted ↔ id ∈ discoverNodes messages).
  { intros id. rewrite !discoverNodes_elem. by setoid_rewrite Hrows. }
  assert (Hpart : ∀ m, m ∈ messages → hr_src_ip m ∈ List.map ln_id final ∧ hr_dst_ip m ∈ List.map ln_id final).
  { intros m Hm. rewrite Hfin, !elem_of_app, !Hdisc, !discoverNodes_elem. split; left; exists m; auto. }
  assert (Hfne : final ≠ []).
  { destruct messages as [|m l]; [done|]. destruct (Hpart m) as [Hs _]; [left|]. intros ->. by apply elem_of_nil in Hs. }
  destruct (layout_messages_rows (layout_context sorted final bLeg) a b moved [] rows) as [Hor Hcap].
  destruct (handoffs_ok _ final Hcap) as (Hreal & _ & Hconn & _ & _). cbv zeta in Hreal, Hconn.
  set (rowsOut := layout_messages _ _ _ _ _ _) in *.
  assert (Hrow : ∀ m, m ∈ injectInternalHandoffs rowsOut final → captured m = true → m ∈ rowsOut).
  { intros m Hm Ec. rewrite <-Hreal. by apply elem_of_lfilter. }
  assert (Hconn' : ∀ m, m ∈ injectInternalHandoffs rowsOut final → captured m = false → ∃ p m' q, drawn_for final p m' q m).
  { intros m Hm Ec. destruct (Hconn m) as (p & m' & q & _ & Hd); [|by eauto].
    apply elem_of_lfilter. split; [done|]. by apply negb_false_iff in Ec. }
  assert (Harrows : Forall (arrow_ok (Z.of_nat (length final))) (injectInternalHandoffs rowsOut final)).
  { apply Forall_forall. intros m Hm. destruct (captured m) eqn:Ec.
    - pose proof (layout_messages_ok _ (layout_context_ok sorted final bLeg Hfne Hb) a b moved [] rows) as Hall.
      rewrite Forall_forall in Hall. by apply Hall, Hrow.
    - destruct (Hconn' m Hm Ec) as (p & m' & q & Hd). by eapply connector_ok. }
  split_and!; [done|done| |by rewrite Hreal|done|].
  - intros Hsuf. rewrite Hfin, <-Hids. apply split_ids_NoDup; [rewrite Hids; apply discoverNodes_NoDup|].
    intros n n' Hn Hn'. apply Hsuf; apply Hdisc; rewrite <-Hids; apply elem_of_lmap; eauto.
  - intros (x & Hx & Hxne) m Hm Hh. rewrite Forall_forall in Harrows. destruct (Harrows m Hm) as (_ & _ & _ & Har).
    rewrite Hh in Har. apply Har. destruct (captured m) eqn:Ec; [|by destruct (Hconn' m Hm Ec) as (p & m' & q & Hd%connector_two)].
    destruct (Z.le_gt_cases 2 (Z.of_nat (length final))) as [|Hlt]; [done|]. exfalso.
    specialize (Hrow m Hm Ec). pose proof (layout_messages_hairpin _ _ _ _ _ _ _ Hrow) as Eh. rewrite Hh in Eh.
    assert (lm_original m ∈ messages) as Hin.
    { rewrite <- Hrows. unfold sorted. rewrite <- Hor. apply elem_of_lmap. eauto. }
    destruct (Hpart _ Hin) as [Hs Hd].
    rewrite (single_column (List.map ln_id final)) in Eh; [done| |done|done|].
    + rewrite length_map. lia.
    + exists x. split; [|done]. rewrite Hfin, elem_of_app. left. by apply Hdisc.
Qed.

Local Open Scope string_scope.

Definition trace_row (ms : Z) (call method src dst : string) (status : option Z) : HomerSearchResult :=
  Build_HomerSearchResult "" (Some (1700000000000000000 + ms * 1000000)) "" "" call method src dst status None
    (Some ("1 " +:+ method)) (Some ("z9hG4bK" +:+ src)) false false None None None.

Definition sample_trace : list HomerSearchResult :=
  [trace_row 1 "a" "INVITE" "SBC-VIP" "BW-NY" (Some 100);
   trace_row 2 "a" "INVITE" "BW-NY" "SBC-VIP" None;
   trace_row 4 "a" "INVITE" "SBC-1" "FreeSWITCH" None;
   trace_row 5 "b" "INVITE" "FreeSWITCH" "SBC-1" None;
   trace_row 6 "b" "INVITE" "SBC-1" "BW-DAL" None;
   trace_row 900 "b" "INVITE" "SBC-1" "BW-DAL" None;
   trace_row 1000 "b" "INVITE" "BW-DAL" "SBC-1" (Some 200);
   trace_row 1001 "b" "INVITE" "SBC-1" "FreeSWITCH" (Some 200);
   trace_row 1002 "a" "INVITE" "FreeSWITCH" "SBC-1" (Some 200);
   trace_row 1003 "a" "INVITE" "SBC-VIP" "BW-NY" (Some 200)].
Definition sample_correlations : list (string * list string) := [("a", ["b"])].
Definition sample_layout : LadderLayout := computeLayout sample_trace sample_correlations.

(** The ladder, row by row: label, columns, leg, and what is marked. *)
Example sample_ladder :
  List.map ln_id (ll_nodes sample_layout) = ["BW-NY"; "SBC-VIP"; "SBC-1"; "FreeSWITCH"; "SBC-1__bleg"; "BW-DAL"] ∧
  List.map (λ m, (lm_label m, lm_sourceCol m, lm_destCol m)) (ll_messages sample_layout) =
    [("INVITE", 0, 1); ("internal loopback", 1, 2); ("100 Trying", 1, 0); ("INVITE", 2, 3); ("INVITE", 3, 4);
     ("INVITE", 4, 5); ("INVITE", 4, 5); ("200 OK", 5, 4); ("200 OK", 4, 3); ("200 OK", 3, 2);
     ("internal loopback", 2, 1); ("200 OK", 1, 0)] ∧
  List.map lm_tsCorrected (ll_messages sample_layout) =
    [false; false; true; false; false; false; false; false; false; false; false; false] ∧
  List.map lm_isRetransmission (ll_messages sample_layout) =
    [false; false; false; false; false; false; true; false; false; false; false; false].
Proof. vm_compute. done. Qed.

Lemma orderMessages_ok_witness :
  let '(sorted, moved) := orderMessages sample_trace in moved = [0%nat] ∧ answered (by_timestamp sample_trace) sorted.
Proof.
  pose proof (orderMessages_ok sample_trace) as H. destruct (orderMessages sample_trace) as [sorted moved] eqn:E.
  destruct H as (_ & _ & H). destruct (H eq_refl) as [Ha _]. split; [|exact Ha].
  vm_compute in E. by injection E as _ <-.
Defined.

Lemma isRetransmission_spec_witness :
  isRetransmission (trace_row 900 "b" "INVITE" "SBC-1" "BW-DAL" None) (take 5 sample_trace) = true.
Proof.
  rewrite isRetransmission_spec; [vm_compute; reflexivity|].
  repeat constructor; by intros.
Defined.

Lemma classifyCallLegs_ok_witness :
  let legs := classifyCallLegs sample_trace sample_correlations in
  apart legs ∧ (∃ primary, primary ∈ sample_trace ∧ invite_request primary = true ∧ hr_callid primary ∈ legs.1) ∧ legs = (["a"], ["b"]).
Proof.
  destruct (classifyCallLegs_ok sample_trace sample_correlations) as (H1 & H2 & _).
  destruct (H2 eq_refl) as (_ & primary & Hin & Hinv & Ha & _). split; [exact H1|]. split; [by exists primary|].
  vm_compute. reflexivity.
Defined.

Lemma injectInternalHandoffs_spec_witness :
  let out := ll_messages sample_layout in
  NoDup (List.map boundary (connectors out)) ∧ length (connectors out) = 2%nat ∧
  injectInternalHandoffs out (ll_nodes sample_layout) = out.
Proof.
  set (real := List.filter captured (ll_messages sample_layout)).
  assert (Hc : ∀ m, m ∈ real → captured m = true) by (intros m Hm; apply elem_of_lfilter in Hm; apply Hm).
  assert (E : injectInternalHandoffs real (ll_nodes sample_layout) = ll_messages sample_layout) by (vm_compute; reflexivity).
  destruct (injectInternalHandoffs_spec real (ll_nodes sample_layout) Hc) as (_ & H2 & _ & _ & H5).
  cbv zeta in *. rewrite E in H2, H5. split; [exact H2|]. split; [vm_compute; reflexivity|exact H5].
Defined.

Lemma computeLayout_ok_witness :
  NoDup (List.map ln_id (ll_nodes sample_layout)) ∧
  Forall (arrow_ok 6) (ll_messages sample_layout) ∧ length (ll_messages sample_layout) = 12%nat.
Proof.
  destruct (computeLayout_ok sample_trace sample_correlations) as (_ & _ & H3 & _ & H5 & _); [done|].
  split; [|split; [exact H5|vm_compute; reflexivity]]. apply H3.
  assert (Hall : Forall (λ x, Forall (λ y, x ≠ y +:+ BLEG_SUFFIX) (discoverNodes sample_trace)) (discoverNodes sample_trace))
    by (vm_compute; repeat constructor; discriminate).
  intros x y Hx Hy. rewrite Forall_forall in Hall. specialize (Hall x Hx). rewrite Forall_forall in Hall. by apply Hall.
Defined.

(** ** Where the ladder misleads *)

(** A trace whose rows name nobody has one column and an arrow that stays on
    it without being a hairpin. *)
Example nameless_dot :
  let layout := computeLayout [trace_row 1 "a" "INVITE" "" "" None] [] in
  List.map (λ m, (lm_isHairpin m, lm_sourceCol m, lm_destCol m)) (ll_messages layout) = [(false, 0, 0)].
Proof. vm_compute. done. Qed.

(** A participant that already bears the suffix of the clones: two columns
    have the id of the B-leg clone of SBC-1. *)
Example clone_of_another :
  List.map ln_id (ll_nodes (computeLayout (trace_row 0 "a" "OPTIONS" "SBC-1__bleg" "BW-NY" None :: sample_trace) sample_correlations))
  = ["BW-NY"; "SBC-VIP"; "SBC-1__bleg"; "SBC-1"; "FreeSWITCH"; "SBC-1__bleg"; "BW-DAL"].
Proof. vm_compute. done. Qed.

(** A B-leg row that FreeSWITCH sends to itself is drawn on the SBC's column:
    every self-loop of the B leg is taken for one of the SBC. *)
Example media_hairpin_on_the_sbc :
  let layout := computeLayout (sample_trace ++ [trace_row 1100 "b" "OPTIONS" "FreeSWITCH" "FreeSWITCH" None]) sample_correlations in
  (λ m, (lm_isHairpin m, lm_sourceCol m)) <$> last (ll_messages layout) = Some (true, 4) ∧
  ln_id <$> (ll_nodes layout !! 3%nat) = Some "FreeSWITCH" ∧ ln_id <$> (ll_nodes layout !! 4%nat) = Some "SBC-1__bleg".
Proof. vm_compute. done. Qed.
