(* ===== verification/Number.v ===== *)
(** * [Number(s)]

    The number a string stands for: white space around it is ignored, an
    empty string is 0, decimal literals take an exponent, and the other bases
    take no sign.  The exact value is rounded to a double, subnormals and
    overflow included; a zero has no sign. *)
From Stdlib Require Import QArith Qabs Qround Qpower.
From S2P Require Import Prelude JsString JsValue Double.

Local Close Scope Q_scope.
Local Open Scope string_scope.
Local Open Scope Z_scope.

(** The double nearest to a rational. *)
Definition to_double (q : Q) : num :=
  if Qle_bool (pow2 (-1022)) (Qabs q) then
    let r := rnd q in
    if Qle_bool (pow2 1024) (Qabs r) then Inf (Qle_bool r 0) else Fin r
  else Fin (Qred (inject_Z (half_even (q * pow2 1074)%Q) * pow2 (-1074))%Q).

(** [a < b] and [a === b]: false when either is NaN. *)
Definition num_lt (a b : num) : bool :=
  match a, b with
  | NaN, _ | _, NaN => false
  | _, _ => negb (num_le b a)
  end.
Definition num_eqb (a b : num) : bool := num_le a b && num_le b a.
Definition is_nan (a : num) : bool := match a with NaN => true | _ => false end.

(** A non-empty run of digits, and nothing after it. *)
Definition whole_digits (s : string) : option Z :=
  let '(d, rest) := span_digits s in
  if (d ==? "") || (rest !=? "") then None else Some (num_of_digits d).

Definition exponent_part (s : string) : option Z :=
  match s with
  | "" => Some 0
  | String c r =>
      if (c ==? "e"%char) || (c ==? "E"%char) then
        match r with
        | String sg d =>
            if sg ==? "-"%char then Z.opp <$> whole_digits d
            else if sg ==? "+"%char then whole_digits d
            else whole_digits r
        | "" => None
        end
      else None
  end.

Definition unsigned_literal (s : string) : option num :=
  if s ==? "Infinity" then Some (Inf false)
  else
    let '(i, r) := span_digits s in
    let '(f, r) := match r with
                   | String c r' => if c ==? "."%char then span_digits r' else ("", r)
                   | "" => ("", r)
                   end in
    if (i ==? "") && (f ==? "") then None
    else match exponent_part r with
         | Some e =>
             Some (to_double (inject_Z (num_of_digits (i +:+ f)) * Qpower 10 (e - Z.of_nat (String.length f)))%Q)
         | None => None
         end.

Definition num_opp (n : num) : num := match n with Fin q => Fin (- q)%Q | Inf s => Inf (negb s) | NaN => NaN end.

Definition digit_in (base : Z) (a : ascii) : option Z :=
  let v :=
    if is_digit a then digit_val a
    else if (97 <=? code a) && (code a <=? 102) then code a - 87
    else if (65 <=? code a) && (code a <=? 70) then code a - 55
    else base in
  if v <? base then Some v else None.

Fixpoint based (base acc : Z) (s : string) : option Z :=
  match s with
  | "" => Some acc
  | String a s => match digit_in base a with Some v => based base (acc * base + v) s | None => None end
  end.

(** [0x1F], [0o17], [0b11] *)
Definition radix_literal (s : string) : option (option Z) :=
  match s with
  | String z (String x r) =>
      let base :=
        if (x ==? "x"%char) || (x ==? "X"%char) then 16
        else if (x ==? "o"%char) || (x ==? "O"%char) then 8
        else if (x ==? "b"%char) || (x ==? "B"%char) then 2
        else 0 in
      if (z ==? "0"%char) && (0 <? base) then Some (if r ==? "" then None else based base 0 r) else None
  | _ => None
  end.

Definition Number (s : string) : num :=
  let t := trim s in
  match t with
  | "" => Fin 0
  | String c r =>
      match radix_literal t with
      | Some v => match v with Some z => to_double (inject_Z z) | None => NaN end
      | None =>
          default NaN
            (if c ==? "-"%char then num_opp <$> unsigned_literal r
             else if c ==? "+"%char then unsigned_literal r
             else unsigned_literal t)
      end
  end.

Example Number_forms :
  List.map Number ["12"; " 0x1F "; ""; "1e3"; ".5"; "-2."; "1.2.3"; "e5"; "+Infinity"; "0b12"; "5e-324"; "2e308"] =
  [Fin 12; Fin 31; Fin 0; Fin 1000; Fin (1 # 2); Fin (-2); NaN; NaN; Inf false; NaN; Fin (Qred (pow2 (-1074))); Inf false].
Proof. vm_compute. reflexivity. Qed.
