(* ===== verification/Hints.v ===== *)
(** * Troubleshooting hints ([components/sip-ladder/sipUtils.ts])

    What the portal says about one parsed message: each check is the list of
    the hints it pushes, and [generateTroubleshootingHints] pushes them one
    check after another.  [new Blob([raw]).size] is the length in bytes of the
    UTF-8 text. *)
From S2P Require Import Prelude JsString JsValue Format LadderOrder SipText SipInfo Number.
From Stdlib Require Import QArith.

Local Close Scope Q_scope.
Local Open Scope string_scope.
Local Open Scope Z_scope.
Local Open Scope list_scope.

Inductive HintSeverity := h_error | h_warning | h_info.

#[export] Instance HintSeverity_eq_dec : EqDecision HintSeverity.
Proof. solve_decision. Defined.

Record TroubleshootingHint := {
  th_severity : HintSeverity;
  th_category : string;
  th_title : string;
  th_description : string;
  th_suggestion : string;
  th_rfc : string;
}.

Definition DQ : string := String QUOT "".

(** ** Addresses *)

Definition isPrivateIP (ip : string) : bool :=
  if ip ==? "" then false
  else if (ip ==? "::1") || (ip ==? "0:0:0:0:0:0:0:1") then true
  else if starts_with "fe80:" (lower ip) then true
  else
    let first2 := slice 0 2 (lower ip) in
    if (first2 ==? "fc") || (first2 ==? "fd") then true
    else match split_on "." ip with
         | [p0; p1; p2; p3] =>
             let '(a, b, c, d) := (Number p0, Number p1, Number p2, Number p3) in
             if existsb (λ o, is_nan o || num_lt o (num_of_Z 0) || num_lt (num_of_Z 255) o) [a; b; c; d] then false
             else if num_eqb a (num_of_Z 10) then true
             else if num_eqb a (num_of_Z 172) && num_le (num_of_Z 16) b && num_le b (num_of_Z 31) then true
             else if num_eqb a (num_of_Z 192) && num_eqb b (num_of_Z 168) then true
             else if num_eqb a (num_of_Z 127) then true
             else if num_eqb a (num_of_Z 169) && num_eqb b (num_of_Z 254) then true
             else if num_eqb a (num_of_Z 100) && num_le (num_of_Z 64) b && num_le b (num_of_Z 127) then true
             else num_eqb a (num_of_Z 0) && num_eqb b (num_of_Z 0) && num_eqb c (num_of_Z 0) && num_eqb d (num_of_Z 0)
         | _ => false
         end.

Definition isDockerIP (ip : string) : bool :=
  if ip ==? "" then false
  else match split_on "." ip with
       | [p0; p1; _; _] =>
           num_eqb (Number p0) (num_of_Z 172) && num_le (num_of_Z 16) (Number p1) && num_le (Number p1) (num_of_Z 31)
       | _ => false
       end.

(** ** Size *)

Record Fragmentation := {
  fr_atRisk : bool;
  fr_estimatedSize : Z;
  fr_mtuThreshold : Z;
  fr_suggestion : string;
}.

Definition checkFragmentation (rawMessage : string) : Fragmentation :=
  let estimatedSize := Z.of_nat (String.length rawMessage) in
  let mtuThreshold := 1472 in
  let sipTcpThreshold := 1300 in
  let suggestion :=
    if mtuThreshold <? estimatedSize then
      "Message size (" +:+ print_int estimatedSize +:+ " bytes) exceeds UDP MTU. Will be fragmented. Consider TCP transport."
    else if sipTcpThreshold <? estimatedSize then
      "Message size (" +:+ print_int estimatedSize +:+ " bytes) exceeds RFC 3261 recommended limit of " +:+
      print_int sipTcpThreshold +:+ " bytes for UDP. TCP recommended."
    else "" in
  Build_Fragmentation (mtuThreshold <? estimatedSize) estimatedSize mtuThreshold suggestion.

(** ** The checks *)

(** [info.statusCode === code] on a response. *)
Definition responds (info : SIPMessageInfo) (code : Z) : bool := negb (si_isRequest info) && (si_statusCode info ==? Some code).

Definition hint_if (b : bool) (l : list TroubleshootingHint) : list TroubleshootingHint := if b then l else [].

Definition checkAuthFailures (info : SIPMessageInfo) : list TroubleshootingHint :=
  hint_if (responds info 401)
    [Build_TroubleshootingHint h_error "Authentication" "401 Unauthorized"
      "The server requires authentication credentials. This is typically the first step in SIP digest authentication."
      (match si_wwwAuthenticate info with
        | Some auth => ("Server requested " +:+ ai_scheme auth +:+ " auth for realm " +:+ DQ +:+ ai_realm auth +:+ DQ +:+ ". Verify credentials are configured for this realm.")
        | None => "Check that valid credentials are configured for this endpoint."
        end)
      "RFC 3261 Section 22"] ++
  hint_if (responds info 407)
    [Build_TroubleshootingHint h_error "Authentication" "407 Proxy Authentication Required"
      "The SIP proxy requires authentication before forwarding the request."
      (match si_proxyAuthenticate info with
        | Some auth => ("Proxy requested " +:+ ai_scheme auth +:+ " auth for realm " +:+ DQ +:+ ai_realm auth +:+ DQ +:+ ". Verify proxy credentials.")
        | None => "Check that proxy authentication credentials are configured."
        end)
      "RFC 3261 Section 26.3"] ++
  hint_if (responds info 403)
    [Build_TroubleshootingHint h_error "Authentication" "403 Forbidden"
      "The server understood the request but refuses to fulfill it. This is NOT an auth challenge — credentials may be wrong or the account may be disabled."
      "Verify the account is active and the source IP is authorized. Check ACLs and IP allowlists on the SBC."
      "RFC 3261 Section 21.4.4"] ++
  match si_authorization info with
  | Some auth =>
    hint_if (si_isRequest info)
    [Build_TroubleshootingHint h_info "Authentication" "Digest Authentication Present"
      ("Request includes " +:+ ai_scheme auth +:+ " credentials for realm " +:+ DQ +:+ ai_realm auth +:+ DQ +:+ ".")
      "If auth keeps failing, verify the username, password, and realm match the server configuration."
      "RFC 3261 Section 22.4"]
  | None => []
  end.

(** The streams of the body, when there is one. *)
Definition streams_of (info : SIPMessageInfo) : list SDPMediaStream :=
  match si_sdp info with Some sdp => sd_mediaStreams sdp | None => [] end.

Definition checkNATIssues (info : SIPMessageInfo) : list TroubleshootingHint :=
  flat_map (λ via,
    hint_if ((vi_received via !=? "") && (vi_received via !=? vi_host via))
    [Build_TroubleshootingHint h_warning "NAT" "NAT Detected in Via"
      ("Via host " +:+ vi_host via +:+ " differs from received=" +:+ vi_received via +:+ ". The sender is behind NAT.")
      "Ensure NAT traversal is properly configured (STUN/TURN, rport, or fix_nated_contact in Kamailio). For our platform, NAT detection must NOT apply to FreeSWITCH traffic — only inbound from Bandwidth."
      "RFC 3581"]) (si_vias info) ++
  match si_contact info with
  | Some contact =>
    hint_if ((ci_host contact !=? "") && isPrivateIP (ci_host contact))
    [Build_TroubleshootingHint h_warning "NAT" "Private IP in Contact Header"
      ("Contact contains private IP " +:+ ci_host contact +:+ ". Remote endpoints won't be able to route responses back.")
      "The Contact should contain the public IP. Check ext-sip-ip in FreeSWITCH sofia profile, or fix_nated_contact() in Kamailio. Verify local-network-acl=loopback.auto is set on both sofia profiles."
      "RFC 3261 Section 20.10"]
  | None => []
  end ++
  match si_sdp info with
  | Some sdp =>
    let sdpHost := sd_connectionAddress sdp in
    hint_if ((sdpHost !=? "") && isPrivateIP sdpHost)
    [Build_TroubleshootingHint h_error "NAT" "Private IP in SDP Connection Address"
      ("SDP c= line contains private IP " +:+ sdpHost +:+ ". RTP media will not be routable from external endpoints.")
      "Check ext-rtp-ip in FreeSWITCH sofia profile. Ensure local-network-acl=loopback.auto is set. Verify the VM is NOT on a subnet covered by GCP Cloud NAT."
      "RFC 4566 Section 5.7"] ++
    flat_map (λ ms,
      hint_if ((ms_connectionAddress ms !=? "") && isPrivateIP (ms_connectionAddress ms) && (ms_connectionAddress ms !=? sdpHost))
      [Build_TroubleshootingHint h_error "NAT" ("Private IP in SDP Media Stream (" +:+ ms_type ms +:+ ")")
        ("Media-level c= for " +:+ ms_type ms +:+ " contains private IP " +:+ ms_connectionAddress ms +:+ ".")
        "Each media stream connection address must be publicly routable. Check FreeSWITCH ext-rtp-ip configuration."
        "RFC 4566 Section 5.7"]) (sd_mediaStreams sdp)
  | None => []
  end.

(** [dockerIPs]: where each internal address shows. *)
Definition docker_addresses (info : SIPMessageInfo) : list string :=
  let seen (label ip : string) : list string := if isDockerIP ip then [label +:+ ": " +:+ ip] else [] in
  flat_map (λ via, seen "Via" (vi_host via) ++ if vi_received via !=? "" then seen "Via received" (vi_received via) else [])
    (si_vias info) ++
  match si_contact info with Some contact => seen "Contact" (ci_host contact) | None => [] end ++
  match si_sdp info with
  | Some sdp =>
      seen "SDP c=" (sd_connectionAddress sdp) ++
      flat_map (λ ms, if ms_connectionAddress ms !=? "" then seen ("SDP " +:+ ms_type ms +:+ " c=") (ms_connectionAddress ms) else [])
        (sd_mediaStreams sdp)
  | None => []
  end ++
  flat_map (λ rr, seen "Record-Route" (ri_host rr)) (si_recordRoutes info).

Definition checkDockerIPLeak (info : SIPMessageInfo) : list TroubleshootingHint :=
  let dockerIPs := docker_addresses info in
  hint_if (0 <? Z.of_nat (length dockerIPs))
    [Build_TroubleshootingHint h_error "Docker IP Leak" "Docker Internal IP Exposed in SIP Message"
      ("Docker bridge network IPs detected in: " +:+ join ", " dockerIPs +:+ ". These are not routable from external endpoints.")
      "This typically happens when: (1) force_rport()/fix_nated_contact() in Kamailio applies to FreeSWITCH traffic — NAT_DETECT must only run for Bandwidth inbound, (2) ext-sip-ip/ext-rtp-ip is not set in FreeSWITCH sofia profiles, (3) local-network-acl is not set to loopback.auto. Do NOT use the -nonat flag on FreeSWITCH."
      "Platform-specific"].

Definition checkRoutingIssues (info : SIPMessageInfo) : list TroubleshootingHint :=
  hint_if (responds info 404)
    [Build_TroubleshootingHint h_error "Routing" "404 Not Found"
      "The destination user or resource was not found on the server."
      "Verify the DID is provisioned. Check PostgreSQL did_numbers table. For BYE 404, the dialog may have been lost — check that Record-Route includes both VIP and SBC_INTERNAL_IP for multi-VM routing."
      "RFC 3261 Section 21.4.5"] ++
  hint_if (responds info 484)
    [Build_TroubleshootingHint h_error "Routing" "484 Address Incomplete"
      "The Request-URI was incomplete. The server needs more digits or information."
      "The dialed number may be too short. Check if the DID in the INVITE matches E.164 format (+1NPANXXXXXX)."
      "RFC 3261 Section 21.4.15"] ++
  hint_if (responds info 502)
    [Build_TroubleshootingHint h_error "Routing" "502 Bad Gateway"
      "The proxy received an invalid response from the downstream server (FreeSWITCH or Bandwidth)."
      ("Check FreeSWITCH is running and reachable from the SBC. Verify dispatcher health checks are passing. Run " +:+ DQ +:+ "kamcmd dispatcher.list" +:+ DQ +:+ " on the SBC.")
      "RFC 3261 Section 21.5.3"] ++
  hint_if (responds info 503)
    [Build_TroubleshootingHint h_error "Routing" "503 Service Unavailable"
      "The server is temporarily unable to process the request. May indicate overload or all downstream targets are unreachable."
      "Check Kamailio dispatcher — all FreeSWITCH destinations may be marked as down. Verify health check probe is succeeding (OPTIONS on port 5080). Check FreeSWITCH for max-sessions limits."
      "RFC 3261 Section 21.5.4"] ++
  hint_if (responds info 408)
    [Build_TroubleshootingHint h_error "Routing" "408 Request Timeout"
      "No response was received within the transaction timeout period."
      "The downstream endpoint is unreachable or too slow. Check network connectivity between SBC and FreeSWITCH. For carrier-side 408, verify Bandwidth IPs are reachable (Dallas: 67.231.2.12, LA: 216.82.238.134)."
      "RFC 3261 Section 21.4.9"] ++
  hint_if (responds info 480)
    [Build_TroubleshootingHint h_warning "Routing" "480 Temporarily Unavailable"
      "The called party endpoint is not currently reachable."
      "For RCF, this means the forward_to destination did not answer. The PSTN number may be offline, busy, or unreachable. Check if the number is valid."
      "RFC 3261 Section 21.4.18"].

Definition checkSessionTimers (info : SIPMessageInfo) : list TroubleshootingHint :=
  match si_sessionExpires info with
  | Some sessionExpires =>
    (if sessionExpires <? 90 then
    [Build_TroubleshootingHint h_error "Session Timer" "Session-Expires Below RFC 4028 Minimum"
      ("Session-Expires value is " +:+ print_int sessionExpires +:+ "s, which is below the RFC 4028 minimum of 90s. FreeSWITCH will silently ignore this value and never set up the refresh timer.")
      "This is a known Bandwidth carrier issue. Kamailio REPLY_HANDLER must normalize Session-Expires to 1800 on all carrier responses. Verify the reply_route is running and subst_body/replace_hf for Session-Expires is working."
      "RFC 4028 Section 4"]
    else hint_if (sessionExpires <? 90 + 1)
    [Build_TroubleshootingHint h_info "Session Timer" "Session-Expires at RFC Minimum"
      ("Session-Expires is " +:+ print_int sessionExpires +:+ "s (the RFC 4028 minimum). This is technically valid but may cause frequent re-INVITEs.")
      "Consider normalizing to 1800s for reduced overhead."
      "RFC 4028 Section 4"]) ++
    hint_if (si_sessionRefresher info ==? "")
    [Build_TroubleshootingHint h_warning "Session Timer" "Missing refresher Parameter"
      "Session-Expires header is present but does not specify a refresher (uac or uas)."
      "Add refresher=uac or refresher=uas to the Session-Expires header. Our platform uses refresher=uac on outbound INVITEs."
      "RFC 4028 Section 4"]
  | None => []
  end ++
  hint_if (responds info 422)
    [Build_TroubleshootingHint h_warning "Session Timer" "422 Session Interval Too Small"
      "The server rejected the session timer value as too small. The Min-SE header in the response indicates the minimum acceptable value."
      "Kamailio should retry with Session-Expires: 3600 and Min-SE: 900 per the 422 handling logic. Check that the failure route is handling 422 responses."
      "RFC 4028 Section 7"] ++
  match si_minSE info, si_sessionExpires info with
  | Some (Some minSE), Some sessionExpires =>
    hint_if (sessionExpires <? minSE)
    [Build_TroubleshootingHint h_error "Session Timer" "Min-SE Exceeds Session-Expires"
      ("Min-SE (" +:+ print_int minSE +:+ "s) is greater than Session-Expires (" +:+ print_int sessionExpires +:+ "s). This is a protocol violation.")
      "Session-Expires must be >= Min-SE. Fix the Min-SE or Session-Expires values."
      "RFC 4028 Section 4"]
  | _, _ => []
  end.

(** [c.clockRate > 8000]: false of NaN. *)
Definition int_gt (a : jsint) (b : Z) : bool := match a with Some x => b <? x | None => false end.

Definition is_wideband (c : CodecInfo) : bool :=
  int_gt (cd_clockRate c) 8000 || (upper (cd_name c) ==? "G722") || (lower (cd_name c) ==? "opus").

Definition is_narrowband (c : CodecInfo) : bool :=
  (int_eq (cd_clockRate c) (Some 8000) || (upper (cd_name c) ==? "PCMU") || (upper (cd_name c) ==? "PCMA") ||
   (upper (cd_name c) ==? "G729")) &&
  (lower (cd_name c) !=? "telephone-event") && (lower (cd_name c) !=? "cn").

Definition is_dtmf (c : CodecInfo) : bool :=
  (lower (cd_name c) ==? "telephone-event") || int_eq (cd_payloadType c) (Some 101).

(** One turn of the loop over the streams. *)
Definition stream_hints (info : SIPMessageInfo) (ms : SDPMediaStream) : list TroubleshootingHint :=
  if int_eq (ms_port ms) (Some 0) then
    [Build_TroubleshootingHint h_warning "Codec Negotiation" ("Media Stream Rejected (" +:+ ms_type ms +:+ ")")
      ("The " +:+ ms_type ms +:+ " media stream has port 0, indicating it was rejected by the answerer.")
      "The answerer could not match any offered codecs or capabilities for this stream. Check codec configuration on both sides."
      "RFC 3264 Section 6"]
  else
    hint_if (Nat.eqb (length (ms_codecs ms)) 0)
    [Build_TroubleshootingHint h_error "Codec Negotiation" ("No Codecs in " +:+ ms_type ms +:+ " Stream")
      ("The " +:+ ms_type ms +:+ " media stream has no codecs listed. The media line may be malformed.")
      "Check the m= line in SDP for valid payload type numbers and corresponding a=rtpmap lines."
      "RFC 4566 Section 5.14"] ++
    hint_if ((ms_type ms ==? "audio") && negb (existsb is_wideband (ms_codecs ms)) && existsb is_narrowband (ms_codecs ms))
    [Build_TroubleshootingHint h_info "Codec Negotiation" "Narrowband Audio Only"
      ("The " +:+ ms_type ms +:+ " stream only offers narrowband codecs (8kHz). Audio quality is limited to traditional PSTN quality.")
      "This is expected for PSTN/RCF calls through Bandwidth. Wideband codecs (G.722, Opus) are only relevant for WebRTC/UCaaS."
      "RFC 3551"] ++
    hint_if ((ms_type ms ==? "audio") && negb (existsb is_dtmf (ms_codecs ms)))
    [Build_TroubleshootingHint h_warning "Codec Negotiation" "No DTMF Support (telephone-event)"
      "The audio stream does not include telephone-event for RFC 2833 DTMF. IVR and DTMF-based services may not work."
      "Add telephone-event to the codec list. For RCF passthrough this is typically not critical, but for IVR it is essential."
      "RFC 4733"] ++
    hint_if (responds info 488)
    [Build_TroubleshootingHint h_error "Codec Negotiation" "488 Not Acceptable Here"
      "The server cannot accept the media capabilities (codecs, encryption, etc.) offered in the INVITE."
      "Compare the offered SDP with what the server supports. Common causes: SRTP required but not offered, no common audio codec, or SDP body malformed."
      "RFC 3261 Section 21.4.19"].

Definition checkCodecNegotiation (info : SIPMessageInfo) : list TroubleshootingHint :=
  flat_map (stream_hints info) (streams_of info).

Definition public_route (rr : RouteInfo) : bool := negb (isPrivateIP (ri_host rr)).
Definition internal_route (rr : RouteInfo) : bool := isPrivateIP (ri_host rr) && negb (isDockerIP (ri_host rr)).
Definition host_of (rr : option RouteInfo) : string := match rr with Some rr => ri_host rr | None => "undefined" end.

Definition checkRecordRouteMultiVM (info : SIPMessageInfo) : list TroubleshootingHint :=
  if negb (si_isRequest info) then []
  else if si_method info !=? "INVITE" then []
  else
    hint_if (Nat.eqb (length (si_recordRoutes info)) 0)
    [Build_TroubleshootingHint h_warning "Multi-VM Routing" "No Record-Route in INVITE"
      "The INVITE has no Record-Route headers. In-dialog requests (ACK, BYE) will route directly between endpoints, bypassing the proxy."
      "For multi-VM deployments, Kamailio must insert Record-Route. Use record_route_preset() with both VIP and SBC_INTERNAL_IP for correct mid-dialog routing."
      "RFC 3261 Section 16.6"] ++
    (if (2 <=? length (si_recordRoutes info))%nat then
       hint_if (existsb public_route (si_recordRoutes info) && existsb internal_route (si_recordRoutes info))
       [Build_TroubleshootingHint h_info "Multi-VM Routing" "Double Record-Route Detected"
         ("Record-Route includes both public IP (" +:+ host_of (find public_route (si_recordRoutes info)) +:+ ") and internal IP (" +:+ host_of (find internal_route (si_recordRoutes info)) +:+ "). This is the correct pattern for multi-VM deployments.")
         "Verify the outer RR is the NLB VIP (34.24.133.82) and the inner RR is the SBC's VPC IP. The inner RR must be recognized via Kamailio alias= directive."
         "RFC 3261 Section 16.6"] ++
       hint_if (existsb (λ rr, isDockerIP (ri_host rr)) (si_recordRoutes info))
       [Build_TroubleshootingHint h_error "Multi-VM Routing" "Docker IP in Record-Route"
         "A Record-Route header contains a Docker bridge IP. Mid-dialog requests from external endpoints will fail to route."
         "Record-Route must use the NLB VIP (public) and SBC_INTERNAL_IP (VPC). Never Docker bridge IPs. Check record_route_preset() parameters in Kamailio config."
         "Platform-specific"]
     else []) ++
    flat_map (λ rr,
      hint_if (negb (ri_lr rr))
      [Build_TroubleshootingHint h_warning "Multi-VM Routing" "Record-Route Missing lr Parameter"
        ("Record-Route " +:+ ri_host rr +:+ " does not include ;lr (loose routing). This causes strict routing behavior which most modern SIP stacks don't handle well.")
        ("Always include ;lr in Record-Route URIs. Use record_route_preset(" +:+ DQ +:+ "ip:port;lr" +:+ DQ +:+ ").")
        "RFC 3261 Section 16.6"]) (si_recordRoutes info).

Definition validCarriers : list string := ["dallas"; "la"; "los_angeles"; "losangeles"].

Definition checkXCarrierHeader (info : SIPMessageInfo) : list TroubleshootingHint :=
  if negb (si_isRequest info) then []
  else if si_method info !=? "INVITE" then []
  else
    (if si_xCarrier info !=? "" then
       let normalized := trim (lower (si_xCarrier info)) in
       if negb (includes validCarriers normalized) then
       [Build_TroubleshootingHint h_warning "Carrier Routing" "Unknown X-Carrier Value"
         ("X-Carrier header has value " +:+ DQ +:+ si_xCarrier info +:+ DQ +:+ " which is not a recognized Bandwidth edge. Expected: " +:+ DQ +:+ "dallas" +:+ DQ +:+ " or " +:+ DQ +:+ "la" +:+ DQ +:+ ".")
         "Check inbound_router.lua for X-Carrier header value. The Kamailio TO_CARRIER route switches on this value to select Bandwidth Dallas (67.231.2.12) or LA (216.82.238.134)."
         "Platform-specific"]
       else
       [Build_TroubleshootingHint h_info "Carrier Routing" ("X-Carrier: " +:+ si_xCarrier info)
         ("Outbound INVITE targets Bandwidth " +:+ (if normalized ==? "dallas" then "Dallas (67.231.2.12)" else "Los Angeles (216.82.238.134)") +:+ " edge.")
         "Carrier routing is correctly specified."
         "Platform-specific"]
     else []) ++
    hint_if ((si_xCarrier info ==? "") && contains "freeswitch" (lower (si_userAgent info)))
    [Build_TroubleshootingHint h_warning "Carrier Routing" "Missing X-Carrier Header"
      "FreeSWITCH INVITE does not include X-Carrier header. Kamailio may not route to the correct Bandwidth edge."
      ("Verify inbound_router.lua sets X-Carrier via sip_h_X-Carrier channel variable before bridging. Default should be " +:+ DQ +:+ "dallas" +:+ DQ +:+ ".")
      "Platform-specific"].

Definition checkLoopDetection (info : SIPMessageInfo) : list TroubleshootingHint :=
  match detectRoutingLoop info with
  | Some description =>
    [Build_TroubleshootingHint h_error "Loop Detection" "Routing Loop Suspected"
      description
      "Check Kamailio routing logic for circular routes. Verify that loose_route() recognizes the SBC_INTERNAL_IP via the alias= directive. Missing alias causes Kamailio to not match the inner Record-Route and creates a routing loop for ACKs."
      "RFC 3261 Section 16.3"]
  | None => []
  end.

Definition checkFragmentationHints (info : SIPMessageInfo) : list TroubleshootingHint :=
  let frag := checkFragmentation (si_raw info) in
  hint_if (fr_atRisk frag)
    [Build_TroubleshootingHint h_warning "Transport" "Message May Be Fragmented"
      (fr_suggestion frag)
      "Large SIP messages over UDP risk fragmentation and packet loss. Consider TCP for large messages or reduce unnecessary headers/SDP attributes."
      "RFC 3261 Section 18.1.1"].

Definition checkResponseCodes (info : SIPMessageInfo) : list TroubleshootingHint :=
  if si_isRequest info then []
  else match si_statusCode info with
  | None => []
  | Some code =>
    hint_if (code =? 100)
    [Build_TroubleshootingHint h_info "Call Flow" "100 Trying"
      "The next-hop server has received the request and is processing it. This is a hop-by-hop response."
      "Normal. The proxy has accepted the request. Waiting for downstream response."
      "RFC 3261 Section 21.1.1"] ++
    hint_if (code =? 183)
    [Build_TroubleshootingHint h_info "Call Flow" "183 Session Progress"
      (if si_hasSDP info then "Early media is being offered. The caller should hear ringback tone from the PSTN side." else "183 without SDP body. This is unusual — typically 183 carries an SDP for early media.")
      (if si_hasSDP info then "183 SDP passthrough works in FreeSWITCH default media mode. No special handling needed for RCF." else "A 183 without SDP may indicate the carrier is sending a provisional response but not yet ready for media.")
      "RFC 3261 Section 21.1.4"] ++
    hint_if (code =? 486)
    [Build_TroubleshootingHint h_info "Call Flow" "486 Busy Here"
      "The called party is busy and cannot accept the call at this time."
      "The forward-to number is busy. This is a normal call outcome for RCF."
      "RFC 3261 Section 21.4.17"] ++
    hint_if (code =? 487)
    [Build_TroubleshootingHint h_info "Call Flow" "487 Request Terminated"
      "The INVITE was cancelled (CANCEL received) before being answered."
      "The caller hung up before the call was answered. This is normal behavior."
      "RFC 3261 Section 21.4.18"] ++
    hint_if (code =? 482)
    [Build_TroubleshootingHint h_warning "Call Flow" "482 Loop Detected / Merged"
      "The server detected a loop or received a duplicate request. In our platform, this is used for Bandwidth duplicate INVITE deduplication."
      "If this is from Kamailio bw_dedup, it is expected — Bandwidth sends duplicates from multiple edges. If unexpected, check Kamailio routing for loops."
      "RFC 3261 Section 21.4.13"] ++
    hint_if ((500 <=? code) && (code <? 600) && negb (code =? 503))
    [Build_TroubleshootingHint h_error "Server Error" (print_int code +:+ " " +:+ si_reasonPhrase info)
      ("Server error response on " +:+ si_cseqMethod info +:+ ". This indicates an internal problem on the server side.")
      "Check server logs (Kamailio syslog, FreeSWITCH freeswitch.log) for the corresponding error. For 500/503/408/480/404 from Bandwidth, Kamailio should failover to the alternate carrier IP."
      "RFC 3261 Section 21.5"] ++
    hint_if (600 <=? code)
    [Build_TroubleshootingHint h_error "Global Failure" (print_int code +:+ " " +:+ si_reasonPhrase info)
      "Global failure response — the call cannot succeed at any location."
      "The called party actively refused the call. For 603 Decline or 607 Unwanted, the number may be blocking calls."
      "RFC 3261 Section 21.6"]
  end.

Definition checkViaIssues (info : SIPMessageInfo) : list TroubleshootingHint :=
  hint_if (5 <? Z.of_nat (length (si_vias info)))
    [Build_TroubleshootingHint h_warning "Via Chain" "Deep Via Chain"
      ("Message has " +:+ print_int (Z.of_nat (length (si_vias info))) +:+ " Via headers, indicating it has traversed many hops. This adds latency and may indicate misconfigured routing.")
      "Verify each hop in the Via chain is intentional. Our platform should have 2-3 Vias max (Bandwidth -> Kamailio -> FreeSWITCH)."
      "RFC 3261 Section 20.42"] ++
  flat_map (λ via,
    if vi_branch via ==? "" then
    [Build_TroubleshootingHint h_warning "Via Chain" "Via Missing Branch Parameter"
      ("Via header for " +:+ vi_host via +:+ " lacks the branch parameter. Branch is mandatory per RFC 3261 and used for transaction matching.")
      "All modern SIP stacks add branch automatically. This may indicate a malformed message or very old SIP implementation."
      "RFC 3261 Section 8.1.1.7"]
    else hint_if (negb (starts_with "z9hG4bK" (vi_branch via)))
    [Build_TroubleshootingHint h_info "Via Chain" "Non-RFC 3261 Branch"
      ("Via branch " +:+ DQ +:+ vi_branch via +:+ DQ +:+ " does not start with the RFC 3261 magic cookie " +:+ DQ +:+ "z9hG4bK" +:+ DQ +:+ ". The server will use RFC 2543 transaction matching.")
      "This is rare but valid for legacy endpoints. All modern stacks should use the z9hG4bK prefix."
      "RFC 3261 Section 8.1.1.7"]) (si_vias info).

(** The [fmtp] of the first G.729 codec, when there is one. *)
Definition g729_fmtp (ms : SDPMediaStream) : string :=
  match find (λ c, upper (cd_name c) ==? "G729") (ms_codecs ms) with Some c => cd_fmtp c | None => "" end.

Definition checkSDPIssues (info : SIPMessageInfo) : list TroubleshootingHint :=
  match si_sdp info with
  | None => []
  | Some sdp =>
    hint_if (sd_connectionAddress sdp ==? "0.0.0.0")
    [Build_TroubleshootingHint h_info "SDP" "Call Hold Detected (0.0.0.0)"
      "SDP connection address is 0.0.0.0, which is the legacy method for placing a call on hold."
      "Modern implementations use a=sendonly/a=inactive for hold. The 0.0.0.0 method is deprecated but still widely used."
      "RFC 3264 Section 8.4"] ++
    flat_map (λ ms,
      hint_if (contains "annexb=no" (g729_fmtp ms))
      [Build_TroubleshootingHint h_info "SDP" "G.729 Annex B Disabled"
        "G.729 with annexb=no means silence suppression (VAD/CNG) is disabled. This provides better audio quality but uses more bandwidth."
        "This is typically fine for PSTN calls. VAD can cause audio clipping on some endpoints."
        "RFC 3555 Section 4.1.9"] ++
      hint_if (ms_rtcpMux ms && (ms_encryption ms ==? "DTLS-SRTP"))
      [Build_TroubleshootingHint h_info "SDP" "WebRTC Media Detected"
        ("The " +:+ ms_type ms +:+ " stream uses DTLS-SRTP with rtcp-mux, indicating a WebRTC endpoint.")
        "WebRTC requires ICE, DTLS, and rtcp-mux. Ensure all three are negotiated correctly."
        "RFC 8829"] ++
      hint_if (0 <? Z.of_nat (length (ms_candidates ms)))
      [Build_TroubleshootingHint h_info "SDP" ("ICE Candidates Present (" +:+ ms_type ms +:+ ")")
        (print_int (Z.of_nat (length (ms_candidates ms))) +:+ " ICE candidate(s) in " +:+ ms_type ms +:+ " stream. ICE connectivity checks will be performed.")
        "Ensure STUN/TURN servers are reachable. For PSTN calls through our platform, ICE is not used."
        "RFC 8445"]) (sd_mediaStreams sdp) ++
    hint_if (negb (existsb (λ ms, ms_type ms ==? "audio") (sd_mediaStreams sdp)) && (0 <? Z.of_nat (length (sd_mediaStreams sdp))))
    [Build_TroubleshootingHint h_warning "SDP" "No Audio Media Stream"
      "The SDP does not contain an audio media stream. Voice calls require at least one audio m= line."
      "Check the SDP generation. For voice calls, at minimum m=audio with PCMU/PCMA should be present."
      "RFC 3264 Section 5"]
  end.

Definition checkMissingHeaders (info : SIPMessageInfo) : list TroubleshootingHint :=
  if negb (si_isRequest info) then []
  else
    hint_if (si_callId info ==? "")
    [Build_TroubleshootingHint h_error "Protocol" "Missing Call-ID Header"
      "The Call-ID header is mandatory in all SIP messages. Its absence makes the message invalid."
      "This is a serious protocol violation. Check the originating endpoint."
      "RFC 3261 Section 20.8"] ++
    hint_if ((si_fromTag info ==? "") && (si_method info !=? "CANCEL"))
    [Build_TroubleshootingHint h_warning "Protocol" "Missing From Tag"
      "The From header should contain a tag parameter for dialog identification."
      "While not strictly mandatory per RFC 3261, the tag is required for dialog matching. All modern UAs should include it."
      "RFC 3261 Section 8.1.1.3"] ++
    hint_if ((si_method info ==? "INVITE") && (match si_contact info with None => true | _ => false end))
    [Build_TroubleshootingHint h_error "Protocol" "Missing Contact Header in INVITE"
      "INVITE requests must include a Contact header. Without it, the remote party cannot send in-dialog requests back."
      ("Contact must be added BEFORE msg_apply_changes() in Kamailio. The dialog module reads Contact during record_route() to create leg info. Missing Contact causes " +:+ DQ +:+ "bad sip message or missing Contact hdr" +:+ DQ +:+ " and breaks ACK/BYE routing.")
      "RFC 3261 Section 8.1.1.8"] ++
    match si_maxForwards info with
    | None =>
    [Build_TroubleshootingHint h_info "Protocol" "Missing Max-Forwards Header"
      "Max-Forwards is recommended in all requests to prevent infinite loops."
      "The proxy should add Max-Forwards: 70 if not present."
      "RFC 3261 Section 8.1.1.6"]
    | Some maxForwards => hint_if (int_eq maxForwards (Some 0))
    [Build_TroubleshootingHint h_error "Protocol" "Max-Forwards Reached Zero"
      "Max-Forwards is 0. The proxy must respond with 483 Too Many Hops and not forward the request."
      "This typically indicates a routing loop. Check proxy configuration."
      "RFC 3261 Section 16.3"]
    end.

(** ** All of them *)

Definition checks : list (SIPMessageInfo → list TroubleshootingHint) :=
  [checkAuthFailures; checkNATIssues; checkDockerIPLeak; checkRoutingIssues; checkSessionTimers; checkCodecNegotiation;
   checkRecordRouteMultiVM; checkXCarrierHeader; checkLoopDetection; checkFragmentationHints; checkResponseCodes;
   checkViaIssues; checkSDPIssues; checkMissingHeaders].

Definition generateTroubleshootingHints (info : SIPMessageInfo) : list TroubleshootingHint :=
  fold_left (λ hints check, hints ++ check info) checks [].
