(* ===== verification/HintsOk.v ===== *)
(** * What the hints mean

    Private addresses are the reserved blocks, and the messages that raise no
    error hint. *)
From S2P Require Import Prelude JsString JsValue Format LadderOrder SipText SipInfo Number Hints Ip.
From Stdlib Require Import QArith.

Local Close Scope Q_scope.
Local Open Scope string_scope.
Local Open Scope Z_scope.
Local Open Scope list_scope.

(** ** Reserved blocks *)

Definition address (a b c d : Z) : Z := ((a * 256 + b) * 256 + c) * 256 + d.

(** Network and prefix length: RFC 1918, loopback, link-local, shared
    address space and the unspecified address. *)
Definition reserved : list (Z * Z) :=
  [(address 10 0 0 0, 8); (address 172 16 0 0, 12); (address 192 168 0 0, 16); (address 127 0 0 0, 8);
   (address 169 254 0 0, 16); (address 100 64 0 0, 10); (address 0 0 0 0, 32)].

Definition in_block (n : Z) (block : Z * Z) : bool := Z.shiftr n (32 - block.2) =? Z.shiftr block.1 (32 - block.2).

Definition dotted (a b c d : Z) : string := join "." [print_int a; print_int b; print_int c; print_int d].

Definition octets : list Z := List.map Z.of_nat (seq 0 256).

Lemma octet_in n : octet n → n ∈ octets.
Proof.
  unfold octet, octets. intros H. apply list_elem_of_In, in_map_iff. exists (Z.to_nat n).
  split; [lia|]. apply in_seq. lia.
Qed.

(** A fact about each octet is checked on all of them. *)
Lemma octet_check (P : Z → bool) : forallb P octets = true → ∀ n, octet n → P n = true.
Proof.
  intros H n Hn. apply octet_in, list_elem_of_In in Hn. rewrite forallb_forall in H. by apply H.
Qed.

Definition reads_back (n : Z) : bool := Number (print_int n) ==? num_of_Z n.

(** The printed octet is read back as the octet, and holds only digits. *)
Lemma octet_read n : octet n → Number (print_int n) = num_of_Z n.
Proof.
  intros H.
  assert (E : reads_back n = true) by (apply octet_check; [vm_compute; reflexivity|done]).
  unfold reads_back in E. by bool_hyps.
Qed.

Definition printed_in_digits (n : Z) : bool := all_digits (print_int n).

Lemma octet_digits n : octet n → print_int n ≠ "" ∧ sforall is_digit (print_int n) = true.
Proof.
  intros H. assert (E : printed_in_digits n = true) by (apply octet_check; [vm_compute; reflexivity|done]).
  unfold printed_in_digits, all_digits in E. bool_hyps. done.
Qed.

Definition numeric (a : ascii) : bool := is_digit a || (a ==? "."%char).

Lemma numeric_lower_char a : numeric a = true → lower_char a = a ∧ a ≠ "f"%char ∧ a ≠ ":"%char.
Proof. destruct a as [[] [] [] [] [] [] [] []]; vm_compute; naive_solver. Qed.

Lemma numeric_lower s : sforall numeric s = true → lower s = s.
Proof.
  induction s as [|a s IH]; simpl; [done|]. intros [Ha Hs]%andb_true_iff.
  by rewrite IH, (proj1 (numeric_lower_char a Ha)).
Qed.

Lemma dotted_numeric a b c d :
  octet a → octet b → octet c → octet d → sforall numeric (dotted a b c d) = true ∧ dotted a b c d ≠ "".
Proof.
  intros Ha Hb Hc Hd.
  assert (Hn : ∀ n, octet n → print_int n ≠ "" ∧ sforall numeric (print_int n) = true).
  { intros n Hn. destruct (octet_digits n Hn) as [Hne Hd']. split; [done|].
    eapply sforall_impl; [|done]. intros x Hx. unfold numeric. by rewrite Hx. }
  destruct (Hn a Ha) as [Ea Na], (Hn b Hb) as [_ Nb], (Hn c Hc) as [_ Nc], (Hn d Hd) as [_ Nd].
  unfold dotted. cbn [join]. split.
  - rewrite !sforall_app, Na, Nb, Nc, Nd. done.
  - by destruct (print_int a).
Qed.

Lemma split_dotted a b c d :
  octet a → octet b → octet c → octet d →
  split_on "." (dotted a b c d) = [print_int a; print_int b; print_int c; print_int d].
Proof.
  intros. apply split_on_join; [done|].
  repeat constructor; (eapply sforall_impl; [|by apply octet_digits]; intros [[] [] [] [] [] [] [] []]; vm_compute; done).
Qed.

(** ** Comparing numbers that are integers *)

Lemma num_le_Z a b : num_le (num_of_Z a) (num_of_Z b) = (a <=? b).
Proof.
  apply eq_true_iff_eq. simpl. rewrite Qle_bool_iff, Z.leb_le, <-Zle_Qle. done.
Qed.

Lemma num_lt_Z a b : num_lt (num_of_Z a) (num_of_Z b) = (a <? b).
Proof. unfold num_lt. simpl. change (Qle_bool _ _) with (num_le (num_of_Z b) (num_of_Z a)). rewrite num_le_Z. lia. Qed.

Lemma num_eqb_Z a b : num_eqb (num_of_Z a) (num_of_Z b) = (a =? b).
Proof. unfold num_eqb. rewrite !num_le_Z. lia. Qed.

(** ** A dotted address is internal exactly when it is in a reserved block *)

Lemma div_part k x y : 0 ≤ y < k → (x * k + y) / k = x.
Proof. intros H. rewrite Z.div_add_l, Z.div_small by lia. lia. Qed.

Lemma high_8 a b c d : octet a → octet b → octet c → octet d → Z.shiftr (address a b c d) 24 = a.
Proof.
  unfold octet, address. intros. rewrite Z.shiftr_div_pow2 by lia. change (2 ^ 24) with 16777216.
  etrans; [|apply (div_part 16777216 a (b * 65536 + c * 256 + d)); lia]. f_equal. lia.
Qed.

Lemma high_16 a b c d : octet a → octet b → octet c → octet d → Z.shiftr (address a b c d) 16 = a * 256 + b.
Proof.
  unfold octet, address. intros. rewrite Z.shiftr_div_pow2 by lia. change (2 ^ 16) with 65536.
  etrans; [|apply (div_part 65536 (a * 256 + b) (c * 256 + d)); lia]. f_equal. lia.
Qed.

(** Between 8 and 16 bits: [2 ^ i] values of the second number share a block. *)
Lemma high_between a b c d i :
  octet a → octet b → octet c → octet d → 0 ≤ i →
  Z.shiftr (address a b c d) (16 + i) = (a * 256 + b) / 2 ^ i.
Proof. intros. by rewrite <-Z.shiftr_shiftr, high_16, Z.shiftr_div_pow2 by done. Qed.

Lemma in_reserved a b c d :
  octet a → octet b → octet c → octet d →
  existsb (in_block (address a b c d)) reserved =
  (a =? 10) || ((a =? 172) && (16 <=? b) && (b <=? 31)) || ((a =? 192) && (b =? 168)) || (a =? 127)
  || ((a =? 169) && (b =? 254)) || ((a =? 100) && (64 <=? b) && (b <=? 127))
  || ((a =? 0) && (b =? 0) && (c =? 0) && (d =? 0)).
Proof.
  intros Ha Hb Hc Hd. unfold reserved, in_block. cbn [existsb fst snd].
  change (32 - 8) with 24. change (32 - 16) with 16. change (32 - 12) with (16 + 4). change (32 - 10) with (16 + 6).
  change (32 - 32) with 0. rewrite !high_8, !high_16, !high_between, !Z.shiftr_0_r by (try done; unfold octet; lia).
  unfold octet, address in *. apply eq_true_iff_eq. rewrite !orb_true_iff, !andb_true_iff, !Z.eqb_eq, !Z.leb_le.
  change (2 ^ 4) with 16. change (2 ^ 6) with 64.
  assert ((a * 256 + b) / 16 = (172 * 256 + 16) / 16 ↔ a = 172 ∧ 16 ≤ b ≤ 31) as ->
    by (Z.to_euclidean_division_equations; lia).
  assert ((a * 256 + b) / 64 = (100 * 256 + 64) / 64 ↔ a = 100 ∧ 64 ≤ b ≤ 127) as ->
    by (Z.to_euclidean_division_equations; lia).
  lia.
Qed.

(** An address written with four numbers is taken for an internal one
    exactly when it lies in one of the reserved blocks: the checks on its
    first two numbers are the prefixes of the blocks, and every number is
    read back from its decimal digits. *)
Theorem isPrivateIP_dotted (a b c d : Z) :
  octet a → octet b → octet c → octet d →
  isPrivateIP (dotted a b c d) = existsb (in_block (address a b c d)) reserved.
Proof.
  intros Ha Hb Hc Hd. rewrite in_reserved by done.
  destruct (dotted_numeric a b c d Ha Hb Hc Hd) as [Hn Hne].
  pose proof (split_dotted a b c d Ha Hb Hc Hd) as Hs.
  assert (Hother : ∀ t, length (split_on "." t) ≠ 4%nat → dotted a b c d ≠ t).
  { intros t Ht E. apply Ht. by rewrite <-E, Hs. }
  unfold isPrivateIP. rewrite numeric_lower, Hs by done.
  rewrite !(bool_decide_eq_false_2 (dotted a b c d = _)) by (done || by apply Hother).
  destruct (dotted a b c d) as [|x s]; [done|]. simpl in Hn. apply andb_true_iff in Hn as [Hx _].
  destruct (numeric_lower_char x Hx) as (_ & Hf & _).
  assert (starts_with "fe80:" (String x s) = false) as ->.
  { cbn [starts_with String.prefix]. destruct (ascii_dec _ x); congruence. }
  assert (Hslice : ∀ y, slice 0 2 (String x s) ≠ String "f" y) by (intros y; unfold slice; cbn; by injection 1).
  rewrite !(bool_decide_eq_false_2 (slice 0 2 (String x s) = _)) by apply Hslice.
  cbn [orb]. rewrite !octet_read by done. cbn [existsb].
  rewrite !num_lt_Z, !num_eqb_Z, !num_le_Z. unfold is_nan, num_of_Z. unfold octet in *.
  assert (∀ n, 0 ≤ n ≤ 255 → false || (n <? 0) || (255 <? n) = false) as Hin by lia.
  rewrite !Hin by done. cbn [orb]. repeat (case_match; try lia).
Qed.

(** ** Which messages raise no error *)

Definition calm (l : list TroubleshootingHint) : Prop := Forall (λ h, th_severity h ≠ h_error) l.

Lemma calm_nil : calm [] ↔ True.
Proof. split; [done|constructor]. Qed.
Lemma calm_cons h l : calm (h :: l) ↔ th_severity h ≠ h_error ∧ calm l.
Proof. unfold calm. by rewrite Forall_cons. Qed.
Lemma calm_app l1 l2 : calm (l1 ++ l2) ↔ calm l1 ∧ calm l2.
Proof. unfold calm. by rewrite Forall_app. Qed.
Lemma calm_hint_if b l : calm (hint_if b l) ↔ (b = true → calm l).
Proof. destruct b; simpl; [naive_solver|]. split; [done|constructor]. Qed.
Lemma calm_flat_map {A} (f : A → list TroubleshootingHint) l : calm (flat_map f l) ↔ ∀ x, x ∈ l → calm (f x).
Proof.
  unfold calm. rewrite Forall_forall. setoid_rewrite list_elem_of_In. setoid_rewrite in_flat_map.
  split; [intros H x Hx|intros H h (x & Hx & Hh)]; [apply Forall_forall; intros h Hh%list_elem_of_In; naive_solver|].
  specialize (H x Hx). rewrite Forall_forall in H. apply H. by apply list_elem_of_In.
Qed.

Lemma calm_skip b l : calm l → calm (hint_if b l) ↔ True.
Proof. rewrite calm_hint_if. naive_solver. Qed.

(** A check none of whose hints is an error. *)
Ltac never_an_error :=
  repeat first
    [ done
    | rewrite calm_nil
    | rewrite calm_cons; cbn [th_severity]
    | rewrite calm_app
    | rewrite calm_hint_if; intros _
    | rewrite calm_flat_map; intros ? _
    | split
    | case_match ].

(** The response codes that are errors by themselves. *)
Definition failing (code : Z) : bool :=
  includes [401; 407; 403; 404; 484; 502; 503; 408] code || ((500 <=? code) && (code <? 600)) || (600 <=? code).

(** What an error hint complains of, turned round. *)
Record sound (info : SIPMessageInfo) : Prop := {
  sound_status : ∀ code, si_isRequest info = false → si_statusCode info = Some code → failing code = false;
  sound_media_address : ∀ sdp, si_sdp info = Some sdp →
    (sd_connectionAddress sdp ≠ "" → isPrivateIP (sd_connectionAddress sdp) = false) ∧
    ∀ ms, ms ∈ sd_mediaStreams sdp → ms_connectionAddress ms ≠ "" → isPrivateIP (ms_connectionAddress ms) = false;
  sound_internal : docker_addresses info = [];
  sound_timer : ∀ seconds, si_sessionExpires info = Some seconds →
    90 ≤ seconds ∧ ∀ least, si_minSE info = Some (Some least) → least ≤ seconds;
  sound_streams : ∀ ms, ms ∈ streams_of info → ms_port ms ≠ Some 0 → ms_codecs ms ≠ [] ∧ responds info 488 = false;
  sound_path : detectRoutingLoop info = None;
  sound_request : si_isRequest info = true →
    si_callId info ≠ "" ∧ (si_method info = "INVITE" → si_contact info ≠ None) ∧ si_maxForwards info ≠ Some (Some 0);
}.

Lemma generate_checks info : generateTroubleshootingHints info = flat_map (λ check : SIPMessageInfo → list TroubleshootingHint, check info) checks.
Proof.
  unfold generateTroubleshootingHints.
  assert (∀ l acc, fold_left (λ hints check, hints ++ check info) l acc = acc ++ flat_map (λ check : SIPMessageInfo → list TroubleshootingHint, check info) l) as H.
  { induction l as [|check l IH]; intros acc; simpl; [by rewrite app_nil_r|]. by rewrite IH, app_assoc. }
  apply H.
Qed.

Lemma responds_true info code :
  responds info code = true ↔ si_isRequest info = false ∧ si_statusCode info = Some code.
Proof. unfold responds. by rewrite andb_true_iff, negb_true_iff, bool_decide_eq_true. Qed.

Lemma calm_auth info :
  calm (checkAuthFailures info) ↔ responds info 401 = false ∧ responds info 407 = false ∧ responds info 403 = false.
Proof.
  unfold checkAuthFailures. rewrite !calm_app, !calm_hint_if, !calm_cons, !calm_nil. cbn [th_severity].
  rewrite <-!not_true_iff_false.
  assert (calm (match si_authorization info with Some auth => _ | None => [] end) ↔ True) as ->
    by (split; [done|intros _; never_an_error]).
  naive_solver.
Qed.

Lemma calm_nat info :
  calm (checkNATIssues info) ↔
  ∀ sdp, si_sdp info = Some sdp →
    (sd_connectionAddress sdp ≠ "" → isPrivateIP (sd_connectionAddress sdp) = false) ∧
    ∀ ms, ms ∈ sd_mediaStreams sdp → ms_connectionAddress ms ≠ "" → isPrivateIP (ms_connectionAddress ms) = false.
Proof.
  unfold checkNATIssues. rewrite !calm_app, !calm_flat_map.
  assert (calm (match si_contact info with Some contact => _ | None => [] end) ↔ True) as ->
    by (split; [done|intros _; never_an_error]).
  assert ((∀ via : ViaInfo, via ∈ si_vias info → calm _) ↔ True) as -> by (split; [done|intros; never_an_error]).
  destruct (si_sdp info) as [sdp|]; [|rewrite calm_nil; naive_solver].
  rewrite calm_app, calm_hint_if, calm_flat_map, calm_cons, calm_nil. setoid_rewrite calm_hint_if.
  setoid_rewrite calm_cons. setoid_rewrite calm_nil. cbn [th_severity].
  setoid_rewrite andb_true_iff. setoid_rewrite andb_true_iff. setoid_rewrite negb_true_iff. setoid_rewrite bool_decide_eq_false.
  split.
  - intros (_ & _ & Hs & Hm) sdp' [= <-]. split; [intros Hne; apply not_true_is_false; naive_solver|].
    intros ms Hms Hne. apply not_true_is_false. intros Hp.
    destruct (decide (ms_connectionAddress ms = sd_connectionAddress sdp)) as [E|]; [rewrite E in *|]; naive_solver.
  - intros H. destruct (H sdp eq_refl) as [Hs Hm]. split_and!; try done.
    + intros [Hne Hp]. by rewrite Hs in Hp.
    + intros ms Hms [[Hne Hp] _]. by rewrite Hm in Hp.
Qed.

Lemma calm_docker info : calm (checkDockerIPLeak info) ↔ docker_addresses info = [].
Proof.
  unfold checkDockerIPLeak. rewrite calm_hint_if, calm_cons, calm_nil. cbn [th_severity].
  rewrite Z.ltb_lt. destruct (docker_addresses info); simpl; split; intros; try done; try lia.
  exfalso. naive_solver lia.
Qed.

Lemma calm_routing info :
  calm (checkRoutingIssues info) ↔
  responds info 404 = false ∧ responds info 484 = false ∧ responds info 502 = false ∧ responds info 503 = false ∧
  responds info 408 = false.
Proof.
  unfold checkRoutingIssues. rewrite !calm_app, !calm_hint_if, !calm_cons, !calm_nil. cbn [th_severity].
  rewrite <-!not_true_iff_false. naive_solver.
Qed.

Lemma calm_timers info :
  calm (checkSessionTimers info) ↔
  ∀ seconds, si_sessionExpires info = Some seconds →
    90 ≤ seconds ∧ ∀ least, si_minSE info = Some (Some least) → least ≤ seconds.
Proof.
  unfold checkSessionTimers. rewrite !calm_app.
  rewrite (calm_skip (responds info 422)) by never_an_error.
  destruct (si_sessionExpires info) as [seconds|]; [|by destruct (si_minSE info) as [[]|]; rewrite !calm_nil].
  rewrite calm_app.
  rewrite (calm_skip (si_sessionRefresher info ==? "")) by never_an_error.
  assert (calm (if seconds <? 90 then _ else _) ↔ 90 ≤ seconds) as ->.
  { destruct (seconds <? 90) eqn:E; [|split; [lia|intros; never_an_error]].
    rewrite calm_cons. cbn [th_severity]. split; [naive_solver|lia]. }
  destruct (si_minSE info) as [[least|]|];
    [|rewrite calm_nil; split; [intros [[H90 _] _] seconds' [= <-]; done|intros H; by destruct (H _ eq_refl)]..].
  rewrite calm_hint_if, calm_cons, calm_nil, Z.ltb_lt. cbn [th_severity]. split.
  - intros ([H90 _] & _ & H) seconds' [= <-]. split; [done|]. intros least' [= <-].
    destruct (decide (seconds < least)); [naive_solver|lia].
  - intros H. destruct (H seconds eq_refl) as [H90 Hl]. split_and!; try done.
    intros Hlt. specialize (Hl least eq_refl). lia.
Qed.

Lemma calm_codecs info :
  calm (checkCodecNegotiation info) ↔
  ∀ ms, ms ∈ streams_of info → ms_port ms ≠ Some 0 → ms_codecs ms ≠ [] ∧ responds info 488 = false.
Proof.
  unfold checkCodecNegotiation. rewrite calm_flat_map. apply forall_proper. intros ms. apply forall_proper. intros _.
  unfold stream_hints.
  assert (int_eq (ms_port ms) (Some 0) = true ↔ ms_port ms = Some 0) as Hp.
  { destruct (ms_port ms) as [p|]; simpl; [rewrite Z.eqb_eq|]; naive_solver. }
  destruct (int_eq (ms_port ms) (Some 0)); [split; [naive_solver|intros; never_an_error]|].
  rewrite !calm_app.
  rewrite (calm_skip (_ && existsb is_narrowband _)), (calm_skip (_ && negb (existsb is_dtmf _))) by never_an_error.
  rewrite !calm_hint_if, !calm_cons. cbn [th_severity].
  rewrite Nat.eqb_eq, <-not_true_iff_false, length_zero_iff_nil. naive_solver.
Qed.

Lemma docker_route info rr :
  docker_addresses info = [] → rr ∈ si_recordRoutes info → isDockerIP (ri_host rr) = false.
Proof.
  unfold docker_addresses. intros (_ & (_ & (_ & H)%app_eq_nil)%app_eq_nil)%app_eq_nil Hrr.
  destruct (isDockerIP (ri_host rr)) eqn:E; [|done]. exfalso.
  assert (Hin : ("Record-Route: " +:+ ri_host rr) ∈ @nil string); [|by apply elem_of_nil in Hin].
  rewrite <-H. apply list_elem_of_In, in_flat_map. exists rr. split; [by apply list_elem_of_In|].
  rewrite E. by left.
Qed.

Lemma calm_routes info : docker_addresses info = [] → calm (checkRecordRouteMultiVM info).
Proof.
  intros H. unfold checkRecordRouteMultiVM.
  assert (existsb (λ rr, isDockerIP (ri_host rr)) (si_recordRoutes info) = false) as ->; [|simpl; never_an_error].
  apply not_true_iff_false. rewrite existsb_exists. intros (rr & Hrr%list_elem_of_In & E).
  by rewrite (docker_route info rr) in E.
Qed.

Lemma calm_responses info :
  calm (checkResponseCodes info) ↔
  ∀ code, si_isRequest info = false → si_statusCode info = Some code →
    (500 ≤ code → code < 600 → code = 503) ∧ code < 600.
Proof.
  unfold checkResponseCodes.
  destruct (si_isRequest info); [rewrite calm_nil; split; done|].
  destruct (si_statusCode info) as [code|]; [|rewrite calm_nil; split; done].
  rewrite !calm_app, (calm_skip (code =? 100)), (calm_skip (code =? 183)), (calm_skip (code =? 486)),
    (calm_skip (code =? 487)), (calm_skip (code =? 482)) by never_an_error.
  rewrite !calm_hint_if, !calm_cons, !andb_true_iff, negb_true_iff, Z.eqb_neq, !Z.leb_le, Z.ltb_lt. cbn [th_severity].
  split.
  - intros (_ & _ & _ & _ & _ & H5 & H6) code' _ [= <-]. split.
    + intros. destruct (decide (code = 503)); [done|]. exfalso. by apply H5.
    + destruct (decide (600 ≤ code)); [|lia]. exfalso. by apply H6.
  - intros H. destruct (H code eq_refl eq_refl) as [H5 H6]. split_and!; try done; intros; exfalso; [naive_solver|lia].
Qed.

Lemma calm_missing info :
  calm (checkMissingHeaders info) ↔
  (si_isRequest info = true →
   si_callId info ≠ "" ∧ (si_method info = "INVITE" → si_contact info ≠ None) ∧ si_maxForwards info ≠ Some (Some 0)).
Proof.
  unfold checkMissingHeaders. destruct (si_isRequest info); simpl; [|rewrite calm_nil; split; done].
  rewrite !calm_app, (calm_skip (_ && (si_method info !=? "CANCEL"))) by never_an_error.
  rewrite !calm_hint_if, !calm_cons, calm_nil, andb_true_iff, !bool_decide_eq_true. cbn [th_severity].
  assert (Hc : (match si_contact info with None => true | _ => false end) = true ↔ si_contact info = None)
    by (destruct (si_contact info); done).
  rewrite Hc. clear Hc. assert (E : h_error ≠ h_error ∧ True ↔ False) by (split; [intros [H _]; by apply H|done]).
  rewrite !E. destruct (si_maxForwards info) as [[n|]|].
  - rewrite calm_hint_if, calm_cons, calm_nil. cbn [th_severity int_eq]. rewrite E, Z.eqb_eq.
    intuition (simplify_eq; auto; try congruence).
  - cbn [int_eq hint_if]. rewrite calm_nil. intuition (simplify_eq; auto; try congruence).
  - rewrite calm_cons, calm_nil. cbn [th_severity]. intuition (simplify_eq; auto; try congruence).
Qed.

Lemma failing_spec info :
  (∀ code, si_isRequest info = false → si_statusCode info = Some code → failing code = false) ↔
  (responds info 401 = false ∧ responds info 407 = false ∧ responds info 403 = false) ∧
  (responds info 404 = false ∧ responds info 484 = false ∧ responds info 502 = false ∧ responds info 503 = false ∧
   responds info 408 = false) ∧
  ∀ code, si_isRequest info = false → si_statusCode info = Some code →
    (500 ≤ code → code < 600 → code = 503) ∧ code < 600.
Proof.
  unfold responds. destruct (si_isRequest info); cbn [negb andb].
  { split; intros; [by repeat split|done]. }
  destruct (si_statusCode info) as [code|]; [|split; intros; [by repeat split|done]].
  rewrite !bool_decide_eq_false. split.
  - intros H. specialize (H code eq_refl eq_refl). unfold failing in H. simpl in H.
    repeat (case_bool_decide; [done|]). bool_hyps.
    split_and!; try congruence. intros code' _ [= <-]. bool_hyps.
    destruct (500 <=? code) eqn:E; bool_hyps; lia.
  - intros (Ha & Hb & Hc) code' _ [= <-]. destruct (Hc code eq_refl eq_refl).
    unfold failing. simpl. repeat (case_bool_decide; [subst; naive_solver|]). simpl. 
    destruct Hb as (_ & _ & _ & Hb & _). assert (code ≠ 503) by congruence. lia.
Qed.

(** No hint of a message is an error exactly when the message is sound:
    a response that does not refuse or fail, media addresses that can be
    reached from outside, no internal address anywhere, a session timer at
    least 90 seconds and no less than the least accepted, streams with codecs
    that are not refused, no loop in its Via chain, and, for a request, a
    Call-ID, a Contact in an INVITE, and hops left. *)
Theorem no_error_iff_sound (info : SIPMessageInfo) :
  Forall (λ h, th_severity h ≠ h_error) (generateTroubleshootingHints info) ↔ sound info.
Proof.
  fold (calm (generateTroubleshootingHints info)).
  rewrite generate_checks. unfold checks. cbn [flat_map]. rewrite !calm_app.
  rewrite calm_auth, calm_nat, calm_docker, calm_routing, calm_timers, calm_codecs, calm_responses, calm_missing.
  assert (Hloop : calm (checkLoopDetection info) ↔ detectRoutingLoop info = None).
  { unfold checkLoopDetection. destruct (detectRoutingLoop info); rewrite ?calm_cons, calm_nil; naive_solver. }
  assert (Hx : calm (checkXCarrierHeader info)) by (unfold checkXCarrierHeader; never_an_error).
  assert (Hf : calm (checkFragmentationHints info)) by (unfold checkFragmentationHints; never_an_error).
  assert (Hv : calm (checkViaIssues info)) by (unfold checkViaIssues; never_an_error).
  assert (Hs : calm (checkSDPIssues info)) by (unfold checkSDPIssues; never_an_error).
  rewrite Hloop, calm_nil. pose proof (failing_spec info) as Hst. pose proof (calm_routes info) as Hr.
  split.
  - intros (H1 & H2 & H3 & H4 & H5 & H6 & _ & _ & H7 & _ & H8 & _ & _ & H9 & _).
    split; try done. by apply Hst.
  - intros []. apply Hst in sound_status0 as (? & ? & ?). split_and!; try done; naive_solver.
Qed.

(** ** Messages *)

Lemma isPrivateIP_dotted_witness : isPrivateIP "172.28.0.5" = true ∧ isPrivateIP "172.32.0.5" = false.
Proof.
  split.
  - change "172.28.0.5" with (dotted 172 28 0 5). rewrite isPrivateIP_dotted by (unfold octet; lia). reflexivity.
  - change "172.32.0.5" with (dotted 172 32 0 5). rewrite isPrivateIP_dotted by (unfold octet; lia). reflexivity.
Defined.

Definition wire (lines : list string) : string := join (String CR (String LF "")) lines.

Definition sample_invite : string :=
  wire ["INVITE sip:+16175550100@67.231.2.12 SIP/2.0"; "Via: SIP/2.0/UDP 34.24.133.82:5060;branch=z9hG4bKabc";
        "Max-Forwards: 69"; "Call-ID: 1@platform"; "From: <sip:+16174544217@34.24.133.82>;tag=f1";
        "To: <sip:+16175550100@67.231.2.12>"; "CSeq: 1 INVITE"; "Contact: <sip:gw@34.24.133.82:5060>";
        "Record-Route: <sip:34.24.133.82;lr>"; "X-Carrier: dallas"; "Session-Expires: 1800;refresher=uac";
        "Content-Type: application/sdp"; ""; "v=0"; "o=FreeSWITCH 1 1 IN IP4 34.24.133.82"; "s=FreeSWITCH";
        "c=IN IP4 34.24.133.82"; "t=0 0"; "m=audio 20000 RTP/AVP 0 101"; "a=rtpmap:0 PCMU/8000";
        "a=rtpmap:101 telephone-event/8000"; ""].

(** An INVITE of the platform is sound, and its hints say so. *)
Example sample_invite_sound : sound (extractSIPInfo sample_invite).
Proof.
  apply no_error_iff_sound, Forall_forall. intros h Hh.
  assert (forallb (λ h, negb (bool_decide (th_severity h = h_error)))
            (generateTroubleshootingHints (extractSIPInfo sample_invite)) = true) as E by (vm_compute; done).
  rewrite forallb_forall in E. apply list_elem_of_In in Hh. specialize (E h Hh). by bool_hyps.
Qed.
Example sample_invite_hints :
  List.map (λ h, (th_severity h, th_title h)) (generateTroubleshootingHints (extractSIPInfo sample_invite)) =
  [(h_info, "Narrowband Audio Only"); (h_info, "X-Carrier: dallas")].
Proof. vm_compute. reflexivity. Qed.

(** The same INVITE from inside a container. *)
Example leaking_invite_hints :
  let info := extractSIPInfo (wire ["INVITE sip:a@b SIP/2.0"; "Via: SIP/2.0/UDP 172.28.0.5;branch=z9hG4bKabc"; "";""]) in
  List.map th_category (List.filter (λ h, th_severity h ==? h_error) (generateTroubleshootingHints info)) =
  ["Docker IP Leak"; "Protocol"; "Protocol"].
Proof. vm_compute. reflexivity. Qed.

(** A refusal of the media without a body raises no hint: the test of the
    status is inside the loop over the streams of the body. *)
Example refusal_without_body :
  let info := extractSIPInfo (wire ["SIP/2.0 488 Not Acceptable Here"; "Via: SIP/2.0/UDP 34.24.133.82;branch=z9hG4bKabc"; "";""]) in
  si_statusCode info = Some 488 ∧ generateTroubleshootingHints info = [].
Proof. vm_compute. done. Qed.
