(* ===== verification/Quality.v ===== *)
(** * Call quality ([pages/calls/quality.ts])

    The grade of a call, its words and colours, and the summary of a page of
    calls.  A MOS is a double ([Double]); [null] and [undefined] are [None].
    A colour is the tone constant it is compared with. *)
From Stdlib Require Import QArith Qround.
From S2P Require Import Prelude JsString JsValue Format Double.

Local Open Scope string_scope.
Local Open Scope Z_scope.
Local Open Scope list_scope.

(** [a * b], [a + b] and [a - b] on doubles. *)
Definition mul_d (a b : Q) : Q := rnd (a * b).
Definition add_d (a b : Q) : Q := rnd (a + b).

Inductive Tone := GOOD | WARN | BAD | INK_FAINT.
Inductive Grade := great | good | fair | poor.

#[export] Instance Tone_eq_dec : EqDecision Tone.
Proof. solve_decision. Defined.
#[export] Instance Grade_eq_dec : EqDecision Grade.
Proof. solve_decision. Defined.

(** ** The grade of a MOS *)

(** Decimal literals are the doubles nearest to them. *)
Definition GRADE_MOS_GREAT : Q := rnd (434 # 100).
Definition GRADE_MOS_GOOD : Q := rnd (402 # 100).
Definition GRADE_MOS_FAIR : Q := rnd (360 # 100).

Definition gradeForMos (mos : option num) : option Grade :=
  match mos with
  | Some (Fin q) =>
      let m := div_d (inject_Z (round_d (mul_d q 100))) 100 in
      Some (if Qle_bool GRADE_MOS_GREAT m then great
            else if Qle_bool GRADE_MOS_GOOD m then good
            else if Qle_bool GRADE_MOS_FAIR m then fair
            else poor)
  | _ => None
  end.

(** ** Words and colours *)

Definition GRADE_LABEL (g : Grade) : string :=
  match g with great => "Great" | good => "Good" | fair => "Fair" | poor => "Poor" end.

Definition DASH : string := "—".

Definition gradeLabel (grade : option Grade) (status : option string) : string :=
  if status ==? Some "no_rtp" then "One-way"
  else match grade with Some g => GRADE_LABEL g | None => DASH end.

(** [isGrade], with the grade the string is. *)
Definition isGrade (v : value) : option Grade :=
  match v with
  | VStr s =>
      if s ==? "great" then Some great
      else if s ==? "good" then Some good
      else if s ==? "fair" then Some fair
      else if s ==? "poor" then Some poor
      else None
  | _ => None
  end.

Definition gradeColor (grade : option Grade) : Tone :=
  match grade with
  | Some great | Some good => GOOD
  | Some fair => WARN
  | Some poor => BAD
  | None => INK_FAINT
  end.

(** The triple of the theme a tone belongs to. *)
Inductive Triple := TONE_ok | TONE_warn | TONE_danger | TONE_neutral.
Record QualityTone := { qt_text : Tone; qt_triple : Triple }.

Definition TONE_GOOD : QualityTone := Build_QualityTone GOOD TONE_ok.
Definition TONE_WARN : QualityTone := Build_QualityTone WARN TONE_warn.
Definition TONE_BAD : QualityTone := Build_QualityTone BAD TONE_danger.
Definition TONE_NONE : QualityTone := Build_QualityTone INK_FAINT TONE_neutral.

Definition gradeTone (grade : option Grade) : QualityTone :=
  match grade with
  | Some great | Some good => TONE_GOOD
  | Some fair => TONE_WARN
  | Some poor => TONE_BAD
  | None => TONE_NONE
  end.

Definition mosColor (mos : option num) : Tone := gradeColor (gradeForMos mos).
Definition mosTone (mos : option num) : QualityTone := gradeTone (gradeForMos mos).

(** ** Why there is no grade *)

Inductive ReasonAudience := customer | staff.

(** The wordings for the customer and for staff. *)
Definition STATUS_REASON : list (string * (string * string)) :=
  [("no_rtp", ("One-way audio — no sound came through from one side", "One-way audio: no inbound media"));
   ("no_media", ("No audio either way — the call never carried sound",
                 "No media either direction (in < 10%, out < 50% of expected packets) — not graded"));
   ("short", ("Not graded — the call was under 5 seconds", "Not graded — call under 5 s"));
   ("low_sample", ("Not graded — too little sound to measure", "Too few packets"));
   ("no_data", ("Not graded — no sound measurements for this call", "No media data"));
   ("unanswered", ("Not graded — the call wasn’t answered", "Unanswered"))].

Definition wording (audience : ReasonAudience) (w : string * string) : string :=
  match audience with customer => w.1 | staff => w.2 end.

Definition NO_DATA : string * string := ("Not graded — no sound measurements for this call", "No media data").

(** A status outside the table, which the type does not admit but the wire
    may carry, is taken for a name the table does not have. *)
Definition qualityStatusReason (status : option string) (audience : ReasonAudience) : option string :=
  if status ==? Some "rated" then None
  else match status with
       | None => Some (wording audience NO_DATA)
       | Some s => Some (wording audience (default NO_DATA (om_get s STATUS_REASON)))
       end.

Definition STATUS_SHORT : list (string * string) :=
  [("short", "under 5 sec"); ("no_media", "no audio either way"); ("low_sample", "too little sound");
   ("no_data", "no sound data"); ("unanswered", "not answered")].

Definition qualityStatusShort (status : option string) : option string :=
  if (status ==? Some "rated") || (status ==? Some "no_rtp") then None
  else match status with
       | None => Some "no sound data"
       | Some s => Some (default "no sound data" (om_get s STATUS_SHORT))
       end.

(** ** Colours of raw numbers *)

Definition rFactorColor (r : option num) : Tone :=
  match r with
  | None => INK_FAINT
  | Some r => if num_le (num_of_Z 80) r then GOOD else if num_le (num_of_Z 70) r then WARN else BAD
  end.

Definition packetLossColor (pct : option num) : Tone :=
  match pct with
  | None => INK_FAINT
  | Some pct => if num_le pct (num_of_Z 4) then GOOD else if num_le pct (num_of_Z 8) then WARN else BAD
  end.

Definition jitterColor (ms : option num) : Tone :=
  match ms with
  | None => INK_FAINT
  | Some ms => if num_le ms (num_of_Z 20) then GOOD else if num_le ms (num_of_Z 50) then WARN else BAD
  end.

Definition goodShareColor (pct : option num) : Tone :=
  match pct with
  | None => INK_FAINT
  | Some pct => if num_le (num_of_Z 97) pct then GOOD else if num_le (num_of_Z 90) pct then WARN else BAD
  end.

(** ** Aggregation *)

(** [[...values].sort((a, b) => a - b)] *)
Definition sort_numbers (values : list Q) : list Q := sort_by Qle_bool values.

(** [p] and the values are finite. *)
Definition percentileCont (values : list Q) (p : Q) : option Q :=
  match values with
  | [] => None
  | _ =>
      let sorted := sort_numbers values in
      let clamped := if Qle_bool p 0 then 0%Q else if Qle_bool 1 p then 1%Q else p in
      let rank := mul_d clamped (inject_Z (Z.of_nat (length sorted) - 1)) in
      let lo := Qfloor rank in
      let hi := Qceiling rank in
      match sorted !! Z.to_nat lo, sorted !! Z.to_nat hi with
      | Some a, Some b => Some (add_d a (mul_d (sub_d b a) (sub_d rank (inject_Z lo))))
      | _, _ => None
      end
  end.

Record CallQualityFields := {
  call_quality_status : option string;
  call_quality_grade : option Grade;
  call_mos : option Q;
}.

Record CallQualitySummary := {
  cq_graded : Z;
  cq_goodOrBetter : Z;
  cq_poor : Z;
  cq_oneWay : Z;
  cq_goodSharePct : option Q;
  cq_medianMos : option Q;
}.

(** The variables of the loop: the four counts and [moses]. *)
Record summing := { su_graded : Z; su_good : Z; su_poor : Z; su_oneWay : Z; su_moses : list Q }.

Definition summarize_step (st : summing) (r : CallQualityFields) : summing :=
  let oneWay := su_oneWay st + (if call_quality_status r ==? Some "no_rtp" then 1 else 0) in
  match call_quality_grade r with
  | None => Build_summing (su_graded st) (su_good st) (su_poor st) oneWay (su_moses st)
  | Some g =>
      let '(good', poor') :=
        match g with
        | great | good => (su_good st + 1, su_poor st)
        | poor => (su_good st, su_poor st + 1)
        | fair => (su_good st, su_poor st)
        end in
      let moses :=
        match call_mos r with
        | Some mos => if call_quality_status r ==? Some "rated" then su_moses st ++ [mos] else su_moses st
        | None => su_moses st
        end in
      Build_summing (su_graded st + 1) good' poor' oneWay moses
  end.

Definition summarizeCallQuality (rows : list CallQualityFields) : CallQualitySummary :=
  let st := fold_left summarize_step rows (Build_summing 0 0 0 0 []) in
  {| cq_graded := su_graded st; cq_goodOrBetter := su_good st; cq_poor := su_poor st; cq_oneWay := su_oneWay st;
     cq_goodSharePct :=
       if 0 <? su_graded st then Some (mul_d (div_d (inject_Z (su_good st)) (inject_Z (su_graded st))) 100) else None;
     cq_medianMos := percentileCont (su_moses st) (1 # 2) |}.

(** ** Formatters *)

(** [sec % 60] for a number that is not negative. *)
Definition mod_60 (sec : Q) : Q := (sec - inject_Z (60 * Qfloor (sec / 60)))%Q.

Definition fmtDurationShort (sec : Q) : string :=
  if Qle_bool sec 0 then DASH
  else
    let m := Qfloor (div_d sec 60) in
    let s := round_d (mod_60 sec) in
    if 0 <? m then print_int m +:+ "m " +:+ print_int s +:+ "s" else print_int s +:+ "s".

(** [q.toFixed(2)] for a number that is not negative. *)
Definition toFixed2 (q : Q) : string :=
  let n := Qfloor (q * 100 + (1 # 2)) in
  let cents := n mod 100 in
  print_int (n / 100) +:+ "." +:+ (if cents <? 10 then "0" +:+ print_int cents else print_int cents).

(** A number of bytes. *)
Definition fmtBytes (bytes : option Z) : string :=
  match bytes with
  | None => DASH
  | Some bytes =>
      if bytes <? 1024 then print_int bytes +:+ " B"
      else if bytes <? 1024 * 1024 then toFixed1 (div_d (inject_Z bytes) 1024) +:+ " KB"
      else toFixed2 (div_d (inject_Z bytes) (1024 * 1024)) +:+ " MB"
  end.

(** Seconds that are not whole round up to a full minute left as seconds. *)
Example fmtDurationShort_rounds_up : fmtDurationShort (1196 # 10) = "1m 60s".
Proof. vm_compute. reflexivity. Qed.
Example fmtBytes_scales : List.map fmtBytes [None; Some 1023; Some 1536; Some 5300000] = ["—"; "1023 B"; "1.5 KB"; "5.05 MB"].
Proof. vm_compute. reflexivity. Qed.
