(* ===== verification/QualityOk.v ===== *)
(** * Call quality: the grade by hundredths, and the summary of a page *)
From Stdlib Require Import QArith Qround Qpower Lqa.
From S2P Require Import Prelude JsString JsValue Format Double Quality.

Local Open Scope string_scope.
Local Open Scope Z_scope.
Local Open Scope list_scope.

(** ** Grades *)

(** The grade of a number of hundredths of MOS. *)
Definition grade_of_cents (n : Z) : Grade :=
  if 434 <=? n then great else if 402 <=? n then good else if 360 <=? n then fair else poor.

(** A cut point on the doubles of hundredths is one on the hundredths. *)
Lemma cut_cents c n :
  Qle_bool (rnd (c # 100)) (rnd ((c - 1) # 100)) = false →
  Qle_bool (rnd (c # 100)) (div_d (inject_Z n) 100) = (c <=? n).
Proof.
  intros Hc. assert (Hd : ∀ k, rnd (k # 100) == div_d (inject_Z k) 100).
  { intros k. unfold div_d. apply Qle_antisym; apply rnd_mono; unfold Qle, Qdiv, Qmult, Qinv, inject_Z; simpl; lia. }
  apply eq_true_iff_eq. rewrite Qle_bool_iff, Z.leb_le. split.
  - intros H. destruct (decide (c ≤ n)) as [|Hn]; [done|]. exfalso.
    apply not_true_iff_false in Hc. apply Hc, Qle_bool_iff.
    eapply Qle_trans; [apply H|]. rewrite Hd. apply rnd_mono. unfold Qle, Qdiv, Qmult, Qinv, inject_Z. simpl. lia.
  - intros H. rewrite Hd. apply rnd_mono. unfold Qle, Qdiv, Qmult, Qinv, inject_Z. simpl. lia.
Qed.

Lemma gradeForMos_cents q :
  gradeForMos (Some (Fin q)) = Some (grade_of_cents (round_d (mul_d q 100))).
Proof.
  unfold gradeForMos, grade_of_cents, GRADE_MOS_GREAT, GRADE_MOS_GOOD, GRADE_MOS_FAIR.
  by rewrite !cut_cents by (vm_compute; reflexivity).
Qed.

(** A stored MOS: [NUMERIC(3, 2)], read as the double nearest to it. *)
Definition stored (k : Z) : Q := rnd (k # 100).

Definition cents_kept (k : Z) : bool := round_d (mul_d (stored k) 100) =? k.

Lemma cents_kept_all : forallb cents_kept (List.map Z.of_nat (seq 0 1000)) = true.
Proof. vm_compute. reflexivity. Qed.

(** The grade of a stored MOS is the band its hundredths fall in, on every
    value the column can hold: neither the conversion to a double nor the
    rounding before the comparison moves a value across a cut point. *)
Theorem gradeForMos_stored (k : Z) :
  0 ≤ k < 1000 → gradeForMos (Some (Fin (stored k))) = Some (grade_of_cents k).
Proof.
  intros Hk. rewrite gradeForMos_cents. do 2 f_equal.
  pose proof cents_kept_all as H. rewrite forallb_forall in H.
  apply Z.eqb_eq, H, in_map_iff. exists (Z.to_nat k). split; [lia|]. apply in_seq. lia.
Qed.

Lemma gradeForMos_stored_witness :
  gradeForMos (Some (Fin (stored 434))) = Some great ∧ gradeForMos (Some (Fin (stored 433))) = Some good.
Proof.
  split; [rewrite (gradeForMos_stored 434) by lia|rewrite (gradeForMos_stored 433) by lia]; reflexivity.
Defined.

(** ** Doubles that round to themselves *)

Definition is_double (q : Q) : Prop := (rnd q == q)%Q.

#[export] Instance rnd_proper : Proper (Qeq ==> Qeq) rnd.
Proof. intros a b E. apply Qle_antisym; apply rnd_mono; rewrite E; apply Qle_refl. Qed.

Lemma rnd_of_pos q : (0 < q)%Q → (rnd q == rnd_pos q)%Q.
Proof. intros H. unfold rnd. apply Qgt_alt in H. by rewrite H, Qred_correct. Qed.

(** An integer of at most 53 bits times a power of two. *)
Lemma rnd_exact z k : 0 ≤ z < 2 ^ 53 → is_double (inject_Z z * pow2 k).
Proof.
  intros Hz. unfold is_double. destruct (decide (z = 0)) as [->|Hne].
  { assert (inject_Z 0 * pow2 k == 0)%Q as -> by ring. reflexivity. }
  pose proof (pow2_pos k) as Hk.
  assert (Hq : (0 < inject_Z z * pow2 k)%Q).
  { apply Qmult_lt_0_compat; [|done]. change 0%Q with (inject_Z 0). rewrite <-Zlt_Qlt. lia. }
  rewrite rnd_of_pos by done. unfold rnd_pos. set (q := (inject_Z z * pow2 k)%Q) in *.
  destruct (exponent_spec q Hq) as [Hlo _].
  assert (exponent q < 53 + k).
  { apply pow2_lt_inv. eapply Qle_lt_trans; [apply Hlo|]. rewrite pow2_plus, (pow2_Z 53) by lia.
    apply Qmult_lt_compat_r; [done|]. rewrite <-Zlt_Qlt. lia. }
  set (e := exponent q - 52).
  assert (E : (q * pow2 (- e) == inject_Z (z * 2 ^ (k - e)))%Q).
  { unfold q. rewrite <-Qmult_assoc, <-pow2_plus, inject_Z_mult, <-pow2_Z by (unfold e; lia). reflexivity. }
  rewrite E, half_even_Z. unfold q. rewrite inject_Z_mult, <-pow2_Z by (unfold e; lia).
  rewrite <-Qmult_assoc, <-pow2_plus. by replace (k - e + e) with k by lia.
Qed.

Lemma inject_double z : 0 ≤ z < 2 ^ 53 → is_double (inject_Z z).
Proof. intros H. pose proof (rnd_exact z 0 H) as E. unfold is_double in *. rewrite Qmult_1_r in E. exact E. Qed.

Lemma half_double z : 0 ≤ z < 2 ^ 53 → is_double (inject_Z z * (1 # 2)).
Proof. apply (rnd_exact z (-1)). Qed.

Lemma rnd_nonneg q : (0 <= q)%Q → (0 <= rnd q)%Q.
Proof. intros H. apply (rnd_mono 0 q) in H. exact H. Qed.

(** Rounding at most doubles, and half of the result is exact. *)
Lemma rnd_half q : (0 <= q)%Q → (rnd (rnd q * (1 # 2)) == rnd q * (1 # 2) ∧ rnd q * (1 # 2) <= q)%Q.
Proof.
  intros Hq. destruct (Qle_lt_or_eq _ _ Hq) as [H|E].
  2: { assert (rnd q == 0)%Q as -> by (rewrite <-E; reflexivity). split; [reflexivity|]. rewrite <-E. unfold Qle. simpl. lia. }
  rewrite (rnd_of_pos q H). destruct (exponent_spec q H) as [Hlo Hhi].
  destruct (rnd_pos_bounds q H) as [Hl Hu]. split.
  - unfold rnd_pos. set (e := exponent q - 52). set (z := half_even _).
    destruct (decide (z < 2 ^ 53)) as [Hz|Hz].
    + rewrite <-Qmult_assoc. assert (0 ≤ z).
      { unfold z. rewrite <-(half_even_Z 0). apply half_even_mono.
        apply Qmult_le_0_compat; [done|apply Qlt_le_weak, pow2_pos]. }
      assert (pow2 e * (1 # 2) == pow2 (e - 1))%Q as -> by (unfold Z.sub; rewrite pow2_plus; reflexivity).
      apply rnd_exact. lia.
    + assert (Ez : (rnd_pos q == pow2 (exponent q + 1))%Q).
      { apply Qle_antisym; [done|]. unfold rnd_pos. fold e z.
        replace (exponent q + 1) with (53 + e) by (unfold e; lia). rewrite pow2_plus, (pow2_Z 53) by lia.
        apply Qmult_le_compat_r; [rewrite <-Zle_Qle; lia|apply Qlt_le_weak, pow2_pos]. }
      unfold rnd_pos in Ez. fold e z in Ez. rewrite Ez.
      assert (pow2 (exponent q + 1) * (1 # 2) == inject_Z 1 * pow2 (exponent q))%Q as ->.
      { rewrite pow2_plus. change (pow2 1) with (2 # 1). unfold inject_Z. ring. }
      apply rnd_exact. lia.
  - eapply Qle_trans; [|apply Hlo].
    assert (pow2 (exponent q) == pow2 (exponent q + 1) * (1 # 2))%Q as ->.
    { rewrite pow2_plus. change (pow2 1) with (2 # 1). ring. }
    apply Qmult_le_compat_r; [done|]. unfold Qle. simpl. lia.
Qed.

(** ** The median *)

Lemma sort_numbers_perm l : sort_numbers l ≡ₚ l.
Proof. apply sort_by_perm. Qed.

Lemma Qle_bool_total x y : Qle_bool x y = true ∨ Qle_bool y x = true.
Proof. rewrite !Qle_bool_iff. destruct (Qlt_le_dec x y); [left; by apply Qlt_le_weak|by right]. Qed.

Lemma Qle_bool_trans x y z : Qle_bool x y = true → Qle_bool y z = true → Qle_bool x z = true.
Proof. rewrite !Qle_bool_iff. apply Qle_trans. Qed.

(** A later value of the sorted list is no less. *)
Lemma sort_numbers_le l i j a b :
  (i ≤ j)%nat → sort_numbers l !! i = Some a → sort_numbers l !! j = Some b → (a <= b)%Q.
Proof.
  intros Hij Ha Hb. destruct (decide (i = j)) as [->|Hne].
  { rewrite Ha in Hb. injection Hb as ->. apply Qle_refl. }
  apply Qle_bool_iff.
  apply (sort_by_before _ Qle_bool_total Qle_bool_trans l (take j (sort_numbers l)) (drop j (sort_numbers l))).
  - by rewrite take_drop.
  - apply list_elem_of_lookup. exists i. rewrite lookup_take_lt by lia. done.
  - apply list_elem_of_lookup. exists 0%nat. by rewrite lookup_drop, Nat.add_0_r.
Qed.

(** The rank of the median is half a whole number. *)
Lemma median_rank n :
  0 ≤ n < 2 ^ 53 →
  let rank := mul_d (1 # 2) (inject_Z n) in
  Qfloor rank = n / 2 ∧ Qceiling rank = (n + 1) / 2 ∧
  (sub_d rank (inject_Z (n / 2)) == inject_Z (n mod 2) * (1 # 2))%Q.
Proof.
  intros Hn rank.
  assert (E : (rank == inject_Z n * (1 # 2))%Q).
  { unfold rank, mul_d. rewrite Qmult_comm. by apply half_double. }
  assert (Hf : ∀ m, Qfloor (inject_Z m * (1 # 2)) = m / 2) by (intros m; unfold Qfloor; simpl; f_equal; lia).
  assert (Hfl : Qfloor rank = n / 2) by (by rewrite E, Hf).
  split_and!; [done| |].
  - unfold Qceiling. assert (- rank == inject_Z (- n) * (1 # 2))%Q as Eo by (rewrite E, inject_Z_opp; ring).
    rewrite (Qfloor_comp _ _ Eo), Hf. Z.to_euclidean_division_equations. lia.
  - unfold sub_d.
    assert (rank - inject_Z (n / 2) == inject_Z (n mod 2) * (1 # 2))%Q as ->.
    { rewrite E. rewrite (Z.div_mod n 2) at 1 by lia. rewrite inject_Z_plus, inject_Z_mult. change (inject_Z 2) with (2 # 1). ring. }
    apply half_double. pose proof (Z.mod_pos_bound n 2). lia.
Qed.

(** Half of a difference, or none of it, added to the lower value. *)
Lemma between_step a b m f :
  is_double a → is_double b → (a <= b)%Q → 0 ≤ m < 2 → (f == inject_Z m * (1 # 2))%Q →
  (a <= add_d a (mul_d (sub_d b a) f) <= b)%Q.
Proof.
  intros Ha Hb Hab Hm Hf.
  assert (0 <= mul_d (sub_d b a) f <= b - a)%Q as [H0 H1].
  { unfold mul_d, sub_d. rewrite Hf. assert (Hba : (0 <= b - a)%Q) by lra.
    destruct (rnd_half (b - a) Hba) as [E Hle].
    assert (m = 0 ∨ m = 1) as [-> | ->] by lia.
    - assert (rnd (b - a) * (inject_Z 0 * (1 # 2)) == 0)%Q as -> by ring. split; [apply Qle_refl|done].
    - assert (rnd (b - a) * (inject_Z 1 * (1 # 2)) == rnd (b - a) * (1 # 2))%Q as -> by ring. rewrite E.
      split; [|done]. apply Qmult_le_0_compat; [by apply rnd_nonneg|]. unfold Qle. simpl. lia. }
  unfold add_d, is_double in *. set (t := mul_d _ _) in *.
  split.
  - apply Qle_trans with (rnd a); [rewrite Ha; apply Qle_refl|apply rnd_mono; lra].
  - apply Qle_trans with (rnd b); [apply rnd_mono; lra|rewrite Hb; apply Qle_refl].
Qed.

(** The median is between the two middle values of the sorted list, and is
    the middle value when there is one. *)
Lemma median_between (values : list Q) :
  values ≠ [] → Z.of_nat (length values) < 2 ^ 53 → Forall is_double values →
  ∃ a b m, sort_numbers values !! Z.to_nat ((Z.of_nat (length values) - 1) / 2) = Some a ∧
    sort_numbers values !! Z.to_nat (Z.of_nat (length values) / 2) = Some b ∧
    percentileCont values (1 # 2) = Some m ∧ (a <= m <= b)%Q.
Proof.
  intros Hne Hlen Hd. set (n := Z.of_nat (length values) - 1).
  assert (Hn : 0 ≤ n) by (destruct values; [done|]; unfold n; simpl; lia).
  assert (Hl : length (sort_numbers values) = length values) by (apply Permutation_length, sort_numbers_perm).
  destruct (median_rank n) as (Hf & Hc & Hfrac); [lia|]. cbv zeta in *.
  assert (Hsome : ∀ i, 0 ≤ i ≤ n → is_Some (sort_numbers values !! Z.to_nat i)) by (intros; apply lookup_lt_is_Some_2; lia).
  destruct (Hsome (n / 2)) as [a Ha]; [Z.to_euclidean_division_equations; lia|].
  destruct (Hsome ((n + 1) / 2)) as [b Hb]; [Z.to_euclidean_division_equations; lia|].
  assert (Hab : (a <= b)%Q).
  { eapply sort_numbers_le; [|exact Ha|exact Hb]. apply Z2Nat.inj_le; Z.to_euclidean_division_equations; lia. }
  assert (Hdbl : ∀ x i, sort_numbers values !! i = Some x → is_double x).
  { intros x i Hx. rewrite Forall_forall in Hd. apply Hd. rewrite <-(sort_numbers_perm values). eapply list_elem_of_lookup_2; done. }
  exists a, b. replace (Z.of_nat (length values) / 2) with ((n + 1) / 2) by (unfold n; f_equal; lia).
  eexists. split; [done|]. split; [done|]. split.
  { unfold percentileCont. destruct values as [|v vs]; [by destruct Hne|]. rewrite Hl.
    change (Qle_bool (1 # 2) 0) with false. change (Qle_bool 1 (1 # 2)) with false. cbv match.
    fold n. rewrite Hf, Hc, Ha, Hb. reflexivity. }
  apply (between_step a b (n mod 2)); eauto. apply Z.mod_pos_bound. lia.
Qed.

(** ** The summary *)

Definition count (f : CallQualityFields → bool) (rows : list CallQualityFields) : Z :=
  Z.of_nat (length (List.filter f rows)).

Definition graded_as (l : list Grade) (r : CallQualityFields) : bool :=
  match call_quality_grade r with Some g => includes l g | None => false end.
Definition one_way (r : CallQualityFields) : bool := call_quality_status r ==? Some "no_rtp".

(** The MOS of the calls that were rated. *)
Definition rated_mos (r : CallQualityFields) : list Q :=
  match call_quality_grade r, call_mos r with
  | Some _, Some mos => if call_quality_status r ==? Some "rated" then [mos] else []
  | _, _ => []
  end.

Lemma count_cons f r rows : count f (r :: rows) = (if f r then 1 else 0) + count f rows.
Proof. unfold count. simpl. destruct (f r); simpl; lia. Qed.

Lemma summing_counts rows st :
  let st' := fold_left summarize_step rows st in
  su_graded st' = su_graded st + count (graded_as [great; good; fair; poor]) rows ∧
  su_good st' = su_good st + count (graded_as [great; good]) rows ∧
  su_poor st' = su_poor st + count (graded_as [poor]) rows ∧
  su_oneWay st' = su_oneWay st + count one_way rows ∧
  su_moses st' = su_moses st ++ flat_map rated_mos rows.
Proof.
  revert st. induction rows as [|r rows IH]; intros st; simpl.
  { unfold count. simpl. rewrite app_nil_r. split_and!; lia || done. }
  destruct (IH (summarize_step st r)) as (E1 & E2 & E3 & E4 & E5).
  rewrite E1, E2, E3, E4, E5, !count_cons. clear.
  unfold summarize_step, graded_as, one_way, rated_mos.
  destruct (call_quality_grade r) as [[]|]; destruct (call_mos r); simpl; repeat case_bool_decide; simpl;
    rewrite ?app_nil_r, <-?app_assoc; split_and!; lia || done.
Qed.

(** Equal to one hundred when all the graded calls are good or better. *)
Lemma share_bounds g n :
  0 ≤ g ≤ n → 0 < n →
  (0 <= mul_d (div_d (inject_Z g) (inject_Z n)) 100 <= 100)%Q ∧
  (g = n → mul_d (div_d (inject_Z g) (inject_Z n)) 100 == 100)%Q.
Proof.
  intros Hg Hn. assert (Hn' : (0 < inject_Z n)%Q) by (change 0%Q with (inject_Z 0); rewrite <-Zlt_Qlt; lia).
  assert (H0 : (0 <= inject_Z g / inject_Z n)%Q).
  { apply Qle_shift_div_l; [done|]. rewrite Qmult_0_l. change 0%Q with (inject_Z 0). rewrite <-Zle_Qle. lia. }
  assert (H1 : (inject_Z g / inject_Z n <= 1)%Q).
  { apply Qle_shift_div_r; [done|]. rewrite Qmult_1_l, <-Zle_Qle. lia. }
  assert (E1 : (rnd 1 == 1)%Q) by (apply (inject_double 1); lia).
  assert (E100 : (rnd 100 == 100)%Q) by (apply (inject_double 100); lia).
  unfold mul_d, div_d. pose proof (rnd_nonneg _ H0) as Hr0. pose proof (rnd_mono _ _ H1) as Hr1. rewrite E1 in Hr1.
  split; [split|].
  - apply rnd_nonneg. lra.
  - rewrite <-E100 at 2. apply rnd_mono. lra.
  - intros ->. assert (inject_Z n / inject_Z n == 1)%Q as ->.
    { apply Qmult_inv_r. intros E. rewrite E in Hn'. by apply Qlt_irrefl in Hn'. }
    rewrite E1. exact E100.
Qed.

Lemma count_le f g rows : (∀ r, f r = true → g r = true) → 0 ≤ count f rows ≤ count g rows.
Proof.
  intros H. induction rows as [|r rows IH]; [unfold count; simpl; lia|].
  rewrite !count_cons. specialize (H r). destruct (f r); [rewrite (H eq_refl)|destruct (g r)]; lia.
Qed.

(** The summary of a page of calls counts each call once: the graded ones
    are the great or good, the poor and the fair ones, the share of good calls
    is a percentage, all of it when every graded call is good, and there is
    none exactly when nothing is graded; the median MOS is between the two
    middle values of the rated calls. *)
Theorem summarizeCallQuality_ok (rows : list CallQualityFields) :
  Forall is_double (flat_map rated_mos rows) → Z.of_nat (length rows) < 2 ^ 53 →
  let s := summarizeCallQuality rows in
  let moses := flat_map rated_mos rows in
  cq_graded s = cq_goodOrBetter s + count (graded_as [fair]) rows + cq_poor s ∧
  cq_goodOrBetter s = count (graded_as [great; good]) rows ∧ cq_poor s = count (graded_as [poor]) rows ∧
  cq_oneWay s = count one_way rows ∧
  match cq_goodSharePct s with
  | None => cq_graded s = 0
  | Some pct => (0 <= pct <= 100)%Q ∧ (cq_goodOrBetter s = cq_graded s → (pct == 100)%Q)
  end ∧
  match cq_medianMos s with
  | None => moses = []
  | Some m => ∃ a b, sort_numbers moses !! Z.to_nat ((Z.of_nat (length moses) - 1) / 2) = Some a ∧
                     sort_numbers moses !! Z.to_nat (Z.of_nat (length moses) / 2) = Some b ∧ (a <= m <= b)%Q
  end.
Proof.
  intros Hd Hlen s moses. unfold s, summarizeCallQuality. clear s.
  destruct (summing_counts rows (Build_summing 0 0 0 0 [])) as (E1 & E2 & E3 & E4 & E5).
  set (st := fold_left _ _ _) in *. cbn [su_graded su_good su_poor su_oneWay su_moses app] in E1, E2, E3, E4, E5.
  rewrite Z.add_0_l in E1, E2, E3, E4. cbn [cq_graded cq_goodOrBetter cq_poor cq_oneWay cq_goodSharePct cq_medianMos].
  assert (Hle : 0 ≤ su_good st ≤ su_graded st).
  { rewrite E1, E2. apply count_le. intros r. unfold graded_as. by destruct (call_quality_grade r) as [[]|]. }
  split_and!; try done.
  - rewrite E1, E2, E3. clear. induction rows as [|r rows IH]; [done|]. rewrite !count_cons, IH.
    unfold graded_as. destruct (call_quality_grade r) as [[]|]; simpl; lia.
  - destruct (0 <? su_graded st) eqn:Hg; bool_hyps; [|lia].
    by destruct (share_bounds (su_good st) (su_graded st)).
  - rewrite E5. fold moses. destruct (decide (moses = [])) as [E|Hne]; [by rewrite E|].
    destruct (median_between moses) as (a & b & m & Ha & Hb & -> & Hm); [done| |done|by exists a, b].
    assert (length moses ≤ length rows)%nat; [|lia]. unfold moses. clear.
    induction rows as [|r rows IH]; simpl; [done|]. rewrite length_app.
    assert (length (rated_mos r) ≤ 1)%nat; [|lia]. unfold rated_mos. repeat case_match; simpl; lia.
Qed.

Definition sample_calls : list CallQualityFields :=
  [Build_CallQualityFields (Some "rated") (Some great) (Some (stored 441));
   Build_CallQualityFields (Some "rated") (Some fair) (Some (stored 380));
   Build_CallQualityFields (Some "no_rtp") (Some poor) None;
   Build_CallQualityFields (Some "no_data") None None;
   Build_CallQualityFields (Some "rated") (Some good) (Some (stored 410))].

Lemma summarizeCallQuality_ok_witness :
  cq_graded (summarizeCallQuality sample_calls) = 4 ∧
  ∃ pct, cq_goodSharePct (summarizeCallQuality sample_calls) = Some pct ∧ (0 <= pct <= 100)%Q.
Proof.
  pose proof (summarizeCallQuality_ok sample_calls) as H.
  assert (Hd : Forall is_double (flat_map rated_mos sample_calls)).
  { repeat constructor; vm_compute; reflexivity. }
  specialize (H Hd eq_refl) as (_ & _ & _ & _ & Hs & _). split; [vm_compute; reflexivity|].
  destruct (cq_goodSharePct (summarizeCallQuality sample_calls)) as [pct|] eqn:E; [|vm_compute in E; discriminate].
  exists pct. split; [done|apply Hs].
Defined.

Example sample_calls_summary :
  let s := summarizeCallQuality sample_calls in
  (cq_graded s, cq_goodOrBetter s, cq_poor s, cq_oneWay s) = (4, 2, 1, 1) ∧
  cq_goodSharePct s = Some 50%Q ∧ cq_medianMos s = Some (stored 410).
Proof. vm_compute. done. Qed.
