(* ===== verification/ApiClient.v ===== *)
(** * The API client ([api/client.ts])

    What goes on the wire and what an answer becomes.  A request reads the
    token when it is made; its answer, which comes later, may change the
    token and the location of the page.  [fetch] is the network: an answer is
    a [Response], or nothing when it fails.  How a number prints is left to
    [num_text]. *)
From S2P Require Import Prelude JsString JsValue Format IvrError Ip SipText SipOk.

Local Open Scope string_scope.
Local Open Scope Z_scope.
Local Open Scope list_scope.

(** ** Text of values *)

Section Text.
(** [Number.prototype.toString] *)
Context (num_text : num → string).

Definition hex_digit (n : Z) : string :=
  String (ascii_of_nat (Z.to_nat (if n <? 10 then 48 + n else 87 + n))) "".

(** A character of a JSON string. *)
Definition json_char (a : ascii) : string :=
  let c := code a in
  if c =? 34 then String "\" (String QUOT "")
  else if c =? 92 then "\\"
  else if c =? 8 then "\b"
  else if c =? 9 then "\t"
  else if c =? 10 then "\n"
  else if c =? 12 then "\f"
  else if c =? 13 then "\r"
  else if c <? 32 then "\u00" +:+ hex_digit (c / 16) +:+ hex_digit (c mod 16)
  else String a "".

Fixpoint json_chars (s : string) : string :=
  match s with "" => "" | String a s => json_char a +:+ json_chars s end.
Definition quoted (s : string) : string := String QUOT (json_chars s +:+ String QUOT "").

(** [JSON.stringify(v)] below the top, where [undefined] is left out of
    objects and is [null] in arrays. *)
Fixpoint json_text (v : value) : string :=
  match v with
  | VUndef | VNull => "null"
  | VBool b => if b then "true" else "false"
  | VNum n => match n with Fin _ => num_text n | _ => "null" end
  | VStr s => quoted s
  | VArr l =>
      "[" +:+ join "," ((fix go l := match l with [] => [] | v :: l => json_text v :: go l end) l) +:+ "]"
  | VObj o =>
      "{" +:+ join "," ((fix go o := match o with
                                     | [] => []
                                     | (_, VUndef) :: o => go o
                                     | (k, v) :: o => (quoted k +:+ ":" +:+ json_text v) :: go o
                                     end) o) +:+ "}"
  end.

(** [String(v)], for objects that do not redefine [toString]; an array is
    joined with commas, [null] and [undefined] in it being empty. *)
Fixpoint string_of (v : value) : string :=
  match v with
  | VUndef => "undefined"
  | VNull => "null"
  | VBool b => if b then "true" else "false"
  | VNum n => num_text n
  | VStr s => s
  | VArr l =>
      join "," ((fix go l := match l with
                             | [] => []
                             | (VUndef | VNull) :: l => "" :: go l
                             | v :: l => string_of v :: go l
                             end) l)
  | VObj _ => "[object Object]"
  end.

(** An element in [arr.join('.')]. *)
Definition join_text (v : value) : string := match v with VUndef | VNull => "" | _ => string_of v end.

(** [item as Record<string, unknown>]: an array has none of the keys asked for. *)
Definition detail_text (item : value) : string :=
  let of_error (loc msg : value) :=
    let loc := match loc with VArr l => join "." (List.map join_text l) | _ => "" end in
    let msg := match msg with VStr s => s | _ => json_text item end in
    if loc !=? "" then loc +:+ ": " +:+ msg else msg in
  match item with
  | VObj err => of_error (get "loc" err) (get "msg" err)
  | VArr _ => of_error VUndef VUndef
  | _ => string_of item
  end.

Definition extractErrorMessage (body : value) : string :=
  match body with
  | VObj record =>
      match get "detail" record with
      | VStr s => s
      | VArr l => join "; " (List.map detail_text l)
      | _ => match get "message" record with VStr s => s | _ => json_text body end
      end
  | VArr _ => json_text body
  | _ => string_of body
  end.

(** ** Requests *)

(** What the page keeps: [localStorage], and where it is being sent. *)
Record Browser := {
  br_token : option string;
  br_location : option string;
}.

Inductive Payload := no_payload | json_payload (text : string) | raw_payload | form_payload.

Record Request := {
  rq_method : string;
  rq_url : string;
  rq_headers : list (string * string);
  rq_body : Payload;
}.

Definition API_BASE : string := "/api".

(** [if (token) headers['Authorization'] = ...] *)
Definition with_token (b : Browser) (headers : list (string * string)) : list (string * string) :=
  match br_token b with
  | Some token => if token ==? "" then headers else om_set "Authorization" ("Bearer " +:+ token) headers
  | None => headers
  end.

Definition authHeaders (b : Browser) (extra : list (string * string)) : list (string * string) := with_token b extra.

Definition request_json (b : Browser) (method path : string) (body : value) : Request :=
  let headers := [("Accept", "application/json")] in
  let headers := if is_defined body then om_set "Content-Type" "application/json" headers else headers in
  {| rq_method := method; rq_url := API_BASE +:+ path; rq_headers := with_token b headers;
     rq_body := if is_defined body then json_payload (json_text body) else no_payload |}.

Definition request_raw (b : Browser) (method path contentType : string) : Request :=
  {| rq_method := method; rq_url := API_BASE +:+ path;
     rq_headers := with_token b [("Accept", "application/json"); ("Content-Type", contentType)]; rq_body := raw_payload |}.

Definition request_blob (b : Browser) (path : string) : Request :=
  {| rq_method := "GET"; rq_url := API_BASE +:+ path; rq_headers := with_token b []; rq_body := no_payload |}.

Definition request_form (b : Browser) (method path : string) : Request :=
  {| rq_method := method; rq_url := API_BASE +:+ path;
     rq_headers := authHeaders b [("Accept", "application/json")]; rq_body := form_payload |}.

Definition request_post (b : Browser) (path : string) (body : value) : Request :=
  {| rq_method := "POST"; rq_url := API_BASE +:+ path;
     rq_headers := authHeaders b [("Content-Type", "application/json")]; rq_body := json_payload (json_text body) |}.

(** ** Answers *)

(** A body: its text, what it is as JSON, and whether it was read. *)
Record Response := {
  rs_status : Z;
  rs_disposition : option string;
  rs_text : string;
  rs_json : option value;
  rs_used : bool;
}.

Definition rs_ok (r : Response) : bool := (200 <=? rs_status r) && (rs_status r <=? 299).

Definition read (r : Response) : Response :=
  Build_Response (rs_status r) (rs_disposition r) (rs_text r) (rs_json r) true.

(** [response.json()]: [None] when it throws, be it that the body was read or
    that it is not JSON; the body is read in any case. *)
Definition response_json (r : Response) : option value * Response :=
  if rs_used r then (None, r) else (rs_json r, read r).
Definition response_text (r : Response) : option string * Response :=
  if rs_used r then (None, r) else (Some (rs_text r), read r).

(** The [try] around [response.json()], with its [catch]. *)
Definition error_body (r : Response) : value :=
  match response_json r with
  | (Some v, _) => v
  | (None, r) => match response_text r with
                 | (Some t, _) => VStr t
                 | (None, _) => VStr "Unknown error"
                 end
  end.

Inductive outcome (A : Type) := returned (a : A) | threw (e : thrown).
Arguments returned {A}.
Arguments threw {A}.

Definition SESSION_EXPIRED : thrown := api_error (Build_ApiError 401 "Session expired. Please sign in again." VUndef).

(** The token is dropped and the page sent to its start. *)
Definition sign_out (b : Browser) : Browser := Build_Browser None (Some "/").

Definition refusal (r : Response) : thrown :=
  let body := error_body r in api_error (Build_ApiError (rs_status r) (extractErrorMessage body) body).

(** The shared tail, [failIfNotOk]: what is thrown, if anything. *)
Definition failIfNotOk (r : Response) (b : Browser) : option thrown * Browser :=
  if rs_status r =? 401 then (Some SESSION_EXPIRED, sign_out b)
  else if negb (rs_ok r) then (Some (refusal r), b)
  else (None, b).

(** [response.json()] as a result. *)
Definition json_result (r : Response) : outcome value :=
  match response_json r with (Some v, _) => returned v | (None, _) => threw other_error end.

(** What follows [await fetch] in [apiRequest] and [apiRequestRaw]. *)
Definition apiRequest_answer (answer : option Response) (b : Browser) : outcome value * Browser :=
  match answer with
  | None => (threw other_error, b)
  | Some r =>
      if rs_status r =? 401 then (threw SESSION_EXPIRED, sign_out b)
      else if negb (rs_ok r) then (threw (refusal r), b)
      else if rs_status r =? 204 then (returned VUndef, b)
      else (json_result r, b)
  end.
Definition apiRequestRaw_answer (answer : option Response) (b : Browser) : outcome value * Browser :=
  match answer with
  | None => (threw other_error, b)
  | Some r =>
      if rs_status r =? 401 then (threw SESSION_EXPIRED, sign_out b)
      else if negb (rs_ok r) then (threw (refusal r), b)
      else if rs_status r =? 204 then (returned VUndef, b)
      else (json_result r, b)
  end.

(** ** File names *)

(** What follows [filename] in the pattern: the value, before trimming. *)
Definition after_filename (s : string) : option string :=
  match ltrim s with
  | String c r =>
      if c ==? "="%char then
        let r' := ltrim r in
        let quoted_value :=
          match r' with
          | String d q =>
              if d ==? QUOT then
                match cut QUOT q with Some (name, _) => if name ==? "" then None else Some name | None => None end
              else None
          | "" => None
          end in
        match quoted_value with
        | Some name => Some name
        | None =>
            let '(bare, _) := span (λ a, negb (a ==? ";"%char)) r' in
            if bare !=? "" then Some bare else if r' ==? r then None else Some " "
        end
      else None
  | "" => None
  end.

(** The first place the pattern matches at. *)
Fixpoint find_filename (s : string) : option string :=
  let here := if starts_with "filename" (lower s) then after_filename (slice_from 8 s) else None in
  match here with
  | Some v => Some v
  | None => match s with "" => None | String _ s => find_filename s end
  end.

Definition parseContentDispositionFilename (header : option string) : option string :=
  match header with
  | None => None
  | Some h =>
      if h ==? "" then None
      else match find_filename h with
           | Some v => if trim v ==? "" then None else Some (trim v)
           | None => None
           end
  end.

(** [response.blob()] takes any body: it is the text here. *)
Definition apiRequestBlob_answer (answer : option Response) (b : Browser) : outcome (string * option string) * Browser :=
  match answer with
  | None => (threw other_error, b)
  | Some r =>
      if rs_status r =? 401 then (threw SESSION_EXPIRED, sign_out b)
      else if negb (rs_ok r) then (threw (refusal r), b)
      else match response_text r with
           | (Some blob, _) => (returned (blob, parseContentDispositionFilename (rs_disposition r)), b)
           | (None, _) => (threw other_error, b)
           end
  end.

Definition apiRequestForm_answer (answer : option Response) (b : Browser) : outcome value * Browser :=
  match answer with
  | None => (threw other_error, b)
  | Some r =>
      match failIfNotOk r b with
      | (Some e, b) => (threw e, b)
      | (None, b) => if rs_status r =? 204 then (returned VUndef, b) else (json_result r, b)
      end
  end.

Definition apiPostForBlob_answer (answer : option Response) (b : Browser) : outcome string * Browser :=
  match answer with
  | None => (threw other_error, b)
  | Some r =>
      match failIfNotOk r b with
      | (Some e, b) => (threw e, b)
      | (None, b) => match response_text r with
                     | (Some blob, _) => (returned blob, b)
                     | (None, _) => (threw other_error, b)
                     end
      end
  end.

End Text.

#[global] Arguments returned {A} a.
#[global] Arguments threw {A} e.

Section Client.
Context (num_text : num → string).

(** What the failure of a request is to its caller. *)
Definition failure (answer : option Response) (b : Browser) : option (thrown * Browser) :=
  match answer with
  | None => Some (other_error, b)
  | Some r =>
      if rs_status r =? 401 then Some (SESSION_EXPIRED, sign_out b)
      else if rs_ok r then None
      else
        let body := default (VStr "Unknown error") (rs_json r) in
        Some (api_error (Build_ApiError (rs_status r) (extractErrorMessage num_text body) body), b)
  end.

Lemma error_body_json r : rs_used r = false → error_body r = default (VStr "Unknown error") (rs_json r).
Proof.
  intros H. unfold error_body, response_json. rewrite H. destruct (rs_json r); [done|].
  unfold response_text. simpl. done.
Qed.

Definition unread (answer : option Response) : Prop := ∀ r, answer = Some r → rs_used r = false.

(** A result whose failures are [failure]'s, and that leaves the browser alone otherwise. *)
Definition fails_as {A} (result : outcome A * Browser) (answer : option Response) (b : Browser) : Prop :=
  match failure answer b with
  | Some (e, b') => result = (threw e, b')
  | None => result.2 = b ∧ ∀ e, result.1 = threw e → e = other_error
  end.

(** C36 The five clients answer a failed request alike: nothing but 401 touches
    the token or the page, 401 drops the token and leaves the page, and any
    other refusal is an [ApiError] with the status, the body as JSON and the
    message read from it; a body that is not JSON is lost, its text included. *)
Theorem clients_fail_alike (answer : option Response) (b : Browser) :
  unread answer →
  fails_as (apiRequest_answer num_text answer b) answer b ∧
  fails_as (apiRequestRaw_answer num_text answer b) answer b ∧
  fails_as (apiRequestBlob_answer num_text answer b) answer b ∧
  fails_as (apiRequestForm_answer num_text answer b) answer b ∧
  fails_as (apiPostForBlob_answer num_text answer b) answer b.
Proof.
  intros Hu. unfold fails_as, failure, apiRequest_answer, apiRequestRaw_answer, apiRequestBlob_answer,
    apiRequestForm_answer, apiPostForBlob_answer, failIfNotOk, refusal.
  destruct answer as [r|]; [|done]. specialize (Hu r eq_refl). rewrite error_body_json by done.
  destruct (rs_status r =? 401); [done|]. destruct (rs_ok r); cbn [negb]; [|done].
  unfold json_result, response_json, response_text. rewrite Hu.
  destruct (rs_status r =? 204), (rs_json r); cbn [fst snd]; split_and!; intros; try done; by simplify_eq.
Qed.

(** ** Names of files *)

Definition named (name : string) : string := "attachment; filename=" +:+ in_quotes name.

Lemma find_skip a s : lower_char a ≠ "f"%char → find_filename (String a s) = find_filename s.
Proof.
  intros H. cbn [find_filename].
  assert (starts_with "filename" (lower (String a s)) = false) as ->; [|done].
  cbn [lower starts_with String.prefix]. destruct (ascii_dec _ _); congruence.
Qed.

Lemma find_here s v : after_filename s = Some v → find_filename ("filename" +:+ s) = Some v.
Proof.
  intros H. change ("filename" +:+ s) with (String "f" ("ilename" +:+ s)). cbn [find_filename].
  assert (starts_with "filename" (lower (String "f" ("ilename" +:+ s))) = true) as ->.
  { unfold starts_with. cbn. by destruct (lower s). }
  change (slice_from 8 (String "f" ("ilename" +:+ s))) with s. by rewrite H.
Qed.

(** A quoted value: up to the closing quote. *)
Lemma after_quoted name :
  name ≠ "" → lacks QUOT name = true → after_filename ("=" +:+ in_quotes name) = Some name.
Proof.
  intros Hne Hq. unfold after_filename, in_quotes. cbn [String.append].
  rewrite ltrim_plain by reflexivity. cbv beta iota. rewrite bool_decide_eq_true_2 by done.
  rewrite ltrim_plain by reflexivity. rewrite bool_decide_eq_true_2 by done.
  rewrite cut_app by done. by rewrite bool_decide_eq_false_2.
Qed.

(** The name a download is served under is the one it is saved under,
    whatever is in it but a double quote, with no white space at its ends. *)
Theorem filename_read_back (name : string) :
  name ≠ "" → lacks QUOT name = true → trim name = name →
  parseContentDispositionFilename (Some (named name)) = Some name.
Proof.
  intros Hne Hq Ht. unfold parseContentDispositionFilename, named. rewrite bool_decide_eq_false_2 by done.
  assert (find_filename ("attachment; filename=" +:+ in_quotes name) = Some name) as ->.
  { change ("attachment; filename=" +:+ in_quotes name) with ("attachment; " +:+ ("filename" +:+ ("=" +:+ in_quotes name))).
    cbn [String.append]. rewrite !find_skip by discriminate.
    apply find_here, after_quoted; done. }
  rewrite Ht. by rewrite bool_decide_eq_false_2.
Qed.
End Client.

(** ** Answers *)

(** How the numbers of the examples print. *)
Definition print_num (n : num) : string := match Z_of_num n with Some z => print_int z | None => "NaN" end.

Definition validation_body : value :=
  VObj [("detail", VArr [VObj [("loc", VArr [VStr "body"; VStr "name"]); ("msg", VStr "field required")];
                         VObj [("loc", VArr [VStr "query"; vint 2]); ("msg", VNull)]; VStr "and more"])].

Example validation_message :
  extractErrorMessage print_num validation_body =
  "body.name: field required; query.2: " +:+ "{" +:+ in_quotes "loc" +:+ ":[" +:+ in_quotes "query" +:+ ",2]," +:+
  in_quotes "msg" +:+ ":null}; and more".
Proof. vm_compute. reflexivity. Qed.

Definition signed_in : Browser := Build_Browser (Some "t1") None.
Definition answer_of (status : Z) (text : string) (json : option value) : option Response :=
  Some (Build_Response status None text json false).

Lemma clients_fail_alike_witness :
  apiRequest_answer print_num (answer_of 422 "" (Some validation_body)) signed_in =
  (threw (api_error (Build_ApiError 422 (extractErrorMessage print_num validation_body) validation_body)), signed_in).
Proof.
  destruct (clients_fail_alike print_num (answer_of 422 "" (Some validation_body)) signed_in) as [H _]; [|exact H].
  by intros r [= <-].
Defined.

Lemma filename_read_back_witness : parseContentDispositionFilename (Some (named "sip call.pcap")) = Some "sip call.pcap".
Proof. apply filename_read_back; [done|vm_compute; reflexivity..]. Defined.

(** The text of an error that is not JSON is never read: [response.json()]
    has used the body up. *)
Example plain_error_is_lost :
  apiRequest_answer print_num (answer_of 502 "upstream connect error" None) signed_in =
  (threw (api_error (Build_ApiError 502 "Unknown error" (VStr "Unknown error"))), signed_in).
Proof. reflexivity. Qed.

(** A request made before a new sign-in, refused after it, signs the user out. *)
Example late_refusal_signs_out :
  let old := request_json print_num signed_in "GET" "/rcf" VUndef in
  let renewed := Build_Browser (Some "t2") None in
  rq_headers old = [("Accept", "application/json"); ("Authorization", "Bearer t1")] ∧
  (apiRequest_answer print_num (answer_of 401 "" None) renewed).2 = Build_Browser None (Some "/").
Proof. done. Qed.
