(* ===== verification/Recorder.v ===== *)
(** * Recording a greeting ([pages/voicemail/audio/recorder.ts],
    [pages/voicemail/audio/transcode.ts])

    One take: the samples the capture node delivers, the limit, and the
    microphone, which is live from the grant of access to the teardown.  The
    Web Audio graph and the browser's decoder and resampler are not modelled:
    their results are arguments. *)
From Stdlib Require Import QArith Qround.
From S2P Require Import Prelude JsString JsValue Format Wav Double.

Local Close Scope Q_scope.
Local Open Scope string_scope.
Local Open Scope Z_scope.
Local Open Scope list_scope.

(** ** Samples *)

Definition num_abs (n : num) : num :=
  match n with Fin q => if Qle_bool 0 q then n else Fin (- q)%Q | Inf _ => Inf false | NaN => NaN end.

(** [v > peak]: false of NaN. *)
Definition num_gt (a b : num) : bool :=
  match a, b with NaN, _ | _, NaN => false | _, _ => negb (num_le a b) end.

Definition peakLevel (samples : list num) : num :=
  fold_left (λ peak s, let v := num_abs s in if num_gt v peak then v else peak) samples (num_of_Z 0).

(** The copy of [concatSamples]: what is left of the total after each chunk. *)
Fixpoint copy_chunks (left : nat) (chunks : list (list num)) : list num :=
  match chunks with
  | [] => []
  | chunk :: chunks =>
      if Nat.eqb left 0 then []
      else let take_ := Nat.min (length chunk) left in
           take take_ chunk ++ copy_chunks (left - take_) chunks
  end.

Definition concatSamples (chunks : list (list num)) (maxSamples : nat) : list num :=
  let total := Nat.min maxSamples (fold_left (λ n c, (n + length c)%nat) chunks 0%nat) in
  copy_chunks total chunks.

(** ** A take *)

Record Recording := {
  rc_sampleRate : Z;
  rc_chunks : list (list num);
  rc_captured : Z;
  rc_limitFired : bool;
  rc_closed : bool;
  rc_live : bool;
}.

(** [Math.ceil(maxSeconds * ctx.sampleRate)], both being whole. *)
Definition maxSamples (maxSeconds sampleRate : Z) : Z := maxSeconds * sampleRate.

(** Access granted: the tracks of the stream run. *)
Definition open_recording (sampleRate : Z) : Recording := Build_Recording sampleRate [] 0 false false true.

Definition teardown (r : Recording) : Recording :=
  Build_Recording (rc_sampleRate r) (rc_chunks r) (rc_captured r) (rc_limitFired r) true false.

Record RecorderProgress := { rp_elapsed : Q; rp_level : num }.

(** [onChunk]: the recording, the progress reported if any, and whether
    [onLimit] is called. *)
Definition onChunk (maxSeconds : Z) (chunk : list num) (r : Recording) : Recording * option RecorderProgress * bool :=
  let limit := maxSamples maxSeconds (rc_sampleRate r) in
  if rc_closed r || (limit <=? rc_captured r) then (r, None, false)
  else
    let captured := rc_captured r + Z.of_nat (length chunk) in
    let progress :=
      Build_RecorderProgress (div_d (inject_Z (Z.min captured limit)) (inject_Z (rc_sampleRate r))) (peakLevel chunk) in
    let fires := (limit <=? captured) && negb (rc_limitFired r) in
    (Build_Recording (rc_sampleRate r) (rc_chunks r ++ [chunk]) captured (rc_limitFired r || fires) false (rc_live r),
     Some progress, fires).

(** [PcmClip] *)
Record PcmClip := { pc_samples : list num; pc_sampleRate : Z }.

(** The end of [stop], once the worklet has flushed. *)
Definition stop_recording (maxSeconds : Z) (r : Recording) : Recording * PcmClip :=
  (teardown r, Build_PcmClip (concatSamples (rc_chunks r) (Z.to_nat (maxSamples maxSeconds (rc_sampleRate r)))) (rc_sampleRate r)).

Definition cancel_recording (r : Recording) : Recording :=
  Build_Recording (rc_sampleRate r) [] (rc_captured r) (rc_limitFired r) true false.

(** ** What the browser allows *)

Record Platform := {
  pf_window : bool;
  pf_isSecureContext : bool;
  pf_getUserMedia : bool;
  pf_audioContext : bool;
}.

Definition recordingUnsupportedReason (p : Platform) : option string :=
  if negb (pf_window p) then Some "Recording isn’t available here."
  else if negb (pf_isSecureContext p) then Some "Recording needs a secure (HTTPS) connection. Upload a file instead."
  else if negb (pf_getUserMedia p) then Some "This browser can’t record audio. Upload a file instead."
  else if negb (pf_audioContext p) then Some "This browser can’t process audio. Upload a file instead."
  else None.

(** [name] is that of a [DOMException], empty for anything else. *)
Definition micErrorMessage (name : string) : string :=
  if (name ==? "NotAllowedError") || (name ==? "SecurityError") then
    "Microphone access was blocked. Allow it from the icon in the address bar, or upload a file instead."
  else if (name ==? "NotFoundError") || (name ==? "OverconstrainedError") then
    "No microphone was found. Plug one in, or upload a file instead."
  else if name ==? "NotReadableError" then "The microphone is in use by another app. Close it and try again."
  else "The microphone couldn’t be started. Try again, or upload a file instead.".

(** ** From a clip to a greeting *)

Record GreetingAudio := {
  ga_wav : buffer;
  ga_durationSec : num;
  ga_bytes : Z;
  ga_sampleRate : Z;
}.

(** What converting throws: a [GreetingAudioError], or anything else. *)
Inductive convert_error := greeting_error (message : string) | other_convert_error.

(** [resampled] is what [resampleClip] gives for the clip at [sampleRate]. *)
Definition buildGreetingWav (resampled : list num) (sampleRate : Z) (noun : string) : convert_error + GreetingAudio :=
  let durationSec := Fin (inject_Z (Z.of_nat (length resampled)) / inject_Z sampleRate)%Q in
  match encodeWavPcm16 resampled (num_of_Z sampleRate) with
  | inl _ => inl other_convert_error
  | inr buf =>
      let bytes := Z.of_nat (length buf) in
      match greetingProblem durationSec bytes noun with
      | Some problem => inl (greeting_error problem)
      | None => inr (Build_GreetingAudio buf durationSec bytes sampleRate)
      end
  end.

Definition MAX_SOURCE_FILE_BYTES : Z := 50 * 1024 * 1024.

(** What [decodeAudioData] answers: a refusal, or channels, duration and rate. *)
Record Decoded := { dc_duration : num; dc_samples : list num; dc_sampleRate : Z }.

(** [downmixToMono] is part of [dc_samples]. *)
Definition decodeAudioFile (size : Z) (offline : bool) (decoded : option Decoded) (noun : string) : convert_error + PcmClip :=
  if size =? 0 then inl (greeting_error "That file is empty.")
  else if MAX_SOURCE_FILE_BYTES <? size then
    inl (greeting_error ("That file is over 50 MB. Pick a shorter clip (" +:+ noun +:+ "s can be up to 2:00)."))
  else if negb offline then
    inl (greeting_error "This browser can’t convert audio. Try a current version of Chrome, Edge, Firefox or Safari.")
  else match decoded with
       | None => inl (greeting_error "That file couldn’t be read as audio. Try a WAV, MP3 or M4A file.")
       | Some d =>
           if num_gt (dc_duration d) (Fin (2401 # 20)) then
             inl (greeting_error (default "That clip is too long." (greetingProblem (dc_duration d) 0 noun)))
           else inr (Build_PcmClip (dc_samples d) (dc_sampleRate d))
       end.
