(* ===== verification/Capture.v ===== *)
(** * Record or upload ([pages/voicemail/useAudioCapture.ts])

    The state machine behind the "add audio" dialogs.  The state is the hook's
    (source, stage, the recorder and the preview URL it holds) with what its
    promises have under way: takes starting and stopping, clips being
    converted, every microphone opened, those that were granted to a take whose
    audio context could not be made, and every preview URL created and not
    revoked.  An event is a call of the customer's or the answer of a promise. *)
From Stdlib Require Import QArith.
From S2P Require Import Prelude JsString JsValue Format Wav Recorder.

Local Close Scope Q_scope.
Local Open Scope string_scope.
Local Open Scope Z_scope.
Local Open Scope list_scope.

Inductive CaptureSource := src_record | src_upload.

#[export] Instance CaptureSource_eq_dec : EqDecision CaptureSource.
Proof. solve_decision. Defined.

Inductive CaptureStage :=
  | cs_idle
  | cs_starting
  | cs_recording (elapsed : Q) (level : num)
  | cs_processing
  | cs_ready (audio : GreetingAudio) (url : nat) (from : string)
  | cs_error (message : string).

Record CaptureState := {
  cp_source : CaptureSource;
  cp_stage : CaptureStage;
  cp_recorder : option nat;
  cp_url : option nat;
  cp_mounted : bool;
  cp_recordings : list (nat * Recording);
  cp_starting : list nat;
  cp_stopping : list nat;
  cp_making : list (nat * string);
  cp_urls : list nat;
  cp_next : nat;
  cp_orphans : list nat;
}.

(** [recordingUnsupportedReason] decides the first source. *)
Definition initial (p : Platform) (initialSource : option CaptureSource) : CaptureState :=
  Build_CaptureState
    (default (match recordingUnsupportedReason p with Some _ => src_upload | None => src_record end) initialSource)
    cs_idle None None true [] [] [] [] [] 0 [].

Definition recording (st : CaptureStage) : bool := match st with cs_recording _ _ | cs_starting => true | _ => false end.
Definition processing (st : CaptureStage) : bool := match st with cs_processing => true | _ => false end.

(** ** Updates *)

Definition with_recordings (l : list (nat * Recording)) (s : CaptureState) : CaptureState :=
  Build_CaptureState (cp_source s) (cp_stage s) (cp_recorder s) (cp_url s) (cp_mounted s) l (cp_starting s)
    (cp_stopping s) (cp_making s) (cp_urls s) (cp_next s) (cp_orphans s).
Definition with_recorder (h : option nat) (s : CaptureState) : CaptureState :=
  Build_CaptureState (cp_source s) (cp_stage s) h (cp_url s) (cp_mounted s) (cp_recordings s) (cp_starting s)
    (cp_stopping s) (cp_making s) (cp_urls s) (cp_next s) (cp_orphans s).
Definition with_promises (starting stopping : list nat) (making : list (nat * string)) (s : CaptureState) : CaptureState :=
  Build_CaptureState (cp_source s) (cp_stage s) (cp_recorder s) (cp_url s) (cp_mounted s) (cp_recordings s) starting
    stopping making (cp_urls s) (cp_next s) (cp_orphans s).

(** A stream that was granted and has no recorder to stop it. *)
Definition with_orphan (h : nat) (s : CaptureState) : CaptureState :=
  Build_CaptureState (cp_source s) (cp_stage s) (cp_recorder s) (cp_url s) (cp_mounted s) (cp_recordings s) (cp_starting s)
    (cp_stopping s) (cp_making s) (cp_urls s) (cp_next s) (cp_orphans s ++ [h]).

(** The identity of a promise or a URL: a new one each time. *)
Definition fresh (s : CaptureState) : CaptureState :=
  Build_CaptureState (cp_source s) (cp_stage s) (cp_recorder s) (cp_url s) (cp_mounted s) (cp_recordings s)
    (cp_starting s) (cp_stopping s) (cp_making s) (cp_urls s) (S (cp_next s)) (cp_orphans s).

(** [setStage] and [setSource]: nothing once the owner is unmounted. *)
Definition setStage (st : CaptureStage) (s : CaptureState) : CaptureState :=
  if cp_mounted s then
    Build_CaptureState (cp_source s) st (cp_recorder s) (cp_url s) true (cp_recordings s) (cp_starting s)
      (cp_stopping s) (cp_making s) (cp_urls s) (cp_next s) (cp_orphans s)
  else s.
Definition setSource (src : CaptureSource) (s : CaptureState) : CaptureState :=
  if cp_mounted s then
    Build_CaptureState src (cp_stage s) (cp_recorder s) (cp_url s) true (cp_recordings s) (cp_starting s)
      (cp_stopping s) (cp_making s) (cp_urls s) (cp_next s) (cp_orphans s)
  else s.

(** The URL held is revoked, the new one held. *)
Definition setPreviewUrl (url : option nat) (s : CaptureState) : CaptureState :=
  Build_CaptureState (cp_source s) (cp_stage s) (cp_recorder s) url (cp_mounted s) (cp_recordings s) (cp_starting s)
    (cp_stopping s) (cp_making s)
    (match cp_url s with Some old => List.filter (λ u, negb (Nat.eqb u old)) (cp_urls s) | None => cp_urls s end)
    (cp_next s) (cp_orphans s).

(** [URL.createObjectURL] *)
Definition createObjectURL (s : CaptureState) : nat * CaptureState :=
  let url := cp_next s in
  (url, fresh (Build_CaptureState (cp_source s) (cp_stage s) (cp_recorder s) (cp_url s) (cp_mounted s) (cp_recordings s)
                 (cp_starting s) (cp_stopping s) (cp_making s) (cp_urls s ++ [url]) (cp_next s) (cp_orphans s))).

Definition update_recording (i : nat) (f : Recording → Recording) (l : list (nat * Recording)) : list (nat * Recording) :=
  List.map (λ r, if Nat.eqb r.1 i then (r.1, f r.2) else r) l.

Definition without (i : nat) (l : list nat) : list nat := List.filter (λ j, negb (Nat.eqb j i)) l.

(** ** The hook *)

Section Hook.
Context (maxSeconds sampleRate : Z) (noun : string).

Definition CONVERT_ERROR : string := "That audio couldn’t be converted. Try another file or recording.".

(** [finishClip] up to its [await]. *)
Definition finishClip (from : string) (s : CaptureState) : CaptureState :=
  let s := setStage cs_processing s in
  fresh (with_promises (cp_starting s) (cp_stopping s) (cp_making s ++ [(cp_next s, from)]) s).

(** The rest of [finishClip]. *)
Definition finished (j : nat) (from : string) (made : convert_error + GreetingAudio) (s : CaptureState) : CaptureState :=
  let s := with_promises (cp_starting s) (cp_stopping s) (List.filter (λ m, negb (Nat.eqb m.1 j)) (cp_making s)) s in
  match made with
  | inr audio =>
      let '(url, s) := createObjectURL s in
      setStage (cs_ready audio url from) (setPreviewUrl (Some url) s)
  | inl e =>
      setStage (cs_error (match e with greeting_error m => m | other_convert_error => CONVERT_ERROR end))
        (setPreviewUrl None s)
  end.

(** [stopRecording] up to its [await]. *)
Definition stopRecording (s : CaptureState) : CaptureState :=
  match cp_recorder s with
  | None => s
  | Some h => with_promises (cp_starting s) (cp_stopping s ++ [h]) (cp_making s) (with_recorder None s)
  end.

(** [handle.stop()] done. *)
Definition stopped (h : nat) (s : CaptureState) : CaptureState :=
  let s := with_promises (cp_starting s) (without h (cp_stopping s)) (cp_making s) s in
  finishClip "Recording" (with_recordings (update_recording h (λ r, (stop_recording maxSeconds r).1) (cp_recordings s)) s).

(** [startRecordingTake] up to its [await]. *)
Definition startRecordingTake (s : CaptureState) : CaptureState :=
  let s := setStage cs_starting (setPreviewUrl None s) in
  fresh (with_promises (cp_starting s ++ [cp_next s]) (cp_stopping s) (cp_making s) s).

(** Inside [startRecording]: access granted, the microphone is live. *)
Definition granted (h : nat) (rate : Z) (s : CaptureState) : CaptureState :=
  with_recordings (cp_recordings s ++ [(h, open_recording rate)]) s.

(** [startRecording] returns its handle. *)
Definition started (h : nat) (s : CaptureState) : CaptureState :=
  let s := with_promises (without h (cp_starting s)) (cp_stopping s) (cp_making s) s in
  setStage (cs_recording 0 (num_of_Z 0)) (with_recorder (Some h) s).

(** [startRecording] throws before access is granted, or while it builds the
    audio graph: its [catch] tears the stream down. *)
Definition refused (h : nat) (message : string) (s : CaptureState) : CaptureState :=
  let s := with_promises (without h (cp_starting s)) (cp_stopping s) (cp_making s) s in
  setStage (cs_error message) (with_recorder None (with_recordings (update_recording h teardown (cp_recordings s)) s)).

Definition START_ERROR : string := "Recording couldn’t start.".

(** Access is granted and [new Ctor()] throws, before the [try] of
    [startRecording]: nobody tears the stream down or can stop it. *)
Definition no_context (h : nat) (s : CaptureState) : CaptureState :=
  let s := with_promises (without h (cp_starting s)) (cp_stopping s) (cp_making s) s in
  setStage (cs_error START_ERROR) (with_recorder None (with_orphan h s)).

(** A chunk of the take [h]: [onProgress], and [onLimit] at the limit. *)
Definition chunk_of (h : nat) (chunk : list num) (r : Recording) (s : CaptureState) : CaptureState :=
  let '(r, progress, fires) := onChunk maxSeconds chunk r in
  let s := with_recordings (update_recording h (λ _, r) (cp_recordings s)) s in
  let s := match progress with Some p => setStage (cs_recording (rp_elapsed p) (rp_level p)) s | None => s end in
  if fires then stopRecording s else s.

Definition takeFile (name : option string) (s : CaptureState) : CaptureState :=
  match name with Some name => finishClip name s | None => s end.

Definition cancel_held (s : CaptureState) : CaptureState :=
  match cp_recorder s with
  | Some h => with_recorder None (with_recordings (update_recording h cancel_recording (cp_recordings s)) s)
  | None => s
  end.

Definition reset (s : CaptureState) : CaptureState := setStage cs_idle (setPreviewUrl None (cancel_held s)).

Definition switchSource (next : CaptureSource) (s : CaptureState) : bool * CaptureState :=
  if recording (cp_stage s) || processing (cp_stage s) then (false, s)
  else (true, setStage cs_idle (setPreviewUrl None (setSource next s))).

(** The clean-up of the effect, when the owner goes away. *)
Definition unmount (s : CaptureState) : CaptureState :=
  let s := setPreviewUrl None (cancel_held s) in
  Build_CaptureState (cp_source s) (cp_stage s) (cp_recorder s) (cp_url s) false (cp_recordings s) (cp_starting s)
    (cp_stopping s) (cp_making s) (cp_urls s) (cp_next s) (cp_orphans s).

(** ** Events *)

Inductive event :=
  | ev_start
  | ev_stop
  | ev_file (name : option string)
  | ev_switch (next : CaptureSource)
  | ev_close
  | ev_granted (h : nat) (rate : Z)
  | ev_started (h : nat)
  | ev_refused (h : nat) (message : string)
  | ev_no_context (h : nat)
  | ev_chunk (h : nat) (chunk : list num)
  | ev_stopped (h : nat)
  | ev_made (j : nat) (made : convert_error + GreetingAudio).

Definition recording_of (h : nat) (s : CaptureState) : option Recording := om_get h (cp_recordings s).

(** [None]: the event cannot happen. *)
Definition step (s : CaptureState) (e : event) : option CaptureState :=
  match e with
  | ev_start => if cp_mounted s then Some (startRecordingTake s) else None
  | ev_stop => if cp_mounted s then Some (stopRecording s) else None
  | ev_file name => if cp_mounted s then Some (takeFile name s) else None
  | ev_switch next => if cp_mounted s then Some (switchSource next s).2 else None
  | ev_close => if cp_mounted s then Some (unmount s) else None
  | ev_granted h rate =>
      if includes (cp_starting s) h && negb (bool_decide (is_Some (recording_of h s))) then Some (granted h rate s) else None
  | ev_started h =>
      if includes (cp_starting s) h && bool_decide (is_Some (recording_of h s)) then Some (started h s) else None
  | ev_no_context h =>
      if includes (cp_starting s) h && negb (bool_decide (is_Some (recording_of h s))) then Some (no_context h s) else None
  | ev_refused h message => if includes (cp_starting s) h then Some (refused h message s) else None
  | ev_chunk h chunk =>
      match recording_of h s with
      | Some r => if includes (cp_starting s) h then None else Some (chunk_of h chunk r s)
      | None => None
      end
  | ev_stopped h => if includes (cp_stopping s) h then Some (stopped h s) else None
  | ev_made j made =>
      match om_get j (cp_making s) with Some from => Some (finished j from made s) | None => None end
  end.

(** What [AudioCapturePanel] and the dialogs let the customer do: Start with
    the record tab up and nothing going on, Stop while recording, a file with
    the upload tab up, a switch of tabs; closing is always possible. *)
Definition offered (s : CaptureState) (e : event) : bool :=
  let quiet := negb (recording (cp_stage s)) && negb (processing (cp_stage s)) in
  match e with
  | ev_start => (cp_source s ==? src_record) && quiet
  | ev_stop => match cp_stage s with cs_recording _ _ => true | _ => false end
  | ev_file _ => (cp_source s ==? src_upload) && quiet
  | _ => true
  end.

Fixpoint run (s : CaptureState) (events : list event) : option CaptureState :=
  match events with
  | [] => Some s
  | e :: events =>
      if offered s e then match step s e with Some s => run s events | None => None end else None
  end.

End Hook.
