(* ===== verification/CaptureOk.v ===== *)
(** * Recording a greeting: the microphone, the preview URLs and the limit *)
From Stdlib Require Import QArith.
From S2P Require Import Prelude JsString JsValue Format Wav Recorder Capture.

Local Close Scope Q_scope.
Local Open Scope string_scope.
Local Open Scope Z_scope.
Local Open Scope list_scope.

(** ** What a take keeps *)

Lemma sum_lengths (chunks : list (list num)) n :
  fold_left (λ n c, (n + length c)%nat) chunks n = (n + length (List.concat chunks))%nat.
Proof.
  revert n. induction chunks as [|c chunks IH]; intros n; simpl; [lia|]. rewrite IH, length_app. lia.
Qed.

Lemma copy_chunks_take left chunks : copy_chunks left chunks = take left (List.concat chunks).
Proof.
  revert left. induction chunks as [|c chunks IH]; intros left; simpl; [by rewrite take_nil|].
  destruct (Nat.eqb left 0) eqn:E; [apply Nat.eqb_eq in E; by subst|].
  rewrite IH, take_app. f_equal; [|f_equal; lia].
  destruct (Nat.min_spec (length c) left) as [[? ->]|[? ->]]; [|done]. by rewrite !take_ge by lia.
Qed.

(** Joining chunks is joining them all and keeping the first samples. *)
Lemma concatSamples_take chunks n : concatSamples chunks n = take n (List.concat chunks).
Proof.
  unfold concatSamples. rewrite sum_lengths, copy_chunks_take. simpl.
  destruct (Nat.min_spec n (length (List.concat chunks))) as [[? ->]|[? ->]]; [done|]. by rewrite !take_ge by lia.
Qed.

(** The chunks of a take, delivered one after another; how often the limit fired. *)
Definition deliver (maxSeconds : Z) (chunks : list (list num)) (r : Recording) : Recording * nat :=
  fold_left (λ '(r, n) c, let '(r, _, fires) := onChunk maxSeconds c r in (r, if fires : bool then S n else n)) chunks (r, 0%nat).

Definition total (chunks : list (list num)) : Z := Z.of_nat (length (List.concat chunks)).

Lemma total_snoc chunks c : total (chunks ++ [c]) = total chunks + Z.of_nat (length c).
Proof. unfold total. rewrite concat_app. simpl. rewrite app_nil_r, length_app. lia. Qed.

(** The state after the chunks: what was kept is a prefix of what came, all
    of it until the limit. *)
Lemma deliver_spec maxSeconds rate chunks :
  0 < maxSamples maxSeconds rate →
  let '(r, n) := deliver maxSeconds chunks (open_recording rate) in
  let limit := maxSamples maxSeconds rate in
  rc_sampleRate r = rate ∧ rc_closed r = false ∧ rc_live r = true ∧
  rc_captured r = total (rc_chunks r) ∧ (∃ rest, List.concat chunks = List.concat (rc_chunks r) ++ rest ∧ (rc_captured r < limit → rest = [])) ∧
  rc_limitFired r = (limit <=? rc_captured r) ∧ n = if limit <=? total chunks then 1%nat else 0%nat.
Proof.
  intros Hmax. induction chunks as [|c chunks IH] using rev_ind.
  { simpl. assert ((maxSamples maxSeconds rate <=? 0) = false) as E by lia. unfold total. simpl.
    change (Z.of_nat 0) with 0. rewrite E. split_and!; try done. by exists []. }
  unfold deliver in *. rewrite fold_left_app. simpl.
  destruct (fold_left _ chunks _) as [r n]. cbv zeta in *.
  destruct IH as (Hr & Hc & Hl & Hcap & (rest & Ec & Hrest) & Hf & Hn). rewrite total_snoc.
  unfold onChunk. rewrite Hr, Hc, Hf. cbn [orb].
  destruct (maxSamples maxSeconds rate <=? rc_captured r) eqn:E; bool_hyps.
  - assert (Elim : (maxSamples maxSeconds rate <=? rc_captured r) = true) by lia.
    split_and!; [done|done|done|done| |congruence|].
    + exists (rest ++ c). rewrite concat_app, Ec. simpl. rewrite app_nil_r, app_assoc. split; [done|lia].
    + rewrite Hn. unfold total in *. rewrite Ec, length_app.
      by rewrite !(proj2 (Z.leb_le _ _)) by lia.
  - rewrite Hrest, app_nil_r in Ec by lia. cbn [rc_sampleRate rc_closed rc_live rc_captured rc_chunks rc_limitFired negb].
    rewrite total_snoc, Hcap, andb_true_r. cbn [orb]. split_and!; try done.
    + exists []. rewrite !concat_app, Ec, app_nil_r. done.
    + assert (total chunks = total (rc_chunks r)) as Et by (unfold total; by rewrite Ec).
      rewrite Et in *. assert ((maxSamples maxSeconds rate <=? total (rc_chunks r)) = false) as E' by lia.
      rewrite E' in Hn. subst n. by destruct (_ <=? _).
Qed.

(** Stopping a take gives exactly the first samples the microphone
    delivered, up to the limit, in order; the limit is announced once when it
    is reached and not before. *)
Theorem recording_kept (maxSeconds rate : Z) (chunks : list (list num)) :
  0 < maxSamples maxSeconds rate →
  let '(r, fired) := deliver maxSeconds chunks (open_recording rate) in
  pc_samples (stop_recording maxSeconds r).2 = take (Z.to_nat (maxSamples maxSeconds rate)) (List.concat chunks) ∧
  rc_live (stop_recording maxSeconds r).1 = false ∧
  fired = if maxSamples maxSeconds rate <=? total chunks then 1%nat else 0%nat.
Proof.
  intros Hmax. pose proof (deliver_spec maxSeconds rate chunks Hmax) as H.
  destruct (deliver maxSeconds chunks (open_recording rate)) as [r n]. cbv zeta in H.
  destruct H as (Hr & _ & _ & Hcap & (rest & Ec & Hrest) & _ & ->). split_and!; [|done..].
  cbn [stop_recording snd pc_samples]. rewrite Hr, concatSamples_take, Ec.
  destruct (decide (rc_captured r < maxSamples maxSeconds rate)) as [Hlt|].
  - by rewrite Hrest, app_nil_r.
  - rewrite take_app_le; [done|]. unfold total in Hcap. lia.
Qed.

Lemma recording_kept_witness :
  let '(r, fired) := deliver 1 [[num_of_Z 1; num_of_Z 0]; [num_of_Z 0; num_of_Z 1]; [num_of_Z 1]] (open_recording 3) in
  pc_samples (stop_recording 1 r).2 = [num_of_Z 1; num_of_Z 0; num_of_Z 0] ∧ fired = 1%nat.
Proof.
  pose proof (recording_kept 1 3 [[num_of_Z 1; num_of_Z 0]; [num_of_Z 0; num_of_Z 1]; [num_of_Z 1]]) as H.
  destruct (deliver _ _ _) as [r n] eqn:E. destruct H as (Hs & _ & Hn); [reflexivity|]. split; [exact Hs|exact Hn].
Defined.

(** ** The state machine *)

Section Machine.
Context (maxSeconds : Z).

(** The takes an event leaves without a recorder: access was granted, and
    the audio context could not be made. *)
Definition lost_by (e : event) : list nat := match e with ev_no_context h => [h] | _ => [] end.

(** What the customer and the browser can lead to, short of closing the
    dialog while a take is starting, with the takes lost on the way. *)
Inductive reachable : list nat → CaptureState → Prop :=
  | reach_init p src : reachable [] (initial p src)
  | reach_step lost s e s' :
      reachable lost s → offered s e = true → (e = ev_close → cp_stage s ≠ cs_starting) →
      step maxSeconds s e = Some s' → reachable (lost ++ lost_by e) s'.

(** What is under way at each stage. *)
Definition phase (s : CaptureState) : Prop :=
  match cp_stage s with
  | cs_idle | cs_ready _ _ _ | cs_error _ =>
      cp_starting s = [] ∧ cp_stopping s = [] ∧ cp_recorder s = None ∧ cp_making s = []
  | cs_starting => (∃ h, cp_starting s = [h]) ∧ cp_stopping s = [] ∧ cp_recorder s = None ∧ cp_making s = []
  | cs_recording _ _ =>
      cp_starting s = [] ∧ cp_making s = [] ∧
      ∃ h, (cp_recorder s = Some h ∧ cp_stopping s = []) ∨ (cp_recorder s = None ∧ cp_stopping s = [h])
  | cs_processing => cp_starting s = [] ∧ cp_stopping s = [] ∧ cp_recorder s = None ∧ ∃ m, cp_making s = [m]
  end.

Definition held (s : CaptureState) (h : nat) : Prop := cp_recorder s = Some h ∨ h ∈ cp_starting s ∨ h ∈ cp_stopping s.

Record good (s : CaptureState) : Prop := {
  good_closed : ∀ h r, recording_of h s = Some r → rc_closed r = negb (rc_live r);
  good_mic : ∀ h r, recording_of h s = Some r → rc_live r = true → held s h;
  good_phase : cp_mounted s = true → phase s;
  good_left : cp_mounted s = false → cp_recorder s = None ∧ cp_starting s = [];
  good_url : cp_mounted s = true → cp_urls s = option_list (cp_url s) ∧
    ∀ audio url from, cp_stage s = cs_ready audio url from → cp_url s = Some url;
  good_fresh : ∀ url, cp_url s = Some url → (url < cp_next s)%nat;
}.

Lemma recording_of_update j i f l s :
  recording_of j (with_recordings (update_recording i f l) s) =
  if decide (j = i) then f <$> recording_of j (with_recordings l s) else recording_of j (with_recordings l s).
Proof.
  unfold recording_of. cbn [cp_recordings with_recordings].
  induction l as [|[k r] l IH]; simpl; [by destruct (decide _)|].
  destruct (Nat.eqb_spec k i) as [->|Hk]; simpl; case_bool_decide as E; subst; rewrite ?IH; repeat case_decide; done.
Qed.

Lemma recording_of_snoc j i r l s :
  recording_of j (with_recordings (l ++ [(i, r)]) s) =
  match recording_of j (with_recordings l s) with Some r' => Some r' | None => if decide (j = i) then Some r else None end.
Proof.
  unfold recording_of. cbn [cp_recordings with_recordings]. induction l as [|[k r'] l IH]; simpl.
  - case_bool_decide; case_decide; subst; done.
  - by case_bool_decide.
Qed.

Lemma recording_of_same j s : recording_of j (with_recordings (cp_recordings s) s) = recording_of j s.
Proof. done. Qed.

Lemma elem_of_without h i l : h ∈ without i l ↔ h ∈ l ∧ h ≠ i.
Proof. unfold without. rewrite elem_of_lfilter, negb_true_iff, Nat.eqb_neq. naive_solver. Qed.

Lemma without_single h : without h [h] = [].
Proof. unfold without. simpl. by rewrite Nat.eqb_refl. Qed.

(** Takes a state apart, and its invariant with it. *)
Ltac open_state H :=
  match type of H with
  | good ?s => destruct s as [src st rec url mounted recs starting stopping making urls next orphans]; destruct H as [Hclosed Hmic Hphase Hleft Hurl Hfresh];
      unfold recording_of, held, phase in Hclosed, Hmic, Hphase; cbn in Hclosed, Hmic, Hphase, Hleft, Hurl, Hfresh
  end.

Lemma revoked url : List.filter (λ u, negb (Nat.eqb u url)) [url] = [].
Proof. simpl. by rewrite Nat.eqb_refl. Qed.
Lemma good_start s :
  good s → cp_mounted s = true → recording (cp_stage s) = false → processing (cp_stage s) = false →
  good (startRecordingTake s).
Proof.
  intros H Hm Hr Hp. open_state H. cbn in Hm, Hr, Hp. subst mounted. specialize (Hphase eq_refl). destruct (Hurl eq_refl) as [Hu _].
  assert (starting = [] ∧ stopping = [] ∧ rec = None ∧ making = []) as (-> & -> & -> & ->) by (destruct st; done).
  constructor; cbn; [done| |by eauto|done| |done].
  - intros h r Hg Hl. destruct (Hmic h r Hg Hl) as [?|[?%elem_of_nil|?%elem_of_nil]]; done.
  - intros _. split; [|done]. destruct url as [u|]; subst urls; simpl; [apply revoked|done].
Qed.

Lemma good_stop s : good s → good (stopRecording s).
Proof.
  intros H. unfold stopRecording. destruct (cp_recorder s) as [h|] eqn:Hrec; [|done].
  open_state H. cbn in Hrec. subst rec. constructor; cbn; try done.
  - intros i r Hi Hl. unfold held. cbn. destruct (Hmic i r Hi Hl) as [[= <-]|[?|?]]; rewrite elem_of_app, elem_of_cons; auto.
  - intros ->. specialize (Hphase eq_refl). unfold phase. cbn. destruct st; naive_solver.
  - intros ->. naive_solver.
Qed.

Lemma good_chunk s h chunk r :
  good s → recording_of h s = Some r → h ∉ cp_starting s → good (chunk_of maxSeconds h chunk r s).
Proof.
  intros H Hr Hh. unfold chunk_of.
  destruct (onChunk maxSeconds chunk r) as [[r' progress] fires] eqn:E.
  assert (Hsame : rc_live r' = rc_live r ∧ rc_closed r' = rc_closed r ∧ (rc_closed r = true → progress = None)).
  { unfold onChunk in E. destruct (rc_closed r) eqn:Hc; simpl in E; [by simplify_eq|].
    destruct (_ <=? _); simplify_eq; simpl; done. }
  destruct Hsame as (Hl & Hcl & Hnone).
  assert (Hs1 : good (with_recordings (update_recording h (λ _, r') (cp_recordings s)) s)).
  { destruct H as [Hclosed Hmic Hphase Hleft Hurl Hfresh]. constructor; try done; intros i r0; rewrite recording_of_update, recording_of_same;
      (case_decide; [subst i; rewrite Hr; intros [= <-]; rewrite ?Hl, ?Hcl; by eauto|by eauto]). }
  assert (Hs2 : good match progress with
                     | Some p => setStage (cs_recording (rp_elapsed p) (rp_level p)) (with_recordings (update_recording h (λ _, r') (cp_recordings s)) s)
                     | None => with_recordings (update_recording h (λ _, r') (cp_recordings s)) s end).
  { destruct progress as [p|]; [|done].
    assert (rc_live r = true) as Hlive.
    { destruct (rc_live r) eqn:El; [done|]. rewrite (good_closed _ H h r Hr), El in Hnone. by discriminate Hnone. }
    pose proof (good_mic _ H h r Hr Hlive) as Hheld. clear H.
    unfold setStage. cbn [cp_mounted with_recordings]. destruct (cp_mounted s) eqn:Hm; [|done].
    destruct Hs1 as [Hclosed Hmic Hphase Hleft Hurl Hfresh]. specialize (Hphase Hm). destruct (Hurl Hm) as [Hu _].
    constructor; try done. intros _. unfold phase in *. cbn in Hphase |- *.
    destruct (cp_stage s); try exact Hphase; exfalso.
    all: destruct Hheld as [?|[?|Hs]]; [destruct Hphase as (?&?&?&?); congruence|done|].
    all: destruct Hphase as (? & E' & _); rewrite E' in Hs; by apply elem_of_nil in Hs. }
  by destruct fires; [apply good_stop|].
Qed.
Lemma good_finishClip from s :
  good s → (cp_mounted s = true → cp_starting s = [] ∧ cp_stopping s = [] ∧ cp_recorder s = None ∧ cp_making s = []) →
  good (finishClip from s).
Proof.
  intros H Hq. open_state H. cbn in Hq. unfold finishClip, setStage. cbn. destruct mounted; constructor; try done.
  - intros _. unfold phase. cbn. destruct (Hq eq_refl) as (-> & -> & -> & ->). eauto.
  - intros _. cbn. split; [by apply Hurl|done].
  - cbn. intros u Hu. specialize (Hfresh u Hu). lia.
  - cbn. intros u Hu. specialize (Hfresh u Hu). lia.
Qed.

Lemma good_file name s :
  good s → cp_mounted s = true → recording (cp_stage s) = false → processing (cp_stage s) = false → good (takeFile name s).
Proof.
  intros H Hm Hr Hp. destruct name as [name|]; [|done]. apply good_finishClip; [done|]. intros _.
  pose proof (good_phase _ H Hm) as Hph. unfold phase in Hph. by destruct (cp_stage s).
Qed.

Lemma good_switch tab s : good s → good (switchSource tab s).2.
Proof.
  intros H. unfold switchSource. destruct (recording (cp_stage s) || processing (cp_stage s)) eqn:E; [done|].
  apply orb_false_iff in E as [Hr Hp]. cbn [snd].
  open_state H. cbn in Hr, Hp. unfold setSource. cbn.
  destruct mounted; cbn; unfold setStage, setPreviewUrl; cbn; constructor; cbn; try done.
  - intros _. unfold phase. cbn. specialize (Hphase eq_refl). by destruct st.
  - intros _. split; [|done]. destruct (Hurl eq_refl) as [-> _]. destruct url as [u|]; simpl; [apply revoked|done].
Qed.

Lemma good_granted h rate s : good s → h ∈ cp_starting s → recording_of h s = None → good (granted h rate s).
Proof.
  intros [Hclosed Hmic Hphase Hleft Hurl Hfresh] Hh Hnone. unfold granted. constructor; try done; intros i r;
    rewrite recording_of_snoc, recording_of_same; destruct (recording_of i s) eqn:E; intros Hr; simplify_eq.
  - by eapply Hclosed.
  - by case_decide; simplify_eq.
  - by eapply Hmic.
  - case_decide; simplify_eq. intros _. right. by left.
Qed.

Lemma good_started h s : good s → h ∈ cp_starting s → good (started h s).
Proof.
  intros H Hh. open_state H. cbn in Hh. destruct mounted.
  2: { destruct (Hleft eq_refl) as [_ ->]. by apply elem_of_nil in Hh. }
  specialize (Hphase eq_refl).
  assert (starting = [h] ∧ stopping = [] ∧ rec = None ∧ making = []) as (-> & -> & -> & ->).
  { destruct st; try (destruct Hphase as (-> & _); by apply elem_of_nil in Hh).
    destruct Hphase as ((h' & ->) & -> & -> & ->). by apply list_elem_of_singleton in Hh as ->. }
  unfold started, setStage. cbn. rewrite Nat.eqb_refl. constructor; cbn; try done.
  - intros i r Hi Hl. unfold held. cbn. destruct (Hmic i r Hi Hl) as [?|[->%list_elem_of_singleton|?%elem_of_nil]]; [done|by left|done].
  - intros _. unfold phase. cbn. eauto 6.
  - intros _. split; [by apply Hurl|done].
Qed.

(** While a take is starting, nothing else is going on. *)
Lemma starting_alone h s :
  good s → h ∈ cp_starting s →
  cp_mounted s = true ∧ cp_starting s = [h] ∧ cp_stopping s = [] ∧ cp_recorder s = None ∧ cp_making s = [].
Proof.
  intros H Hh. destruct (cp_mounted s) eqn:Hm.
  2: { destruct (good_left _ H Hm) as [_ E]. rewrite E in Hh. by apply elem_of_nil in Hh. }
  pose proof (good_phase _ H Hm) as Hphase. unfold phase in Hphase. split; [done|].
  destruct (cp_stage s); try (destruct Hphase as (E & _); rewrite E in Hh; by apply elem_of_nil in Hh).
  destruct Hphase as ((h' & E) & ? & ? & ?). rewrite E in *. by apply list_elem_of_singleton in Hh as ->.
Qed.

Lemma good_no_context h s : good s → h ∈ cp_starting s → recording_of h s = None → good (no_context h s).
Proof.
  intros H Hh Hnone. destruct (starting_alone h s H Hh) as (Hm & E1 & E2 & E3 & E4).
  unfold no_context, setStage. cbn [cp_mounted with_recorder with_orphan with_promises]. rewrite Hm.
  destruct H as [Hclosed Hmic _ _ Hurl Hfresh]. constructor; try done.
  - intros i r Hi Hl. change (recording_of i s = Some r) in Hi. exfalso.
    destruct (Hmic i r Hi Hl) as [?|[Hin|Hin]]; [congruence| |rewrite E2 in Hin; by apply elem_of_nil in Hin].
    rewrite E1 in Hin. apply list_elem_of_singleton in Hin. congruence.
  - intros _. unfold phase. cbn. by rewrite E1, without_single, E2, E4.
  - intros _. split; [by apply Hurl|done].
Qed.

Lemma good_refused h message s : good s → h ∈ cp_starting s → good (refused h message s).
Proof.
  intros H Hh. destruct (starting_alone h s H Hh) as (Hm & E1 & E2 & E3 & E4).
  unfold refused, setStage. cbn [cp_mounted with_recorder with_recordings with_promises]. rewrite Hm.
  destruct H as [Hclosed Hmic _ _ Hurl Hfresh]. constructor; try done.
  - intros i r. change (recording_of i (with_recordings (update_recording h teardown (cp_recordings s)) s) = Some r → rc_closed r = negb (rc_live r)).
    rewrite recording_of_update, recording_of_same. case_decide; [|by eauto].
    intros (r0 & Hr0 & ->)%fmap_Some. done.
  - intros i r. change (recording_of i (with_recordings (update_recording h teardown (cp_recordings s)) s) = Some r →
      rc_live r = true → None = Some i ∨ i ∈ without h (cp_starting s) ∨ i ∈ cp_stopping s).
    rewrite recording_of_update, recording_of_same, E1, E2. case_decide; [by intros (r0 & _ & ->)%fmap_Some|].
    intros Hi Hl. destruct (Hmic i r Hi Hl) as [?|[Hin|Hin]]; [congruence| |rewrite E2 in Hin; by apply elem_of_nil in Hin].
    rewrite E1 in Hin. by apply list_elem_of_singleton in Hin.
  - intros _. unfold phase. cbn. by rewrite E1, without_single, E2, E4.
  - intros _. split; [by apply Hurl|done].
Qed.
(** After a stop: the take is torn down, its clip is being converted. *)
Lemma good_stopped h s : good s → h ∈ cp_stopping s → good (stopped maxSeconds h s).
Proof.
  intros H Hh.
  assert (Hrest : cp_mounted s = true → cp_starting s = [] ∧ without h (cp_stopping s) = [] ∧ cp_recorder s = None ∧ cp_making s = []).
  { intros Hm. pose proof (good_phase _ H Hm) as Hphase. unfold phase in Hphase.
    destruct (cp_stage s); try (destruct Hphase as (_ & E & _); rewrite E in Hh; by apply elem_of_nil in Hh).
    destruct Hphase as (-> & -> & h' & [[_ E]|[-> E]]); rewrite E in *; [by apply elem_of_nil in Hh|].
    apply list_elem_of_singleton in Hh as ->. by rewrite without_single. }
  unfold stopped. set (s1 := with_recordings _ _).
  assert (Hids : ∀ i r, recording_of i s1 = Some r → rc_closed r = negb (rc_live r) ∧
            (rc_live r = true → cp_recorder s = Some i ∨ i ∈ cp_starting s ∨ i ∈ without h (cp_stopping s))).
  { intros i r. change (recording_of i s1) with
      (recording_of i (with_recordings (update_recording h (λ r, (stop_recording maxSeconds r).1) (cp_recordings s)) s)).
    rewrite recording_of_update, recording_of_same. case_decide as E.
    - intros (r0 & _ & ->)%fmap_Some. done.
    - intros Hr. split; [by apply (good_closed _ H i)|]. intros Hl.
      destruct (good_mic _ H i r Hr Hl) as [?|[?|?]]; auto. right. right. by apply elem_of_without. }
  pose proof (good_left _ H) as Hleft. pose proof (good_url _ H) as Hurl. pose proof (good_fresh _ H) as Hfresh.
  unfold finishClip, setStage. change (cp_mounted s1) with (cp_mounted s).
  destruct (cp_mounted s) eqn:Hm; constructor; try (intros i r Hi; by apply Hids in Hi as [? ?]); cbn.
  - intros _. unfold phase. cbn. destruct (Hrest eq_refl) as (-> & -> & -> & ->). eauto.
  - done.
  - intros _. split; [by apply Hurl|done].
  - intros u Hu. specialize (Hfresh u Hu). lia.
  - by rewrite Hm.
  - by rewrite Hm.
  - by rewrite Hm.
  - intros u Hu. specialize (Hfresh u Hu). lia.
Qed.

Lemma good_finished j from made s : good s → om_get j (cp_making s) = Some from → good (finished j from made s).
Proof.
  intros H Hj. open_state H. cbn in Hj.
  assert (Hm : mounted = true → starting = [] ∧ stopping = [] ∧ rec = None ∧ List.filter (λ m : nat * string, negb (Nat.eqb m.1 j)) making = []).
  { intros ->. specialize (Hphase eq_refl).
    destruct st; try (destruct Hphase as (? & ? & ? & ->); done); try (destruct Hphase as (? & -> & ?); done).
    destruct Hphase as (-> & -> & -> & [k f] & ->). simpl in Hj. case_bool_decide; simplify_eq. simpl. by rewrite Nat.eqb_refl. }
  unfold finished. cbn [cp_making]. remember (List.filter (λ m : nat * string, negb (Nat.eqb m.1 j)) making) as rest eqn:Erest.
  clear Erest. unfold createObjectURL, setStage. destruct made as [e|audio]; cbn; destruct mounted; constructor; cbn; try done.
  - intros _. split; [|done]. destruct (Hurl eq_refl) as [-> _]. destruct url as [u|]; simpl; [apply revoked|done].
  - intros _. destruct (Hurl eq_refl) as [-> _]. split; [|intros ??? E; by injection E as _ -> _]. destruct url as [u|]; simpl; [|done].
    rewrite Nat.eqb_refl. simpl. specialize (Hfresh u eq_refl). by rewrite (proj2 (Nat.eqb_neq next u)) by lia.
  - intros u [= <-]. lia.
  - intros u [= <-]. lia.
Qed.

Lemma good_unmount s : good s → cp_stage s ≠ cs_starting → cp_mounted s = true → good (unmount s).
Proof.
  intros H Hns Hm. pose proof (good_phase _ H Hm) as Hphase. unfold phase in Hphase.
  assert (Hst : cp_starting s = []) by (destruct (cp_stage s); try done; by destruct Hphase).
  unfold unmount, cancel_held. destruct (cp_recorder s) as [h|] eqn:Hrec.
  - destruct H as [Hclosed Hmic _ _ _ _]. constructor; try done.
    + intros i r. change (recording_of i (with_recordings (update_recording h cancel_recording (cp_recordings s)) s) = Some r → rc_closed r = negb (rc_live r)).
      rewrite recording_of_update, recording_of_same. case_decide; [|by eauto]. by intros (r0 & _ & ->)%fmap_Some.
    + intros i r. change (recording_of i (with_recordings (update_recording h cancel_recording (cp_recordings s)) s) = Some r →
        rc_live r = true → None = Some i ∨ i ∈ cp_starting s ∨ i ∈ cp_stopping s).
      rewrite recording_of_update, recording_of_same. case_decide; [by intros (r0 & _ & ->)%fmap_Some|].
      intros Hi Hl. destruct (Hmic i r Hi Hl) as [?|?]; [congruence|by right].
  - destruct H as [Hclosed Hmic _ _ _ _]. constructor; done.
Qed.

Lemma good_initial p tab : good (initial p tab).
Proof. constructor; done. Qed.

Lemma reachable_good lost s : reachable lost s → good s.
Proof.
  induction 1 as [p tab|lost s e s' Hr H Ho Hclose Hs]; [apply good_initial|].
  destruct e; cbn in Hs, Ho; repeat case_match; simplify_eq; bool_hyps;
    repeat match goal with Hi : includes _ _ = true |- _ => apply includes_true in Hi end.
  - by apply good_start.
  - by apply good_stop.
  - by apply good_file.
  - by apply good_switch.
  - by apply good_unmount; auto.
  - apply good_granted; [done..|]. by apply eq_None_not_Some.
  - by apply good_started.
  - by apply good_refused.
  - apply good_no_context; [done..|]. by apply eq_None_not_Some.
  - apply good_chunk; [done..|]. by apply includes_false.
  - by apply good_stopped.
  - by apply good_finished.
Qed.

Lemma step_orphans s e s' : step maxSeconds s e = Some s' → cp_orphans s' = cp_orphans s ++ lost_by e.
Proof.
  assert (Hs : ∀ st x, cp_orphans (setStage st x) = cp_orphans x) by (intros; unfold setStage; by case_match).
  assert (Hc : ∀ x, cp_orphans (cancel_held x) = cp_orphans x) by (intros; unfold cancel_held; by case_match).
  assert (Hp : ∀ x, cp_orphans (stopRecording x) = cp_orphans x) by (intros; unfold stopRecording; by case_match).
  destruct e; cbn [step lost_by]; repeat case_match; try done; intros [= <-]; rewrite ?app_nil_r.
  - unfold startRecordingTake. cbn. by rewrite !Hs.
  - by rewrite Hp.
  - unfold takeFile, finishClip. case_match; [|done]. cbn. by rewrite Hs.
  - unfold switchSource, setSource. repeat case_match; cbn; by rewrite ?Hs.
  - unfold unmount. cbn. by rewrite Hc.
  - done.
  - unfold started. by rewrite Hs.
  - unfold refused. by rewrite Hs.
  - unfold no_context. by rewrite Hs.
  - unfold chunk_of. repeat case_match; cbn; by rewrite ?Hp, ?Hs.
  - unfold stopped, finishClip. cbn. by rewrite Hs.
  - unfold finished, createObjectURL. case_match; cbn; by rewrite Hs.
Qed.

Lemma reachable_orphans lost s : reachable lost s → cp_orphans s = lost.
Proof. induction 1 as [|lost s e s' _ IH _ _ Hs]; [done|]. by rewrite (step_orphans _ _ _ Hs), IH. Qed.

(** A microphone that is live: a take's, or one nobody holds. *)
Definition live_microphone (s : CaptureState) (h : nat) : Prop :=
  (∃ r, recording_of h s = Some r ∧ rc_live r = true) ∨ h ∈ cp_orphans s.

(** C33 However a customer records, uploads and changes tabs, a live microphone
    is one the dialog shows as starting or recording, or one being stopped,
    which is let go as soon as that is done, or one granted to a take whose
    audio context could not be made: those stay live, all of them, whatever
    the customer does.  Closing the dialog lets any other take go.  The preview
    URL shown is the only one there is.  The dialog is not closed while a take
    is starting. *)
Theorem microphone_accounted (lost : list nat) (s : CaptureState) :
  reachable lost s →
  (∀ h, live_microphone s h →
     (cp_mounted s = true ∧ recording (cp_stage s) = true) ∨ h ∈ cp_stopping s ∨ h ∈ lost) ∧
  (∀ h, h ∈ lost → live_microphone s h) ∧
  (∀ h s', step maxSeconds s (ev_stopped h) = Some s' → ∀ r, recording_of h s' = Some r → rc_live r = false) ∧
  (cp_mounted s = true →
     cp_urls s = option_list (cp_url s) ∧
     ∀ audio url from, cp_stage s = cs_ready audio url from → cp_url s = Some url ∧ cp_recorder s = None ∧ cp_making s = []).
Proof.
  intros Hr. pose proof (reachable_orphans lost s Hr) as Ho. apply reachable_good in Hr. split_and!.
  - intros h [(r & Hh & Hl)|Hh]; [|rewrite Ho in Hh; by right; right].
    destruct (good_mic _ Hr h r Hh Hl) as [E|[E|E]]; [left|left|by right; left].
    + destruct (cp_mounted s) eqn:Hm; [|destruct (good_left _ Hr Hm); congruence]. split; [done|].
      pose proof (good_phase _ Hr Hm) as Hp. unfold phase in Hp. destruct (cp_stage s); try done; exfalso.
      all: destruct Hp as (_ & _ & Hn & _); congruence.
    + destruct (cp_mounted s) eqn:Hm; [|destruct (good_left _ Hr Hm) as [_ En]; rewrite En in E; by apply elem_of_nil in E].
      split; [done|]. pose proof (good_phase _ Hr Hm) as Hp. unfold phase in Hp. destruct (cp_stage s); try done; exfalso.
      all: destruct Hp as (En & _); rewrite En in E; by apply elem_of_nil in E.
  - intros h Hh. right. by rewrite Ho.
  - intros h s' Hs r. cbn in Hs. destruct (includes (cp_stopping s) h); [|done]. injection Hs as <-.
    unfold stopped, finishClip, setStage. set (s1 := with_recordings _ _).
    assert (∀ x, recording_of h x = recording_of h s1 → recording_of h x = Some r → rc_live r = false) as Hx; [|by destruct (cp_mounted s1); apply Hx].
    intros x ->. change (recording_of h (with_recordings (update_recording h (λ r, (stop_recording maxSeconds r).1) (cp_recordings s)) s) = Some r → rc_live r = false).
    rewrite recording_of_update, recording_of_same. rewrite decide_True by done. by intros (r0 & _ & ->)%fmap_Some.
  - intros Hm. destruct (good_url _ Hr Hm) as [Hu Hready]. split; [done|]. intros audio url from E.
    split; [by eapply Hready|]. pose proof (good_phase _ Hr Hm) as Hp. unfold phase in Hp. rewrite E in Hp. by destruct Hp as (_ & _ & ? & ?).
Qed.
End Machine.

(** ** Takes *)

(** A run in which the dialog is not closed while a take is starting. *)
Fixpoint careful_run (maxSeconds : Z) (s : CaptureState) (events : list event) : option CaptureState :=
  match events with
  | [] => Some s
  | e :: events =>
      let closes := match e, cp_stage s with ev_close, cs_starting => true | _, _ => false end in
      if offered s e && negb closes then
        match step maxSeconds s e with Some s => careful_run maxSeconds s events | None => None end
      else None
  end.

Definition lost_in (events : list event) : list nat := List.flat_map lost_by events.

Lemma careful_run_reachable maxSeconds events lost s s' :
  reachable maxSeconds lost s → careful_run maxSeconds s events = Some s' →
  reachable maxSeconds (lost ++ lost_in events) s'.
Proof.
  revert lost s. induction events as [|e events IH]; intros lost s Hs; simpl; [rewrite app_nil_r; by intros [= <-]|].
  rewrite app_assoc.
  destruct (offered s e) eqn:Ho; [|done]. destruct (negb _) eqn:Hc; [|done]. simpl.
  destruct (step maxSeconds s e) as [s1|] eqn:E; [|done]. intros H. apply (IH _ s1); [|done].
  apply (reach_step _ lost s e); try done. intros -> Hst. by rewrite Hst in Hc.
Qed.

Definition browser : Platform := Build_Platform true true true true.
Definition tone (n : nat) : list num := replicate n (Fin (1 # 2)).
Definition sample_audio : GreetingAudio := Build_GreetingAudio [] (num_of_Z 2) 100 16000.

(** A take of two seconds, stopped and converted, heard, and the dialog closed. *)
Definition sample_take : list event :=
  [ev_start; ev_granted 0 4; ev_started 0; ev_chunk 0 (tone 5); ev_stop; ev_chunk 0 (tone 3); ev_stopped 0; ev_made 1 (inr sample_audio)].
Definition after_take : CaptureState := default (initial browser None) (careful_run 120 (initial browser None) sample_take).

Lemma microphone_accounted_witness :
  recording (cp_stage after_take) = false ∧ cp_stopping after_take = [] ∧
  ∀ h, live_microphone after_take h → False.
Proof.
  assert (Hr : reachable 120 [] after_take).
  { apply (careful_run_reachable 120 sample_take [] (initial browser None)); [constructor|vm_compute; reflexivity]. }
  destruct (microphone_accounted 120 [] after_take Hr) as [H _]. split_and!; [vm_compute; reflexivity..|].
  intros h Hl. destruct (H h Hl) as [[_ E]|[E|E]]; vm_compute in E; [discriminate|by apply elem_of_nil in E..].
Defined.

(** The audio context cannot be made once access is granted: the dialog shows
    an error, and the microphone stays live after it is closed, since the
    context is made outside the [try] that tears the stream down. *)
Example context_leaks_microphone :
  let after := run 120 (initial browser None) [ev_start; ev_no_context 0] in
  ∃ s, after = Some s ∧ cp_stage s = cs_error START_ERROR ∧ cp_recorder s = None ∧ live_microphone s 0
       ∧ ∃ s', run 120 s [ev_close] = Some s' ∧ live_microphone s' 0.
Proof.
  eexists. split; [vm_compute; reflexivity|]. split; [vm_compute; reflexivity|]. split; [vm_compute; reflexivity|].
  split; [right; vm_compute; left|]. eexists. split; [vm_compute; reflexivity|]. right; vm_compute; left.
Qed.

Example sample_take_ready :
  cp_stage after_take = cs_ready sample_audio 2 "Recording" ∧ cp_urls after_take = [2%nat] ∧
  (∃ r, recording_of 0 after_take = Some r ∧ rc_captured r = 8 ∧ rc_live r = false).
Proof. vm_compute. split_and!; try done. by eexists. Qed.

(** The dialog closed while the browser asks for the microphone: the take
    starts all the same, with nobody to stop it. *)
Example closed_while_starting :
  let left := run 120 (initial browser None) [ev_start; ev_close; ev_granted 0 48000; ev_started 0; ev_chunk 0 (tone 100)] in
  ∃ s r, left = Some s ∧ cp_mounted s = false ∧ recording_of 0 s = Some r ∧ rc_live r = true ∧ rc_captured r = 100.
Proof. do 2 eexists. split; [vm_compute; reflexivity|]. vm_compute. done. Qed.

(** Closed while a clip is being converted: the preview URL is created and
    never revoked. *)
Example closed_while_converting :
  let left := run 120 (initial browser (Some src_upload)) [ev_file (Some "hello.mp3"); ev_close; ev_made 0 (inr sample_audio)] in
  ∃ s, left = Some s ∧ cp_mounted s = false ∧ cp_urls s = [1%nat].
Proof. eexists. split; [vm_compute; reflexivity|]. vm_compute. done. Qed.
