(* ===== verification/Session.v ===== *)
(** * Who is signed in ([contexts/AuthContext.tsx])

    The session of the portal: the user and the token, "View as Customer",
    the requests under way that change them, the token kept in
    [localStorage], and what the query cache holds of which account.  An
    answer goes through the client ([ApiClient]); the flags every page reads
    are functions of the state. *)
From S2P Require Import Prelude JsString JsValue Format IvrError ApiClient.

Local Open Scope string_scope.
Local Open Scope Z_scope.
Local Open Scope list_scope.

(** ** Users ([types/auth.ts]) *)

Record User := {
  us_id : Z;
  us_email : string;
  us_role : string;
  us_customer_id : option Z;
  us_name : string;
  us_customer_name : option string;
  us_account_type : option string;
}.

(** A whole number, or [null]. *)
Definition id_or_null (v : value) : option (option Z) :=
  match v with VNull => Some None | VNum n => Some <$> Z_of_num n | _ => None end.
Definition text_or_null (v : value) : option (option string) :=
  match v with VNull => Some None | VStr s => Some (Some s) | _ => None end.

(** A body read as a [User], the fields the portal decides by. *)
Definition user_view (v : value) : option User :=
  o ← as_record v;
  n ← as_number (get "id" o);
  id ← Z_of_num n;
  email ← as_string (get "email" o);
  role ← as_string (get "role" o);
  customer_id ← id_or_null (get "customer_id" o);
  name ← as_string (get "name" o);
  customer_name ← text_or_null (get "customer_name" o);
  account_type ← text_or_null (get "account_type" o);
  Some (Build_User id email role customer_id name customer_name account_type).

(** [LoginResponse] *)
Definition login_view (v : value) : option (string * User) :=
  o ← as_record v;
  token ← as_string (get "access_token" o);
  user ← user_view (get "user" o);
  Some (token, user).

(** ** The state of the provider and its flags *)

Record EffectiveCustomer := {
  ec_id : Z;
  ec_name : string;
  ec_account_type : option string;
}.

Record Auth := {
  au_user : option User;
  au_token : option string;
  au_isLoading : bool;
  au_customerViewMode : bool;
  au_previewCustomer : option EffectiveCustomer;
}.

Definition isAuthenticated (a : Auth) : bool :=
  match au_user a, au_token a with Some _, Some _ => true | _, _ => false end.

(** [user?.role === role] *)
Definition has_role (role : string) (a : Auth) : bool :=
  match au_user a with Some u => us_role u ==? role | None => false end.

Definition isActualAdmin (a : Auth) : bool := has_role "admin" a.
Definition isAdmin (a : Auth) : bool := isActualAdmin a && negb (au_customerViewMode a).
Definition isSupport (a : Auth) : bool := has_role "support" a.

Definition effectiveCustomer (a : Auth) : option EffectiveCustomer :=
  match au_user a with
  | None => None
  | Some u =>
      if isSupport a then None
      else if isActualAdmin a then (if au_customerViewMode a then au_previewCustomer a else None)
      else match us_customer_id u with
           | None => None
           | Some id => Some (Build_EffectiveCustomer id (default "" (us_customer_name u)) (us_account_type u))
           end
  end.

(** ** What a query asks for ([voicemailData.ts], [ivrData.ts]) *)

Record Scope := { sc_customerId : option Z; sc_key : string }.

Inductive staff_choice := every_customer | one_customer (id : Z).

Definition tenantScope (ownCustomerId : Z) : Scope := Build_Scope None ("self:" +:+ print_int ownCustomerId).
Definition staffScope (customer : staff_choice) : Scope :=
  match customer with
  | every_customer => Build_Scope None "all"
  | one_customer id => Build_Scope (Some id) ("c:" +:+ print_int id)
  end.
Definition ivrTenantScope (ownCustomerId : Z) : Scope := Build_Scope None ("self:" +:+ print_int ownCustomerId).
Definition ivrStaffScope (customerId : Z) : Scope := Build_Scope (Some customerId) ("c:" +:+ print_int customerId).

(** The scope the voicemail pages and the sidebar ask under; [choice] is the
    customer of the staff console, when one is chosen. *)
Definition voicemail_scope (a : Auth) (choice : option staff_choice) : option Scope :=
  if isSupport a then None
  else match effectiveCustomer a with
       | Some c =>
           if isAdmin a then staffScope <$> choice
           else Some (if isActualAdmin a then staffScope (one_customer (ec_id c)) else tenantScope (ec_id c))
       | None => if isAdmin a then staffScope <$> choice else None
       end.

(** The same of the IVR pages, which have no view of every customer. *)
Definition ivr_scope (a : Auth) (choice : option staff_choice) : option Scope :=
  let console := match choice with Some (one_customer id) => Some (ivrStaffScope id) | _ => None end in
  if isSupport a then None
  else match effectiveCustomer a with
       | Some c =>
           if isAdmin a then console
           else Some (if isActualAdmin a then ivrStaffScope (ec_id c) else ivrTenantScope (ec_id c))
       | None => if isAdmin a then console else None
       end.

(** ** The session *)

Record Session := {
  ss_auth : Auth;
  ss_browser : Browser;
  ss_validating : option string;
  ss_logins : nat;
  ss_refreshes : list (option string);
  ss_cache : list (string * Z * option Z);
}.

(** The provider mounts: a token that was kept is checked first. *)
Definition mount (b : Browser) : Session :=
  let kept := match br_token b with Some t => if t ==? "" then None else Some t | None => None end in
  {| ss_auth := Build_Auth None (br_token b) (match kept with Some _ => true | None => false end) false None;
     ss_browser := Build_Browser (br_token b) None; ss_validating := kept; ss_logins := 0; ss_refreshes := []; ss_cache := [] |}.

Definition setAuth (user : option User) (token : option string) (s : Session) : Session :=
  let a := ss_auth s in
  Build_Session (Build_Auth user token (au_isLoading a) (au_customerViewMode a) (au_previewCustomer a))
    (ss_browser s) (ss_validating s) (ss_logins s) (ss_refreshes s) (ss_cache s).
Definition setIsLoading (b : bool) (s : Session) : Session :=
  let a := ss_auth s in
  Build_Session (Build_Auth (au_user a) (au_token a) b (au_customerViewMode a) (au_previewCustomer a))
    (ss_browser s) (ss_validating s) (ss_logins s) (ss_refreshes s) (ss_cache s).
Definition setView (customerViewMode : bool) (preview : option EffectiveCustomer) (s : Session) : Session :=
  let a := ss_auth s in
  Build_Session (Build_Auth (au_user a) (au_token a) (au_isLoading a) customerViewMode preview)
    (ss_browser s) (ss_validating s) (ss_logins s) (ss_refreshes s) (ss_cache s).
Definition setBrowser (b : Browser) (s : Session) : Session :=
  Build_Session (ss_auth s) b (ss_validating s) (ss_logins s) (ss_refreshes s) (ss_cache s).
Definition setPromises (validating : option string) (logins : nat) (refreshes : list (option string)) (s : Session) : Session :=
  Build_Session (ss_auth s) (ss_browser s) validating logins refreshes (ss_cache s).
Definition setCache (c : list (string * Z * option Z)) (s : Session) : Session :=
  Build_Session (ss_auth s) (ss_browser s) (ss_validating s) (ss_logins s) (ss_refreshes s) c.

(** [localStorage.setItem] and [removeItem] of the token. *)
Definition setToken (t : option string) (b : Browser) : Browser := Build_Browser t (br_location b).

Section Server.
Context (num_text : num → string).

(** The claims of a token: user, role and customer as they were when it was
    issued.  The server answers every request by them, but for the profile. *)
Context (owner : string → Z * string * option Z).

Definition identity_of (u : User) : Z * string * option Z := (us_id u, us_role u, us_customer_id u).

(** An answer to [GET /auth/me] sent with a token: the row the database has
    now of the token's user, whose role and customer may have changed since,
    or a failure. *)
Definition me_answer (token : option string) (answer : option Response) (b : Browser) : option (outcome User * Browser) :=
  match apiRequest_answer num_text answer b with
  | (returned v, b) =>
      match token, user_view v with
      | Some t, Some u => if decide (us_id u = (owner t).1.1) then Some (returned u, b) else None
      | _, _ => None
      end
  | (threw e, b) => Some (threw e, b)
  end.

(** The mount effect's [then], [catch] and [finally]. *)
Definition validated (persisted : string) (answer : option Response) (s : Session) : option Session :=
  '(result, b) ← me_answer (Some persisted) answer (ss_browser s);
  let s := setPromises None (ss_logins s) (ss_refreshes s) (setBrowser b s) in
  let s := match result with
           | returned me => setAuth (Some me) (Some persisted) s
           | threw (api_error e) =>
               if ae_status e =? 401 then setAuth None None (setBrowser (setToken None (ss_browser s)) s) else s
           | threw other_error => s
           end in
  Some (setIsLoading false s).

(** [login], up to its [await] and after it: the token is issued from the row
    that is answered. *)
Definition login (s : Session) : Session := setPromises (ss_validating s) (S (ss_logins s)) (ss_refreshes s) s.
Definition signed_in (answer : option Response) (s : Session) : option Session :=
  let s := setPromises (ss_validating s) (pred (ss_logins s)) (ss_refreshes s) s in
  match apiRequest_answer num_text answer (ss_browser s) with
  | (returned v, b) =>
      '(token, u) ← login_view v;
      if decide (identity_of u = owner token)
      then Some (setAuth (Some u) (Some token) (setBrowser (setToken (Some token) b) (setCache [] s)))
      else None
  | (threw _, b) => Some (setBrowser b s)
  end.

Definition logout (s : Session) : Session :=
  setCache [] (setView false None (setAuth None None (setBrowser (setToken None (ss_browser s)) s))).

(** [refreshUser], up to its [await] and after it. *)
Definition refreshUser (s : Session) : Session :=
  setPromises (ss_validating s) (ss_logins s) (ss_refreshes s ++ [br_token (ss_browser s)]) s.
Definition refreshed (i : nat) (answer : option Response) (s : Session) : option Session :=
  token ← ss_refreshes s !! i;
  '(result, b) ← me_answer token answer (ss_browser s);
  let s := setPromises (ss_validating s) (ss_logins s) (delete i (ss_refreshes s)) (setBrowser b s) in
  Some (match result with returned me => setAuth (Some me) (au_token (ss_auth s)) s | threw _ => s end).

Definition toggleCustomerView (s : Session) : Session :=
  setView (negb (au_customerViewMode (ss_auth s))) (au_previewCustomer (ss_auth s)) s.

(** The customer the server answers a list request about, [None] for every
    customer: staff name one, a tenant has one ([vm_scope] and
    [_list_customer] of [docker/api/src/routers/voicemail.py]; [ivr.py] reads
    a customer that is named alike). *)
Definition served (who : Z * string * option Z) (customerId : option Z) : option (option Z) :=
  let role := who.1.2 in
  if role ==? "admin" then Some customerId
  else if (role ==? "user") || (role ==? "readonly") then
    match who.2 with
    | Some own =>
        if own <=? 0 then None
        else match customerId with
             | Some id => if id =? own then Some (Some own) else None
             | None => Some (Some own)
             end
    | None => None
    end
  else None.

(** A query's answer enters the cache: its key, whose token it was fetched
    with, and the customer it is about. *)
Definition fetched (sc : Scope) (s : Session) : Session :=
  match br_token (ss_browser s) with
  | None => s
  | Some t =>
      match served (owner t) (sc_customerId sc) with
      | Some customer => setCache ((sc_key sc, (owner t).1.1, customer) :: ss_cache s) s
      | None => s
      end
  end.

(** ** Events *)

Inductive session_event :=
  | se_validated (answer : option Response)
  | se_login
  | se_signed_in (answer : option Response)
  | se_logout
  | se_refresh
  | se_refreshed (i : nat) (answer : option Response)
  | se_toggle
  | se_preview (customer : option EffectiveCustomer)
  | se_voicemail (choice : option staff_choice)
  | se_ivr (choice : option staff_choice)
  | se_refused
  | se_reload.

(** Signing in is offered to a visitor once no token is being checked, the
    toggle to admins, the preview picker in customer view, the rest to whoever
    is signed in; any request may be answered 401. *)
Definition session_step (s : Session) (e : session_event) : option Session :=
  let a := ss_auth s in
  let signed := isAuthenticated a && negb (au_isLoading a) in
  match e with
  | se_validated answer => match ss_validating s with Some t => validated t answer s | None => None end
  | se_login => if negb (isAuthenticated a) && negb (au_isLoading a) then Some (login s) else None
  | se_signed_in answer => match ss_logins s with S _ => signed_in answer s | O => None end
  | se_logout => if signed then Some (logout s) else None
  | se_refresh => if signed then Some (refreshUser s) else None
  | se_refreshed i answer => refreshed i answer s
  | se_toggle => if signed && isActualAdmin a then Some (toggleCustomerView s) else None
  | se_preview c =>
      if signed && isActualAdmin a && au_customerViewMode a then Some (setView (au_customerViewMode a) c s) else None
  | se_voicemail choice =>
      if signed then match voicemail_scope a choice with Some sc => Some (fetched sc s) | None => None end else None
  | se_ivr choice =>
      if signed then match ivr_scope a choice with Some sc => Some (fetched sc s) | None => None end else None
  | se_refused => Some (setBrowser (sign_out (ss_browser s)) s)
  | se_reload => Some (mount (ss_browser s))
  end.

Fixpoint session_run (s : Session) (events : list session_event) : option Session :=
  match events with
  | [] => Some s
  | e :: events => match session_step s e with Some s => session_run s events | None => None end
  end.

End Server.
