(* ===== verification/SessionOk.v ===== *)
(** * Accounts and sessions

    Theorems on [Session]: a signed-in user and the token in use belong
    together, what the cache holds is what the server would answer the same
    page, and signing out is final. *)
From S2P Require Import Prelude JsString JsValue Format IvrError ApiClient Session.

Local Open Scope string_scope.
Local Open Scope Z_scope.
Local Open Scope list_scope.

(** ** Keys of the cache *)

#[export] Instance print_int_inj : Inj (=) (=) print_int.
Proof. intros a b. apply (inj pretty). Qed.

(** The customer a key stands for. *)
Inductive key_of : string → option Z → Prop :=
  | key_self id : key_of ("self:" +:+ print_int id) (Some id)
  | key_one id : key_of ("c:" +:+ print_int id) (Some id)
  | key_all : key_of "all" None.

Lemma key_of_fun k c c' : key_of k c → key_of k c' → c = c'.
Proof.
  intros H H'. destruct H as [id|id|]; inversion H' as [id' E|id' E|E]; cbn in E; simplify_eq; done || by f_equal; apply (inj print_int).
Qed.

(** The customer a request under a key names. *)
Inductive key_asks : string → option Z → Prop :=
  | asks_self id : key_asks ("self:" +:+ print_int id) None
  | asks_one id : key_asks ("c:" +:+ print_int id) (Some id)
  | asks_all : key_asks "all" None.

Lemma key_asks_fun k c c' : key_asks k c → key_asks k c' → c = c'.
Proof.
  intros H H'. destruct H as [id|id|]; inversion H' as [id' E|id' E|E]; cbn in E; simplify_eq; done || by f_equal; apply (inj print_int).
Qed.

(** Which customers a user may read, by what the server knows of them. *)
Definition may_read (who : Z * string * option Z) (c : option Z) : Prop :=
  who.1.2 = "admin" ∨
  ((who.1.2 = "user" ∨ who.1.2 = "readonly") ∧ ∃ id, who.2 = Some id ∧ c = Some id ∧ 0 < id).

Section Server.
Context (num_text : num → string) (owner : string → Z * string * option Z).

(** ** Every session *)

(** While a token is being checked nobody is signed in and nothing else is
    under way. *)
Record orderly (s : Session) : Prop := {
  ord_loading : au_isLoading (ss_auth s) = true ↔ is_Some (ss_validating s);
  ord_alone : is_Some (ss_validating s) →
              au_user (ss_auth s) = None ∧ au_token (ss_auth s) = ss_validating s ∧ ss_logins s = 0%nat ∧
              ss_refreshes s = [];
}.

Lemma orderly_mount b : orderly (mount b).
Proof.
  constructor; unfold mount; cbn; destruct (br_token b) as [t|]; cbn; try destruct (t ==? "") eqn:E; cbn;
    (split; [done|by intros [? [=]]]) || (split; [by eexists|done]) || (intros [? [=]]; done) || done.
Qed.

(** The shape of every step: what [me_answer] can be. *)
Lemma me_answer_returned token answer b u b' :
  me_answer num_text owner token answer b = Some (returned u, b') →
  ∃ t, token = Some t ∧ us_id u = (owner t).1.1 ∧ b' = b.
Proof.
  unfold me_answer, apiRequest_answer, json_result. intros H.
  destruct answer as [r|]; [|done]. destruct (rs_status r =? 401); [done|]. destruct (negb (rs_ok r)); [done|].
  destruct (rs_status r =? 204); [by destruct token|]. destruct (response_json r) as [[v|] ?]; [|done].
  destruct token as [t|]; [|done]. destruct (user_view v) as [u'|]; [|done]. case_decide; [|done]. simplify_eq. by eexists.
Qed.

Lemma me_answer_threw token answer b e b' :
  me_answer num_text owner token answer b = Some (threw e, b') → b' = b ∨ b' = sign_out b.
Proof.
  unfold me_answer, apiRequest_answer, json_result. intros H.
  destruct answer as [r|]; [|simplify_eq; by left]. destruct (rs_status r =? 401); [simplify_eq; by right|].
  destruct (negb (rs_ok r)); [simplify_eq; by left|].
  destruct (rs_status r =? 204); [by destruct token|]. destruct (response_json r) as [[v|] ?]; [|simplify_eq; by left].
  destruct token as [t|]; [|done]. destruct (user_view v) as [u'|]; [|done]. by case_decide.
Qed.

(** [validated], [signed_in] and [refreshed] on each outcome. *)
Lemma validated_inv t answer s s' :
  validated num_text owner t answer s = Some s' →
  ss_validating s' = None ∧ ss_logins s' = ss_logins s ∧ ss_refreshes s' = ss_refreshes s ∧ ss_cache s' = ss_cache s ∧
  au_isLoading (ss_auth s') = false ∧
  ((∃ u, us_id u = (owner t).1.1 ∧ au_user (ss_auth s') = Some u ∧ au_token (ss_auth s') = Some t ∧
         ss_browser s' = ss_browser s) ∨
   (au_user (ss_auth s') = None ∧ au_token (ss_auth s') = None ∧ br_token (ss_browser s') = None) ∨
   (au_user (ss_auth s') = au_user (ss_auth s) ∧ au_token (ss_auth s') = au_token (ss_auth s) ∧
    (ss_browser s' = ss_browser s ∨ ss_browser s' = sign_out (ss_browser s)))).
Proof.
  unfold validated. destruct (me_answer _ _ _ _ _) as [[[u|e] b]|] eqn:E; [| |done]; cbn; intros [= <-].
  - apply me_answer_returned in E as (t' & [= <-] & Hu & ->). repeat split; try done. left. by exists u.
  - apply me_answer_threw in E. destruct e as [e|]; cbn; [|repeat split; try done; right; by right].
    destruct (ae_status e =? 401); cbn; repeat split; try done; [right; by left|right; by right].
Qed.

Lemma signed_in_inv answer s s' :
  signed_in num_text owner answer s = Some s' →
  ss_validating s' = ss_validating s ∧ ss_logins s' = pred (ss_logins s) ∧ ss_refreshes s' = ss_refreshes s ∧
  au_isLoading (ss_auth s') = au_isLoading (ss_auth s) ∧
  ((∃ u t, identity_of u = owner t ∧ au_user (ss_auth s') = Some u ∧ au_token (ss_auth s') = Some t ∧
           br_token (ss_browser s') = Some t ∧ ss_cache s' = []) ∨
   (ss_auth s' = ss_auth s ∧ ss_cache s' = ss_cache s ∧
    (ss_browser s' = ss_browser s ∨ ss_browser s' = sign_out (ss_browser s)))).
Proof.
  unfold signed_in. cbn. destruct (apiRequest_answer _ _ _) as [[v|e] b] eqn:E.
  - destruct (login_view v) as [[token u]|]; [|done]. cbn. case_decide; [|done]. intros [= <-]. cbn.
    repeat split; try done. left. by exists u, token.
  - intros [= <-]. cbn. repeat split; try done. right. repeat split; try done.
    unfold apiRequest_answer, json_result in E. destruct answer as [r|]; [|simplify_eq; by left].
    destruct (rs_status r =? 401); [simplify_eq; by right|]. destruct (negb (rs_ok r)); [simplify_eq; by left|].
    destruct (rs_status r =? 204); [done|]. destruct (response_json r) as [[v|] ?]; simplify_eq; by left.
Qed.

Lemma refreshed_inv i answer s s' :
  refreshed num_text owner i answer s = Some s' →
  ∃ token, ss_refreshes s !! i = Some token ∧
  ss_validating s' = ss_validating s ∧ ss_logins s' = ss_logins s ∧ ss_cache s' = ss_cache s ∧
  au_isLoading (ss_auth s') = au_isLoading (ss_auth s) ∧ au_token (ss_auth s') = au_token (ss_auth s) ∧
  ss_refreshes s' = delete i (ss_refreshes s) ∧
  au_customerViewMode (ss_auth s') = au_customerViewMode (ss_auth s) ∧
  au_previewCustomer (ss_auth s') = au_previewCustomer (ss_auth s) ∧
  ((∃ u t, token = Some t ∧ us_id u = (owner t).1.1 ∧ au_user (ss_auth s') = Some u ∧ ss_browser s' = ss_browser s) ∨
   (au_user (ss_auth s') = au_user (ss_auth s) ∧
    (ss_browser s' = ss_browser s ∨ ss_browser s' = sign_out (ss_browser s)))).
Proof.
  unfold refreshed. destruct (ss_refreshes s !! i) as [token|] eqn:Ei; [|done]. cbn.
  destruct (me_answer _ _ _ _ _) as [[[u|e] b]|] eqn:E; [| |done]; cbn; intros [= <-]; exists token; repeat split; try done.
  - apply me_answer_returned in E as (t & -> & Hu & ->). left. by exists u, t.
  - apply me_answer_threw in E. by right.
Qed.

Lemma not_signed s : isAuthenticated (ss_auth s) && negb (au_isLoading (ss_auth s)) = true →
  is_Some (au_user (ss_auth s)) ∧ is_Some (au_token (ss_auth s)) ∧ au_isLoading (ss_auth s) = false.
Proof.
  unfold isAuthenticated. destruct (au_user _), (au_token _); cbn; try done.
  intros H. apply negb_true_iff in H. repeat split; done || by eexists.
Qed.

(** A session that is not being checked stays so until it is reloaded. *)
Lemma orderly_quiet s : au_isLoading (ss_auth s) = false → ss_validating s = None → orderly s.
Proof. intros E1 E2. constructor; rewrite E2; [rewrite E1; split; [done|by intros [? [=]]]|by intros [? [=]]]. Qed.

Lemma orderly_same s s' :
  orderly s → au_isLoading (ss_auth s') = au_isLoading (ss_auth s) → ss_validating s' = ss_validating s →
  (is_Some (ss_validating s) → au_user (ss_auth s') = au_user (ss_auth s) ∧ au_token (ss_auth s') = au_token (ss_auth s) ∧
    ss_logins s' = ss_logins s ∧ ss_refreshes s' = ss_refreshes s) → orderly s'.
Proof.
  intros [Hl Ha] E1 E2 H. constructor; rewrite E2; [by rewrite E1|].
  intros Hv. destruct (H Hv) as (-> & -> & -> & ->). by apply Ha.
Qed.

Lemma orderly_step s e s' : orderly s → session_step num_text owner s e = Some s' → orderly s'.
Proof.
  intros Ho. pose proof Ho as [Hl Ha].
  assert (Hidle : au_isLoading (ss_auth s) = false → ss_validating s = None).
  { intros E. destruct (ss_validating s); [|done]. assert (au_isLoading (ss_auth s) = true) by (apply Hl; by eexists). congruence. }
  destruct e; cbn [session_step]; intros H.
  - destruct (ss_validating s) as [t|] eqn:Ev; [|done]. apply validated_inv in H as (E1 & _ & _ & _ & E2 & _).
    by apply orderly_quiet.
  - case_match eqn:E; [|done]. apply andb_true_iff in E as [_ E]. apply negb_true_iff in E. simplify_eq.
    apply orderly_quiet; [done|by apply Hidle].
  - destruct (ss_logins s) eqn:El; [done|].
    assert (Hv : ss_validating s = None).
    { destruct (ss_validating s) eqn:Ev; [|done]. destruct (Ha ltac:(by eexists)) as (_ & _ & ? & _). lia. }
    apply signed_in_inv in H as (E1 & _ & _ & E2 & _). apply orderly_quiet; [|congruence].
    rewrite E2. destruct (au_isLoading (ss_auth s)); [|done]. destruct (proj1 Hl eq_refl). congruence.
  - case_match eqn:E; [|done]. apply not_signed in E as (_ & _ & E). simplify_eq. apply orderly_quiet; [done|by apply Hidle].
  - case_match eqn:E; [|done]. apply not_signed in E as (_ & _ & E). simplify_eq. apply orderly_quiet; [done|by apply Hidle].
  - apply refreshed_inv in H as (token & Ei & E1 & E2 & _ & E3 & _). apply (orderly_same s); try done.
    intros Hv. destruct (Ha Hv) as (_ & _ & _ & E). by rewrite E in Ei.
  - case_match eqn:E; [|done]. apply andb_true_iff in E as [E _]. apply not_signed in E as (_ & _ & E). simplify_eq.
    apply orderly_quiet; [done|by apply Hidle].
  - case_match eqn:E; [|done]. apply andb_true_iff in E as [E _]. apply andb_true_iff in E as [E _].
    apply not_signed in E as (_ & _ & E). simplify_eq. apply orderly_quiet; [done|by apply Hidle].
  - case_match eqn:E; [|done]. apply not_signed in E as (_ & _ & E). case_match; [|done]. simplify_eq.
    unfold fetched. repeat case_match; apply orderly_quiet; done || by apply Hidle.
  - case_match eqn:E; [|done]. apply not_signed in E as (_ & _ & E). case_match; [|done]. simplify_eq.
    unfold fetched. repeat case_match; apply orderly_quiet; done || by apply Hidle.
  - simplify_eq. by apply (orderly_same s).
  - simplify_eq. apply orderly_mount.
Qed.

(** ** Sessions whose answers arrive in time *)

(** A profile read again is not answered after the session it was asked in. *)
Definition timely (s : Session) (e : session_event) : bool :=
  match e with
  | se_refreshed i _ => bool_decide (ss_refreshes s !! i = Some (au_token (ss_auth s)))
  | _ => true
  end.

Fixpoint timely_run (s : Session) (events : list session_event) : option Session :=
  match events with
  | [] => Some s
  | e :: events =>
      if timely s e then match session_step num_text owner s e with Some s => timely_run s events | None => None end
      else None
  end.

(** An entry the requests of a user made with a token: what the server answers
    that token under the entry's key. *)
Definition own_entry (who : Z) (t : string) (entry : string * Z * option Z) : Prop :=
  entry.1.2 = who ∧ ∃ asked, key_asks entry.1.1 asked ∧ served (owner t) asked = Some entry.2.

Record sound (s : Session) : Prop := {
  snd_orderly : orderly s;
  snd_user : ∀ u, au_user (ss_auth s) = Some u →
             ∃ t, au_token (ss_auth s) = Some t ∧ us_id u = (owner t).1.1;
  snd_stored : br_token (ss_browser s) = au_token (ss_auth s) ∨
               (br_token (ss_browser s) = None ∧ br_location (ss_browser s) = Some "/");
  snd_cache : ∀ entry, entry ∈ ss_cache s →
              ∃ u t, au_user (ss_auth s) = Some u ∧ au_token (ss_auth s) = Some t ∧ own_entry (us_id u) t entry;
}.

(** What a page asks for: staff a customer or all of them by name, a tenant
    nobody by name. *)
Lemma page_scope u a sc :
  au_user a = Some u → (∃ choice, voicemail_scope a choice = Some sc) ∨ (∃ choice, ivr_scope a choice = Some sc) →
  (us_role u = "admin" ∧ key_of (sc_key sc) (sc_customerId sc)) ∨
  (us_role u ≠ "admin" ∧ ∃ id, us_customer_id u = Some id ∧ sc = tenantScope id).
Proof.
  intros Hu Hsc.
  assert (Hsup : isSupport a = (us_role u ==? "support")) by (unfold isSupport, has_role; by rewrite Hu).
  assert (Hadm : isActualAdmin a = (us_role u ==? "admin")) by (unfold isActualAdmin, has_role; by rewrite Hu).
  unfold voicemail_scope, ivr_scope, effectiveCustomer, isAdmin, isActualAdmin in Hsc.
  unfold isActualAdmin in Hadm. rewrite Hsup, Hadm, Hu in Hsc.
  destruct (us_role u ==? "support") eqn:Es; [by destruct Hsc as [[? [=]]|[? [=]]]|].
  destruct (us_role u ==? "admin") eqn:Ea; cbn [andb] in Hsc.
  - left. apply bool_decide_eq_true in Ea. split; [done|]. destruct (au_customerViewMode a); cbn [negb] in Hsc.
    + destruct (au_previewCustomer a) as [c|]; [|by destruct Hsc as [[? [=]]|[? [=]]]].
      destruct Hsc as [[? [= <-]]|[? [= <-]]]; constructor.
    + destruct Hsc as [[[[|id]|] [= <-]]|[[[|id]|] [= <-]]]; constructor.
  - right. apply bool_decide_eq_false in Ea. split; [done|].
    destruct (us_customer_id u) as [id|]; [|by destruct Hsc as [[? [=]]|[? [=]]]].
    exists id. split; [done|]. by destruct Hsc as [[? [= <-]]|[? [= <-]]].
Qed.

(** The answer to a page's request: the customer its key stands for, if the
    user may read it. *)
Lemma page_served u a sc c :
  au_user a = Some u → (∃ choice, voicemail_scope a choice = Some sc) ∨ (∃ choice, ivr_scope a choice = Some sc) →
  served (identity_of u) (sc_customerId sc) = Some c ↔ key_of (sc_key sc) c ∧ may_read (identity_of u) c.
Proof.
  intros Hu Hsc. unfold served, may_read, identity_of; cbn.
  destruct (page_scope u a sc Hu Hsc) as [[Er Hk]|(Er & id & Ei & ->)].
  - rewrite Er. cbn. split; [intros [= <-]; auto|]. intros [Hk' _]. f_equal. by eapply key_of_fun.
  - rewrite (bool_decide_eq_false_2 _ Er), Ei. cbn. split.
    + destruct (_ || _) eqn:E; [|done]. destruct (id <=? 0) eqn:El; [done|]. intros [= <-]. split; [constructor|].
      right. apply orb_true_iff in E. rewrite !bool_decide_eq_true in E. split; [done|]. exists id. apply Z.leb_gt in El. auto.
    + intros [_ [?|[E (id' & [= <-] & -> & Hpos)]]]; [done|].
      assert ((us_role u ==? "user") || (us_role u ==? "readonly") = true) as -> by (rewrite orb_true_iff, !bool_decide_eq_true; done).
      by rewrite (proj2 (Z.leb_gt _ _) Hpos).
Qed.

(** A page asks under its key. *)
Lemma page_asks a sc :
  (∃ choice, voicemail_scope a choice = Some sc) ∨ (∃ choice, ivr_scope a choice = Some sc) →
  key_asks (sc_key sc) (sc_customerId sc).
Proof.
  unfold voicemail_scope, ivr_scope. intros [[choice H]|[choice H]]; destruct (isSupport a); try done;
    (destruct (effectiveCustomer a) as [c|]; [destruct (isAdmin a); [|destruct (isActualAdmin a)]|destruct (isAdmin a); [|done]]);
    try (destruct choice as [[|id]|]; try done); injection H as <-; constructor.
Qed.

Lemma sound_mount b : sound (mount b).
Proof. constructor; [apply orderly_mount|done|by left|]. intros entry H. by apply elem_of_nil in H. Qed.

(** Nothing the invariant speaks of has changed. *)
Lemma sound_same s s' :
  sound s → orderly s' → au_user (ss_auth s') = au_user (ss_auth s) → au_token (ss_auth s') = au_token (ss_auth s) →
  ss_browser s' = ss_browser s ∨ ss_browser s' = sign_out (ss_browser s) → ss_cache s' = ss_cache s → sound s'.
Proof.
  intros [_ Hu Hb Hc] Ho E1 E2 E3 E4. constructor; rewrite ?E1, ?E2, ?E4; try done.
  destruct E3 as [->| ->]; [done|by right].
Qed.

Lemma sound_fetched s sc :
  sound s → is_Some (au_user (ss_auth s)) →
  (∃ choice, voicemail_scope (ss_auth s) choice = Some sc) ∨ (∃ choice, ivr_scope (ss_auth s) choice = Some sc) →
  orderly (fetched owner sc s) → sound (fetched owner sc s).
Proof.
  intros [_ Hu Hb Hc] [u Eu] Hsc Ho.
  assert (E : ss_auth (fetched owner sc s) = ss_auth s ∧ ss_browser (fetched owner sc s) = ss_browser s)
    by (unfold fetched; by repeat case_match).
  destruct E as [E1 E2]. constructor; rewrite ?E1, ?E2; try done.
  intros entry. unfold fetched. destruct (br_token (ss_browser s)) as [t|] eqn:Et; [|apply Hc].
  destruct (Hu _ Eu) as (t' & Et' & Hid).
  assert (t' = t) as -> by (destruct Hb as [Hb|[Hb _]]; congruence).
  destruct (served _ _) as [c|] eqn:Hserved; [|apply Hc].
  cbn. intros [->|He]%elem_of_cons; [|by apply Hc]. exists u, t. split_and!; [done..|].
  split; [done|]. exists (sc_customerId sc). split; [by eapply page_asks|done].
Qed.

Lemma sound_step s e s' : sound s → timely s e = true → session_step num_text owner s e = Some s' → sound s'.
Proof.
  intros Hs Ht H. pose proof (orderly_step _ _ _ (snd_orderly _ Hs) H) as Ho. pose proof Hs as [[Hl Ha] Hu Hb Hc].
  destruct e; cbn [session_step timely] in *.
  - destruct (ss_validating s) as [t|] eqn:Ev; [|done]. destruct (Ha ltac:(by eexists)) as (Eu & Et & _).
    apply validated_inv in H as (_ & _ & _ & Ec & _ & [(u & Hid & E1 & E2 & E3)|[(E1 & E2 & E3)|(E1 & E2 & E3)]]).
    + constructor; rewrite ?E1, ?E2, ?E3; [done| | |].
      * intros ? [= <-]. by exists t.
      * by rewrite <- Et.
      * intros entry He. rewrite Ec in He. destruct (Hc _ He) as (u' & ? & ? & _). congruence.
    + constructor; rewrite ?E1, ?E2, ?E3; [done|done|by left|].
      intros entry He. rewrite Ec in He. destruct (Hc _ He) as (u' & ? & ? & _). congruence.
    + by apply (sound_same s).
  - case_match; [|done]. simplify_eq. apply (sound_same s); try done. by left.
  - destruct (ss_logins s); [done|].
    apply signed_in_inv in H as (_ & _ & _ & _ & [(u & t & Hid & E1 & E2 & E3 & E4)|(E1 & E2 & E3)]).
    + constructor; rewrite ?E1, ?E2, ?E3, ?E4; [done| |by left|].
      * intros ? [= <-]. exists t. split; [done|]. by rewrite <- Hid.
      * intros entry He. by apply elem_of_nil in He.
    + apply (sound_same s); by rewrite ?E1.
  - case_match; [|done]. simplify_eq. constructor; [done|done|by left|]. intros entry He. by apply elem_of_nil in He.
  - case_match; [|done]. simplify_eq. apply (sound_same s); try done. by left.
  - apply bool_decide_eq_true in Ht.
    apply refreshed_inv in H as (token & Ei & _ & _ & Ec & _ & Et & _ & _ & _ & [(u & t & -> & Hid & E1 & E2)|(E1 & E2)]).
    + assert (Et1 : au_token (ss_auth s) = Some t) by congruence.
      constructor; rewrite ?E1, ?Et, ?E2, ?Ec; [done| |done|].
      * intros ? [= <-]. by exists t.
      * intros entry He. destruct (Hc _ He) as (u' & t' & Eu' & Et' & Hown & Hasked).
        destruct (Hu _ Eu') as (t2 & Et2 & Hid2). exists u, t. simplify_eq. split_and!; [done|done|].
        split; [congruence|done].
    + by apply (sound_same s).
  - case_match; [|done]. simplify_eq. apply (sound_same s); try done. by left.
  - case_match; [|done]. simplify_eq. apply (sound_same s); try done. by left.
  - case_match eqn:E; [|done]. apply not_signed in E as (Eu & _ & _). case_match eqn:Esc; [|done]. simplify_eq.
    apply sound_fetched; [done..| |done]. left. by eexists.
  - case_match eqn:E; [|done]. apply not_signed in E as (Eu & _ & _). case_match eqn:Esc; [|done]. simplify_eq.
    apply sound_fetched; [done..| |done]. right. by eexists.
  - simplify_eq. apply (sound_same s); try done. by right.
  - simplify_eq. apply sound_mount.
Qed.

Lemma sound_run s events s' : sound s → timely_run s events = Some s' → sound s'.
Proof.
  revert s. induction events as [|e events IH]; cbn; intros s Hs H; [by simplify_eq|].
  destruct (timely s e) eqn:Et; [|done]. destruct (session_step _ _ s e) as [s1|] eqn:E; [|done].
  eapply IH; [|done]. by eapply sound_step.
Qed.

(** C24 Whatever happens in a session (signing in and out, failed and late
    answers, refused tokens, previews, reloads, an account that is changed
    meanwhile), as long as a profile read again is not answered after its
    session: the user shown is the one the token in use was issued to, and
    every voicemail or IVR page that finds its key in the query cache is shown
    what the server would answer its own request with, sent with that token,
    which is what put it there.  While the profile shown still has the role
    and customer of the token, that is the customer the key names, and one the
    user may read ([moved_account] shows what happens otherwise). *)
Theorem session_accounts (b : Browser) (events : list session_event) (s : Session) :
  timely_run (mount b) events = Some s →
  (∀ u, au_user (ss_auth s) = Some u →
     ∃ t, au_token (ss_auth s) = Some t ∧ us_id u = (owner t).1.1 ∧
          (br_token (ss_browser s) = Some t ∨ br_location (ss_browser s) = Some "/")) ∧
  (∀ u t sc k who c,
     au_user (ss_auth s) = Some u → au_token (ss_auth s) = Some t →
     (∃ choice, voicemail_scope (ss_auth s) choice = Some sc) ∨ (∃ choice, ivr_scope (ss_auth s) choice = Some sc) →
     (k, who, c) ∈ ss_cache s → k = sc_key sc →
     who = us_id u ∧ served (owner t) (sc_customerId sc) = Some c ∧
     (identity_of u = owner t → key_of k c ∧ may_read (identity_of u) c)) ∧
  (au_user (ss_auth s) = None → ss_cache s = []).
Proof.
  intros H. pose proof (sound_run _ _ _ (sound_mount b) H) as [_ Hu Hb Hc]. split; [|split].
  - intros u Eu. destruct (Hu _ Eu) as (t & Et & Hid). exists t. split; [done|]. split; [done|].
    destruct Hb as [Hb|[_ Hb]]; [left; congruence|by right].
  - intros u t sc k who c Eu Et Hsc He ->. destruct (Hc _ He) as (u' & t' & Eu' & Et' & (Hw & asked & Hk & Hs)).
    cbn [fst snd] in *. simplify_eq. split; [done|].
    assert (asked = sc_customerId sc) as -> by (eapply key_asks_fun; [exact Hk|by eapply page_asks]).
    split; [done|]. intros Hid. rewrite <- Hid in Hs. by apply (page_served u _ sc c Eu Hsc).
  - intros En. destruct (ss_cache s) as [|entry c] eqn:E; [done|]. destruct (Hc entry) as (u & t & ? & _); [|congruence].
    left.
Qed.

(** ** Signing out *)

(** Nobody, until a sign-in succeeds. *)
Record nobody (s : Session) : Prop := {
  nb_token : au_token (ss_auth s) = None;
  nb_stored : br_token (ss_browser s) = None;
  nb_validating : ss_validating s = None;
  nb_cache : ss_cache s = [];
  nb_view : au_customerViewMode (ss_auth s) = false ∧ au_previewCustomer (ss_auth s) = None;
}.

(** No sign-in that succeeds. *)
Definition unsigned (e : session_event) : bool :=
  match e with se_signed_in (Some r) => negb (rs_ok r) | _ => true end.

Lemma nobody_out s : nobody s → isAuthenticated (ss_auth s) = false.
Proof. intros [E _ _ _ _]. unfold isAuthenticated. rewrite E. by destruct (au_user _). Qed.

(** A sign-in that fails changes nothing but, at 401, the stored token. *)
Lemma signed_in_fails answer s s' :
  unsigned (se_signed_in answer) = true → signed_in num_text owner answer s = Some s' →
  ss_auth s' = ss_auth s ∧ ss_validating s' = ss_validating s ∧ ss_cache s' = ss_cache s ∧
  (ss_browser s' = ss_browser s ∨ ss_browser s' = sign_out (ss_browser s)).
Proof.
  unfold signed_in, apiRequest_answer. cbn. intros He H. destruct answer as [r|]; cbn in H; [|simplify_eq; cbn; auto].
  rewrite He in H. destruct (rs_status r =? 401); cbn in H; simplify_eq; cbn; auto.
Qed.

Lemma nobody_step s e s' : nobody s → unsigned e = true → session_step num_text owner s e = Some s' → nobody s'.
Proof.
  intros Hn He. pose proof Hn as [E1 E2 E3 E4 [E5 E6]].
  assert (Hs : isAuthenticated (ss_auth s) = false) by by apply nobody_out.
  destruct e; cbn [session_step] in *; rewrite ?Hs, ?E3; cbn [andb negb]; intros H; try done.
  - destruct (negb _); [|done]. simplify_eq. by constructor.
  - destruct (ss_logins s); [done|]. apply signed_in_fails in H as (Ea & Ev & Ec & Eb); [|done].
    constructor; rewrite ?Ea, ?Ev, ?Ec; try done. by destruct Eb as [-> | ->].
  - apply refreshed_inv in H as (token & _ & Ev & _ & Ec & _ & Et & _ & Em & Ep & H).
    constructor; rewrite ?Et, ?Ev, ?Ec, ?Em, ?Ep; try done.
    by destruct H as [(? & ? & _ & _ & _ & ->)|(_ & [-> | ->])].
  - simplify_eq. by constructor.
  - simplify_eq. constructor; unfold mount; cbn; by rewrite ?E2.
Qed.

Lemma nobody_run s events s' :
  nobody s → forallb unsigned events = true → session_run num_text owner s events = Some s' → nobody s'.
Proof.
  revert s. induction events as [|e events IH]; cbn; intros s Hs Hu H; [by simplify_eq|].
  apply andb_true_iff in Hu as [He Hu]. destruct (session_step _ _ s e) as [s1|] eqn:E; [|done].
  eapply IH; [|done..]. by eapply nobody_step.
Qed.

Lemma orderly_run s events s' : orderly s → session_run num_text owner s events = Some s' → orderly s'.
Proof.
  revert s. induction events as [|e events IH]; cbn; intros s Hs H; [by simplify_eq|].
  destruct (session_step _ _ s e) as [s1|] eqn:E; [|done]. eapply IH; [|done]. by eapply orderly_step.
Qed.

Lemma nobody_logout s : orderly s → isAuthenticated (ss_auth s) && negb (au_isLoading (ss_auth s)) = true → nobody (logout s).
Proof.
  intros [Hl _] E. apply not_signed in E as (_ & _ & E). constructor; try done.
  cbn. destruct (ss_validating s); [|done]. pose proof (proj2 Hl ltac:(by eexists)). congruence.
Qed.

(** Signing out is final: whatever was under way (profile checks, profile
    reads, failing sign-ins, queries) and whatever is done next, until a
    sign-in succeeds nobody is signed in, no token is stored or held, a reload
    finds none, nothing is left in the cache, and no customer is previewed. *)
Theorem logout_is_final (b : Browser) (before after : list session_event) (s s' s'' : Session) :
  session_run num_text owner (mount b) before = Some s →
  session_step num_text owner s se_logout = Some s' →
  forallb unsigned after = true → session_run num_text owner s' after = Some s'' →
  isAuthenticated (ss_auth s'') = false ∧ au_token (ss_auth s'') = None ∧ br_token (ss_browser s'') = None ∧
  ss_cache s'' = [] ∧ au_customerViewMode (ss_auth s'') = false ∧ au_previewCustomer (ss_auth s'') = None.
Proof.
  intros H1 H2 Hu H3. pose proof (orderly_run _ _ _ (orderly_mount b) H1) as Ho. cbn [session_step] in H2.
  destruct (isAuthenticated _ && _) eqn:E; [|done]. injection H2 as <-.
  pose proof (nobody_run _ _ _ (nobody_logout _ Ho E) Hu H3) as Hn. pose proof (nobody_out _ Hn).
  by destruct Hn as [? ? ? ? [? ?]].
Qed.

End Server.

(** ** A session *)

(** The numbers of error bodies, which these answers do not print. *)
Definition no_print (n : num) : string := "".

Definition user_json (id : Z) (role : string) (customer : value) : value :=
  VObj [("id", vint id); ("email", vstr "a@example.com"); ("role", vstr role); ("customer_id", customer);
        ("name", vstr "Ann"); ("customer_name", vstr "Acme"); ("account_type", vstr "rcf")].
Definition answers (status : Z) (v : value) : option Response := Some (Build_Response status None "" (Some v) false).
Definition login_json (token : string) (user : value) : value := VObj [("access_token", vstr token); ("user", user)].

(** Two users: a tenant of customer 7 and an admin. *)
Definition sample_owner (token : string) : Z * string * option Z :=
  if token ==? "ann" then (1, "user", Some 7) else (2, "admin", None).
Definition ann : value := user_json 1 "user" (vint 7).
Definition admin_user : value := user_json 2 "admin" VNull.

Definition sample_events : list session_event :=
  [se_validated (answers 200 ann); se_voicemail None; se_refresh; se_refreshed 0 (answers 200 ann); se_logout;
   se_login; se_signed_in (answers 200 (login_json "root" admin_user)); se_voicemail (Some every_customer);
   se_toggle; se_preview (Some (Build_EffectiveCustomer 7 "Acme" (Some "rcf"))); se_ivr None].

(** The token Ann's browser kept, and the session it leads to. *)
Definition ann_kept : Browser := Build_Browser (Some "ann") None.
Definition sample_session : Session :=
  Eval vm_compute in default (mount ann_kept) (timely_run no_print sample_owner (mount ann_kept) sample_events).

Lemma session_accounts_witness :
  ss_cache sample_session = [("c:7", 2, Some 7); ("all", 2, None)] ∧
  (∀ u, au_user (ss_auth sample_session) = Some u →
     ∃ t, au_token (ss_auth sample_session) = Some t ∧ us_id u = (sample_owner t).1.1 ∧
          (br_token (ss_browser sample_session) = Some t ∨ br_location (ss_browser sample_session) = Some "/")).
Proof.
  split; [reflexivity|].
  refine (proj1 (session_accounts no_print sample_owner ann_kept sample_events sample_session _)). vm_compute. reflexivity.
Defined.

Definition until_logout : list session_event := [se_validated (answers 200 ann); se_voicemail None; se_refresh].
Definition after_logout : list session_event :=
  [se_refreshed 0 (answers 200 ann); se_login; se_signed_in (answers 401 VNull); se_reload].

Definition with_run (events : list session_event) (s : Session) : option Session := session_run no_print sample_owner s events.

(** Ann signed in, signed out, and what came of it. *)
Definition ann_in : Session := Eval vm_compute in default (mount ann_kept) (with_run until_logout (mount ann_kept)).
Definition ann_left : Session := Eval vm_compute in default (mount ann_kept) (with_run after_logout (logout ann_in)).

Lemma logout_is_final_witness : isAuthenticated (ss_auth ann_in) = true ∧ isAuthenticated (ss_auth ann_left) = false.
Proof.
  split; [reflexivity|].
  refine (proj1 (logout_is_final no_print sample_owner ann_kept until_logout after_logout ann_in (logout ann_in) ann_left
                   _ _ _ _)); vm_compute; reflexivity.
Defined.

(** A profile that was being read when Ann signed out comes in after the admin
    has signed in: Ann is shown, with the admin's token. *)
Example late_profile_of_another :
  (s ← with_run [se_validated (answers 200 ann); se_refresh; se_logout; se_login;
                 se_signed_in (answers 200 (login_json "root" admin_user)); se_refreshed 0 (answers 200 ann)]
         (mount ann_kept);
   Some (us_id <$> au_user (ss_auth s), au_token (ss_auth s))) = Some (Some 1, Some "root").
Proof. vm_compute. reflexivity. Qed.

(** Ann is moved from customer 7 to customer 8, and her profile is read again:
    the pages now ask under the key of 8, but the token still says 7, so the
    mailboxes of 7 are shown, and kept, as those of 8. *)
Example moved_account :
  (s ← with_run [se_validated (answers 200 ann); se_refresh; se_refreshed 0 (answers 200 (user_json 1 "user" (vint 8)));
                 se_voicemail None] (mount ann_kept);
   Some (us_customer_id <$> au_user (ss_auth s), ss_cache s)) = Some (Some (Some 8), [("self:8", 1, Some 7)]).
Proof. vm_compute. reflexivity. Qed.

(** A wrong password: the client takes the 401 for an expired session and
    sends the page away, whose message then says so. *)
Example wrong_password_reloads :
  (s ← with_run [se_login; se_signed_in (answers 401 (VObj [("detail", vstr "Incorrect email or password")]))]
         (mount (Build_Browser None None));
   Some (br_location (ss_browser s))) = Some (Some "/") ∧
  (apiRequest_answer no_print (answers 401 (VObj [("detail", vstr "Incorrect email or password")])) (Build_Browser None None)).1
  = threw SESSION_EXPIRED.
Proof. split; vm_compute; reflexivity. Qed.

(** Mistyping the current password to change it: the server answers 401, and
    the client signs the user out. *)
Example wrong_current_password_signs_out :
  apiRequest_answer no_print (answers 401 (VObj [("detail", vstr "Current password is incorrect")])) ann_kept
  = (threw SESSION_EXPIRED, Build_Browser None (Some "/")).
Proof. reflexivity. Qed.
