(* ===== verification/Routes.v ===== *)
(** * Where a page leads ([App.tsx] and the route guards)

    The route table, the guards of [components/auth/], the entries of the
    pages that pick whom they are for, and [productHome]: what a location
    shows to a session, or where it sends it.  A location is the path as its
    segments, the search parameters, the hash, and what [DashboardPage] reads of
    the location a guard came from. *)
From S2P Require Import Prelude JsString JsValue Format SipText IvrError ApiClient Session.

Local Open Scope string_scope.
Local Open Scope Z_scope.
Local Open Scope list_scope.

(** [config/features.ts] *)
Definition API_CALLING_ENABLED : bool := false.

(** ** Who goes where ([utils/productHome.ts], [utils/reportingAccess.ts]) *)

Definition productHome (user : option User) (effectiveAdmin : bool) : string :=
  match user with
  | None => "/rcf"
  | Some u =>
      if effectiveAdmin then "/dashboard"
      else if us_role u ==? "support" then "/troubleshooting"
      else
        let hasAccount := match us_customer_id u with Some _ => true | None => us_role u ==? "admin" end in
        if negb hasAccount then "/my-account"
        else if us_account_type u ==? Some "trunk" then "/trunks"
        else if us_account_type u ==? Some "api" then (if API_CALLING_ENABLED then "/api-dids" else "/my-account")
        else "/dashboard"
  end.

Definition REPORTING_ACCOUNT_TYPES : list string := ["rcf"; "trunk"; "hybrid"].

Definition canSeeReporting (user : option User) : bool :=
  match user with
  | None => false
  | Some u =>
      if us_role u ==? "admin" then true
      else if us_role u ==? "support" then false
      else match us_account_type u with Some t => includes REPORTING_ACCOUNT_TYPES t | None => false end
  end.

(** ** Locations *)

Record Location := {
  lc_path : list string;
  lc_params : list (string * string);
  lc_hash : string;
  lc_from : option (list string * list (string * string));
}.

Definition at_path (path : list string) : Location := Build_Location path [] "" None.

(** A target in the code's own text: ["/ivr"] is the path [["ivr"]]. *)
Definition to_path (href : string) : Location :=
  at_path (List.filter (λ seg, seg !=? "") (split_on "/" href)).

(** The segments as the router compares them, in any case. *)
Definition matches (path : list string) (l : Location) : bool := List.map lower (lc_path l) ==? path.

(** What a location shows. *)
Inductive viewer := v_tenant | v_preview | v_admin.

Inductive page :=
  | pg_landing
  | pg_splash
  | pg_spinner
  | pg_preview_prompt
  | pg_account_dashboard (customer : Z) (v : viewer)
  | pg_admin_dashboard
  | pg_customer_numbers (customer : Z) (staff : bool)
  | pg_rcf_console
  | pg_api_dids
  | pg_trunks
  | pg_voicemail (customer : Z) (staff : bool)
  | pg_voicemail_console
  | pg_reporting
  | pg_guides (topic : option string)
  | pg_api_docs (section : string)
  | pg_calls (staff_route : bool)
  | pg_my_account
  | pg_troubleshooting
  | pg_ivr_home (sc : Scope) (v : viewer)
  | pg_ivr_builder (sc : Scope) (v : viewer) (flow : Z)
  | pg_ivr_all
  | pg_ivr_prompt.

Inductive shown := shows (p : page) | sends (l : Location).

(** ** Pages that pick whom they are for *)

(** [?customer=] ([parseScope] of the consoles). *)
Definition digits_up_to (n : nat) (s : string) : bool :=
  sforall is_digit s && (s !=? "") && (Nat.leb (String.length s) n).

Definition parseScope (raw : option string) : option staff_choice :=
  match raw with
  | None => None
  | Some raw =>
      if raw ==? "all" then Some every_customer
      else if (raw ==? "") || negb (digits_up_to 9 raw) then None
      else let id := num_of_digits raw in if 0 <? id then Some (one_customer id) else None
  end.

Section Auth.
Context (a : Auth).

Definition home : shown := sends (to_path (productHome (au_user a) (isAdmin a))).

(** [DashboardPage]: the landing page, which a signed-in user never sees. *)
Definition DashboardPage (l : Location) : shown :=
  let redirectTo :=
    match lc_from l with
    | Some (path, params) => if path ==? [] then None else Some (Build_Location path params "" None)
    | None => None
    end in
  if au_isLoading a then shows pg_splash
  else if isAuthenticated a then
    match redirectTo with Some l => sends l | None => home end
  else shows pg_landing.

Definition AccountDashboard : shown :=
  match effectiveCustomer a with
  | Some c => shows (pg_account_dashboard (ec_id c) (if isActualAdmin a || isSupport a then v_preview else v_tenant))
  | None =>
      if isActualAdmin a && au_customerViewMode a then shows pg_preview_prompt
      else if isAdmin a then shows pg_admin_dashboard
      else home
  end.

Definition RcfPage : shown :=
  match negb (isAdmin a), effectiveCustomer a with
  | true, Some c => shows (pg_customer_numbers (ec_id c) (isActualAdmin a || isSupport a))
  | _, _ => if isActualAdmin a && au_customerViewMode a then shows pg_preview_prompt else shows pg_rcf_console
  end.

Definition VisualVoicemailPage : shown :=
  if isSupport a then home
  else match negb (isAdmin a), effectiveCustomer a with
       | true, Some c => shows (pg_voicemail (ec_id c) (isActualAdmin a))
       | _, _ =>
           if isActualAdmin a && au_customerViewMode a then shows pg_preview_prompt
           else if isAdmin a then shows pg_voicemail_console
           else home
       end.

Definition ReportingPage : shown :=
  if isActualAdmin a && au_customerViewMode a && (match effectiveCustomer a with None => true | Some _ => false end)
  then shows pg_preview_prompt else shows pg_reporting.

(** [IvrRoutes]: the paths under [/ivr] of a workspace, whose links keep the
    console's [?customer=]. *)
Definition FlowIdRoute (sc : Scope) (v : viewer) (href : Location) (flowId : string) : shown :=
  if digits_up_to 12 flowId then shows (pg_ivr_builder sc v (num_of_digits flowId)) else sends href.

Definition IvrRoutes (sc : Scope) (v : viewer) (href : Location) (inner : list string) : shown :=
  match inner with
  | [] => shows (pg_ivr_home sc v)
  | [flows; flowId] => if lower flows ==? "flows" then FlowIdRoute sc v href flowId else sends href
  | _ => sends href
  end.

Definition ivr_home_of (customer : option string) : Location :=
  Build_Location ["ivr"] (match customer with Some c => [("customer", c)] | None => [] end) "" None.

Definition AdminIvrConsole (l : Location) (inner : list string) : shown :=
  match parseScope (om_get "customer" (lc_params l)) with
  | None => match inner with [] => shows pg_ivr_prompt | _ => sends (ivr_home_of None) end
  | Some every_customer => match inner with [] => shows pg_ivr_all | _ => sends (ivr_home_of (Some "all")) end
  | Some (one_customer id) => IvrRoutes (ivrStaffScope id) v_admin (ivr_home_of (Some (print_int id))) inner
  end.

Definition IvrWho (l : Location) (inner : list string) : shown :=
  if isSupport a then home
  else match negb (isAdmin a), effectiveCustomer a with
       | true, Some c =>
           IvrRoutes (if isActualAdmin a then ivrStaffScope (ec_id c) else ivrTenantScope (ec_id c))
             (if isActualAdmin a then v_preview else v_tenant) (ivr_home_of None) inner
       | _, _ =>
           if isActualAdmin a && au_customerViewMode a then shows pg_preview_prompt
           else if isAdmin a then AdminIvrConsole l inner
           else home
       end.

(** The documentation pages ([docProducts.ts], [guideTopics.ts]). *)
Definition GUIDE_TOPICS : list string := ["rcf"; "voicemail"; "ivr"].
Definition API_SECTIONS : list string := ["start"; "numbers"; "calls"; "voicemail"; "trunking"].

Definition isApiSectionSlug (v : string) : bool := (v !=? "start") && includes API_SECTIONS v.
Definition apiSectionForLegacySlug (slug : string) : option string :=
  if slug ==? "rcf" then Some "numbers" else if slug ==? "telemetry" then Some "calls" else None.
Definition apiSectionHref (section : string) : string :=
  if section ==? "start" then "/docs/api" else "/docs/api/" +:+ section.

Definition GuidesPage (product : option string) : shown :=
  match product with
  | Some p => if includes GUIDE_TOPICS p then shows (pg_guides (Some p)) else sends (to_path "/docs/guides")
  | None => shows (pg_guides None)
  end.

Definition with_hash (hash : string) (l : Location) : Location := Build_Location (lc_path l) (lc_params l) hash (lc_from l).

Definition ApiDocsPage (product : option string) (hash : string) : shown :=
  match product with
  | Some p =>
      if isApiSectionSlug p then shows (pg_api_docs p)
      else sends (match apiSectionForLegacySlug p with
                  | Some s => with_hash hash (to_path (apiSectionHref s))
                  | None => to_path "/docs/api"
                  end)
  | None => shows (pg_api_docs "start")
  end.

(** ** Guards ([components/auth/]) *)

Definition RequireAuth (l : Location) (children : shown) : shown :=
  if au_isLoading a then shows pg_spinner
  else if negb (isAuthenticated a) then sends (Build_Location [] [] "" (Some (lc_path l, lc_params l)))
  else children.

Definition RequireReportingAccess (children : shown) : shown :=
  if negb (canSeeReporting (au_user a)) then sends (to_path "/") else children.

Definition RequireSupportOrAdmin (children : shown) : shown :=
  if negb (isAdmin a) && negb (isSupport a) then sends (to_path "/") else children.

Definition ProductHomeRedirect : shown := home.

(** ** The table ([App.tsx]) *)

(** [":product?"] at the end of a path: nothing, or one more segment. *)
Definition optional_param (path : list string) (l : Location) : option (option string) :=
  if matches path l then Some None
  else match rev (lc_path l) with
       | product :: front => if List.map lower (rev front) ==? path then Some (Some product) else None
       | [] => None
       end.

(** ["ivr/*"]: what is below. *)
Definition below (head : string) (l : Location) : option (list string) :=
  match lc_path l with seg :: inner => if lower seg ==? head then Some inner else None | [] => None end.

(** The routes that need a signed-in user, by their path. *)
Definition protected_routes (l : Location) : option shown :=
  if matches ["dashboard"] l then Some AccountDashboard
  else if matches ["rcf"] l then Some RcfPage
  else if matches ["api-dids"] l then Some (if API_CALLING_ENABLED then shows pg_api_dids else ProductHomeRedirect)
  else if matches ["trunks"] l then Some (shows pg_trunks)
  else if matches ["voicemail"] l then Some VisualVoicemailPage
  else if matches ["reporting"] l then Some (RequireReportingAccess ReportingPage)
  else if matches ["documentation"] l then Some (sends (to_path "/docs/guides"))
  else if matches ["docs"; "rcf"] l then Some (sends (to_path "/docs/guides/rcf"))
  else if matches ["docs"; "integration"] l then Some (sends (to_path "/docs/api"))
  else if matches ["call-quality"] l then Some (shows (pg_calls false))
  else if matches ["cdrs"] l then Some (RequireSupportOrAdmin (shows (pg_calls true)))
  else if matches ["account"] l then Some (sends (to_path "/my-account"))
  else if matches ["my-account"] l then Some (shows pg_my_account)
  else if matches ["admin"; "platform"; "cdrs"] l then Some (sends (to_path "/cdrs"))
  else if matches ["troubleshooting"] l then Some (shows pg_troubleshooting)
  else match optional_param ["docs"; "guides"] l, optional_param ["docs"; "api"] l, below "ivr" l with
       | Some product, _, _ => Some (GuidesPage product)
       | None, Some product, _ => Some (ApiDocsPage product (lc_hash l))
       | None, None, Some inner => Some (IvrWho l inner)
       | None, None, None => None
       end.

Definition route (l : Location) : shown :=
  if matches ["login"] l then sends (to_path "/")
  else if lc_path l ==? [] then DashboardPage l
  else match protected_routes l with
       | Some children => RequireAuth l children
       | None => sends (to_path "/")
       end.

(** Following what each location sends to, [fuel] times at most. *)
Fixpoint follow (fuel : nat) (l : Location) : option page :=
  match route l with
  | shows p => Some p
  | sends l' => match fuel with O => None | S fuel => follow fuel l' end
  end.

End Auth.
