(* ===== verification/RoutesOk.v ===== *)
(** * Redirects settle

    Theorems on [Routes]: from any location the redirects end, within four,
    on a page the session may see; and where a visitor was headed is where
    signing in leads. *)
From S2P Require Import Prelude JsString JsValue Format SipText IvrError ApiClient Session Routes.

Local Open Scope string_scope.
Local Open Scope Z_scope.
Local Open Scope list_scope.

(** The customer a page is about, of those that are about one. *)
Definition page_customer (p : page) : option Z :=
  match p with
  | pg_account_dashboard c _ | pg_customer_numbers c _ | pg_voicemail c _ => Some c
  | _ => None
  end.

(** What a signed-in session may see. *)
Definition allowed_page (a : Auth) (p : page) : Prop :=
  match p with
  | pg_landing | pg_splash | pg_spinner | pg_api_dids => False
  | pg_admin_dashboard | pg_voicemail_console | pg_ivr_all | pg_ivr_prompt => isAdmin a = true
  | pg_rcf_console => isAdmin a = true ∨ effectiveCustomer a = None
  | pg_preview_prompt => isActualAdmin a = true ∧ au_customerViewMode a = true ∧ effectiveCustomer a = None
  | pg_account_dashboard _ _ | pg_customer_numbers _ _ | pg_voicemail _ _ =>
      ec_id <$> effectiveCustomer a = page_customer p
  | pg_ivr_home sc _ | pg_ivr_builder sc _ _ => ∃ choice, ivr_scope a choice = Some sc
  | pg_reporting => canSeeReporting (au_user a) = true
  | pg_calls staff => staff = true → isAdmin a = true ∨ isSupport a = true
  | _ => True
  end.

(** What any session may see. *)
Definition allowed (a : Auth) (p : page) : Prop :=
  if au_isLoading a then p = pg_splash ∨ p = pg_spinner
  else if isAuthenticated a then allowed_page a p
  else p = pg_landing.

(** A location that shows an allowed page at once, or after some redirects. *)
Definition settles (n : nat) (a : Auth) (l : Location) : Prop := ∃ p, follow a n l = Some p ∧ allowed a p.

Lemma settles_shows n a l p : route a l = shows p → allowed a p → settles n a l.
Proof. intros E H. exists p. split; [|done]. destruct n; cbn; by rewrite E. Qed.

Lemma settles_sends n a l l' : route a l = sends l' → settles n a l' → settles (S n) a l.
Proof. intros E (p & H & Hp). exists p. split; [|done]. cbn. by rewrite E. Qed.

Lemma settles_more n m a l : (n ≤ m)%nat → settles n a l → settles m a l.
Proof.
  intros Hle (p & H & Hp). exists p. split; [|done]. revert m l Hle H. induction n as [|n IH]; intros m l Hle H.
  - destruct m; cbn in *; by destruct (route a l).
  - destruct m as [|m]; [lia|]. cbn in *. destruct (route a l); [done|]. apply IH; [lia|done].
Qed.

(** What the table does with a location. *)
Lemma route_cases a l :
  route a l = sends (to_path "/") ∨
  (lc_path l = [] ∧ route a l = DashboardPage a l) ∨
  (∃ children, protected_routes a l = Some children ∧ route a l = RequireAuth a l children).
Proof.
  unfold route. destruct (matches ["login"] l); [by left|]. destruct (lc_path l ==? []) eqn:E.
  - right; left. by apply bool_decide_eq_true in E.
  - destruct (protected_routes a l) as [c|]; [|by left]. right; right. by exists c.
Qed.

Lemma root_unprotected a l : lc_path l = [] → protected_routes a l = None.
Proof. destruct l as [path params hash from]. cbn. by intros ->. Qed.

Lemma root_is_dashboard a l : lc_path l = [] → route a l = DashboardPage a l.
Proof. intros E. unfold route, matches. by rewrite E. Qed.

(** Nobody signed in, or a token being checked. *)
Lemma visitor_root a l : au_isLoading a = true ∨ isAuthenticated a = false → lc_path l = [] → settles 0 a l.
Proof.
  intros Ha E. unfold settles, allowed. cbn. rewrite (root_is_dashboard _ _ E). unfold DashboardPage.
  destruct (au_isLoading a); [eexists; split; [done|by left]|]. destruct Ha as [?|Ha]; [done|]. rewrite Ha. by eexists.
Qed.

Lemma visitor_settles a l : au_isLoading a = true ∨ isAuthenticated a = false → settles 1 a l.
Proof.
  intros Ha. destruct (route_cases a l) as [E|[[El _]|(children & _ & E)]].
  - eapply settles_sends; [done|]. by apply visitor_root.
  - apply (settles_more 0); [lia|]. by apply visitor_root.
  - unfold RequireAuth in E. destruct (au_isLoading a) eqn:Ei.
    + apply (settles_shows _ _ _ pg_spinner); [done|]. unfold allowed. rewrite Ei. by right.
    + destruct Ha as [?|Ha]; [congruence|]. rewrite Ha in E. eapply settles_sends; [exact E|]. apply visitor_root; [by right|done].
Qed.

Section Signed.
Context (a : Auth) (Hi : au_isLoading a = false) (Ha : isAuthenticated a = true).

Lemma allowed_signed p : allowed_page a p → allowed a p.
Proof. unfold allowed. by rewrite Hi, Ha. Qed.

Lemma guarded l children : protected_routes a l = Some children → route a l = children ∨ route a l = sends (to_path "/").
Proof.
  intros E. destruct (route_cases a l) as [H|[[El H]|(c & Ec & H)]]; [by right| |].
  - by rewrite (root_unprotected _ _ El) in E.
  - left. rewrite H. unfold RequireAuth. rewrite Hi, Ha. cbn. congruence.
Qed.

Lemma user_signed : ∃ u, au_user a = Some u.
Proof. unfold isAuthenticated in Ha. destruct (au_user a) as [u|]; [by exists u|done]. Qed.

(** The direct pages. *)
Lemma direct l p : protected_routes a l = Some (shows p) → allowed_page a p → matches ["login"] l = false → settles 0 a l.
Proof.
  intros E Hp Hm. apply (settles_shows _ _ _ p); [|by apply allowed_signed].
  unfold route. rewrite Hm. destruct (lc_path l ==? []) eqn:El.
  - apply bool_decide_eq_true in El. by rewrite (root_unprotected _ _ El) in E.
  - rewrite E. unfold RequireAuth. by rewrite Hi, Ha.
Qed.

Lemma settles_page href p :
  protected_routes a (to_path href) = Some (shows p) → allowed_page a p → matches ["login"] (to_path href) = false →
  settles 0 a (to_path href).
Proof. apply direct. Qed.

(** Every home shows a page its user may see. *)
Lemma home_settles : settles 0 a (to_path (productHome (au_user a) (isAdmin a))).
Proof.
  destruct user_signed as [u Eu]. unfold productHome. rewrite Eu.
  destruct (isAdmin a) eqn:Ead.
  { assert (Eeff : effectiveCustomer a = None).
    { unfold isAdmin in Ead. apply andb_true_iff in Ead as [E1 E2]. apply negb_true_iff in E2. unfold effectiveCustomer.
      rewrite Eu, E1, E2. by destruct (isSupport a). }
    apply (settles_page _ pg_admin_dashboard); [|done|done].
    change (protected_routes a (to_path "/dashboard")) with (Some (AccountDashboard a)).
    unfold AccountDashboard. rewrite Eeff. unfold isAdmin in Ead. apply andb_true_iff in Ead as [E1 E2].
    unfold isAdmin. rewrite E1. apply negb_true_iff in E2. by rewrite E2. }
  destruct (us_role u ==? "support") eqn:Es; [by apply (settles_page _ pg_troubleshooting)|].
  destruct (match us_customer_id u with Some _ => true | None => us_role u ==? "admin" end) eqn:Eacc; cbn [negb];
    [|by apply (settles_page _ pg_my_account)].
  destruct (us_account_type u ==? Some "trunk"); [by apply (settles_page _ pg_trunks)|].
  destruct (us_account_type u ==? Some "api"); [by apply (settles_page _ pg_my_account)|].
  assert (Hrole : isActualAdmin a = (us_role u ==? "admin")) by (unfold isActualAdmin, has_role; by rewrite Eu).
  assert (Hsup : isSupport a = false) by (unfold isSupport, has_role; by rewrite Eu).
  destruct (effectiveCustomer a) as [c|] eqn:Eeff.
  - apply (settles_page _ (pg_account_dashboard (ec_id c) (if isActualAdmin a || isSupport a then v_preview else v_tenant)));
      [|cbn; by rewrite Eeff|done].
    change (protected_routes a (to_path "/dashboard")) with (Some (AccountDashboard a)). unfold AccountDashboard. by rewrite Eeff.
  - assert (Hview : isActualAdmin a = true ∧ au_customerViewMode a = true).
    { unfold effectiveCustomer in Eeff. rewrite Eu, Hsup in Eeff. unfold isAdmin in Ead.
      destruct (isActualAdmin a) eqn:E1; [split; [done|by destruct (au_customerViewMode a)]|].
      destruct (us_customer_id u); [done|]. congruence. }
    destruct Hview as [E1 E2]. apply (settles_page _ pg_preview_prompt); [|done|done].
    change (protected_routes a (to_path "/dashboard")) with (Some (AccountDashboard a)). unfold AccountDashboard.
    by rewrite Eeff, E1, E2.
Qed.

Lemma root_settles l : lc_path l = [] → lc_from l = None → settles 1 a l.
Proof.
  intros E1 E2. eapply settles_sends; [|apply home_settles].
  rewrite (root_is_dashboard _ _ E1). unfold DashboardPage. by rewrite Hi, Ha, E2.
Qed.

(** ** The protected pages *)

(** What a protected route gives: an allowed page, or somewhere that settles
    within [n]. *)
Definition leads (n : nat) (s : shown) : Prop :=
  match s with shows p => allowed_page a p | sends l => settles n a l end.

Lemma leads_more n m s : (n ≤ m)%nat → leads n s → leads m s.
Proof. destruct s; cbn; [done|]. intros. by eapply settles_more. Qed.

Lemma home_leads : leads 0 (home a).
Proof. apply home_settles. Qed.

Lemma dashboard_leads : leads 0 (AccountDashboard a).
Proof.
  unfold AccountDashboard. destruct (effectiveCustomer a) as [c|] eqn:Ec; [cbn; by rewrite Ec|].
  destruct (isActualAdmin a && au_customerViewMode a) eqn:E; [apply andb_true_iff in E as [? ?]; cbn; by rewrite Ec|].
  destruct (isAdmin a) eqn:Ead; [done|apply home_leads].
Qed.

Lemma rcf_leads : leads 0 (RcfPage a).
Proof.
  unfold RcfPage. destruct (effectiveCustomer a) as [c|] eqn:Ec.
  - destruct (isAdmin a) eqn:Ead; cbn [negb]; [|cbn; by rewrite Ec].
    unfold isAdmin in Ead. apply andb_true_iff in Ead as [E1 E2]. apply negb_true_iff in E2. rewrite E1, E2. cbn. left.
    unfold isAdmin. by rewrite E1, E2.
  - destruct (isActualAdmin a && au_customerViewMode a) eqn:E; destruct (negb (isAdmin a));
      try (apply andb_true_iff in E as [? ?]; cbn; by rewrite Ec); cbn; by right.
Qed.

(** [isSupport] pages go home; others show the customer, the prompt or the
    console. *)
Lemma product_leads n (shows_customer : EffectiveCustomer → shown) (console : shown) :
  (∀ c, isAdmin a = false → effectiveCustomer a = Some c → isSupport a = false → leads n (shows_customer c)) →
  (isAdmin a = true → leads n console) →
  leads n (if isSupport a then home a
           else match negb (isAdmin a), effectiveCustomer a with
                | true, Some c => shows_customer c
                | _, _ => if isActualAdmin a && au_customerViewMode a then shows pg_preview_prompt
                          else if isAdmin a then console else home a
                end).
Proof.
  intros Hc Hadmin. assert (Hh : leads n (home a)) by (apply (leads_more 0); [lia|apply home_leads]).
  destruct (isSupport a) eqn:Es; [done|].
  destruct (isAdmin a) eqn:Ead; cbn [negb].
  - unfold isAdmin in Ead. apply andb_true_iff in Ead as [E1 E2]. apply negb_true_iff in E2. rewrite E1, E2. cbn.
    apply Hadmin. done.
  - destruct (effectiveCustomer a) as [c|] eqn:Ec; [by apply Hc|].
    destruct (isActualAdmin a && au_customerViewMode a) eqn:E; [|done].
    apply andb_true_iff in E as [? ?]. cbn. by rewrite Ec.
Qed.

Lemma voicemail_leads : leads 0 (VisualVoicemailPage a).
Proof.
  apply (product_leads 0 (λ c, shows (pg_voicemail (ec_id c) (isActualAdmin a)))); [|done].
  intros c _ Ec _. cbn. by rewrite Ec.
Qed.

Lemma admin_facts : isAdmin a = true → isSupport a = false ∧ effectiveCustomer a = None.
Proof.
  intros E. unfold isAdmin in E. apply andb_true_iff in E as [E1 E2]. apply negb_true_iff in E2.
  destruct user_signed as [u Eu]. unfold isActualAdmin, has_role in E1. rewrite Eu in E1. apply bool_decide_eq_true in E1.
  assert (Es : isSupport a = false) by (unfold isSupport, has_role; by rewrite Eu, E1). split; [done|].
  unfold effectiveCustomer, isActualAdmin, has_role. by rewrite Eu, Es, E1, E2.
Qed.

Lemma ivr_console_scope id : isAdmin a = true → ivr_scope a (Some (one_customer id)) = Some (ivrStaffScope id).
Proof. intros E. destruct (admin_facts E) as [Es Ee]. unfold ivr_scope. by rewrite Es, Ee, E. Qed.

Lemma ivr_customer_scope c : isAdmin a = false → effectiveCustomer a = Some c → isSupport a = false →
  ivr_scope a None = Some (if isActualAdmin a then ivrStaffScope (ec_id c) else ivrTenantScope (ec_id c)).
Proof. intros E1 E2 E3. unfold ivr_scope. by rewrite E1, E2, E3. Qed.

Lemma ivr_home_customer c customer : isAdmin a = false → effectiveCustomer a = Some c → isSupport a = false →
  settles 0 a (ivr_home_of customer).
Proof.
  intros E1 E2 E3.
  apply (direct _ (pg_ivr_home (if isActualAdmin a then ivrStaffScope (ec_id c) else ivrTenantScope (ec_id c))
                     (if isActualAdmin a then v_preview else v_tenant))); [|exists None; by apply ivr_customer_scope|done].
  change (protected_routes a (ivr_home_of customer)) with (Some (IvrWho a (ivr_home_of customer) [])).
  unfold IvrWho. by rewrite E1, E2, E3.
Qed.

Lemma ivr_home_console customer : isAdmin a = true → settles 0 a (ivr_home_of customer).
Proof.
  intros E. destruct (admin_facts E) as [Es Ee].
  assert (Hw : IvrWho a (ivr_home_of customer) [] = AdminIvrConsole (ivr_home_of customer) []).
  { unfold IvrWho. rewrite Es, E, Ee. unfold isAdmin in E. apply andb_true_iff in E as [E1 E2]. apply negb_true_iff in E2.
    by rewrite E1, E2. }
  assert (Hp : protected_routes a (ivr_home_of customer) = Some (AdminIvrConsole (ivr_home_of customer) []))
    by by rewrite <- Hw.
  unfold AdminIvrConsole in Hp. destruct (parseScope _) as [[|id]|].
  - by apply (direct _ pg_ivr_all).
  - apply (direct _ (pg_ivr_home (ivrStaffScope id) v_admin)); [done| |done].
    exists (Some (one_customer id)). by apply ivr_console_scope.
  - by apply (direct _ pg_ivr_prompt).
Qed.

Lemma ivr_routes_leads sc v href inner :
  (∃ choice, ivr_scope a choice = Some sc) → settles 0 a href → leads 0 (IvrRoutes sc v href inner).
Proof.
  intros Hsc Hh. unfold IvrRoutes, FlowIdRoute. repeat case_match; done.
Qed.

Lemma ivr_leads l inner : leads 0 (IvrWho a l inner).
Proof.
  unfold IvrWho. apply product_leads.
  - intros c E1 E2 E3. apply ivr_routes_leads; [exists None; by apply ivr_customer_scope|by eapply ivr_home_customer].
  - intros E. unfold AdminIvrConsole. destruct (parseScope _) as [[|id]|].
    + destruct inner; [done|by apply ivr_home_console].
    + apply ivr_routes_leads; [exists (Some (one_customer id)); by apply ivr_console_scope|by apply ivr_home_console].
    + destruct inner; [done|by apply ivr_home_console].
Qed.

Lemma docs_leads : (∀ p, leads 0 (GuidesPage p)) ∧ (∀ p hash, leads 0 (ApiDocsPage p hash)).
Proof.
  split.
  - intros [p|]; [|done]. unfold GuidesPage. destruct (includes GUIDE_TOPICS p); [done|].
    by apply (settles_page _ (pg_guides None)).
  - intros [p|] hash; [|done]. unfold ApiDocsPage. destruct (isApiSectionSlug p); [done|].
    unfold apiSectionForLegacySlug. destruct (p ==? "rcf"); [by apply (direct _ (pg_api_docs "numbers"))|].
    destruct (p ==? "telemetry"); [by apply (direct _ (pg_api_docs "calls"))|by apply (settles_page _ (pg_api_docs "start"))].
Qed.

Lemma root_path_settles : settles 1 a (to_path "/").
Proof. by apply root_settles. Qed.

Lemma staff_calls_leads : leads 1 (RequireSupportOrAdmin a (shows (pg_calls true))).
Proof.
  unfold RequireSupportOrAdmin. destruct (isAdmin a) eqn:E1, (isSupport a) eqn:E2; cbn; auto using root_path_settles.
Qed.

Lemma cdrs_settles : settles 2 a (to_path "/cdrs").
Proof.
  assert (E : protected_routes a (to_path "/cdrs") = Some (RequireSupportOrAdmin a (shows (pg_calls true)))) by done.
  pose proof staff_calls_leads as H. destruct (RequireSupportOrAdmin _ _) as [p|l].
  - eapply (settles_more 0); [lia|]. by apply (direct _ p).
  - destruct (guarded _ _ E) as [Er|Er]; (eapply settles_sends; [done|]); [done|apply root_path_settles].
Qed.

(** Every protected route leads somewhere allowed within two more redirects. *)
Lemma protected_leads l children : protected_routes a l = Some children → leads 2 children.
Proof.
  assert (H0 : ∀ s, leads 0 s → leads 2 s) by (intros; eapply (leads_more 0); [lia|done]).
  assert (H1 : ∀ s, leads 1 s → leads 2 s) by (intros; eapply (leads_more 1); [lia|done]).
  destruct docs_leads as [Hg Hd].
  unfold protected_routes. intros E.
  repeat (match type of E with (if ?b then _ else _) = _ => destruct b; [injection E as <-|] end).
  - apply H0, dashboard_leads.
  - apply H0, rcf_leads.
  - apply H0, home_leads.
  - done.
  - apply H0, voicemail_leads.
  - apply H1. unfold RequireReportingAccess, ReportingPage. destruct (canSeeReporting (au_user a)) eqn:Er; cbn [negb].
    + destruct (isActualAdmin a && _ && _) eqn:E; [|done]. apply andb_true_iff in E as [E E3].
      apply andb_true_iff in E as [E1 E2]. by destruct (effectiveCustomer a) eqn:Ee.
    + apply root_path_settles.
  - apply H0. by apply (settles_page _ (pg_guides None)).
  - apply H0. by apply (settles_page _ (pg_guides (Some "rcf"))).
  - apply H0. by apply (settles_page _ (pg_api_docs "start")).
  - done.
  - apply H1, staff_calls_leads.
  - apply H0. by apply (settles_page _ pg_my_account).
  - done.
  - apply cdrs_settles.
  - done.
  - destruct (optional_param ["docs"; "guides"] l) as [p|]; [injection E as <-; apply H0, Hg|].
    destruct (optional_param ["docs"; "api"] l) as [p|]; [injection E as <-; apply H0, Hd|].
    destruct (below "ivr" l) as [inner|]; [|done]. injection E as <-. apply H0, ivr_leads.
Qed.

Lemma path_settles l : lc_from l = None → settles 3 a l.
Proof.
  intros Hf. destruct (route_cases a l) as [E|[[E1 E2]|(children & E1 & E2)]].
  - eapply (settles_more 2); [lia|]. eapply settles_sends; [done|apply root_path_settles].
  - eapply (settles_more 1); [lia|]. by apply root_settles.
  - pose proof (protected_leads _ _ E1) as H. unfold RequireAuth in E2. rewrite Hi, Ha in E2. cbn in E2.
    destruct children as [p|l']; [|by eapply settles_sends].
    apply (settles_shows _ _ _ p); [done|by apply allowed_signed].
Qed.

End Signed.

(** What a tenant's session is about: the tenant's own account. *)
Lemma tenant_own (a : Auth) (u : User) (c : EffectiveCustomer) :
  au_user a = Some u → us_role u ≠ "admin" → effectiveCustomer a = Some c → us_customer_id u = Some (ec_id c).
Proof.
  intros Eu Hr. unfold effectiveCustomer, isActualAdmin, isSupport, has_role. rewrite Eu.
  destruct (us_role u ==? "support"); [done|]. rewrite (bool_decide_eq_false_2 _ Hr).
  destruct (us_customer_id u); [|done]. by intros [= <-].
Qed.

Lemma tenant_page (a : Auth) (p : page) (u : User) (c : Z) :
  allowed a p → au_user a = Some u → us_role u ≠ "admin" → page_customer p = Some c → us_customer_id u = Some c.
Proof.
  unfold allowed. destruct (au_isLoading a); [by intros [-> | ->]|]. destruct (isAuthenticated a); [|by intros ->].
  intros Hp Eu Hr Hc. assert (E : ec_id <$> effectiveCustomer a = Some c) by (destruct p; try done; by rewrite <- Hc).
  apply fmap_Some in E as (e & Ee & ->). by eapply tenant_own.
Qed.

Lemma every_location_settles (a : Auth) (l : Location) : settles 4 a l.
Proof.
  destruct (au_isLoading a) eqn:Hi; [apply (settles_more 1); [lia|]; apply visitor_settles; by left|].
  destruct (isAuthenticated a) eqn:Ha; [|apply (settles_more 1); [lia|]; apply visitor_settles; by right].
  destruct (lc_from l) as [[path params]|] eqn:Ef; [|apply (settles_more 3); [lia|]; by apply path_settles].
  destruct (route_cases a l) as [E|[[E1 E2]|(children & E1 & E2)]].
  - apply (settles_more 2); [lia|]. eapply settles_sends; [done|]. by apply root_path_settles.
  - unfold DashboardPage in E2. rewrite Hi, Ha, Ef in E2.
    destruct (path ==? []); (eapply settles_sends; [done|]).
    + apply (settles_more 0); [lia|]. by apply home_settles.
    + by apply path_settles.
  - pose proof (protected_leads a Hi Ha _ _ E1) as H. unfold RequireAuth in E2. rewrite Hi, Ha in E2. cbn in E2.
    apply (settles_more 3); [lia|]. destruct children as [p|l']; [|by eapply settles_sends].
    apply (settles_shows _ _ _ p); [done|by apply allowed_signed].
Qed.

(** C25 From any location, redirects end, after four at most, and on a page
    the session may see: the landing page for a visitor, a spinner while a
    token is being checked; for a signed-in user never those, the consoles for
    admins not previewing, reports and the staff call list for those they are
    for, and a customer's pages and call flows only for the customer the
    session is about, which for a tenant is the tenant's own account. *)
Theorem redirects_settle (a : Auth) (l : Location) :
  ∃ p, follow a 4 l = Some p ∧ allowed a p ∧
       ∀ u c, au_user a = Some u → us_role u ≠ "admin" → page_customer p = Some c → us_customer_id u = Some c.
Proof.
  destruct (every_location_settles a l) as (p & H & Hp). exists p. repeat split; try done.
  intros u c. by apply tenant_page.
Qed.

(** A visitor who asks for a page that needs signing in is sent to the
    landing page, and signing in there leads to the page that was asked for,
    with its search parameters. *)
Theorem destination_kept (visitor signed : Auth) (l : Location) :
  au_isLoading visitor = false → isAuthenticated visitor = false →
  au_isLoading signed = false → isAuthenticated signed = true →
  is_Some (protected_routes visitor l) → matches ["login"] l = false →
  ∃ start, route visitor l = sends start ∧ route visitor start = shows pg_landing ∧
           route signed start = sends (Build_Location (lc_path l) (lc_params l) "" None).
Proof.
  intros Hv1 Hv2 Hs1 Hs2 [children E] Hm.
  assert (Hp : lc_path l ≠ []) by (intros El; by rewrite (root_unprotected _ _ El) in E).
  exists (Build_Location [] [] "" (Some (lc_path l, lc_params l))). split; [|split].
  - unfold route. rewrite Hm, (bool_decide_eq_false_2 _ Hp), E. unfold RequireAuth. by rewrite Hv1, Hv2.
  - unfold route. cbn. unfold DashboardPage. by rewrite Hv1, Hv2.
  - unfold route. cbn. unfold DashboardPage. rewrite Hs1, Hs2. cbn. by rewrite (bool_decide_eq_false_2 _ Hp).
Qed.

(** ** Sessions *)

Definition no_one : Auth := Build_Auth None None false false None.
Definition tenant_auth : Auth :=
  Build_Auth (Some (Build_User 1 "a@example.com" "user" (Some 7) "Ann" (Some "Acme") (Some "rcf"))) (Some "ann") false false None.
Definition admin_auth (customerView : bool) : Auth :=
  Build_Auth (Some (Build_User 2 "r@example.com" "admin" None "Root" None None)) (Some "root") false customerView None.

Lemma destination_kept_witness :
  route tenant_auth (Build_Location [] [] "" (Some (["reporting"], [("from", "2026-01-01")])))
  = sends (Build_Location ["reporting"] [("from", "2026-01-01")] "" None).
Proof.
  destruct (destination_kept no_one tenant_auth (Build_Location ["reporting"] [("from", "2026-01-01")] "" None)
              eq_refl eq_refl eq_refl eq_refl ltac:(vm_compute; by eexists) eq_refl) as (start & H1 & _ & H3).
  vm_compute in H1. injection H1 as <-. exact H3.
Defined.

(** Where some of them come out. *)
Example settled_pages :
  follow tenant_auth 4 (Build_Location [] [] "" (Some (["admin"; "platform"; "cdrs"], [])))
  = Some (pg_account_dashboard 7 v_tenant) ∧
  follow (admin_auth true) 4 (at_path ["CDRs"]) = Some pg_preview_prompt ∧
  follow (admin_auth false) 4 (Build_Location ["ivr"; "flows"; "x"] [("customer", "007")] "" None)
  = Some (pg_ivr_home (ivrStaffScope 7) v_admin) ∧
  follow no_one 4 (at_path ["ivr"]) = Some pg_landing.
Proof. repeat split; vm_compute; reflexivity. Qed.

(** A link to a task of a guide, opened before signing in, leads to the top of
    the guide: the hash is not carried over. *)
Example destination_loses_hash :
  let l := Build_Location ["docs"; "guides"; "rcf"] [] "change-forwarding" None in
  route no_one l = sends (Build_Location [] [] "" (Some (lc_path l, []))) ∧
  route tenant_auth (Build_Location [] [] "" (Some (lc_path l, []))) = sends (at_path ["docs"; "guides"; "rcf"]).
Proof. split; vm_compute; reflexivity. Qed.
