(* ===== verification/Snippets.v ===== *)
(** * Transcripts and their snippets ([pages/voicemail/voicemailData.ts])

    The queue that batches the one-line snippets of a mailbox into requests,
    as a state machine over its timers and requests under way, and the entry
    a transcript is polled by.  A waiter is a promise [loadSnippet] returned,
    named by its position in the order of the calls. *)
From S2P Require Import Prelude JsString IvrError.

Local Open Scope Z_scope.
Local Open Scope list_scope.

Inductive TranscriptStatus := ts_pending | ts_processing | ts_done | ts_empty | ts_failed | ts_disabled.

#[export] Instance TranscriptStatus_eq_dec : EqDecision TranscriptStatus.
Proof. solve_decision. Defined.

Record TranscriptSnippet := {
  sn_message_id : Z;
  sn_status : TranscriptStatus;
  sn_snippet : option string;
}.

(** [isTranscriptActive] *)
Definition isTranscriptActive (status : TranscriptStatus) : bool := (status ==? ts_pending) || (status ==? ts_processing).

(** ** Batches *)

Definition TRANSCRIPT_SNIPPET_BATCH_MAX : nat := 50.

(** [chunk]; one round per element is enough. *)
Fixpoint chunk_loop {A} (fuel : nat) (l : list A) (size : nat) : list (list A) :=
  match fuel, l with
  | S fuel, _ :: _ => take size l :: chunk_loop fuel (drop size l) size
  | _, _ => []
  end.
Definition chunk {A} (l : list A) (size : nat) : list (list A) := chunk_loop (length l) l size.

(** What a waiter is told. *)
Inductive settlement := resolved (s : TranscriptSnippet) | unavailable | rejected (err : thrown).

(** The waiters of each message, in the order the messages were asked for. *)
Abbreviation waiters := (list (Z * list nat)).

(** [flushSnippets] while a request is under way: the batches left, the first
    being the one asked for. *)
Record flush := {
  fl_mailbox : Z;
  fl_waiting : waiters;
  fl_batches : list (list Z);
}.

Record Queue := {
  qu_queue : list (Z * waiters);
  qu_timers : list Z;
  qu_flushes : list flush;
  qu_settled : list (nat * settlement);
  qu_asked : list Z;
  qu_requests : list (Z * list Z);
}.

Definition empty_queue : Queue := Build_Queue [] [] [] [] [] [].

(** [loadSnippet]: the first of a mailbox sets the timer. *)
Definition loadSnippet (mailboxId messageId : Z) (q : Queue) : Queue :=
  let waiter := length (qu_asked q) in
  let '(waiting, timers) :=
    match om_get mailboxId (qu_queue q) with
    | Some waiting => (waiting, qu_timers q)
    | None => ([], qu_timers q ++ [mailboxId])
    end in
  Build_Queue (om_set mailboxId (om_set messageId (default [] (om_get messageId waiting) ++ [waiter]) waiting) (qu_queue q))
    timers (qu_flushes q) (qu_settled q) (qu_asked q ++ [messageId]) (qu_requests q).

(** The rest of a flush: the next request, if a batch is left. *)
Definition continue (f : flush) (before after : list flush) (q : Queue) : Queue :=
  match fl_batches f with
  | [] => Build_Queue (qu_queue q) (qu_timers q) (before ++ after) (qu_settled q) (qu_asked q) (qu_requests q)
  | ids :: _ =>
      Build_Queue (qu_queue q) (qu_timers q) (before ++ f :: after) (qu_settled q) (qu_asked q)
        (qu_requests q ++ [(fl_mailbox f, ids)])
  end.

(** [flushSnippets], the timer of a mailbox having fired. *)
Definition flushSnippets (mailboxId : Z) (q : Queue) : Queue :=
  let q' := Build_Queue (om_del mailboxId (qu_queue q)) (List.filter (λ m, m !=? mailboxId) (qu_timers q))
              (qu_flushes q) (qu_settled q) (qu_asked q) (qu_requests q) in
  match om_get mailboxId (qu_queue q) with
  | None => q'
  | Some waiting =>
      continue (Build_flush mailboxId waiting (chunk (om_keys waiting) TRANSCRIPT_SNIPPET_BATCH_MAX)) (qu_flushes q) [] q'
  end.

(** What one message's waiters are told of a page. *)
Definition tell (id : Z) (item : option TranscriptSnippet) : settlement :=
  match item with
  | None => resolved (Build_TranscriptSnippet id ts_done None)
  | Some item =>
      match sn_status item, sn_snippet item with
      | ts_done, Some _ => resolved item
      | _, _ => unavailable
      end
  end.

Definition settle_page (waiting : waiters) (ids : list Z) (items : list TranscriptSnippet) : list (nat * settlement) :=
  let byId := om_of_list (List.map (λ item, (sn_message_id item, item)) items) in
  flat_map (λ id, List.map (λ w, (w, tell id (om_get id byId))) (default [] (om_get id waiting))) ids.

Definition settle_error (waiting : waiters) (ids : list Z) (err : thrown) : list (nat * settlement) :=
  flat_map (λ id, List.map (λ w, (w, rejected err)) (default [] (om_get id waiting))) ids.

(** The request of the flush at [i] is answered. *)
Definition answered (i : nat) (page : thrown + list TranscriptSnippet) (q : Queue) : option Queue :=
  match qu_flushes q !! i with
  | Some (Build_flush mailbox waiting (ids :: batches)) =>
      let news := match page with inr items => settle_page waiting ids items | inl err => settle_error waiting ids err end in
      let q := Build_Queue (qu_queue q) (qu_timers q) (qu_flushes q) (qu_settled q ++ news) (qu_asked q) (qu_requests q) in
      Some (continue (Build_flush mailbox waiting batches) (take i (qu_flushes q)) (drop (S i) (qu_flushes q)) q)
  | _ => None
  end.

Inductive queue_event :=
  | qe_load (mailboxId messageId : Z)
  | qe_timer (mailboxId : Z)
  | qe_answer (i : nat) (page : thrown + list TranscriptSnippet).

Definition queue_step (q : Queue) (e : queue_event) : option Queue :=
  match e with
  | qe_load mailbox message => Some (loadSnippet mailbox message q)
  | qe_timer mailbox => if includes (qu_timers q) mailbox then Some (flushSnippets mailbox q) else None
  | qe_answer i page => answered i page q
  end.

Fixpoint queue_run (q : Queue) (events : list queue_event) : option Queue :=
  match events with
  | [] => Some q
  | e :: events => match queue_step q e with Some q => queue_run q events | None => None end
  end.

(** ** Polling a transcript *)

Definition TRANSCRIPT_POLL_MS : Z := 5000.
Definition TRANSCRIPT_STALL_MS : Z := 3 * 60000.
Definition TRANSCRIPT_WATCH_GAP_MS : Z := 2 * TRANSCRIPT_POLL_MS + 1000.

(** [TranscriptEntry], the transcript being its status here. *)
Record TranscriptEntry := {
  te_status : TranscriptStatus;
  te_fetchedAt : Z;
  te_activeSince : option Z;
}.

Definition isTranscriptStalled (entry : option TranscriptEntry) : bool :=
  match entry with
  | Some e =>
      match te_activeSince e with
      | Some since => isTranscriptActive (te_status e) && (TRANSCRIPT_STALL_MS <=? te_fetchedAt e - since)
      | None => false
      end
  | None => false
  end.

(** The [queryFn], once the transcript has come. *)
Definition fetched_entry (prev : option TranscriptEntry) (status : TranscriptStatus) (now : Z) : TranscriptEntry :=
  let watched :=
    match prev with
    | Some p =>
        match te_activeSince p with
        | Some since =>
            if isTranscriptActive (te_status p) && (now - te_fetchedAt p <=? TRANSCRIPT_WATCH_GAP_MS) then Some since else None
        | None => None
        end
    | None => None
    end in
  Build_TranscriptEntry status now
    (if isTranscriptActive status then Some (default now watched) else None).

(** [refetchInterval] *)
Definition refetchInterval (poll : bool) (entry : option TranscriptEntry) : option Z :=
  match entry with
  | Some e =>
      if negb poll || negb (isTranscriptActive (te_status e)) then None
      else if isTranscriptStalled entry then None else Some TRANSCRIPT_POLL_MS
  | None => None
  end.

(** Polling from an entry on: each answer comes after the interval, with a
    status; the entry it ends on, and how many answers were asked for. *)
Fixpoint polls (entry : TranscriptEntry) (answers : list (TranscriptStatus * Z)) : TranscriptEntry * nat :=
  match answers with
  | [] => (entry, O)
  | (status, delay) :: answers =>
      match refetchInterval true (Some entry) with
      | None => (entry, O)
      | Some interval =>
          let '(e, n) := polls (fetched_entry (Some entry) status (te_fetchedAt entry + interval + delay)) answers in (e, S n)
      end
  end.

(** ** Maps and batches *)

Lemma om_del_set `{EqDecision K} {V} (k : K) (v : V) m : om_del k (om_set k v m) = om_del k m.
Proof.
  unfold om_del. induction m as [|[k' v'] m IH]; cbn; [by rewrite bool_decide_eq_true_2|].
  destruct (k' ==? k) eqn:E; cbn; rewrite E; cbn; [done|by rewrite IH].
Qed.

Lemma flat_map_del `{EqDecision K} {V A} (g : K * V → list A) k v m :
  NoDup (om_keys m) → om_get k m = Some v → flat_map g m ≡ₚ g (k, v) ++ flat_map g (om_del k m).
Proof.
  unfold om_del. induction m as [|[k' v'] m IH]; cbn; [done|]. intros [Hk Hm]%NoDup_cons. case_bool_decide as E.
  - intros [= ->]. subst k'. cbn. rewrite lfilter_all; [done|]. intros [k2 v2] Hin. cbn.
    apply negb_true_iff, bool_decide_eq_false. intros ->. apply Hk, elem_of_lmap. by exists (k, v2).
  - intros Hg. cbn. rewrite (IH Hm Hg), !app_assoc. f_equiv. apply Permutation_app_comm.
Qed.

(** Replacing the value of a key, or adding one. *)
Lemma flat_map_set `{EqDecision K} {V A} (g : K * V → list A) k v m x :
  NoDup (om_keys m) → g (k, v) ≡ₚ (match om_get k m with Some v' => g (k, v') | None => [] end) ++ [x] →
  flat_map g (om_set k v m) ≡ₚ flat_map g m ++ [x].
Proof.
  intros Hm Hx. rewrite (flat_map_del g k v) by (apply om_set_NoDup || apply om_get_set_eq; done). rewrite om_del_set.
  destruct (om_get k m) as [v'|] eqn:E.
  - rewrite (flat_map_del g k v' m) by done. rewrite Hx, <- !app_assoc. f_equiv. apply Permutation_app_comm.
  - rewrite om_del_absent by done. rewrite Hx. apply Permutation_app_comm.
Qed.

#[export] Instance lfilter_Permutation {A} (f : A → bool) : Proper (Permutation ==> Permutation) (List.filter f).
Proof.
  intros l l' H. induction H as [|x l l' _ IH|x y l|l l1 l2 _ IH1 _ IH2]; cbn; [done| | |by rewrite IH1].
  - destruct (f x); by rewrite IH.
  - destruct (f x), (f y); try done. apply perm_swap.
Qed.

Lemma om_keys_del `{EqDecision K} {V} (k : K) (m : list (K * V)) :
  om_keys (om_del k m) = List.filter (λ k', k' !=? k) (om_keys m).
Proof. unfold om_del, om_keys. induction m as [|[k' v] m IH]; cbn; [done|]. destruct (k' !=? k); cbn; by rewrite IH. Qed.

(** The waiters of some messages. *)
Definition waiters_of (waiting : waiters) (ids : list Z) : list nat :=
  flat_map (λ id, default [] (om_get id waiting)) ids.

Lemma waiters_of_keys (waiting : waiters) : NoDup (om_keys waiting) → waiters_of waiting (om_keys waiting) = om_values waiting.
Proof.
  unfold waiters_of, om_values, om_keys. induction waiting as [|[k l] m IH]; cbn; [done|].
  intros [Hk Hm]%NoDup_cons. rewrite bool_decide_eq_true_2 by done. cbn. f_equal. rewrite <- IH by done.
  rewrite !List.flat_map_concat_map. f_equal. apply List.map_ext_in. intros id Hid. rewrite bool_decide_eq_false_2; [done|].
  intros ->. apply Hk. by apply list_elem_of_In.
Qed.

Lemma chunk_loop_ok {A} (l : list A) n fuel :
  (0 < n)%nat → (length l ≤ fuel)%nat →
  List.concat (chunk_loop fuel l n) = l ∧ Forall (λ c, c ≠ [] ∧ (length c ≤ n)%nat) (chunk_loop fuel l n).
Proof.
  intros Hn. revert l. induction fuel as [|fuel IH]; intros l Hl; [destruct l; cbn in *; [by split|lia]|].
  destruct l as [|x l]; [by split|]. cbn [chunk_loop List.concat].
  destruct (IH (drop n (x :: l))) as [E H]; [rewrite length_drop; cbn in *; lia|].
  rewrite E, take_drop. split; [done|]. constructor; [|done]. split; [by destruct n; [lia|]|]. rewrite length_take. lia.
Qed.

Lemma chunk_ok {A} (l : list A) n : (0 < n)%nat →
  List.concat (chunk l n) = l ∧ Forall (λ c, c ≠ [] ∧ (length c ≤ n)%nat) (chunk l n).
Proof. intros. by apply chunk_loop_ok. Qed.

(** ** What holds of the queue *)

Definition in_flight (f : flush) : list nat := waiters_of (fl_waiting f) (List.concat (fl_batches f)).
Definition queued (q : Queue) : list nat := flat_map (λ p, om_values p.2) (qu_queue q).

(** The waiters of a message asked for that message. *)
Definition asked_for (asked : list Z) (waiting : waiters) : Prop :=
  ∀ id l w, (id, l) ∈ waiting → w ∈ l → asked !! w = Some id.

Record flush_ok (asked : list Z) (f : flush) : Prop := {
  fo_keys : NoDup (om_keys (fl_waiting f));
  fo_batches : Forall (λ c, c ≠ [] ∧ (length c ≤ TRANSCRIPT_SNIPPET_BATCH_MAX)%nat) (fl_batches f);
  fo_ids : NoDup (List.concat (fl_batches f));
  fo_asked : asked_for asked (fl_waiting f);
}.

Record queue_ok (q : Queue) : Prop := {
  qo_keys : NoDup (om_keys (qu_queue q));
  qo_timers : qu_timers q ≡ₚ om_keys (qu_queue q);
  qo_waiting : ∀ mailbox w, (mailbox, w) ∈ qu_queue q → NoDup (om_keys w) ∧ w ≠ [] ∧ asked_for (qu_asked q) w;
  qo_flushes : ∀ f, f ∈ qu_flushes q → flush_ok (qu_asked q) f;
  qo_all : List.map fst (qu_settled q) ++ queued q ++ flat_map in_flight (qu_flushes q) ≡ₚ seq 0 (length (qu_asked q));
  qo_answers : ∀ w sn, (w, resolved sn) ∈ qu_settled q → qu_asked q !! w = Some (sn_message_id sn);
  qo_requests : ∀ mailbox ids, (mailbox, ids) ∈ qu_requests q →
                ids ≠ [] ∧ (length ids ≤ TRANSCRIPT_SNIPPET_BATCH_MAX)%nat ∧ NoDup ids;
}.

Lemma asked_for_more asked x waiting : asked_for asked waiting → asked_for (asked ++ [x]) waiting.
Proof. intros H id l w H1 H2. apply lookup_app_l_Some. by eapply H. Qed.

Lemma flush_ok_more asked x f : flush_ok asked f → flush_ok (asked ++ [x]) f.
Proof. intros [? ? ? ?]. constructor; try done. by apply asked_for_more. Qed.

Lemma empty_queue_ok : queue_ok empty_queue.
Proof. constructor; cbn; try done; try constructor; intros; by repeat match goal with H : _ ∈ [] |- _ => apply elem_of_nil in H end. Qed.

(** Asking for one more message. *)
Lemma asked_for_push asked id waiting :
  asked_for asked waiting →
  asked_for (asked ++ [id]) (om_set id (default [] (om_get id waiting) ++ [length asked]) waiting).
Proof.
  intros H id' l w Hin Hw. apply om_set_elem in Hin as [[= -> ->]|Hin]; [|by eapply asked_for_more].
  apply elem_of_app in Hw as [Hw| ->%list_elem_of_singleton].
  - destruct (om_get id waiting) as [l0|] eqn:E; [|by apply elem_of_nil in Hw]. apply om_get_Some_elem in E.
    by eapply asked_for_more.
  - by rewrite lookup_app_r, Nat.sub_diag.
Qed.

Lemma om_set_not_nil `{EqDecision K} {V} (k : K) (v : V) m : om_set k v m ≠ [].
Proof. destruct m as [|[k' v'] m]; cbn; [done|]. by case_bool_decide. Qed.

Lemma loadSnippet_ok mailbox message q : queue_ok q → queue_ok (loadSnippet mailbox message q).
Proof.
  intros [Hk Ht Hw Hf Ha Hs Hr]. unfold loadSnippet.
  set (waiting := match om_get mailbox (qu_queue q) with Some w => w | None => [] end).
  set (timers := match om_get mailbox (qu_queue q) with Some _ => qu_timers q | None => qu_timers q ++ [mailbox] end).
  replace (match om_get mailbox (qu_queue q) with Some w => (w, qu_timers q) | None => ([], qu_timers q ++ [mailbox]) end)
    with (waiting, timers) by (unfold waiting, timers; by destruct (om_get mailbox (qu_queue q))).
  assert (Hold : NoDup (om_keys waiting) ∧ asked_for (qu_asked q) waiting).
  { unfold waiting. destruct (om_get mailbox (qu_queue q)) as [w|] eqn:E; [|split; [constructor|by intros ? ? ? ?%elem_of_nil]].
    apply om_get_Some_elem in E. by destruct (Hw _ _ E) as (? & _ & ?). }
  set (waiting' := om_set message (default [] (om_get message waiting) ++ [length (qu_asked q)]) waiting).
  constructor; cbn [qu_queue qu_timers qu_flushes qu_settled qu_asked qu_requests].
  - by apply om_set_NoDup.
  - rewrite om_keys_set. unfold timers, om_has. destruct (om_get mailbox (qu_queue q)); [done|]. by rewrite Ht.
  - intros mb w [[= -> ->]|Hin]%om_set_elem.
    + destruct Hold. split; [by apply om_set_NoDup|]. split; [apply om_set_not_nil|by apply asked_for_push].
    + destruct (Hw _ _ Hin) as (? & ? & ?). repeat split; try done. by apply asked_for_more.
  - intros f Hin. by apply flush_ok_more, Hf.
  - rewrite length_app, Nat.add_1_r, seq_S, <- Ha. unfold queued. cbn.
    rewrite (flat_map_set _ mailbox waiting' _ (length (qu_asked q))); [|done|].
    + rewrite <- !app_assoc. do 2 f_equiv. apply Permutation_app_comm.
    + cbn [snd]. unfold waiting'. rewrite om_values_push. unfold waiting.
      by destruct (om_get mailbox (qu_queue q)).
  - intros w sn Hin. apply lookup_app_l_Some. by apply Hs.
  - done.
Qed.

(** A queue with a flush in its place, and the queue that continues it. *)
Definition with_flushes (flushes : list flush) (q : Queue) : Queue :=
  Build_Queue (qu_queue q) (qu_timers q) flushes (qu_settled q) (qu_asked q) (qu_requests q).

Lemma continue_ok f before after q :
  queue_ok (with_flushes (before ++ f :: after) q) → queue_ok (continue f before after q).
Proof.
  intros [Hk Ht Hw Hf Ha Hs Hr]. unfold continue. cbn [qu_queue qu_timers qu_flushes qu_settled qu_asked qu_requests with_flushes] in *.
  assert (Hff : flush_ok (qu_asked q) f) by (apply Hf, elem_of_app; right; left).
  destruct (fl_batches f) as [|ids batches] eqn:Eb; constructor; cbn [qu_queue qu_timers qu_flushes qu_settled qu_asked qu_requests];
    try done.
  - intros f' Hin. apply Hf. rewrite elem_of_app in Hin. rewrite elem_of_app, elem_of_cons. tauto.
  - assert (E : in_flight f = []) by (unfold in_flight; by rewrite Eb).
    rewrite <- Ha, !flat_map_app. cbn [flat_map]. by rewrite E.
  - intros mb ids' [Hin|[= -> ->]%list_elem_of_singleton]%elem_of_app; [by eapply Hr|].
    destruct Hff as [_ Hb Hn _]. rewrite Eb in Hb, Hn. inversion Hb as [|? ? [? ?] _]; subst. cbn in Hn.
    repeat split; [done..|]. by apply NoDup_app in Hn as [? _].
Qed.

Lemma flush_start_ok mailbox q : queue_ok q → queue_ok (flushSnippets mailbox q).
Proof.
  intros [Hk Ht Hw Hf Ha Hs Hr]. unfold flushSnippets.
  assert (Htimers : List.filter (λ m, m !=? mailbox) (qu_timers q) ≡ₚ om_keys (om_del mailbox (qu_queue q))).
  { rewrite Ht. by rewrite om_keys_del. }
  destruct (om_get mailbox (qu_queue q)) as [waiting|] eqn:Eg.
  - assert (Hw0 : (mailbox, waiting) ∈ qu_queue q) by by apply om_get_Some_elem.
    destruct (Hw _ _ Hw0) as (Hn & Hnil & Hask). destruct (chunk_ok (om_keys waiting) TRANSCRIPT_SNIPPET_BATCH_MAX ltac:(vm_compute; lia)) as [Ec Hb].
    apply continue_ok. constructor; cbn [qu_queue qu_timers qu_flushes qu_settled qu_asked qu_requests with_flushes]; try done.
    + by apply om_del_NoDup.
    + intros mb w [? _]%om_del_elem. by eapply Hw.
    + intros f [Hin| ->%list_elem_of_singleton]%elem_of_app; [by apply Hf|]. constructor; cbn; try done. by rewrite Ec.
    + rewrite <- Ha, flat_map_app. unfold queued. cbn [qu_queue flat_map]. rewrite (flat_map_del _ _ _ _ Hk Eg). cbn [snd].
      assert (E : in_flight (Build_flush mailbox waiting (chunk (om_keys waiting) TRANSCRIPT_SNIPPET_BATCH_MAX)) = om_values waiting).
      { unfold in_flight. cbn [fl_waiting fl_batches]. by rewrite Ec, waiters_of_keys. }
      rewrite E, app_nil_r. solve_Permutation.
  - constructor; cbn [qu_queue qu_timers qu_flushes qu_settled qu_asked qu_requests]; try done.
    + by apply om_del_NoDup.
    + intros mb w [? _]%om_del_elem. by eapply Hw.
    + rewrite <- Ha. unfold queued. cbn [qu_queue]. by rewrite om_del_absent.
Qed.

(** ** Answers *)

Lemma settle_page_waiters waiting ids items : List.map fst (settle_page waiting ids items) = waiters_of waiting ids.
Proof.
  unfold settle_page, waiters_of. induction ids as [|id ids IH]; cbn; [done|]. rewrite List.map_app, IH. f_equal.
  rewrite List.map_map. by apply List.map_id.
Qed.

Lemma settle_error_waiters waiting ids err : List.map fst (settle_error waiting ids err) = waiters_of waiting ids.
Proof.
  unfold settle_error, waiters_of. induction ids as [|id ids IH]; cbn; [done|]. rewrite List.map_app, IH. f_equal.
  rewrite List.map_map. by apply List.map_id.
Qed.

(** A message's waiters are told of that message. *)
Lemma tell_message id items sn :
  tell id (om_get id (om_of_list (List.map (λ item, (sn_message_id item, item)) items))) = resolved sn → sn_message_id sn = id.
Proof.
  unfold tell. destruct (om_get id _) as [item|] eqn:E; [|by intros [= <-]].
  apply om_get_Some_elem, om_of_list_elem, elem_of_lmap in E as (item' & [= -> ->] & _).
  destruct (sn_status item'), (sn_snippet item'); by intros [= <-].
Qed.

Lemma settle_page_told asked waiting ids items w sn :
  asked_for asked waiting → (w, resolved sn) ∈ settle_page waiting ids items → asked !! w = Some (sn_message_id sn).
Proof.
  intros Ha Hin. unfold settle_page in Hin. apply list_elem_of_In, in_flat_map in Hin as (id & _ & Hin).
  apply list_elem_of_In, elem_of_lmap in Hin as (w' & [= <- Et] & Hw). symmetry in Et. rewrite (tell_message _ _ _ Et).
  destruct (om_get id waiting) as [l|] eqn:E; [|by apply elem_of_nil in Hw]. apply om_get_Some_elem in E. by eapply Ha.
Qed.

Lemma settle_error_told waiting ids err w sn : (w, resolved sn) ∉ settle_error waiting ids err.
Proof.
  intros Hin. unfold settle_error in Hin. apply list_elem_of_In, in_flat_map in Hin as (id & _ & Hin).
  by apply list_elem_of_In, elem_of_lmap in Hin as (w' & [=] & _).
Qed.

Lemma answer_ok i page q q' : queue_ok q → answered i page q = Some q' → queue_ok q'.
Proof.
  intros [Hk Ht Hw Hf Ha Hs Hr]. unfold answered.
  destruct (qu_flushes q !! i) as [[mailbox waiting [|ids batches]]|] eqn:Ei; [done| |done]. intros [= <-].
  apply continue_ok.
  pose proof (take_drop_middle _ _ _ Ei) as Emid.
  assert (Hff : flush_ok (qu_asked q) (Build_flush mailbox waiting (ids :: batches))) by (apply Hf; by eapply list_elem_of_lookup_2).
  pose proof Hff as [Fk Fb Fi Fa]. cbn in Fk, Fb, Fi, Fa.
  set (news := match page with inr items => settle_page waiting ids items | inl err => settle_error waiting ids err end).
  assert (Hnews : List.map fst news = waiters_of waiting ids)
    by (unfold news; destruct page; [apply settle_error_waiters|apply settle_page_waiters]).
  constructor; cbn [qu_queue qu_timers qu_flushes qu_settled qu_asked qu_requests with_flushes]; try done.
  - intros f Hin. rewrite elem_of_app, elem_of_cons in Hin.
    assert (Hf' : f = Build_flush mailbox waiting batches ∨ f ∈ qu_flushes q).
    { rewrite <- Emid, elem_of_app, elem_of_cons. tauto. }
    destruct Hf' as [->|?]; [|by apply Hf]. constructor; cbn; try done; [by inversion Fb|]. by apply NoDup_app in Fi as (_ & _ & ?).
  - assert (E0 : flat_map in_flight (qu_flushes q)
                 = flat_map in_flight (take i (qu_flushes q)) ++ in_flight (Build_flush mailbox waiting (ids :: batches))
                   ++ flat_map in_flight (drop (S i) (qu_flushes q))) by (rewrite <- Emid at 1; by rewrite flat_map_app).
    rewrite <- Ha, E0, !flat_map_app, List.map_app, Hnews. cbn [flat_map]. unfold queued. cbn [qu_queue].
    assert (E : in_flight (Build_flush mailbox waiting (ids :: batches))
                = waiters_of waiting ids ++ in_flight (Build_flush mailbox waiting batches))
      by (unfold in_flight, waiters_of; cbn [fl_waiting fl_batches List.concat]; by rewrite flat_map_app).
    rewrite E. solve_Permutation.
  - intros w sn [Hin|Hin]%elem_of_app; [by apply Hs|]. unfold news in Hin.
    destruct page; [by apply settle_error_told in Hin|by eapply settle_page_told].
Qed.

(** A flush in the list has a request under way. *)
Definition busy (q : Queue) : Prop := ∀ f, f ∈ qu_flushes q → fl_batches f ≠ [].

Lemma continue_busy f before after q :
  (∀ f', f' ∈ before ++ after → fl_batches f' ≠ []) → busy (continue f before after q).
Proof.
  intros H. unfold continue, busy. destruct (fl_batches f) as [|ids batches] eqn:E; [done|].
  intros f' Hin. cbn in Hin. rewrite elem_of_app, elem_of_cons in Hin.
  destruct Hin as [Hin|[->|Hin]]; [apply H, elem_of_app; by left|by rewrite E|apply H, elem_of_app; by right].
Qed.

Lemma queue_step_ok q e q' : queue_ok q → busy q → queue_step q e = Some q' → queue_ok q' ∧ busy q'.
Proof.
  intros Hq Hb. destruct e as [mailbox message|mailbox|i page]; cbn [queue_step].
  - intros [= <-]. split; [by apply loadSnippet_ok|]. unfold loadSnippet. by destruct (om_get mailbox (qu_queue q)).
  - destruct (includes _ _); [|done]. intros [= <-]. split; [by apply flush_start_ok|]. unfold flushSnippets.
    destruct (om_get mailbox (qu_queue q)); [|done]. apply continue_busy. by rewrite app_nil_r.
  - intros H. split; [by eapply answer_ok|]. unfold answered in H.
    destruct (qu_flushes q !! i) as [[mb waiting [|ids batches]]|] eqn:Ei; [done| |done]. injection H as <-.
    apply continue_busy. intros f Hin. apply Hb. rewrite <- (take_drop_middle _ _ _ Ei), elem_of_app, elem_of_cons.
    rewrite elem_of_app in Hin. tauto.
Qed.

Lemma queue_run_ok q events q' : queue_ok q → busy q → queue_run q events = Some q' → queue_ok q' ∧ busy q'.
Proof.
  revert q. induction events as [|e events IH]; cbn; intros q Hq Hb H; [by simplify_eq|].
  destruct (queue_step q e) as [q1|] eqn:E; [|done]. destruct (queue_step_ok _ _ _ Hq Hb E). by eapply IH.
Qed.

(** ** Nothing waits for ever *)

(** Timers to fire and requests to answer until everything asked for so far is
    settled. *)
Definition pending (q : Queue) : nat :=
  (length (flat_map (λ p, O :: List.map (@length Z) (chunk (om_keys p.2) TRANSCRIPT_SNIPPET_BATCH_MAX)) (qu_queue q)) +
   length (flat_map (λ f, List.map (@length Z) (fl_batches f)) (qu_flushes q)))%nat.

Definition settling (e : queue_event) : bool := match e with qe_load _ _ => false | _ => true end.

Lemma continue_pending f before after q :
  pending (continue f before after q) = pending (with_flushes (before ++ f :: after) q).
Proof.
  unfold continue, pending. destruct (fl_batches f) as [|ids batches] eqn:E; [|done].
  cbn [with_flushes qu_queue qu_flushes]. rewrite !flat_map_app. cbn [flat_map]. by rewrite E.
Qed.

Lemma settling_step q e q' :
  queue_ok q → settling e = true → queue_step q e = Some q' → pending q = S (pending q').
Proof.
  intros Hq He H. destruct e as [mailbox message|mailbox|i page]; [done| |]; cbn [queue_step] in H.
  - destruct (includes _ _) eqn:Ei; [|done]. injection H as <-. apply includes_true in Ei.
    rewrite (qo_timers _ Hq) in Ei. unfold flushSnippets.
    destruct (om_get mailbox (qu_queue q)) as [waiting|] eqn:Eg; [|by apply om_get_None in Eg].
    rewrite continue_pending. unfold pending. cbn [with_flushes qu_queue qu_flushes fl_batches].
    rewrite (flat_map_del _ _ _ _ (qo_keys _ Hq) Eg), flat_map_app. cbn [flat_map snd fl_batches].
    rewrite !length_app. cbn [length]. lia.
  - unfold answered in H. destruct (qu_flushes q !! i) as [[mb waiting [|ids batches]]|] eqn:Ei; [done| |done]. injection H as <-.
    rewrite continue_pending. unfold pending. cbn [with_flushes qu_queue qu_flushes].
    assert (E0 : flat_map (λ f, List.map (@length Z) (fl_batches f)) (qu_flushes q)
                 = flat_map (λ f, List.map (@length Z) (fl_batches f)) (take i (qu_flushes q)) ++ (length ids :: List.map (@length Z) batches)
                   ++ flat_map (λ f, List.map (@length Z) (fl_batches f)) (drop (S i) (qu_flushes q)))
      by (rewrite <- (take_drop_middle _ _ _ Ei) at 1; by rewrite flat_map_app).
    rewrite E0, flat_map_app. cbn [flat_map fl_batches]. rewrite !length_app. cbn [length]. lia.
Qed.

Lemma settling_run q events q' :
  queue_ok q → busy q → forallb settling events = true → queue_run q events = Some q' →
  pending q = (length events + pending q')%nat.
Proof.
  revert q. induction events as [|e events IH]; cbn; intros q Hq Hb Hs H; [by simplify_eq|].
  apply andb_true_iff in Hs as [He Hs]. destruct (queue_step q e) as [q1|] eqn:E; [|done].
  destruct (queue_step_ok _ _ _ Hq Hb E). rewrite (settling_step _ _ _ Hq He E). f_equal. by apply IH.
Qed.

Lemma nothing_pending q : queue_ok q → busy q → pending q = O →
  List.map fst (qu_settled q) ≡ₚ seq 0 (length (qu_asked q)).
Proof.
  intros Hq Hb Hp. rewrite <- (qo_all _ Hq). unfold queued, pending in *.
  destruct (qu_queue q) as [|p l]; [|done]. destruct (qu_flushes q) as [|f l] eqn:Ef; [by rewrite !app_nil_r|].
  exfalso. apply (Hb f); [rewrite Ef; left|]. cbn in Hp. by destruct (fl_batches f).
Qed.

Lemma something_pending q : queue_ok q → busy q → pending q ≠ O → ∃ e q', settling e = true ∧ queue_step q e = Some q'.
Proof.
  intros Hq Hb Hp. destruct (qu_queue q) as [|[mailbox waiting] l] eqn:Eq.
  - destruct (qu_flushes q) as [|[mb w [|ids batches]] l] eqn:Ef; [unfold pending in Hp; by rewrite Eq, Ef in Hp| |].
    + exfalso. refine (Hb (Build_flush mb w []) _ eq_refl). rewrite Ef. left.
    + exists (qe_answer 0 (inr [])). eexists. split; [done|]. cbn. unfold answered. by rewrite Ef.
  - exists (qe_timer mailbox). eexists. split; [done|]. cbn.
    assert (E : includes (qu_timers q) mailbox = true); [|by rewrite E].
    apply includes_true. rewrite (qo_timers _ Hq), Eq. left.
Qed.

(** C26 Every snippet asked for is settled once, however loads, timers and
    answers interleave over however many mailboxes: from any state, a timer or
    an answer is due as long as something is unsettled, and after [pending] of
    them everything is; a promise resolves with the snippet of its own
    message; and a request asks for one to fifty distinct messages. *)
Theorem snippets_settle (events more : list queue_event) (q q' : Queue) :
  queue_run empty_queue events = Some q → forallb settling more = true → queue_run q more = Some q' →
  (length more ≤ pending q)%nat ∧
  ((length more < pending q)%nat → ∃ e q'', settling e = true ∧ queue_step q' e = Some q'') ∧
  (length more = pending q → List.map fst (qu_settled q') ≡ₚ seq 0 (length (qu_asked q'))) ∧
  NoDup (List.map fst (qu_settled q')) ∧
  (∀ w sn, (w, resolved sn) ∈ qu_settled q' → qu_asked q' !! w = Some (sn_message_id sn)) ∧
  (∀ mailbox ids, (mailbox, ids) ∈ qu_requests q' →
     (1 ≤ length ids ≤ TRANSCRIPT_SNIPPET_BATCH_MAX)%nat ∧ NoDup ids).
Proof.
  intros H1 Hs H2. destruct (queue_run_ok _ _ _ empty_queue_ok ltac:(intros ? []%elem_of_nil) H1) as [Hq Hb].
  destruct (queue_run_ok _ _ _ Hq Hb H2) as [Hq' Hb']. pose proof (settling_run _ _ _ Hq Hb Hs H2) as Hp.
  repeat split; [lia| | | |by apply Hq'| | |].
  - intros. apply something_pending; [done..|lia].
  - intros. apply nothing_pending; [done..|lia].
  - pose proof (qo_all _ Hq') as Ha. assert (Hn : NoDup (seq 0 (length (qu_asked q')))) by apply NoDup_seq.
    rewrite <- Ha in Hn. by apply NoDup_app in Hn as [? _].
  - destruct (qo_requests _ Hq' _ _ H) as (? & _). destruct ids; [done|cbn; lia].
  - by destruct (qo_requests _ Hq' _ _ H) as (_ & ? & _).
  - by destruct (qo_requests _ Hq' _ _ H) as (_ & _ & ?).
Qed.

Definition sample_loads : list queue_event := [qe_load 1 10; qe_load 1 11; qe_load 2 10; qe_load 1 10].
Definition sample_answers : list queue_event :=
  [qe_timer 1; qe_timer 2;
   qe_answer 1 (inl other_error);
   qe_answer 0 (inr [Build_TranscriptSnippet 11 ts_done (Some "Hello"%string); Build_TranscriptSnippet 10 ts_pending None])].
Definition sample_loaded : Queue := Eval vm_compute in default empty_queue (queue_run empty_queue sample_loads).
Definition sample_settled : Queue := Eval vm_compute in default empty_queue (queue_run sample_loaded sample_answers).

Lemma snippets_settle_witness :
  qu_settled sample_settled
  = [(2%nat, rejected other_error); (0%nat, unavailable); (3%nat, unavailable);
     (1%nat, resolved (Build_TranscriptSnippet 11 ts_done (Some "Hello"%string)))] ∧
  (length sample_answers ≤ pending sample_loaded)%nat.
Proof.
  split; [reflexivity|].
  refine (proj1 (snippets_settle sample_loads sample_answers sample_loaded sample_settled _ _ _)); vm_compute; reflexivity.
Defined.

(** Messages asked for while a batch is under way are asked for at once: two
    requests of one mailbox run side by side. *)
Example batches_overlap :
  (q ← queue_run empty_queue [qe_load 1 10; qe_timer 1; qe_load 1 11; qe_timer 1];
   Some (List.map fl_mailbox (qu_flushes q), qu_requests q)) = Some ([1; 1], [(1, [10]); (1, [11])]).
Proof. reflexivity. Qed.

(** ** Polling *)

Lemma polls_bound answers entry since :
  te_activeSince entry = Some since → since ≤ te_fetchedAt entry →
  Forall (λ a, 0 ≤ a.2 ≤ TRANSCRIPT_WATCH_GAP_MS - TRANSCRIPT_POLL_MS) answers →
  TRANSCRIPT_POLL_MS * Z.of_nat (polls entry answers).2
  ≤ Z.max 0 (TRANSCRIPT_STALL_MS + TRANSCRIPT_POLL_MS - 1 - (te_fetchedAt entry - since)).
Proof.
  unfold TRANSCRIPT_WATCH_GAP_MS, TRANSCRIPT_STALL_MS. unfold TRANSCRIPT_POLL_MS.
  revert entry. induction answers as [|[status delay] answers IH]; intros entry Hs Hle Hall; [cbn; lia|].
  inversion Hall as [|? ? Hd Hall']; subst. cbn [snd] in Hd. cbn [polls].
  destruct (refetchInterval true (Some entry)) as [interval|] eqn:Ei; [|cbn; lia].
  unfold refetchInterval in Ei. cbn [negb orb] in Ei. destruct (isTranscriptActive (te_status entry)) eqn:Ea; [|done].
  cbn [negb] in Ei. destruct (isTranscriptStalled (Some entry)) eqn:Est; [done|]. injection Ei as <-.
  unfold isTranscriptStalled in Est. rewrite Hs, Ea in Est. cbn [andb] in Est. apply Z.leb_gt in Est.
  unfold TRANSCRIPT_STALL_MS in Est. unfold TRANSCRIPT_POLL_MS.
  set (now := te_fetchedAt entry + 5000 + delay). destruct (polls _ answers) as [e n] eqn:Ep. cbn [snd].
  assert (Hw : (now - te_fetchedAt entry <=? TRANSCRIPT_WATCH_GAP_MS) = true)
    by (apply Z.leb_le; unfold now, TRANSCRIPT_WATCH_GAP_MS, TRANSCRIPT_POLL_MS; lia).
  destruct (isTranscriptActive status) eqn:Ea'.
  - specialize (IH (fetched_entry (Some entry) status now)). rewrite Ep in IH. cbn [snd] in IH.
    assert (Eact : te_activeSince (fetched_entry (Some entry) status now) = Some since).
    { unfold fetched_entry. cbn [te_activeSince]. rewrite Ea', Hs, Ea, Hw. done. }
    specialize (IH Eact). cbn [fetched_entry te_fetchedAt] in IH. unfold now in *. specialize (IH ltac:(lia) Hall'). lia.
  - assert (En : n = O).
    { destruct answers as [|[s d] answers]; cbn [polls] in Ep; [by simplify_eq|].
      unfold refetchInterval in Ep. cbn [fetched_entry te_status negb orb] in Ep. rewrite Ea' in Ep. cbn in Ep. by simplify_eq. }
    rewrite En. lia.
Qed.

Lemma polls_end answers entry :
  ((polls entry answers).2 < length answers)%nat → refetchInterval true (Some (polls entry answers).1) = None.
Proof.
  revert entry. induction answers as [|[status delay] answers IH]; intros entry; cbn [polls length]; [lia|].
  destruct (refetchInterval true (Some entry)) as [interval|] eqn:E; [|intros _; exact E].
  specialize (IH (fetched_entry (Some entry) status (te_fetchedAt entry + interval + delay))).
  destruct (polls _ answers) as [e n]. cbn [fst snd] in *. intros. apply IH. lia.
Qed.

(** A transcript that is being made is polled for three minutes and no
    longer, when its answers come within six seconds: from the first fetch at
    most 36 more are made, whatever they say, and then polling has stopped. *)
Theorem polling_stops (entry : TranscriptEntry) (answers : list (TranscriptStatus * Z)) :
  te_activeSince entry = Some (te_fetchedAt entry) →
  Forall (λ a, 0 ≤ a.2 ≤ 6000) answers →
  ((polls entry answers).2 ≤ 36)%nat ∧
  ((36 < length answers)%nat → refetchInterval true (Some (polls entry answers).1) = None).
Proof.
  intros Hs Hall. pose proof (polls_bound answers entry _ Hs ltac:(lia) Hall) as Hb.
  unfold TRANSCRIPT_STALL_MS, TRANSCRIPT_POLL_MS in Hb. split; [lia|]. intros Hl. apply polls_end. lia.
Qed.

Definition first_entry : TranscriptEntry := fetched_entry None ts_pending 1000.
Definition steady_answers : list (TranscriptStatus * Z) := repeat (ts_processing, 300) 40.

Lemma polling_stops_witness :
  (polls first_entry steady_answers).2 = 34%nat ∧ refetchInterval true (Some (polls first_entry steady_answers).1) = None.
Proof.
  split; [reflexivity|]. apply (polling_stops first_entry steady_answers); [reflexivity| |cbn; lia].
  apply Forall_forall. intros a Ha. apply list_elem_of_In, repeat_spec in Ha as ->. cbn. lia.
Defined.

(** Answers that take longer start the three minutes anew each time: the
    transcript is polled without end. *)
Lemma slow_answers_poll_on (n : nat) (entry : TranscriptEntry) :
  te_activeSince entry = Some (te_fetchedAt entry) → te_status entry = ts_processing →
  (polls entry (repeat (ts_processing, 6001) n)).2 = n.
Proof.
  revert entry. induction n as [|n IH]; intros entry Hs He; [done|]. cbn [repeat polls].
  assert (Ei : refetchInterval true (Some entry) = Some TRANSCRIPT_POLL_MS).
  { unfold refetchInterval, isTranscriptStalled. rewrite He, Hs. cbn. by rewrite Z.sub_diag. }
  rewrite Ei. set (next := fetched_entry _ _ _). specialize (IH next). destruct (polls next _) as [e m] eqn:Ep. cbn [snd] in *.
  rewrite IH; [done| |done]. unfold next, fetched_entry. cbn [te_activeSince te_fetchedAt isTranscriptActive].
  rewrite Hs, He. change (isTranscriptActive ts_processing) with true. cbn [andb].
  assert (Hw : (te_fetchedAt entry + TRANSCRIPT_POLL_MS + 6001 - te_fetchedAt entry <=? TRANSCRIPT_WATCH_GAP_MS) = false)
    by (apply Z.leb_gt; unfold TRANSCRIPT_WATCH_GAP_MS, TRANSCRIPT_POLL_MS; lia).
  by rewrite Hw.
Qed.
