(* ===== verification/Player.v ===== *)
(** * Playing a message ([pages/voicemail/useAudioPlayer.ts])

    The hook that drives one audio element from short-lived playback URLs.
    The element is the browser's: what it reports are events, what the hook
    does to it is a list of commands.  Times of the clock are milliseconds,
    positions are seconds. *)
From Stdlib Require Import QArith.
From S2P Require Import Prelude JsString JsValue IvrError.

Local Close Scope Q_scope.
Local Open Scope string_scope.
Local Open Scope Z_scope.
Local Open Scope list_scope.

(** ** Wording of failures ([voicemailData.ts]) *)

Definition UNAVAILABLE_TEXT : string :=
  "Voicemail is temporarily unavailable. Your messages are safe — try again in a few minutes.".

Definition isUnavailable (err : thrown) : bool :=
  match err with
  | api_error e => (ae_status e =? 503) || (ae_status e =? 502) || (ae_status e =? 504)
  | other_error => false
  end.

Definition vmErrorText (err : thrown) (fallback : string) : string :=
  if isUnavailable err then UNAVAILABLE_TEXT
  else match err with
       | api_error e =>
           if ae_status e =? 403 then "Your account role can’t make that change."
           else if ae_status e =? 404 then "That item no longer exists — it may have been deleted."
           else if ae_status e =? 413 then "That file is too large to upload."
           else if (ae_message e !=? "") && (ae_status e <? 500) then ae_message e
           else fallback
       | other_error => fallback
       end.

Definition transcriptErrorText (err : thrown) (fallback : string) : string :=
  match err with
  | api_error e =>
      if (400 <=? ae_status e) && (ae_status e <? 500) && negb (ae_status e =? 404) && (ae_message e !=? "")
      then ae_message e else vmErrorText err fallback
  | other_error => vmErrorText err fallback
  end.

(** ** The player *)

Inductive PlayerStatus := ps_idle | ps_loading | ps_playing | ps_paused | ps_error.

#[export] Instance PlayerStatus_eq_dec : EqDecision PlayerStatus.
Proof. solve_decision. Defined.

Definition TOKEN_REFRESH_AFTER_MS : Z := 100000.
Definition TOKEN_EXPIRY_MARGIN_MS : Z := 15000.
Definition PLAY_ERROR : string := "This recording couldn’t be played. Try again.".

Record PlaybackToken := { pt_url : string; pt_expires_in : Z }.

(** What is held of a token. *)
Record Held := { hd_url : string; hd_freshUntil : Z }.

(** What the hook asks of the server and of the element. *)
Inductive command :=
  | do_mint
  | do_src (url : string)
  | do_play
  | do_pause
  | do_seek (seconds : Q)
  | do_rate (rate : Q)
  | do_release.

(** [loadFresh], at its first or its second [await]. *)
Inductive load := minting (resumeAt : Q) | metadata (resumeAt : Q).

Record Player := {
  pl_mounted : bool;
  pl_token : option Held;
  pl_wantPlay : bool;
  pl_recovering : bool;
  pl_loading : bool;
  pl_lastTime : Q;
  pl_rate : Q;
  pl_status : PlayerStatus;
  pl_error : option string;
  pl_currentTime : Q;
  pl_mediaDuration : Q;
  pl_load : option load;
  pl_plays : nat;
  pl_log : list command;
}.

Definition initial_player : Player :=
  Build_Player true None false false false 0%Q 1%Q ps_idle None 0%Q 0%Q None 0 [].

(** *** Updates *)

Definition log (c : list command) (p : Player) : Player :=
  Build_Player (pl_mounted p) (pl_token p) (pl_wantPlay p) (pl_recovering p) (pl_loading p) (pl_lastTime p) (pl_rate p)
    (pl_status p) (pl_error p) (pl_currentTime p) (pl_mediaDuration p) (pl_load p) (pl_plays p) (pl_log p ++ c).

(** The refs: token, wantPlay, recovering, loading, lastTime. *)
Definition refs (token : option Held) (wantPlay recovering loading : bool) (lastTime : Q) (p : Player) : Player :=
  Build_Player (pl_mounted p) token wantPlay recovering loading lastTime (pl_rate p) (pl_status p) (pl_error p)
    (pl_currentTime p) (pl_mediaDuration p) (pl_load p) (pl_plays p) (pl_log p).
Definition setToken (t : Held) (p : Player) : Player :=
  refs (Some t) (pl_wantPlay p) (pl_recovering p) (pl_loading p) (pl_lastTime p) p.
Definition setWantPlay (b : bool) (p : Player) : Player :=
  refs (pl_token p) b (pl_recovering p) (pl_loading p) (pl_lastTime p) p.
Definition setRecovering (b : bool) (p : Player) : Player :=
  refs (pl_token p) (pl_wantPlay p) b (pl_loading p) (pl_lastTime p) p.
Definition setLoading (b : bool) (p : Player) : Player :=
  refs (pl_token p) (pl_wantPlay p) (pl_recovering p) b (pl_lastTime p) p.
Definition setLastTime (t : Q) (p : Player) : Player :=
  refs (pl_token p) (pl_wantPlay p) (pl_recovering p) (pl_loading p) t p.

(** The rendered state: nothing once unmounted. *)
Definition render (status : PlayerStatus) (error : option string) (currentTime mediaDuration : Q) (p : Player) : Player :=
  if pl_mounted p then
    Build_Player true (pl_token p) (pl_wantPlay p) (pl_recovering p) (pl_loading p) (pl_lastTime p) (pl_rate p) status error
      currentTime mediaDuration (pl_load p) (pl_plays p) (pl_log p)
  else p.
Definition setStatus (s : PlayerStatus) (p : Player) : Player := render s (pl_error p) (pl_currentTime p) (pl_mediaDuration p) p.
Definition setError (e : option string) (p : Player) : Player := render (pl_status p) e (pl_currentTime p) (pl_mediaDuration p) p.
Definition setCurrentTime (t : Q) (p : Player) : Player := render (pl_status p) (pl_error p) t (pl_mediaDuration p) p.
Definition setMediaDuration (d : Q) (p : Player) : Player := render (pl_status p) (pl_error p) (pl_currentTime p) d p.

Definition promises (l : option load) (plays : nat) (p : Player) : Player :=
  Build_Player (pl_mounted p) (pl_token p) (pl_wantPlay p) (pl_recovering p) (pl_loading p) (pl_lastTime p) (pl_rate p)
    (pl_status p) (pl_error p) (pl_currentTime p) (pl_mediaDuration p) l plays (pl_log p).

(** *** Loading *)

(** [loadFresh] up to [await mint()]. *)
Definition loadFresh (resumeAt : Q) (p : Player) : Player :=
  log [do_mint] (promises (Some (minting resumeAt)) (pl_plays p) (setStatus ps_loading (setLoading true p))).

Definition fail (err : thrown) (p : Player) : Player :=
  setError (Some (vmErrorText err PLAY_ERROR)) (setStatus ps_error (setWantPlay false p)).

(** [if (wantPlayRef.current) await audio.play(); else setStatus('paused')] *)
Definition play_or_pause (p : Player) : Player :=
  if pl_wantPlay p then log [do_play] (promises (pl_load p) (S (pl_plays p)) p) else setStatus ps_paused p.

(** [loadFresh] has returned: [finally], then what awaited it. *)
Definition loaded (p : Player) : Player := play_or_pause (setLoading false (promises None (pl_plays p) p)).

(** [loadFresh] has thrown. *)
Definition load_failed (err : thrown) (p : Player) : Player := fail err (setLoading false (promises None (pl_plays p) p)).

Definition hold (token : PlaybackToken) (now : Z) : Held :=
  let lifetimeMs := Z.max 20 (pt_expires_in token) * 1000 in
  Build_Held (pt_url token) (now + Z.min TOKEN_REFRESH_AFTER_MS (lifetimeMs - TOKEN_EXPIRY_MARGIN_MS)).

(** After [await mint()]: the source is set, and a position that is not the
    start waits for the metadata. *)
Definition minted (resumeAt : Q) (token : PlaybackToken) (now : Z) (p : Player) : Player :=
  let p := log [do_rate (pl_rate p); do_src (pt_url token); do_rate (pl_rate p)] (setToken (hold token now) p) in
  if Qle_bool resumeAt 0 then loaded p else promises (Some (metadata resumeAt)) (pl_plays p) p.

(** [waitForMetadata] resolved, by the metadata or by its time limit. *)
Definition metadata_come (resumeAt : Q) (p : Player) : Player := loaded (log [do_seek resumeAt] p).

(** *** The element's events *)

Definition recover (p : Player) : Player :=
  if negb (pl_mounted p) || (match pl_token p with None => true | Some _ => false end) || pl_loading p then p
  else if pl_recovering p then fail other_error p
  else loadFresh (pl_lastTime p) (setRecovering true p).

Definition onTime (t : Q) (p : Player) : Player := setCurrentTime t (setLastTime t p).
Definition onMeta (duration : num) (p : Player) : Player :=
  match duration with Fin d => if Qle_bool d 0 then p else setMediaDuration d p | _ => p end.
Definition onPlaying (p : Player) : Player := setStatus ps_playing (setError None (setRecovering false p)).
Definition onPause (p : Player) : Player := if pl_loading p then p else setStatus ps_paused p.
Definition onWaiting (p : Player) : Player := setStatus ps_loading p.

(** *** The customer *)

Definition is_fresh (now : Z) (p : Player) : bool :=
  match pl_token p with Some t => now <=? hd_freshUntil t | None => false end.

(** [paused] is [audio.paused]. *)
Definition toggle (paused : bool) (now : Z) (p : Player) : Player :=
  if negb (pl_mounted p) then p
  else if pl_loading p then setWantPlay false p
  else if negb paused then log [do_pause] (setWantPlay false p)
  else
    let p := setError None (setWantPlay true p) in
    if is_fresh now p then play_or_pause p else loadFresh (pl_lastTime p) (setRecovering false p).

Definition duration (fallbackDurationSec : Q) (p : Player) : Q :=
  if Qle_bool (pl_mediaDuration p) 0 then fallbackDurationSec else pl_mediaDuration p.

Definition seek (seconds : num) (fallbackDurationSec : Q) (p : Player) : Player :=
  let s := match seconds with Fin q => q | _ => 0%Q end in
  let d := duration fallbackDurationSec p in
  let clipped := if Qle_bool s d then s else d in
  let target := if Qle_bool clipped 0 then 0%Q else clipped in
  let p := setCurrentTime target (setLastTime target p) in
  if pl_mounted p && (match pl_token p with Some _ => true | None => false end) then log [do_seek target] p else p.

Definition setRate (next : Q) (p : Player) : Player :=
  let p := Build_Player (pl_mounted p) (pl_token p) (pl_wantPlay p) (pl_recovering p) (pl_loading p) (pl_lastTime p) next
             (pl_status p) (pl_error p) (pl_currentTime p) (pl_mediaDuration p) (pl_load p) (pl_plays p) (pl_log p) in
  if pl_mounted p then log [do_rate next; do_rate next] p else p.

(** The clean-up of the effect.  The element has a source once a token has come. *)
Definition unmount_player (p : Player) : Player :=
  let p := log (do_pause :: (if pl_token p is Some _ then [do_release] else [])) p in
  Build_Player false (pl_token p) (pl_wantPlay p) (pl_recovering p) (pl_loading p) (pl_lastTime p) (pl_rate p)
    (pl_status p) (pl_error p) (pl_currentTime p) (pl_mediaDuration p) (pl_load p) (pl_plays p) (pl_log p).

(** *** Events *)

Inductive player_event :=
  | pe_toggle (paused : bool) (now : Z)
  | pe_seek (seconds : num) (fallback : Q)
  | pe_rate (rate : Q)
  | pe_unmount
  | pe_minted (token : PlaybackToken) (now : Z)
  | pe_mint_failed (err : thrown)
  | pe_metadata
  | pe_metadata_failed
  | pe_played
  | pe_play_failed (abort : bool)
  | pe_time (t : Q)
  | pe_meta (d : num)
  | pe_playing
  | pe_pause
  | pe_waiting
  | pe_error.

(** The listeners are off once unmounted. *)
Definition listened (p : Player) (p' : Player) : option Player := if pl_mounted p then Some p' else None.

Definition player_step (p : Player) (e : player_event) : option Player :=
  match e with
  | pe_toggle paused now => listened p (toggle paused now p)
  | pe_seek s fallback => listened p (seek s fallback p)
  | pe_rate r => listened p (setRate r p)
  | pe_unmount => listened p (unmount_player p)
  | pe_minted token now => match pl_load p with Some (minting at_) => Some (minted at_ token now p) | _ => None end
  | pe_mint_failed err => match pl_load p with Some (minting _) => Some (load_failed err p) | _ => None end
  | pe_metadata => match pl_load p with Some (metadata at_) => Some (metadata_come at_ p) | _ => None end
  | pe_metadata_failed => match pl_load p with Some (metadata _) => Some (load_failed other_error p) | _ => None end
  | pe_played => match pl_plays p with S n => Some (promises (pl_load p) n p) | O => None end
  | pe_play_failed abort =>
      match pl_plays p with
      | S n => let p := promises (pl_load p) n p in Some (if abort then p else fail other_error p)
      | O => None
      end
  | pe_time t => listened p (onTime t p)
  | pe_meta d => listened p (onMeta d p)
  | pe_playing => listened p (onPlaying p)
  | pe_pause => listened p (onPause p)
  | pe_waiting => listened p (onWaiting p)
  | pe_error => listened p (recover p)
  end.

Fixpoint player_run (p : Player) (events : list player_event) : option Player :=
  match events with
  | [] => Some p
  | e :: events => match player_step p e with Some p => player_run p events | None => None end
  end.
