(* ===== verification/PlayerOk.v ===== *)
(** * Playing a message: when a URL is minted, and when it plays *)
From Stdlib Require Import QArith.
From S2P Require Import Prelude JsString JsValue IvrError Player.

Local Close Scope Q_scope.
Local Open Scope string_scope.
Local Open Scope Z_scope.
Local Open Scope list_scope.

Definition is_mint (c : command) : bool := match c with do_mint => true | _ => false end.
Definition is_play (c : command) : bool := match c with do_play => true | _ => false end.
Definition is_toggle (e : player_event) : bool := match e with pe_toggle _ _ => true | _ => false end.
Definition is_playing (e : player_event) : bool := match e with pe_playing => true | _ => false end.

Definition how_many {A} (f : A → bool) (l : list A) : nat := length (List.filter f l).

Lemma how_many_app {A} (f : A → bool) l1 l2 : how_many f (l1 ++ l2) = (how_many f l1 + how_many f l2)%nat.
Proof. unfold how_many. by rewrite List.filter_app, length_app. Qed.

Lemma how_many_cons {A} (f : A → bool) x l : how_many f (x :: l) = ((if f x then 1 else 0) + how_many f l)%nat.
Proof. unfold how_many. simpl. by destruct (f x). Qed.

(** URLs minted so far. *)
Definition mints (p : Player) : nat := how_many is_mint (pl_log p).

Lemma mints_log c p : mints (log c p) = (mints p + how_many is_mint c)%nat.
Proof. apply how_many_app. Qed.

(** What the refs say of what is under way. *)
Record settled (p : Player) : Prop := {
  settled_load : pl_loading p = true ↔ is_Some (pl_load p);
  settled_source : pl_token p = None → pl_plays p = 0%nat ∧ how_many is_play (pl_log p) = 0%nat;
  settled_start : mints p = 0%nat → pl_token p = None ∧ pl_load p = None;
  settled_metadata : ∀ at_, pl_load p = Some (metadata at_) → pl_token p ≠ None;
}.

(** What one event can do: mint once, when nothing is loading, on a press, or
    on a failure that has not been recovered from yet. *)
Definition budget (p : Player) : nat := (mints p + (if pl_recovering p then 0 else 1))%nat.

(** Rendering touches nothing else. *)
Lemma token_render s e t d p : pl_token (render s e t d p) = pl_token p.
Proof. unfold render. by destruct (pl_mounted p). Qed.
Lemma wantPlay_render s e t d p : pl_wantPlay (render s e t d p) = pl_wantPlay p.
Proof. unfold render. by destruct (pl_mounted p). Qed.
Lemma recovering_render s e t d p : pl_recovering (render s e t d p) = pl_recovering p.
Proof. unfold render. by destruct (pl_mounted p). Qed.
Lemma loading_render s e t d p : pl_loading (render s e t d p) = pl_loading p.
Proof. unfold render. by destruct (pl_mounted p). Qed.
Lemma load_render s e t d p : pl_load (render s e t d p) = pl_load p.
Proof. unfold render. by destruct (pl_mounted p). Qed.
Lemma plays_render s e t d p : pl_plays (render s e t d p) = pl_plays p.
Proof. unfold render. by destruct (pl_mounted p). Qed.
Lemma log_render s e t d p : pl_log (render s e t d p) = pl_log p.
Proof. unfold render. by destruct (pl_mounted p). Qed.

Create Rewrite HintDb player.
#[local] Hint Rewrite token_render wantPlay_render recovering_render loading_render load_render plays_render log_render
  @how_many_app : player.

(** The refs, the promises and the log of an updated player. *)
Ltac core :=
  unfold budget, mints, loaded, load_failed, fail, loadFresh, onTime, onPlaying, onWaiting, metadata_come, setStatus, setError,
    setCurrentTime, setMediaDuration, setToken, setWantPlay, setRecovering, setLoading, setLastTime in *;
  repeat (progress (cbn [pl_token pl_wantPlay pl_recovering pl_loading pl_load pl_plays pl_log refs promises log] in *;
                    autorewrite with player in *)).

Lemma settled_same p p' :
  pl_token p' = pl_token p → pl_loading p' = pl_loading p → pl_load p' = pl_load p → pl_plays p' = pl_plays p →
  how_many is_mint (pl_log p') = how_many is_mint (pl_log p) → how_many is_play (pl_log p') = how_many is_play (pl_log p) →
  settled p → settled p'.
Proof. intros E1 E2 E3 E4 E5 E6 [Hl Hs Hm Hmd]. unfold mints in *. constructor; unfold mints; rewrite ?E1, ?E2, ?E3, ?E4, ?E5, ?E6; done. Qed.

Lemma settled_loadFresh at_ p : settled p → settled (loadFresh at_ p).
Proof.
  intros [Hl Hs Hm Hmd]. constructor; core.
  - split; [by eexists|done].
  - intros H. destruct (Hs H) as [-> ->]. done.
  - cbn. lia.
  - done.
Qed.

Lemma settled_play p : settled p → pl_token p ≠ None → settled (play_or_pause p).
Proof.
  intros [Hl Hs Hm Hmd] Ht. unfold play_or_pause. destruct (pl_wantPlay p).
  - constructor; core; [done|done| |done]. cbn. rewrite Nat.add_0_r. done.
  - by apply (settled_same p); core.
Qed.

Lemma settled_loaded p : pl_token p ≠ None → mints p ≠ 0%nat → settled (loaded p).
Proof.
  intros Ht Hm. apply settled_play; [|done]. constructor; core; [split; [done|by intros [? [=]]]|done|done|done].
Qed.

Lemma settled_failed err p : settled p → settled (load_failed err p).
Proof.
  intros [Hl Hs Hm Hmd]. constructor; core; [split; [done|by intros [? [=]]]|done| |done].
  intros H. by destruct (Hm H).
Qed.

Lemma settled_quiet c p : how_many is_mint c = 0%nat → how_many is_play c = 0%nat → settled p → settled (log c p).
Proof. intros E1 E2. apply settled_same; core; rewrite ?E1, ?E2; lia || done. Qed.

Lemma settled_step p e p' : settled p → player_step p e = Some p' → settled p'.
Proof.
  intros Hs. destruct e; cbn [player_step]; unfold listened; intros H.
  - destruct (pl_mounted p) eqn:Em; [|done]. injection H as <-. unfold toggle. rewrite Em. cbn [negb].
    destruct (pl_loading p); [by apply (settled_same p); core|].
    destruct paused; cbn [negb].
    + assert (Hs1 : settled (setError None (setWantPlay true p))) by (by apply (settled_same p); core).
      destruct (is_fresh now _) eqn:Ef.
      * apply settled_play; [done|]. unfold is_fresh in Ef. by destruct (pl_token (setError None (setWantPlay true p))).
      * apply settled_loadFresh. by apply (settled_same p); core.
    + apply settled_quiet; [done..|]. by apply (settled_same p); core.
  - destruct (pl_mounted p) eqn:Em; [|done]. injection H as <-. unfold seek. 
    destruct (pl_mounted _ && _); [apply settled_quiet; [done..|]|]; by apply (settled_same p); core.
  - destruct (pl_mounted p) eqn:Em; [|done]. injection H as <-. unfold setRate. rewrite Em.
    apply settled_quiet; [done..|]. by apply (settled_same p).
  - destruct (pl_mounted p) eqn:Em; [|done]. injection H as <-.
    unfold unmount_player. destruct (pl_token p) eqn:Et; apply (settled_same p); core; cbn; lia || done.
  - destruct (pl_load p) as [[at_|]|] eqn:El; [|done..]. injection H as <-.
    assert (Hm : mints p ≠ 0%nat) by (intros E; by destruct (settled_start _ Hs E) as [_ ?]; congruence).
    unfold minted. set (p1 := log _ _). assert (Hm1 : mints p1 ≠ 0%nat) by (unfold p1; core; cbn; lia).
    destruct (Qle_bool at_ 0); [by apply settled_loaded|].
    destruct Hs as [Hl Hsrc Hst Hmd]. constructor; unfold p1; core; [rewrite Hl, El; split; by eexists|done| |done]. cbn. lia.
  - destruct (pl_load p) as [[at_|]|] eqn:El; [|done..]. injection H as <-. by apply settled_failed.
  - destruct (pl_load p) as [[|at_]|] eqn:El; [done| |done]. injection H as <-. 
    assert (Hm : mints p ≠ 0%nat) by (intros E; by destruct (settled_start _ Hs E) as [_ ?]; congruence).
    apply settled_loaded; [|core; cbn; lia]. exact (settled_metadata _ Hs at_ El).
  - destruct (pl_load p) as [[|at_]|] eqn:El; [done| |done]. injection H as <-. by apply settled_failed.
  - destruct (pl_plays p) eqn:Ep; [done|]. injection H as <-. destruct Hs as [Hl Hsrc Hst Hmd]. constructor; core; [done| |done|done].
    intros Ht. destruct (Hsrc Ht). lia.
  - destruct (pl_plays p) eqn:Ep; [done|]. injection H as <-. 
    assert (settled (promises (pl_load p) n p)).
    { destruct Hs as [Hl Hsrc Hst Hmd]. constructor; core; [done| |done|done]. intros Ht. destruct (Hsrc Ht). lia. }
    destruct abort; [done|]. by apply (settled_same (promises (pl_load p) n p)); core.
  - destruct (pl_mounted p); [|done]. injection H as <-. by apply (settled_same p); core.
  - destruct (pl_mounted p); [|done]. injection H as <-. unfold onMeta. destruct d; try done.
    destruct (Qle_bool q 0); [done|]. by apply (settled_same p); core.
  - destruct (pl_mounted p); [|done]. injection H as <-. by apply (settled_same p); core.
  - destruct (pl_mounted p); [|done]. injection H as <-. unfold onPause. destruct (pl_loading p); [done|]. by apply (settled_same p); core.
  - destruct (pl_mounted p); [|done]. injection H as <-. by apply (settled_same p); core.
  - destruct (pl_mounted p) eqn:Em; [|done]. injection H as <-. unfold recover. rewrite Em. cbn [negb orb].
    destruct (pl_token p) eqn:Et; [|done]. cbn [orb]. destruct (pl_loading p) eqn:El; [done|].
    destruct (pl_recovering p); [by apply (settled_same p); core|]. apply settled_loadFresh. by apply (settled_same p); core.
Qed.

Lemma budget_same p p' :
  pl_recovering p' = pl_recovering p → how_many is_mint (pl_log p') = how_many is_mint (pl_log p) → budget p' = budget p.
Proof. unfold budget, mints. by intros -> ->. Qed.

Lemma budget_play p : budget (play_or_pause p) = budget p.
Proof. unfold play_or_pause. destruct (pl_wantPlay p); apply budget_same; core; cbn; lia || done. Qed.

Lemma budget_loadFresh at_ p : budget (loadFresh at_ p) = S (budget p).
Proof. core. cbn. destruct (pl_recovering p); lia. Qed.

(** A press costs two, playback one, anything else nothing. *)
Lemma budget_step p e p' :
  player_step p e = Some p' → (budget p' ≤ budget p + (if is_toggle e then 2 else 0) + (if is_playing e then 1 else 0))%nat.
Proof.
  assert (Hsame : ∀ q, budget q = budget p → (budget q ≤ budget p + 0 + 0)%nat) by lia.
  assert (Hless : ∀ q k, budget q = budget p → (budget q ≤ budget p + k + 0)%nat) by lia.
  destruct e; cbn [player_step is_toggle is_playing]; unfold listened; intros H.
  - destruct (pl_mounted p) eqn:Em; [|done]. injection H as <-. unfold toggle. rewrite Em. cbn [negb].
    destruct (pl_loading p); [by apply Hless, budget_same; core|].
    destruct paused; cbn [negb]; [|apply Hless, budget_same; core; cbn; lia || done].
    destruct (is_fresh now _).
    + apply Hless. rewrite budget_play. by apply budget_same; core.
    + rewrite budget_loadFresh. core. destruct (pl_recovering p); lia.
  - destruct (pl_mounted p); [|done]. injection H as <-. apply Hsame. unfold seek.
    destruct (pl_mounted _ && _); apply budget_same; core; cbn; lia || done.
  - destruct (pl_mounted p) eqn:Em; [|done]. injection H as <-. apply Hsame. unfold setRate. cbn [pl_mounted]. rewrite Em. apply budget_same; core; cbn; lia || done.
  - destruct (pl_mounted p); [|done]. injection H as <-. apply Hsame. apply budget_same; [done|]. unfold unmount_player. destruct (pl_token p); core; cbn; lia.
  - destruct (pl_load p) as [[at_|]|]; [|done..]. injection H as <-. apply Hsame. unfold minted.
    destruct (Qle_bool at_ 0); [unfold loaded; rewrite budget_play|]; apply budget_same; core; cbn; lia || done.
  - destruct (pl_load p) as [[at_|]|]; [|done..]. injection H as <-. apply Hsame, budget_same; by core.
  - destruct (pl_load p) as [[|at_]|]; [done| |done]. injection H as <-. apply Hsame. unfold metadata_come, loaded.
    rewrite budget_play. apply budget_same; core; cbn; lia || done.
  - destruct (pl_load p) as [[|at_]|]; [done| |done]. injection H as <-. apply Hsame, budget_same; by core.
  - destruct (pl_plays p); [done|]. injection H as <-. by apply Hsame, budget_same.
  - destruct (pl_plays p); [done|]. injection H as <-. apply Hsame. destruct abort; apply budget_same; by core.
  - destruct (pl_mounted p); [|done]. injection H as <-. apply Hsame, budget_same; by core.
  - destruct (pl_mounted p); [|done]. injection H as <-. apply Hsame. unfold onMeta. destruct d; try done.
    destruct (Qle_bool q 0); [done|]. apply budget_same; by core.
  - destruct (pl_mounted p); [|done]. injection H as <-. core. destruct (pl_recovering p); lia.
  - destruct (pl_mounted p); [|done]. injection H as <-. apply Hsame. unfold onPause. destruct (pl_loading p); [done|]. apply budget_same; by core.
  - destruct (pl_mounted p); [|done]. injection H as <-. apply Hsame, budget_same; by core.
  - destruct (pl_mounted p) eqn:Em; [|done]. injection H as <-. unfold recover. rewrite Em. cbn [negb orb].
    destruct (pl_token p); cbn [orb]; [|lia]. destruct (pl_loading p); [lia|].
    destruct (pl_recovering p) eqn:Er; [by apply Hless, budget_same; core|]. rewrite budget_loadFresh. core. rewrite Er. lia.
Qed.

(** ** Runs *)

Lemma run_settled events p p' : settled p → player_run p events = Some p' → settled p'.
Proof.
  revert p. induction events as [|e events IH]; intros p Hp; cbn [player_run]; [by intros [= <-]|].
  destruct (player_step p e) as [p1|] eqn:E; [|done]. intros H. by apply (IH p1); [eapply settled_step|].
Qed.

Lemma initial_settled : settled initial_player.
Proof. constructor; cbn; done || by split; [|intros [? [=]]]. Qed.

(** Before the first press: nothing is minted, an error of the element
    needing a token to be recovered from. *)
Definition unpressed (p : Player) : Prop :=
  pl_token p = None ∧ pl_load p = None ∧ pl_recovering p = false ∧ mints p = 0%nat.

Lemma unpressed_same p p' :
  pl_token p' = pl_token p → pl_load p' = pl_load p → pl_recovering p' = pl_recovering p →
  how_many is_mint (pl_log p') = how_many is_mint (pl_log p) → unpressed p → unpressed p'.
Proof. unfold unpressed, mints. by intros -> -> -> ->. Qed.

Lemma unpressed_step p e p' : unpressed p → is_toggle e = false → player_step p e = Some p' → unpressed p'.
Proof.
  intros Hp. pose proof Hp as (Ht & Hl & Hr & _).
  destruct e; cbn [player_step is_toggle]; unfold listened; rewrite ?Hl; try done; intros _ H.
  - destruct (pl_mounted p); [|done]. injection H as <-. unfold seek.
    destruct (pl_mounted _ && _); apply (unpressed_same p); core; cbn; lia || done.
  - destruct (pl_mounted p) eqn:Em; [|done]. injection H as <-. unfold setRate. cbn [pl_mounted]. rewrite Em.
    apply (unpressed_same p); core; cbn; lia || done.
  - destruct (pl_mounted p); [|done]. injection H as <-. apply (unpressed_same p); try done. unfold unmount_player. destruct (pl_token p); core; cbn; lia.
  - destruct (pl_plays p); [done|]. injection H as <-. rewrite <-Hl. apply (unpressed_same p); done.
  - destruct (pl_plays p); [done|]. injection H as <-. destruct abort; apply (unpressed_same p); core; done.
  - destruct (pl_mounted p); [|done]. injection H as <-. apply (unpressed_same p); core; done.
  - destruct (pl_mounted p); [|done]. injection H as <-. unfold onMeta. destruct d; [|done..].
    destruct (Qle_bool q 0); [done|]. apply (unpressed_same p); core; done.
  - destruct (pl_mounted p); [|done]. injection H as <-. apply (unpressed_same p); core; done.
  - destruct (pl_mounted p); [|done]. injection H as <-. unfold onPause. destruct (pl_loading p); [done|]. apply (unpressed_same p); core; done.
  - destruct (pl_mounted p); [|done]. injection H as <-. apply (unpressed_same p); core; done.
  - destruct (pl_mounted p); [|done]. injection H as <-. unfold recover. by rewrite Ht, orb_true_r.
Qed.

(** A press with no failure to recover from costs one. *)
Lemma first_press p paused now : pl_recovering p = false → (budget (toggle paused now p) ≤ budget p + 1)%nat.
Proof.
  intros Hr. unfold toggle. destruct (pl_mounted p); cbn [negb]; [|lia].
  assert (Hless : ∀ q, budget q = budget p → (budget q ≤ budget p + 1)%nat) by lia.
  destruct (pl_loading p); [by apply Hless, budget_same; core|].
  destruct paused; cbn [negb]; [|apply Hless, budget_same; core; cbn; lia || done].
  destruct (is_fresh now _).
  - apply Hless. rewrite budget_play. by apply budget_same; core.
  - rewrite budget_loadFresh. core. rewrite Hr. lia.
Qed.

(** The bound, with the presses and playbacks so far. *)
Definition within (p : Player) (presses playbacks : nat) : Prop :=
  (presses = 0%nat ∧ unpressed p) ∨ (0 < presses ∧ budget p ≤ 2 * presses + playbacks)%nat.

Lemma within_run events p p' n k :
  within p n k → player_run p events = Some p' → within p' (n + how_many is_toggle events) (k + how_many is_playing events).
Proof.
  revert p n k. induction events as [|e events IH]; intros p n k Hw; cbn [player_run].
  { intros [= <-]. unfold how_many. simpl. by rewrite !Nat.add_0_r. }
  destruct (player_step p e) as [p1|] eqn:E; [|done]. intros H. rewrite !how_many_cons, !Nat.add_assoc.
  apply (IH p1); [|done]. destruct Hw as [[-> Hu]|[Hn Hb]].
  - destruct (is_toggle e) eqn:He.
    + right. split; [lia|]. destruct e; try done. cbn [player_step] in E. unfold listened in E. destruct (pl_mounted p); [|done]. injection E as <-.
      pose proof (first_press p paused now (proj1 (proj2 (proj2 Hu)))) as Hf. destruct Hu as (_ & _ & Hr & Hm).
      unfold budget in Hf at 2. rewrite Hr, Hm in Hf. cbn. lia.
    + left. split; [done|]. by eapply unpressed_step.
  - right. split; [lia|]. pose proof (budget_step p e p1 E). destruct (is_toggle e), (is_playing e); lia.
Qed.

(** C34 A URL is minted for a press of Play, or once to recover from a failure
    of the element until playback or a press shows it worked: nothing before
    the first press, and never more than twice the presses and once the times
    it played.  While a press is ignored because a URL is loading, the load is
    under way; and nothing was played without a token. *)
Theorem player_mints (events : list player_event) (p : Player) :
  player_run initial_player events = Some p →
  (how_many is_toggle events = 0%nat → mints p = 0%nat) ∧
  (mints p ≤ 2 * how_many is_toggle events + how_many is_playing events)%nat ∧
  (pl_loading p = true ↔ is_Some (pl_load p)) ∧
  (pl_token p = None → how_many is_play (pl_log p) = 0%nat).
Proof.
  intros H. pose proof (run_settled _ _ _ initial_settled H) as Hs.
  pose proof (within_run events initial_player p 0 0 (or_introl (conj eq_refl (conj eq_refl (conj eq_refl (conj eq_refl eq_refl))))) H) as Hw.
  rewrite !Nat.add_0_l in Hw. split_and!; [| |apply Hs|by apply Hs].
  - intros E. destruct Hw as [[_ (_ & _ & _ & Hm)]|[Hn _]]; [done|lia].
  - destruct Hw as [[-> (_ & _ & _ & Hm)]|[_ Hb]]; [rewrite Hm; lia|]. unfold budget in Hb. lia.
Qed.

(** ** Stop means stop *)

Lemma stopped_step p e p' :
  pl_wantPlay p = false → is_toggle e = false → player_step p e = Some p' →
  pl_wantPlay p' = false ∧ how_many is_play (pl_log p') = how_many is_play (pl_log p).
Proof.
  intros Hw. assert (Hpop : ∀ q, pl_wantPlay q = false → play_or_pause q = setStatus ps_paused q) by (intros q Eq; unfold play_or_pause; by rewrite Eq).
  destruct e; cbn [player_step is_toggle]; unfold listened; try done; intros _ H.
  - destruct (pl_mounted p); [|done]. injection H as <-. unfold seek. destruct (pl_mounted _ && _); core; cbn; split; lia || done.
  - destruct (pl_mounted p) eqn:Em; [|done]. injection H as <-. unfold setRate. cbn [pl_mounted]. rewrite Em. core. cbn. split; lia || done.
  - destruct (pl_mounted p); [|done]. injection H as <-. unfold unmount_player. destruct (pl_token p); core; cbn; split; lia || done.
  - destruct (pl_load p) as [[at_|]|]; [|done..]. injection H as <-. unfold minted.
    destruct (Qle_bool at_ 0); [unfold loaded; rewrite Hpop by (by core)|]; core; cbn; split; lia || done.
  - destruct (pl_load p) as [[at_|]|]; [|done..]. injection H as <-. by core.
  - destruct (pl_load p) as [[|at_]|]; [done| |done]. injection H as <-. unfold metadata_come, loaded.
    rewrite Hpop by (by core). core. cbn. split; lia || done.
  - destruct (pl_load p) as [[|at_]|]; [done| |done]. injection H as <-. by core.
  - destruct (pl_plays p); [done|]. injection H as <-. done.
  - destruct (pl_plays p); [done|]. injection H as <-. destruct abort; by core.
  - destruct (pl_mounted p); [|done]. injection H as <-. by core.
  - destruct (pl_mounted p); [|done]. injection H as <-. unfold onMeta. destruct d; try done. destruct (Qle_bool q 0); by core.
  - destruct (pl_mounted p); [|done]. injection H as <-. by core.
  - destruct (pl_mounted p); [|done]. injection H as <-. unfold onPause. destruct (pl_loading p); by core.
  - destruct (pl_mounted p); [|done]. injection H as <-. by core.
  - destruct (pl_mounted p); [|done]. injection H as <-. unfold recover.
    destruct (negb _ || _ || _); [done|]. destruct (pl_recovering p); core; cbn; split; lia || done.
Qed.

Lemma stopped_run events p p' :
  pl_wantPlay p = false → how_many is_toggle events = 0%nat → player_run p events = Some p' →
  how_many is_play (pl_log p') = how_many is_play (pl_log p).
Proof.
  revert p. induction events as [|e events IH]; intros p Hw; cbn [player_run]; [by intros _ [= <-]|].
  rewrite how_many_cons. destruct (is_toggle e) eqn:He; [done|]. intros Hn.
  destruct (player_step p e) as [p1|] eqn:E; [|done]. intros H.
  destruct (stopped_step p e p1 Hw He E) as [Hw1 <-]. by apply IH.
Qed.

(** The last order to play or to pause was to play. *)
Definition told_to_play (l : list command) : bool :=
  fold_left (λ on c, match c with do_play => true | do_pause => false | _ => on end) l false.

Lemma told_app l1 l2 :
  told_to_play l1 = false → how_many is_play l2 = 0%nat → told_to_play (l1 ++ l2) = false.
Proof.
  unfold told_to_play. rewrite fold_left_app. intros ->. induction l2 as [|c l2 IH]; [done|].
  rewrite how_many_cons. by destruct c; simpl; auto.
Qed.

(** What was asked of the element is never taken back. *)
Lemma log_grows p e p' : player_step p e = Some p' → pl_log p `prefix_of` pl_log p'.
Proof.
  destruct e; cbn [player_step]; unfold listened; intros H; repeat case_match; try done; injection H as <-;
    unfold toggle, seek, setRate, unmount_player, minted, metadata_come, onMeta, onPause, recover, loaded;
    cbn [pl_mounted]; repeat case_match; core; unfold play_or_pause; repeat case_match; core; cbn [pl_log];
    rewrite <-?app_assoc; first [reflexivity|by eexists].
Qed.

Lemma log_grows_run events p p' : player_run p events = Some p' → pl_log p `prefix_of` pl_log p'.
Proof.
  revert p. induction events as [|e events IH]; intros p; cbn [player_run]; [by intros [= <-]|].
  destruct (player_step p e) as [p1|] eqn:E; [|done]. intros H. by etrans; [eapply log_grows|apply IH].
Qed.

(** The element stays off while the customer wants nothing played, and
    leaving turns it off. *)
Lemma told_step p e p' :
  pl_wantPlay p = false → is_toggle e = false → player_step p e = Some p' →
  told_to_play (pl_log p) = false ∨ e = pe_unmount → told_to_play (pl_log p') = false.
Proof.
  intros Hw He H [Hoff| ->].
  - pose proof (stopped_step p e p' Hw He H) as [_ Hn]. destruct (log_grows p e p' H) as [l E].
    rewrite E in *. rewrite how_many_app in Hn. apply told_app; [done|lia].
  - cbn [player_step] in H. unfold listened in H. destruct (pl_mounted p); [|done]. injection H as <-.
    unfold unmount_player, told_to_play. destruct (pl_token p); cbn [pl_log log]; by rewrite fold_left_app.
Qed.

Lemma told_run events p p' :
  pl_wantPlay p = false → how_many is_toggle events = 0%nat → player_run p events = Some p' →
  told_to_play (pl_log p) = false ∨ pe_unmount ∈ events → told_to_play (pl_log p') = false.
Proof.
  revert p. induction events as [|e events IH]; intros p Hw; cbn [player_run].
  { intros _ [= <-] [?|?%elem_of_nil]; done. }
  rewrite how_many_cons. destruct (is_toggle e) eqn:He; [done|]. intros Hn.
  destruct (player_step p e) as [p1|] eqn:E; [|done]. intros H Ho.
  destruct (stopped_step p e p1 Hw He E) as [Hw1 _]. apply (IH p1); [done|done|done|].
  rewrite elem_of_cons in Ho. destruct Ho as [Ho|[<-|Ho]]; [| |by right].
  - left. apply (told_step p e); auto.
  - left. apply (told_step p pe_unmount); auto.
Qed.

(** C35 A press while it plays pauses the element at once, and it stays
    paused; a press while a URL for it is loading keeps that from being played.
    Whatever loads, fails or is recovered from afterwards, nothing is played
    before the next press, be the player still shown or not; and leaving the
    player after either press has paused the element as well. *)
Theorem press_stops (p p1 p' : Player) (paused : bool) (now : Z) (events : list player_event) :
  pl_loading p = true ∨ paused = false →
  player_step p (pe_toggle paused now) = Some p1 →
  how_many is_toggle events = 0%nat → player_run p1 events = Some p' →
  how_many is_play (pl_log p') = how_many is_play (pl_log p) ∧
  (pl_loading p = false → pl_log p1 = pl_log p ++ [do_pause]) ∧
  (pl_loading p = false ∨ pe_unmount ∈ events → told_to_play (pl_log p') = false).
Proof.
  intros Hbusy H1 Hn H.
  assert (pl_wantPlay p1 = false ∧ pl_log p1 = pl_log p ++ (if pl_loading p then [] else [do_pause])) as [Hw Hl].
  { cbn [player_step] in H1. unfold listened, toggle in H1. destruct (pl_mounted p); [|done]. injection H1 as <-. cbn [negb].
    destruct (pl_loading p); [core; by rewrite app_nil_r|]. destruct Hbusy as [?| ->]; [done|]. cbn [negb]. by core. }
  split_and!.
  - rewrite (stopped_run events p1 p') by done. rewrite Hl, how_many_app. destruct (pl_loading p); cbn; lia.
  - intros E. by rewrite Hl, E.
  - intros Ho. apply (told_run events p1 p'); [done..|]. destruct Ho as [E|]; [left|by right].
    rewrite Hl, E. unfold told_to_play. by rewrite fold_left_app.
Qed.

(** ** A message heard *)

Definition token (n : Z) : PlaybackToken := Build_PlaybackToken ("/audio?t=" +:+ (if n =? 1 then "one" else "two")) 120.

(** Played, failed half way on an expired URL, recovered where it was. *)
Definition heard : list player_event :=
  [pe_toggle true 0; pe_minted (token 1) 10; pe_playing; pe_played; pe_time 30; pe_error; pe_minted (token 2) 130000; pe_metadata; pe_playing].

Lemma player_mints_witness : ∃ p, player_run initial_player heard = Some p ∧ (mints p ≤ 4)%nat ∧ mints p = 2%nat.
Proof.
  eexists. split; [vm_compute; reflexivity|].
  match goal with |- context [mints ?p] => pose proof (player_mints heard p) as H end.
  split; [|vm_compute; reflexivity]. destruct H as (_ & H & _); [vm_compute; reflexivity|exact H].
Defined.

(** Stopped while it plays; its URL then fails, is replaced, and the player
    is left. *)
Lemma press_stops_witness :
  ∃ p p1 p', player_run initial_player [pe_toggle true 0; pe_minted (token 1) 10; pe_playing; pe_played] = Some p ∧
    told_to_play (pl_log p) = true ∧ player_step p (pe_toggle false 5) = Some p1 ∧
    player_run p1 [pe_pause; pe_error; pe_minted (token 2) 10; pe_unmount] = Some p' ∧
    how_many is_play (pl_log p') = 1%nat ∧ pl_log p1 = pl_log p ++ [do_pause] ∧ told_to_play (pl_log p') = false.
Proof.
  do 3 eexists. split; [vm_compute; reflexivity|]. split; [vm_compute; reflexivity|]. split; [vm_compute; reflexivity|].
  split; [vm_compute; reflexivity|].
  match goal with |- how_many is_play (pl_log ?q') = _ ∧ pl_log ?q1 = pl_log ?q ++ _ ∧ _ =>
    destruct (press_stops q q1 q' false 5 [pe_pause; pe_error; pe_minted (token 2) 10; pe_unmount]) as (Hn & Hl & Ho);
      [right; reflexivity|vm_compute; reflexivity..|]
  end.
  split; [exact Hn|]. split; [apply Hl; vm_compute; reflexivity|]. apply Ho. left. vm_compute. reflexivity.
Defined.

Example heard_log :
  pl_log <$> player_run initial_player heard =
  Some [do_mint; do_rate 1; do_src "/audio?t=one"; do_rate 1; do_play;
        do_mint; do_rate 1; do_src "/audio?t=two"; do_rate 1; do_seek 30; do_play].
Proof. vm_compute. reflexivity. Qed.

(** The message left while its URL is loading plays all the same, after the
    element was released. *)
Example played_after_leaving :
  pl_log <$> player_run initial_player [pe_toggle true 0; pe_unmount; pe_minted (token 1) 10] =
  Some [do_mint; do_pause; do_rate 1; do_src "/audio?t=one"; do_rate 1; do_play].
Proof. vm_compute. reflexivity. Qed.
