(* ===== verification/Intake.v ===== *)
(** * The intake form ([pages/landing/RequestAccessSection.tsx], [types/onboarding.ts])

    The public form a prospective customer fills in: the fields and what
    checks them, the request it becomes, the server's refusals put back on
    the fields, and the component around it.  The form's strings are one
    function of their keys, as [{ ...prev, [field]: value }] updates it. *)
From S2P Require Import Prelude JsString JsValue Format SipText Number Phone Ip IvrError ApiClient.

Local Open Scope string_scope.
Local Open Scope Z_scope.
Local Open Scope list_scope.

(** ** Keys, products and labels *)

(** [keyof IntakeForm] *)
Module Key.
Inductive t :=
  | contact_name | email | phone | products
  | did_count | porting | current_carrier | forwarding_setup
  | trunk_call_paths | trunk_pbx_vendor | trunk_dids_needed
  | api_use_case | api_expected_cps | api_webhook_url | api_needs_numbers
  | vm_mailbox_count | vm_attach_to
  | declared_peak_cps | declared_max_concurrent_calls | monthly_volume | timeline
  | legal_business_name | address_line1 | address_line2 | city | state | postal_code
  | address_is_registered_agent_or_virtual | gov_id_type | gov_id_number
  | state_of_registration | alternate_phone | website
  | is_high_volume | intended_use | intended_use_description | originating_ips | expected_daily_calls.
End Key.
#[export] Instance key_eq_dec : EqDecision Key.t.
Proof. solve_decision. Defined.

Inductive ProductKey := p_rcf | p_trunk | p_api | p_voicemail.
#[export] Instance ProductKey_eq_dec : EqDecision ProductKey.
Proof. solve_decision. Defined.

Inductive KycGovIdType := g_ein | g_state_registration | g_duns | g_other.
#[export] Instance KycGovIdType_eq_dec : EqDecision KycGovIdType.
Proof. solve_decision. Defined.

Inductive KycIntendedUse :=
  | u_marketing | u_education | u_political_campaign | u_notifications_alerts
  | u_customer_service | u_ai_voice_agents | u_other.
#[export] Instance KycIntendedUse_eq_dec : EqDecision KycIntendedUse.
Proof. solve_decision. Defined.

Inductive VoicemailAttachTo := at_existing_numbers | at_new_numbers | at_unsure.

(** The label tables, as [Object.entries] lists them. *)
Definition GOV_ID_TYPE_LABELS : list (KycGovIdType * string) :=
  [(g_ein, "EIN (Federal Tax ID)"); (g_state_registration, "State registration");
   (g_duns, "DUNS number"); (g_other, "Other")].
Definition INTENDED_USE_LABELS : list (KycIntendedUse * string) :=
  [(u_marketing, "Marketing & outreach"); (u_education, "Education");
   (u_political_campaign, "Political campaign"); (u_notifications_alerts, "Notifications & alerts");
   (u_customer_service, "Customer service"); (u_ai_voice_agents, "AI voice agents"); (u_other, "Other")].
Definition ATTACH_TO_LABELS : list (VoicemailAttachTo * string) :=
  [(at_existing_numbers, "Existing numbers"); (at_new_numbers, "New numbers"); (at_unsure, "Not sure")].

Definition from_label {A} (labels : list (A * string)) (label : string) : option A :=
  fst <$> find (λ e, e.2 ==? label) labels.
Definition attachToFromLabel : string → option VoicemailAttachTo := from_label ATTACH_TO_LABELS.
Definition govIdTypeFromLabel : string → option KycGovIdType := from_label GOV_ID_TYPE_LABELS.
Definition intendedUseFromLabel : string → option KycIntendedUse := from_label INTENDED_USE_LABELS.

(** [config/features.ts] *)
Definition API_CALLING_ENABLED : bool := false.
Definition PRODUCT_ORDER : list ProductKey :=
  List.filter (λ p, API_CALLING_ENABLED || (p !=? p_api)) [p_rcf; p_trunk; p_api; p_voicemail].

Definition DID_COUNT_OPTIONS : list string := ["1–10"; "11–50"; "51–200"; "201–1,000"; "1,000+"].
Definition PORTING_OPTIONS : list string :=
  ["Yes — porting from another carrier"; "No — need new numbers"; "Both — porting some + new numbers"].
Definition FORWARDING_OPTIONS : list string :=
  ["All numbers forward to one destination"; "Each number forwards to a different destination"; "Need help deciding"].
Definition VOLUME_OPTIONS : list string := ["Under 1,000 calls"; "1,000–10,000"; "10,000–50,000"; "50,000+"].
Definition TIMELINE_OPTIONS : list string := ["ASAP"; "Within 30 days"; "1–3 months"; "Just exploring"].
Definition ATTACH_TO_OPTIONS : list string := List.map snd ATTACH_TO_LABELS.
Definition GOV_ID_OPTIONS : list string := List.map snd GOV_ID_TYPE_LABELS.
Definition INTENDED_USE_OPTIONS : list string := List.map snd INTENDED_USE_LABELS.
Definition US_STATE_OPTIONS : list string :=
  ["AL — Alabama"; "AK — Alaska"; "AZ — Arizona"; "AR — Arkansas";
   "CA — California"; "CO — Colorado"; "CT — Connecticut"; "DE — Delaware";
   "DC — District of Columbia"; "FL — Florida"; "GA — Georgia"; "HI — Hawaii";
   "ID — Idaho"; "IL — Illinois"; "IN — Indiana"; "IA — Iowa"; "KS — Kansas";
   "KY — Kentucky"; "LA — Louisiana"; "ME — Maine"; "MD — Maryland";
   "MA — Massachusetts"; "MI — Michigan"; "MN — Minnesota"; "MS — Mississippi";
   "MO — Missouri"; "MT — Montana"; "NE — Nebraska"; "NV — Nevada";
   "NH — New Hampshire"; "NJ — New Jersey"; "NM — New Mexico"; "NY — New York";
   "NC — North Carolina"; "ND — North Dakota"; "OH — Ohio"; "OK — Oklahoma";
   "OR — Oregon"; "PA — Pennsylvania"; "PR — Puerto Rico"; "RI — Rhode Island";
   "SC — South Carolina"; "SD — South Dakota"; "TN — Tennessee"; "TX — Texas";
   "UT — Utah"; "VT — Vermont"; "VA — Virginia"; "WA — Washington";
   "WV — West Virginia"; "WI — Wisconsin"; "WY — Wyoming"].

(** [label.slice(0, 2)] *)
Definition stateCode (label : string) : string := slice 0 2 label.

(** ** The form *)

Record IntakeForm := {
  text : Key.t → string;
  products : list ProductKey;
  api_needs_numbers : bool;
  registered_agent : bool;  (* [address_is_registered_agent_or_virtual] *)
  is_high_volume : bool;
  originating_ips : list string;
}.

Definition EMPTY_FORM : IntakeForm := Build_IntakeForm (λ _, "") [] false false false [].

Definition set_text (k : Key.t) (v : string) (f : IntakeForm) : IntakeForm :=
  Build_IntakeForm (λ k', if k' ==? k then v else text f k') (products f) (api_needs_numbers f) (registered_agent f)
    (is_high_volume f) (originating_ips f).
Definition set_products (v : list ProductKey) (f : IntakeForm) : IntakeForm :=
  Build_IntakeForm (text f) v (api_needs_numbers f) (registered_agent f) (is_high_volume f) (originating_ips f).
Definition set_needs_numbers (v : bool) (f : IntakeForm) : IntakeForm :=
  Build_IntakeForm (text f) (products f) v (registered_agent f) (is_high_volume f) (originating_ips f).
Definition set_registered_agent (v : bool) (f : IntakeForm) : IntakeForm :=
  Build_IntakeForm (text f) (products f) (api_needs_numbers f) v (is_high_volume f) (originating_ips f).
Definition set_high_volume (v : bool) (f : IntakeForm) : IntakeForm :=
  Build_IntakeForm (text f) (products f) (api_needs_numbers f) (registered_agent f) v (originating_ips f).
Definition set_ips (v : list string) (f : IntakeForm) : IntakeForm :=
  Build_IntakeForm (text f) (products f) (api_needs_numbers f) (registered_agent f) (is_high_volume f) v.

(** What is typed in a field, trimmed; whether a product is selected. *)
Definition trimmed (f : IntakeForm) (k : Key.t) : string := trim (text f k).
Definition has (p : ProductKey) (f : IntakeForm) : bool := includes (products f) p.

Definition FieldErrors : Type := list (Key.t * string).

(** Fields cleared of their errors when a product is toggled. *)
Definition PRODUCT_FIELDS (p : ProductKey) : list Key.t :=
  match p with
  | p_rcf => [Key.did_count; Key.porting; Key.current_carrier; Key.forwarding_setup]
  | p_trunk => [Key.originating_ips; Key.trunk_call_paths; Key.trunk_pbx_vendor; Key.trunk_dids_needed]
  | p_api => [Key.api_use_case; Key.api_expected_cps; Key.api_webhook_url]
  | p_voicemail => [Key.vm_mailbox_count; Key.vm_attach_to]
  end.

(** ** Checks *)

Definition HV_CPS_THRESHOLD : num := num_of_Z 1.
Definition HV_CONCURRENT_THRESHOLD : num := num_of_Z 1000.

Definition capacityOverThreshold (cpsRaw concurrentRaw : string) : bool :=
  num_lt HV_CPS_THRESHOLD (Number cpsRaw) || num_lt HV_CONCURRENT_THRESHOLD (Number concurrentRaw).

Definition over_threshold (f : IntakeForm) : bool :=
  capacityOverThreshold (text f Key.declared_peak_cps) (text f Key.declared_max_concurrent_calls).

Definition MAX_TRUNK_IPS : nat := 10.
Definition MAX_IPS : nat := 20.
Definition USE_CASE_MAX : Z := 300.
Definition DESCRIPTION_MAX : Z := 500.

(** [n.toLocaleString('en-US')] for 0 ≤ n < 1,000,000. *)
Definition toLocaleString (n : Z) : string :=
  let three d := (if d <? 10 then "00" else if d <? 100 then "0" else "") +:+ print_int d in
  if n <? 1000 then print_int n else print_int (n / 1000) +:+ "," +:+ three (n mod 1000).

Definition whole (n : num) : bool := is_finite n && is_integer n.

Definition intInRange (raw : string) (min max : Z) : option string :=
  let n := Number raw in
  if negb (whole n) then Some "Enter a whole number"
  else if num_lt n (num_of_Z min) || num_lt (num_of_Z max) n
  then Some ("Must be " +:+ toLocaleString min +:+ "–" +:+ toLocaleString max)
  else None.

(** A run of a character class, and what follows it. *)
Fixpoint span (class : ascii → bool) (s : string) : string * string :=
  match s with
  | String a s' => if class a then let '(d, r) := span class s' in (String a d, r) else ("", s)
  | "" => ("", "")
  end.

Definition is_letter (a : ascii) : bool :=
  ((65 <=? code a) && (code a <=? 90)) || ((97 <=? code a) && (code a <=? 122)).
Definition is_alnum (a : ascii) : bool := is_letter a || is_digit a.

(** [[A-Za-z0-9.-]] *)
Definition host_char (a : ascii) : bool := is_alnum a || (a ==? "."%char) || (a ==? "-"%char).

(** [WEBHOOK_URL_RE]: the scheme, a host, maybe a port, maybe a path without
    white space. *)
Definition webhook_url (s : string) : bool :=
  let after :=
    if starts_with "https://" s then Some (slice_from 8 s)
    else if starts_with "http://" s then Some (slice_from 7 s) else None in
  match after with
  | None => false
  | Some r =>
      let '(host, r) := span host_char r in
      let path r := (r ==? "") || (starts_with "/" r && (take_word r ==? r)) in
      (host !=? "")
      && (path r
          || (starts_with ":" r
              && let '(port, r) := span_digits (slice_from 1 r) in (port !=? "") && path r))
  end.

(** [/^\d{2}-\d{7}$/] *)
Definition EIN_RE (s : string) : bool :=
  (String.length s =? 10)%nat && sforall is_digit (slice 0 2 s) && (char_at 2 s ==? Some "-"%char)
  && sforall is_digit (slice_from 3 s).

(** [/^[^\s@]+@[^\s@]+\.[^\s@]+$/]: one [@], no white space, and after it a
    dot with something on both sides. *)
Definition email_re (s : string) : bool :=
  (take_word s ==? s)
  && match split_on "@" s with
     | [local; domain] =>
         (local !=? "")
         && (let n := String.length domain in
             existsb (λ i, char_at i domain ==? Some "."%char) (seq 1 (n - 2)))
     | _ => false
     end.

Definition portingRequiresCarrier (porting : string) : bool := starts_with "Yes" porting || starts_with "Both" porting.

Definition phonesMatch (a b : string) : bool :=
  let normA := normalizeNumberInput a in
  let normB := normalizeNumberInput b in
  if starts_with "+" normA && starts_with "+" normB then normA ==? normB
  else (digits_of a !=? "") && (digits_of a ==? digits_of b).

(** One [if (...) errs.k = ...] of [validate]; [fault] is the message, if any. *)
Definition mark (k : Key.t) (fault : option string) (errs : FieldErrors) : FieldErrors :=
  match fault with Some msg => om_set k msg errs | None => errs end.

Definition blank (f : IntakeForm) (k : Key.t) : bool := trimmed f k ==? "".
Definition required (f : IntakeForm) (k : Key.t) : option string := if blank f k then Some "Required" else None.
Definition chosen (f : IntakeForm) (k : Key.t) : option string :=
  if text f k ==? "" then Some "Please select an option" else None.
(** [if (!x.trim()) ... else intInRange(...)] *)
Definition number_field (f : IntakeForm) (k : Key.t) (min max : Z) : option string :=
  if blank f k then Some "Required" else intInRange (trimmed f k) min max.

Definition contact_faults (f : IntakeForm) : list (Key.t * option string) :=
  [(Key.contact_name, required f Key.contact_name);
   (Key.email, if blank f Key.email then Some "Required"
               else if negb (email_re (text f Key.email)) then Some "Invalid email" else None);
   (Key.phone, required f Key.phone);
   (Key.products, match products f with [] => Some "Select at least one product" | _ => None end)].

Definition rcf_faults (f : IntakeForm) : list (Key.t * option string) :=
  if has p_rcf f then
    [(Key.did_count, chosen f Key.did_count);
     (Key.porting, chosen f Key.porting);
     (Key.current_carrier, if portingRequiresCarrier (text f Key.porting) && blank f Key.current_carrier
                           then Some "Required when porting numbers" else None);
     (Key.forwarding_setup, chosen f Key.forwarding_setup)]
  else [].

Definition trunk_faults (f : IntakeForm) : list (Key.t * option string) :=
  if has p_trunk f then [(Key.trunk_call_paths, number_field f Key.trunk_call_paths 1 1000)] else [].

Definition api_faults (f : IntakeForm) : list (Key.t * option string) :=
  if has p_api f then
    [(Key.api_use_case, if blank f Key.api_use_case then Some "Required"
                        else if USE_CASE_MAX <? utf16_length (trimmed f Key.api_use_case)
                        then Some ("Maximum " +:+ print_int USE_CASE_MAX +:+ " characters") else None);
     (Key.api_expected_cps, if negb (blank f Key.api_expected_cps)
                            then intInRange (trimmed f Key.api_expected_cps) 1 1000 else None);
     (Key.api_webhook_url, if negb (blank f Key.api_webhook_url) && negb (webhook_url (trimmed f Key.api_webhook_url))
                           then Some "Enter a valid http(s):// URL" else None)]
  else [].

Definition voicemail_faults (f : IntakeForm) : list (Key.t * option string) :=
  if has p_voicemail f then
    [(Key.vm_mailbox_count, number_field f Key.vm_mailbox_count 1 10000);
     (Key.vm_attach_to, match attachToFromLabel (text f Key.vm_attach_to) with
                        | None => Some "Please select an option" | Some _ => None end)]
  else [].

Definition capacity_faults (f : IntakeForm) : list (Key.t * option string) :=
  [(Key.declared_peak_cps, number_field f Key.declared_peak_cps 1 1000);
   (Key.declared_max_concurrent_calls, number_field f Key.declared_max_concurrent_calls 1 100000);
   (Key.monthly_volume, chosen f Key.monthly_volume);
   (Key.timeline, chosen f Key.timeline);
   (Key.declared_peak_cps, if over_threshold f && negb (is_high_volume f)
      then Some "The high-volume declaration is required above 1 call/sec or 1,000 concurrent call paths" else None)].

Definition business_faults (f : IntakeForm) : list (Key.t * option string) :=
  let govType := govIdTypeFromLabel (text f Key.gov_id_type) in
  let govId := trimmed f Key.gov_id_number in
  let altRaw := trimmed f Key.alternate_phone in
  [(Key.legal_business_name, required f Key.legal_business_name);
   (Key.address_line1, required f Key.address_line1);
   (Key.city, required f Key.city);
   (Key.state, if text f Key.state ==? "" then Some "Please select a state" else None);
   (Key.postal_code, if blank f Key.postal_code then Some "Required"
                     else if utf16_length (trimmed f Key.postal_code) <? 3 then Some "Too short" else None);
   (Key.gov_id_type, match govType with None => Some "Please select an ID type" | Some _ => None end);
   (Key.gov_id_number,
      if govId ==? "" then Some "Required"
      else if (govType ==? Some g_ein) && negb (EIN_RE govId) then Some "EIN must be NN-NNNNNNN"
      else if (govType !=? Some g_ein) && ((utf16_length govId <? 2) || (40 <? utf16_length govId))
      then Some "Must be 2–40 characters" else None);
   (Key.state_of_registration, if (govType ==? Some g_state_registration) && (text f Key.state_of_registration ==? "")
                               then Some "Required for state registrations" else None);
   (Key.alternate_phone,
      if altRaw ==? "" then Some "Required"
      else if negb (is_e164 (normalizeNumberInput altRaw)) then Some "Enter a full phone number"
      else if negb (blank f Key.phone) && phonesMatch (text f Key.phone) altRaw
      then Some "Must differ from the primary phone" else None)].

Definition ip_faults (f : IntakeForm) : list (Key.t * option string) :=
  [(Key.originating_ips,
      if (has p_trunk f || is_high_volume f) && (length (originating_ips f) =? 0)%nat
      then Some "Add at least one IP address or CIDR block"
      else if has p_trunk f && (MAX_TRUNK_IPS <? length (originating_ips f))%nat
      then Some "Maximum 10 addresses when SIP Trunking is selected" else None)].

Definition high_volume_faults (f : IntakeForm) : list (Key.t * option string) :=
  if is_high_volume f then
    let use := intendedUseFromLabel (text f Key.intended_use) in
    [(Key.intended_use, match use with None => Some "Please select an intended use" | Some _ => None end);
     (Key.intended_use_description, if (use ==? Some u_other) && blank f Key.intended_use_description
                                    then Some "Required when intended use is Other" else None);
     (Key.expected_daily_calls,
        if negb (blank f Key.expected_daily_calls) then
          let n := Number (text f Key.expected_daily_calls) in
          if negb (is_finite n) || num_lt n (num_of_Z 0) || negb (is_integer n) then Some "Enter a whole number"
          else if num_lt (num_of_Z 10000000) n then Some "Maximum 10,000,000" else None
        else None)]
  else [].

(** The checks of [validate], in its order. *)
Definition faults (f : IntakeForm) : list (Key.t * option string) :=
  contact_faults f ++ rcf_faults f ++ trunk_faults f ++ api_faults f ++ voicemail_faults f ++ capacity_faults f
  ++ business_faults f ++ ip_faults f ++ high_volume_faults f.

Definition validate (f : IntakeForm) : FieldErrors := fold_left (λ errs c, mark c.1 c.2 errs) (faults f) [].

(** ** The request *)

Record RcfIntake := {
  rcf_did_count : string;
  rcf_porting : string;
  rcf_current_carrier : option string;
  rcf_forwarding_setup : string;
}.
Record TrunkIntake := {
  tk_signaling_ips : list string;
  tk_concurrent_call_paths : num;
  tk_pbx_vendor : option string;
  tk_dids_needed : option string;
}.
Record ApiIntake := {
  ap_use_case : string;
  ap_expected_cps : option num;
  ap_webhook_url : option string;
  ap_needs_numbers : bool;
}.
Record VoicemailIntake := {
  vm_mailbox_count : num;
  vm_attach_to : VoicemailAttachTo;
}.
Record ProductsPayload := {
  pp_selected : list ProductKey;
  pp_rcf : option RcfIntake;
  pp_trunk : option TrunkIntake;
  pp_api : option ApiIntake;
  pp_voicemail : option VoicemailIntake;
}.
Record KycStandard := {
  ks_legal_business_name : string;
  ks_address_line1 : string;
  ks_address_line2 : option string;
  ks_city : string;
  ks_state : string;
  ks_postal_code : string;
  ks_registered_agent : bool;
  ks_gov_id_type : KycGovIdType;
  ks_gov_id_number : string;
  ks_state_of_registration : option string;
  ks_alternate_phone : string;
  ks_website : option string;
}.
Record KycHighVolume := {
  hv_intended_use : KycIntendedUse;
  hv_intended_use_description : option string;
  hv_originating_ips : list string;
  hv_expected_daily_calls : option num;
}.
Record KycPayload := {
  ky_is_high_volume : bool;
  ky_declared_peak_cps : num;
  ky_declared_max_concurrent_calls : num;
  ky_standard : KycStandard;
  ky_high_volume : option KycHighVolume;
}.
Record OnboardingSubmitPayload := {
  os_company_name : string;
  os_contact_name : string;
  os_email : string;
  os_phone : string;
  os_did_count : option string;
  os_porting : option string;
  os_current_carrier : option string;
  os_forwarding_setup : option string;
  os_monthly_volume : string;
  os_timeline : string;
  os_kyc : KycPayload;
  os_products : ProductsPayload;
}.

(** [x.trim() || undefined], and [x.trim() ? Number(x) : undefined] *)
Definition optional (f : IntakeForm) (k : Key.t) : option string := if blank f k then None else Some (trimmed f k).
Definition optional_number (f : IntakeForm) (k : Key.t) : option num :=
  if blank f k then None else Some (Number (text f k)).

Definition standard_of (f : IntakeForm) : KycStandard := {|
  ks_legal_business_name := trimmed f Key.legal_business_name;
  ks_address_line1 := trimmed f Key.address_line1;
  ks_address_line2 := optional f Key.address_line2;
  ks_city := trimmed f Key.city;
  ks_state := stateCode (text f Key.state);
  ks_postal_code := trimmed f Key.postal_code;
  ks_registered_agent := registered_agent f;
  ks_gov_id_type := default g_other (govIdTypeFromLabel (text f Key.gov_id_type));
  ks_gov_id_number := trimmed f Key.gov_id_number;
  ks_state_of_registration :=
    if text f Key.state_of_registration ==? "" then None else Some (stateCode (text f Key.state_of_registration));
  ks_alternate_phone := normalizeNumberInput (text f Key.alternate_phone);
  ks_website := optional f Key.website;
|}.

Definition high_volume_of (f : IntakeForm) : KycHighVolume := {|
  hv_intended_use := default u_other (intendedUseFromLabel (text f Key.intended_use));
  hv_intended_use_description := optional f Key.intended_use_description;
  hv_originating_ips := originating_ips f;
  hv_expected_daily_calls := optional_number f Key.expected_daily_calls;
|}.

Definition kyc_of (f : IntakeForm) : KycPayload := {|
  ky_is_high_volume := is_high_volume f;
  ky_declared_peak_cps := Number (text f Key.declared_peak_cps);
  ky_declared_max_concurrent_calls := Number (text f Key.declared_max_concurrent_calls);
  ky_standard := standard_of f;
  ky_high_volume := if is_high_volume f then Some (high_volume_of f) else None;
|}.

Definition selectedProducts (f : IntakeForm) : list ProductKey := List.filter (λ p, has p f) PRODUCT_ORDER.
Definition rcfSelected (f : IntakeForm) : bool := includes (selectedProducts f) p_rcf.

Definition products_of (f : IntakeForm) : ProductsPayload :=
  let selected p := includes (selectedProducts f) p in {|
  pp_selected := selectedProducts f;
  pp_rcf := if rcfSelected f then Some {|
      rcf_did_count := text f Key.did_count; rcf_porting := text f Key.porting;
      rcf_current_carrier := optional f Key.current_carrier; rcf_forwarding_setup := text f Key.forwarding_setup |}
    else None;
  pp_trunk := if selected p_trunk then Some {|
      tk_signaling_ips := originating_ips f; tk_concurrent_call_paths := Number (text f Key.trunk_call_paths);
      tk_pbx_vendor := optional f Key.trunk_pbx_vendor; tk_dids_needed := optional f Key.trunk_dids_needed |}
    else None;
  pp_api := if selected p_api then Some {|
      ap_use_case := trimmed f Key.api_use_case; ap_expected_cps := optional_number f Key.api_expected_cps;
      ap_webhook_url := optional f Key.api_webhook_url; ap_needs_numbers := api_needs_numbers f |}
    else None;
  pp_voicemail := if selected p_voicemail then Some {|
      vm_mailbox_count := Number (text f Key.vm_mailbox_count);
      vm_attach_to := default at_unsure (attachToFromLabel (text f Key.vm_attach_to)) |}
    else None;
|}.

(** The argument of [submitOnboardingRequest]. *)
Definition submission (f : IntakeForm) : OnboardingSubmitPayload :=
  let mirror k := if rcfSelected f then Some (text f k) else None in {|
  os_company_name := trimmed f Key.legal_business_name;
  os_contact_name := text f Key.contact_name;
  os_email := text f Key.email;
  os_phone := trimmed f Key.phone;
  os_did_count := mirror Key.did_count;
  os_porting := mirror Key.porting;
  os_current_carrier := if rcfSelected f then optional f Key.current_carrier else None;
  os_forwarding_setup := mirror Key.forwarding_setup;
  os_monthly_volume := text f Key.monthly_volume;
  os_timeline := text f Key.timeline;
  os_kyc := kyc_of f;
  os_products := products_of f;
|}.

(** ** The server's refusals *)

Definition SERVER_LOC_TO_FIELD : list (string * Key.t) :=
  [("company_name", Key.legal_business_name);
   ("contact_name", Key.contact_name);
   ("email", Key.email);
   ("phone", Key.phone);
   ("did_count", Key.did_count);
   ("porting", Key.porting);
   ("current_carrier", Key.current_carrier);
   ("forwarding_setup", Key.forwarding_setup);
   ("monthly_volume", Key.monthly_volume);
   ("timeline", Key.timeline);
   ("products", Key.products);
   ("products.selected", Key.products);
   ("products.rcf.did_count", Key.did_count);
   ("products.rcf.porting", Key.porting);
   ("products.rcf.current_carrier", Key.current_carrier);
   ("products.rcf", Key.current_carrier);
   ("products.rcf.forwarding_setup", Key.forwarding_setup);
   ("products.trunk.signaling_ips", Key.originating_ips);
   ("products.trunk.concurrent_call_paths", Key.trunk_call_paths);
   ("products.trunk.pbx_vendor", Key.trunk_pbx_vendor);
   ("products.trunk.dids_needed", Key.trunk_dids_needed);
   ("products.api.use_case", Key.api_use_case);
   ("products.api.expected_cps", Key.api_expected_cps);
   ("products.api.webhook_url", Key.api_webhook_url);
   ("products.voicemail.mailbox_count", Key.vm_mailbox_count);
   ("products.voicemail.attach_to", Key.vm_attach_to);
   ("kyc", Key.declared_peak_cps);
   ("kyc.declared_peak_cps", Key.declared_peak_cps);
   ("kyc.declared_max_concurrent_calls", Key.declared_max_concurrent_calls);
   ("kyc.standard.legal_business_name", Key.legal_business_name);
   ("kyc.standard.address_line1", Key.address_line1);
   ("kyc.standard.address_line2", Key.address_line2);
   ("kyc.standard.city", Key.city);
   ("kyc.standard.state", Key.state);
   ("kyc.standard.postal_code", Key.postal_code);
   ("kyc.standard.gov_id_type", Key.gov_id_type);
   ("kyc.standard.gov_id_number", Key.gov_id_number);
   ("kyc.standard.state_of_registration", Key.state_of_registration);
   ("kyc.standard.alternate_phone", Key.alternate_phone);
   ("kyc.standard.website", Key.website);
   ("kyc.high_volume.intended_use", Key.intended_use);
   ("kyc.high_volume.intended_use_description", Key.intended_use_description);
   ("kyc.high_volume.originating_ips", Key.originating_ips);
   ("kyc.high_volume.expected_daily_calls", Key.expected_daily_calls)].

(** [/p/i.test(s)] for a literal in lower case. *)
Fixpoint mentions (p s : string) : bool :=
  starts_with p (lower s) || match s with String _ s => mentions p s | "" => false end.

(** [\w] *)
Definition word_char (a : ascii) : bool := is_alnum a || (a ==? "_"%char).

(** [/products\.\w+ (is required|must be null)/i] *)
Fixpoint block_mismatch (s : string) : bool :=
  (starts_with "products." (lower s)
   && let '(w, r) := span word_char (slice_from 9 s) in
      (w !=? "") && (starts_with " is required" (lower r) || starts_with " must be null" (lower r)))
  || match s with String _ s => block_mismatch s | "" => false end.

(** [FUZZY_FIELD_PATTERNS.find(([re]) => re.test(s))?.[1]] *)
Definition fuzzy_field (s : string) : option Key.t :=
  let patterns :=
    [(mentions "is_high_volume" s || mentions "high-volume threshold" s, Key.declared_peak_cps);
     (mentions "declared_peak_cps" s, Key.declared_peak_cps);
     (mentions "declared_max_concurrent_calls" s, Key.declared_max_concurrent_calls);
     (mentions "alternate_phone" s, Key.alternate_phone);
     (mentions "state_of_registration" s, Key.state_of_registration);
     (mentions "gov_id_number" s || mentions "ein" s, Key.gov_id_number);
     (mentions "intended_use_description" s, Key.intended_use_description);
     (mentions "signaling_ips" s || mentions "originating_ips" s || mentions "cidr" s || mentions "ip address" s,
      Key.originating_ips);
     (mentions "current_carrier" s, Key.current_carrier);
     (mentions "webhook_url" s, Key.api_webhook_url);
     (block_mismatch s || mentions "selected" s, Key.products)] in
  snd <$> find fst patterns.

(** [msg.replace(/^Value error,\s*/, '')] *)
Definition plain_message (msg : string) : string :=
  if starts_with "Value error," msg then ltrim (slice_from 12 msg) else msg.

(** The parts of [loc] that name fields. *)
Definition loc_path (loc : value) : string :=
  match loc with
  | VArr l => join "." (List.filter (λ p, p !=? "body") (omap as_string l))
  | _ => ""
  end.

Definition error_field (locPath msg : string) : option Key.t :=
  match om_get locPath SERVER_LOC_TO_FIELD with
  | Some k => Some k
  | None => fuzzy_field (locPath +:+ " " +:+ msg)
  end.

Section MapErrors.
Context (num_text : num → string).

(** One turn of the loop of [mapServerErrors]. *)
Definition map_error (st : FieldErrors * list string) (item : value) : FieldErrors * list string :=
  let '(fields, leftover) := st in
  let of_error (loc msg : value) :=
    let msg := plain_message (default "Invalid value" (as_string msg)) in
    match error_field (loc_path loc) msg with
    | Some k => (om_set k msg fields, leftover)
    | None => (fields, leftover ++ [msg])
    end in
  match item with
  | VObj err => of_error (get "loc" err) (get "msg" err)
  | VArr _ => of_error VUndef VUndef
  | _ => (fields, leftover ++ [string_of num_text item])
  end.

Definition mapServerErrors (raw : value) : FieldErrors * list string :=
  match raw with
  | VObj o => match get "detail" o with VArr detail => fold_left map_error detail ([], []) | _ => ([], []) end
  | _ => ([], [])
  end.
End MapErrors.

(** ** The chip input *)

(** [IpChipInput]: what is typed and its complaint. *)
Record Chip := {
  ch_draft : string;
  ch_entryError : option string;
}.
Definition new_chip : Chip := Build_Chip "" None.

(** The loop of [commit]: the addresses so far, or the complaint. *)
Fixpoint commit_parts (maxIps : nat) (next : list string) (parts : list string) : list string + string :=
  match parts with
  | [] => inl next
  | part :: parts =>
      match validateIpOrCidr part with
      | ip_error e => inr e
      | ip_ok value =>
          if includes next value then commit_parts maxIps next parts
          else if (maxIps <=? length next)%nat
          then inr ("Maximum " +:+ print_int (Z.of_nat maxIps) +:+ " addresses")
          else commit_parts maxIps (next ++ [value]) parts
      end
  end.

(** [commit]: the chips, and the addresses when they change. *)
Definition chip_commit (maxIps : nat) (ips : list string) (c : Chip) : Chip * option (list string) :=
  let parts := List.filter (λ p, p !=? "") (List.map trim (split_on "," (ch_draft c))) in
  match parts with
  | [] => (Build_Chip "" (ch_entryError c), None)
  | _ =>
      match commit_parts maxIps ips parts with
      | inr e => (Build_Chip (ch_draft c) (Some e), None)
      | inl next => (new_chip, if next ==? ips then None else Some next)
      end
  end.

(** ** The component *)

Record SubmissionReceipt := {
  sr_id : value;
  sr_products : list ProductKey;
  sr_highVolume : bool;
}.

(** [sending]: the form whose request is under way; [chip]: the address field,
    while it is on the page. *)
Record RequestAccess := {
  form : IntakeForm;
  errors : FieldErrors;
  sending : option IntakeForm;
  receipt : option SubmissionReceipt;
  submitError : option string;
  hvTouched : bool;
  hvBeforeLock : bool;
  chip : option Chip;
}.

Definition submitting (s : RequestAccess) : bool := match sending s with Some _ => true | None => false end.

Definition set_form_errors (f : IntakeForm) (errs : FieldErrors) (s : RequestAccess) : RequestAccess :=
  Build_RequestAccess f errs (sending s) (receipt s) (submitError s) (hvTouched s) (hvBeforeLock s) (chip s).
Definition set_lock (touched before : bool) (s : RequestAccess) : RequestAccess :=
  Build_RequestAccess (form s) (errors s) (sending s) (receipt s) (submitError s) touched before (chip s).
Definition set_chip (c : option Chip) (s : RequestAccess) : RequestAccess :=
  Build_RequestAccess (form s) (errors s) (sending s) (receipt s) (submitError s) (hvTouched s) (hvBeforeLock s) c.
Definition set_outcome (sending : option IntakeForm) (receipt : option SubmissionReceipt) (errs : FieldErrors)
    (submitError : option string) (s : RequestAccess) : RequestAccess :=
  Build_RequestAccess (form s) errs sending receipt submitError (hvTouched s) (hvBeforeLock s) (chip s).

(** [if (!prev[field]) return prev; ... delete next[field]] *)
Definition clear_error (k : Key.t) (errs : FieldErrors) : FieldErrors :=
  match om_get k errs with
  | Some msg => if msg ==? "" then errs else om_del k errs
  | None => errs
  end.
Definition clear_errors (ks : list Key.t) (errs : FieldErrors) : FieldErrors := fold_left (λ e k, om_del k e) ks errs.

(** The arguments of [handleChange]. *)
Inductive Change :=
  | ch_text (k : Key.t) (v : string)
  | ch_needs_numbers (v : bool)
  | ch_registered_agent (v : bool)
  | ch_ips (v : list string).

Definition change_key (c : Change) : Key.t :=
  match c with
  | ch_text k _ => k
  | ch_needs_numbers _ => Key.api_needs_numbers
  | ch_registered_agent _ => Key.address_is_registered_agent_or_virtual
  | ch_ips _ => Key.originating_ips
  end.

Definition apply_change (c : Change) (f : IntakeForm) : IntakeForm :=
  match c with
  | ch_text k v => set_text k v f
  | ch_needs_numbers v => set_needs_numbers v f
  | ch_registered_agent v => set_registered_agent v f
  | ch_ips v => set_ips v f
  end.

Definition is_capacity (k : Key.t) : bool := (k ==? Key.declared_peak_cps) || (k ==? Key.declared_max_concurrent_calls).

Definition handleChange (c : Change) (s : RequestAccess) : RequestAccess :=
  let prev := form s in
  let next := apply_change c prev in
  let errs := clear_error (change_key c) (errors s) in
  if is_capacity (change_key c) then
    let wasLocked := over_threshold prev in
    if over_threshold next then
      let before := if wasLocked then hvBeforeLock s else is_high_volume prev in
      set_lock (hvTouched s) before (set_form_errors (set_high_volume true next) errs s)
    else if wasLocked then
      set_form_errors (set_high_volume (if hvTouched s then hvBeforeLock s else false) next) errs s
    else set_form_errors next errs s
  else set_form_errors next errs s.

Definition toggled (p : ProductKey) (l : list ProductKey) : list ProductKey :=
  if includes l p then List.filter (λ q, q !=? p) l else l ++ [p].

Definition toggleProduct (p : ProductKey) (s : RequestAccess) : RequestAccess :=
  set_form_errors (set_products (toggled p (products (form s))) (form s))
    (clear_errors (Key.products :: PRODUCT_FIELDS p) (errors s)) s.

Definition handleHighVolumeToggle (checked : bool) (s : RequestAccess) : RequestAccess :=
  set_lock true (hvBeforeLock s)
    (set_form_errors (set_high_volume checked (form s))
       (clear_errors [Key.intended_use; Key.intended_use_description; Key.originating_ips; Key.expected_daily_calls]
          (errors s)) s).

(** [handleSubmit] up to its request. *)
Definition handleSubmit (s : RequestAccess) : RequestAccess :=
  if submitting s then s
  else match validate (form s) with
       | [] => set_outcome (Some (form s)) (receipt s) [] None s
       | errs =>
           set_outcome (sending s) (receipt s) errs
             (if om_has Key.products errs then Some "Select at least one product under “Products & requirements”."
              else None) s
       end.

(** What the request gives: a created row, an [ApiError], or another error
    with its message ([None]: what was thrown is no [Error]). *)
Inductive Answer := created (id : value) | refused (e : ApiError) | failed (message : option string).

Definition FAILED : string := "Submission failed. Please try again.".
Definition or_failed (message : string) : string := if message ==? "" then FAILED else message.

Section Answered.
Context (num_text : num → string).

(** [handleSubmit] after its request: the errors, and the banner. *)
Definition refusal_shown (errs : FieldErrors) (e : ApiError) : FieldErrors * string :=
  if ae_status e =? 422 then
    let '(fields, leftover) := mapServerErrors num_text (ae_raw e) in
    if (0 <? length fields)%nat then
      (fields, if (0 <? length leftover)%nat then join " · " leftover else "Please review the highlighted fields.")
    else (errs, or_failed (ae_message e))
  else (errs, or_failed (ae_message e)).

Definition answer (a : Answer) (s : RequestAccess) : RequestAccess :=
  match sending s with
  | None => s
  | Some f =>
      match a with
      | created id =>
          set_outcome None (Some (Build_SubmissionReceipt id (selectedProducts f) (is_high_volume f)))
            (errors s) (submitError s) s
      | refused e => let '(errs, banner) := refusal_shown (errors s) e in set_outcome None (receipt s) errs (Some banner) s
      | failed message =>
          set_outcome None (receipt s) (errors s)
            (Some (match message with Some m => or_failed m | None => FAILED end)) s
      end
  end.
End Answered.

Definition handleReset (s : RequestAccess) : RequestAccess :=
  Build_RequestAccess EMPTY_FORM [] (sending s) None None false false (chip s).

Definition initial : RequestAccess := Build_RequestAccess EMPTY_FORM [] None None None false false None.

(** ** Events *)

Definition select_options (k : Key.t) : list string :=
  match k with
  | Key.did_count => DID_COUNT_OPTIONS
  | Key.porting => PORTING_OPTIONS
  | Key.forwarding_setup => FORWARDING_OPTIONS
  | Key.vm_attach_to => ATTACH_TO_OPTIONS
  | Key.monthly_volume => VOLUME_OPTIONS
  | Key.timeline => TIMELINE_OPTIONS
  | Key.state | Key.state_of_registration => US_STATE_OPTIONS
  | Key.gov_id_type => GOV_ID_OPTIONS
  | Key.intended_use => INTENDED_USE_OPTIONS
  | _ => []
  end.

(** The keys with an [input] or a [textarea]. *)
Definition is_input (k : Key.t) : bool :=
  match k with
  | Key.contact_name | Key.email | Key.phone | Key.current_carrier
  | Key.trunk_call_paths | Key.trunk_pbx_vendor | Key.trunk_dids_needed
  | Key.api_use_case | Key.api_expected_cps | Key.api_webhook_url | Key.vm_mailbox_count
  | Key.declared_peak_cps | Key.declared_max_concurrent_calls
  | Key.legal_business_name | Key.address_line1 | Key.address_line2 | Key.city | Key.postal_code
  | Key.gov_id_number | Key.alternate_phone | Key.website
  | Key.intended_use_description | Key.expected_daily_calls => true
  | _ => false
  end.

(** [maxLength], which the browser holds typing to. *)
Definition maxLength (k : Key.t) : option Z :=
  match k with
  | Key.trunk_pbx_vendor => Some 100
  | Key.trunk_dids_needed => Some 200
  | Key.api_use_case => Some USE_CASE_MAX
  | Key.api_webhook_url => Some 255
  | Key.intended_use_description => Some DESCRIPTION_MAX
  | _ => None
  end.
Definition fits (k : Key.t) (v : string) : bool :=
  match maxLength k with Some n => utf16_length v <=? n | None => true end.

Definition trunkSelected (f : IntakeForm) : bool := has p_trunk f.
Definition ipFieldVisible (f : IntakeForm) : bool := trunkSelected f || is_high_volume f.
Definition ipFieldMax (f : IntakeForm) : nat := if trunkSelected f then MAX_TRUNK_IPS else MAX_IPS.
Definition hvLocked (f : IntakeForm) : bool := over_threshold f.

(** The address field is mounted while it is visible. *)
Definition remount (s : RequestAccess) : RequestAccess :=
  let shown := ipFieldVisible (form s) && match receipt s with None => true | Some _ => false end in
  set_chip (if shown then Some (default new_chip (chip s)) else None) s.

Inductive IntakeEvent :=
  | ev_type (k : Key.t) (v : string)
  | ev_pick (k : Key.t) (v : string)
  | ev_registered_agent (v : bool)
  | ev_needs_numbers (v : bool)
  | ev_product (p : ProductKey)
  | ev_high_volume (v : bool)
  | ev_chip_type (v : string)
  | ev_chip_enter
  | ev_chip_backspace
  | ev_chip_blur
  | ev_chip_remove (ip : string)
  | ev_submit
  | ev_answer (a : Answer)
  | ev_reset.

(** What the address field does with its event. *)
Definition chip_done (r : Chip * option (list string)) (s : RequestAccess) : RequestAccess :=
  let s := set_chip (Some r.1) s in
  match r.2 with Some ips => handleChange (ch_ips ips) s | None => s end.

Definition chip_event (e : IntakeEvent) (c : Chip) (s : RequestAccess) : option RequestAccess :=
  let f := form s in
  let ips := originating_ips f in
  let full := (ipFieldMax f <=? length ips)%nat in
  match e with
  | ev_chip_type v => if full then None else Some (chip_done (Build_Chip v None, None) s)
  | ev_chip_enter => if full then None else Some (chip_done (chip_commit (ipFieldMax f) ips c) s)
  | ev_chip_backspace =>
      if full then None
      else if (ch_draft c ==? "") && (0 <? length ips)%nat
      then Some (chip_done (Build_Chip "" None, Some (take (length ips - 1) ips)) s) else Some s
  | ev_chip_blur =>
      if trim (ch_draft c) ==? "" then Some s else Some (chip_done (chip_commit (ipFieldMax f) ips c) s)
  | ev_chip_remove ip =>
      if includes ips ip
      then Some (chip_done (Build_Chip (ch_draft c) None, Some (List.filter (λ x, x !=? ip) ips)) s) else None
  | _ => None
  end.

Section Run.
Context (num_text : num → string).

(** An event of the page; [None]: it cannot happen, the control is not there,
    is disabled or offers no such value. *)
Definition form_event (s : RequestAccess) (e : IntakeEvent) : option RequestAccess :=
  match e with
  | ev_type k v => if is_input k && fits k v then Some (handleChange (ch_text k v) s) else None
  | ev_pick k v => if includes (select_options k) v then Some (handleChange (ch_text k v) s) else None
  | ev_registered_agent v => Some (handleChange (ch_registered_agent v) s)
  | ev_needs_numbers v => Some (handleChange (ch_needs_numbers v) s)
  | ev_product p => if includes PRODUCT_ORDER p then Some (toggleProduct p s) else None
  | ev_high_volume v => if hvLocked (form s) then None else Some (handleHighVolumeToggle v s)
  | ev_submit => Some (handleSubmit s)
  | _ => match chip s with Some c => chip_event e c s | None => None end
  end.

Definition intake_step (s : RequestAccess) (e : IntakeEvent) : option RequestAccess :=
  remount <$>
    match e, receipt s with
    | ev_answer a, _ => if submitting s then Some (answer num_text a s) else None
    | ev_reset, Some _ => Some (handleReset s)
    | ev_reset, None => None
    | _, Some _ => None
    | _, None => if submitting s then None else form_event s e
    end.

Fixpoint intake_run (s : RequestAccess) (events : list IntakeEvent) : option RequestAccess :=
  match events with
  | [] => Some s
  | e :: events => match intake_step s e with Some s' => intake_run s' events | None => None end
  end.
End Run.
