(* ===== verification/IntakeServer.v ===== *)
(** * What the server accepts of the intake form ([docker/api/src/routers/onboarding.py])

    The Pydantic models of [POST /onboarding] as the errors they report, in
    the order of their fields.  A model's own validator runs when its fields
    are valid.  Texts are those of a keyboard: white space is that of ASCII.
    Python's [ipaddress], Pydantic's own messages and the server's switch for
    API Calling are parameters.  The [ivr] product, which the form does not
    offer, is left out. *)
From S2P Require Import Prelude JsString JsValue Format Number Phone Intake.

Local Open Scope string_scope.
Local Open Scope Z_scope.
Local Open Scope list_scope.

(** ** Strings of Python *)

(** [str.isspace] *)
Definition py_space (a : ascii) : bool := ((9 <=? code a) && (code a <=? 13)) || ((28 <=? code a) && (code a <=? 32)).
Fixpoint lstrip (s : string) : string :=
  match s with String a s' => if py_space a then lstrip s' else s | "" => "" end.
Definition py_strip (s : string) : string := srev (lstrip (srev (lstrip s))).

(** [len(s)]: code points of a UTF-8 text. *)
Fixpoint py_len (s : string) : Z :=
  match s with
  | "" => 0
  | String a s => (if (128 <=? code a) && (code a <? 192) then 0 else 1) + py_len s
  end.

Definition stripped_empty (s : string) : bool := py_strip s ==? "".

(** [re.match] with a final dollar sign, which also matches before a last line break. *)
Definition py_match (re : string → bool) (s : string) : bool :=
  re s || match srev s with String a s' => (code a =? 10) && re (srev s') | "" => false end.

(** [utils/phone.py]; [inr] is a [ValueError] with its message. *)
Definition normalize_e164 (raw : string) : string + string :=
  let s := py_strip raw in
  if s ==? "" then inr "phone number is required"
  else
    let d := digits_of s in
    let n := String.length d in
    let lead i l := match char_at i d with Some a => is_digit a && (l <=? digit_val a) | None => false end in
    if starts_with "+" s then
      if (8 <=? n)%nat && (n <=? 15)%nat && lead 0%nat 1 then inl ("+" +:+ d)
      else inr ("malformed E.164 number: '" +:+ raw +:+ "' (expected '+' followed by 8-15 digits, leading digit 1-9)")
    else if (n =? 11)%nat && starts_with "1" d && lead 1%nat 2 then inl ("+" +:+ d)
    else if (n =? 10)%nat && lead 0%nat 2 then inl ("+1" +:+ d)
    else inr ("cannot normalize '" +:+ raw +:+ "': provide full E.164 with country code, e.g. +447911123456").

(** ** Errors *)

(** [loc] after [body], and the message. *)
Record PyError := {
  pe_loc : list string;
  pe_msg : string;
}.

(** A 422 in the words of FastAPI. *)
Definition error_item (e : PyError) : value :=
  VObj [("loc", VArr (vstr "body" :: List.map vstr (pe_loc e))); ("msg", vstr (pe_msg e))].
Definition unprocessable (errs : list PyError) : value := VObj [("detail", VArr (List.map error_item errs))].

(** The constraints Pydantic checks itself. *)
Inductive Rule := too_short (n : Z) | too_long (n : Z) | too_small (n : Z) | too_large (n : Z) | too_few (n : Z) | too_many (n : Z)
  | not_an_int | not_a_literal.

Section Server.
Context (std_msg : Rule → string).
Context (ip_address : string → option string).
(** Version, prefix length and text of a network. *)
Context (ip_network : string → option (Z * Z * string)).
Context (api_calling_enabled : bool).

Definition broken (loc : list string) (r : Rule) : list PyError := [Build_PyError loc (std_msg r)].
(** [raise ValueError(m)] in a validator. *)
Definition value_error (loc : list string) (m : string) : list PyError := [Build_PyError loc ("Value error, " +:+ m)].

Definition when (b : bool) (errs : list PyError) : list PyError := if b then errs else [].
(** A model's validator, after its fields. *)
Definition then_model (fields model : list PyError) : list PyError := match fields with [] => model | _ => fields end.

(** [Field(min_length, max_length)], then the field's validator. *)
Definition str_field (loc : list string) (lo : Z) (hi : option Z) (s : string) (after : list PyError) : list PyError :=
  if py_len s <? lo then broken loc (too_short lo)
  else match hi with
       | Some n => if n <? py_len s then broken loc (too_long n) else after
       | None => after
       end.
Definition opt_str (loc : list string) (hi : Z) (s : option string) : list PyError :=
  match s with Some s => str_field loc 0 (Some hi) s [] | None => [] end.
Definition not_empty (loc : list string) (s : string) : list PyError :=
  when (stripped_empty s) (value_error loc "Field cannot be empty").

(** [Field(ge, le)] on an [int] read from JSON. *)
Definition int_field (loc : list string) (lo hi : Z) (n : num) : list PyError :=
  match Z_of_num n with
  | None => broken loc not_an_int
  | Some z => if z <? lo then broken loc (too_small lo) else when (hi <? z) (broken loc (too_large hi))
  end.
Definition opt_int (loc : list string) (lo hi : Z) (n : option num) : list PyError :=
  match n with Some n => int_field loc lo hi n | None => [] end.

Definition literal (loc : list string) (l : list string) (s : string) : list PyError :=
  when (negb (includes l s)) (broken loc not_a_literal).

Definition lacks_slash : string → bool := sforall (λ a, negb (a ==? "/"%char)).

(** [_validate_ip_or_cidr]: the complaint, if any. *)
Definition validate_ip_or_cidr (entry : string) : option string :=
  let entry := py_strip entry in
  if negb (lacks_slash entry) then
    match ip_network entry with
    | None => Some ("invalid CIDR block: '" +:+ entry +:+ "'")
    | Some (version, prefixlen, _) =>
        let min_prefix := if version =? 4 then 24 else 64 in
        if prefixlen <? min_prefix then
          Some ("CIDR block too large: '" +:+ entry +:+ "' (max /" +:+ print_int min_prefix +:+ " for IPv"
                +:+ print_int version +:+ ")")
        else None
    end
  else match ip_address entry with
       | None => Some ("invalid IP address: '" +:+ entry +:+ "'")
       | Some _ => None
       end.

Definition ip_list (loc : list string) (max : nat) (ips : list string) : list PyError :=
  if (length ips <? 1)%nat then broken loc (too_few 1)
  else if (max <? length ips)%nat then broken loc (too_many (Z.of_nat max))
  else match omap validate_ip_or_cidr ips with
       | m :: _ => value_error loc m
       | [] => []
       end.

(** [_STATE_RE] *)
Definition state_re (s : string) : bool := (String.length s =? 2)%nat && sforall is_letter s.

(** ** The models *)

Definition in_standard (k : string) : list string := ["kyc"; "standard"; k].

Definition standard_fields (k : KycStandard) : list PyError :=
  let text k hi s := str_field (in_standard k) 1 (Some hi) s (not_empty (in_standard k) s) in
  text "legal_business_name" 200 (ks_legal_business_name k)
  ++ text "address_line1" 200 (ks_address_line1 k)
  ++ opt_str (in_standard "address_line2") 200 (ks_address_line2 k)
  ++ text "city" 100 (ks_city k)
  ++ when (negb (py_match state_re (py_strip (ks_state k))))
       (value_error (in_standard "state") "state must be a 2-letter code")
  ++ str_field (in_standard "postal_code") 3 (Some 20) (ks_postal_code k)
       (not_empty (in_standard "postal_code") (ks_postal_code k))
  ++ match ks_state_of_registration k with
     | Some s => when (negb (stripped_empty s) && negb (py_match state_re (py_strip s)))
                   (value_error (in_standard "state_of_registration") "state_of_registration must be a 2-letter code")
     | None => []
     end
  ++ match normalize_e164 (ks_alternate_phone k) with
     | inr m => value_error (in_standard "alternate_phone") ("alternate_phone: " +:+ m)
     | inl _ => []
     end
  ++ opt_str (in_standard "website") 255 (ks_website k).

(** [validate_gov_id] *)
Definition standard_model (k : KycStandard) : list PyError :=
  let loc := ["kyc"; "standard"] in
  let gov_id := py_strip (ks_gov_id_number k) in
  let has_state := match ks_state_of_registration k with Some s => negb (stripped_empty s) | None => false end in
  let unregistered :=
    when ((ks_gov_id_type k ==? g_state_registration) && negb has_state)
      (value_error loc "state_of_registration is required when gov_id_type='state_registration'") in
  if ks_gov_id_type k ==? g_ein then
    if negb (py_match EIN_RE gov_id) then value_error loc "gov_id_number: EIN must match NN-NNNNNNN" else unregistered
  else if negb ((2 <=? py_len gov_id) && (py_len gov_id <=? 40))
  then value_error loc "gov_id_number must be 2-40 characters" else unregistered.

Definition check_standard (k : KycStandard) : list PyError := then_model (standard_fields k) (standard_model k).

Definition check_high_volume (h : KycHighVolume) : list PyError :=
  let loc k := ["kyc"; "high_volume"; k] in
  then_model
    (opt_str (loc "intended_use_description") 500 (hv_intended_use_description h)
     ++ ip_list (loc "originating_ips") 20 (hv_originating_ips h)
     ++ opt_int (loc "expected_daily_calls") 0 10000000 (hv_expected_daily_calls h))
    (when ((hv_intended_use h ==? u_other) && stripped_empty (default "" (hv_intended_use_description h)))
       (value_error ["kyc"; "high_volume"] "intended_use_description is required when intended_use='other'")).

Definition number_text (n : num) : string := match Z_of_num n with Some z => print_int z | None => "" end.

(** [validate_high_volume] *)
Definition kyc_model (k : KycPayload) : list PyError :=
  let exceeds := num_lt (num_of_Z 1) (ky_declared_peak_cps k) || num_lt (num_of_Z 1000) (ky_declared_max_concurrent_calls k) in
  let present := match ky_high_volume k with Some _ => true | None => false end in
  if exceeds && negb (ky_is_high_volume k)
  then value_error ["kyc"] ("is_high_volume must be true (with the high_volume block): declared capacity (peak "
         +:+ number_text (ky_declared_peak_cps k) +:+ " CPS, " +:+ number_text (ky_declared_max_concurrent_calls k)
         +:+ " concurrent call paths) exceeds Granite's high-volume threshold under the FCC's Know-Your-Customer rules (FCC 26-27) — more than 1 CPS or more than 1,000 concurrent call paths")
  else if ky_is_high_volume k && negb present
  then value_error ["kyc"] "high_volume KYC data is required when is_high_volume=true (FCC 26-27: intended use + originating IPs)"
  else when (negb (ky_is_high_volume k) && present)
         (value_error ["kyc"] "high_volume must be null when is_high_volume=false").

Definition check_kyc (k : KycPayload) : list PyError :=
  then_model
    (check_standard (ky_standard k)
     ++ match ky_high_volume k with Some h => check_high_volume h | None => [] end
     ++ int_field ["kyc"; "declared_peak_cps"] 1 1000 (ky_declared_peak_cps k)
     ++ int_field ["kyc"; "declared_max_concurrent_calls"] 1 100000 (ky_declared_max_concurrent_calls k))
    (kyc_model k).

Definition check_rcf (r : RcfIntake) : list PyError :=
  let loc k := ["products"; "rcf"; k] in
  let carrier := py_strip (default "" (rcf_current_carrier r)) in
  then_model
    (literal (loc "did_count") DID_COUNT_OPTIONS (rcf_did_count r)
     ++ literal (loc "porting") PORTING_OPTIONS (rcf_porting r)
     ++ opt_str (loc "current_carrier") 200 (rcf_current_carrier r)
     ++ literal (loc "forwarding_setup") FORWARDING_OPTIONS (rcf_forwarding_setup r))
    (when (portingRequiresCarrier (rcf_porting r) && (carrier ==? ""))
       (value_error ["products"; "rcf"] "current_carrier is required when porting existing numbers")).

Definition check_trunk (t : TrunkIntake) : list PyError :=
  let loc k := ["products"; "trunk"; k] in
  ip_list (loc "signaling_ips") 10 (tk_signaling_ips t)
  ++ int_field (loc "concurrent_call_paths") 1 1000 (tk_concurrent_call_paths t)
  ++ opt_str (loc "pbx_vendor") 100 (tk_pbx_vendor t)
  ++ opt_str (loc "dids_needed") 200 (tk_dids_needed t).

Definition check_api (a : ApiIntake) : list PyError :=
  let loc k := ["products"; "api"; k] in
  str_field (loc "use_case") 1 (Some 300) (ap_use_case a) (not_empty (loc "use_case") (ap_use_case a))
  ++ opt_int (loc "expected_cps") 1 1000 (ap_expected_cps a)
  ++ match ap_webhook_url a with
     | Some u => str_field (loc "webhook_url") 0 (Some 255) u
                   (when (negb (stripped_empty u) && negb (py_match webhook_url (py_strip u)))
                      (value_error (loc "webhook_url") "webhook_url must be a valid http(s):// URL"))
     | None => []
     end.

Definition check_voicemail (v : VoicemailIntake) : list PyError :=
  int_field ["products"; "voicemail"; "mailbox_count"] 1 10000 (vm_mailbox_count v).

(** [validate_blocks_match_selection] *)
Definition product_name (p : ProductKey) : string :=
  match p with p_rcf => "rcf" | p_trunk => "trunk" | p_api => "api" | p_voicemail => "voicemail" end.
Definition block_present (pp : ProductsPayload) (p : ProductKey) : bool :=
  match p with
  | p_rcf => match pp_rcf pp with Some _ => true | None => false end
  | p_trunk => match pp_trunk pp with Some _ => true | None => false end
  | p_api => match pp_api pp with Some _ => true | None => false end
  | p_voicemail => match pp_voicemail pp with Some _ => true | None => false end
  end.
Definition mismatch (pp : ProductsPayload) (p : ProductKey) : option string :=
  let selected := includes (pp_selected pp) p in
  if selected && negb (block_present pp p)
  then Some ("products." +:+ product_name p +:+ " is required when '" +:+ product_name p +:+ "' is selected")
  else if negb selected && block_present pp p
  then Some ("products." +:+ product_name p +:+ " must be null when '" +:+ product_name p +:+ "' is not selected")
  else None.
Definition products_model (pp : ProductsPayload) : list PyError :=
  if negb api_calling_enabled && (includes (pp_selected pp) p_api || block_present pp p_api)
  then value_error ["products"] "API Calling is retired: the 'api' product can no longer be requested — deselect it (RCF, SIP Trunking and Voicemail remain available)"
  else match omap (mismatch pp) [p_rcf; p_trunk; p_api; p_voicemail] with
       | m :: _ => value_error ["products"] m
       | [] => []
       end.

Definition check_products (pp : ProductsPayload) : list PyError :=
  let block {A} (check : A → list PyError) (b : option A) := match b with Some x => check x | None => [] end in
  then_model
    ((if (length (pp_selected pp) <? 1)%nat then broken ["products"; "selected"] (too_few 1)
      else when (negb (bool_decide (NoDup (pp_selected pp))))
             (value_error ["products"; "selected"] "selected must not contain duplicates"))
     ++ block check_rcf (pp_rcf pp) ++ block check_trunk (pp_trunk pp) ++ block check_api (pp_api pp)
     ++ block check_voicemail (pp_voicemail pp))
    (products_model pp).

(** [^[a-zA-Z0-9_.+-]+@[a-zA-Z0-9-]+\.[a-zA-Z0-9-.]+$] *)
Definition label_char (a : ascii) : bool := is_alnum a || (a ==? "-"%char).
Definition local_char (a : ascii) : bool :=
  is_alnum a || (a ==? "_"%char) || (a ==? "."%char) || (a ==? "+"%char) || (a ==? "-"%char).
Definition email_re_py (s : string) : bool :=
  let '(local, r) := span local_char s in
  let '(host, r') := span label_char (slice_from 1 r) in
  let tld := slice_from 1 r' in
  (local !=? "") && starts_with "@" r && (host !=? "") && starts_with "." r' && (tld !=? "") && sforall host_char tld.

(** [validate_alternate_phone_differs]: the two numbers read alike. *)
Definition same_phone (main alternate : string) : bool :=
  let alt := match normalize_e164 alternate with inl a => a | inr _ => alternate end in
  match normalize_e164 main with
  | inl m => m ==? alt
  | inr _ => digits_of main ==? digits_of alt
  end.

(** The errors of [OnboardingSubmit]; none: the request is stored. *)
Definition check_submission (p : OnboardingSubmitPayload) : list PyError :=
  then_model
    (not_empty ["company_name"] (os_company_name p)
     ++ not_empty ["contact_name"] (os_contact_name p)
     ++ when (negb (py_match email_re_py (os_email p))) (value_error ["email"] "Invalid email address")
     ++ not_empty ["phone"] (os_phone p)
     ++ not_empty ["monthly_volume"] (os_monthly_volume p)
     ++ not_empty ["timeline"] (os_timeline p)
     ++ check_kyc (os_kyc p)
     ++ check_products (os_products p))
    (when (same_phone (py_strip (os_phone p)) (ks_alternate_phone (ky_standard (os_kyc p))))
       (value_error [] "kyc.standard.alternate_phone must differ from the main phone")).
End Server.
