(* ===== verification/IntakeOk.v ===== *)
(** * The intake form: what every session of it keeps

    Selects hold one of their options, the addresses are checked ones, texts
    fit their fields, and the high-volume declaration is on while the declared
    capacity asks for it. *)
From S2P Require Import Prelude JsString JsValue Number Phone Ip IvrError ApiClient Intake.

Local Open Scope string_scope.
Local Open Scope Z_scope.
Local Open Scope list_scope.

(** ** Well-formed forms *)

(** An address the check has passed, as it is kept. *)
Definition checked_ip (ip : string) : Prop := validateIpOrCidr ip = ip_ok ip.

Record form_ok (f : IntakeForm) : Prop := {
  fo_options : ∀ k, text f k = "" ∨ is_input k = true ∨ text f k ∈ select_options k;
  fo_fits : ∀ k, fits k (text f k) = true;
  fo_products : products f ⊆ PRODUCT_ORDER;
  fo_products_once : NoDup (products f);
  fo_ips : Forall checked_ip (originating_ips f);
  fo_ips_once : NoDup (originating_ips f);
  fo_ips_max : (length (originating_ips f) ≤ MAX_IPS)%nat;
  fo_high_volume : over_threshold f = true → is_high_volume f = true;
}.

Lemma fits_empty k : fits k "" = true.
Proof. by destruct k. Qed.

Lemma empty_form_ok : form_ok EMPTY_FORM.
Proof.
  split; simpl; try by constructor.
  - apply fits_empty.
  - by intros x Hx%not_elem_of_nil.
  - unfold MAX_IPS. lia.
  - by vm_compute.
Qed.

(** ** The address field *)

Lemma check_prefix_ok p w l fam entry v : check_prefix p w l fam entry = ip_ok v → v = entry.
Proof. unfold check_prefix. repeat case_match; try done. by intros [= ->]. Qed.

(** An address that passes is kept trimmed, and passes again. *)
Lemma checked_again raw v : validateIpOrCidr raw = ip_ok v → v = trim raw ∧ checked_ip v.
Proof.
  intros H. assert (v = trim raw) as ->.
  { unfold validateIpOrCidr in H. destruct (trim raw ==? ""); [done|]. destruct (at_slash (trim raw)) as [[addr p]|].
    - destruct (negb _); [done|]. destruct (isValidIpv4 addr); [by eapply check_prefix_ok|].
      destruct (isValidIpv6 addr); [by eapply check_prefix_ok|done].
    - destruct (_ || _); [by injection H|done]. }
  split; [done|]. unfold checked_ip, validateIpOrCidr. by rewrite trim_idemp.
Qed.

Definition ips_ok (ips : list string) : Prop := Forall checked_ip ips ∧ NoDup ips ∧ (length ips ≤ MAX_IPS)%nat.

Lemma commit_parts_ok max parts next ips :
  (max ≤ MAX_IPS)%nat → ips_ok next → commit_parts max next parts = inl ips → ips_ok ips.
Proof.
  intros Hm. revert next. induction parts as [|part parts IH]; simpl; intros next Hn; [by intros [= <-]|].
  destruct (validateIpOrCidr part) as [v|e] eqn:Ev; [|done]. destruct (includes next v) eqn:Ei; [by apply IH|].
  destruct (Nat.leb_spec max (length next)); [done|]. apply IH. apply checked_again in Ev as [_ Hv].
  destruct Hn as (Hf & Hd & Hl). split_and!.
  - apply Forall_app. split; [done|by constructor].
  - apply NoDup_app. split_and!; [done| |apply NoDup_singleton]. intros x Hx ->%list_elem_of_singleton.
    by apply includes_false in Ei.
  - rewrite length_app. simpl. lia.
Qed.

Lemma chip_commit_ok max ips c c' ips' :
  (max ≤ MAX_IPS)%nat → ips_ok ips → chip_commit max ips c = (c', Some ips') → ips_ok ips'.
Proof.
  intros Hm Hi. unfold chip_commit. destruct (List.filter _ _) as [|p parts]; [done|].
  destruct (commit_parts max ips (p :: parts)) as [next|e] eqn:E; [|done].
  apply commit_parts_ok in E; [|done..]. case_match; [done|]. by intros [= <- <-].
Qed.

(** ** One change *)

Lemma options_kept f k v :
  (∀ j, text f j = "" ∨ is_input j = true ∨ text f j ∈ select_options j) →
  is_input k = true ∨ v ∈ select_options k →
  ∀ j, text (set_text k v f) j = "" ∨ is_input j = true ∨ text (set_text k v f) j ∈ select_options j.
Proof. intros Hf Hv j. simpl. case_bool_decide; [subst j; tauto|apply Hf]. Qed.

Lemma over_high_volume f v : over_threshold (set_high_volume v f) = over_threshold f.
Proof. done. Qed.

(** Only the two capacities bear on the threshold. *)
Lemma over_text f k v : is_capacity k = false → over_threshold (set_text k v f) = over_threshold f.
Proof.
  unfold is_capacity, over_threshold. intros [H1%bool_decide_eq_false H2%bool_decide_eq_false]%orb_false_iff. simpl.
  by rewrite !bool_decide_eq_false_2 by congruence.
Qed.

(** A change a control can make. *)
Definition change_ok (c : Change) : Prop :=
  match c with
  | ch_text k v => (is_input k = true ∨ v ∈ select_options k) ∧ fits k v = true
  | ch_ips v => ips_ok v
  | _ => True
  end.

Lemma form_ok_high_volume f b : form_ok f → (over_threshold f = true → b = true) → form_ok (set_high_volume b f).
Proof. intros [] Hb. by split. Qed.

(** All of [form_ok] but the last. *)
Definition form_ok' (f : IntakeForm) : Prop := form_ok (set_high_volume true f).

Lemma change_form_ok c f : form_ok f → change_ok c → form_ok' (apply_change c f).
Proof.
  intros [] Hc. destruct c as [k v|v|v|v]; simpl in Hc.
  - destruct Hc as [Hv Hk]. split; try done.
    + by apply options_kept.
    + intros j. simpl. case_bool_decide; [by subst|done].
  - by split.
  - by split.
  - destruct Hc as (? & ? & ?). by split.
Qed.

Lemma form_ok_of' f : form_ok' f → (over_threshold f = true → is_high_volume f = true) → form_ok f.
Proof. intros [] H. by split. Qed.

Lemma over_change c f : is_capacity (change_key c) = false → over_threshold (apply_change c f) = over_threshold f.
Proof. destruct c; simpl; [apply over_text|done..]. Qed.

Lemma change_high_volume c f : is_high_volume (apply_change c f) = is_high_volume f.
Proof. by destruct c. Qed.

Lemma handleChange_form_ok c s : form_ok (form s) → change_ok c → form_ok (form (handleChange c s)).
Proof.
  intros Hf Hc. pose proof (change_form_ok c _ Hf Hc) as Hn. unfold handleChange.
  destruct (is_capacity (change_key c)) eqn:Ec; simpl.
  - destruct (over_threshold (apply_change c (form s))) eqn:E; [done|].
    destruct (over_threshold (form s)) eqn:E'; simpl.
    + apply form_ok_of'; [|rewrite over_high_volume; congruence]. by unfold form_ok' in *.
    + apply form_ok_of'; [done|congruence].
  - apply form_ok_of'; [done|]. rewrite over_change, change_high_volume by done. apply Hf.
Qed.

(** ** The session *)

(** The form on the page, and the one whose request is under way. *)
Definition intake_ok (s : RequestAccess) : Prop :=
  form_ok (form s) ∧ ∀ f, sending s = Some f → form_ok f ∧ validate f = [].

Lemma toggled_ok p l : p ∈ PRODUCT_ORDER → NoDup l → l ⊆ PRODUCT_ORDER → NoDup (toggled p l) ∧ toggled p l ⊆ PRODUCT_ORDER.
Proof.
  intros Hp Hd Hl. unfold toggled. destruct (includes l p) eqn:E.
  - split; [by apply NoDup_lfilter|]. intros q [Hq _]%elem_of_lfilter. by apply Hl.
  - apply includes_false in E. split.
    + apply NoDup_app. split_and!; [done| |apply NoDup_singleton]. by intros q Hq ->%list_elem_of_singleton.
    + intros q [Hq| ->%list_elem_of_singleton]%elem_of_app; [by apply Hl|done].
Qed.

Lemma ips_of_form f : form_ok f → ips_ok (originating_ips f).
Proof. by intros []. Qed.

Lemma chip_done_ok r s :
  form_ok (form s) → (∀ ips, r.2 = Some ips → ips_ok ips) → form_ok (form (chip_done r s)) ∧ sending (chip_done r s) = sending s.
Proof.
  intros Hf Hr. unfold chip_done. destruct r.2 as [ips|] eqn:E; [|done]. split; [|done].
  apply handleChange_form_ok; [done|]. by apply Hr.
Qed.

Lemma ips_ok_take n ips : ips_ok ips → ips_ok (take n ips).
Proof.
  intros (Hf & Hd & Hl). split_and!; [by apply Forall_take|by eapply sublist_NoDup; [|apply sublist_take]|].
  rewrite length_take. lia.
Qed.

Lemma ips_ok_remove ip ips : ips_ok ips → ips_ok (List.filter (λ x, x !=? ip) ips).
Proof.
  intros (Hf & Hd & Hl). split_and!; [|by apply NoDup_lfilter|].
  - apply Forall_forall. intros x [Hx _]%elem_of_lfilter. by rewrite Forall_forall in Hf; apply Hf.
  - pose proof (List.filter_length_le (λ x, x !=? ip) ips). lia.
Qed.

Lemma ipFieldMax_le f : (ipFieldMax f ≤ MAX_IPS)%nat.
Proof. unfold ipFieldMax, MAX_IPS, MAX_TRUNK_IPS. case_match; lia. Qed.

Lemma chip_event_ok e c s s' :
  form_ok (form s) → chip_event e c s = Some s' → form_ok (form s') ∧ sending s' = sending s.
Proof.
  intros Hf. pose proof (ips_of_form _ Hf) as Hi. pose proof (ipFieldMax_le (form s)) as Hm. unfold chip_event.
  assert (∀ r, r = chip_commit (ipFieldMax (form s)) (originating_ips (form s)) c → ∀ ips, r.2 = Some ips → ips_ok ips) as Hcm.
  { intros [c' o] Er ips Eo. simpl in Eo. subst o. by eapply chip_commit_ok. }
  assert (∀ r t, chip_done r s = t → (∀ ips, r.2 = Some ips → ips_ok ips) → form_ok (form t) ∧ sending t = sending s) as Hd.
  { intros r t <- Hr. by apply chip_done_ok. }
  destruct e; try done; repeat case_match; try done; intros [= <-]; try done; eapply Hd; try done; try by eapply Hcm.
  all: intros l [= <-]; by (apply ips_ok_take || apply ips_ok_remove).
Qed.

Section Run.
Context (num_text : num → string).

Lemma form_event_ok s e s' :
  intake_ok s → submitting s = false → form_event s e = Some s' → intake_ok s'.
Proof.
  intros [Hf Hs] Hsub.
  assert (sending s = None) as En by (unfold submitting in Hsub; by destruct (sending s)).
  assert (∀ t, form_ok (form t) ∧ sending t = sending s → intake_ok t) as Hof.
  { intros t [Ht Et]. split; [done|]. rewrite Et, En. done. }
  assert (∀ c, change_ok c → intake_ok (handleChange c s)) as Hch.
  { intros c Hc. apply Hof. split; [by apply handleChange_form_ok|].
    unfold handleChange. by repeat case_match. }
  assert (∀ t, (match chip s with Some c => chip_event e c s | None => None end) = Some t → intake_ok t) as Hchip.
  { destruct (chip s) as [c|]; [|done]. intros t Ht. apply Hof. by eapply chip_event_ok. }
  destruct e; cbn [form_event]; try done; try by apply Hchip.
  - destruct (is_input k) eqn:Ek; [|done]. destruct (fits k v) eqn:Ev; [|done]. intros [= <-]. apply Hch. simpl. auto.
  - destruct (includes (select_options k) v) eqn:Ei; [|done]. intros [= <-]. apply Hch. simpl. apply includes_true in Ei. split; [auto|].
    destruct k; try done; simpl in Ei; by apply not_elem_of_nil in Ei.
  - intros [= <-]. by apply Hch.
  - intros [= <-]. by apply Hch.
  - destruct (includes PRODUCT_ORDER p) eqn:Ep; [|done]. intros [= <-]. apply Hof. split; [|done]. apply includes_true in Ep.
    destruct Hf. destruct (toggled_ok p (products (form s))) as [? ?]; [done..|]. by split.
  - destruct (hvLocked (form s)) eqn:El; [done|]. intros [= <-]. apply Hof. split; [|done]. simpl.
    apply form_ok_high_volume; [done|]. unfold hvLocked in El. congruence.
  - intros [= <-]. unfold handleSubmit. rewrite Hsub. destruct (validate (form s)) as [|x errs] eqn:Ev.
    + split; [done|]. intros f [= <-]. done.
    + by apply Hof.
Qed.

Lemma intake_step_ok s e s' : intake_ok s → intake_step num_text s e = Some s' → intake_ok s'.
Proof.
  intros Hs. unfold intake_step.
  assert (∀ o, (∀ t, o = Some t → intake_ok t) → remount <$> o = Some s' → intake_ok s') as Hr.
  { intros [t|] Ho; [|done]. intros [= <-]. specialize (Ho t eq_refl). done. }
  apply Hr. clear Hr. intros t.
  assert ((if submitting s then None else form_event s e) = Some t → intake_ok t) as Hform.
  { destruct (submitting s) eqn:Es; [done|]. by apply form_event_ok. }
  destruct e; destruct (receipt s); try done; try by apply Hform.
  1,2: destruct (submitting s); [|done]; intros [= <-]; unfold answer; destruct (sending s) as [f|]; [|done];
    destruct a as [id|err|m]; [|destruct (refusal_shown _ _ _)|]; (split; [exact (proj1 Hs)|done]).
  intros [= <-]. split; [apply empty_form_ok|]. exact (proj2 Hs).
Qed.

Lemma intake_run_ok events s s' : intake_ok s → intake_run num_text s events = Some s' → intake_ok s'.
Proof.
  revert s. induction events as [|e events IH]; intros s Hs; simpl; [by intros [= <-]|].
  destruct (intake_step num_text s e) as [t|] eqn:E; [|done]. apply IH. by eapply intake_step_ok.
Qed.

Lemma initial_ok : intake_ok initial.
Proof. split; [apply empty_form_ok|done]. Qed.
End Run.

(** ** The high-volume switch *)

(** What the customer last chose, since the form was last emptied. *)
Definition own_choice (c : bool) (e : IntakeEvent) : bool :=
  match e with ev_high_volume v => v | ev_reset => false | _ => c end.
Definition own_choices (events : list IntakeEvent) : bool := fold_left own_choice events false.

(** The switch is the choice [c], or locked on with the choice kept aside. *)
Definition switch_ok (c : bool) (s : RequestAccess) : Prop :=
  (hvTouched s = false → c = false)
  ∧ if over_threshold (form s) then is_high_volume (form s) = true ∧ (hvTouched s = true → hvBeforeLock s = c)
    else is_high_volume (form s) = c.

Lemma handleChange_switch c ch s : switch_ok c s → switch_ok c (handleChange ch s).
Proof.
  intros [Ht Hs]. unfold handleChange. destruct (is_capacity (change_key ch)) eqn:Ec.
  - destruct (over_threshold (apply_change ch (form s))) eqn:En.
    + split; [done|]. simpl. rewrite over_high_volume, En. split; [done|]. intros Hto.
      destruct (over_threshold (form s)); [by apply Hs|done].
    + destruct (over_threshold (form s)) eqn:Ew; (split; [done|]); simpl; rewrite ?over_high_volume, En; simpl.
      * destruct (hvTouched s); [by apply Hs|]. by rewrite Ht.
      * by rewrite change_high_volume.
  - split; [done|]. simpl. by rewrite over_change, change_high_volume.
Qed.

Lemma chip_event_switch c e ch s s' : switch_ok c s → chip_event e ch s = Some s' → switch_ok c s'.
Proof.
  intros Hs. assert (∀ r, switch_ok c (chip_done r s)) as Hd.
  { intros r. unfold chip_done. destruct r.2; [by apply handleChange_switch|done]. }
  unfold chip_event. destruct e; try done; repeat case_match; try done; intros [= <-]; done || apply Hd.
Qed.

Lemma form_event_switch c s e s' : switch_ok c s → form_event s e = Some s' → e ≠ ev_reset → switch_ok (own_choice c e) s'.
Proof.
  intros Hs He Hr.
  assert (match chip s with Some ch => chip_event e ch s | None => None end = Some s' → switch_ok c s') as Hchip.
  { destruct (chip s); [|done]. by apply chip_event_switch. }
  destruct e; cbn [form_event own_choice] in *; try done; try by apply Hchip.
  - destruct (_ && _); [|done]. injection He as <-. by apply handleChange_switch.
  - destruct (includes _ _); [|done]. injection He as <-. by apply handleChange_switch.
  - injection He as <-. by apply handleChange_switch.
  - injection He as <-. by apply handleChange_switch.
  - destruct (includes _ _); [|done]. by injection He as <-.
  - unfold hvLocked in He. destruct (over_threshold (form s)) eqn:El; [done|]. injection He as <-.
    split; [done|]. simpl. by rewrite over_high_volume, El.
  - injection He as <-. unfold handleSubmit. by repeat case_match.
Qed.

Lemma intake_step_switch num_text c s e s' :
  switch_ok c s → intake_step num_text s e = Some s' → switch_ok (own_choice c e) s'.
Proof.
  intros Hs. unfold intake_step.
  assert (∀ o, (∀ t, o = Some t → switch_ok (own_choice c e) t) → remount <$> o = Some s' → switch_ok (own_choice c e) s') as Hr.
  { intros [t|] Ho; [|done]. intros [= <-]. specialize (Ho t eq_refl). done. }
  apply Hr. clear Hr. intros t.
  assert ((if submitting s then None else form_event s e) = Some t → e ≠ ev_reset → switch_ok (own_choice c e) t) as Hform.
  { destruct (submitting s); [done|]. by apply form_event_switch. }
  destruct e; destruct (receipt s); try done; try by intros ?; apply Hform.
  1,2: destruct (submitting s); [|done]; intros [= <-]; unfold answer; by repeat case_match.
  by intros [= <-].
Qed.

(** C17 The high-volume switch is on exactly when the declared capacity is over
    one of the two thresholds, or the customer's own last choice says so:
    whatever is typed and erased in the capacity fields, locking and
    unlocking it, that choice is what the switch goes back to. *)
Theorem switch_is_choice num_text events s :
  intake_run num_text initial events = Some s →
  is_high_volume (form s) = over_threshold (form s) || own_choices events.
Proof.
  assert (∀ c t, switch_ok c t → intake_run num_text t events = Some s → switch_ok (fold_left own_choice events c) s) as Hrun.
  { induction events as [|e events IH]; intros c t Ht; simpl; [by intros [= <-]|].
    destruct (intake_step num_text t e) as [t'|] eqn:E; [|done]. apply IH. by eapply intake_step_switch. }
  intros H. destruct (Hrun false initial) as [_ Hs]; [by split|done|]. unfold own_choices.
  destruct (over_threshold (form s)); [by destruct Hs as [-> _]|done].
Qed.
