(* ===== verification/IntakeText.v ===== *)
(** * The texts and numbers of the intake form, read by both ends

    On what a keyboard types, Python's [strip] and [len] are [trim] and
    [length], a number the form takes for whole and in range is one to the
    server, and a checked address is one to [ipaddress].  The two ends of
    number canonicalisation, [normalizeNumberInput] ([utils/phone.ts]) and
    [normalize_e164] ([docker/api/src/utils/phone.py]), are meant to be one
    algorithm. *)
From Stdlib Require Import QArith Qround.
From S2P Require Import Prelude JsString JsValue Format IvrError Ip Phone Number ApiClient Intake IntakeServer IntakeOk.

Local Close Scope Q_scope.
Local Open Scope string_scope.
Local Open Scope Z_scope.
Local Open Scope list_scope.

(** ** Texts *)

Lemma py_space_typed a : typed a = true → py_space a = ws1 a.
Proof. unfold typed, plain, py_space, ws1. intros H. destruct (ws1 a) eqn:E; unfold ws1 in E; lia. Qed.

Lemma lstrip_typed s : sforall typed s = true → lstrip s = ltrim s ∧ lstrip s = rltrim s ∧ sforall typed (lstrip s) = true.
Proof.
  induction s as [|a s IH]; [done|]. simpl. intros [Ha Hs]%andb_true_iff. destruct (IH Hs) as (E1 & E2 & E3).
  rewrite py_space_typed by done. destruct (ws1 a) eqn:Ew; [done|].
  assert (sforall typed (String a s) = true) as Has by (simpl; by rewrite Ha, Hs).
  split_and!; [| |done]; destruct s as [|b s]; try done; simpl in Hs; apply andb_true_iff in Hs as [Hb Hs].
  - destruct (typed_not_ws a Ha) as [H2 H3]. rewrite H2. destruct s as [|c s]; [done|]. by rewrite H3.
  - destruct (typed_not_ws b Hb) as [H2 H3]. rewrite H2. destruct s as [|c s]; [done|].
    simpl in Hs. apply andb_true_iff in Hs as [Hc Hs]. destruct (typed_not_ws c Hc) as [_ H3']. by rewrite H3'.
Qed.

(** [strip] is [trim]. *)
Lemma py_strip_typed s : sforall typed s = true → py_strip s = trim s.
Proof.
  intros Hs. unfold py_strip, trim. destruct (lstrip_typed s Hs) as (-> & _ & Hl).
  destruct (lstrip_typed (srev (ltrim s))) as (_ & -> & _); [|done].
  rewrite sforall_srev. exact Hl.
Qed.

Lemma typed_code a : typed a = true → code a < 128.
Proof. unfold typed, plain, ws1. lia. Qed.

Lemma py_len_typed s : sforall typed s = true → py_len s = Z.of_nat (String.length s) ∧ utf16_length s = Z.of_nat (String.length s).
Proof.
  induction s as [|a s IH]; [done|]. cbn [sforall py_len utf16_length String.length].
  intros [Ha%typed_code Hs]%andb_true_iff. destruct (IH Hs) as [-> ->].
  destruct (Z.leb_spec 128 (code a)); [lia|]. destruct (Z.leb_spec 240 (code a)); [lia|]. simpl. lia.
Qed.

(** Both lengths are one. *)
Lemma lengths_agree s : sforall typed s = true → py_len s = utf16_length s.
Proof. intros Hs. by destruct (py_len_typed s Hs) as [-> ->]. Qed.

Lemma py_len_pos s : sforall typed s = true → s ≠ "" → 1 ≤ py_len s.
Proof. intros Hs Hne. destruct (py_len_typed s Hs) as [-> _]. destruct s; [done|]. simpl. lia. Qed.

Lemma trim_length s : (String.length (trim s) ≤ String.length s)%nat.
Proof.
  unfold trim.
  assert (∀ u, String.length (srev u) = String.length u) as Hr by (intros u; unfold srev; rewrite length_srev_app; simpl; lia).
  rewrite Hr. destruct (rltrim_suffix (srev (ltrim s))) as [p Ep].
  pose proof (f_equal String.length Ep) as El. rewrite slength_app, Hr in El. pose proof (ltrim_length s). lia.
Qed.

Lemma stripped_empty_trim s : sforall typed s = true → stripped_empty (trim s) = (trim s ==? "").
Proof. intros Hs. unfold stripped_empty. by rewrite py_strip_typed, trim_idemp by by apply trim_typed. Qed.

(** ** Numbers *)

Lemma whole_Z n :
  whole n = true → ∃ z, Z_of_num n = Some z ∧ ∀ k, num_lt n (num_of_Z k) = (z <? k) ∧ num_lt (num_of_Z k) n = (k <? z).
Proof.
  unfold whole. destruct n as [q| |]; [|done..]. simpl. intros Hq. rewrite Hq. eexists. split; [done|].
  unfold Q_is_int in Hq. apply Z.eqb_eq in Hq. destruct q as [a d]. simpl in *.
  pose proof (Z.div_mod a (Z.pos d) ltac:(lia)) as Ea. rewrite Hq, Z.add_0_r in Ea. intros k.
  assert (∀ x y, Qle_bool x y = true ↔ (Qnum x * QDen y <= Qnum y * QDen x)%Z) as Hle by (intros; apply Z.leb_le).
  split.
  - rewrite (Z.ltb_antisym k (a / Z.pos d)). f_equal. apply eq_true_iff_eq. rewrite Hle, Z.leb_le. simpl. nia.
  - rewrite (Z.ltb_antisym (a / Z.pos d) k). f_equal. apply eq_true_iff_eq. rewrite Hle, Z.leb_le. simpl. nia.
Qed.

Lemma Number_trim s : Number (trim s) = Number s.
Proof. unfold Number. by rewrite trim_idemp. Qed.

Lemma int_field_ok std_msg loc lo hi n z :
  Z_of_num n = Some z → lo ≤ z ≤ hi → int_field std_msg loc lo hi n = [].
Proof.
  intros Hz Hr. unfold int_field. rewrite Hz. destruct (Z.ltb_spec z lo); [lia|].
  destruct (Z.ltb_spec hi z); [lia|done].
Qed.

(** A number in range for the form is in range for the server. *)
Lemma in_range std_msg loc s lo hi : intInRange (trim s) lo hi = None → int_field std_msg loc lo hi (Number s) = [].
Proof.
  unfold intInRange. rewrite Number_trim. destruct (whole (Number s)) eqn:Ew; [|done]. cbn [negb].
  destruct (whole_Z _ Ew) as (z & Hz & Hlt). destruct (Hlt lo) as [-> _], (Hlt hi) as [_ ->].
  destruct (Z.ltb_spec z lo); [done|]. destruct (Z.ltb_spec hi z); [done|]. intros _. by eapply int_field_ok.
Qed.

(** ** Addresses *)

(** What [ipaddress] documents: it reads the texts of addresses, and an
    address with a prefix length its family has. *)
Record IpaddressLaws (ip_address : string → option string) (ip_network : string → option (Z * Z * string)) : Prop := {
  il_address : ∀ s, ipv4_text s ∨ ipv6_text s → is_Some (ip_address s);
  il_network4 : ∀ a p, ipv4_text a → one_to_three_digits p = true → num_of_digits p ≤ 32 →
    ∃ t, ip_network (a +:+ "/" +:+ p) = Some (4, num_of_digits p, t);
  il_network6 : ∀ a p, ipv6_text a → one_to_three_digits p = true → num_of_digits p ≤ 128 →
    ∃ t, ip_network (a +:+ "/" +:+ p) = Some (6, num_of_digits p, t);
}.

(** The characters of an address. *)
Definition address_char (a : ascii) : bool := v6_char a || (a ==? DOT).

Lemma address_char_facts a : address_char a = true → plain a = true ∧ (a ==? SLASH) = false.
Proof.
  intros H. assert (46 = code a ∨ 48 ≤ code a ≤ 58 ∨ 65 ≤ code a ≤ 70 ∨ 97 ≤ code a ≤ 102) as Hc.
  { unfold address_char, v6_char, is_hex, is_digit in H. repeat (apply orb_true_iff in H as [H|H]); try lia.
    all: apply bool_decide_eq_true in H as ->; vm_compute; tauto || (right; left; split; congruence). }
  split; [unfold plain; lia|]. apply bool_decide_eq_false. intros ->. change (code SLASH) with 47 in Hc. lia.
Qed.

Lemma three_digits p : one_to_three_digits p = true → sforall is_digit p = true.
Proof. unfold one_to_three_digits. intros. by bool_hyps. Qed.

Lemma digits_address p : sforall is_digit p = true → sforall address_char p = true.
Proof. apply sforall_impl. intros a Ha. unfold address_char, v6_char, is_hex. by rewrite Ha. Qed.

Lemma join_chars (f : ascii → bool) sep l :
  sforall f sep = true → Forall (λ p, sforall f p = true) l → sforall f (join sep l) = true.
Proof.
  intros Hs Hl. induction Hl as [|p l Hp Hl IH]; [done|]. destruct l as [|q l]; [done|].
  change (join sep (p :: q :: l)) with (p +:+ sep +:+ join sep (q :: l)). by rewrite !sforall_app, Hp, Hs, IH.
Qed.

Lemma ipv4_chars s : isValidIpv4 s = true → sforall address_char s = true.
Proof.
  unfold isValidIpv4. intros [_ Hp]%andb_true_iff. rewrite <- (join_split_on DOT s). apply join_chars; [done|].
  apply Forall_forall. intros p Hin. apply digits_address, octet_chars. by eapply forallb_elem_of in Hp.
Qed.

Lemma v6_address s : sforall v6_char s = true → sforall address_char s = true.
Proof. apply sforall_impl. intros a Ha. unfold address_char. by rewrite Ha. Qed.

Lemma ipv6_chars s : isValidIpv6 s = true → sforall address_char s = true.
Proof.
  intros [H|(p & v4 & H4 & -> & H)]%isValidIpv6_iff; [by apply v6_address, ipv6_groups_chars|].
  apply ipv6_groups_chars in H. rewrite sforall_app in H. apply andb_true_iff in H as [H _].
  rewrite !sforall_app, (v6_address p), (ipv4_chars v4) by (done || by apply isValidIpv4_iff). done.
Qed.

Lemma at_slash_Some s a p : at_slash s = Some (a, p) → s = a +:+ "/" +:+ p.
Proof.
  revert a. induction s as [|c s IH]; intros a; simpl; [done|]. destruct (c ==? SLASH) eqn:E.
  - apply bool_decide_eq_true in E as ->. by intros [= <- <-].
  - destruct (at_slash s) as [[a' p']|]; [|done]. intros [= <- <-]. by rewrite (IH a').
Qed.

Lemma plain_strip s : sforall plain s = true → py_strip s = s.
Proof.
  intros Hs. rewrite py_strip_typed, trim_plain; [done..|]. revert Hs. apply sforall_impl. intros a Ha. unfold typed. by rewrite Ha.
Qed.

Lemma lacks_slash_app s p : lacks_slash (s +:+ "/" +:+ p) = false.
Proof. unfold lacks_slash. rewrite sforall_app. simpl. by rewrite andb_false_r. Qed.

Lemma check_prefix_range p w l fam entry v : check_prefix p w l fam entry = ip_ok v → w ≤ p ≤ l.
Proof.
  unfold check_prefix. destruct (Z.ltb_spec l p); [done|]. destruct (Z.ltb_spec p w); [done|]. lia.
Qed.

(** An address the form keeps is one the server takes. *)
Lemma checked_accepted ip_address ip_network ip :
  IpaddressLaws ip_address ip_network → checked_ip ip → validate_ip_or_cidr ip_address ip_network ip = None.
Proof.
  intros [Ha H4 H6] Hc. pose proof (checked_again ip ip Hc) as [Et _]. unfold checked_ip, validateIpOrCidr in Hc.
  rewrite <- Et in Hc. destruct (ip ==? ""); [done|]. unfold validate_ip_or_cidr.
  destruct (at_slash ip) as [[addr p]|] eqn:Es.
  - destruct (one_to_three_digits p) eqn:Ep; [|done]. simpl in Hc. apply at_slash_Some in Es. subst ip.
    assert (∀ w l fam, isValidIpv4 addr = true ∨ isValidIpv6 addr = true →
      check_prefix (num_of_digits p) w l fam (addr +:+ "/" +:+ p) = ip_ok (addr +:+ "/" +:+ p) →
      w ≤ num_of_digits p ≤ l ∧ py_strip (addr +:+ "/" +:+ p) = addr +:+ "/" +:+ p) as Hk.
    { intros w l fam Hv Hk. split; [by eapply check_prefix_range|]. apply plain_strip.
      assert (sforall address_char addr = true) as Hch by (destruct Hv; [by apply ipv4_chars|by apply ipv6_chars]).
      rewrite !sforall_app. rewrite (sforall_impl _ plain _ (λ a H, proj1 (address_char_facts a H)) Hch).
      apply three_digits in Ep. rewrite (sforall_impl _ plain p is_digit_plain Ep). done. }
    destruct (isValidIpv4 addr) eqn:E4; [|destruct (isValidIpv6 addr) eqn:E6; [|done]].
    + destruct (Hk _ _ _ (or_introl eq_refl) Hc) as [Hr ->]. rewrite lacks_slash_app. cbn [negb].
      destruct (H4 addr p) as [t ->]; [by apply isValidIpv4_iff|done|lia|]. simpl. destruct (Z.ltb_spec (num_of_digits p) 24); [lia|done].
    + destruct (Hk _ _ _ (or_intror eq_refl) Hc) as [Hr ->]. rewrite lacks_slash_app. cbn [negb].
      destruct (H6 addr p) as [t ->]; [by apply isValidIpv6_iff|done|lia|]. simpl. destruct (Z.ltb_spec (num_of_digits p) 64); [lia|done].
  - destruct (isValidIpv4 ip || isValidIpv6 ip) eqn:Ev; [|done].
    assert (sforall address_char ip = true) as Hch by (apply orb_true_iff in Ev as [?|?]; [by apply ipv4_chars|by apply ipv6_chars]).
    rewrite plain_strip by exact (sforall_impl _ plain _ (λ a H, proj1 (address_char_facts a H)) Hch).
    assert (lacks_slash ip = true) as ->.
    { revert Hch. apply sforall_impl. intros a Hx%address_char_facts. destruct Hx as [_ Hx]. by apply negb_true_iff. }
    destruct (Ha ip) as [t ->]; [|done]. apply orb_true_iff in Ev as [?|?]; [left; by apply isValidIpv4_iff|right; by apply isValidIpv6_iff].
Qed.

(** What a number is written with: digits and separators. *)
Definition phone_char (a : ascii) : bool := is_digit a || is_sep a.

Lemma phone_char_typed a : phone_char a = true → typed a = true.
Proof. unfold phone_char, is_digit, is_sep, typed, plain, ws1. lia. Qed.

Lemma phone_typed s : sforall phone_char s = true → sforall typed s = true.
Proof. apply sforall_impl, phone_char_typed. Qed.

Lemma digit_not_sep a : is_digit a = true → is_sep a = false.
Proof. unfold is_digit, is_sep, ws1. intros H. apply not_true_iff_false. intros E. lia. Qed.

(** On such a text the digits are what the separators leave. *)
Lemma strip_digits s : sforall phone_char s = true → strip s = digits_of s.
Proof.
  intros Hs. rewrite strip_typed by by apply phone_typed. unfold digits_of. induction s as [|a s IH]; [done|].
  cbn [sforall sfilter] in *. apply andb_true_iff in Hs as [Ha Hs]. rewrite IH by done. unfold phone_char in Ha.
  destruct (is_digit a) eqn:Ed; [by rewrite digit_not_sep|]. simpl in Ha. by rewrite Ha.
Qed.

Lemma ltrim_forall (p : ascii → bool) s :
  sforall typed s = true → sforall p s = true → sforall p (ltrim s) = true.
Proof.
  intros Ht. destruct (lstrip_typed s Ht) as [<- _]. clear Ht. induction s as [|a s IH]; [done|]. simpl.
  intros [Ha Hs]%andb_true_iff. destruct (py_space a); [auto|]. simpl. by rewrite Ha, Hs.
Qed.

Lemma trim_phone s : sforall phone_char s = true → sforall phone_char (trim s) = true.
Proof.
  intros Hs. unfold trim. rewrite sforall_srev.
  pose proof (ltrim_forall phone_char s (phone_typed s Hs) Hs) as Hl. rewrite <- sforall_srev in Hl.
  destruct (lstrip_typed (srev (ltrim s)) (phone_typed _ Hl)) as (E & <- & _). rewrite E. apply ltrim_forall; [by apply phone_typed|done].
Qed.

Lemma digits_of_digits s : sforall is_digit (digits_of s) = true.
Proof. apply sforall_sfilter. Qed.

Lemma utf16_digits d : sforall is_digit d = true → utf16_length d = Z.of_nat (String.length d).
Proof. intros Hd%digits_clean%clean_plain. apply py_len_typed. revert Hd. apply sforall_impl. intros a Ha. unfold typed. by rewrite Ha. Qed.

(** Two to nine, at either end. *)
Definition leads (i : nat) (l : Z) (d : string) : bool :=
  match char_at i d with Some a => is_digit a && (l <=? digit_val a) | None => false end.

Lemma char_at_forall (p : ascii → bool) s i a : sforall p s = true → char_at i s = Some a → p a = true.
Proof.
  revert i. induction s as [|b s IH]; intros [|i]; simpl; try done; intros [Hb Hs]%andb_true_iff.
  - by intros [= <-].
  - by apply IH.
Qed.

Lemma nanp_lead d i : sforall is_digit d = true → isNanpLead (char_at i d) = leads i 2 d.
Proof.
  intros Hd. unfold leads, isNanpLead. destruct (char_at i d) as [a|] eqn:E; [|done].
  pose proof (char_at_forall _ _ _ _ Hd E) as Ha. rewrite Ha. unfold is_digit, digit_val in *.
  apply eq_true_iff_eq. rewrite !andb_true_iff, !Z.leb_le in *. lia.
Qed.

Lemma e164_plus d : is_e164 (String "+" d) = sforall is_digit d && (8 <=? Z.of_nat (String.length d)) && (Z.of_nat (String.length d) <=? 15).
Proof. unfold is_e164. cbn [slice_from]. by destruct d. Qed.

Lemma not_plus s : starts_with "+" s = false → is_e164 s = false.
Proof. unfold is_e164. by intros ->. Qed.

Lemma nat_len d n : (String.length d =? n)%nat = (Z.of_nat (String.length d) =? Z.of_nat n).
Proof. destruct (Nat.eqb_spec (String.length d) n), (Z.eqb_spec (Z.of_nat (String.length d)) (Z.of_nat n)); lia || done. Qed.
Lemma nat_le d n : (n <=? String.length d)%nat = (Z.of_nat n <=? Z.of_nat (String.length d)).
Proof. destruct (Nat.leb_spec n (String.length d)), (Z.leb_spec (Z.of_nat n) (Z.of_nat (String.length d))); lia || done. Qed.
Lemma nat_ge d n : (String.length d <=? n)%nat = (Z.of_nat (String.length d) <=? Z.of_nat n).
Proof. destruct (Nat.leb_spec (String.length d) n), (Z.leb_spec (Z.of_nat (String.length d)) (Z.of_nat n)); lia || done. Qed.

Lemma starts_plus_digit a d : is_digit a = true → starts_with "+" (String a d) = false.
Proof.
  intros Ha. unfold starts_with. cbn [String.prefix]. destruct (ascii_dec "+"%char a) as [<-|]; done.
Qed.

(** A number whose country code does not start with zero. *)
Definition routable (n : string) : Prop := is_e164 n = true ∧ char_at 1 n ≠ Some "0"%char.

Lemma lead_nonzero d : sforall is_digit d = true → d ≠ "" → (leads 0 1 d = true ↔ char_at 0 d ≠ Some "0"%char).
Proof.
  intros Hd Hne. destruct d as [|a d]; [done|]. simpl in Hd. apply andb_true_iff in Hd as [Ha _].
  unfold leads. change (char_at 0 (String a d)) with (Some a). cbn match. rewrite Ha. cbn [andb]. unfold is_digit, digit_val in *. split.
  - intros Hl [= ->]. vm_compute in Hl. done.
  - intros Hn. apply Z.leb_le. destruct (decide (code a = 48)) as [E|]; [|lia]. exfalso. apply Hn. f_equal.
    unfold code in E. assert (N_of_ascii a = 48%N) as Ec by lia. rewrite <- (ascii_N_embedding a), Ec. done.
Qed.

Lemma leads_nanp_nonzero i d : leads i 2 d = true → leads i 1 d = true.
Proof. unfold leads. destruct (char_at i d); [|done]. intros. bool_hyps. apply andb_true_iff. split; [done|lia]. Qed.

Lemma normalizers_agree_at s n :
  sforall phone_char s = true → (normalize_e164 s = inl n ↔ normalizeNumberInput s = n ∧ routable n).
Proof.
  intros Hs. unfold normalize_e164, normalizeNumberInput. rewrite py_strip_typed by by apply phone_typed.
  pose proof (trim_phone s Hs) as Ht. set (t := trim s) in *. clearbody t. clear Hs. revert s. intros raw.
  destruct (t ==? "") eqn:E0; [split; [done|]; intros [<- [H _]]; done|].
  cbn zeta. rewrite (strip_digits t Ht). pose proof (digits_of_digits t) as Hd.
  fold (leads 0 1 (digits_of t)) (leads 1 2 (digits_of t)) (leads 0 2 (digits_of t)).
  rewrite (utf16_digits _ Hd), !nanp_lead by done. rewrite nat_le, nat_ge, !nat_len.
  change (Z.of_nat 8) with 8. change (Z.of_nat 15) with 15. change (Z.of_nat 11) with 11. change (Z.of_nat 10) with 10.
  destruct (starts_with "+" t) eqn:Ep.
  - destruct ((8 <=? Z.of_nat (String.length (digits_of t))) && _) eqn:El.
    + bool_hyps. cbn [andb]. pose proof (lead_nonzero (digits_of t) Hd) as Hl. split.
      * destruct (leads 0 1 (digits_of t)); [|done]. intros [= <-]. split; [done|]. split.
        -- change ("+" +:+ digits_of t) with (String "+" (digits_of t)). rewrite e164_plus, Hd. cbn [andb]. lia.
        -- apply Hl; [|done]. intros E. rewrite E in *. simpl in *. lia.
      * intros [<- [He Hz]]. destruct Hl as [_ Hl]; [intros E; rewrite E in *; simpl in *; lia|].
        rewrite Hl; [done|]. exact Hz.
    + split; [done|]. intros [<- [He _]]. exfalso. destruct t as [|p u]; [done|].
      unfold starts_with in Ep. cbn [String.prefix] in Ep. destruct (ascii_dec "+"%char p) as [<-|]; [|done].
      rewrite e164_plus in He. bool_hyps. change (digits_of (String "+" u)) with (digits_of u) in El.
      unfold digits_of in El. rewrite sfilter_id in El by done. lia.
  - destruct (_ && leads 1 2 _) eqn:E1.
    + split; [|by intros [<- _]]. intros [= <-]. split; [done|]. bool_hyps. split.
      * change ("+" +:+ digits_of t) with (String "+" (digits_of t)). rewrite e164_plus, Hd. cbn [andb]. lia.
      * change (char_at 0 (digits_of t) ≠ Some "0"%char). intros E. unfold starts_with in *. destruct (digits_of t); [done|].
        change (Some a = Some "0"%char) in E. injection E as ->. done.
    + destruct (_ && leads 0 2 _) eqn:E2.
      * split; [|by intros [<- _]]. intros [= <-]. split; [done|]. bool_hyps. split; [|done].
        change ("+1" +:+ digits_of t) with (String "+" (String "1" (digits_of t))). rewrite e164_plus. cbn [sforall String.length].
        rewrite Hd. cbn [andb is_digit]. change (is_digit "1") with true. cbn [andb]. rewrite Nat2Z.inj_succ, H. done.
      * split; [done|]. intros [<- [He _]]. exfalso. destruct (is_extension (digits_of t)) eqn:E3.
        -- unfold is_e164 in He. bool_hyps. destruct (digits_of t) as [|a d]; [done|].
           cbn [sforall] in Hd. apply andb_true_iff in Hd as [Ha _]. apply (starts_plus_digit a d) in Ha. congruence.
        -- by rewrite not_plus in He.
Qed.

(** C18 The portal and the API canonicalise alike what digits and separators
    spell: the API reads a number as [n] exactly when the portal writes [n]
    and [n] is E.164 with a country code that does not start with zero. *)
Theorem normalizers_agree s n :
  sforall phone_char s = true → (normalize_e164 s = inl n ↔ normalizeNumberInput s = n ∧ routable n).
Proof. apply normalizers_agree_at. Qed.

Lemma normalizers_agree_witness :
  normalize_e164 "+44 7911 123456" = inl "+447911123456" ∧
  (normalizeNumberInput "+44 7911 123456" = "+447911123456" ∧ routable "+447911123456").
Proof.
  assert (normalize_e164 "+44 7911 123456" = inl "+447911123456") as E by (vm_compute; reflexivity).
  split; [exact E|]. exact (proj1 (normalizers_agree "+44 7911 123456" "+447911123456" eq_refl) E).
Defined.

(** A country code of zero is a number to the portal only. *)
Lemma zero_country_refused :
  normalizeNumberInput "+012345678" = "+012345678" ∧ isEnterableNumber "+012345678" = true
  ∧ ∃ m, normalize_e164 "+012345678" = inr m.
Proof. split_and!; [vm_compute; reflexivity..|]. eexists. vm_compute. reflexivity. Qed.

(** The API drops letters, the portal counts them. *)
Lemma letters_dropped :
  normalize_e164 "+1 555 CALL 1234567" = inl "+15551234567"
  ∧ normalizeNumberInput "+1 555 CALL 1234567" = "+1555CALL1234567".
Proof. split; vm_compute; reflexivity. Qed.

(** ** Which texts are numbers *)

Lemma sfilter_srev (p : ascii → bool) s : sfilter p (srev s) = srev (sfilter p s).
Proof.
  induction s as [|a s IH]; [done|]. rewrite srev_cons.
  assert (∀ u v, sfilter p (u +:+ v) = sfilter p u +:+ sfilter p v) as Happ.
  { intros u v. induction u as [|b u IHu]; [done|]. simpl. rewrite IHu. by destruct (p b). }
  rewrite Happ, IH. simpl. destruct (p a); [by rewrite srev_cons|apply sapp_nil_r].
Qed.

Lemma digits_of_trim s : sforall typed s = true → digits_of (trim s) = digits_of s.
Proof.
  intros Hs. assert (∀ u, digits_of (lstrip u) = digits_of u) as Hl.
  { intros u. induction u as [|a u IH]; [done|]. simpl. destruct (py_space a) eqn:E; [|done]. rewrite IH. unfold digits_of. simpl.
    assert (is_digit a = false) as ->; [|done]. unfold py_space, is_digit in *. apply not_true_iff_false. lia. }
  rewrite <- py_strip_typed by done. unfold py_strip, digits_of. rewrite sfilter_srev. fold (digits_of (lstrip (srev (lstrip s)))).
  rewrite Hl. unfold digits_of. rewrite sfilter_srev, <- sfilter_srev. rewrite <- sfilter_srev, srev_involutive. apply Hl.
Qed.

(** The three shapes of a number. *)
Definition number_shape (t d : string) : Prop :=
  (starts_with "+" t = true ∧ (8 ≤ String.length d ≤ 15)%nat ∧ leads 0 1 d = true)
  ∨ (starts_with "+" t = false ∧ String.length d = 11%nat ∧ starts_with "1" d = true ∧ leads 1 2 d = true)
  ∨ (starts_with "+" t = false ∧ String.length d = 10%nat ∧ leads 0 2 d = true).

Lemma number_shape_read t : py_strip t = t → t ≠ "" → number_shape t (digits_of t) → ∃ n, normalize_e164 t = inl n.
Proof.
  intros Et Hne Hs. unfold normalize_e164. rewrite Et, bool_decide_eq_false_2 by done. cbn zeta.
  fold (leads 0 1 (digits_of t)) (leads 1 2 (digits_of t)) (leads 0 2 (digits_of t)).
  destruct Hs as [(-> & [H8 H15] & ->)|[(-> & -> & -> & ->)|(-> & -> & ->)]]; [|by eexists..].
  destruct (Nat.leb_spec 8 (String.length (digits_of t))); [|lia].
  destruct (Nat.leb_spec (String.length (digits_of t)) 15); [|lia]. by eexists.
Qed.

(** Without a plus, the portal puts one in front of a number only. *)
Lemma portal_plus t :
  sforall phone_char t = true → trim t = t → starts_with "+" t = false →
  starts_with "+" (normalizeNumberInput t) = true → number_shape t (digits_of t).
Proof.
  intros Hp Et Ep. unfold normalizeNumberInput. rewrite Et. destruct (t ==? ""); [done|]. cbn zeta.
  rewrite strip_digits, Ep by done. pose proof (digits_of_digits t) as Hd. rewrite utf16_digits, !nanp_lead by done.
  destruct (_ && leads 1 2 _) eqn:E1; [intros _; bool_hyps; right; left; split_and!; done || lia|].
  destruct (_ && leads 0 2 _) eqn:E2; [intros _; bool_hyps; right; right; split_and!; done || lia|].
  destruct (is_extension _) eqn:E3; [|congruence]. unfold is_extension in E3. bool_hyps.
  destruct (digits_of t) as [|a u]; [done|]. cbn [sforall] in *. bool_hyps. by rewrite (starts_plus_digit a u).
Qed.
