(* ===== verification/IntakeAgree.v ===== *)
(** * The intake form and the server

    What the server says of a form the page has let through: nothing, unless
    one of the few rules the page does not check is broken, and then on the
    field that breaks it. *)
From S2P Require Import Prelude JsString JsValue IvrError Ip Phone Number ApiClient Intake IntakeServer IntakeOk IntakeText.

Local Open Scope string_scope.
Local Open Scope Z_scope.
Local Open Scope list_scope.

(** ** A form without faults *)

Lemma om_set_ne {K V} `{EqDecision K} (k : K) (v : V) m : om_set k v m ≠ [].
Proof. destruct m as [|[k' v'] m]; simpl; [done|]. by case_bool_decide. Qed.

Lemma validate_nil f : validate f = [] → Forall (λ c, c.2 = None) (faults f).
Proof.
  unfold validate. generalize (faults f) as l. intros l.
  assert (∀ errs, fold_left (λ errs c, mark c.1 c.2 errs) l errs = [] → errs = [] ∧ Forall (λ c, c.2 = None) l) as H.
  { induction l as [|[k [m|]] l IH]; simpl; intros errs H; [done| |].
    - apply IH in H as [H _]. by apply om_set_ne in H.
    - apply IH in H as [-> H]. split; [done|by constructor]. }
  intros Hl. by apply H in Hl as [_ ?].
Qed.

Lemma no_fault f k m : validate f = [] → (k, m) ∈ faults f → m = None.
Proof. intros Hv%validate_nil Hin. rewrite Forall_forall in Hv. by apply Hv in Hin. Qed.

(** ** The rules the page leaves to the server *)

Section Agree.
Context (std_msg : Rule → string) (ip_address : string → option string) (ip_network : string → option (Z * Z * string)).
Context (api_calling_enabled : bool) (Hip : IpaddressLaws ip_address ip_network).

Definition too_long_for (f : IntakeForm) (k : Key.t) (n : Z) : bool := n <? py_len (trimmed f k).

(** A plus, then a zero. *)
Definition zero_country (f : IntakeForm) : bool :=
  char_at 1 (normalizeNumberInput (text f Key.alternate_phone)) ==? Some "0"%char.

Definition unchecked (f : IntakeForm) : list (bool * Key.t) :=
  [(negb (py_match email_re_py (text f Key.email)), Key.email);
   (too_long_for f Key.legal_business_name 200, Key.legal_business_name);
   (too_long_for f Key.address_line1 200, Key.address_line1);
   (too_long_for f Key.address_line2 200, Key.address_line2);
   (too_long_for f Key.city 100, Key.city);
   (too_long_for f Key.postal_code 20, Key.postal_code);
   (zero_country f, Key.alternate_phone);
   (too_long_for f Key.website 255, Key.website);
   (rcfSelected f && too_long_for f Key.current_carrier 200, Key.current_carrier)].

(** The server reads the two numbers alike, where the page did not. *)
Definition alike (f : IntakeForm) : bool :=
  same_phone (trimmed f Key.phone) (normalizeNumberInput (text f Key.alternate_phone)).

(** The fields the server refuses of a form without faults. *)
Definition refused_fields (f : IntakeForm) : list Key.t :=
  match List.map snd (List.filter fst (unchecked f)) with
  | [] => if alike f then [Key.alternate_phone] else []
  | ks => ks
  end.

Definition check (f : IntakeForm) : list PyError :=
  check_submission std_msg ip_address ip_network api_calling_enabled (submission f).

(** Where the page puts an error of the server's. *)
Definition lands (e : PyError) : option Key.t :=
  error_field (loc_path (VArr (vstr "body" :: List.map vstr (pe_loc e)))) (plain_message (pe_msg e)).

(** What the inputs hold is typed. *)
Definition keyboard (f : IntakeForm) : Prop := ∀ k, is_input k = true → sforall typed (text f k) = true.

(** A list of checks without faults, check by check. *)
Fixpoint none_of (l : list (Key.t * option string)) : Prop :=
  match l with [] => True | c :: l => c.2 = None ∧ none_of l end.
Lemma all_none l : (∀ k m, (k, m) ∈ l → m = None) → none_of l.
Proof.
  induction l as [|[k m] l IH]; simpl; [done|]. intros H. split; [eapply H; by left|].
  apply IH. intros k' m' Hin. eapply H. right. exact Hin.
Qed.

Section Form.
Context (f : IntakeForm) (Hf : form_ok f) (Hv : validate f = []) (Hk : keyboard f).

Lemma fault k m : (k, m) ∈ faults f → m = None.
Proof. by apply no_fault. Qed.

Lemma fault_contact k m : (k, m) ∈ contact_faults f → m = None.
Proof. intros H. apply (fault k). unfold faults. rewrite !elem_of_app. tauto. Qed.
Lemma fault_rcf k m : (k, m) ∈ rcf_faults f → m = None.
Proof. intros H. apply (fault k). unfold faults. rewrite !elem_of_app. tauto. Qed.
Lemma fault_trunk k m : (k, m) ∈ trunk_faults f → m = None.
Proof. intros H. apply (fault k). unfold faults. rewrite !elem_of_app. tauto. Qed.
Lemma fault_voicemail k m : (k, m) ∈ voicemail_faults f → m = None.
Proof. intros H. apply (fault k). unfold faults. rewrite !elem_of_app. tauto. Qed.
Lemma fault_capacity k m : (k, m) ∈ capacity_faults f → m = None.
Proof. intros H. apply (fault k). unfold faults. rewrite !elem_of_app. tauto. Qed.
Lemma fault_business k m : (k, m) ∈ business_faults f → m = None.
Proof. intros H. apply (fault k). unfold faults. rewrite !elem_of_app. tauto. Qed.
Lemma fault_ips k m : (k, m) ∈ ip_faults f → m = None.
Proof. intros H. apply (fault k). unfold faults. rewrite !elem_of_app. tauto. Qed.
Lemma fault_high_volume k m : (k, m) ∈ high_volume_faults f → m = None.
Proof. intros H. apply (fault k). unfold faults. rewrite !elem_of_app. tauto. Qed.

Lemma required_not_blank k : required f k = None → blank f k = false.
Proof. unfold required. by destruct (blank f k). Qed.

Lemma typed_trim k : is_input k = true → sforall typed (trimmed f k) = true.
Proof. intros Hi. apply trim_typed, Hk, Hi. Qed.

Lemma stripped_trimmed k : is_input k = true → stripped_empty (trimmed f k) = blank f k.
Proof. intros Hi. apply stripped_empty_trim, Hk, Hi. Qed.

(** ** Field by field *)

Lemma not_empty_ok loc k : is_input k = true → blank f k = false → not_empty loc (trimmed f k) = [].
Proof. intros Hi Hb. unfold not_empty. by rewrite stripped_trimmed, Hb. Qed.

Lemma text_field_ok loc k hi after :
  is_input k = true → blank f k = false → after = [] →
  str_field std_msg loc 1 (Some hi) (trimmed f k) after = when (too_long_for f k hi) (broken std_msg loc (too_long hi)).
Proof.
  intros Hi Hb ->. unfold str_field, too_long_for.
  pose proof (py_len_pos (trimmed f k) (typed_trim k Hi)) as Hp.
  apply bool_decide_eq_false in Hb. specialize (Hp Hb). destruct (Z.ltb_spec (py_len (trimmed f k)) 1); [lia|].
  by destruct (hi <? py_len (trimmed f k)).
Qed.

Lemma optional_field_ok loc k hi :
  0 ≤ hi → opt_str std_msg loc hi (optional f k) = when (too_long_for f k hi) (broken std_msg loc (too_long hi)).
Proof.
  intros Hh. unfold optional, too_long_for. destruct (blank f k) eqn:Eb.
  - apply bool_decide_eq_true in Eb. rewrite Eb. simpl. by destruct (Z.ltb_spec hi 0); [lia|].
  - unfold opt_str, str_field. assert (0 ≤ py_len (trimmed f k)) as Hp.
    { generalize (trimmed f k) as s. induction s as [|a s IH]; [done|]. cbn [py_len]. case_match; lia. }
    destruct (Z.ltb_spec (py_len (trimmed f k)) 0); [lia|]. by destruct (hi <? py_len (trimmed f k)).
Qed.

(** An input the browser keeps short enough. *)
Lemma capped_field k hi : is_input k = true → maxLength k = Some hi → too_long_for f k hi = false.
Proof.
  intros Hi Hm. unfold too_long_for. pose proof (fo_fits f Hf k) as Hfit. unfold fits in Hfit. rewrite Hm in Hfit.
  destruct (py_len_typed _ (Hk k Hi)) as [_ Hu]. rewrite Hu in Hfit. destruct (py_len_typed _ (typed_trim k Hi)) as [-> _].
  pose proof (trim_length (text f k)). unfold trimmed. lia.
Qed.

Lemma number_field_ok loc k lo hi : number_field f k lo hi = None → int_field std_msg loc lo hi (Number (text f k)) = [].
Proof. unfold number_field. destruct (blank f k); [done|]. apply in_range. Qed.

Lemma ip_list_ok loc max :
  (1 ≤ length (originating_ips f) ≤ max)%nat → ip_list std_msg ip_address ip_network loc max (originating_ips f) = [].
Proof.
  intros [H1 H2]. unfold ip_list. destruct (Nat.ltb_spec (length (originating_ips f)) 1); [lia|].
  destruct (Nat.ltb_spec max (length (originating_ips f))); [lia|].
  assert (omap (validate_ip_or_cidr ip_address ip_network) (originating_ips f) = []) as ->; [|done].
  pose proof (fo_ips f Hf) as Hi. clear H1 H2 H H0. induction Hi as [|ip l Hip' Hl IH]; [done|]. simpl.
  by rewrite (checked_accepted _ _ _ Hip Hip').
Qed.

(** A select that was chosen holds an option. *)
Lemma option_chosen k : chosen f k = None → is_input k = false → text f k ∈ select_options k.
Proof.
  unfold chosen. intros Hc Hi. destruct (text f k ==? "") eqn:E; [done|]. apply bool_decide_eq_false in E.
  destruct (fo_options f Hf k) as [?|[?|?]]; congruence || done.
Qed.

Lemma literal_ok loc k : chosen f k = None → is_input k = false → literal std_msg loc (select_options k) (text f k) = [].
Proof. intros Hc Hi. unfold literal. pose proof (option_chosen k Hc Hi) as Ho%includes_true. by rewrite Ho. Qed.

Lemma option_not_empty loc k :
  chosen f k = None → is_input k = false → forallb (λ o, negb (stripped_empty o)) (select_options k) = true →
  not_empty loc (text f k) = [].
Proof.
  intros Hc Hi Ho. unfold not_empty. rewrite forallb_elem_of in Ho. specialize (Ho _ (option_chosen k Hc Hi)).
  apply negb_true_iff in Ho. by rewrite Ho.
Qed.

(** ** The alternate phone *)

Lemma normalize_trim s : normalizeNumberInput (trim s) = normalizeNumberInput s.
Proof. unfold normalizeNumberInput. by rewrite trim_idemp. Qed.

Definition malformed (raw : string) : string :=
  "malformed E.164 number: '" +:+ raw +:+ "' (expected '+' followed by 8-15 digits, leading digit 1-9)".

Lemma starts_plus p d : starts_with "+" (String p d) = true → p = "+"%char.
Proof. unfold starts_with. cbn [String.prefix]. by destruct (ascii_dec "+"%char p). Qed.

Lemma normalize_canonical n :
  is_e164 n = true → normalize_e164 n = if char_at 1 n ==? Some "0"%char then inr (malformed n) else inl n.
Proof.
  unfold is_e164. intros Hn. destruct n as [|p d]; [done|]. bool_hyps.
  match goal with H : starts_with _ _ = true |- _ => apply starts_plus in H as -> end.
  cbn [slice_from] in *. unfold normalize_e164.
  rewrite plain_strip.
  2: { cbn [sforall]. eapply sforall_impl; [|eassumption]. exact is_digit_plain. }
  change (String "+" d ==? "") with false. cbn match.
  assert (digits_of (String "+" d) = d) as -> by (unfold digits_of; simpl; by apply sfilter_id).
  assert (starts_with "+" (String "+" d) = true) as -> by (by destruct d).
  destruct (Nat.leb_spec 8 (String.length d)); [|lia]. destruct (Nat.leb_spec (String.length d) 15); [|lia]. cbn [andb].
  change (char_at 1 (String "+" d)) with (char_at 0 d). destruct d as [|a d]; [done|].
  change (char_at 0 (String a d)) with (Some a). cbn [sforall] in *. bool_hyps.
  match goal with H : is_digit a = true |- _ => rewrite H; rename H into Ha end. cbn [andb].
  destruct (decide (a = "0"%char)) as [->|Ne]; [done|]. rewrite (bool_decide_eq_false_2 (Some a = _)) by congruence.
  destruct (Z.leb_spec 1 (digit_val a)) as [|Hd]; [done|]. exfalso. apply Ne. unfold is_digit, digit_val, code in *.
  assert (N_of_ascii a = 48%N) as Hc by lia. rewrite <- (ascii_N_embedding a), Hc. done.
Qed.

(** ** The two phone numbers *)

(** A text that is E.164 once canonical is digits and separators. *)
Lemma alternate_digits s :
  sforall typed s = true → is_e164 (normalizeNumberInput s) = true →
  starts_with "+" (normalizeNumberInput s) = true
  ∧ (digits_of (normalizeNumberInput s) = digits_of (trim s)
     ∨ digits_of (normalizeNumberInput s) = String "1" (digits_of (trim s)) ∧ String.length (digits_of (trim s)) = 10%nat
       ∧ leads 0 2 (digits_of (trim s)) = true).
Proof.
  intros Ht He. assert (starts_with "+" (normalizeNumberInput s) = true) as Hp by (unfold is_e164 in He; by bool_hyps).
  split; [done|]. revert He Hp. unfold normalizeNumberInput. pose proof (trim_typed s Ht) as Htt.
  set (t := trim s) in *. clearbody t. clear s Ht. destruct (t ==? ""); [done|]. cbn zeta.
  assert (∀ u, sforall is_digit (strip u) = true → sforall typed u = true → strip u = digits_of u) as Hstrip.
  { intros u Hd Hu. rewrite strip_typed in Hd |- * by done. unfold digits_of. induction u as [|a u IH]; [done|].
    cbn [sforall sfilter] in *. apply andb_true_iff in Hu as [_ Hu]. destruct (is_sep a) eqn:Es; cbn [negb] in *.
    - destruct (is_digit a) eqn:Ed; [by rewrite digit_not_sep in Es|]. by apply IH.
    - cbn [sforall] in Hd. apply andb_true_iff in Hd as [Hd Hds]. rewrite Hd. by rewrite IH. }
  pose proof (sforall_sfilter is_digit t) as Hd. fold (digits_of t) in Hd.
  assert (digits_of (digits_of t) = digits_of t) as Edd by by apply sfilter_id.
  assert (starts_with "+" t = false →
    starts_with "+" (if is_extension (strip t) then strip t else t) = true → False) as Hno.
  { intros Ep. destruct (is_extension (strip t)) eqn:Ex; [|congruence]. unfold is_extension in Ex. bool_hyps.
    destruct (strip t) as [|a u]; [done|]. cbn [sforall] in *. bool_hyps. by rewrite (starts_plus_digit a u). }
  destruct (starts_with "+" t) eqn:Ep.
  - destruct (_ && _) eqn:El; [|by left]. intros He _. left. change ("+" +:+ strip t) with (String "+" (strip t)) in *.
    rewrite e164_plus in He. bool_hyps. by rewrite (Hstrip t).
  - destruct (_ && isNanpLead (char_at 1 _)) eqn:E1; [|destruct (_ && isNanpLead (char_at 0 _)) eqn:E2].
    + intros He _. left. change ("+" +:+ strip t) with (String "+" (strip t)) in *. rewrite e164_plus in He. bool_hyps.
      by rewrite (Hstrip t).
    + intros He _. right. change ("+1" +:+ strip t) with (String "+" (String "1" (strip t))) in *. rewrite e164_plus in He.
      cbn [sforall] in He. change (is_digit "1") with true in He. cbn [andb] in He. apply andb_true_iff in He as [[He _]%andb_true_iff _].
      rewrite (Hstrip t He Htt) in E2 |- *. apply andb_true_iff in E2 as [Hl Hn]. rewrite nanp_lead in Hn by done.
      rewrite utf16_digits in Hl by done. split_and!; [|lia|done].
      change (digits_of (String "+" (String "1" (digits_of t)))) with (String "1" (digits_of (digits_of t))). by f_equal.
    + intros _ Hp. exfalso. by apply Hno.
Qed.
(** ** The models *)

Lemma then_model_nil fields : then_model fields [] = fields.
Proof. by destruct fields. Qed.

Lemma when_false b errs : b = false → when b errs = [].
Proof. by intros ->. Qed.

Lemma govType_chosen : ∃ g, govIdTypeFromLabel (text f Key.gov_id_type) = Some g.
Proof.
  pose proof (fault_business _ _ (list_elem_of_lookup_2 (business_faults f) 5 (_, _) eq_refl)) as H.
  destruct (govIdTypeFromLabel _) as [g|]; [by exists g|done].
Qed.

Lemma state_option k :
  is_input k = false → select_options k = US_STATE_OPTIONS → text f k ≠ "" →
  stripped_empty (stateCode (text f k)) = false ∧ py_match state_re (py_strip (stateCode (text f k))) = true.
Proof.
  intros Hi Ho Hne. destruct (fo_options f Hf k) as [?|[?|Hin]]; [done|congruence|]. rewrite Ho in Hin.
  assert (forallb (λ o, negb (stripped_empty (stateCode o)) && py_match state_re (py_strip (stateCode o))) US_STATE_OPTIONS = true) as Hall
    by (vm_compute; reflexivity).
  rewrite forallb_elem_of in Hall. specialize (Hall _ Hin). bool_hyps. done.
Qed.

Lemma standard_model_ok : standard_model (standard_of f) = [].
Proof.
  destruct govType_chosen as [g Hg].
  pose proof (fault_business _ _ (list_elem_of_lookup_2 (business_faults f) 6 (_, _) eq_refl)) as Hn.
  pose proof (fault_business _ _ (list_elem_of_lookup_2 (business_faults f) 7 (_, _) eq_refl)) as Hs.
  cbn zeta in Hn, Hs. rewrite Hg in Hn, Hs. unfold standard_model. cbn [ks_gov_id_type ks_gov_id_number ks_state_of_registration standard_of].
  rewrite Hg. cbn [default from_option id]. change (id g) with g. cbn zeta. pose proof (Hk Key.gov_id_number eq_refl) as Ht.
  assert (py_strip (trimmed f Key.gov_id_number) = trimmed f Key.gov_id_number) as ->.
  { unfold trimmed. by rewrite py_strip_typed, trim_idemp by by apply trim_typed. }
  assert (when ((g ==? g_state_registration)
      && negb match (if text f Key.state_of_registration ==? "" then None else Some (stateCode (text f Key.state_of_registration)))
         with Some s => negb (stripped_empty s) | None => false end)
    (value_error ["kyc"; "standard"] "state_of_registration is required when gov_id_type='state_registration'") = []) as ->.
  { apply when_false. destruct (text f Key.state_of_registration ==? "") eqn:Es.
    - cbn [negb]. rewrite andb_true_r in Hs |- *. destruct (g ==? g_state_registration) eqn:Eg; [|done].
      apply bool_decide_eq_true in Eg as ->. done.
    - apply bool_decide_eq_false in Es. destruct (state_option Key.state_of_registration) as [-> _]; [done..|]. by rewrite andb_false_r. }
  destruct (trimmed f Key.gov_id_number ==? ""); [done|].
  destruct (decide (g = g_ein)) as [->|Ne].
  - cbn in Hn |- *. unfold py_match. destruct (EIN_RE _); [done|done].
  - rewrite (bool_decide_eq_false_2 (Some g = Some g_ein)) in Hn by congruence. rewrite (bool_decide_eq_false_2 (g = g_ein)) by done.
    cbn [andb negb] in Hn |- *. rewrite lengths_agree by by apply trim_typed.
    destruct (Z.ltb_spec (utf16_length (trimmed f Key.gov_id_number)) 2); [done|].
    destruct (Z.ltb_spec 40 (utf16_length (trimmed f Key.gov_id_number))); [done|].
    destruct (Z.leb_spec 2 (utf16_length (trimmed f Key.gov_id_number))); [|lia].
    destruct (Z.leb_spec (utf16_length (trimmed f Key.gov_id_number)) 40); [done|lia].
Qed.

Definition alternate : string := normalizeNumberInput (text f Key.alternate_phone).

Lemma alternate_e164 : is_e164 alternate = true.
Proof.
  pose proof (fault_business _ _ (list_elem_of_lookup_2 (business_faults f) 8 (_, _) eq_refl)) as H. cbn zeta in H.
  destruct (_ ==? ""); [done|]. unfold trimmed in H. rewrite normalize_trim in H. unfold alternate.
  by destruct (is_e164 _).
Qed.

(** On a phone number of digits and separators the page's comparison is as
    strict as the server's. *)
Lemma alike_never : sforall phone_char (text f Key.phone) = true → zero_country f = false → alike f = false.
Proof.
  intros Hp Hz. pose proof (all_none _ fault_contact) as (_ & _ & Hph & _). apply required_not_blank in Hph.
  pose proof (fault_business _ _ (list_elem_of_lookup_2 (business_faults f) 8 (_, _) eq_refl)) as Hm. cbn zeta in Hm.
  destruct (_ ==? "") in Hm; [done|]. destruct (negb _) in Hm; [done|]. rewrite Hph in Hm. cbn [negb andb] in Hm.
  destruct (phonesMatch _ _) eqn:E in Hm; [done|]. clear Hm. unfold phonesMatch in E.
  unfold trimmed in E. rewrite (normalize_trim (text f Key.alternate_phone)) in E. fold alternate in E.
  rewrite <- (normalize_trim (text f Key.phone)) in E.
  rewrite <- (digits_of_trim (text f Key.phone)) in E by by apply Hk. cbn zeta in E.
  destruct (alternate_digits (text f Key.alternate_phone)) as [Hap Had]; [by apply Hk|apply alternate_e164|]. fold alternate in Hap, Had.
  rewrite Hap, andb_true_r in E. unfold alike, same_phone. fold alternate. pose proof alternate_e164 as Ha.
  rewrite (normalize_canonical alternate Ha). unfold zero_country in Hz. fold alternate in Hz. rewrite Hz.
  unfold blank in Hph. apply bool_decide_eq_false in Hph. pose proof (trim_phone _ Hp) as Ht. unfold trimmed in *.
  pose proof (trim_idemp (text f Key.phone)) as Et. set (t := trim (text f Key.phone)) in *. clearbody t.
  destruct (normalize_e164 t) as [n|m] eqn:En.
  - apply normalizers_agree_at in En as [En [Hr _]]; [|done]. rewrite En in E. unfold is_e164 in Hr. bool_hyps.
    match goal with H : starts_with "+" n = true |- _ => by rewrite H in E end.
  - apply bool_decide_eq_false. intros Ed.
    assert (¬ number_shape t (digits_of t)) as Hno.
    { intros Hs%number_shape_read; [|by rewrite py_strip_typed by by apply phone_typed|done]. destruct Hs as [n Hn]. congruence. }
    assert (is_e164 alternate = true) as Ha' by done. destruct alternate as [|p d] eqn:Ealt; [done|].
    unfold is_e164 in Ha'. bool_hyps. match goal with H : starts_with _ (String p d) = true |- _ => apply starts_plus in H as -> end.
    rewrite e164_plus in Ha. bool_hyps. change (digits_of (String "+" d)) with (digits_of d) in *.
    assert (digits_of d = d) as Edd by by apply sfilter_id. rewrite Edd in *.
    destruct (starts_with "+" t) eqn:Ep.
    + apply Hno. left. rewrite Ed. split_and!; [done|lia|lia|]. apply lead_nonzero; [done|intros ->; simpl in *; lia|exact Hz].
    + destruct (starts_with "+" (normalizeNumberInput t)) eqn:En'; [by apply Hno, portal_plus|].
      rewrite Ed in E. destruct Had as [Had|(Had & Hl & Hn)].
      * rewrite <- Had, (bool_decide_eq_true_2 (d = d)), andb_true_r in E by done. apply negb_false_iff, bool_decide_eq_true in E. rewrite E in *. simpl in *. lia.
      * apply Hno. right; left. rewrite Ed, Had. split_and!; [done|simpl; by rewrite Hl| |].
        -- unfold starts_with. by destruct (digits_of (trim (text f Key.alternate_phone))).
        -- done.
Qed.

Lemma required_of k m : m = None → m = required f k → blank f k = false.
Proof. intros -> H. symmetry in H. by apply required_not_blank. Qed.

Lemma business_typed :
  blank f Key.legal_business_name = false ∧ blank f Key.address_line1 = false ∧ blank f Key.city = false
  ∧ text f Key.state ≠ "" ∧ blank f Key.postal_code = false ∧ 3 ≤ py_len (trimmed f Key.postal_code).
Proof.
  pose proof (fault_business _ _ (list_elem_of_lookup_2 (business_faults f) 0 (_, _) eq_refl)) as H0.
  pose proof (fault_business _ _ (list_elem_of_lookup_2 (business_faults f) 1 (_, _) eq_refl)) as H1.
  pose proof (fault_business _ _ (list_elem_of_lookup_2 (business_faults f) 2 (_, _) eq_refl)) as H2.
  pose proof (fault_business _ _ (list_elem_of_lookup_2 (business_faults f) 3 (_, _) eq_refl)) as H3.
  pose proof (fault_business _ _ (list_elem_of_lookup_2 (business_faults f) 4 (_, _) eq_refl)) as H4.
  cbn beta zeta in H0, H1, H2, H3, H4. apply required_not_blank in H0, H1, H2.
  destruct (text f Key.state ==? "") eqn:E3; [done|]. apply bool_decide_eq_false in E3.
  destruct (blank f Key.postal_code) eqn:E4; [done|]. rewrite lengths_agree by by apply typed_trim.
  destruct (Z.ltb_spec (utf16_length (trimmed f Key.postal_code)) 3); [done|]. done.
Qed.

Definition malformed_alternate : PyError :=
  Build_PyError (in_standard "alternate_phone") ("Value error, " +:+ ("alternate_phone: " +:+ malformed alternate)).

Lemma standard_fields_left :
  standard_fields std_msg (standard_of f) =
    when (too_long_for f Key.legal_business_name 200) (broken std_msg (in_standard "legal_business_name") (too_long 200))
    ++ when (too_long_for f Key.address_line1 200) (broken std_msg (in_standard "address_line1") (too_long 200))
    ++ when (too_long_for f Key.address_line2 200) (broken std_msg (in_standard "address_line2") (too_long 200))
    ++ when (too_long_for f Key.city 100) (broken std_msg (in_standard "city") (too_long 100))
    ++ when (too_long_for f Key.postal_code 20) (broken std_msg (in_standard "postal_code") (too_long 20))
    ++ when (zero_country f) [malformed_alternate]
    ++ when (too_long_for f Key.website 255) (broken std_msg (in_standard "website") (too_long 255)).
Proof.
  destruct business_typed as (Hl & Ha & Hc & Hs & Hp & Hp3). unfold standard_fields.
  cbn [ks_legal_business_name ks_address_line1 ks_address_line2 ks_city ks_state ks_postal_code ks_state_of_registration
       ks_alternate_phone ks_website standard_of].
  rewrite !text_field_ok, !optional_field_ok by (done || by apply not_empty_ok). do 4 f_equal.
  destruct (state_option Key.state) as [_ ->]; [done..|]. cbn [negb when app].
  assert (str_field std_msg (in_standard "postal_code") 3 (Some 20) (trimmed f Key.postal_code)
            (not_empty (in_standard "postal_code") (trimmed f Key.postal_code)) =
          when (too_long_for f Key.postal_code 20) (broken std_msg (in_standard "postal_code") (too_long 20))) as ->.
  { unfold str_field, too_long_for. rewrite not_empty_ok by done.
    destruct (Z.ltb_spec (py_len (trimmed f Key.postal_code)) 3); [lia|]. by destruct (20 <? py_len _). }
  f_equal. destruct (text f Key.state_of_registration ==? "") eqn:Er.
  - cbn [app]. f_equal. unfold zero_country. fold alternate. rewrite normalize_canonical by apply alternate_e164.
    by destruct (char_at 1 alternate ==? _).
  - apply bool_decide_eq_false in Er. destruct (state_option Key.state_of_registration) as [-> ->]; [done..|]. cbn [negb andb when app].
    f_equal. unfold zero_country. fold alternate. rewrite normalize_canonical by apply alternate_e164.
    by destruct (char_at 1 alternate ==? _).
Qed.

Lemma capacity_typed : is_high_volume f = false → over_threshold f = false.
Proof.
  intros Hh. destruct (over_threshold f) eqn:E; [|done]. pose proof (fo_high_volume f Hf E). congruence.
Qed.

Lemma kyc_model_ok : kyc_model (kyc_of f) = [].
Proof.
  unfold kyc_model. cbn [kyc_of ky_is_high_volume ky_declared_peak_cps ky_declared_max_concurrent_calls ky_high_volume].
  change (num_lt (num_of_Z 1) _ || num_lt (num_of_Z 1000) _) with (over_threshold f).
  destruct (is_high_volume f) eqn:Eh; [by rewrite andb_false_r|]. by rewrite capacity_typed.
Qed.

Lemma ips_needed : has p_trunk f || is_high_volume f = true → (1 ≤ length (originating_ips f))%nat.
Proof.
  intros Hn. pose proof (fault_ips _ _ (list_elem_of_lookup_2 (ip_faults f) 0 (_, _) eq_refl)) as H. cbn beta in H.
  rewrite Hn in H. destruct (Nat.eqb_spec (length (originating_ips f)) 0); [done|lia].
Qed.

Lemma high_volume_ok : is_high_volume f = true → check_high_volume std_msg ip_address ip_network (high_volume_of f) = [].
Proof.
  intros Hh. unfold check_high_volume.
  cbn [hv_intended_use hv_intended_use_description hv_originating_ips hv_expected_daily_calls high_volume_of].
  rewrite optional_field_ok by done. rewrite capped_field by done. rewrite ip_list_ok.
  2: { split; [apply ips_needed; rewrite Hh; apply orb_true_r|apply (fo_ips_max f Hf)]. }
  pose proof fault_high_volume as Hfv. unfold high_volume_faults in Hfv. rewrite Hh in Hfv.
  apply all_none in Hfv as (H0 & H1 & H2 & _). cbn beta zeta in H0, H1, H2.
  assert (opt_int std_msg ["kyc"; "high_volume"; "expected_daily_calls"] 0 10000000 (optional_number f Key.expected_daily_calls) = []) as ->.
  { unfold optional_number, opt_int. destruct (blank f Key.expected_daily_calls); [done|]. cbn [negb] in H2.
    destruct (is_finite (Number (text f Key.expected_daily_calls))) eqn:Ef; [|done]. cbn [negb orb] in H2.
    destruct (is_integer (Number (text f Key.expected_daily_calls))) eqn:Ei; [|by rewrite orb_true_r in H2].
    destruct (whole_Z (Number (text f Key.expected_daily_calls))) as (z & Hz & Hlt); [unfold whole; by rewrite Ef, Ei|].
    destruct (Hlt 0) as [E0 _], (Hlt 10000000) as [_ E1]. rewrite E0, E1 in H2.
    destruct (Z.ltb_spec z 0); [done|]. destruct (Z.ltb_spec 10000000 z); [done|]. by eapply int_field_ok. }
  cbn [app when]. unfold then_model. apply when_false. destruct (intendedUseFromLabel _) as [u|] eqn:Eu; [|done].
  cbn [default from_option id] in *. change (id u) with u. destruct (u ==? u_other) eqn:Eo; [|done].
  apply bool_decide_eq_true in Eo as ->. cbn [andb]. rewrite bool_decide_eq_true_2 in H1 by done. cbn [andb] in H1.
  unfold optional. destruct (blank f Key.intended_use_description) eqn:Eb; [done|]. cbn [default from_option id].
  unfold id. by rewrite stripped_trimmed, Eb.
Qed.

(** ** Products *)

Lemma selected_has p : p ∈ PRODUCT_ORDER → includes (selectedProducts f) p = has p f.
Proof.
  intros Hp. apply eq_true_iff_eq. rewrite includes_true. unfold selectedProducts. rewrite elem_of_lfilter. tauto.
Qed.

Lemma api_unselected : includes (selectedProducts f) p_api = false.
Proof. apply includes_false. intros [Hp _]%elem_of_lfilter. by rewrite <- includes_true in Hp. Qed.

Lemma some_selected : (1 ≤ length (selectedProducts f))%nat.
Proof.
  pose proof (all_none _ fault_contact) as (_ & _ & _ & Hp & _). cbn [snd] in Hp.
  pose proof (fo_products f Hf) as Hsub. destruct (products f) as [|p l] eqn:Ep; [done|].
  assert (p ∈ selectedProducts f) as Hin.
  { apply elem_of_lfilter. split; [apply Hsub; by left|]. unfold has. rewrite Ep. apply includes_true. by left. }
  destruct (selectedProducts f); [by apply not_elem_of_nil in Hin|simpl; lia].
Qed.

Lemma selected_once : NoDup (selectedProducts f).
Proof. apply NoDup_lfilter. by apply (bool_decide_unpack _). Qed.

Lemma products_model_ok : products_model api_calling_enabled (products_of f) = [].
Proof.
  unfold products_model, block_present. cbn [products_of pp_selected pp_api]. rewrite api_unselected. rewrite andb_false_r.
  assert (omap (mismatch (products_of f)) [p_rcf; p_trunk; p_api; p_voicemail] = []) as ->; [|done].
  unfold mismatch, block_present. cbn [products_of pp_selected pp_rcf pp_trunk pp_api pp_voicemail omap list_omap].
  unfold rcfSelected. rewrite api_unselected.
  by destruct (includes (selectedProducts f) p_rcf), (includes (selectedProducts f) p_trunk), (includes (selectedProducts f) p_voicemail).
Qed.

Lemma rcf_left : has p_rcf f = true →
  ∀ b, pp_rcf (products_of f) = Some b →
  check_rcf std_msg b = when (too_long_for f Key.current_carrier 200) (broken std_msg ["products"; "rcf"; "current_carrier"] (too_long 200)).
Proof.
  intros Hh b. cbn [products_of pp_rcf]. unfold rcfSelected. rewrite selected_has, Hh by (by apply (bool_decide_unpack _)).
  intros [= <-]. pose proof fault_rcf as Hr. unfold rcf_faults in Hr. rewrite Hh in Hr.
  apply all_none in Hr as (H0 & H1 & H2 & H3 & _). cbn [snd] in H0, H1, H2, H3. unfold check_rcf.
  cbn [rcf_did_count rcf_porting rcf_current_carrier rcf_forwarding_setup].
  rewrite (literal_ok _ Key.did_count), (literal_ok _ Key.porting), (literal_ok _ Key.forwarding_setup) by done.
  rewrite optional_field_ok by done. rewrite app_nil_r. cbn [app].
  rewrite (when_false (portingRequiresCarrier _ && _)); [apply then_model_nil|].
  destruct (portingRequiresCarrier (text f Key.porting)); [|done]. cbn [andb] in H2 |- *.
  unfold optional. destruct (blank f Key.current_carrier) eqn:Eb; [done|]. cbn [default from_option]. unfold id.
  pose proof (stripped_trimmed Key.current_carrier eq_refl) as Hs. unfold stripped_empty in Hs. by rewrite Hs.
Qed.

Lemma trunk_ok : has p_trunk f = true →
  ∀ b, pp_trunk (products_of f) = Some b → check_trunk std_msg ip_address ip_network b = [].
Proof.
  intros Hh b. cbn [products_of pp_trunk]. rewrite selected_has, Hh by (by apply (bool_decide_unpack _)).
  intros [= <-]. pose proof fault_trunk as Hr. unfold trunk_faults in Hr. rewrite Hh in Hr.
  apply all_none in Hr as (H0 & _). cbn [snd] in H0. unfold check_trunk.
  cbn [tk_signaling_ips tk_concurrent_call_paths tk_pbx_vendor tk_dids_needed].
  rewrite ip_list_ok, (number_field_ok _ Key.trunk_call_paths), !optional_field_ok, !capped_field; try done.
  pose proof (all_none _ fault_ips) as (Hi & _). cbn [snd] in Hi. rewrite Hh in Hi. cbn [andb orb] in Hi.
  split; [apply ips_needed; by rewrite Hh|].
  destruct (_ =? 0)%nat; [done|]. destruct (Nat.ltb_spec MAX_TRUNK_IPS (length (originating_ips f))); [done|].
  unfold MAX_TRUNK_IPS in *. lia.
Qed.

Lemma voicemail_ok : has p_voicemail f = true →
  ∀ b, pp_voicemail (products_of f) = Some b → check_voicemail std_msg b = [].
Proof.
  intros Hh b. cbn [products_of pp_voicemail]. rewrite selected_has, Hh by (by apply (bool_decide_unpack _)).
  intros [= <-]. pose proof fault_voicemail as Hr. unfold voicemail_faults in Hr. rewrite Hh in Hr.
  apply all_none in Hr as (H0 & _). by apply number_field_ok.
Qed.

Lemma products_left :
  check_products std_msg ip_address ip_network api_calling_enabled (products_of f) =
    when (rcfSelected f && too_long_for f Key.current_carrier 200)
      (broken std_msg ["products"; "rcf"; "current_carrier"] (too_long 200)).
Proof.
  unfold check_products. rewrite products_model_ok, then_model_nil. cbn [pp_selected products_of].
  pose proof some_selected. destruct (Nat.ltb_spec (length (selectedProducts f)) 1); [lia|].
  rewrite bool_decide_eq_true_2 by apply selected_once. cbn [negb when app].
  pose proof rcf_left as Hr. pose proof trunk_ok as Ht. pose proof voicemail_ok as Hvm.
  rewrite <- !selected_has in Hr, Ht, Hvm by (by apply (bool_decide_unpack _)).
  cbn [products_of pp_rcf pp_trunk pp_api pp_voicemail] in *. rewrite api_unselected. fold (rcfSelected f) in *.
  destruct (rcfSelected f).
  - rewrite (Hr eq_refl _ eq_refl). cbn [andb].
    destruct (includes (selectedProducts f) p_trunk); [rewrite (Ht eq_refl _ eq_refl)|];
      (destruct (includes (selectedProducts f) p_voicemail); [rewrite (Hvm eq_refl _ eq_refl)|]; by rewrite ?app_nil_r).
  - destruct (includes (selectedProducts f) p_trunk); [rewrite (Ht eq_refl _ eq_refl)|];
      (destruct (includes (selectedProducts f) p_voicemail); [rewrite (Hvm eq_refl _ eq_refl)|]; done).
Qed.

(** ** The whole request *)

(** The errors for [unchecked], and the one for [alike]. *)
Definition left_errors : list (bool * PyError) :=
  let long k n := Build_PyError (in_standard k) (std_msg (too_long n)) in
  [(negb (py_match email_re_py (text f Key.email)), Build_PyError ["email"] ("Value error, " +:+ "Invalid email address"));
   (too_long_for f Key.legal_business_name 200, long "legal_business_name" 200);
   (too_long_for f Key.address_line1 200, long "address_line1" 200);
   (too_long_for f Key.address_line2 200, long "address_line2" 200);
   (too_long_for f Key.city 100, long "city" 100);
   (too_long_for f Key.postal_code 20, long "postal_code" 20);
   (zero_country f, malformed_alternate);
   (too_long_for f Key.website 255, long "website" 255);
   (rcfSelected f && too_long_for f Key.current_carrier 200,
    Build_PyError ["products"; "rcf"; "current_carrier"] (std_msg (too_long 200)))].
Definition alike_error : PyError := Build_PyError [] ("Value error, " +:+ "kyc.standard.alternate_phone must differ from the main phone").

Lemma filter_when b (e : PyError) l :
  List.map snd (List.filter fst ((b, e) :: l)) = when b [e] ++ List.map snd (List.filter fst l).
Proof. by destruct b. Qed.

Lemma check_left : check f = then_model (List.map snd (List.filter fst left_errors)) (when (alike f) [alike_error]).
Proof.
  unfold check, check_submission.
  cbn [submission os_company_name os_contact_name os_email os_phone os_monthly_volume os_timeline os_kyc os_products
       kyc_of ky_standard standard_of ks_alternate_phone].
  destruct business_typed as (Hl & _). pose proof (all_none _ fault_contact) as (Hc & _ & Hp & _).
  pose proof (all_none _ fault_capacity) as (H0 & H1 & H2 & H3 & _). cbn [snd] in Hc, Hp, H0, H1, H2, H3.
  rewrite (not_empty_ok _ Key.legal_business_name), (not_empty_ok _ Key.phone) by (done || by apply required_not_blank).
  assert (not_empty ["contact_name"] (text f Key.contact_name) = []) as ->.
  { unfold not_empty, stripped_empty. rewrite py_strip_typed by by apply Hk. apply when_false, required_not_blank, Hc. }
  rewrite (option_not_empty _ Key.monthly_volume), (option_not_empty _ Key.timeline) by (done || (vm_compute; reflexivity)).
  rewrite products_left. unfold check_kyc. fold (kyc_of f). rewrite kyc_model_ok, then_model_nil.
  cbn [kyc_of ky_standard ky_high_volume ky_declared_peak_cps ky_declared_max_concurrent_calls].
  rewrite (number_field_ok _ Key.declared_peak_cps), (number_field_ok _ Key.declared_max_concurrent_calls) by done.
  unfold check_standard. rewrite standard_model_ok, then_model_nil, standard_fields_left.
  assert (match (if is_high_volume f then Some (high_volume_of f) else None) with
          | Some h => check_high_volume std_msg ip_address ip_network h | None => [] end = []) as ->.
  { destruct (is_high_volume f) eqn:Eh; [by apply high_volume_ok|done]. }
  assert (py_strip (trimmed f Key.phone) = trimmed f Key.phone) as ->.
  { unfold trimmed. by rewrite py_strip_typed, trim_idemp by by apply trim_typed, Hk. }
  unfold left_errors. cbn zeta. rewrite !filter_when. cbn [List.filter List.map]. unfold value_error, broken.
  rewrite !app_nil_r, <- !app_assoc. done.
Qed.

(** Each lands on its field. *)
Lemma left_lands : List.map (λ c, (c.1, lands c.2)) left_errors = List.map (λ c, (c.1, Some c.2)) (unchecked f).
Proof. reflexivity. Qed.

Lemma check_lands : List.map lands (check f) = List.map Some (refused_fields f).
Proof.
  rewrite check_left.
  assert (∀ (l : list (bool * PyError)) (m : list (bool * Key.t)),
    List.map (λ c, (c.1, lands c.2)) l = List.map (λ c, (c.1, Some c.2)) m →
    List.map lands (List.map snd (List.filter fst l)) = List.map Some (List.map snd (List.filter fst m))) as Hmap.
  { intros l. induction l as [|[b e] l IH]; intros [|[b' k] m]; try done. cbn [List.map fst snd].
    intros [= -> He Hm]. specialize (IH m Hm). destruct b'; simpl; [by rewrite He, IH|done]. }
  specialize (Hmap _ _ left_lands). unfold refused_fields.
  destruct (List.map snd (List.filter fst (unchecked f))) as [|k ks], (List.map snd (List.filter fst left_errors)) as [|e es]; try done.
  cbn [then_model]. by destruct (alike f).
Qed.
End Form.

(** ** Back on the page *)

Section Page.
Context (num_text : num → string).

Lemma map_error_item fields leftover e k :
  lands e = Some k →
  map_error num_text (fields, leftover) (error_item e) = (om_set k (plain_message (pe_msg e)) fields, leftover).
Proof.
  intros He. change (map_error num_text (fields, leftover) (error_item e)) with
    (match lands e with
     | Some k => (om_set k (plain_message (pe_msg e)) fields, leftover)
     | None => (fields, leftover ++ [plain_message (pe_msg e)])
     end).
  by rewrite He.
Qed.

Lemma map_landed errs ks :
  List.map lands errs = List.map Some ks →
  (mapServerErrors num_text (unprocessable errs)).2 = []
  ∧ ∀ k, k ∈ om_keys (mapServerErrors num_text (unprocessable errs)).1 ↔ k ∈ ks.
Proof.
  assert (∀ fields, List.map lands errs = List.map Some ks →
    (fold_left (map_error num_text) (List.map error_item errs) (fields, [])).2 = []
    ∧ ∀ k, k ∈ om_keys (fold_left (map_error num_text) (List.map error_item errs) (fields, [])).1 ↔ k ∈ om_keys fields ∨ k ∈ ks) as H.
  { revert ks. induction errs as [|e errs IH]; intros [|k ks] fields; try done.
    - intros _. split; [done|]. intros k. simpl. rewrite elem_of_nil. tauto.
    - cbn [List.map]. intros [= He Hr]. cbn [fold_left]. rewrite (map_error_item _ _ _ k He).
      destruct (IH ks (om_set k (plain_message (pe_msg e)) fields) Hr) as [H1 H2]. split; [done|].
      intros k'. rewrite H2, om_keys_set_elem, elem_of_cons. tauto. }
  intros Hm. destruct (H [] Hm) as [H1 H2]. split; [exact H1|]. intros k.
  etransitivity; [apply H2|]. cbn [om_keys List.map]. rewrite elem_of_nil. tauto.
Qed.

Lemma mapped_some errs ks :
  List.map lands errs = List.map Some ks → ks ≠ [] → (0 < length (mapServerErrors num_text (unprocessable errs)).1)%nat.
Proof.
  intros Hm Hne. destruct (map_landed _ _ Hm) as [_ Hk]. destruct ks as [|k ks]; [done|].
  specialize (Hk k). destruct (mapServerErrors num_text (unprocessable errs)).1; [|simpl; lia].
  exfalso. eapply not_elem_of_nil, Hk. by left.
Qed.

(** C16 The server and the form agree on what is typed in ASCII.  Of a request
    that is under way, when its boxes hold printable ASCII and white space
    ([keyboard]), the server refuses exactly what the page leaves to it: an
    address its own pattern does not take, texts over its lengths, a country
    code that starts with zero, or two phone numbers it reads alike.  Its
    refusal, back on the page, marks exactly the fields at fault, nothing is
    left over, and the form is as it was.  Outside ASCII the two ends measure
    and trim texts differently ([emoji_let_through], [separator_let_through]). *)
Theorem refusal_lands events s f message :
  intake_run num_text initial events = Some s → sending s = Some f → keyboard f →
  (check f = [] ↔ refused_fields f = [])
  ∧ (check f ≠ [] →
     ∃ s', intake_step num_text s (ev_answer (refused (Build_ApiError 422 message (unprocessable (check f))))) = Some s'
       ∧ form s' = form s ∧ sending s' = None
       ∧ submitError s' = Some "Please review the highlighted fields."
       ∧ ∀ k, k ∈ om_keys (errors s') ↔ k ∈ refused_fields f).
Proof.
  intros Hr Hs Hk. destruct (intake_run_ok _ _ _ _ initial_ok Hr) as [_ Hok]. destruct (Hok f Hs) as [Hf Hv].
  pose proof (check_lands f Hf Hv Hk) as Hl. split.
  - split; intros E; rewrite E in Hl; [by destruct (refused_fields f)|by destruct (check f)].
  - intros Hne. assert (refused_fields f ≠ []) as Hne' by (intros E; rewrite E in Hl; by destruct (check f)).
    destruct (map_landed _ _ Hl) as [Hleft Hkeys]. pose proof (mapped_some _ _ Hl Hne') as Hpos.
    unfold intake_step, submitting. rewrite Hs. unfold answer, refusal_shown. rewrite Hs. cbn [ae_status ae_raw Z.eqb].
    destruct (mapServerErrors num_text (unprocessable (check f))) as [fields leftover]. cbn [fst snd] in *. subst leftover.
    destruct (Nat.ltb_spec 0 (length fields)); [|lia]. eexists. split; [done|]. done.
Qed.
End Page.
End Agree.

(** ** Addresses *)

Definition some_address (s : string) : option string := if isValidIpv4 s || isValidIpv6 s then Some s else None.
Definition some_network (s : string) : option (Z * Z * string) :=
  match at_slash s with
  | Some (a, p) => Some (if lacks COLON a then 4 else 6, num_of_digits p, s)
  | None => None
  end.

Lemma at_slash_app a p : sforall address_char a = true → at_slash (a +:+ "/" +:+ p) = Some (a, p).
Proof.
  induction a as [|c a IH]; simpl; [done|]. intros [Hc Ha]%andb_true_iff. destruct (address_char_facts c Hc) as [_ ->].
  specialize (IH Ha). simpl in IH. by rewrite IH.
Qed.

Lemma ipv6_colon s : ipv6_text s → lacks COLON s = false.
Proof.
  assert (∀ u v, lacks COLON (u +:+ ":" +:+ v) = false) as Hc.
  { intros u v. unfold lacks. rewrite sforall_app. simpl. by rewrite andb_false_r. }
  intros [[(gs & Hl & _ & ->)|(hs & ts & _ & _ & _ & ->)]|(p & v4 & _ & -> & _)].
  - destruct gs as [|g [|g' gs]]; try done. apply Hc.
  - apply (Hc _ (":" +:+ join ":" ts)).
  - apply Hc.
Qed.

Lemma some_laws : IpaddressLaws some_address some_network.
Proof.
  split.
  - intros s Hs. unfold some_address.
    destruct Hs as [->%isValidIpv4_iff| ->%isValidIpv6_iff]; rewrite ?orb_true_r; by eexists.
  - intros a p Ha _ _. unfold some_network. rewrite at_slash_app by (apply ipv4_chars; by apply isValidIpv4_iff).
    destruct (ipv4_dotted a Ha) as [_ ->]. by eexists.
  - intros a p Ha _ _. unfold some_network. rewrite at_slash_app by (apply ipv6_chars; by apply isValidIpv6_iff).
    rewrite ipv6_colon by done. by eexists.
Qed.

(** ** The session *)

Definition no_text (n : num) : string := "".
Definition no_msg (r : Rule) : string := "String should have at most 20 characters".

Definition trunk_customer : list IntakeEvent := [
  ev_type Key.contact_name "Ann Lee"; ev_type Key.email "ann@acme.com"; ev_type Key.phone "(617) 555-0134";
  ev_type Key.legal_business_name "Acme Corp"; ev_type Key.address_line1 "1 Main St"; ev_type Key.city "Quincy";
  ev_pick Key.state "MA — Massachusetts"; ev_type Key.postal_code "02169-0000-0000-0000-0000";
  ev_pick Key.gov_id_type "EIN (Federal Tax ID)"; ev_type Key.gov_id_number "12-3456789";
  ev_type Key.alternate_phone "+0 44 7911 1234"; ev_product p_trunk; ev_type Key.trunk_call_paths "1e2";
  ev_chip_type "203.0.113.10, 2001:db8::/64"; ev_chip_enter;
  ev_type Key.declared_peak_cps "5"; ev_type Key.declared_max_concurrent_calls "100";
  ev_pick Key.monthly_volume "50,000+"; ev_pick Key.timeline "ASAP"; ev_pick Key.intended_use "Education";
  ev_submit].

Definition ran (events : list IntakeEvent) : RequestAccess := default initial (intake_run no_text initial events).
Definition asked : IntakeForm := default EMPTY_FORM (sending (ran trunk_customer)).

Lemma default_some {A} (d : A) (o : option A) : match o with Some _ => true | None => false end = true → o = Some (default d o).
Proof. by destruct o. Qed.

(** The request is under way; the server's two complaints. *)
Example asked_refused :
  refused_fields asked = [Key.postal_code; Key.alternate_phone]
  ∧ originating_ips asked = ["203.0.113.10"; "2001:db8::/64"] ∧ is_high_volume asked = true.
Proof. vm_compute. split_and!; reflexivity. Qed.

Lemma asked_keyboard : keyboard asked.
Proof. intros k. destruct k; try done; intros _; vm_compute; reflexivity. Qed.

Lemma refusal_lands_witness :
  check no_msg some_address some_network false asked ≠ [] ∧
  ∃ s', intake_step no_text (ran trunk_customer)
          (ev_answer (refused (Build_ApiError 422 "" (unprocessable (check no_msg some_address some_network false asked))))) = Some s'
    ∧ form s' = form (ran trunk_customer) ∧ sending s' = None
    ∧ submitError s' = Some "Please review the highlighted fields."
    ∧ ∀ k, k ∈ om_keys (errors s') ↔ k ∈ refused_fields asked.
Proof.
  assert (check no_msg some_address some_network false asked ≠ []) as Hne.
  { intros E%(f_equal (@length PyError)). vm_compute in E. discriminate. }
  split; [exact Hne|].
  refine (proj2 (refusal_lands no_msg some_address some_network false some_laws no_text trunk_customer
    (ran trunk_customer) asked "" _ _ asked_keyboard) Hne); apply default_some; vm_compute; reflexivity.
Defined.

(** Over the threshold and back: the switch returns to what it was. *)
Definition over_and_back : list IntakeEvent := [
  ev_high_volume true; ev_type Key.declared_peak_cps "1"; ev_type Key.declared_peak_cps "12"; ev_type Key.declared_peak_cps "1";
  ev_high_volume false; ev_type Key.declared_max_concurrent_calls "1001"; ev_type Key.declared_max_concurrent_calls "1000"].

Lemma switch_is_choice_witness :
  is_high_volume (form (ran (take 4 over_and_back))) = true ∧
  is_high_volume (form (ran over_and_back)) = over_threshold (form (ran over_and_back)) || own_choices over_and_back.
Proof.
  split; [vm_compute; reflexivity|].
  refine (switch_is_choice no_text over_and_back (ran over_and_back) _). apply default_some. vm_compute. reflexivity.
Defined.

(** ** What the page lets through *)

(** The page takes an address of any shape around one [@]; the server's
    pattern does not. *)
Lemma email_let_through : email_re "ann@acme.c_m" = true ∧ py_match email_re_py "ann@acme.c_m" = false.
Proof. split; vm_compute; reflexivity. Qed.

(** A form the server takes, but for one box. *)
Definition fine_but (k : Key.t) (s : string) : list IntakeEvent :=
  take 7 trunk_customer
  ++ [ev_type Key.postal_code "02169"; ev_pick Key.gov_id_type "Other"; ev_type Key.gov_id_number "12-3456789";
      ev_type Key.alternate_phone "+44 20 7911 1234"]
  ++ take 9 (drop 11 trunk_customer) ++ [ev_type k s; ev_submit].
Definition sent_but (k : Key.t) (s : string) : IntakeForm := default EMPTY_FORM (sending (ran (fine_but k s))).
Definition is_sent (k : Key.t) (s : string) : bool := match sending (ran (fine_but k s)) with Some _ => true | None => false end.

Definition server_complains (f : IntakeForm) : list string :=
  List.map pe_msg (check no_msg some_address some_network false f).

(** One emoji is two units of UTF-16 and one character to Python, and
    U+001C is white space to Python only: the page lets both through, and the
    server refuses them. *)
Lemma emoji_let_through :
  is_sent Key.contact_name "Ann Lee" = true ∧ server_complains (sent_but Key.contact_name "Ann Lee") = [] ∧
  is_sent Key.gov_id_number "😀" = true ∧ refused_fields (sent_but Key.gov_id_number "😀") = [] ∧
  server_complains (sent_but Key.gov_id_number "😀") = ["Value error, gov_id_number must be 2-40 characters"].
Proof. split_and!; vm_compute; reflexivity. Qed.

Definition separator : string := String (ascii_of_nat 28) "".

Lemma separator_let_through :
  is_sent Key.contact_name separator = true ∧ refused_fields (sent_but Key.contact_name separator) = [] ∧
  server_complains (sent_but Key.contact_name separator) = ["Value error, Field cannot be empty"].
Proof. split_and!; vm_compute; reflexivity. Qed.
