(* ===== verification/Select.v ===== *)
(** * The dropdown ([components/ui/Select.tsx])

    Every list of the signed-in app: the rows and their filter, moving the
    highlight, type-ahead, the component's states and the geometry of its
    menu.  Positions are numbers as in the code, where -1 is none.  A key is
    what the browser calls it; [toLowerCase] is that of ASCII. *)
From Stdlib Require Import QArith Qminmax.
From S2P Require Import Prelude JsString Phone SipText.

Local Close Scope Q_scope.
Local Open Scope string_scope.
Local Open Scope Z_scope.
Local Open Scope list_scope.

(** ** Options and rows *)

Record SelectOption := {
  so_value : string;
  so_label : string;
  so_hint : option string;
  so_disabled : bool;
  so_group : option string;
  so_keywords : option string;
  so_pinned : bool;
  so_divider : bool;
}.

Record Row := {
  row_option : SelectOption;
  row_index : Z;
}.

Record Filtered := {
  fl_rows : list Row;
  fl_matches : Z;
}.

Definition AUTO_SEARCH_THRESHOLD : nat := 10.
Definition PAGE_STEP : Z := 10.

(** [l[i]] *)
Definition at_index {A} (l : list A) (i : Z) : option A := if 0 <=? i then l !! Z.to_nat i else None.

(** [l.findIndex(p)] and [l.findLastIndex(p)] *)
Fixpoint findIndex {A} (p : A → bool) (l : list A) : Z :=
  match l with
  | [] => -1
  | x :: l => if p x then 0 else let i := findIndex p l in if i <? 0 then -1 else i + 1
  end.
Fixpoint findLastIndex {A} (p : A → bool) (l : list A) : Z :=
  match l with
  | [] => -1
  | x :: l => let i := findLastIndex p l in if 0 <=? i then i + 1 else if p x then 0 else -1
  end.

Definition enabled (o : SelectOption) : bool := negb (so_disabled o).
Definition row_enabled (r : Row) : bool := enabled (row_option r).

(** [options.map((option, index) => ({ option, index }))] *)
Definition allRows (options : list SelectOption) : list Row := imap (λ i o, Build_Row o (Z.of_nat i)) options.

(** ** Searching *)

Definition LF : string := String (ch 10) "".
Definition haystackOf (o : SelectOption) : string :=
  lower (so_label o +:+ LF +:+ default "" (so_hint o) +:+ LF +:+ default "" (so_keywords o)).

(** [haystacks[index] ?? haystackOf(option)] *)
Definition haystack_at (haystacks : list string) (r : Row) : string :=
  default (haystackOf (row_option r)) (at_index haystacks (row_index r)).

Definition filterRows (options : list SelectOption) (haystacks : list string) (query : string) : Filtered :=
  let q := lower (trim query) in
  if q ==? "" then Build_Filtered (allRows options) (Z.of_nat (length options))
  else
    let pinned := List.filter (λ r, so_pinned (row_option r)) (allRows options) in
    let hits := List.filter (λ r, negb (so_pinned (row_option r)) && contains q (haystack_at haystacks r)) (allRows options) in
    Build_Filtered (pinned ++ hits) (Z.of_nat (length hits)).

(** ** Moving *)

(** The loop of [stepEnabled]; a row per turn, so the rows and one more turn
    are enough. *)
Fixpoint step_loop (fuel : nat) (rows : list Row) (dir remaining pos last : Z) : Z :=
  match fuel with
  | O => last
  | S fuel =>
      if 0 <? remaining then
        let pos := pos + dir in
        match at_index rows pos with
        | None => last
        | Some r =>
            if row_enabled r then step_loop fuel rows dir (remaining - 1) pos pos
            else step_loop fuel rows dir remaining pos last
        end
      else last
  end.

Definition enabled_at (rows : list Row) (i : Z) : bool :=
  match at_index rows i with Some r => row_enabled r | None => false end.

Definition stepEnabled (rows : list Row) (from delta : Z) : Z :=
  let dir := if 0 <? delta then 1 else -1 in
  let pos := if from <? 0 then (if 0 <? dir then -1 else Z.of_nat (length rows)) else from in
  let last := if enabled_at rows from then from else -1 in
  step_loop (S (length rows)) rows dir (Z.abs delta) pos last.

(** ** Type-ahead *)

(** [[\s,;|/]] *)
Definition is_word_sep (a : ascii) : bool :=
  ws1 a || (a ==? ","%char) || (a ==? ";"%char) || (a ==? "|"%char) || (a ==? "/"%char).
(** The words between separators; no needle starts an empty one. *)
Fixpoint words (s : string) : list string :=
  match s with
  | "" => [""]
  | String a s =>
      if is_word_sep a then "" :: words s
      else match words s with w :: l => String a w :: l | [] => [String a ""] end
  end.

Definition startsWithNeedle (o : SelectOption) (needle : string) : bool :=
  starts_with needle (lower (so_label o))
  || match so_keywords o with
     | Some k => (k !=? "") && existsb (starts_with needle) (words (lower k))
     | None => false
     end.

(** [buffer] is the keys typed, one character each. *)
Definition findTypeahead (rows : list Row) (from : Z) (buffer : list string) : Z :=
  let n := Z.of_nat (length rows) in
  match buffer with
  | [] => -1
  | first :: _ =>
      let repeated := forallb (λ c, c ==? first) buffer in
      let needle := if repeated then first else join "" buffer in
      let start := if repeated then from + 1 else Z.max from 0 in
      default (-1)
        (find (λ pos, match at_index rows pos with
                      | Some r => row_enabled r && startsWithNeedle (row_option r) needle
                      | None => false
                      end)
           (List.map (λ step, Z.rem (Z.rem (start + Z.of_nat step) n + n) n) (seq 0 (length rows))))
  end.

(** ** The highlight *)

Definition index_or_none (o : option Row) : Z := match o with Some r => row_index r | None => -1 end.

Definition initialActive (rows : list Row) (query : string) (selectedIndex : Z) : Z :=
  if trim query !=? "" then
    index_or_none
      (match find (λ r, negb (so_pinned (row_option r)) && row_enabled r) rows with
       | Some r => Some r
       | None => find row_enabled rows
       end)
  else match find (λ r, (row_index r =? selectedIndex) && row_enabled r) rows with
       | Some r => row_index r
       | None => index_or_none (find row_enabled rows)
       end.

(** ** Widths *)

Definition label_length (top : list string) (i : nat) : Z := utf16_length (default "" (top !! i)).

(** The position of the first shortest label. *)
Definition shortest (top : list string) : nat :=
  fold_left (λ best i, if label_length top i <? label_length top best then i else best) (seq 1 (length top - 1)) 0%nat.

(** One turn of the loop of [sizerLabels]. *)
Definition size_with (top : list string) (label : string) : list string :=
  if (length top <? 3)%nat then top ++ [label]
  else let i := shortest top in
       if label_length top i <? utf16_length label then <[i := label]> top else top.

Definition sizerLabels (options : list SelectOption) (placeholder : option string) : list string :=
  fold_left size_with (List.map so_label options) [] ++
  match placeholder with Some p => if p ==? "" then [] else [p] | None => [] end.

(** ** The list on the page *)

Inductive Item := row_item (r : Row) | group_item (group : string) (rows : list Row).

Definition group_of (r : Row) : option string :=
  match so_group (row_option r) with Some g => if g ==? "" then None else Some g | None => None end.

(** The rows of group [g] that come next, and the rest. *)
Fixpoint take_group (g : string) (rows : list Row) : list Row * list Row :=
  match rows with
  | r :: rest =>
      if so_group (row_option r) ==? Some g then let '(run, rest) := take_group g rest in (r :: run, rest) else ([], rows)
  | [] => ([], [])
  end.

(** The loop over [pos]; every turn takes a row. *)
Fixpoint items_from (fuel : nat) (rows : list Row) : list Item :=
  match fuel, rows with
  | S fuel, r :: rest =>
      match group_of r with
      | None => row_item r :: items_from fuel rest
      | Some g => let '(run, rest) := take_group g rest in group_item g (r :: run) :: items_from fuel rest
      end
  | _, _ => []
  end.
Definition items (rows : list Row) : list Item := items_from (length rows) rows.

(** ** The component *)

Record SelectProps := {
  sp_value : string;
  sp_options : list SelectOption;
  sp_disabled : bool;
  sp_searchable : option bool;  (* [None]: 'auto' *)
}.

Definition searchOn (p : SelectProps) : bool :=
  match sp_searchable p with
  | Some b => b
  | None => (AUTO_SEARCH_THRESHOLD <? length (sp_options p))%nat
  end.

(** Where the focus is: on the trigger, in the search box, elsewhere. *)
Inductive Focus := on_trigger | in_search | away.
#[export] Instance Focus_eq_dec : EqDecision Focus.
Proof. solve_decision. Defined.

Record Select := {
  se_open : bool;
  se_query : string;
  se_active : Z;
  se_buffer : list string;
  se_focus : Focus;
}.

Definition initial_select : Select := Build_Select false "" (-1) [] away.

Section Component.
Context (p : SelectProps).
Abbreviation options := (sp_options p).

Definition selectedIndex : Z := findIndex (λ o, so_value o ==? sp_value p) options.

Definition haystacks (s : Select) : list string :=
  if se_open s && searchOn p then List.map haystackOf options else [].
Definition filtered (s : Select) : Filtered :=
  if se_open s then filterRows options (haystacks s) (if searchOn p then se_query s else "") else Build_Filtered [] 0.
Definition rows (s : Select) : list Row := fl_rows (filtered s).
Definition activePos (s : Select) : Z := findIndex (λ r, row_index r =? se_active s) (rows s).

Definition closeMenu (returnFocus : bool) (s : Select) : Select :=
  Build_Select false "" (se_active s) [] (if returnFocus then on_trigger else se_focus s).

(** The caret goes into the search box once the menu is there. *)
Definition openMenu (active : Z) (seedQuery : string) (s : Select) : Select :=
  Build_Select true seedQuery active (se_buffer s) (if searchOn p then in_search else on_trigger).

Definition set_active (i : Z) (s : Select) : Select := Build_Select (se_open s) (se_query s) i (se_buffer s) (se_focus s).
Definition set_buffer (b : list string) (s : Select) : Select := Build_Select (se_open s) (se_query s) (se_active s) b (se_focus s).
Definition set_query (q : string) (i : Z) (s : Select) : Select := Build_Select (se_open s) q i (se_buffer s) (se_focus s).
Definition set_focus (f : Focus) (s : Select) : Select := Build_Select (se_open s) (se_query s) (se_active s) (se_buffer s) f.

(** A state, and the value handed to [onChange] if any. *)
Definition Out : Type := Select * option string.
Definition quiet (s : Select) : Out := (s, None).

Definition pick (index : Z) (s : Select) : Out :=
  match at_index options index with
  | Some o =>
      if so_disabled o then quiet s
      else (closeMenu true s, if so_value o ==? sp_value p then None else Some (so_value o))
  | None => quiet s
  end.

Definition selectedOrFirst : Z :=
  if match at_index options selectedIndex with Some o => enabled o | None => false end then selectedIndex
  else findIndex enabled options.

(** [typeAhead]: the buffer with the key, and the row found. *)
Definition typeAhead (char : string) (list : list Row) (from : Z) (s : Select) : Select * Z :=
  let s := set_buffer (se_buffer s ++ [lower char]) s in
  (s, findTypeahead list from (se_buffer s)).

Definition moveTo (pos : Z) (s : Select) : Select :=
  match at_index (rows s) pos with Some r => set_active (row_index r) s | None => s end.

Definition pickActive (s : Select) : Out :=
  if 0 <=? activePos s then pick (se_active s) s else quiet (closeMenu true s).

Definition onTriggerClick (s : Select) : Out :=
  quiet (if se_open s then closeMenu true s else openMenu selectedOrFirst "" s).

Record Keystroke := {
  ks_key : string;
  ks_ctrl : bool;
  ks_meta : bool;
  ks_alt : bool;
  ks_composing : bool;
}.
Definition plain_key (k : string) : Keystroke := Build_Keystroke k false false false false.

Definition isTypeaheadKey (e : Keystroke) : bool :=
  (utf16_length (ks_key e) =? 1) && (ks_key e !=? " ") && negb (ks_ctrl e) && negb (ks_meta e) && negb (ks_alt e).

(** A key on the trigger of a closed menu. *)
Definition key_closed (e : Keystroke) (s : Select) : Out :=
  let key := ks_key e in
  if includes ["ArrowDown"; "ArrowUp"; "Enter"; " "] key then quiet (openMenu selectedOrFirst "" s)
  else if key ==? "Home" then quiet (openMenu (findIndex enabled options) "" s)
  else if key ==? "End" then quiet (openMenu (findLastIndex enabled options) "" s)
  else if isTypeaheadKey e then
    if searchOn p then
      let seeded := filterRows options (List.map haystackOf options) key in
      quiet (openMenu (initialActive (fl_rows seeded) key selectedIndex) key s)
    else
      let list := allRows options in
      let '(s, pos) := typeAhead key list selectedIndex s in
      quiet (openMenu (match at_index list pos with Some r => row_index r | None => selectedOrFirst end) "" s)
  else quiet s.

(** The keys the trigger and the search box share. *)
Definition key_move (e : Keystroke) (s : Select) : option Out :=
  let key := ks_key e in
  if key ==? "ArrowDown" then Some (quiet (moveTo (stepEnabled (rows s) (activePos s) 1) s))
  else if key ==? "ArrowUp" then
    Some (if ks_alt e then pickActive s else quiet (moveTo (stepEnabled (rows s) (activePos s) (-1)) s))
  else if key ==? "PageDown" then Some (quiet (moveTo (stepEnabled (rows s) (activePos s) PAGE_STEP) s))
  else if key ==? "PageUp" then Some (quiet (moveTo (stepEnabled (rows s) (activePos s) (- PAGE_STEP)) s))
  else None.

(** A key on the trigger of an open menu without a search box. *)
Definition key_list (e : Keystroke) (s : Select) : Out :=
  let key := ks_key e in
  match key_move e s with
  | Some out => out
  | None =>
      if key ==? "Home" then quiet (moveTo (stepEnabled (rows s) (-1) 1) s)
      else if key ==? "End" then quiet (moveTo (stepEnabled (rows s) (-1) (-1)) s)
      else if key ==? "Enter" then pickActive s
      else if key ==? " " then
        match se_buffer s with
        | [] => pickActive s
        | _ => let '(s', pos) := typeAhead key (rows s) (activePos s) s in quiet (moveTo pos s')
        end
      else if key ==? "Escape" then quiet (closeMenu true s)
      else if key ==? "Tab" then quiet (closeMenu false s)
      else if isTypeaheadKey e then
        let '(s', pos) := typeAhead key (rows s) (activePos s) s in quiet (moveTo pos s')
      else quiet s
  end.

Definition onTriggerKeyDown (e : Keystroke) (s : Select) : Out :=
  if ks_composing e then quiet s
  else if negb (se_open s) then key_closed e s
  else if searchOn p then quiet (if ks_key e ==? "Escape" then closeMenu true s else s)
  else key_list e s.

Definition onSearchKeyDown (e : Keystroke) (s : Select) : Out :=
  if ks_composing e then quiet s
  else match key_move e s with
       | Some out => out
       | None =>
           if ks_key e ==? "Enter" then if 0 <=? activePos s then pick (se_active s) s else quiet s
           else if (ks_key e ==? "Escape") || (ks_key e ==? "Tab") then quiet (closeMenu true s)
           else quiet s
       end.

Definition onSearchChange (next : string) (s : Select) : Select :=
  set_query next (initialActive (fl_rows (filterRows options (haystacks s) next)) next selectedIndex) s.

(** ** Events *)

Inductive SelectEvent :=
  | ev_click
  | ev_key (e : Keystroke)
  | ev_search (text : string)
  | ev_hover (index : Z)
  | ev_row (index : Z)
  | ev_idle
  | ev_outside
  | ev_hidden
  | ev_focus.

Definition shown_row (s : Select) (index : Z) : option Row := find (λ r, row_index r =? index) (rows s).

(** What happens with these props; [None]: it cannot happen.  [ev_idle] is the
    timer of the type-ahead, [ev_outside] a press or the focus elsewhere,
    [ev_hidden] the trigger scrolled out of sight. *)
Definition select_step (s : Select) (e : SelectEvent) : option Out :=
  match e with
  | ev_click => if sp_disabled p then None else Some (onTriggerClick s)
  | ev_key k =>
      match se_focus s with
      | on_trigger => if sp_disabled p then None else Some (onTriggerKeyDown k s)
      | in_search => if se_open s then Some (onSearchKeyDown k s) else None
      | away => None
      end
  | ev_search text => if se_open s && searchOn p then Some (quiet (onSearchChange text s)) else None
  | ev_hover index =>
      match shown_row s index with
      | Some r => if row_enabled r && negb (index =? se_active s) then Some (quiet (set_active index s)) else None
      | None => None
      end
  | ev_row index =>
      match shown_row s index with
      | Some r => if row_enabled r then Some (pick index s) else None
      | None => None
      end
  | ev_idle => Some (quiet (set_buffer [] s))
  | ev_outside => Some (quiet (set_focus away (if se_open s then closeMenu false s else s)))
  | ev_hidden => if se_open s then Some (quiet (closeMenu (se_focus s ==? in_search) s)) else None
  | ev_focus => if sp_disabled p then None else Some (quiet (set_focus on_trigger s))
  end.
End Component.

(** New props: a trigger disabled while its menu is open closes it; a search
    box that comes takes the focus, and one that goes loses it. *)
Definition set_props (p p' : SelectProps) (s : Select) : Select :=
  let open := se_open s && negb (sp_disabled p' && negb (sp_disabled p)) in
  let focus :=
    if open && searchOn p' && negb (searchOn p) then in_search
    else if (se_focus s ==? in_search) && negb (open && searchOn p') then away
    else se_focus s in
  Build_Select open (se_query s) (se_active s) (se_buffer s) focus.

Inductive SelectInput := user (e : SelectEvent) | props (p : SelectProps).

(** A run: the props, the state, and what was handed to [onChange] with the
    props and the state it was handed over in. *)
Definition Log : Type := list (SelectProps * Select * string).
Fixpoint select_run (p : SelectProps) (s : Select) (log : Log) (inputs : list SelectInput) : option (SelectProps * Select * Log) :=
  match inputs with
  | [] => Some (p, s, log)
  | props p' :: inputs => select_run p' (set_props p p' s) log inputs
  | user e :: inputs =>
      match select_step p s e with
      | Some (s', out) =>
          select_run p s' (log ++ match out with Some v => [(p, s, v)] | None => [] end) inputs
      | None => None
      end
  end.

(** ** The place of the menu *)

(** Lengths are in pixels, in units the browser adds without rounding. *)
Record Rect := {
  r_left : Q;
  r_top : Q;
  r_right : Q;
  r_bottom : Q;
}.
Definition MENU_GAP : Q := 4.
Definition VIEWPORT_MARGIN : Q := 8.
Definition MENU_MAX_HEIGHT : Q := 320.
Definition MENU_MAX_WIDTH : Q := 420.
Definition MENU_MIN_HEIGHT : Q := 96.

Definition Q_lt (a b : Q) : bool := negb (Qle_bool b a).

(** [minW] and [maxW] *)
Definition menu_widths (vw : Q) (rect : Rect) (minWidth : option Q) : Q * Q :=
  let room := Qmax 0 (vw - 2 * VIEWPORT_MARGIN)%Q in
  let minW := Qmin (Qmax (r_right rect - r_left rect)%Q (default 0%Q minWidth)) room in
  (minW, Qmin (Qmax minW MENU_MAX_WIDTH) room).

(** [up] and [maxH] for the height the menu would like. *)
Definition menu_height (vh : Q) (rect : Rect) (natural : Q) : bool * Q :=
  let wanted := Qmin natural MENU_MAX_HEIGHT in
  let below := (vh - r_bottom rect - MENU_GAP - VIEWPORT_MARGIN)%Q in
  let above := (r_top rect - MENU_GAP - VIEWPORT_MARGIN)%Q in
  let up := Q_lt below wanted && Q_lt below above in
  (up, Qmax (Qmin wanted (if up then above else below)) (Qmin wanted MENU_MIN_HEIGHT)).

(** [left] and [top] of a menu of size [w] by [h]. *)
Definition menu_place (vw vh : Q) (rect : Rect) (up align_end : bool) (w h : Q) : Q * Q :=
  (Qmax VIEWPORT_MARGIN (Qmin (if align_end then r_right rect - w else r_left rect)%Q (vw - VIEWPORT_MARGIN - w)%Q),
   Qmax VIEWPORT_MARGIN (Qmin (if up then r_top rect - MENU_GAP - h else r_bottom rect + MENU_GAP)%Q (vh - VIEWPORT_MARGIN - h)%Q)).

(** [isAnchorVisible]: the trigger shows in the viewport and in every
    ancestor that clips it. *)
Definition isAnchorVisible (vw vh : Q) (r : Rect) (clippers : list Rect) : bool :=
  if Qeq_bool (r_right r - r_left r) 0 && Qeq_bool (r_bottom r - r_top r) 0 then false
  else if Qle_bool (r_bottom r) 0 || Qle_bool vh (r_top r) || Qle_bool (r_right r) 0 || Qle_bool vw (r_left r) then false
  else forallb (λ b, Q_lt (r_top b) (r_bottom r) && Q_lt (r_top r) (r_bottom b)
                     && Q_lt (r_left b) (r_right r) && Q_lt (r_left r) (r_right b)) clippers.

Inductive ScrollIntent := center | nearest | scroll_top.

(** [revealRow]: where the list scrolls to, from [scrollTop], for a row from
    [top] to [bottom] (its group's header included) in a view this high. *)
Definition revealRow (scrollTop view : Q) (row : option (Q * Q)) (intent : ScrollIntent) : Q :=
  match row, intent with
  | None, _ | _, scroll_top => 0
  | Some (top, bottom), center => Qmax 0 (top - (view - (bottom - top)) / 2)
  | Some (top, bottom), nearest =>
      if Q_lt top scrollTop then Qmax 0 (top - 4)
      else if Q_lt (scrollTop + view) bottom then bottom - view + 4
      else scrollTop
  end%Q.
