(* ===== verification/SelectOk.v ===== *)
(** * The dropdown: what it promises

    Moving, finding and filtering against what they mean; what is handed to
    [onChange]; where the highlight is; and that the keyboard reaches every
    option. *)
From Stdlib Require Import QArith Qminmax Lqa.
From S2P Require Import Prelude JsString Phone SipText Select.

Local Close Scope Q_scope.
Local Open Scope string_scope.
Local Open Scope Z_scope.
Local Open Scope list_scope.

(** ** Positions *)

Lemma at_index_Some {A} (l : list A) i x : at_index l i = Some x → 0 ≤ i < Z.of_nat (length l) ∧ l !! Z.to_nat i = Some x.
Proof.
  unfold at_index. destruct (Z.leb_spec 0 i); [|done]. intros Hl. split; [|done].
  apply lookup_lt_Some in Hl. lia.
Qed.

Lemma at_index_nat {A} (l : list A) (i : nat) : at_index l (Z.of_nat i) = l !! i.
Proof. unfold at_index. destruct (Z.leb_spec 0 (Z.of_nat i)); [|lia]. by rewrite Nat2Z.id. Qed.

Lemma at_index_None {A} (l : list A) i : at_index l i = None ↔ i < 0 ∨ Z.of_nat (length l) ≤ i.
Proof.
  unfold at_index. destruct (Z.leb_spec 0 i); [|split; [by left|done]]. rewrite lookup_ge_None. lia.
Qed.

Lemma findIndex_range {A} (p : A → bool) l : -1 ≤ findIndex p l < Z.of_nat (length l).
Proof.
  induction l as [|x l IH]; [simpl; lia|]. cbn [findIndex length]. destruct (p x); [lia|].
  destruct (Z.ltb_spec (findIndex p l) 0); lia.
Qed.

Lemma findIndex_None {A} (p : A → bool) l : findIndex p l < 0 ↔ ∀ x, x ∈ l → p x = false.
Proof.
  induction l as [|x l IH]; [split; [by intros _ x Hx%not_elem_of_nil|simpl; lia]|]. cbn [findIndex].
  destruct (p x) eqn:E.
  - split; [lia|]. intros H. rewrite (H x) in E; [done|by left].
  - split.
    + intros Hl. assert (findIndex p l < 0) as H by (destruct (Z.ltb_spec (findIndex p l) 0); lia).
      rewrite IH in H. intros y [->|Hy]%elem_of_cons; auto.
    + intros H. assert (findIndex p l < 0) as Hl by (apply IH; intros y Hy; apply H; by right).
      destruct (Z.ltb_spec (findIndex p l) 0); lia.
Qed.

Lemma findIndex_Some {A} (p : A → bool) l : 0 ≤ findIndex p l → ∃ x, at_index l (findIndex p l) = Some x ∧ p x = true.
Proof.
  induction l as [|x l IH]; [simpl; lia|]. cbn [findIndex]. destruct (p x) eqn:E; [by exists x|].
  destruct (Z.ltb_spec (findIndex p l) 0); [lia|]. intros _. destruct IH as (y & Hy & Ey); [done|]. exists y. split; [|done].
  apply at_index_Some in Hy as [Hr Hy]. replace (findIndex p l + 1) with (Z.of_nat (S (Z.to_nat (findIndex p l)))) by lia.
  by rewrite at_index_nat.
Qed.

(** ** Rows *)

Lemma allRows_at options i : at_index (allRows options) i = (λ o, Build_Row o i) <$> at_index options i.
Proof.
  destruct (Z.leb_spec 0 i).
  - replace i with (Z.of_nat (Z.to_nat i)) by lia. rewrite !at_index_nat. unfold allRows. rewrite list_lookup_imap.
    by destruct (options !! _).
  - destruct (at_index_None options i) as [_ ->]; [|by left]. by apply at_index_None; left.
Qed.

Lemma allRows_index options i r : at_index (allRows options) i = Some r → row_index r = i ∧ at_index options i = Some (row_option r).
Proof. rewrite allRows_at. intros (o & Ho & ->)%fmap_Some. done. Qed.

Lemma allRows_length options : length (allRows options) = length options.
Proof. apply length_imap. Qed.

(** A row shows the option at its index. *)
Definition row_of (options : list SelectOption) (r : Row) : Prop := at_index options (row_index r) = Some (row_option r).

Lemma allRows_of options r : r ∈ allRows options ↔ row_of options r.
Proof.
  unfold row_of. split.
  - intros (i & Hi)%list_elem_of_lookup. unfold allRows in Hi. rewrite list_lookup_imap in Hi.
    destruct (options !! i) as [o|] eqn:E; [|done]. injection Hi as <-. simpl. by rewrite at_index_nat.
  - intros Hr. apply (list_elem_of_lookup_2 _ (Z.to_nat (row_index r))). pose proof (at_index_Some _ _ _ Hr) as [Hi _].
    rewrite <- at_index_nat, Z2Nat.id by lia. rewrite allRows_at, Hr. by destruct r.
Qed.

(** What is searched for. *)
Definition query_of (query : string) : string := lower (trim query).
Definition row_matches (haystacks : list string) (query : string) (r : Row) : bool :=
  contains (query_of query) (haystack_at haystacks r).

Lemma filterRows_elem options hs query r :
  r ∈ fl_rows (filterRows options hs query) ↔
  row_of options r ∧ (query_of query = "" ∨ so_pinned (row_option r) = true ∨ row_matches hs query r = true).
Proof.
  unfold filterRows, row_matches. fold (query_of query). case_bool_decide as E; cbn [fl_rows].
  - rewrite allRows_of. tauto.
  - rewrite elem_of_app, !elem_of_lfilter, allRows_of, andb_true_iff, negb_true_iff.
    destruct (so_pinned (row_option r)); naive_solver.
Qed.

Lemma filterRows_of options hs query r : r ∈ fl_rows (filterRows options hs query) → row_of options r.
Proof. by intros [? _]%filterRows_elem. Qed.

(** ** Moving *)

(** The positions passed from [pos] in direction [dir]. *)
Fixpoint path {A} (fuel : nat) (l : list A) (dir pos : Z) : list Z :=
  match fuel with
  | O => []
  | S fuel => match at_index l (pos + dir) with Some _ => (pos + dir) :: path fuel l dir (pos + dir) | None => [] end
  end.

Lemma step_loop_spec fuel rows dir remaining pos last :
  0 ≤ remaining →
  step_loop fuel rows dir remaining pos last =
  List.last (take (Z.to_nat remaining) (List.filter (enabled_at rows) (path fuel rows dir pos))) last.
Proof.
  revert remaining pos last. induction fuel as [|fuel IH]; intros remaining pos last Hr; [by destruct (Z.to_nat remaining)|].
  cbn [step_loop path]. destruct (Z.ltb_spec 0 remaining).
  - destruct (at_index rows (pos + dir)) as [r|] eqn:E; [|by destruct (Z.to_nat remaining)]. cbn [List.filter].
    assert (enabled_at rows (pos + dir) = row_enabled r) as Ee by (unfold enabled_at; by rewrite E). rewrite Ee.
    destruct (row_enabled r).
    + rewrite IH by lia. replace (Z.to_nat remaining) with (S (Z.to_nat (remaining - 1))) by lia. cbn [take].
      destruct (take _ _) as [|x l] eqn:Et; [done|]. change (List.last (pos + dir :: x :: l) last) with (List.last (x :: l) last).
      clear. revert x. induction l as [|y l IHl]; intros x; [done|]. apply (IHl y).
    + apply IH. lia.
  - replace (Z.to_nat remaining) with 0%nat by lia. done.
Qed.

(** The enabled positions a move goes over, nearest first. *)
Definition ahead (rows : list Row) (from delta : Z) : list Z :=
  let n := Z.of_nat (length rows) in
  List.filter (enabled_at rows)
    (if 0 <? delta then seqZ (from + 1) (n - from - 1)
     else List.rev (seqZ 0 (if from <? 0 then n else from))).

Lemma path_up {A} fuel (l : list A) pos :
  -1 ≤ pos → Z.of_nat (length l) - pos - 1 ≤ Z.of_nat fuel → path fuel l 1 pos = seqZ (pos + 1) (Z.of_nat (length l) - pos - 1).
Proof.
  revert pos. induction fuel as [|fuel IH]; intros pos Hp Hf; [by rewrite seqZ_nil by lia|]. cbn [path].
  destruct (at_index l (pos + 1)) eqn:E.
  - apply at_index_Some in E as [Hr _]. rewrite IH by lia. rewrite (seqZ_cons (pos + 1)) by lia. f_equal. f_equal; lia.
  - apply at_index_None in E. by rewrite seqZ_nil by lia.
Qed.

Lemma path_down {A} fuel (l : list A) pos :
  0 ≤ pos ≤ Z.of_nat (length l) → pos ≤ Z.of_nat fuel → path fuel l (-1) pos = List.rev (seqZ 0 pos).
Proof.
  revert pos. induction fuel as [|fuel IH]; intros pos Hp Hf; [by rewrite seqZ_nil by lia|]. cbn [path].
  destruct (at_index l (pos + -1)) eqn:E.
  - apply at_index_Some in E as [Hr _]. rewrite IH by lia. assert (seqZ 0 pos = seqZ 0 (pos + -1 + 1)) as -> by (assert (pos + -1 + 1 = pos) as -> by lia; done).
    rewrite (seqZ_app 0 (pos + -1) 1), rev_app_distr by lia. done.
  - apply at_index_None in E. by rewrite seqZ_nil by lia.
Qed.

(** A move goes to the last of the enabled rows it may pass, and stays when
    there is none. *)
Lemma stepEnabled_spec rows from delta :
  delta ≠ 0 → -1 ≤ from < Z.of_nat (length rows) →
  stepEnabled rows from delta =
  List.last (take (Z.to_nat (Z.abs delta)) (ahead rows from delta)) (if enabled_at rows from then from else -1).
Proof.
  intros Hd Hf. unfold stepEnabled, ahead. rewrite step_loop_spec by lia. f_equal. f_equal. f_equal.
  destruct (Z.ltb_spec 0 delta); cbn [Z.ltb Z.compare].
  - replace (if from <? 0 then -1 else from) with from by (destruct (Z.ltb_spec from 0); lia). apply path_up; lia.
  - destruct (Z.ltb_spec from 0); apply path_down; lia.
Qed.

Lemma last_In {A} (l : list A) d : List.last l d = d ∨ List.last l d ∈ l.
Proof.
  induction l as [|x l IH]; [by left|]. destruct l as [|y l]; [right; by left|].
  change (List.last (x :: y :: l) d) with (List.last (y :: l) d). destruct IH as [->|Hin]; [by left|right; by right].
Qed.

Lemma stepEnabled_enabled rows from delta :
  -1 ≤ from < Z.of_nat (length rows) → delta ≠ 0 →
  stepEnabled rows from delta = -1 ∨ enabled_at rows (stepEnabled rows from delta) = true.
Proof.
  intros Hf Hd. rewrite stepEnabled_spec by done.
  destruct (last_In (take (Z.to_nat (Z.abs delta)) (ahead rows from delta)) (if enabled_at rows from then from else -1)) as [->|Hin].
  - destruct (enabled_at rows from) eqn:E; [by right|by left].
  - right. apply list_elem_of_lookup in Hin as (i & Hi). apply lookup_take_Some in Hi as [Hi _].
    apply list_elem_of_lookup_2 in Hi. unfold ahead in Hi. by apply elem_of_lfilter in Hi as [_ ?].
Qed.

(** ** Type-ahead *)

(** The positions in the order they are looked at. *)
Definition turns (n : nat) (start : Z) : list Z := List.map (λ k, (start + Z.of_nat k) mod Z.of_nat n) (seq 0 n).

(** The row a buffer asks for. *)
Definition asks_for (rows : list Row) (buffer : list string) (pos : Z) : bool :=
  let needle := if forallb (λ c, c ==? hd "" buffer) buffer then hd "" buffer else join "" buffer in
  match at_index rows pos with Some r => row_enabled r && startsWithNeedle (row_option r) needle | None => false end.

(** Type-ahead finds the first enabled row that starts with what was typed,
    from the row after the current one round for a repeated letter, and from
    the current one for a word. *)
Lemma findTypeahead_spec rows from buffer :
  -1 ≤ from → buffer ≠ [] →
  findTypeahead rows from buffer =
  default (-1) (find (asks_for rows buffer)
    (turns (length rows) (if forallb (λ c, c ==? hd "" buffer) buffer then from + 1 else Z.max from 0))).
Proof.
  intros Hf Hb. unfold findTypeahead. destruct buffer as [|c buffer]; [done|]. cbn [hd]. cbn zeta. f_equal.
  assert (∀ start, 0 ≤ start →
    List.map (λ step, Z.rem (Z.rem (start + Z.of_nat step) (Z.of_nat (length rows)) + Z.of_nat (length rows)) (Z.of_nat (length rows)))
      (seq 0 (length rows)) = turns (length rows) start) as Ht.
  { intros start Hs. unfold turns. apply map_ext_in. intros k Hk%in_seq. set (n := Z.of_nat (length rows)).
    rewrite (Z.rem_mod_nonneg (start + Z.of_nat k) n) by lia.
    pose proof (Z.mod_pos_bound (start + Z.of_nat k) n ltac:(lia)) as Hm.
    rewrite Z.rem_mod_nonneg by lia. rewrite <- Z.add_mod_idemp_r, Z.mod_same, Z.add_0_r, Z.mod_mod by lia. done. }
  unfold asks_for. cbn [hd]. destruct (forallb _ _); rewrite Ht by lia; done.
Qed.

Lemma turns_all n start i : 0 ≤ i < Z.of_nat n → i ∈ turns n start.
Proof.
  intros Hi. unfold turns. apply elem_of_lmap. exists (Z.to_nat ((i - start) mod Z.of_nat n)).
  pose proof (Z.mod_pos_bound (i - start) (Z.of_nat n) ltac:(lia)) as Hm. split.
  - rewrite Z2Nat.id by lia. rewrite Z.add_mod_idemp_r by lia. replace (start + (i - start)) with i by lia.
    symmetry. apply Z.mod_small. lia.
  - apply list_elem_of_In, in_seq. lia.
Qed.

(** It finds nothing only when nothing matches. *)
Lemma findTypeahead_none rows from buffer :
  -1 ≤ from → buffer ≠ [] → (findTypeahead rows from buffer < 0 ↔ ∀ i, asks_for rows buffer i = false).
Proof.
  intros Hf Hb. rewrite findTypeahead_spec by done. set (start := if forallb _ _ then _ else _).
  destruct (find _ _) as [i|] eqn:E; cbn [default from_option].
  - apply find_some_iff in E as [Hi Ei]. unfold id. split.
    + intros Hl. exfalso. unfold asks_for in Ei. destruct (at_index rows i) eqn:Ea; [|done]. apply at_index_Some in Ea as [? _]. lia.
    + intros H. by rewrite H in Ei.
  - split; [|done]. intros _ i. destruct (asks_for rows buffer i) eqn:Ei; [|done].
    assert (0 ≤ i < Z.of_nat (length rows)) as Hi.
    { unfold asks_for in Ei. destruct (at_index rows i) eqn:Ea; [|done]. by apply at_index_Some in Ea as [? _]. }
    rewrite (proj1 (find_none_iff _ _) E i) in Ei; [done|]. by apply turns_all.
Qed.

Lemma findTypeahead_enabled rows from buffer :
  0 ≤ findTypeahead rows from buffer → enabled_at rows (findTypeahead rows from buffer) = true.
Proof.
  unfold findTypeahead. destruct buffer as [|c buffer]; [simpl; lia|]. cbn zeta.
  destruct (find _ _) as [i|] eqn:E; cbn [default from_option]; [|lia]. intros _. apply find_some_iff in E as [_ E].
  unfold enabled_at, id. destruct (at_index rows i); [|done]. by apply andb_true_iff in E as [? _].
Qed.

(** ** What is handed over *)

Lemma rows_of p s r : r ∈ rows p s → se_open s = true ∧ row_of (sp_options p) r.
Proof.
  unfold rows, filtered. destruct (se_open s); [|by intros Hr%not_elem_of_nil]. intros Hr. split; [done|].
  by eapply filterRows_of.
Qed.

Lemma activePos_row p s : 0 ≤ activePos p s → ∃ r, r ∈ rows p s ∧ row_index r = se_active s.
Proof.
  intros H. destruct (findIndex_Some _ _ H) as (r & Hr & E). exists r. split; [|by apply Z.eqb_eq].
  apply at_index_Some in Hr as [_ Hr]. by eapply list_elem_of_lookup_2.
Qed.

(** A value handed to [onChange]: of an enabled row on show, and another than
    the one selected. *)
Definition picked_ok (e : SelectProps * Select * string) : Prop :=
  let '(p, s, v) := e in
  se_open s = true ∧ v ≠ sp_value p ∧ ∃ r, r ∈ rows p s ∧ row_enabled r = true ∧ so_value (row_option r) = v.

Lemma pick_out p index s s' v :
  pick p index s = (s', Some v) → s' = closeMenu true s ∧ v ≠ sp_value p ∧
  ∃ o, at_index (sp_options p) index = Some o ∧ enabled o = true ∧ so_value o = v.
Proof.
  unfold pick. destruct (at_index _ index) as [o|]; [|done]. destruct (so_disabled o) eqn:Ed; [done|].
  case_bool_decide as Ev; [done|]. intros [= <- <-]. split_and!; [done..|]. exists o. unfold enabled. by rewrite Ed.
Qed.

Lemma pick_row p r s s' v : r ∈ rows p s → pick p (row_index r) s = (s', Some v) → picked_ok (p, s, v) ∧ s' = closeMenu true s.
Proof.
  intros Hr (-> & Hv & o & Ho & He & Ev)%pick_out. destruct (rows_of p s r Hr) as [Hopen Hro]. split; [|done].
  split_and!; [done..|]. exists r. unfold row_of in Hro. rewrite Hro in Ho. injection Ho as <-. done.
Qed.

Lemma pickActive_out p s s' v : pickActive p s = (s', Some v) → picked_ok (p, s, v) ∧ s' = closeMenu true s.
Proof.
  unfold pickActive. destruct (Z.leb_spec 0 (activePos p s)); [|done].
  destruct (activePos_row p s) as (r & Hr & <-); [done|]. by apply pick_row.
Qed.

Lemma key_move_out p e s s' v : key_move p e s = Some (s', Some v) → picked_ok (p, s, v) ∧ s' = closeMenu true s.
Proof.
  unfold key_move. repeat (case_match; try done). intros [= H']. by apply pickActive_out.
Qed.

Lemma key_list_out p e s s' v : key_list p e s = (s', Some v) → picked_ok (p, s, v) ∧ s' = closeMenu true s.
Proof.
  unfold key_list. destruct (key_move p e s) as [out|] eqn:E; [intros ->; by eapply key_move_out|].
  repeat (case_match; try done); apply pickActive_out.
Qed.

Lemma onSearchKeyDown_out p e s s' v : onSearchKeyDown p e s = (s', Some v) → picked_ok (p, s, v) ∧ s' = closeMenu true s.
Proof.
  unfold onSearchKeyDown. destruct (ks_composing e); [done|].
  destruct (key_move p e s) as [out|] eqn:E; [intros ->; by eapply key_move_out|].
  destruct (ks_key e ==? "Enter"); [|by destruct (_ || _)]. destruct (Z.leb_spec 0 (activePos p s)); [|done].
  destruct (activePos_row p s) as (r & Hr & <-); [done|]. by apply pick_row.
Qed.

Lemma key_closed_out p e s : (key_closed p e s).2 = None.
Proof. unfold key_closed. repeat (case_match; try done). Qed.

Lemma select_step_out p s e s' v :
  select_step p s e = Some (s', Some v) → picked_ok (p, s, v) ∧ s' = closeMenu true s.
Proof.
  destruct e; cbn [select_step]; try done.
  - by destruct (sp_disabled p).
  - destruct (se_focus s); [destruct (sp_disabled p); [done|]|destruct (se_open s) eqn:Eo; [|done]|done].
    + intros [= H]. unfold onTriggerKeyDown in H. destruct (ks_composing e); [done|].
      destruct (se_open s) eqn:Eo; cbn [negb] in H; [|pose proof (key_closed_out p e s) as Hc; by rewrite H in Hc].
      destruct (searchOn p); [done|]. by eapply key_list_out.
    + intros [= H]. by eapply onSearchKeyDown_out.
  - by destruct (_ && _).
  - repeat (case_match; try done).
  - destruct (shown_row p s index) as [r|] eqn:Er; [|done]. destruct (row_enabled r); [|done]. intros [= H].
    apply find_some_iff in Er as [Hr <-%Z.eqb_eq]. by eapply pick_row.
  - by destruct (se_open s).
  - by destruct (sp_disabled p).
Qed.

(** C22 Whatever keys, presses, searches and new props a dropdown sees, a
    value is handed to [onChange] only for an enabled row that is on show in
    the open menu, and only when it is not the value already selected. *)
Theorem select_picks inputs p p' s' log :
  select_run p initial_select [] inputs = Some (p', s', log) → Forall picked_ok log.
Proof.
  assert (∀ inputs p s log, Forall picked_ok log → ∀ p' s' log', select_run p s log inputs = Some (p', s', log') → Forall picked_ok log') as H.
  { clear. induction inputs as [|[e|q] inputs IH]; intros p s log Hl p' s' log'; simpl; [by intros [= _ _ <-]| |by apply IH].
    destruct (select_step p s e) as [[t out]|] eqn:E; [|done]. apply IH. apply Forall_app. split; [done|].
    destruct out as [v|]; [|done]. constructor; [|done]. by apply (select_step_out p s e t v). }
  by apply H.
Qed.

(** ** The highlight *)

(** An enabled row on show is highlighted, or there is none. *)
Definition highlighted (rows : list Row) (active : Z) : Prop :=
  (∃ r, r ∈ rows ∧ row_index r = active ∧ row_enabled r = true)
  ∨ (active = -1 ∧ ∀ r, r ∈ rows → row_enabled r = false).
Definition highlight_ok (p : SelectProps) (s : Select) : Prop := se_open s = true → highlighted (rows p s) (se_active s).

Lemma first_enabled rows : highlighted rows (index_or_none (find row_enabled rows)).
Proof.
  destruct (find row_enabled rows) as [r|] eqn:E; simpl.
  - apply find_some_iff in E as [Hr E]. left. by exists r.
  - right. split; [done|]. by apply find_none_iff.
Qed.

Lemma initialActive_ok rows query i : highlighted rows (initialActive rows query i).
Proof.
  unfold initialActive. destruct (trim query !=? "").
  - destruct (find _ rows) as [r|] eqn:E; [|apply first_enabled]. apply find_some_iff in E as [Hr E]. bool_hyps.
    left. by exists r.
  - destruct (find _ rows) as [r|] eqn:E; [|apply first_enabled]. apply find_some_iff in E as [Hr E]. bool_hyps.
    left. by exists r.
Qed.

(** An index among all rows. *)
Lemma all_highlighted options i :
  (0 ≤ i → ∃ o, at_index options i = Some o ∧ enabled o = true) → -1 ≤ i →
  (i < 0 → ∀ o, o ∈ options → enabled o = false) → highlighted (allRows options) i.
Proof.
  intros Hs Hi Hn. destruct (Z.leb_spec 0 i) as [H0|H0].
  - destruct (Hs H0) as (o & Ho & He). left. exists (Build_Row o i). split_and!; [by apply allRows_of|done..].
  - right. split; [lia|]. intros r Hr%allRows_of. apply Hn; [done|]. apply at_index_Some in Hr as [_ Hr].
    by eapply list_elem_of_lookup_2.
Qed.

Lemma first_option options : highlighted (allRows options) (findIndex enabled options).
Proof.
  apply all_highlighted; [apply findIndex_Some|apply findIndex_range|]. intros H. by apply findIndex_None.
Qed.

Lemma findLastIndex_facts {A} (f : A → bool) l :
  -1 ≤ findLastIndex f l ∧ (findLastIndex f l < 0 → ∀ x, x ∈ l → f x = false)
  ∧ (0 ≤ findLastIndex f l → ∃ x, at_index l (findLastIndex f l) = Some x ∧ f x = true).
Proof.
  induction l as [|x l (Hr & Hn & Hs)]; [simpl; split_and!; [lia|by intros _ x Hx%not_elem_of_nil|lia]|]. cbn [findLastIndex].
  destruct (Z.leb_spec 0 (findLastIndex f l)) as [H0|H0].
  - split_and!; [lia|lia|]. intros _. destruct (Hs H0) as (y & Hy & Ey). exists y. split; [|done].
    apply at_index_Some in Hy as [Hr' Hy].
    replace (findLastIndex f l + 1) with (Z.of_nat (S (Z.to_nat (findLastIndex f l)))) by lia. by rewrite at_index_nat.
  - destruct (f x) eqn:E.
    + split_and!; [lia|lia|]. intros _. by exists x.
    + split_and!; [lia| |lia]. intros _ y [->|Hy]%elem_of_cons; [done|by apply Hn].
Qed.

Lemma selectedOrFirst_ok p : highlighted (allRows (sp_options p)) (selectedOrFirst p).
Proof.
  unfold selectedOrFirst. destruct (at_index _ (selectedIndex p)) as [o|] eqn:E; [|apply first_option].
  destruct (enabled o) eqn:Ee; [|apply first_option]. left. exists (Build_Row o (selectedIndex p)).
  split_and!; [by apply allRows_of|done..].
Qed.

Section Steps.
Context (p : SelectProps).

Lemma rows_open s : se_open s = true →
  rows p s = fl_rows (filterRows (sp_options p) (haystacks p s) (if searchOn p then se_query s else "")).
Proof. unfold rows, filtered. by intros ->. Qed.

Lemma rows_unsearched hs : fl_rows (filterRows (sp_options p) hs "") = allRows (sp_options p).
Proof. done. Qed.

Lemma openMenu_ok active seed s :
  highlighted (fl_rows (filterRows (sp_options p) (if searchOn p then List.map haystackOf (sp_options p) else [])
                 (if searchOn p then seed else ""))) active →
  highlight_ok p (openMenu p active seed s).
Proof. intros H _. rewrite rows_open by done. unfold haystacks. cbn [openMenu se_open se_query se_active andb] in *. done. Qed.

Lemma openMenu_all active s : highlighted (allRows (sp_options p)) active → highlight_ok p (openMenu p active "" s).
Proof. intros H. apply openMenu_ok. by destruct (searchOn p). Qed.

Lemma closed_ok f s : highlight_ok p (closeMenu f s).
Proof. by intros ?. Qed.

Lemma moveTo_ok pos s :
  (pos = -1 ∨ enabled_at (rows p s) pos = true) → highlight_ok p s → highlight_ok p (moveTo p pos s).
Proof.
  intros Hp Hs Ho. unfold moveTo in *. destruct (at_index (rows p s) pos) as [r|] eqn:E; [|by apply Hs].
  destruct Hp as [->|Hp]; [done|]. unfold enabled_at in Hp. rewrite E in Hp. left. exists r.
  split_and!; [|done..]. apply at_index_Some in E as [_ E]. by eapply list_elem_of_lookup_2.
Qed.

Lemma activePos_range s : -1 ≤ activePos p s < Z.of_nat (length (rows p s)).
Proof. apply findIndex_range. Qed.

Lemma pick_highlight index s : highlight_ok p s → highlight_ok p (pick p index s).1.
Proof. intros Hs. unfold pick. repeat (case_match; try done). Qed.

Lemma pickActive_ok s : highlight_ok p s → highlight_ok p (pickActive p s).1.
Proof. intros Hs. unfold pickActive. case_match; [by apply pick_highlight|done]. Qed.

Lemma typed_ok key s : highlight_ok p s →
  let '(s', pos) := typeAhead key (rows p s) (activePos p s) s in highlight_ok p (moveTo p pos s').
Proof.
  intros Hs. unfold typeAhead. apply moveTo_ok; [|done]. change (rows p (set_buffer _ s)) with (rows p s).
  set (b := se_buffer _). destruct (Z.leb_spec 0 (findTypeahead (rows p s) (activePos p s) b)) as [H|H].
  - right. by apply findTypeahead_enabled.
  - left. unfold findTypeahead in *. destruct b as [|c b]; [done|]. cbn zeta in *.
    destruct (find _ _) as [i|] eqn:E; [|done]. cbn [default from_option] in *. exfalso.
    apply find_some_iff in E as [_ E]. unfold id in H. destruct (at_index (rows p s) i) eqn:Ea; [|done].
    apply at_index_Some in Ea as [? _]. lia.
Qed.

Lemma key_move_ok e s out : highlight_ok p s → key_move p e s = Some out → highlight_ok p out.1.
Proof.
  intros Hs. pose proof (activePos_range s) as Hr.
  assert (∀ delta, delta ≠ 0 → highlight_ok p (moveTo p (stepEnabled (rows p s) (activePos p s) delta) s)) as Hm.
  { intros delta Hd. apply moveTo_ok; [|done]. by apply stepEnabled_enabled. }
  unfold key_move. destruct (_ ==? "ArrowDown"); [intros [= <-]; by apply Hm|].
  destruct (_ ==? "ArrowUp"); [intros [= <-]; destruct (ks_alt e); [by apply pickActive_ok|by apply Hm]|].
  destruct (_ ==? "PageDown"); [intros [= <-]; by apply Hm|]. destruct (_ ==? "PageUp"); [intros [= <-]; by apply Hm|done].
Qed.

Lemma key_list_ok e s : highlight_ok p s → highlight_ok p (key_list p e s).1.
Proof.
  intros Hs. unfold key_list. destruct (key_move p e s) as [out|] eqn:E; [by eapply key_move_ok|].
  assert (∀ delta, delta ≠ 0 → highlight_ok p (moveTo p (stepEnabled (rows p s) (-1) delta) s)) as Hm.
  { intros delta Hd. pose proof (activePos_range s). apply moveTo_ok; [|done]. apply stepEnabled_enabled; [lia|done]. }
  pose proof (typed_ok (ks_key e) s Hs) as Ht. destruct (typeAhead (ks_key e) (rows p s) (activePos p s) s) as [s' pos] eqn:Et.
  destruct (_ ==? "Home"); [by apply Hm|]. destruct (_ ==? "End"); [by apply Hm|].
  destruct (_ ==? "Enter"); [by apply pickActive_ok|].
  destruct (ks_key e ==? " "); [destruct (se_buffer s); [by apply pickActive_ok|done]|].
  destruct (_ ==? "Escape"); [done|]. destruct (_ ==? "Tab"); [done|]. by destruct (isTypeaheadKey e).
Qed.

Lemma typed_closed_ok key s : searchOn p = false →
  let '(s', pos) := typeAhead key (allRows (sp_options p)) (selectedIndex p) s in
  highlight_ok p (openMenu p (match at_index (allRows (sp_options p)) pos with Some r => row_index r | None => selectedOrFirst p end) "" s').
Proof.
  intros _. unfold typeAhead. apply openMenu_all. set (pos := findTypeahead _ _ _).
  destruct (at_index (allRows (sp_options p)) pos) as [r|] eqn:E; [|apply selectedOrFirst_ok].
  left. exists r. pose proof (at_index_Some _ _ _ E) as [Hr Hl]. split_and!; [by eapply list_elem_of_lookup_2|done|].
  pose proof (findTypeahead_enabled _ _ _ (proj1 Hr)) as He. fold pos in He. unfold enabled_at in He. by rewrite E in He.
Qed.

Lemma key_closed_ok e s : highlight_ok p s → highlight_ok p (key_closed p e s).1.
Proof.
  intros Hs. unfold key_closed. destruct (includes _ _); [apply openMenu_all, selectedOrFirst_ok|].
  destruct (_ ==? "Home"); [apply openMenu_all, first_option|].
  destruct (_ ==? "End").
  { apply openMenu_all. destruct (findLastIndex_facts enabled (sp_options p)) as (Hr & Hn & Hi). by apply all_highlighted. }
  destruct (isTypeaheadKey e); [|done]. destruct (searchOn p) eqn:Eo.
  - apply openMenu_ok. rewrite Eo. apply initialActive_ok.
  - pose proof (typed_closed_ok (ks_key e) s Eo) as Ht. by destruct (typeAhead _ _ _ s).
Qed.

Lemma onSearchChange_ok text s : se_open s = true → searchOn p = true → highlight_ok p (onSearchChange p text s).
Proof.
  intros Ho Hs _. unfold onSearchChange. rewrite rows_open by done. cbn [set_query se_query se_active].
  unfold haystacks. cbn [set_query se_open]. rewrite Hs, Ho. apply initialActive_ok.
Qed.

Lemma select_step_ok s e s' out : highlight_ok p s → select_step p s e = Some (s', out) → highlight_ok p s'.
Proof.
  intros Hs. destruct e; cbn [select_step].
  - destruct (sp_disabled p); [done|]. intros [= <- _]. destruct (se_open s); [done|apply openMenu_all, selectedOrFirst_ok].
  - destruct (se_focus s); [destruct (sp_disabled p); [done|]|destruct (se_open s) eqn:Eo; [|done]|done].
    + intros [= H]. rewrite <- (f_equal fst H : _ = s'). unfold onTriggerKeyDown. destruct (ks_composing e); [done|].
      destruct (se_open s); cbn [negb]; [|by apply key_closed_ok]. destruct (searchOn p); [by destruct (_ ==? "Escape")|].
      by apply key_list_ok.
    + intros [= H]. rewrite <- (f_equal fst H : _ = s'). unfold onSearchKeyDown. destruct (ks_composing e); [done|].
      destruct (key_move p e s) as [o|] eqn:E; [by eapply key_move_ok|].
      destruct (_ ==? "Enter"); [case_match; [by apply pick_highlight|done]|]. by destruct (_ || _).
  - destruct (se_open s) eqn:Eo; [|done]. destruct (searchOn p) eqn:Es; [|done]. intros [= <- _]. by apply onSearchChange_ok.
  - destruct (shown_row p s index) as [r|] eqn:Er; [|done]. destruct (row_enabled r) eqn:Ee; [|done]. simpl.
    destruct (negb _); [|done]. intros [= <- _] _. apply find_some_iff in Er as [Hr Hi%Z.eqb_eq]. left. by exists r.
  - destruct (shown_row p s index) as [r|]; [|done]. destruct (row_enabled r); [|done]. intros [= H].
    rewrite <- (f_equal fst H : _ = s'). by apply pick_highlight.
  - by intros [= <- _].
  - intros [= <- _]. destruct (se_open s) eqn:Eo; [done|]. intros Ho. cbn in Ho. congruence.
  - destruct (se_open s); [|done]. by intros [= <- _].
  - destruct (sp_disabled p); [done|]. by intros [= <- _].
Qed.
End Steps.

(** New props that leave the options alone. *)
Definition same_options (p : SelectProps) (i : SelectInput) : Prop :=
  match i with props q => sp_options q = sp_options p ∧ sp_searchable q = sp_searchable p | user _ => True end.

Lemma same_rows p q s : sp_options q = sp_options p → sp_searchable q = sp_searchable p → rows q s = rows p s ∧ searchOn q = searchOn p.
Proof.
  intros Eo Es. assert (searchOn q = searchOn p) as Eq by (unfold searchOn; by rewrite Eo, Es). split; [|done].
  unfold rows, filtered, haystacks. by rewrite Eq, Eo.
Qed.

(** While the options stay what they are, the open menu highlights an
    enabled row that is on show, whatever is typed, pressed and searched; only
    a menu that shows no enabled row highlights none. *)
Theorem highlight_kept inputs p p' s' log :
  Forall (same_options p) inputs → select_run p initial_select [] inputs = Some (p', s', log) → highlight_ok p' s'.
Proof.
  intros Hi. assert (highlight_ok p initial_select) as H0 by done. revert H0 Hi. generalize (@nil (SelectProps * Select * string)) as l.
  generalize initial_select as s. revert p. induction inputs as [|i inputs IH]; intros p s l Hs Hi; simpl; [by intros [= <- <- _]|].
  apply Forall_cons in Hi as [Hi Hr]. destruct i as [e|q].
  - destruct (select_step p s e) as [[t out]|] eqn:E; [|done]. apply IH; [|done]. by eapply select_step_ok.
  - destruct Hi as [Eo Es]. apply IH.
    + intros Ho. destruct (same_rows p q (set_props p q s) Eo Es) as [-> _].
      unfold set_props in *. cbn [se_open] in Ho. apply andb_true_iff in Ho as [Ho Hd].
      unfold rows, filtered, haystacks. cbn [se_open se_query se_active]. rewrite Ho, Hd. cbn [andb].
      specialize (Hs Ho). unfold rows, filtered, haystacks in Hs. by rewrite Ho in Hs.
    + eapply Forall_impl; [exact Hr|]. intros [e|q']; [done|]. simpl. by rewrite Eo, Es.
Qed.

(** ** The keyboard reaches every option *)

Section Keyboard.
Context (p : SelectProps) (Hd : sp_disabled p = false).

Definition press (key : string) : SelectInput := user (ev_key (plain_key key)).

(** The menu, opened from the trigger, with option [i] highlighted. *)
Definition menu_at (i : Z) (s : Select) : Prop :=
  se_open s = true ∧ se_query s = "" ∧ se_active s = i ∧ se_focus s = if searchOn p then in_search else on_trigger.

Lemma menu_rows i s : menu_at i s → rows p s = allRows (sp_options p).
Proof. intros (Ho & Hq & _). rewrite rows_open, Hq by done. by destruct (searchOn p). Qed.

Lemma menu_pos i s o : menu_at i s → at_index (sp_options p) i = Some o → activePos p s = i.
Proof.
  intros Hm Hi. pose proof (menu_rows i s Hm) as Er. destruct Hm as (_ & _ & Ea & _). unfold activePos. rewrite Er, Ea.
  destruct (Z.ltb_spec (findIndex (λ r, row_index r =? i) (allRows (sp_options p))) 0) as [Hn|Hp].
  - rewrite findIndex_None in Hn. specialize (Hn (Build_Row o i)). rewrite Z.eqb_refl in Hn. discriminate Hn. by apply allRows_of.
  - destruct (findIndex_Some _ _ Hp) as (r & Hr & E%Z.eqb_eq). apply allRows_index in Hr as [Hr _]. congruence.
Qed.

Lemma enabled_all i : enabled_at (allRows (sp_options p)) i = match at_index (sp_options p) i with Some o => enabled o | None => false end.
Proof. unfold enabled_at. rewrite allRows_at. by destruct (at_index (sp_options p) i). Qed.

(** From one enabled option down to the next. *)
Lemma down_next i j :
  -1 ≤ i < j → j < Z.of_nat (length (sp_options p)) → enabled_at (allRows (sp_options p)) j = true →
  (∀ k, i < k < j → enabled_at (allRows (sp_options p)) k = false) →
  stepEnabled (allRows (sp_options p)) i 1 = j.
Proof.
  intros Hij Hj He Hbetween. rewrite stepEnabled_spec by (rewrite ?allRows_length; lia). unfold ahead. rewrite allRows_length.
  cbn [Z.ltb Z.compare Z.abs]. assert (Z.of_nat (length (sp_options p)) - i - 1 = (j - i - 1) + (1 + (Z.of_nat (length (sp_options p)) - j - 1))) as -> by lia.
  rewrite seqZ_app by lia. rewrite seqZ_app by lia. rewrite !List.filter_app.
  rewrite (lfilter_none _ (seqZ (i + 1) (j - i - 1))).
  2: { intros k Hk%elem_of_seqZ. apply Hbetween. lia. }
  replace (i + 1 + (j - i - 1)) with j by lia. change (seqZ j 1) with [Z.of_nat 0 + j]. rewrite Z.add_0_l. cbn [List.filter app].
  rewrite He. done.
Qed.

Lemma select_run_app inputs1 inputs2 q s log :
  select_run q s log (inputs1 ++ inputs2) =
  match select_run q s log inputs1 with Some (q', s', log') => select_run q' s' log' inputs2 | None => None end.
Proof.
  revert q s log. induction inputs1 as [|[e|q'] inputs1 IH]; intros q s log; simpl; [done| |apply IH].
  destruct (select_step q s e) as [[t out]|]; [|done]. apply IH.
Qed.

Lemma press_down i j s o :
  menu_at i s → at_index (sp_options p) i = Some o → stepEnabled (allRows (sp_options p)) i 1 = j →
  enabled_at (allRows (sp_options p)) j = true → ∃ s', menu_at j s' ∧ ∀ log, select_run p s log [press "ArrowDown"] = Some (p, s', log).
Proof.
  intros Hm Hi Hj He. pose proof (menu_pos i s o Hm Hi) as Hpos. pose proof (menu_rows i s Hm) as Hr.
  destruct Hm as (Ho & Hq & Ha & Hf). unfold enabled_at in He.
  destruct (at_index (allRows (sp_options p)) j) as [r|] eqn:Er; [|done].
  pose proof (proj1 (allRows_index _ _ _ Er)) as Ej.
  exists (set_active j s). split; [done|]. intros log.
  assert (key_move p (plain_key "ArrowDown") s = Some (set_active j s, None)) as Hk.
  { unfold key_move. cbn [ks_key plain_key]. rewrite Hpos, Hr, Hj. unfold moveTo, quiet. rewrite Hr, Er, Ej. done. }
  unfold press. cbn [select_run select_step]. rewrite Hf, Hd. destruct (searchOn p) eqn:Es.
  - rewrite Ho. unfold onSearchKeyDown. cbn [ks_composing plain_key]. fold (plain_key "ArrowDown"). rewrite Hk. by rewrite app_nil_r.
  - unfold onTriggerKeyDown. cbn [ks_composing plain_key]. fold (plain_key "ArrowDown"). rewrite Ho, Es. cbn [negb].
    unfold key_list. rewrite Hk. by rewrite app_nil_r.
Qed.

Lemma press_enter i s o :
  menu_at i s → at_index (sp_options p) i = Some o → enabled o = true →
  ∃ s', se_open s' = false ∧ se_focus s' = on_trigger ∧
    ∀ log, select_run p s log [press "Enter"] = Some (p, s', log ++ if so_value o ==? sp_value p then [] else [(p, s, so_value o)]).
Proof.
  intros Hm Hi He. pose proof (menu_pos i s o Hm Hi) as Hpos. destruct Hm as (Ho & Hq & Ha & Hf).
  exists (closeMenu true s). split_and!; [done..|]. intros log.
  assert (0 ≤ i) as H0 by (apply at_index_Some in Hi as [? _]; lia).
  assert (pick p i s = (closeMenu true s, if so_value o ==? sp_value p then None else Some (so_value o))) as Hpick.
  { unfold pick. rewrite Hi. unfold enabled in He. by destruct (so_disabled o). }
  unfold press. cbn [select_run select_step]. rewrite Hf, Hd.
  assert (key_move p (plain_key "Enter") s = None) as Hk by done. destruct (searchOn p) eqn:Es.
  - rewrite Ho. unfold onSearchKeyDown. cbn [ks_composing plain_key]. fold (plain_key "Enter"). rewrite Hk. cbn [ks_key plain_key].
    rewrite bool_decide_eq_true_2 by done. rewrite Hpos, Ha. destruct (Z.leb_spec 0 i); [|lia]. rewrite Hpick. by destruct (_ ==? _).
  - unfold onTriggerKeyDown. cbn [ks_composing plain_key]. fold (plain_key "Enter"). rewrite Ho, Es. cbn [negb].
    unfold key_list. rewrite Hk. cbn [ks_key plain_key]. rewrite !bool_decide_eq_false_2 by done. rewrite bool_decide_eq_true_2 by done.
    unfold pickActive. rewrite Hpos, Ha. destruct (Z.leb_spec 0 i); [|lia]. rewrite Hpick. by destruct (_ ==? _).
Qed.

Lemma press_home s : se_open s = false → se_focus s = on_trigger →
  ∃ s', menu_at (findIndex enabled (sp_options p)) s' ∧ ∀ log, select_run p s log [press "Home"] = Some (p, s', log).
Proof.
  intros Ho Hf. exists (openMenu p (findIndex enabled (sp_options p)) "" s). split; [done|]. intros log.
  unfold press. cbn [select_run select_step]. rewrite Hf, Hd. unfold onTriggerKeyDown. cbn [ks_composing plain_key]. rewrite Ho. cbn [negb].
  change (key_closed p _ s) with (quiet (openMenu p (findIndex enabled (sp_options p)) "" s)). unfold quiet. by rewrite app_nil_r.
Qed.

(** The last position below [i] where [f] holds. *)
Lemma last_below (f : Z → bool) (n : nat) :
  (∀ k, 0 ≤ k < Z.of_nat n → f k = false) ∨
  ∃ j, 0 ≤ j < Z.of_nat n ∧ f j = true ∧ ∀ k, j < k < Z.of_nat n → f k = false.
Proof.
  induction n as [|n IH]; [left; lia|]. destruct (f (Z.of_nat n)) eqn:E.
  - right. exists (Z.of_nat n). split_and!; [lia|lia|done|lia].
  - destruct IH as [H|(j & Hj & Ej & H)].
    + left. intros k Hk. destruct (decide (k = Z.of_nat n)) as [->|]; [done|]. apply H. lia.
    + right. exists j. split_and!; [lia|lia|done|]. intros k Hk. destruct (decide (k = Z.of_nat n)) as [->|]; [done|]. apply H. lia.
Qed.

Lemma findIndex_first {A} (f : A → bool) (l : list A) (i : nat) x :
  l !! i = Some x → f x = true → (∀ k y, (k < i)%nat → l !! k = Some y → f y = false) → findIndex f l = Z.of_nat i.
Proof.
  revert i. induction l as [|z l IH]; intros [|i] Hx Hf Hn; simplify_eq/=; [by rewrite Hf|].
  rewrite (Hn 0%nat z) by (done || lia). 
  assert (findIndex f l = Z.of_nat i) as -> by (eapply IH; [done|done|]; intros k y Hk Hy; eapply (Hn (S k)); [lia|done]).
  destruct (Z.ltb_spec (Z.of_nat i) 0); lia.
Qed.

(** Home and some presses of the down arrow highlight option [i]. *)
Lemma reach s i o :
  se_open s = false → se_focus s = on_trigger → at_index (sp_options p) i = Some o → enabled o = true →
  ∃ keys s', menu_at i s' ∧ ∀ log, select_run p s log (List.map press keys) = Some (p, s', log).
Proof.
  intros Ho Hf. revert o. induction i as [i IH] using (well_founded_induction (Z.lt_wf 0)). intros o Hi He.
  pose proof (at_index_Some _ _ _ Hi) as [Hr Hl].
  destruct (last_below (enabled_at (allRows (sp_options p))) (Z.to_nat i)) as [Hnone|(j & Hj & Ej & Hbetween)].
  - destruct (press_home s Ho Hf) as (s' & Hm & Hrun). exists ["Home"], s'. split; [|exact Hrun].
    assert (findIndex enabled (sp_options p) = i) as <-; [|done].
    rewrite (findIndex_first enabled (sp_options p) (Z.to_nat i) o); [lia|done|done|]. intros k y Hk Hy.
    pose proof (Hnone (Z.of_nat k) ltac:(lia)) as Hn. rewrite enabled_all, at_index_nat, Hy in Hn. done.
  - rewrite enabled_all in Ej. destruct (at_index (sp_options p) j) as [oj|] eqn:Eoj; [|done].
    destruct (IH j ltac:(lia) oj Eoj Ej) as (keys & s1 & Hm1 & Hrun1).
    assert (enabled_at (allRows (sp_options p)) i = true) as Hei by by rewrite enabled_all, Hi.
    destruct (press_down j i s1 oj Hm1 Eoj) as (s2 & Hm2 & Hrun2); [|done|].
    { apply down_next; [lia|lia|done|]. intros k Hk. apply Hbetween. lia. }
    exists (keys ++ ["ArrowDown"]), s2. split; [done|]. intros log. rewrite map_app, select_run_app, Hrun1. apply Hrun2.
Qed.
End Keyboard.

(** C21 Every option a dropdown does not disable can be picked from the
    keyboard: from the focused trigger some keys open the menu, highlight the
    option and pick it, which closes the menu, gives the focus back and hands
    the option's value to [onChange], once, unless it is the one selected. *)
Theorem every_option_by_keyboard p s i o :
  sp_disabled p = false → se_open s = false → se_focus s = on_trigger →
  at_index (sp_options p) i = Some o → so_disabled o = false →
  ∃ keys s' log, select_run p s [] (List.map press keys) = Some (p, s', log)
    ∧ se_open s' = false ∧ se_focus s' = on_trigger
    ∧ List.map snd log = if so_value o ==? sp_value p then [] else [so_value o].
Proof.
  intros Hd Ho Hf Hi He. assert (enabled o = true) as Hen by (unfold enabled; by rewrite He).
  destruct (reach p Hd s i o Ho Hf Hi Hen) as (keys & s1 & Hm & Hrun1).
  destruct (press_enter p Hd i s1 o Hm Hi Hen) as (s2 & Ho2 & Hf2 & Hrun2).
  exists (keys ++ ["Enter"]), s2, ([] ++ if so_value o ==? sp_value p then [] else [(p, s1, so_value o)]).
  split_and!; [|done..|by destruct (_ ==? _)]. by rewrite map_app, select_run_app, Hrun1.
Qed.

(** ** Groups and widths *)

Definition item_rows (i : Item) : list Row := match i with row_item r => [r] | group_item _ rs => rs end.

Lemma take_group_spec g rows :
  let '(run, rest) := take_group g rows in
  rows = run ++ rest ∧ Forall (λ r, so_group (row_option r) = Some g) run
  ∧ match rest with r :: _ => so_group (row_option r) ≠ Some g | [] => True end.
Proof.
  induction rows as [|r rows IH]; simpl; [done|]. case_bool_decide as E.
  - destruct (take_group g rows) as [run rest]. destruct IH as (-> & Hg & Hr). split_and!; [done|by constructor|done].
  - done.
Qed.

(** The menu lists every row once, in order, a group as one run of rows with
    its name that no row of the same group follows. *)
Lemma items_spec rows :
  List.concat (List.map item_rows (items rows)) = rows
  ∧ ∀ g rs, group_item g rs ∈ items rows → g ≠ "" ∧ Forall (λ r, so_group (row_option r) = Some g) rs
    ∧ ∃ before after, rows = before ++ rs ++ after ∧ match after with r :: _ => so_group (row_option r) ≠ Some g | [] => True end.
Proof.
  unfold items. assert (∀ fuel l, (length l ≤ fuel)%nat →
    List.concat (List.map item_rows (items_from fuel l)) = l
    ∧ ∀ g rs, group_item g rs ∈ items_from fuel l → g ≠ "" ∧ Forall (λ r, so_group (row_option r) = Some g) rs
      ∧ ∃ before after, l = before ++ rs ++ after ∧ match after with r :: _ => so_group (row_option r) ≠ Some g | [] => True end) as H.
  { induction fuel as [|fuel IH]; intros [|r l] Hl; simpl in Hl; try lia.
    1,2: split; [done|by intros g rs Hi%not_elem_of_nil].
    cbn [items_from]. destruct (group_of r) as [g|] eqn:Eg.
    - unfold group_of in Eg. destruct (so_group (row_option r)) as [g'|] eqn:Es; [|done]. case_bool_decide as Ene; [done|].
      injection Eg as ->. pose proof (take_group_spec g l) as Ht. destruct (take_group g l) as [run rest].
      destruct Ht as (-> & Hg & Hr). rewrite length_app in Hl. destruct (IH rest ltac:(lia)) as [Hc Hi]. split.
      + cbn [List.map List.concat item_rows]. rewrite Hc. done.
      + intros g' rs [[= -> ->]|Hin]%elem_of_cons.
        * split_and!; [done|by constructor|]. by exists [], rest.
        * destruct (Hi g' rs Hin) as (? & ? & before & after & -> & Ha). split_and!; [done..|].
          exists (r :: run ++ before), after. split; [simpl; by rewrite <- !app_assoc|done].
    - destruct (IH l ltac:(lia)) as [Hc Hi]. split.
      + cbn [List.map List.concat item_rows]. by rewrite Hc.
      + intros g' rs [?|Hin]%elem_of_cons; [done|]. destruct (Hi g' rs Hin) as (? & ? & before & after & -> & Ha).
        split_and!; [done..|]. by exists (r :: before), after. }
  by apply H.
Qed.

Lemma shortest_lt top : top ≠ [] → (shortest top < length top)%nat.
Proof.
  intros Hne. unfold shortest. assert (∀ l best, (best < length top)%nat → Forall (λ i, (i < length top)%nat) l →
    (fold_left (λ (best i : nat), if (label_length top i <? label_length top best)%Z then i else best) l best < length top)%nat) as H.
  { induction l as [|i l IH]; simpl; intros best Hb Hl; [done|]. apply Forall_cons in Hl as [Hi Hl]. apply IH; [by case_match|done]. }
  apply H; [destruct top; [done|simpl; lia]|]. apply Forall_forall. intros i Hi%list_elem_of_In%in_seq. lia.
Qed.

(** The trigger is as wide as its longest option: a longest label is kept,
    and four texts at most. *)
Lemma sizerLabels_spec options placeholder :
  (length (sizerLabels options placeholder) ≤ 4)%nat
  ∧ (∀ o, o ∈ options → ∃ l, l ∈ sizerLabels options placeholder ∧ utf16_length (so_label o) ≤ utf16_length l).
Proof.
  set (covers := λ (top : list string) (seen : list string), (length top ≤ 3)%nat ∧
    ∀ s, s ∈ seen → ∃ l, l ∈ top ∧ utf16_length s ≤ utf16_length l).
  assert (∀ top seen label, covers top seen → covers (size_with top label) (seen ++ [label])) as Hstep.
  { intros top seen label [Hl Hc]. unfold size_with. destruct (Nat.ltb_spec (length top) 3) as [H3|H3].
    - split; [rewrite length_app; simpl; lia|]. intros s [Hs| ->%list_elem_of_singleton]%elem_of_app.
      + destruct (Hc s Hs) as (l & Hin & Hle). exists l. split; [apply elem_of_app; by left|done].
      + exists label. split; [apply elem_of_app; right; by left|lia].
    - set (i := shortest top) in *. assert (i < length top)%nat as Hi by (apply shortest_lt; intros ->; simpl in H3; lia).
      destruct (Z.ltb_spec (label_length top i) (utf16_length label)) as [Hlt|Hge].
      + split; [by rewrite length_insert|].
        assert (label ∈ <[i:=label]> top) as Hin by (eapply list_elem_of_lookup_2, list_lookup_insert_eq, Hi).
        intros s [Hs| ->%list_elem_of_singleton]%elem_of_app; [|by exists label].
        destruct (Hc s Hs) as (l & Hl' & Hle). apply list_elem_of_lookup in Hl' as (j & Hj). destruct (decide (j = i)) as [->|Hne].
        * exists label. split; [done|]. unfold label_length in Hlt. rewrite Hj in Hlt. simpl in Hlt. lia.
        * exists l. split; [|done]. eapply (list_elem_of_lookup_2 _ j). by rewrite list_lookup_insert_ne.
      + split; [done|]. intros s [Hs| ->%list_elem_of_singleton]%elem_of_app; [by apply Hc|].
        destruct (lookup_lt_is_Some_2 top i Hi) as [l El]. exists l. split; [by eapply list_elem_of_lookup_2|].
        unfold label_length in Hge. by rewrite El in Hge. }
  assert (∀ labels top seen, covers top seen → covers (fold_left size_with labels top) (seen ++ labels)) as Hfold.
  { induction labels as [|label labels IH]; intros top seen Ht; simpl; [by rewrite app_nil_r|].
    rewrite (cons_middle label seen labels), app_assoc. by apply IH, Hstep. }
  destruct (Hfold (List.map so_label options) [] []) as [Hl Hc]; [split; [simpl; lia|by intros s Hs%not_elem_of_nil]|].
  unfold sizerLabels. split.
  - rewrite length_app. destruct placeholder as [t|]; [destruct (t ==? "")|]; simpl; lia.
  - intros o Ho. destruct (Hc (so_label o)) as (l & Hin & Hle); [apply elem_of_lmap; by exists o|].
    exists l. split; [apply elem_of_app; by left|done].
Qed.

(** ** The place of the menu *)

Lemma Qmax_facts a b : (a <= Qmax a b ∧ b <= Qmax a b ∧ (Qmax a b == a ∨ Qmax a b == b))%Q.
Proof. split_and!; [apply Q.le_max_l|apply Q.le_max_r|]. destruct (Q.max_dec a b); auto. Qed.
Lemma Qmin_facts a b : (Qmin a b <= a ∧ Qmin a b <= b ∧ (Qmin a b == a ∨ Qmin a b == b))%Q.
Proof. split_and!; [apply Q.le_min_l|apply Q.le_min_r|]. destruct (Q.min_dec a b); auto. Qed.

(** Every least and greatest of two, by what it is and what it bounds. *)
Ltac q_case op a b facts :=
  let m := fresh "m" in let Hm := fresh "Hm" in
  pose proof (facts a b) as Hm; set (m := op a b) in *; clearbody m.
Ltac q_cases :=
  repeat match goal with
  | |- context [Qmax ?a ?b] => q_case Qmax a b Qmax_facts
  | |- context [Qmin ?a ?b] => q_case Qmin a b Qmin_facts
  | _ : context [Qmax ?a ?b] |- _ => q_case Qmax a b Qmax_facts
  | _ : context [Qmin ?a ?b] |- _ => q_case Qmin a b Qmin_facts
  end.

(** The menu stays inside the viewport's margins when it fits there, is no
    higher than its maximum, opens upward only for more room than below, and
    does not cover the trigger where its least height has room. *)
Lemma menu_in_view vw vh rect align_end natural w h up maxH left top :
  menu_height vh rect natural = (up, maxH) → menu_place vw vh rect up align_end w h = (left, top) → (h <= maxH)%Q →
  (8 <= left ∧ (w <= vw - 16 → left + w <= vw - 8) ∧ 8 <= top ∧ (h <= vh - 16 → top + h <= vh - 8) ∧ maxH <= 320
   ∧ (up = true → vh - r_bottom rect < r_top rect)
   ∧ (Qmin (Qmin natural 320) 96 <= (if up then r_top rect else vh - r_bottom rect) - 12 →
      if up then top + h <= r_top rect - 4 else r_bottom rect + 4 <= top))%Q.
Proof.
  unfold menu_height, menu_place, Q_lt, MENU_MAX_HEIGHT, MENU_MIN_HEIGHT, MENU_GAP, VIEWPORT_MARGIN. cbn zeta.
  set (wanted := Qmin natural 320). intros [= Hup <-] [= <- <-].
  assert (up = true → vh - r_bottom rect - 4 - 8 < r_top rect - 4 - 8)%Q as Hab.
  { intros E. rewrite E in Hup. apply andb_true_iff in Hup as [_ Hb]. apply negb_true_iff in Hb.
    apply Qnot_le_lt. intros Hle%Qle_bool_iff. congruence. }
  rewrite Hup. clear Hup. subst wanted. revert Hab. destruct up, align_end; q_cases; intros Hab Hh;
    (split_and!; intros; try specialize (Hab eq_refl); lra).
Qed.

Lemma Q_lt_spec a b : reflect (a < b)%Q (Q_lt a b).
Proof.
  unfold Q_lt. destruct (Qle_bool b a) eqn:E; simpl; constructor.
  - apply Qle_bool_iff in E. lra.
  - apply Qnot_le_lt. intros Hle%Qle_bool_iff. congruence.
Qed.

(** A row that moved to is in view afterwards, when it fits with the four
    pixels kept around it. *)
Lemma revealRow_nearest scrollTop view top bottom :
  (0 <= top → bottom - top + 4 <= view →
   let s := revealRow scrollTop view (Some (top, bottom)) nearest in s <= top ∧ bottom <= s + view)%Q.
Proof.
  cbn zeta. unfold revealRow. destruct (Q_lt_spec top scrollTop); [q_cases; intros; split; lra|].
  destruct (Q_lt_spec (scrollTop + view) bottom); intros; split; lra.
Qed.

(** A visible trigger shares a point with the viewport and with each of the
    ancestors that clip it. *)
Lemma isAnchorVisible_spec vw vh r clippers :
  isAnchorVisible vw vh r clippers = true →
  (r_left r < vw ∧ 0 < r_right r ∧ r_top r < vh ∧ 0 < r_bottom r)%Q
  ∧ ∀ b, b ∈ clippers → (r_left r < r_right b ∧ r_left b < r_right r ∧ r_top r < r_bottom b ∧ r_top b < r_bottom r)%Q.
Proof.
  unfold isAnchorVisible. destruct (Qeq_bool _ 0 && _); [done|].
  destruct (Qle_bool (r_bottom r) 0) eqn:E1; [done|]. destruct (Qle_bool vh (r_top r)) eqn:E2; [done|].
  destruct (Qle_bool (r_right r) 0) eqn:E3; [done|]. destruct (Qle_bool vw (r_left r)) eqn:E4; [done|]. cbn [orb].
  intros Hall. assert (∀ a b, Qle_bool a b = false → (b < a)%Q) as Hlt.
  { intros a b E. apply Qnot_le_lt. intros Hle%Qle_bool_iff. congruence. }
  split; [split_and!; by apply Hlt|]. intros b Hb. rewrite forallb_forall in Hall.
  specialize (Hall b (proj1 (list_elem_of_In _ _) Hb)). apply andb_true_iff in Hall as [Hall H4].
  apply andb_true_iff in Hall as [Hall H3]. apply andb_true_iff in Hall as [H1 H2].
  split_and!; by apply (reflect_iff _ _ (Q_lt_spec _ _)).
Qed.

(** ** When the search box goes *)

(** An open menu whose options become few loses its search box, and no key
    reaches the menu any more. *)
Lemma search_box_lost p p' s k :
  se_open s = true → se_focus s = in_search → searchOn p' = false → sp_disabled p' = false →
  se_open (set_props p p' s) = true ∧ select_step p' (set_props p p' s) (ev_key k) = None.
Proof. intros Ho Hf Hs Hd. unfold set_props. rewrite Ho, Hf, Hs, Hd. by destruct (searchOn p). Qed.

(** ** Applied *)

Definition plain_option (v : string) : SelectOption := Build_SelectOption v v None false None None false false.
Definition off_option (v : string) : SelectOption := Build_SelectOption v v None true None None false false.

Lemma select_picks_witness :
  let p := Build_SelectProps "red" [plain_option "red"; off_option "green"; plain_option "blue"] false None in
  let inputs := user ev_focus :: List.map (λ k, user (ev_key (plain_key k))) ["Enter"; "ArrowDown"; "Enter"] in
  ∃ s' log, select_run p initial_select [] inputs = Some (p, s', log) ∧ List.map snd log = ["blue"] ∧ Forall picked_ok log.
Proof.
  intros p inputs. assert (∃ s' log, select_run p initial_select [] inputs = Some (p, s', log) ∧ List.map snd log = ["blue"]) as (s' & log & Hr & Hl).
  { eexists _, _. split; [vm_compute; reflexivity|reflexivity]. }
  exists s', log. split_and!; [exact Hr|exact Hl|]. exact (select_picks inputs p p s' log Hr).
Defined.

Lemma every_option_by_keyboard_witness :
  let p := Build_SelectProps "red" [plain_option "red"; off_option "green"; plain_option "blue"] false None in
  ∃ keys s' log, select_run p (set_focus on_trigger initial_select) [] (List.map press keys) = Some (p, s', log)
    ∧ se_open s' = false ∧ List.map snd log = ["blue"].
Proof.
  intros p. destruct (every_option_by_keyboard p (set_focus on_trigger initial_select) 2 (plain_option "blue"))
    as (keys & s' & log & Hr & Ho & _ & Hl); [reflexivity..|].
  exists keys, s', log. split_and!; [exact Hr|exact Ho|exact Hl].
Defined.

Lemma highlight_kept_witness :
  let p := Build_SelectProps "red" [plain_option "red"; off_option "green"; plain_option "blue"] false None in
  let inputs := user ev_focus :: List.map (λ k, user (ev_key (plain_key k))) ["Enter"; "ArrowDown"] in
  ∃ s' log, select_run p initial_select [] inputs = Some (p, s', log) ∧ se_active s' = 2 ∧ highlight_ok p s'.
Proof.
  intros p inputs. assert (∃ s' log, select_run p initial_select [] inputs = Some (p, s', log) ∧ se_active s' = 2) as (s' & log & Hr & Hl).
  { eexists _, _. split; [vm_compute; reflexivity|reflexivity]. }
  exists s', log. split_and!; [exact Hr|exact Hl|]. refine (highlight_kept inputs p p s' log _ Hr).
  repeat constructor.
Defined.
