(* ===== verification/Toast.v ===== *)
(** * Toasts ([components/ui/ToastContext.tsx])

    The provider as a state machine over the toasts on show and the timers
    under way.  A timer may fire late, never early, and in any order once it
    is due.  What a toast's action does besides closing it is its caller's. *)
From S2P Require Import Prelude JsString.

Local Open Scope string_scope.
Local Open Scope Z_scope.
Local Open Scope list_scope.

Inductive ToastVariant := success | error | warning | info.
#[export] Instance ToastVariant_eq_dec : EqDecision ToastVariant.
Proof. solve_decision. Defined.

(** An action is its label. *)
Record ToastOptions := {
  to_title : option string;
  to_message : string;
  to_variant : option ToastVariant;
  to_duration : option Z;
  to_persistent : option bool;
  to_action : option string;
}.

Record ToastEntry := {
  te_id : Z;
  te_title : option string;
  te_message : string;
  te_variant : ToastVariant;
  te_duration : Z;
  te_persistent : bool;
  te_action : option string;
  te_dismissing : bool;
}.

Definition DEFAULT_DURATION_MS : Z := 4000.
Definition ERROR_DURATION_MS : Z := 6000.
Definition EXIT_ANIMATION_MS : Z := 200.
Definition MAX_VISIBLE : nat := 5.

(** What a [setTimeout] of the provider does when it fires. *)
Inductive Timer := t_dismiss (id : Z) | t_remove (id : Z).

Record Toasts := {
  tt_shown : list ToastEntry;
  tt_timers : list (Z * Timer);  (* when due, and what for *)
  tt_now : Z;
  tt_nextId : Z;
}.
Definition no_toasts : Toasts := Build_Toasts [] [] 0 0.

(** The delay of [setTimeout(f, d)]: [d] is read as a signed 32-bit integer,
    and a negative one is none. *)
Definition delay (d : Z) : Z := Z.max 0 ((d + 2 ^ 31) mod 2 ^ 32 - 2 ^ 31).

Definition marked (id : Z) (t : ToastEntry) : ToastEntry :=
  if te_id t =? id then
    Build_ToastEntry (te_id t) (te_title t) (te_message t) (te_variant t) (te_duration t) (te_persistent t) (te_action t) true
  else t.

Definition dismiss (id : Z) (s : Toasts) : Toasts :=
  Build_Toasts (List.map (marked id) (tt_shown s))
    (tt_timers s ++ [(tt_now s + delay EXIT_ANIMATION_MS, t_remove id)]) (tt_now s) (tt_nextId s).

Definition remove (id : Z) (s : Toasts) : Toasts :=
  Build_Toasts (List.filter (λ t, negb (te_id t =? id)) (tt_shown s)) (tt_timers s) (tt_now s) (tt_nextId s).

Definition variant_of (o : ToastOptions) : ToastVariant := default info (to_variant o).
Definition duration_of (o : ToastOptions) : Z :=
  match to_duration o with
  | Some d => d
  | None => if bool_decide (variant_of o = error) then ERROR_DURATION_MS else DEFAULT_DURATION_MS
  end.
Definition entry_of (id : Z) (o : ToastOptions) : ToastEntry :=
  Build_ToastEntry id (to_title o) (to_message o) (variant_of o) (duration_of o) (default false (to_persistent o)) (to_action o) false.

Definition toast (o : ToastOptions) (s : Toasts) : Toasts :=
  let id := tt_nextId s + 1 in
  let next := tt_shown s ++ [entry_of id o] in
  let surplus := (length next - MAX_VISIBLE)%nat in
  Build_Toasts (drop surplus next)
    (tt_timers s ++ List.map (λ t, (tt_now s + delay 0, t_remove (te_id t))) (take surplus next)
     ++ if default false (to_persistent o) then [] else [(tt_now s + delay (duration_of o), t_dismiss id)])
    (tt_now s) id.

Definition plain_toast (v : ToastVariant) (message : string) : ToastOptions := Build_ToastOptions None message (Some v) None None None.
Definition toastOk (message : string) : Toasts → Toasts := toast (plain_toast success message).
Definition toastErr (message : string) : Toasts → Toasts := toast (plain_toast error message).

(** A timer's callback. *)
Definition fire (t : Timer) : Toasts → Toasts := match t with t_dismiss id => dismiss id | t_remove id => remove id end.

Inductive ToastEvent :=
  | ev_toast (o : ToastOptions)
  | ev_dismiss (id : Z)
  | ev_pass (ms : Z)
  | ev_fire (i : nat).

(** What happens; [None]: it cannot.  [ev_dismiss] is the cross of a toast, or
    its action. *)
Definition toast_step (s : Toasts) (e : ToastEvent) : option Toasts :=
  match e with
  | ev_toast o => Some (toast o s)
  | ev_dismiss id => if existsb (λ t, te_id t =? id) (tt_shown s) then Some (dismiss id s) else None
  | ev_pass ms => if 0 <=? ms then Some (Build_Toasts (tt_shown s) (tt_timers s) (tt_now s + ms) (tt_nextId s)) else None
  | ev_fire i =>
      match tt_timers s !! i with
      | Some (due, t) =>
          if due <=? tt_now s then Some (fire t (Build_Toasts (tt_shown s) (delete i (tt_timers s)) (tt_now s) (tt_nextId s))) else None
      | None => None
      end
  end.

Fixpoint toast_run (s : Toasts) (l : list ToastEvent) : option Toasts :=
  match l with
  | [] => Some s
  | e :: l => match toast_step s e with Some s => toast_run s l | None => None end
  end.

(** ** A card *)

(** The pointer is over it, and how long its bar has run. *)
Record Card := {
  ca_hovered : bool;
  ca_bar : Z;
}.
Inductive CardEvent := mouse_enter | mouse_leave | card_pass (ms : Z).
Definition card_step (c : Card) (e : CardEvent) : Card :=
  match e with
  | mouse_enter => Build_Card true (ca_bar c)
  | mouse_leave => Build_Card false (ca_bar c)
  | card_pass ms => if ca_hovered c then c else Build_Card (ca_hovered c) (ca_bar c + ms)
  end.

(** ** What the provider promises *)

(** Every toast on its way out has the timer that takes it away, every other
    one that does not stay has the timer that sends it out, and no timer is
    for a toast that stays. *)
Record toasts_ok (s : Toasts) : Prop := {
  ok_few : (length (tt_shown s) ≤ MAX_VISIBLE)%nat;
  ok_ids : NoDup (List.map te_id (tt_shown s));
  ok_old : ∀ t, t ∈ tt_shown s → te_id t ≤ tt_nextId s;
  ok_timer_old : ∀ d id, (d, t_dismiss id) ∈ tt_timers s ∨ (d, t_remove id) ∈ tt_timers s → id ≤ tt_nextId s;
  ok_leaving : ∀ t, t ∈ tt_shown s → te_dismissing t = true → ∃ d, (d, t_remove (te_id t)) ∈ tt_timers s;
  ok_passing : ∀ t, t ∈ tt_shown s → te_dismissing t = false → te_persistent t = false → ∃ d, (d, t_dismiss (te_id t)) ∈ tt_timers s;
  ok_dismiss : ∀ t d, t ∈ tt_shown s → (d, t_dismiss (te_id t)) ∈ tt_timers s → te_persistent t = false;
  ok_remove : ∀ t d, t ∈ tt_shown s → (d, t_remove (te_id t)) ∈ tt_timers s → te_dismissing t = true;
}.

Lemma no_toasts_ok : toasts_ok no_toasts.
Proof. constructor; simpl; try (intros; set_solver); [lia|constructor]. Qed.

Lemma marked_id id t : te_id (marked id t) = te_id t.
Proof. unfold marked. by destruct (te_id t =? id). Qed.
Lemma marked_persistent id t : te_persistent (marked id t) = te_persistent t.
Proof. unfold marked. by destruct (te_id t =? id). Qed.
Lemma marked_dismissing id t : te_dismissing (marked id t) = te_dismissing t || (te_id t =? id).
Proof. unfold marked. destruct (te_id t =? id); simpl; by destruct (te_dismissing t). Qed.

(** Marking a toast that may go, with the timer [due] of it no longer wanted. *)
Lemma dismiss_ok s id due ts :
  toasts_ok s → tt_timers s ≡ₚ ts ++ due → id ≤ tt_nextId s → (∀ x, x ∈ due → x.2 = t_dismiss id) →
  toasts_ok (dismiss id (Build_Toasts (tt_shown s) ts (tt_now s) (tt_nextId s))).
Proof.
  intros [Hn Hi Ho Hto Hl Hp Hd Hr] Hts Hid Hdue. unfold dismiss. cbn [tt_shown tt_timers tt_now tt_nextId].
  set (at_ := tt_now s + delay EXIT_ANIMATION_MS).
  assert (∀ x, x ∈ ts → x ∈ tt_timers s) as Hsub by (intros x Hx; rewrite Hts; set_solver).
  assert (∀ d id', (d, t_remove id') ∈ tt_timers s → (d, t_remove id') ∈ ts) as Hrem.
  { intros d id' Hx. rewrite Hts in Hx. apply elem_of_app in Hx as [?|Hx]; [done|]. by apply Hdue in Hx. }
  constructor; cbn [tt_shown tt_timers tt_now tt_nextId].
  - by rewrite length_map.
  - rewrite map_map. erewrite map_ext; [exact Hi|apply marked_id].
  - intros t (t0 & -> & Ht)%elem_of_lmap. rewrite marked_id. by apply Ho.
  - intros d id'. rewrite !elem_of_app, !list_elem_of_singleton.
    intros [[Hx|[=]]|[Hx|[= _ ->]]]; [apply (Hto d); left|apply (Hto d); right|done]; by apply Hsub.
  - intros t (t0 & -> & Ht)%elem_of_lmap. rewrite marked_id, marked_dismissing. intros Hm.
    destruct (Z.eqb_spec (te_id t0) id) as [<-|Hne]; [exists at_; set_solver|].
    rewrite orb_false_r in Hm. destruct (Hl t0 Ht Hm) as [d Hx]. exists d. apply elem_of_app. left. by apply Hrem.
  - intros t (t0 & -> & Ht)%elem_of_lmap. rewrite marked_id, marked_dismissing, marked_persistent.
    intros [Hm Hne]%orb_false_iff Hper. apply Z.eqb_neq in Hne. destruct (Hp t0 Ht Hm Hper) as [d Hx]. exists d.
    rewrite Hts in Hx. apply elem_of_app. left. apply elem_of_app in Hx as [?|Hx]; [done|]. apply Hdue in Hx. naive_solver.
  - intros t d (t0 & -> & Ht)%elem_of_lmap. rewrite marked_id, marked_persistent, elem_of_app, list_elem_of_singleton.
    intros [Hx|[=]]. eapply Hd; [done|]. by apply Hsub.
  - intros t d (t0 & -> & Ht)%elem_of_lmap. rewrite marked_id, marked_dismissing, elem_of_app, list_elem_of_singleton.
    intros [Hx|[= _ ->]]; [|by rewrite Z.eqb_refl, orb_true_r]. by rewrite (Hr t0 d) by auto.
Qed.

Lemma removed_ok s id d0 ts :
  toasts_ok s → tt_timers s ≡ₚ (d0, t_remove id) :: ts →
  toasts_ok (remove id (Build_Toasts (tt_shown s) ts (tt_now s) (tt_nextId s))).
Proof.
  intros [Hn Hi Ho Hto Hl Hp Hd Hr] Hts. assert (∀ x, x ∈ ts → x ∈ tt_timers s) as Hsub by (intros x Hx; rewrite Hts; set_solver).
  constructor; cbn [remove tt_shown tt_timers tt_now tt_nextId].
  - etransitivity; [|exact Hn]. apply List.filter_length_le.
  - auto with voip.
  - intros t [Ht _]%elem_of_lfilter. auto.
  - intros d id' [Hx|Hx]; apply (Hto d); auto.
  - intros t [Ht Hne%negb_true_iff%Z.eqb_neq]%elem_of_lfilter Hm. destruct (Hl t Ht Hm) as [d Hx]. exists d.
    rewrite Hts in Hx. apply elem_of_cons in Hx as [[= _ ?]|?]; done.
  - intros t [Ht _]%elem_of_lfilter Hm Hper. destruct (Hp t Ht Hm Hper) as [d Hx]. exists d.
    rewrite Hts in Hx. apply elem_of_cons in Hx as [?|?]; done.
  - intros t d [Ht _]%elem_of_lfilter Hx. exact (Hd t d Ht (Hsub _ Hx)).
  - intros t d [Ht _]%elem_of_lfilter Hx. exact (Hr t d Ht (Hsub _ Hx)).
Qed.

Lemma toasted_ok o s : toasts_ok s → toasts_ok (toast o s).
Proof.
  intros [Hn Hi Ho Hto Hl Hp Hd Hr]. unfold toast. set (id := tt_nextId s + 1). set (next := tt_shown s ++ [entry_of id o]).
  set (k := (length next - MAX_VISIBLE)%nat).
  assert (NoDup (List.map te_id next)) as Hnext.
  { unfold next. rewrite map_app. apply NoDup_app. split_and!; [done| |by repeat constructor; apply not_elem_of_nil].
    intros i (t & Ei & Ht)%elem_of_lmap Ei'%list_elem_of_singleton. specialize (Ho t Ht). cbn [te_id entry_of] in Ei'. lia. }
  assert (∀ t, t ∈ drop k next → t = entry_of id o ∨ t ∈ tt_shown s) as Hin.
  { intros t Ht. assert (t ∈ next) as Hx by (rewrite <- (take_drop k next); set_solver). unfold next in Hx. set_solver. }
  assert (∀ t, t ∈ drop k next → te_id t ∉ List.map te_id (take k next)) as Hout.
  { intros t Ht (t' & E & Ht')%elem_of_lmap. rewrite <- (take_drop k next), map_app in Hnext.
    apply NoDup_app in Hnext as (_ & Hnext & _). apply (Hnext (te_id t)); apply elem_of_lmap; eauto. }
  assert (∀ d t, (d, t) ∈ List.map (λ t, (tt_now s + delay 0, t_remove (te_id t))) (take k next) →
    ∃ t', t' ∈ take k next ∧ t = t_remove (te_id t')) as Hsur.
  { intros d t (t' & [= _ ->] & Ht')%elem_of_lmap. eauto. }
  assert (∀ d t, (d, t) ∈ (if default false (to_persistent o) then [] else [(tt_now s + delay (duration_of o), t_dismiss id)]) →
    t = t_dismiss id ∧ default false (to_persistent o) = false) as Hnew.
  { intros d t. destruct (default false _); [by intros ?%not_elem_of_nil|]. by intros [= _ ->]%list_elem_of_singleton. }
  constructor; cbn [tt_shown tt_timers tt_now tt_nextId].
  - rewrite length_drop. lia.
  - rewrite <- (take_drop k next), map_app in Hnext. by apply NoDup_app in Hnext as (_ & _ & ?).
  - intros t [->|Ht]%Hin; [simpl; lia|]. specialize (Ho t Ht). lia.
  - intros d i. rewrite !elem_of_app. intros [[Hx|[Hx|Hx]]|[Hx|[Hx|Hx]]].
    + pose proof (Hto d i (or_introl Hx)). lia.
    + by apply Hsur in Hx as (? & ? & [=]).
    + apply Hnew in Hx as [[= ->] _]. lia.
    + pose proof (Hto d i (or_intror Hx)). lia.
    + apply Hsur in Hx as (t' & Ht' & [= ->]). assert (t' ∈ next) as Hx by (rewrite <- (take_drop k next); set_solver).
      unfold next in Hx. apply elem_of_app in Hx as [Hx| ->%list_elem_of_singleton]; [specialize (Ho t' Hx); lia|simpl; lia].
    + by apply Hnew in Hx as [[=] _].
  - intros t [->|Ht]%Hin Hm; [done|]. destruct (Hl t Ht Hm) as [d Hx]. exists d. set_solver.
  - intros t [->|Ht]%Hin Hm Hper.
    + simpl in Hper. rewrite Hper. exists (tt_now s + delay (duration_of o)). rewrite !elem_of_app, list_elem_of_singleton. by right; right.
    + destruct (Hp t Ht Hm Hper) as [d Hx]. exists d. set_solver.
  - intros t d Ht. rewrite !elem_of_app. intros [Hx|[Hx|Hx]].
    + apply Hin in Ht as [->|Ht]; [|by apply (Hd t d)]. simpl in Hx. pose proof (Hto _ _ (or_introl Hx)). lia.
    + by apply Hsur in Hx as (? & ? & [=]).
    + apply Hnew in Hx as [[= E] Hper]. apply Hin in Ht as [->|Ht]; [done|]. specialize (Ho t Ht). lia.
  - intros t d Ht. rewrite !elem_of_app. intros [Hx|[Hx|Hx]].
    + apply Hin in Ht as [->|Ht]; [|by apply (Hr t d)]. simpl in Hx. pose proof (Hto _ _ (or_intror Hx)). lia.
    + apply Hsur in Hx as (t' & Ht' & [= E]). exfalso. apply (Hout t Ht). rewrite E. apply elem_of_lmap. eauto.
    + by apply Hnew in Hx as [[=] _].
Qed.

Lemma toast_step_ok s e s' : toasts_ok s → toast_step s e = Some s' → toasts_ok s'.
Proof.
  intros Hok. pose proof Hok as [Hn Hi Ho Hto Hl Hp Hd Hr]. destruct e as [o|id|ms|i]; cbn [toast_step].
  - intros [= <-]. by apply toasted_ok.
  - destruct (existsb _ _) eqn:E; [|done]. intros [= <-]. apply existsb_elem_of in E as (t & Ht & <-%Z.eqb_eq).
    replace s with (Build_Toasts (tt_shown s) (tt_timers s) (tt_now s) (tt_nextId s)) at 1 by by destruct s.
    apply (dismiss_ok s (te_id t) []); [done|by rewrite app_nil_r|auto|by intros x Hx%not_elem_of_nil].
  - destruct (0 <=? ms); [|done]. intros [= <-]. by constructor.
  - destruct (tt_timers s !! i) as [[due t]|] eqn:E; [|done]. destruct (due <=? tt_now s); [|done]. intros [= <-].
    pose proof (delete_Permutation _ _ _ E) as Hperm. destruct t as [id|id]; cbn [fire].
    + apply (dismiss_ok s id [(due, t_dismiss id)]); [done|etransitivity; [exact Hperm|apply Permutation_cons_append]| |by intros x ->%list_elem_of_singleton].
      apply (Hto due). left. by eapply list_elem_of_lookup_2.
    + by apply (removed_ok s id due).
Qed.

Lemma toast_run_ok l s s' : toasts_ok s → toast_run s l = Some s' → toasts_ok s'.
Proof.
  revert s. induction l as [|e l IH]; intros s Hok; simpl; [by intros [= <-]|].
  destruct (toast_step s e) as [s1|] eqn:E; [|done]. apply IH. by eapply toast_step_ok.
Qed.

(** ** Left alone, toasts go *)

(** A toast nothing takes away but a click, or five more. *)
Definition stays (t : ToastEntry) : bool := te_persistent t && negb (te_dismissing t).

(** Nobody clicks, nothing is toasted. *)
Definition alone (e : ToastEvent) : Prop := match e with ev_pass _ | ev_fire _ => True | _ => False end.

Lemma alone_keeps s e s' :
  toasts_ok s → alone e → toast_step s e = Some s' → List.filter stays (tt_shown s') = List.filter stays (tt_shown s).
Proof.
  intros [Hn Hi Ho Hto Hl Hp Hd Hr]. destruct e as [o|id|ms|i]; try done; intros _; cbn [toast_step].
  - destruct (0 <=? ms); [|done]. by intros [= <-].
  - destruct (tt_timers s !! i) as [[due t]|] eqn:E; [|done]. apply list_elem_of_lookup_2 in E.
    destruct (due <=? tt_now s); [|done]. intros [= <-].
    destruct t as [id|id]; cbn [fire dismiss remove tt_shown] in *.
    + assert (∀ t, t ∈ tt_shown s → te_id t = id → te_persistent t = false) as Hg.
      { intros t Ht <-. by eapply Hd. }
      revert Hg. generalize (tt_shown s). clear. induction l as [|t l IH]; intros Hg; [done|]. simpl.
      assert (List.filter stays (List.map (marked id) l) = List.filter stays l) as IHl by (apply IH; intros x Hx; apply Hg; by right).
      assert (stays (marked id t) = stays t) as Es.
      { unfold stays. rewrite marked_persistent, marked_dismissing. destruct (Z.eqb_spec (te_id t) id) as [Ei|]; [|by rewrite orb_false_r].
        by rewrite (Hg t) by (done || by left). }
      rewrite Es, IHl. destruct (stays t) eqn:Et; [|done]. f_equal. unfold marked. destruct (Z.eqb_spec (te_id t) id) as [Ei|]; [|done].
      unfold stays in Et. by rewrite (Hg t) in Et by (done || by left).
    + assert (∀ t, t ∈ tt_shown s → te_id t = id → te_dismissing t = true) as Hg.
      { intros t Ht <-. by eapply Hr. }
      revert Hg. generalize (tt_shown s). clear. induction l as [|t l IH]; intros Hg; [done|]. simpl.
      assert (List.filter stays (List.filter (λ t, negb (te_id t =? id)) l) = List.filter stays l) as IHl
        by (apply IH; intros x Hx; apply Hg; by right).
      destruct (Z.eqb_spec (te_id t) id) as [Ei|]; simpl; [|by rewrite IHl].
      assert (stays t = false) as ->; [|done]. unfold stays. rewrite (Hg t) by (done || by left). apply andb_false_r.
Qed.

Lemma alone_run l s s' :
  toasts_ok s → Forall alone l → toast_run s l = Some s' → List.filter stays (tt_shown s') = List.filter stays (tt_shown s).
Proof.
  revert s. induction l as [|e l IH]; intros s Hok Hl; simpl; [by intros [= <-]|]. apply Forall_cons in Hl as [He Hl].
  destruct (toast_step s e) as [s1|] eqn:E; [|done]. intros Hrun.
  rewrite (IH s1) by (done || by eapply toast_step_ok). by eapply alone_keeps.
Qed.

(** With no timer left, all that is shown stays. *)
Lemma quiet_stays s : toasts_ok s → tt_timers s = [] → tt_shown s = List.filter stays (tt_shown s).
Proof.
  intros [Hn Hi Ho Hto Hl Hp Hd Hr] Hnone. rewrite lfilter_all; [done|]. intros t Ht. unfold stays.
  destruct (te_dismissing t) eqn:Em; [destruct (Hl t Ht Em) as [d Hx]; rewrite Hnone in Hx; by apply not_elem_of_nil in Hx|].
  destruct (te_persistent t) eqn:Ep; [done|]. destruct (Hp t Ht Em Ep) as [d Hx]. rewrite Hnone in Hx. by apply not_elem_of_nil in Hx.
Qed.

Lemma toast_run_app l1 l2 s : toast_run s (l1 ++ l2) = match toast_run s l1 with Some s1 => toast_run s1 l2 | None => None end.
Proof. revert s. induction l1 as [|e l1 IH]; intros s; simpl; [done|]. destruct (toast_step s e); auto. Qed.

(** The first [n] timers fire, all due. *)
Lemma fires n s :
  (n ≤ length (tt_timers s))%nat → (∀ x, x ∈ take n (tt_timers s) → x.1 ≤ tt_now s) →
  ∃ s' new, toast_run s (replicate n (ev_fire 0)) = Some s' ∧ tt_now s' = tt_now s
    ∧ tt_timers s' = drop n (tt_timers s) ++ new
    ∧ (∀ x, x ∈ new → ∃ id, x = (tt_now s + EXIT_ANIMATION_MS, t_remove id))
    ∧ ((∀ x, x ∈ take n (tt_timers s) → ∃ id, x.2 = t_remove id) → new = []).
Proof.
  revert s. induction n as [|n IH]; intros s Hlen Hdue.
  { exists s, []. rewrite app_nil_r. split_and!; [done..|by intros x Hx%not_elem_of_nil|done]. }
  destruct (tt_timers s) as [|[due t] ts] eqn:Ets; [simpl in Hlen; lia|]. simpl in Hlen.
  assert (due <= tt_now s) as Hd by (apply (Hdue (due, t)); by left).
  set (s1 := fire t (Build_Toasts (tt_shown s) ts (tt_now s) (tt_nextId s))).
  assert (toast_step s (ev_fire 0) = Some s1) as E1.
  { cbn [toast_step]. rewrite Ets. simpl. by destruct (Z.leb_spec due (tt_now s)); [|lia]. }
  assert (∃ extra, tt_timers s1 = ts ++ extra ∧ tt_now s1 = tt_now s
    ∧ (∀ x, x ∈ extra → ∃ id, x = (tt_now s + EXIT_ANIMATION_MS, t_remove id)) ∧ ((∃ id, t = t_remove id) → extra = [])) as (extra & Ex & En & Hex & Hrem).
  { destruct t as [id|id].
    - exists [(tt_now s + EXIT_ANIMATION_MS, t_remove id)]. split_and!; [done..|intros x ->%list_elem_of_singleton; by exists id|by intros [? [=]]].
    - exists []. simpl. rewrite app_nil_r. split_and!; [done..|by intros x Hx%not_elem_of_nil|done]. }
  assert (take n (tt_timers s1) = take n ts) as Et by (rewrite Ex; apply take_app_le; lia).
  destruct (IH s1) as (s' & new & Hrun & Hnow & Hts & Hnew & Hnone).
  - rewrite Ex, length_app. lia.
  - rewrite Et, En. intros x Hx. apply Hdue. by right.
  - exists s', (extra ++ new). split_and!.
    + cbn [replicate toast_run]. by rewrite E1.
    + congruence.
    + rewrite Hts, Ex. cbn [drop]. rewrite drop_app_le by lia. by rewrite <- app_assoc.
    + intros x [Hx|Hx]%elem_of_app; [by apply Hex|]. rewrite <- En. by apply Hnew.
    + intros Hall. rewrite Hrem, Hnone; [done| |apply (Hall (due, t)); by left].
      rewrite Et. intros x Hx. apply Hall. by right.
Qed.

(** When the last timer under way is due. *)
Definition latest (s : Toasts) : Z := foldr (λ x m, Z.max x.1 m) (tt_now s) (tt_timers s).

Lemma latest_spec s : tt_now s ≤ latest s ∧ ∀ x, x ∈ tt_timers s → x.1 ≤ latest s.
Proof.
  unfold latest. induction (tt_timers s) as [|y l [IH1 IH2]]; simpl; [split; [lia|by intros x Hx%not_elem_of_nil]|].
  split; [lia|]. intros x [->|Hx]%elem_of_cons; [lia|]. specialize (IH2 x Hx). lia.
Qed.

(** C23 Left alone, toasts go: whatever was toasted and dismissed before,
    there is a way for the timers to fire that leaves none under way 200
    milliseconds after the last of them was due; and in whatever order they
    fire, once none is left exactly the persistent toasts nobody had
    dismissed are shown, unchanged. *)
Theorem toasts_settle l s :
  toast_run no_toasts l = Some s →
  (∃ l' s', Forall alone l' ∧ toast_run s l' = Some s' ∧ tt_timers s' = [] ∧ tt_now s' = latest s + EXIT_ANIMATION_MS)
  ∧ ∀ l' s', Forall alone l' → toast_run s l' = Some s' → tt_timers s' = [] → tt_shown s' = List.filter stays (tt_shown s).
Proof.
  intros Hrun. assert (toasts_ok s) as Hok by (eapply toast_run_ok; [apply no_toasts_ok|exact Hrun]). clear l Hrun. split.
  - destruct (latest_spec s) as [Hnow Hall]. set (s1 := Build_Toasts (tt_shown s) (tt_timers s) (latest s) (tt_nextId s)).
    assert (toast_step s (ev_pass (latest s - tt_now s)) = Some s1) as E1.
    { cbn [toast_step]. destruct (Z.leb_spec 0 (latest s - tt_now s)); [|lia]. unfold s1. do 2 f_equal. lia. }
    destruct (fires (length (tt_timers s1)) s1) as (s2 & new & Hrun2 & Hnow2 & Hts2 & Hnew & _); [done|rewrite take_ge by done; exact Hall|].
    rewrite drop_ge in Hts2 by done. simpl in Hts2, Hnow2, Hnew.
    set (s3 := Build_Toasts (tt_shown s2) (tt_timers s2) (tt_now s2 + EXIT_ANIMATION_MS) (tt_nextId s2)).
    destruct (fires (length (tt_timers s3)) s3) as (s4 & new' & Hrun4 & Hnow4 & Hts4 & _ & Hnone); [done|..].
    { rewrite take_ge by done. simpl. rewrite Hts2. intros x Hx. destruct (Hnew x Hx) as [id ->]. simpl. lia. }
    rewrite drop_ge in Hts4 by done. rewrite Hnone in Hts4.
    2: { rewrite take_ge by done. simpl. rewrite Hts2. intros x Hx. destruct (Hnew x Hx) as [id ->]. by exists id. }
    exists ((ev_pass (latest s - tt_now s) :: replicate (length (tt_timers s1)) (ev_fire 0))
            ++ ev_pass EXIT_ANIMATION_MS :: replicate (length (tt_timers s3)) (ev_fire 0)), s4. split_and!.
    + apply Forall_app. split; (constructor; [done|]); by apply Forall_replicate.
    + rewrite toast_run_app. cbn [toast_run]. rewrite E1, Hrun2. cbn [toast_run]. exact Hrun4.
    + done.
    + rewrite Hnow4. simpl. by rewrite Hnow2.
  - intros l' s' Hl Hrun' Hnone. rewrite <- (alone_run l' s s') by done. apply quiet_stays; [|done]. by eapply toast_run_ok.
Qed.

(** At most five are shown, the newest among them. *)
Lemma toast_shown l s o :
  toast_run no_toasts l = Some s →
  (length (tt_shown s) ≤ 5)%nat ∧ last (tt_shown (toast o s)) = Some (entry_of (tt_nextId s + 1) o).
Proof.
  intros Hrun. assert (toasts_ok s) as Hok by (eapply toast_run_ok; [apply no_toasts_ok|exact Hrun]).
  split; [apply Hok|]. unfold toast. cbn [tt_shown]. set (next := tt_shown s ++ [entry_of (tt_nextId s + 1) o]).
  assert (length next - MAX_VISIBLE ≤ length (tt_shown s))%nat as Hle by (unfold next; rewrite length_app; simpl; unfold MAX_VISIBLE; lia).
  unfold next at 2. rewrite drop_app_le by done. apply last_snoc.
Qed.

(** The bar of a toast stops under the pointer; the toast goes all the same. *)
Lemma hover_pauses_the_bar_only :
  toast_run no_toasts [ev_toast (plain_toast info "Saved"); ev_pass 4000; ev_fire 0; ev_pass 200; ev_fire 0] = Some (Build_Toasts [] [] 4200 1)
  ∧ fold_left card_step [mouse_enter; card_pass 4000; card_pass 200] (Build_Card false 0) = Build_Card true 0.
Proof. split; vm_compute; reflexivity. Qed.

Lemma toasts_settle_witness :
  let l := [ev_toast (plain_toast success "a"); ev_toast (Build_ToastOptions None "b" None None (Some true) None);
            ev_toast (plain_toast error "c"); ev_dismiss 3; ev_pass 5000; ev_fire 0] in
  ∃ s, toast_run no_toasts l = Some s ∧ List.map te_id (tt_shown s) = [1; 2; 3] ∧ List.map te_id (List.filter stays (tt_shown s)) = [2]
    ∧ ∃ l' s', toast_run s l' = Some s' ∧ tt_timers s' = [] ∧ List.map te_id (tt_shown s') = [2].
Proof.
  intros l. assert (∃ s, toast_run no_toasts l = Some s ∧ List.map te_id (tt_shown s) = [1; 2; 3] ∧ List.map te_id (List.filter stays (tt_shown s)) = [2]) as (s & Hs & H3 & H2).
  { eexists. split; [vm_compute; reflexivity|split; reflexivity]. }
  exists s. split_and!; [exact Hs|exact H3|exact H2|]. destruct (toasts_settle l s Hs) as [(l' & s' & Ha & Hr & Ht & _) Hall].
  exists l', s'. split_and!; [exact Hr|exact Ht|]. rewrite (Hall l' s' Ha Hr Ht). exact H2.
Defined.
