(* ===== verification/Trace.v ===== *)
(** * Trace search ([pages/TroubleshootingPage.tsx], [pages/troubleshooting/callDisplay.ts])

    What a search box is read as, the request it makes and what the API
    ([docker/api/src/routers/homer.py]) makes of that; the page as a state
    machine over its form, its cursors and the request under way; the table
    of calls; and what is shown about a call.  An instant is its milliseconds;
    [toISOString] writes it and Python reads it back.  [toLowerCase] and
    [toUpperCase] are those of ASCII. *)
From Stdlib Require Import QArith Qround.
From S2P Require Import Prelude JsString JsValue Format Homer LadderOrder LadderRows SipText Double.

Local Close Scope Q_scope.
Local Open Scope string_scope.
Local Open Scope Z_scope.
Local Open Scope list_scope.

(** ** What is typed *)

Inductive NeedleKind := k_empty | k_number | k_callid | k_too_short.
#[export] Instance NeedleKind_eq_dec : EqDecision NeedleKind.
Proof. solve_decision. Defined.

Record NeedleClassification := {
  nc_kind : NeedleKind;
  nc_digits : string;
}.

Definition mirrorServerNumberNormalization (raw : string) : string :=
  let digits := digits_of raw in
  if (String.length digits =? 11)%nat && starts_with "1" digits then slice_from 1 digits else digits.

(** [[\s().-]], the ASCII part. *)
Definition is_format (a : ascii) : bool := ws1 a || (code a =? 40) || (code a =? 41) || (code a =? 46) || (code a =? 45).

(** [s.replace(/[\s().-]/g, '')] *)
Fixpoint unformat (s : string) : string :=
  match s with
  | String a s1 =>
      if is_format a then unformat s1 else
      match s1 with
      | String b s2 =>
          if ws2 a b then unformat s2 else
          match s2 with
          | String c s3 => if ws3 a b c then unformat s3 else String a (unformat s1)
          | _ => String a (unformat s1)
          end
      | _ => String a (unformat s1)
      end
  | _ => ""
  end.

Definition drop_plus (s : string) : string := if starts_with "+" s then slice_from 1 s else s.

Definition classifyNeedle (raw : string) : NeedleClassification :=
  let value := trim raw in
  if value ==? "" then Build_NeedleClassification k_empty ""
  else if contains "@" value then Build_NeedleClassification k_callid ""
  else if negb (sforall is_digit (unformat (drop_plus value))) then Build_NeedleClassification k_callid ""
  else
    let digits := mirrorServerNumberNormalization value in
    if (String.length digits <? 3)%nat then Build_NeedleClassification k_too_short digits
    else Build_NeedleClassification k_number digits.

Definition groupDigits (digits : string) : string :=
  if (String.length digits =? 10)%nat then "(" +:+ slice 0 3 digits +:+ ") " +:+ slice 3 6 digits +:+ "-" +:+ slice_from 6 digits
  else if (String.length digits =? 7)%nat then slice 0 3 digits +:+ "-" +:+ slice_from 3 digits
  else digits.

(** ** What is searched *)

Definition MINUTE_MS : Z := 60 * 1000.
Definition HOUR_MS : Z := 60 * MINUTE_MS.
Definition DAY_MS : Z := 24 * HOUR_MS.

Inductive TracePresetId := p_15m | p_1h | p_24h | p_7d | p_custom.
#[export] Instance TracePresetId_eq_dec : EqDecision TracePresetId.
Proof. solve_decision. Defined.

(** [TRACE_PRESETS.find((p) => p.id === preset)?.ms] *)
Definition preset_ms (preset : TracePresetId) : option Z :=
  match preset with
  | p_15m => Some (15 * MINUTE_MS)
  | p_1h => Some HOUR_MS
  | p_24h => Some DAY_MS
  | p_7d => Some (7 * DAY_MS)
  | p_custom => None
  end.

Definition presetWindow (preset : TracePresetId) (now : Z) : Z * Z := (now - default DAY_MS (preset_ms preset), now).

Record SearchFormState := {
  sf_omni : string;
  sf_fromUser : string;
  sf_toUser : string;
  sf_advCallId : string;
  sf_rangePreset : TracePresetId;
  sf_startLocal : string;
  sf_endLocal : string;
}.

Record DerivedSearch := {
  de_omniKind : NeedleKind;
  de_effectiveAdvCallId : string;
  de_segments : list (string * string);
  de_needleError : option string;
  de_rangeError : option string;
  de_broadSearch : bool;
}.

Record HomerSearchParams := {
  hp_number : option string;
  hp_from_user : option string;
  hp_to_user : option string;
  hp_call_id : option string;
  hp_start_time : Z;
  hp_end_time : Z;
  hp_before_ns : option Z;
}.

Definition quoted (s : string) : string := "“" +:+ s +:+ "”".

(** The segment of one of the three number boxes. *)
Definition box_segment (number_label callid_label text : string) (c : NeedleClassification) : list (string * string) :=
  match nc_kind c with
  | k_number => [(number_label, groupDigits (nc_digits c))]
  | k_callid => [(callid_label, quoted (trim text))]
  | _ => []
  end.

Definition short_number (c : NeedleClassification) : bool :=
  (nc_kind c ==? k_number) && (String.length (nc_digits c) <=? 5)%nat.

(** The browser's clock of the place: [new Date(text)] of a datetime-local
    value, and the value of an instant. *)
Class LocalTime := {
  of_local : string → option Z;
  toDatetimeLocal : Z → string;
}.

Section Search.
Context `{LocalTime}.

(** [rangeError] and [windowMs] *)
Definition range_of (form : SearchFormState) : option string * option Z :=
  match sf_rangePreset form with
  | p_custom =>
      if (sf_startLocal form ==? "") || (sf_endLocal form ==? "") then
        (Some "Custom range requires both a start and an end date/time.", None)
      else match of_local (sf_startLocal form), of_local (sf_endLocal form) with
           | Some start, Some end_ =>
               if end_ <=? start then (Some "Start must be before end.", None) else (None, Some (end_ - start))
           | _, _ => (Some "Enter a valid start and end date/time.", None)
           end
  | preset => (None, preset_ms preset)
  end.

Definition deriveSearch (form : SearchFormState) : DerivedSearch :=
  let omniC := classifyNeedle (sf_omni form) in
  let fromC := classifyNeedle (sf_fromUser form) in
  let toC := classifyNeedle (sf_toUser form) in
  let effectiveAdvCallId := if nc_kind omniC ==? k_callid then "" else trim (sf_advCallId form) in
  let segments :=
    box_segment "for numbers containing" "Call-ID (exact match)" (sf_omni form) omniC
    ++ box_segment "From containing" "From containing" (sf_fromUser form) fromC
    ++ box_segment "To containing" "To containing" (sf_toUser form) toC
    ++ (if effectiveAdvCallId ==? "" then [] else [("Call-ID containing", quoted effectiveAdvCallId)]) in
  let needleError :=
    if nc_kind omniC ==? k_too_short then Some "Keep typing — a number search needs at least 3 digits."
    else if nc_kind fromC ==? k_too_short then Some "From needs at least 3 digits to search as a number."
    else if nc_kind toC ==? k_too_short then Some "To needs at least 3 digits to search as a number."
    else None in
  let '(rangeError, windowMs) := range_of form in
  let hasCallId := (nc_kind omniC ==? k_callid) || (effectiveAdvCallId !=? "") in
  let hasShortNumberNeedle := existsb short_number [omniC; fromC; toC] in
  let broadSearch := negb hasCallId && hasShortNumberNeedle && match windowMs with Some ms => DAY_MS <? ms | None => false end in
  Build_DerivedSearch (nc_kind omniC) effectiveAdvCallId segments needleError rangeError broadSearch.

Definition canSearch (form : SearchFormState) : bool :=
  let d := deriveSearch form in
  match de_segments d with [] => false | _ => true end
  && match de_needleError d with None => true | Some _ => false end
  && match de_rangeError d with None => true | Some _ => false end.

Definition non_empty (s : string) : option string := if s ==? "" then None else Some s.

(** The window of [handleSearch]; a custom range that does not read makes
    [toISOString] throw. *)
Definition search_window (form : SearchFormState) (now : Z) : option (Z * Z) :=
  match sf_rangePreset form with
  | p_custom => match of_local (sf_startLocal form), of_local (sf_endLocal form) with Some a, Some b => Some (a, b) | _, _ => None end
  | preset => Some (presetWindow preset now)
  end.

(** The request of [handleSearch]. *)
Definition search_params (form : SearchFormState) (now : Z) : option HomerSearchParams :=
  let d := deriveSearch form in
  match search_window form now with
  | None => None
  | Some (start, end_) =>
      let omniValue := trim (sf_omni form) in
      Some {| hp_number := if de_omniKind d ==? k_number then Some omniValue else None;
              hp_from_user := non_empty (trim (sf_fromUser form));
              hp_to_user := non_empty (trim (sf_toUser form));
              hp_call_id := match non_empty (de_effectiveAdvCallId d) with
                            | Some id => Some id
                            | None => if de_omniKind d ==? k_callid then Some omniValue else None
                            end;
              hp_start_time := start; hp_end_time := end_; hp_before_ns := None |}
  end.

(** [derived.segments.map(...).join(' · ')] *)
Definition search_summary (form : SearchFormState) : string :=
  join " · " (List.map (λ s, s.1 +:+ " " +:+ s.2) (de_segments (deriveSearch form))).
End Search.

(** ** What the API makes of it *)

Definition normalize_number_needle (raw : string) : string + string :=
  let digits := digits_of raw in
  let digits := if (String.length digits =? 11)%nat && starts_with "1" digits then slice_from 1 digits else digits in
  if (String.length digits <? 3)%nat then inl "need at least 3 digits" else inr digits.

Definition needle_or_422 (field : string) (raw : option string) : string + option string :=
  match raw with
  | None => inr None
  | Some raw =>
      if raw ==? "" then inr None
      else match normalize_number_needle raw with
           | inr digits => inr (Some digits)
           | inl exc => inl (field +:+ ": " +:+ exc)
           end
  end.

(** The needles a request is searched by, or the detail of the 422. *)
Record SearchReading := {
  rd_number : option string;
  rd_from : option string;
  rd_to : option string;
  rd_call_id : option string;
}.
Definition needles_of (p : HomerSearchParams) : string + SearchReading :=
  match needle_or_422 "number" (hp_number p) with
  | inl e => inl e
  | inr number =>
      match needle_or_422 "from_user" (hp_from_user p) with
      | inl e => inl e
      | inr from =>
          match needle_or_422 "to_user" (hp_to_user p) with
          | inl e => inl e
          | inr to => inr (Build_SearchReading number from to (hp_call_id p ≫= non_empty))
          end
      end
  end.

(** What the API knows of its number index ([routers/homer_index.py]). *)
Record Capability := {
  cb_number_index : bool;
  cb_covered_from_ns : option Z;
}.
Definition covers (cap : Capability) (start_ns : Z) : bool :=
  cb_number_index cap && match cb_covered_from_ns cap with Some from => from <=? start_ns | None => false end.

Definition MAX_SCAN_HOURS : Z := 24.
Definition NS : Z := 1000000000.

(** [_iso_to_unix_ns] of what [toISOString] writes: Python reads the years 1 to
    9999, and takes the instant through a float, which is exact for whole
    seconds; the fraction of a microsecond others lose is left out. *)
Definition iso_to_unix_ns (ms : Z) : option Z :=
  if (-62135596800000 <=? ms) && (ms <=? 253402300799999) then Some (ms * 1000000) else None.

Inductive SearchPath := sp_call_id | sp_index | sp_scan.

(** Why a search is refused before anything is looked up. *)
Inductive SearchRefusal := rf_no_criterion | rf_needle (detail : string) | rf_timestamp | rf_window_too_wide.

Definition search_path (cap : Capability) (call_id : option string) (start_ns end_ns : Z) : option SearchPath :=
  match call_id with
  | Some _ => Some sp_call_id
  | None => if covers cap start_ns then Some sp_index
            else if end_ns - start_ns <=? MAX_SCAN_HOURS * 3600 * NS then Some sp_scan
            else None
  end.

(** [search_sip_traces] up to the lookup: its path and its needles.  What the
    lookup itself can run into (limits of ClickHouse, an index that is gone)
    comes after. *)
Definition read_request (cap : Capability) (p : HomerSearchParams) : SearchRefusal + SearchPath * SearchReading :=
  match hp_number p ≫= non_empty, hp_from_user p ≫= non_empty, hp_to_user p ≫= non_empty, hp_call_id p ≫= non_empty with
  | None, None, None, None => inl rf_no_criterion
  | _, _, _, _ =>
      match needles_of p with
      | inl detail => inl (rf_needle detail)
      | inr r =>
          match iso_to_unix_ns (hp_start_time p), iso_to_unix_ns (hp_end_time p) with
          | Some start_ns, Some end_ns =>
              match search_path cap (rd_call_id r) start_ns end_ns with
              | Some path => inr (path, r)
              | None => inl rf_window_too_wide
              end
          | _, _ => inl rf_timestamp
          end
      end
  end.

(** ** The page *)

(** The answer of a search, as far as the pager reads it. *)
Record HomerSearchResponse := {
  rs_data : list HomerSearchResult;
  rs_oldest_ts_ns : option Z;
  rs_has_more : bool;
}.

Record CommittedSearch := {
  cs_summary : string;
  cs_start : Z;
  cs_end : Z;
  cs_baseParams : HomerSearchParams;
}.

Definition withPageCursor (base : HomerSearchParams) (beforeNs : option Z) : HomerSearchParams :=
  match beforeNs with
  | None => base
  | Some ns => Build_HomerSearchParams (hp_number base) (hp_from_user base) (hp_to_user base) (hp_call_id base)
                 (hp_start_time base) (hp_end_time base) (Some ns)
  end.

(** [searchMutation]: a new [mutate] drops whatever was asked before. *)
Inductive Mutation :=
  | mu_idle
  | mu_pending (params : HomerSearchParams)
  | mu_data (params : HomerSearchParams) (r : HomerSearchResponse)
  | mu_error (params : HomerSearchParams) (message : string).

Record Trace := {
  tr_form : SearchFormState;
  tr_advancedOpen : bool;
  tr_hasSearched : bool;
  tr_lastSearch : option CommittedSearch;
  tr_cursorStack : list Z;
  tr_mutation : Mutation;
}.

Definition searchData (s : Trace) : option HomerSearchResponse := match tr_mutation s with mu_data _ r => Some r | _ => None end.
Definition isLoading (s : Trace) : bool := match tr_mutation s with mu_pending _ => true | _ => false end.
Definition isError (s : Trace) : bool := match tr_mutation s with mu_error _ _ => true | _ => false end.

Definition page (s : Trace) : nat := length (tr_cursorStack s) + 1.

(** The cursor of the next page, if there is one. *)
Definition next_cursor (s : Trace) : option Z :=
  match searchData s with
  | Some r => if rs_has_more r then match rs_oldest_ts_ns r with Some ns => if 0 <? ns then Some ns else None | None => None end else None
  | None => None
  end.
Definition canNextPage (s : Trace) : bool := match next_cursor s with Some _ => true | None => false end.
Definition showPager (s : Trace) : bool := tr_hasSearched s && ((1 <? page s)%nat || (negb (isError s) && canNextPage s)).

Section Page.
Context `{LocalTime}.

Definition cleared_form (now : Z) : SearchFormState :=
  Build_SearchFormState "" "" "" "" p_24h (toDatetimeLocal (now - DAY_MS)) (toDatetimeLocal now).

(** The page as it is mounted. *)
Definition initial_trace (now : Z) : Trace := Build_Trace (cleared_form now) false false None [] mu_idle.

Definition set_form (f : SearchFormState) (s : Trace) : Trace :=
  Build_Trace f (tr_advancedOpen s) (tr_hasSearched s) (tr_lastSearch s) (tr_cursorStack s) (tr_mutation s).

(** [setCursorStack] and [runSearch]. *)
Definition run_page (stack : list Z) (p : HomerSearchParams) (s : Trace) : Trace :=
  Build_Trace (tr_form s) (tr_advancedOpen s) (tr_hasSearched s) (tr_lastSearch s) stack (mu_pending p).

Definition handleSearch (now : Z) (s : Trace) : Trace :=
  if negb (canSearch (tr_form s)) then s
  else match search_params (tr_form s) now with
       | Some params =>
           Build_Trace (tr_form s) (tr_advancedOpen s) true
             (Some (Build_CommittedSearch (search_summary (tr_form s)) (hp_start_time params) (hp_end_time params) params))
             [] (mu_pending params)
       | None => s
       end.

Definition handleClear (now : Z) : Trace := Build_Trace (cleared_form now) false false None [] mu_idle.

Definition handleNextPage (s : Trace) : Trace :=
  match tr_lastSearch s, next_cursor s with
  | Some search, Some oldest => run_page (tr_cursorStack s ++ [oldest]) (withPageCursor (cs_baseParams search) (Some oldest)) s
  | _, _ => s
  end.

Definition handlePrevPage (s : Trace) : Trace :=
  match tr_lastSearch s, tr_cursorStack s with
  | None, _ | _, [] => s
  | Some search, stack =>
      let popped := take (length stack - 1) stack in
      run_page popped (withPageCursor (cs_baseParams search) (last popped)) s
  end.

Inductive TraceEvent :=
  | ev_omni (text : string) | ev_from (text : string) | ev_to (text : string) | ev_call_id (text : string)
  | ev_start (text : string) | ev_end (text : string)
  | ev_preset (p : TracePresetId) | ev_custom (now : Z) | ev_advanced (open : bool)
  | ev_search (now : Z) | ev_enter (now : Z) | ev_clear (now : Z)
  | ev_next | ev_prev
  | ev_answer (r : HomerSearchResponse) | ev_fail (message : string).

Definition with_omni (t : string) (f : SearchFormState) :=
  Build_SearchFormState t (sf_fromUser f) (sf_toUser f) (sf_advCallId f) (sf_rangePreset f) (sf_startLocal f) (sf_endLocal f).
Definition with_from (t : string) (f : SearchFormState) :=
  Build_SearchFormState (sf_omni f) t (sf_toUser f) (sf_advCallId f) (sf_rangePreset f) (sf_startLocal f) (sf_endLocal f).
Definition with_to (t : string) (f : SearchFormState) :=
  Build_SearchFormState (sf_omni f) (sf_fromUser f) t (sf_advCallId f) (sf_rangePreset f) (sf_startLocal f) (sf_endLocal f).
Definition with_call_id (t : string) (f : SearchFormState) :=
  Build_SearchFormState (sf_omni f) (sf_fromUser f) (sf_toUser f) t (sf_rangePreset f) (sf_startLocal f) (sf_endLocal f).
Definition with_range (p : TracePresetId) (start end_ : string) (f : SearchFormState) :=
  Build_SearchFormState (sf_omni f) (sf_fromUser f) (sf_toUser f) (sf_advCallId f) p start end_.

Definition is_custom (s : Trace) : bool := sf_rangePreset (tr_form s) ==? p_custom.

(** The values in the pickers: under a preset its window. *)
Definition picker_values (now : Z) (f : SearchFormState) : string * string :=
  match sf_rangePreset f with
  | p_custom => (sf_startLocal f, sf_endLocal f)
  | preset => let '(start, end_) := presetWindow preset now in (toDatetimeLocal start, toDatetimeLocal end_)
  end.

(** What happens on the page; [None]: it cannot.  [ev_enter] is the key in a
    box, which works while a search is under way. *)
Definition trace_step (s : Trace) (e : TraceEvent) : option Trace :=
  let f := tr_form s in
  match e with
  | ev_omni t => Some (set_form (with_omni t f) s)
  | ev_from t => Some (set_form (with_from t f) s)
  | ev_to t => Some (set_form (with_to t f) s)
  | ev_call_id t => if nc_kind (classifyNeedle (sf_omni f)) ==? k_callid then None else Some (set_form (with_call_id t f) s)
  | ev_start t => if is_custom s then Some (set_form (with_range p_custom t (sf_endLocal f) f) s) else None
  | ev_end t => if is_custom s then Some (set_form (with_range p_custom (sf_startLocal f) t f) s) else None
  | ev_preset p => if p ==? p_custom then None else Some (set_form (with_range p (sf_startLocal f) (sf_endLocal f) f) s)
  | ev_custom now => let '(a, b) := picker_values now f in Some (set_form (with_range p_custom a b f) s)
  | ev_advanced open => Some (Build_Trace f open (tr_hasSearched s) (tr_lastSearch s) (tr_cursorStack s) (tr_mutation s))
  | ev_search now => if isLoading s || negb (canSearch f) then None else Some (handleSearch now s)
  | ev_enter now => Some (handleSearch now s)
  | ev_clear now => if isLoading s then None else Some (handleClear now)
  | ev_next => if showPager s && negb (isLoading s) && canNextPage s then Some (handleNextPage s) else None
  | ev_prev => if showPager s && negb (isLoading s) && (1 <? page s)%nat then Some (handlePrevPage s) else None
  | ev_answer r =>
      match tr_mutation s with
      | mu_pending p => Some (Build_Trace f (tr_advancedOpen s) (tr_hasSearched s) (tr_lastSearch s) (tr_cursorStack s) (mu_data p r))
      | _ => None
      end
  | ev_fail m =>
      match tr_mutation s with
      | mu_pending p => Some (Build_Trace f (tr_advancedOpen s) (tr_hasSearched s) (tr_lastSearch s) (tr_cursorStack s) (mu_error p m))
      | _ => None
      end
  end.

Fixpoint trace_run (s : Trace) (l : list TraceEvent) : option Trace :=
  match l with
  | [] => Some s
  | e :: l => match trace_step s e with Some s => trace_run s l | None => None end
  end.
End Page.

(** ** The table of calls *)

(** An open call, and the array of groups (its identity and its length) it
    was opened from. *)
Record CallSelection := {
  sl_groups : Z;
  sl_count : Z;
  sl_idx : Z;
}.

(** The row that has the focus, if one has. *)
Record ResultsTable := {
  rt_selection : option CallSelection;
  rt_focus : option Z;
}.

Section Table.
(** The identity and the length of the groups on show. *)
Context (callGroups count : Z).

Definition activeIdx (t : ResultsTable) : option Z :=
  match rt_selection t with
  | Some sel => if (sl_groups sel =? callGroups) && (sl_idx sel <? count) then Some (sl_idx sel) else None
  | None => None
  end.

Definition openCall (idx : Z) (t : ResultsTable) : ResultsTable :=
  Build_ResultsTable (Some (Build_CallSelection callGroups count idx)) (rt_focus t).

Definition handleStep (direction : Z) (t : ResultsTable) : ResultsTable :=
  match rt_selection t with
  | Some sel =>
      let next := sl_idx sel + direction in
      if (next <? 0) || (sl_count sel <=? next) then t
      else Build_ResultsTable (Some (Build_CallSelection (sl_groups sel) (sl_count sel) next)) (rt_focus t)
  | None => t
  end.

(** The focus returns to the row of the call open last. *)
Definition handleClose (t : ResultsTable) : ResultsTable :=
  Build_ResultsTable None (match activeIdx t with Some idx => Some idx | None => rt_focus t end).

Definition has_row (idx : Z) : bool := (0 <=? idx) && (idx <? count).

Definition handleRowKeyDown (key : string) (idx : Z) (t : ResultsTable) : ResultsTable :=
  if (key ==? "Enter") || (key ==? " ") then openCall idx t
  else if (key ==? "ArrowDown") || (key ==? "ArrowUp") then
    let target := if key ==? "ArrowDown" then idx + 1 else idx - 1 in
    if has_row target then Build_ResultsTable (rt_selection t) (Some target) else t
  else t.

Inductive TableEvent := tb_click (idx : Z) | tb_key (key : string) (idx : Z) | tb_step (direction : Z) | tb_close.

(** A row's events need the row; the panel's need it open. *)
Definition table_step (t : ResultsTable) (e : TableEvent) : option ResultsTable :=
  match e with
  | tb_click idx => if has_row idx then Some (openCall idx t) else None
  | tb_key key idx => if has_row idx then Some (handleRowKeyDown key idx t) else None
  | tb_step direction => match activeIdx t with Some _ => Some (handleStep direction t) | None => None end
  | tb_close => match activeIdx t with Some _ => Some (handleClose t) | None => None end
  end.
End Table.

(** ** What is shown about a call *)

Definition looksLikePhone (value : string) : bool :=
  let n := String.length (digits_of value) in (7 <=? n)%nat && (n <=? 15)%nat.

Definition displayUser (value : string) : string := if looksLikePhone value then fmt value else value.

Definition fmtCallDuration (seconds : Z) : string :=
  if seconds <? 0 then "—"
  else
    let mins := seconds / 60 in
    let secs := seconds mod 60 in
    if mins =? 0 then print_int secs +:+ "s" else print_int mins +:+ "m " +:+ print_int secs +:+ "s".

Definition NODE_ZONES : list (string * string) :=
  [("100", "East"); ("200", "East"); ("201", "East"); ("110", "West"); ("210", "West"); ("211", "West");
   ("120", "Central"); ("220", "Central"); ("221", "Central")].

Record ZoneInfo := {
  zi_label : string;
  zi_known : bool;
}.

(** The zone of the first id of [node] that maps. *)
Definition node_zone (node : string) : option string :=
  match List.filter (λ z, match z with Some _ => true | None => false end)
          (List.map (λ id, om_get (trim id) NODE_ZONES) (split_on ","%char node)) with
  | z :: _ => z
  | [] => None
  end.

(** The loop, with [raw] so far. *)
Fixpoint zone_from (raw : option string) (messages : list HomerSearchResult) : option ZoneInfo :=
  match messages with
  | [] => match raw with Some label => Some (Build_ZoneInfo label false) | None => None end
  | msg :: messages =>
      match match hr_node msg with Some node => non_empty node | None => None end with
      | None => zone_from raw messages
      | Some node =>
          match node_zone node with
          | Some zone => Some (Build_ZoneInfo zone true)
          | None => zone_from (match raw with Some _ => raw | None => Some node end) messages
          end
      end
  end.
Definition deriveZone (messages : list HomerSearchResult) : option ZoneInfo := zone_from None messages.

Definition isPlatformNode (alias : string) : bool :=
  let up := upper alias in
  if contains "SBC" up || contains "VIP" up || contains "FREESWITCH" up || contains "SERVICES" up then true
  else fs_token true up.

Definition POP_NAMES : list (string * string) := [("DAL", "Dallas"); ("ATL", "Atlanta"); ("CHI", "Chicago"); ("DEN", "Denver")].

(** [alias.slice(alias.indexOf('-') + 1)], if there is a dash. *)
Fixpoint after_dash (s : string) : option string :=
  match s with "" => None | String a s => if code a =? 45 then Some s else after_dash s end.

Definition carrierEndpointLabel (alias : string) : string :=
  let headLower := lower (before_dash alias) in
  if negb (includes ["bw"; "bandwidth"; "sinch"] headLower) then alias
  else
    let carrier := if headLower ==? "sinch" then "Sinch" else "BW" in
    match after_dash alias with
    | None => carrier
    | Some rest =>
        let pop := join " " (List.map (λ tok, default tok (om_get (upper tok) POP_NAMES))
                               (List.filter (λ tok, tok !=? "") (split_on "-"%char rest))) in
        if pop ==? "" then carrier else carrier +:+ "·" +:+ pop
    end.

Record CarrierEndpoints := {
  ce_orig : option string;
  ce_term : option string;
}.

Definition external (alias : string) : bool := (alias !=? "") && negb (isPlatformNode alias).

Definition endpoints_step (e : CarrierEndpoints) (msg : HomerSearchResult) : CarrierEndpoints :=
  if negb (hr_status msg ==? None) || (upper (hr_method msg) !=? "INVITE") then e
  else
    let orig := match ce_orig e with
                | Some _ => ce_orig e
                | None => if external (hr_src_ip msg) then Some (hr_src_ip msg) else None
                end in
    Build_CarrierEndpoints orig (if external (hr_dst_ip msg) then Some (hr_dst_ip msg) else ce_term e).
Definition deriveCarrierEndpoints (messages : list HomerSearchResult) : CarrierEndpoints :=
  fold_left endpoints_step messages (Build_CarrierEndpoints None None).

(** [Math.floor(ns / 1_000_000)] *)
Definition ns_to_ms (ns : Z) : Z := Qfloor (div_d (inject_Z ns) (inject_Z 1000000)).

Definition callTimestamps (messages : list HomerSearchResult) : list Z :=
  omap (λ r, match hr_timestamp_ns r with Some ts => if 0 <? ts then Some ts else None | None => None end) messages.

(** [fromMs] and [toMs] of [buildGrafanaLink]. *)
Definition grafana_window (messages : list HomerSearchResult) (windowStart windowEnd : Z) : Z * Z :=
  match callTimestamps messages with
  | [] => (windowStart, windowEnd)
  | ts :: rest => (ns_to_ms (foldr Z.min ts rest) - 5000, ns_to_ms (foldr Z.max ts rest) + 60000)
  end.
