(* ===== verification/TraceOk.v ===== *)
(** * Trace search: what it promises

    The hint against what the API searches for; the pages against the search
    that was committed; the call that is open; and what the rows show. *)
From Stdlib Require Import QArith Qround.
From S2P Require Import Prelude JsString JsValue Format Homer LadderOrder LadderRows SipText Double QualityOk Trace.

Local Close Scope Q_scope.
Local Open Scope string_scope.
Local Open Scope Z_scope.
Local Open Scope list_scope.

(** ** Numbers *)

(** The hint only punctuates the digits. *)
Lemma groupDigits_digits d : sforall is_digit d = true → digits_of (groupDigits d) = d.
Proof.
  intros Hd. unfold groupDigits. destruct (String.length d =? 10)%nat; [|destruct (String.length d =? 7)%nat].
  - rewrite !digits_of_app, !digits_slice, digits_slice_from by done.
    change (digits_of "(") with "". change (digits_of ") ") with "". change (digits_of "-") with "".
    cbn [String.append]. rewrite (slice_glue 3 6), (slice_glue 0 3) by lia. done.
  - rewrite !digits_of_app, !digits_slice, digits_slice_from by done. change (digits_of "-") with "".
    cbn [String.append]. rewrite (slice_glue 0 3) by lia. done.
  - by apply sfilter_id.
Qed.

(** What the page takes for a number, the API searches by the same digits;
    what the page finds too short, the API refuses. *)
Lemma number_read raw :
  match nc_kind (classifyNeedle raw) with
  | k_number => trim raw ≠ "" ∧ normalize_number_needle (trim raw) = inr (nc_digits (classifyNeedle raw))
  | k_too_short => normalize_number_needle (trim raw) = inl "need at least 3 digits"
  | k_callid => trim raw ≠ ""
  | k_empty => trim raw = ""
  end.
Proof.
  unfold classifyNeedle, normalize_number_needle. fold (mirrorServerNumberNormalization (trim raw)). cbn zeta.
  case_bool_decide as E; [done|]. destruct (contains _ _); [done|]. destruct (negb _); [done|].
  by destruct (String.length _ <? 3)%nat.
Qed.

Lemma needle_of_number field raw :
  nc_kind (classifyNeedle raw) = k_number →
  needle_or_422 field (non_empty (trim raw)) = inr (Some (nc_digits (classifyNeedle raw)))
  ∧ needle_or_422 field (Some (trim raw)) = inr (Some (nc_digits (classifyNeedle raw))).
Proof.
  intros E. pose proof (number_read raw) as H. rewrite E in H. destruct H as [Hne Hn].
  unfold non_empty, needle_or_422. rewrite bool_decide_eq_false_2 by done. by rewrite bool_decide_eq_false_2, Hn.
Qed.

(** ** The hint *)

(** The segments that say what a request is searched by; the Call-ID of the
    search box and the one of the advanced box are said apart. *)
Definition segment (label : string) (needle : option string) : list (string * string) :=
  match needle with Some d => [(label, d)] | None => [] end.
Definition hint_of (from_omni : bool) (r : SearchReading) : list (string * string) :=
  segment "for numbers containing" (groupDigits <$> rd_number r)
  ++ (if from_omni then segment "Call-ID (exact match)" (quoted <$> rd_call_id r) else [])
  ++ segment "From containing" (groupDigits <$> rd_from r)
  ++ segment "To containing" (groupDigits <$> rd_to r)
  ++ (if from_omni then [] else segment "Call-ID containing" (quoted <$> rd_call_id r)).

Section Hint.
Context `{LocalTime}.

Lemma canSearch_kinds form : canSearch form = true →
  nc_kind (classifyNeedle (sf_omni form)) ≠ k_too_short ∧ nc_kind (classifyNeedle (sf_fromUser form)) ≠ k_too_short
  ∧ nc_kind (classifyNeedle (sf_toUser form)) ≠ k_too_short ∧ de_rangeError (deriveSearch form) = None.
Proof.
  unfold canSearch, deriveSearch. destruct (range_of form) as [re ms]. cbn [de_needleError de_rangeError].
  intros [[_ Hn]%andb_true_iff Hr]%andb_true_iff. destruct re; [done|].
  repeat case_bool_decide; done.
Qed.

(** A search the page lets through has a window. *)
Lemma canSearch_window form now : canSearch form = true → ∃ p, search_params form now = Some p.
Proof.
  intros (_ & _ & _ & Hr)%canSearch_kinds. unfold deriveSearch in Hr. unfold search_params.
  assert (∃ w, search_window form now = Some w) as [[a b] ->]; [|eauto].
  destruct (range_of form) as [re ms] eqn:E. cbn [de_rangeError] in Hr. subst re. unfold range_of in E. unfold search_window.
  destruct (sf_rangePreset form); try (eexists; reflexivity).
  destruct (_ || _); [done|]. destruct (of_local (sf_startLocal form)), (of_local (sf_endLocal form)); try done. eauto.
Qed.

Lemma box_read field number_label callid_label text :
  nc_kind (classifyNeedle text) ≠ k_too_short → nc_kind (classifyNeedle text) ≠ k_callid →
  ∃ needle, needle_or_422 field (non_empty (trim text)) = inr needle
    ∧ box_segment number_label callid_label text (classifyNeedle text) = segment number_label (groupDigits <$> needle).
Proof.
  intros Hs Hc. pose proof (number_read text) as Hr. unfold box_segment. destruct (nc_kind (classifyNeedle text)) eqn:E; try done.
  - exists None. rewrite Hr. done.
  - eexists. split; [by apply needle_of_number|]. by rewrite ?E.
Qed.
End Hint.

(** A request the page sends names something to search by. *)
Lemma request_read cap p r :
  needles_of p = inr r → rd_number r ≠ None ∨ rd_from r ≠ None ∨ rd_to r ≠ None ∨ rd_call_id r ≠ None →
  read_request cap p =
  match iso_to_unix_ns (hp_start_time p), iso_to_unix_ns (hp_end_time p) with
  | Some start_ns, Some end_ns =>
      match search_path cap (rd_call_id r) start_ns end_ns with
      | Some path => inr (path, r)
      | None => inl rf_window_too_wide
      end
  | _, _ => inl rf_timestamp
  end.
Proof.
  intros Hr Hne. unfold read_request.
  assert (∀ field raw, raw ≫= non_empty = None → ∀ n, needle_or_422 field raw = inr n → n = None) as Hno.
  { intros field [raw|] E n; simpl in *; [|by intros [= <-]]. unfold non_empty in E. case_bool_decide; [by intros [= <-]|done]. }
  assert (hp_number p ≫= non_empty = None → hp_from_user p ≫= non_empty = None → hp_to_user p ≫= non_empty = None →
          hp_call_id p ≫= non_empty = None → False) as Hsome.
  { intros E1 E2 E3 E4. unfold needles_of in Hr.
    destruct (needle_or_422 "number" _) as [|n1] eqn:N1; [done|]. destruct (needle_or_422 "from_user" _) as [|n2] eqn:N2; [done|].
    destruct (needle_or_422 "to_user" _) as [|n3] eqn:N3; [done|]. injection Hr as <-. simpl in Hne. rewrite E4 in Hne.
    apply Hno in N1, N2, N3; [|done..]. subst. by destruct Hne as [?|[?|[?|?]]]. }
  rewrite Hr.
  destruct (hp_number p ≫= non_empty), (hp_from_user p ≫= non_empty), (hp_to_user p ≫= non_empty), (hp_call_id p ≫= non_empty);
    try reflexivity. exfalso. by apply Hsome.
Qed.

(** The hint is of the needles a request carries. *)
Lemma hint_of_needles `{LocalTime} form now p :
  canSearch form = true → search_params form now = Some p →
  nc_kind (classifyNeedle (sf_fromUser form)) ≠ k_callid → nc_kind (classifyNeedle (sf_toUser form)) ≠ k_callid →
  ∃ r, needles_of p = inr r ∧ de_segments (deriveSearch form) = hint_of (nc_kind (classifyNeedle (sf_omni form)) ==? k_callid) r.
Proof.
  intros (Ho & Hf & Ht & _)%canSearch_kinds Hp Hcf Hct.
  destruct (box_read "from_user" "From containing" "From containing" _ Hf Hcf) as (from & Ef & Sf).
  destruct (box_read "to_user" "To containing" "To containing" _ Ht Hct) as (to & Et & St).
  unfold search_params in Hp. destruct (search_window form now) as [[a b]|]; [|done]. injection Hp as <-.
  unfold needles_of. cbn [hp_number hp_from_user hp_to_user hp_call_id]. rewrite Ef, Et.
  unfold deriveSearch. destruct (range_of form) as [re ms]. cbn [de_segments de_omniKind de_effectiveAdvCallId].
  rewrite Sf, St. unfold hint_of, box_segment. pose proof (number_read (sf_omni form)) as Hr.
  assert (∀ id, match non_empty id with Some i => Some i | None => None end ≫= non_empty = non_empty id) as Hid.
  { intros id. unfold non_empty. case_bool_decide; [done|]. simpl. by rewrite bool_decide_eq_false_2. }
  destruct (nc_kind (classifyNeedle (sf_omni form))) eqn:Ek; try done;
    repeat match goal with
    | |- context [bool_decide (@eq NeedleKind ?a ?b)] =>
        let c := eval vm_compute in (bool_decide (@eq NeedleKind a b)) in change (bool_decide (@eq NeedleKind a b)) with c; cbv iota
    end.
  - eexists. split; [reflexivity|]. cbn [rd_number rd_from rd_to rd_call_id segment fmap option_fmap option_map app].
    rewrite Hid. unfold non_empty. by case_bool_decide.
  - destruct (needle_of_number "number" _ Ek) as [_ En]. rewrite En. eexists. split; [reflexivity|].
    cbn [rd_number rd_from rd_to rd_call_id segment fmap option_fmap option_map app].
    rewrite Hid. unfold non_empty. by case_bool_decide.
  - eexists. split; [reflexivity|]. cbn [rd_number rd_from rd_to rd_call_id segment fmap option_fmap option_map app].
    change (non_empty "") with (@None string). unfold non_empty. cbv iota. simpl.
    rewrite (bool_decide_eq_false_2 (trim (sf_omni form) = "")) by done. reflexivity.
Qed.

(** C19 The hint under the search box is what the API will search by.  When a
    search is let through and From and To hold numbers, the segments of the
    hint are the needles the API reads from the request: the same digits, the
    same Call-ID, nothing more and nothing less.  What it searches by is
    exactly those, and it refuses none of them: before the lookup it turns
    down only dates out of Python's years, and, without a Call-ID, a window
    over 24 hours that its number index does not cover. *)
Theorem hint_is_what_is_searched `{LocalTime} cap form now p :
  canSearch form = true → search_params form now = Some p →
  nc_kind (classifyNeedle (sf_fromUser form)) ≠ k_callid → nc_kind (classifyNeedle (sf_toUser form)) ≠ k_callid →
  ∃ r, de_segments (deriveSearch form) = hint_of (nc_kind (classifyNeedle (sf_omni form)) ==? k_callid) r
    ∧ match read_request cap p with
      | inr (path, r') => r' = r ∧ (path = sp_call_id ↔ rd_call_id r ≠ None)
      | inl rf_window_too_wide =>
          rd_call_id r = None ∧ covers cap (hp_start_time p * 1000000) = false
          ∧ DAY_MS < hp_end_time p - hp_start_time p
      | inl rf_timestamp => iso_to_unix_ns (hp_start_time p) = None ∨ iso_to_unix_ns (hp_end_time p) = None
      | inl _ => False
      end.
Proof.
  intros Hc Hp Hcf Hct. destruct (hint_of_needles form now p Hc Hp Hcf Hct) as (r & Hr & Hs). exists r. split; [done|].
  rewrite (request_read cap p r Hr).
  - assert (∀ ms ns, iso_to_unix_ns ms = Some ns → ns = ms * 1000000) as Hns
      by (intros ms ns; unfold iso_to_unix_ns; by case_match; intros [= <-]).
    destruct (iso_to_unix_ns (hp_start_time p)) as [a|] eqn:Ea, (iso_to_unix_ns (hp_end_time p)) as [b|] eqn:Eb; try (by auto).
    apply Hns in Ea as ->. apply Hns in Eb as ->.
    unfold search_path. destruct (rd_call_id r) eqn:Eid; [by split|].
    destruct (covers _ _) eqn:Ecov; [split; [done|split; congruence]|].
    unfold MAX_SCAN_HOURS, NS, DAY_MS, HOUR_MS, MINUTE_MS. 
    destruct (_ <=? _) eqn:Ew; [split; [done|split; congruence]|].
    apply Z.leb_gt in Ew. split_and!; [done..|]. lia.
  - unfold canSearch in Hc. rewrite Hs in Hc. destruct r as [[] [] [] []]; cbn [rd_number rd_from rd_to rd_call_id]; try (by auto 10).
    exfalso. revert Hc. clear. unfold hint_of. by destruct (_ ==? k_callid).
Qed.

(** A name in From is let through, and the API refuses the request for want
    of digits. *)
Lemma from_name_refused `{LocalTime} cap form now p :
  canSearch form = true → search_params form now = Some p →
  nc_kind (classifyNeedle (sf_fromUser form)) = k_callid → (String.length (digits_of (trim (sf_fromUser form))) < 3)%nat →
  read_request cap p = inl (rf_needle "from_user: need at least 3 digits").
Proof.
  intros (Ho & _ & _ & _)%canSearch_kinds Hp Hc Hlen. unfold search_params in Hp.
  destruct (search_window form now) as [[a b]|]; [|done]. injection Hp as <-. unfold read_request, needles_of.
  cbn [hp_number hp_from_user hp_to_user hp_call_id hp_start_time hp_end_time]. unfold deriveSearch.
  destruct (range_of form) as [re ms]. cbn [de_omniKind].
  assert (∃ n, needle_or_422 "number" (if nc_kind (classifyNeedle (sf_omni form)) ==? k_number then Some (trim (sf_omni form)) else None) = inr n) as [n ->].
  { case_bool_decide as E; [|by exists None]. eexists. by apply needle_of_number. }
  pose proof (number_read (sf_fromUser form)) as Hr. rewrite Hc in Hr.
  assert (non_empty (trim (sf_fromUser form)) = Some (trim (sf_fromUser form))) as Ef
    by (unfold non_empty; by rewrite bool_decide_eq_false_2).
  rewrite Ef. cbn [mbind option_bind]. rewrite Ef.
  assert (needle_or_422 "from_user" (Some (trim (sf_fromUser form))) = inl "from_user: need at least 3 digits") as ->.
  { unfold needle_or_422. rewrite bool_decide_eq_false_2 by done. unfold normalize_number_needle. cbn zeta.
    destruct (_ && _) eqn:E; [apply andb_true_iff in E as [E _]; apply Nat.eqb_eq in E; lia|].
    destruct (Nat.ltb_spec (String.length (digits_of (trim (sf_fromUser form)))) 3); [done|lia]. }
  by destruct (_ ≫= _).
Qed.

(** ** Pages *)

Section Pages.
Context `{LocalTime}.

(** The request whose answer is on show, or under way, or failed. *)
Definition asked (s : Trace) : option HomerSearchParams :=
  match tr_mutation s with mu_idle => None | mu_pending p | mu_data p _ | mu_error p _ => Some p end.

(** The search committed from [form]. *)
Definition committed_from (form : SearchFormState) (now : Z) (c : CommittedSearch) : Prop :=
  canSearch form = true ∧ search_params form now = Some (cs_baseParams c) ∧ cs_summary c = search_summary form.

Definition page_ok (s : Trace) : Prop :=
  match tr_lastSearch s with
  | None => tr_hasSearched s = false ∧ tr_cursorStack s = [] ∧ tr_mutation s = mu_idle
  | Some c => tr_hasSearched s = true ∧ asked s = Some (withPageCursor (cs_baseParams c) (last (tr_cursorStack s)))
  end.

Lemma trace_run_app l1 l2 s : trace_run s (l1 ++ l2) = match trace_run s l1 with Some s1 => trace_run s1 l2 | None => None end.
Proof. revert s. induction l1 as [|e l1 IH]; intros s; simpl; [done|]. destruct (trace_step s e); auto. Qed.

Lemma handleSearch_ok now s : page_ok s → page_ok (handleSearch now s).
Proof. intros Hs. unfold handleSearch. destruct (negb _); [done|]. by destruct (search_params (tr_form s) now). Qed.

Lemma take_last {A} (l : list A) : take (length l - 1) l = removelast l.
Proof. rewrite removelast_firstn_len. f_equal. lia. Qed.

Lemma trace_step_ok s e s' : page_ok s → trace_step s e = Some s' → page_ok s'.
Proof.
  intros Hs. destruct e; cbn [trace_step]; try (by intros [= <-]).
  - destruct (_ ==? _); [done|]. by intros [= <-].
  - destruct (is_custom s); [|done]. by intros [= <-].
  - destruct (is_custom s); [|done]. by intros [= <-].
  - destruct (_ ==? _); [done|]. by intros [= <-].
  - destruct (picker_values now (tr_form s)) as [a b]. by intros [= <-].
  - destruct (_ || _); [done|]. intros [= <-]. by apply handleSearch_ok.
  - intros [= <-]. by apply handleSearch_ok.
  - destruct (isLoading s); [done|]. by intros [= <-].
  - destruct (_ && _); [|done]. intros [= <-]. unfold handleNextPage. unfold page_ok in Hs |- *.
    destruct (tr_lastSearch s) as [c|] eqn:El; [|by rewrite El]. destruct (next_cursor s) as [ns|]; [|by rewrite El].
    cbn [run_page tr_lastSearch tr_hasSearched tr_cursorStack]. rewrite El, last_snoc. split; [apply Hs|done].
  - destruct (_ && _); [|done]. intros [= <-]. unfold handlePrevPage. unfold page_ok in Hs |- *.
    destruct (tr_lastSearch s) as [c|] eqn:El; [|by rewrite El]. destruct (tr_cursorStack s) as [|n ns] eqn:En; [by rewrite El, En|].
    cbn [run_page tr_lastSearch tr_hasSearched tr_cursorStack]. rewrite El. split; [apply Hs|done].
  - unfold page_ok, asked in *. destruct (tr_mutation s) eqn:Em; try done. intros [= <-]. simpl. destruct (tr_lastSearch s); [exact Hs|by destruct Hs as (_ & _ & ?)].
  - unfold page_ok, asked in *. destruct (tr_mutation s) eqn:Em; try done. intros [= <-]. simpl. destruct (tr_lastSearch s); [exact Hs|by destruct Hs as (_ & _ & ?)].
Qed.

Lemma page_ok_run now l s : trace_run (initial_trace now) l = Some s → page_ok s.
Proof.
  revert s. induction l as [|e l IH] using rev_ind; intros s; [by intros [= <-]|]. rewrite trace_run_app.
  destruct (trace_run (initial_trace now) l) as [s1|]; [|done]. cbn [trace_run].
  destruct (trace_step s1 e) as [s2|] eqn:E; [|done]. intros [= <-]. eapply trace_step_ok; [by apply IH|done].
Qed.

(** The committed search is the form as it was when Search was pressed. *)
Lemma lastSearch_from s e s' c :
  trace_step s e = Some s' → tr_lastSearch s' = Some c →
  tr_lastSearch s = Some c ∨ ∃ now, (e = ev_search now ∨ e = ev_enter now) ∧ committed_from (tr_form s) now c.
Proof.
  assert (∀ now, tr_lastSearch (handleSearch now s) = Some c → tr_lastSearch s = Some c ∨ committed_from (tr_form s) now c) as Hh.
  { intros now. unfold handleSearch. destruct (canSearch (tr_form s)) eqn:Ec; cbn [negb]; [|by left].
    destruct (search_params (tr_form s) now) as [p|] eqn:Ep; [|by left]. intros [= <-]. right. by split_and!. }
  destruct e; cbn [trace_step]; try (intros [= <-]; by left).
  - destruct (_ ==? _); [done|]. intros [= <-]; by left.
  - destruct (is_custom s); [|done]. intros [= <-]; by left.
  - destruct (is_custom s); [|done]. intros [= <-]; by left.
  - destruct (_ ==? _); [done|]. intros [= <-]; by left.
  - destruct (picker_values now (tr_form s)). intros [= <-]; by left.
  - destruct (_ || _); [done|]. intros [= <-] Hc. destruct (Hh now Hc); [by left|right; eauto].
  - intros [= <-] Hc. destruct (Hh now Hc); [by left|right; eauto].
  - destruct (isLoading s); [done|]. by intros [= <-].
  - destruct (_ && _); [|done]. intros [= <-]. unfold handleNextPage.
    destruct (tr_lastSearch s) eqn:El; [|rewrite El; by left]. destruct (next_cursor s); simpl; rewrite El; by left.
  - destruct (_ && _); [|done]. intros [= <-]. unfold handlePrevPage.
    destruct (tr_lastSearch s) eqn:El; [|rewrite El; by left]. destruct (tr_cursorStack s); simpl; rewrite El; by left.
  - destruct (tr_mutation s); try done. intros [= <-]; by left.
  - destruct (tr_mutation s); try done. intros [= <-]; by left.
Qed.
(** A request for what is older than a cursor. *)
Definition cut_at (cursor : option Z) (p : HomerSearchParams) : HomerSearchParams :=
  Build_HomerSearchParams (hp_number p) (hp_from_user p) (hp_to_user p) (hp_call_id p) (hp_start_time p) (hp_end_time p) cursor.

Lemma withPageCursor_cut form now c cursor :
  committed_from form now c → withPageCursor (cs_baseParams c) cursor = cut_at cursor (cs_baseParams c).
Proof.
  intros (_ & Hp & _). unfold search_params in Hp. destruct (search_window form now) as [[a b]|]; [|done].
  injection Hp as <-. by destruct cursor.
Qed.

(** [s1] shows page [i + 1] of the search [c], whose answer gave [ns] as the
    cursor of the next page. *)
Definition page_gave (c : CommittedSearch) (stack : list Z) (i : nat) (ns : Z) (s1 : Trace) : Prop :=
  tr_lastSearch s1 = Some c ∧ tr_cursorStack s1 = take i stack ∧
  ∃ p r, asked s1 = Some p ∧ tr_mutation s1 = mu_data p r ∧ rs_has_more r = true ∧ rs_oldest_ts_ns r = Some ns.

(** How a step changes the cursors: it keeps them, drops the last, starts
    again, or adds the one of the page on show. *)
Lemma cursors_from s e s' c :
  page_ok s → trace_step s e = Some s' → tr_lastSearch s' = Some c →
  tr_cursorStack s' = []
  ∨ (tr_lastSearch s = Some c ∧ ∃ n, tr_cursorStack s' = take n (tr_cursorStack s))
  ∨ tr_lastSearch s = Some c ∧ ∃ ns, tr_cursorStack s' = tr_cursorStack s ++ [ns]
      ∧ page_gave c (tr_cursorStack s') (length (tr_cursorStack s)) ns s.
Proof.
  intros Hok.
  assert (∀ s'', tr_cursorStack s'' = tr_cursorStack s → tr_lastSearch s'' = tr_lastSearch s → tr_lastSearch s'' = Some c →
    tr_cursorStack s'' = [] ∨ (tr_lastSearch s = Some c ∧ ∃ n, tr_cursorStack s'' = take n (tr_cursorStack s))
    ∨ tr_lastSearch s = Some c ∧ ∃ ns, tr_cursorStack s'' = tr_cursorStack s ++ [ns]
      ∧ page_gave c (tr_cursorStack s'') (length (tr_cursorStack s)) ns s) as Hkeep.
  { intros s'' -> -> Hc. right. left. split; [done|]. exists (length (tr_cursorStack s)). by rewrite firstn_all. }
  assert (∀ now, tr_lastSearch (handleSearch now s) = Some c →
    tr_cursorStack (handleSearch now s) = [] ∨ handleSearch now s = s) as Hsearch.
  { intros now _. unfold handleSearch. destruct (negb _); [by right|]. destruct (search_params _ _); [by left|by right]. }
  destruct e; cbn [trace_step]; try (by (intros [= <-]; apply Hkeep)).
  - destruct (bool_decide _); [done|]. by (intros [= <-]; apply Hkeep).
  - destruct (is_custom s); [|done]. by (intros [= <-]; apply Hkeep).
  - destruct (is_custom s); [|done]. by (intros [= <-]; apply Hkeep).
  - destruct (bool_decide _); [done|]. by (intros [= <-]; apply Hkeep).
  - destruct (picker_values now (tr_form s)). by (intros [= <-]; apply Hkeep).
  - destruct (_ || _); [done|]. intros [= <-] Hc. destruct (Hsearch now Hc) as [?|E]; [by left|]. rewrite E in *. by apply Hkeep.
  - intros [= <-] Hc. destruct (Hsearch now Hc) as [?|E]; [by left|]. rewrite E in *. by apply Hkeep.
  - destruct (isLoading s); [done|]. by intros [= <-].
  - destruct (_ && _); [|done]. intros [= <-]. unfold handleNextPage.
    destruct (tr_lastSearch s) as [c'|] eqn:El; [|by intros; congruence].
    destruct (next_cursor s) as [ns|] eqn:En; [|by apply Hkeep]. cbn [run_page tr_lastSearch tr_cursorStack].
    intros Hc. right. right. split; [congruence|]. exists ns. split; [done|]. unfold page_gave. rewrite take_app_length.
    split_and!; [congruence|done|]. unfold page_ok in Hok. rewrite El in Hok. destruct Hok as [_ Ha].
    unfold next_cursor, searchData, asked in *. destruct (tr_mutation s) as [| |q r|]; try done.
    destruct (rs_has_more r) eqn:Em; [|done]. destruct (rs_oldest_ts_ns r) as [o|] eqn:Eo; [|done].
    destruct (0 <? o); [|done]. injection En as <-. by exists q, r.
  - destruct (_ && _); [|done]. intros [= <-]. unfold handlePrevPage.
    destruct (tr_lastSearch s) as [c'|] eqn:El; [|by intros; congruence].
    destruct (tr_cursorStack s) as [|n0 st] eqn:En; [intros _; left; exact En|].
    cbn [run_page tr_lastSearch tr_cursorStack]. intros Hc. right. left. split; [congruence|]. eauto.
  - destruct (tr_mutation s); try done. by (intros [= <-]; apply Hkeep).
  - destruct (tr_mutation s); try done. by (intros [= <-]; apply Hkeep).
Qed.

(** Every cursor came from the page before it. *)
Lemma cursors_given now l s c i ns :
  trace_run (initial_trace now) l = Some s → tr_lastSearch s = Some c → tr_cursorStack s !! i = Some ns →
  ∃ l1 l2 s1, l = l1 ++ l2 ∧ trace_run (initial_trace now) l1 = Some s1 ∧ page_gave c (tr_cursorStack s) i ns s1.
Proof.
  revert s i ns. induction l as [|e l IH] using rev_ind; intros s i ns; [by intros [= <-]|]. rewrite trace_run_app.
  destruct (trace_run (initial_trace now) l) as [s0|] eqn:E0; [|done]. cbn [trace_run].
  destruct (trace_step s0 e) as [s'|] eqn:E; [|done]. intros [= <-] Hc Hi.
  assert (tr_lastSearch s0 = Some c → tr_cursorStack s0 !! i = Some ns →
    take i (tr_cursorStack s') = take i (tr_cursorStack s0) →
    ∃ l1 l2 s1, l ++ [e] = l1 ++ l2 ∧ trace_run (initial_trace now) l1 = Some s1 ∧ page_gave c (tr_cursorStack s') i ns s1) as Hold.
  { intros Hc0 Hi0 Et. destruct (IH s0 i ns eq_refl Hc0 Hi0) as (l1 & l2 & s1 & -> & Hr & Hg).
    exists l1, (l2 ++ [e]), s1. split_and!; [by rewrite app_assoc|done|]. unfold page_gave. by rewrite Et. }
  destruct (cursors_from s0 e s' c (page_ok_run _ _ _ E0) E Hc) as [E'|[[Hc0 [n E']]|[Hc0 (ns' & E' & Hg)]]].
  - by rewrite E' in Hi.
  - rewrite E' in Hi. pose proof (lookup_lt_Some _ _ _ Hi) as Hlt. rewrite length_take in Hlt.
    rewrite lookup_take_lt in Hi by lia. apply Hold; [done..|]. rewrite E', take_take. f_equal. lia.
  - destruct (decide (i < length (tr_cursorStack s0))%nat) as [Hlt|Hge].
    + rewrite E', lookup_app_l in Hi by lia. apply Hold; [done..|]. by rewrite E', take_app_le by lia.
    + pose proof (lookup_lt_Some _ _ _ Hi) as Hlt. rewrite E', length_app in Hlt. simpl in Hlt.
      assert (i = length (tr_cursorStack s0)) as -> by lia. rewrite E', list_lookup_middle in Hi by done. injection Hi as <-.
      exists l, [e], s0. by split_and!.
Qed.
(** The search on show was committed by a press of Search or Enter. *)
Lemma search_committed now l s c :
  trace_run (initial_trace now) l = Some s → tr_lastSearch s = Some c →
  ∃ l1 l2 s1 now' e, l = l1 ++ e :: l2 ∧ trace_run (initial_trace now) l1 = Some s1
     ∧ (e = ev_search now' ∨ e = ev_enter now') ∧ committed_from (tr_form s1) now' c.
Proof.
  revert s c. induction l as [|e l IH] using rev_ind; intros s c; [by intros [= <-]|]. rewrite trace_run_app.
  destruct (trace_run (initial_trace now) l) as [s1|] eqn:E1; [|done]. cbn [trace_run].
  destruct (trace_step s1 e) as [s2|] eqn:E2; [|done]. intros [= <-] Hc.
  destruct (lastSearch_from s1 e s2 c E2 Hc) as [Hold|(now' & He & Hfrom)].
  - destruct (IH s1 c eq_refl Hold) as (l1 & l2 & s0 & now' & e' & -> & ? & ? & ?).
    exists l1, (l2 ++ [e]), s0, now', e'. split_and!; [|done..]. by rewrite <- app_assoc.
  - exists l, [], s1, now', e. by split_and!.
Qed.
End Pages.

(** C20 What the page shows as page N is the answer to the search that was
    committed, cut at the cursor page N - 1 gave: the same criteria and window
    as when Search was pressed, whatever was typed, paged or failed since; and
    each cursor of the pager is the oldest instant in the answer that was on
    show, with more to come, as the page before it of this same search.  An
    answer to a search that was replaced is never shown. *)
Theorem pages_of_the_search `{LocalTime} now l s c :
  trace_run (initial_trace now) l = Some s → tr_lastSearch s = Some c →
  (∃ l1 l2 s1 now' e, l = l1 ++ e :: l2 ∧ trace_run (initial_trace now) l1 = Some s1
     ∧ (e = ev_search now' ∨ e = ev_enter now') ∧ committed_from (tr_form s1) now' c)
  ∧ asked s = Some (cut_at (last (tr_cursorStack s)) (cs_baseParams c))
  ∧ ∀ i ns, tr_cursorStack s !! i = Some ns →
      ∃ l1 l2 s1, l = l1 ++ l2 ∧ trace_run (initial_trace now) l1 = Some s1 ∧ page_gave c (tr_cursorStack s) i ns s1.
Proof.
  intros Hrun Hc. pose proof (search_committed now l s c Hrun Hc) as Hfrom. split; [done|].
  split; [|intros i ns; by apply cursors_given]. destruct Hfrom as (l1 & l2 & s1 & now' & e & _ & _ & _ & Hf).
  apply page_ok_run in Hrun. unfold page_ok in Hrun. rewrite Hc in Hrun. destruct Hrun as [_ ->].
  by erewrite withPageCursor_cut.
Qed.

(** *** Cursors *)

Section Cursors.
Context `{LocalTime}.

(** The server keeps the bound of a page: the cursor it answers with is
    below the one it was asked with. *)
Definition honest (s : Trace) (e : TraceEvent) : Prop :=
  match e, tr_mutation s with
  | ev_answer r, mu_pending p =>
      match hp_before_ns p, rs_oldest_ts_ns r with Some b, Some o => o < b | _, _ => True end
  | _, _ => True
  end.
Fixpoint honest_run (s : Trace) (l : list TraceEvent) : Prop :=
  match l with
  | [] => True
  | e :: l => honest s e ∧ match trace_step s e with Some s => honest_run s l | None => True end
  end.

(** Cursors go down, and the next one is below them all. *)
Definition cursors_ok (s : Trace) : Prop :=
  Sorted (λ a b, b < a) (tr_cursorStack s) ∧ Forall (λ n, 0 < n) (tr_cursorStack s)
  ∧ ∀ n b, next_cursor s = Some n → last (tr_cursorStack s) = Some b → n < b.

Lemma sorted_take (l : list Z) n : Sorted (λ a b, b < a) l → Sorted (λ a b, b < a) (take n l).
Proof.
  intros Hs. revert n. induction Hs as [|x l Hl IH Hx]; intros [|n]; simpl; try constructor; [apply IH|].
  destruct Hx; destruct n; simpl; by constructor.
Qed.

Lemma sorted_snoc (l : list Z) n : Sorted (λ a b, b < a) l → (∀ b, last l = Some b → n < b) → Sorted (λ a b, b < a) (l ++ [n]).
Proof.
  intros Hs Hn. induction Hs as [|x l Hl IH Hx]; simpl; [by repeat constructor|]. constructor.
  - apply IH. intros b Hb. apply Hn. destruct l; [done|]. exact Hb.
  - destruct l as [|y l]; simpl; constructor; [by apply Hn|]. by inversion Hx.
Qed.

Lemma next_cursor_pos s n : next_cursor s = Some n → 0 < n.
Proof. unfold next_cursor. repeat (case_match; try done). intros [= <-]. lia. Qed.

Lemma cursors_step s e s' : page_ok s → cursors_ok s → honest s e → trace_step s e = Some s' → cursors_ok s'.
Proof.
  intros Hok Hc Hh. pose proof Hc as (Hs & Hp & Hn). assert (∀ now, cursors_ok (handleSearch now s)) as Hsearch.
  { intros now. unfold handleSearch. destruct (negb _); [exact Hc|]. destruct (search_params _ now); [|exact Hc].
    split_and!; [constructor|constructor|done]. }
  destruct e; cbn [trace_step]; try (intros [= <-]; exact Hc).
  - destruct (_ ==? _); [done|]. intros [= <-]; exact Hc.
  - destruct (is_custom s); [|done]. intros [= <-]; exact Hc.
  - destruct (is_custom s); [|done]. intros [= <-]; exact Hc.
  - destruct (_ ==? _); [done|]. intros [= <-]; exact Hc.
  - destruct (picker_values now (tr_form s)). intros [= <-]; exact Hc.
  - destruct (_ || _); [done|]. by intros [= <-].
  - by intros [= <-].
  - destruct (isLoading s); [done|]. intros [= <-]. split_and!; [constructor|constructor|done].
  - destruct (_ && _); [|done]. intros [= <-]. unfold handleNextPage. destruct (tr_lastSearch s); [|exact Hc].
    destruct (next_cursor s) as [n|] eqn:En; [|exact Hc]. split_and!; cbn [run_page tr_cursorStack].
    + apply sorted_snoc; [done|]. intros b Hb. by apply Hn.
    + apply Forall_app. split; [done|]. constructor; [by apply next_cursor_pos in En|done].
    + done.
  - destruct (_ && _); [|done]. intros [= <-]. unfold handlePrevPage. destruct (tr_lastSearch s); [|exact Hc].
    destruct (tr_cursorStack s) as [|n ns] eqn:En; [exact Hc|]. split_and!; cbn [run_page tr_cursorStack].
    + by apply sorted_take.
    + by apply Forall_take.
    + done.
  - unfold honest in Hh. destruct (tr_mutation s) as [|p| |] eqn:Em; try done. intros [= <-]. split_and!; [done..|].
    intros n b Hnext Hb. cbn [tr_cursorStack] in Hb. unfold page_ok, asked in Hok. rewrite Em in Hok.
    destruct (tr_lastSearch s) as [c|]; [|by destruct Hok as (_ & _ & ?)]. destruct Hok as [_ [= ->]]. rewrite Hb in Hh.
    cbn [withPageCursor hp_before_ns] in Hh. unfold next_cursor in Hnext. cbn [searchData tr_mutation] in Hnext.
    destruct (rs_has_more r); [|done]. destruct (rs_oldest_ts_ns r) as [o|]; [|done]. destruct (0 <? o); [|done].
    by injection Hnext as <-.
  - destruct (tr_mutation s); try done. intros [= <-]. by split_and!.
Qed.

Lemma cursors_run now l s : trace_run (initial_trace now) l = Some s → honest_run (initial_trace now) l → cursors_ok s.
Proof.
  assert (page_ok (initial_trace now)) as H0 by done.
  assert (cursors_ok (initial_trace now)) as Hc by (split_and!; [constructor|constructor|done]).
  revert H0 Hc. generalize (initial_trace now). induction l as [|e l IH]; intros s0 Hok Hc; simpl; [by intros [= <-]|].
  destruct (trace_step s0 e) as [s1|] eqn:E; [|done]. intros Hrun [Hh Hl]. apply (IH s1); [| |done|done].
  - by eapply trace_step_ok.
  - by eapply cursors_step.
Qed.
End Cursors.

(** ** The table *)

(** A selection from these groups is a row of them. *)
Definition table_ok (callGroups count : Z) (t : ResultsTable) : Prop :=
  ∀ sel, rt_selection t = Some sel → sl_groups sel = callGroups → sl_count sel = count ∧ 0 ≤ sl_idx sel < count.

Lemma table_step_ok callGroups count t e t' :
  table_ok callGroups count t → table_step callGroups count t e = Some t' → table_ok callGroups count t'.
Proof.
  intros Ht. assert (∀ idx, has_row count idx = true → table_ok callGroups count (openCall callGroups count idx t)) as Hopen.
  { intros idx Hi sel [= <-] _. unfold has_row in Hi. simpl. lia. }
  destruct e as [idx|key idx|direction|]; cbn [table_step].
  - destruct (has_row count idx) eqn:E; [|done]. intros [= <-]. by apply Hopen.
  - destruct (has_row count idx) eqn:E; [|done]. intros [= <-]. unfold handleRowKeyDown.
    destruct (_ || _); [by apply Hopen|]. destruct (_ || _); [|done]. by case_match.
  - destruct (activeIdx callGroups count t); [|done]. intros [= <-]. unfold handleStep.
    destruct (rt_selection t) as [sel|] eqn:Es; [|done]. cbn zeta. destruct (_ || _) eqn:E; [done|].
    intros sel' [= <-] Hg. simpl in *. destruct (Ht sel Es Hg) as [Hc _]. lia.
  - destruct (activeIdx callGroups count t); [|done]. intros [= <-]. by intros sel [=].
Qed.

(** The open call is a row on show, of the groups it was opened from; new
    groups close it; closing it puts the focus on its row. *)
Lemma open_call_shown callGroups count t i :
  table_ok callGroups count t → activeIdx callGroups count t = Some i →
  has_row count i = true ∧ rt_focus (handleClose callGroups count t) = Some i
  ∧ ∀ callGroups' count', callGroups' ≠ callGroups → activeIdx callGroups' count' t = None.
Proof.
  intros Ht Ha. unfold handleClose. rewrite Ha. unfold activeIdx in *. destruct (rt_selection t) as [sel|] eqn:Es; [|done].
  destruct (Z.eqb_spec (sl_groups sel) callGroups) as [Eg|]; [|done]. destruct (Z.ltb_spec (sl_idx sel) count); [|done].
  injection Ha as <-. destruct (Ht sel Es Eg) as [_ Hr]. unfold has_row. split_and!; [lia|done|]. intros g' n' Hne.
  destruct (Z.eqb_spec (sl_groups sel) g'); [congruence|done].
Qed.

(** ** What is shown about a call *)

Lemma displayUser_digits value : digits_of (displayUser value) = digits_of value.
Proof. unfold displayUser. destruct (looksLikePhone value); [apply fmt_digits|done]. Qed.

Definition is_invite (m : HomerSearchResult) : bool := (hr_status m ==? None) && (upper (hr_method m) ==? "INVITE").

(** ORIG is where the first INVITE from outside came from, TERM where the last
    INVITE to the outside went. *)
Lemma endpoints_spec messages :
  let invites := List.filter is_invite messages in
  deriveCarrierEndpoints messages =
  Build_CarrierEndpoints (head (List.filter external (List.map hr_src_ip invites)))
    (last (List.filter external (List.map hr_dst_ip invites))).
Proof.
  cbn zeta. unfold deriveCarrierEndpoints. induction messages as [|m l IH] using rev_ind; [done|].
  rewrite fold_left_app, IH, List.filter_app. cbn [fold_left]. unfold endpoints_step.
  assert (negb (hr_status m ==? None) || (upper (hr_method m) !=? "INVITE") = negb (is_invite m)) as ->
    by (unfold is_invite; by destruct (_ ==? None), (_ ==? "INVITE")).
  cbn [List.filter ce_orig ce_term]. destruct (is_invite m); cbn [negb]; [|by rewrite !app_nil_r].
  rewrite !map_app, !List.filter_app. cbn [List.map List.filter]. f_equal.
  - destruct (List.filter external (List.map hr_src_ip (List.filter is_invite l))); simpl; [by destruct (external (hr_src_ip m))|done].
  - destruct (external (hr_dst_ip m)); [by rewrite last_snoc|by rewrite app_nil_r].
Qed.

(** The three places that tell our own nodes agree: the table, the column
    order of the ladder, and its roles, which leave out Services. *)
Lemma platform_alias alias : isPlatformNode alias = isPlatformAlias alias.
Proof. unfold isPlatformNode, isPlatformAlias. cbn zeta. by repeat case_match. Qed.

Lemma platform_role alias :
  match classifyNodeRole alias with
  | sbc_vip | sbc | media_server => isPlatformNode alias = true
  | unknown_role => isPlatformNode alias = contains "SERVICES" (upper alias)
  | _ => True
  end.
Proof.
  unfold classifyNodeRole, isPlatformNode. cbn zeta. destruct (contains "VIP" (upper alias)); [by rewrite orb_true_r|].
  destruct (_ || bw_token _ _); [done|]. destruct (contains "SBC" (upper alias)); [done|].
  destruct (contains "FREESWITCH" (upper alias)); [done|]. destruct (fs_token true (upper alias)); cbn [orb]; [by case_match|by case_match].
Qed.

(** The gateways towards Verizon are ours, but are shown as carriers. *)
Lemma gateway_shown_as_carrier : isPlatformNode "VzSIP" = false ∧ isPlatformNode "VzGW-A" = false.
Proof. split; reflexivity. Qed.

(** The zone is that of a capture node, or else the first node as it is. *)
Lemma deriveZone_spec messages :
  match deriveZone messages with
  | Some z => if zi_known z then ∃ m node, m ∈ messages ∧ hr_node m = Some node ∧ node_zone node = Some (zi_label z)
              else ∃ m, m ∈ messages ∧ hr_node m = Some (zi_label z) ∧ zi_label z ≠ ""
  | None => ∀ m, m ∈ messages → hr_node m = None ∨ hr_node m = Some ""
  end.
Proof.
  unfold deriveZone. assert (∀ l raw, match zone_from raw l with
    | Some z => if zi_known z then ∃ m node, m ∈ l ∧ hr_node m = Some node ∧ node_zone node = Some (zi_label z)
                else raw = Some (zi_label z) ∨ ∃ m, m ∈ l ∧ hr_node m = Some (zi_label z) ∧ zi_label z ≠ ""
    | None => raw = None ∧ ∀ m, m ∈ l → hr_node m = None ∨ hr_node m = Some ""
    end) as Hz.
  { induction l as [|m l IH]; intros raw; simpl; [destruct raw; [by left|split; [done|by intros m Hm%not_elem_of_nil]]|].
    destruct (hr_node m) as [node|] eqn:En; [unfold non_empty; case_bool_decide as Ee|].
    2: destruct (node_zone node) as [zone|] eqn:Ez; [exists m, node; split_and!; [by left|done..]|].
    - specialize (IH raw). destruct (zone_from raw l) as [z|]; [destruct (zi_known z)|].
      + destruct IH as (m' & n & ? & ?). exists m', n. split; [by right|done].
      + destruct IH as [?|(m' & ? & ?)]; [by left|right; exists m'; split; [by right|done]].
      + destruct IH as [-> IH]. split; [done|]. intros m' [->|Hm]%elem_of_cons; [right; congruence|auto].
    - specialize (IH (match raw with Some _ => raw | None => Some node end)). destruct (zone_from _ l) as [z|]; [destruct (zi_known z)|].
      + destruct IH as (m' & n & ? & ?). exists m', n. split; [by right|done].
      + destruct IH as [E|(m' & ? & ?)]; [|right; exists m'; split; [by right|done]].
        destruct raw; [by left|]. injection E as <-. right. exists m. split_and!; [by left|done..].
      + destruct IH as [? _]. by destruct raw.
    - specialize (IH raw). destruct (zone_from raw l) as [z|]; [destruct (zi_known z)|].
      + destruct IH as (m' & n & ? & ?). exists m', n. split; [by right|done].
      + destruct IH as [?|(m' & ? & ?)]; [by left|right; exists m'; split; [by right|done]].
      + destruct IH as [-> IH]. split; [done|]. intros m' [->|Hm]%elem_of_cons; [by left|auto]. }
  specialize (Hz messages None). destruct (zone_from None messages) as [z|]; [|by destruct Hz].
  destruct (zi_known z); [done|]. by destruct Hz as [[=]|?].
Qed.

(** The division rounds, by less than a millisecond. *)
Lemma ns_to_ms_spec ns : 0 ≤ ns < 1000000 * (2 ^ 53 - 1) → ns / 1000000 ≤ ns_to_ms ns ≤ ns / 1000000 + 1.
Proof.
  intros Hns. unfold ns_to_ms, div_d. set (m := ns / 1000000). pose proof (Z.div_mod ns 1000000 ltac:(lia)) as Hd. fold m in Hd.
  pose proof (Z.mod_pos_bound ns 1000000 ltac:(lia)) as Hr.
  assert (0 ≤ m ∧ m + 1 < 2 ^ 53) as Hm by lia.
  assert (inject_Z m <= inject_Z ns / inject_Z 1000000)%Q as Hlo.
  { apply Qle_shift_div_l; [done|]. rewrite <- inject_Z_mult, <- Zle_Qle. lia. }
  assert (inject_Z ns / inject_Z 1000000 <= inject_Z (m + 1))%Q as Hhi.
  { apply Qle_shift_div_r; [done|]. rewrite <- inject_Z_mult, <- Zle_Qle. lia. }
  apply rnd_mono in Hlo, Hhi. pose proof (inject_double m ltac:(lia)) as E1. pose proof (inject_double (m + 1) ltac:(lia)) as E2.
  unfold is_double in E1, E2. rewrite E1 in Hlo. rewrite E2 in Hhi. split.
  - rewrite <- (Qfloor_Z m). by apply Qfloor_resp_le.
  - rewrite <- (Qfloor_Z (m + 1)). by apply Qfloor_resp_le.
Qed.

Lemma min_max_range (l : list Z) x : x ∈ l →
  ∀ ts rest, l = ts :: rest → foldr Z.min ts rest ≤ x ≤ foldr Z.max ts rest ∧ foldr Z.min ts rest ∈ l ∧ foldr Z.max ts rest ∈ l.
Proof.
  intros Hx ts rest ->. revert x Hx. induction rest as [|y rest IH]; simpl; intros x Hx.
  - apply list_elem_of_singleton in Hx as ->. split_and!; [lia|lia|by left|by left].
  - destruct (IH ts ltac:(by left)) as (Ht & Hmin & Hmax).
    assert (foldr Z.min ts rest ≤ x ≤ foldr Z.max ts rest ∨ x = y) as Hxy.
    { apply elem_of_cons in Hx as [->|[->|Hx]%elem_of_cons]; [left; lia|by right|].
      left. apply (IH x). by right. }
    split; [lia|]. split.
    + destruct (Z.min_spec y (foldr Z.min ts rest)) as [[_ ->]|[_ ->]]; [right; by left|set_solver].
    + destruct (Z.max_spec y (foldr Z.max ts rest)) as [[_ ->]|[_ ->]]; [set_solver|right; by left].
Qed.

(** The Grafana link covers every message of the call that has a time. *)
Lemma grafana_covers messages start end_ ts :
  ts ∈ callTimestamps messages → (∀ t, t ∈ callTimestamps messages → t < 1000000 * (2 ^ 53 - 1)) →
  let '(from, to) := grafana_window messages start end_ in from * 1000000 ≤ ts ≤ to * 1000000.
Proof.
  intros Hts Hall. unfold grafana_window. destruct (callTimestamps messages) as [|t rest] eqn:E; [by apply not_elem_of_nil in Hts|].
  destruct (min_max_range _ ts Hts t rest eq_refl) as (Hr & Hmin & Hmax).
  assert (∀ x, x ∈ t :: rest → 0 < x) as Hpos.
  { intros x Hx. rewrite <- E in Hx. unfold callTimestamps in Hx. apply list_elem_of_omap in Hx as (m & _ & Hm).
    destruct (hr_timestamp_ns m) as [v|]; [|done]. destruct (Z.ltb_spec 0 v); [|done]. by injection Hm as <-. }
  pose proof (Hpos _ Hmin). pose proof (Hpos _ Hmax). pose proof (Hall _ Hmin). pose proof (Hall _ Hmax).
  pose proof (ns_to_ms_spec (foldr Z.min t rest) ltac:(lia)) as Hf. pose proof (ns_to_ms_spec (foldr Z.max t rest) ltac:(lia)) as Ht.
  pose proof (Z.div_mod (foldr Z.min t rest) 1000000 ltac:(lia)). pose proof (Z.mod_pos_bound (foldr Z.min t rest) 1000000 ltac:(lia)).
  pose proof (Z.div_mod (foldr Z.max t rest) 1000000 ltac:(lia)). pose proof (Z.mod_pos_bound (foldr Z.max t rest) 1000000 ltac:(lia)).
  lia.
Qed.

(** ** Applied *)

(** A clock whose values are the milliseconds in digits. *)
Definition digits_clock : LocalTime :=
  {| of_local := λ s, if (s !=? "") && sforall is_digit s then Some (num_of_digits s) else None; toDatetimeLocal := print_int |}.

Definition example_form : SearchFormState :=
  Build_SearchFormState " +1 (617) 454-4217" "" "" "a84b4c76@sbc-1" p_24h "" "".

(** A server whose index starts at a given instant. *)
Definition indexed_from (ns : Z) : Capability := Build_Capability true (Some ns).

Lemma hint_is_what_is_searched_witness :
  ∃ p r, search_params (H := digits_clock) example_form 1000000 = Some p
    ∧ read_request (indexed_from 0) p = inr (sp_call_id, r)
    ∧ rd_number r = Some "6174544217" ∧ rd_call_id r = Some "a84b4c76@sbc-1"
    ∧ de_segments (deriveSearch (H := digits_clock) example_form) = hint_of false r.
Proof.
  assert (∃ p, search_params (H := digits_clock) example_form 1000000 = Some p) as [p Hp] by (eexists; vm_compute; reflexivity).
  destruct (hint_is_what_is_searched (H := digits_clock) (indexed_from 0) example_form 1000000 p) as (r & Hs & Hr);
    [vm_compute; reflexivity|exact Hp|vm_compute; discriminate|vm_compute; discriminate|].
  vm_compute in Hp. injection Hp as <-.
  match type of Hr with context [read_request ?c ?p] => assert (∃ r', read_request c p = inr (sp_call_id, r')
    ∧ rd_number r' = Some "6174544217" ∧ rd_call_id r' = Some "a84b4c76@sbc-1") as (r' & E & En & Ec)
    by (eexists; split; [vm_compute; reflexivity|by split]) end.
  rewrite E in Hr. destruct Hr as [-> _]. eexists _, r. split_and!; [reflexivity|exact E|exact En|exact Ec|exact Hs].
Defined.

(** A number searched over seven days, longer than the index goes back: let
    through by the page, and refused. *)
Lemma week_refused_example :
  let form := Build_SearchFormState "617454" "" "" "" p_7d "" "" in
  canSearch (H := digits_clock) form = true
  ∧ ∃ p, search_params (H := digits_clock) form 604800000 = Some p ∧ read_request (indexed_from 1) p = inl rf_window_too_wide.
Proof. cbn zeta. split; [vm_compute; reflexivity|]. eexists. split; [vm_compute; reflexivity|]. vm_compute; reflexivity. Qed.

(** A caller by name: let through, hinted at, and refused. *)
Lemma name_refused_example :
  let form := Build_SearchFormState "" "alice" "" "" p_24h "" "" in
  canSearch (H := digits_clock) form = true
  ∧ de_segments (deriveSearch (H := digits_clock) form) = [("From containing", "“alice”")]
  ∧ ∃ p, search_params (H := digits_clock) form 1000000 = Some p
       ∧ read_request (indexed_from 0) p = inl (rf_needle "from_user: need at least 3 digits").
Proof. cbn zeta. split_and!; [vm_compute; reflexivity..|]. eexists. split; [vm_compute; reflexivity|]. vm_compute; reflexivity. Qed.

(** One with digits in it is searched by the digits alone. *)
Lemma name_digits_example :
  let form := Build_SearchFormState "" "room5150" "" "" p_24h "" "" in
  de_segments (deriveSearch (H := digits_clock) form) = [("From containing", "“room5150”")]
  ∧ ∃ p path r, search_params (H := digits_clock) form 1000000 = Some p
       ∧ read_request (indexed_from 0) p = inr (path, r) ∧ rd_from r = Some "5150".
Proof. cbn zeta. split; [vm_compute; reflexivity|]. eexists _, _, _. split; [vm_compute; reflexivity|]. split; [vm_compute; reflexivity|]. reflexivity. Qed.

Definition example_run : list TraceEvent :=
  [ev_omni "617454"; ev_search 1000000; ev_answer (Build_HomerSearchResponse [] (Some 900) true);
   ev_next; ev_omni "now something else"; ev_answer (Build_HomerSearchResponse [] (Some 700) true)].

Lemma pages_of_the_search_witness :
  ∃ s c, trace_run (H := digits_clock) (initial_trace (H := digits_clock) 0) example_run = Some s ∧ tr_lastSearch s = Some c
    ∧ hp_number (cs_baseParams c) = Some "617454" ∧ asked s = Some (cut_at (Some 900) (cs_baseParams c)) ∧ page s = 2%nat.
Proof.
  assert (∃ s, trace_run (H := digits_clock) (initial_trace (H := digits_clock) 0) example_run = Some s ∧ tr_cursorStack s = [900]
    ∧ (∃ c, tr_lastSearch s = Some c ∧ hp_number (cs_baseParams c) = Some "617454")) as (s & Hs & Hst & c & Hc & Hn).
  { eexists. split; [vm_compute; reflexivity|]. split; [reflexivity|]. eexists. split; reflexivity. }
  exists s, c. split_and!; [exact Hs|exact Hc|exact Hn| |unfold page; rewrite Hst; reflexivity].
  destruct (pages_of_the_search (H := digits_clock) 0 example_run s c Hs Hc) as (_ & Hasked & _). rewrite Hst in Hasked. exact Hasked.
Defined.
