(* ===== verification/AccountNumbers.v ===== *)
(** * The numbers of an account
    ([config/products.ts], [pages/dashboard/accountData.ts],
    [pages/rcf/DidManagement.tsx], [components/layout/kit/useShowMore.ts])

    The catalog of products, the merge of the two lists a dashboard shows its
    numbers from, the filters of the number tables, and the first rows of a
    list.  [toLowerCase] and [toUpperCase] are those of ASCII. *)
From S2P Require Import Prelude JsString Format Homer CallGrouping SipText.

Local Open Scope string_scope.
Local Open Scope Z_scope.
Local Open Scope list_scope.

(** ** Products *)

Record ProductInfo := {
  pi_id : string;
  pi_label : string;
  pi_tag : string;
  pi_onWord : string;
  pi_offWord : string;
  pi_mixWord : string;
  pi_destination : option (string * option string);
  pi_order : Z;
  pi_hidden : bool;
}.

Definition API_CALLING_ENABLED : bool := false.

Definition CATALOG : list (string * ProductInfo) :=
  [("rcf", Build_ProductInfo "rcf" "Call forwarding" "RCF" "Forwarding" "Paused" "forwarding" None 1 false);
   ("api", Build_ProductInfo "api" "API Calling" "API" "Active" "Off" "API" (Some ("Your application", Some "API Calling")) 2
             (negb API_CALLING_ENABLED));
   ("trunk", Build_ProductInfo "trunk" "SIP trunk" "Trunk" "Active" "Off" "SIP trunk" (Some ("Your phone system", Some "SIP trunk")) 3 false);
   ("voicemail", Build_ProductInfo "voicemail" "Voicemail" "Voicemail" "Taking messages" "Off" "voicemail"
                   (Some ("Voicemail", Some "Callers leave a message")) 4 false);
   ("ivr", Build_ProductInfo "ivr" "IVR" "IVR" "Answering" "Off" "IVR" (Some ("Your IVR menu", Some "IVR")) 5 false)].

Definition UNKNOWN_ORDER : Z := 1000.

(** [s.split(/[\s_-]+/)], with an empty word between two separators. *)
Definition is_id_sep (a : ascii) : bool := ws1 a || (a ==? "_"%char) || (a ==? "-"%char).
Fixpoint split_id (s : string) : list string :=
  match s with
  | "" => [""]
  | String a s =>
      if is_id_sep a then "" :: split_id s
      else match split_id s with w :: l => String a w :: l | [] => [String a ""] end
  end.
Definition words (id : string) : list string := List.map lower (List.filter (λ w, w !=? "") (split_id (trim id))).

Definition capital (w : string) : string := match w with "" => "" | String a w => String (upper_char a) w end.

Definition fallbackInfo (id : string) : ProductInfo :=
  let parts := words id in
  let label := match parts with [] => "Other" | _ => join " " (List.map capital parts) end in
  Build_ProductInfo id label (match parts with [] => "OTHER" | _ => upper (join " " parts) end) "Active" "Off" (lower label)
    (Some (label, None)) UNKNOWN_ORDER false.

(** The cache only keeps what [fallbackInfo] gives. *)
Definition productInfo (id : option string) : ProductInfo :=
  let key := trim (default "" id) in
  match om_get key CATALOG with Some info => info | None => fallbackInfo key end.

Definition productLabel (id : option string) : string := pi_label (productInfo id).
Definition productTag (id : option string) : string := pi_tag (productInfo id).
Definition isProductHidden (id : option string) : bool := pi_hidden (productInfo id).

Definition countByProduct (products : list string) : list (string * Z) :=
  fold_left (λ out p, om_set p (default 0 (om_get p out) + 1) out) products [].

Section Mix.
Context `{Locale}.

Definition compareProducts (a b : string) : Z :=
  let oa := pi_order (productInfo (Some a)) in
  let ob := pi_order (productInfo (Some b)) in
  if negb (oa =? ob) then oa - ob else localeCompare a b.

(** A stable sort, as [sort] is. *)
Definition productMix (counts : list (string * Z)) : list (string * Z) :=
  sort_by (λ a b, compareProducts a.1 b.1 <=? 0)
    (List.filter (λ pc, (0 <? pc.2) && negb (isProductHidden (Some pc.1))) counts).
End Mix.

Definition nameWithProduct (name product : option string) : option string :=
  let non_empty (s : option string) := match s with Some "" | None => [] | Some s => [s] end in
  match non_empty name ++ match product with
                          | Some p => if (p ==? "") || (p ==? "rcf") then [] else [productLabel product]
                          | None => []
                          end with
  | [] => None
  | parts => Some (join " · " parts)
  end.

(** ** The rows of the dashboard *)

Definition numberKey (n : string) : string := let d := digits_of n in slice_from (String.length d - 10) d.

Record RcfEntry := {
  re_id : Z;
  re_did : string;
  re_name : option string;
  re_forward_to : string;
  re_enabled : bool;
}.

(** A row of [/reports/my-numbers]; an older API leaves [enabled] out. *)
Record MyNumber := {
  mn_number : string;
  mn_name : option string;
  mn_product : string;
  mn_enabled : option bool;
  mn_forwards_to : option string;
}.

Record NumberRow := {
  nr_number : string;
  nr_name : option string;
  nr_product : string;
  nr_enabled : bool;
  nr_forwardsTo : option string;
  nr_rcf : option RcfEntry;
  nr_href : option string;
}.

Inductive RowsSource := from_all | from_rcf.

(** [None]: no list. *)
Definition isHolisticNumbers (data : option (list MyNumber)) : bool :=
  match data with
  | Some numbers => forallb (λ n, match mn_enabled n with Some _ => true | None => false end) numbers
  | None => false
  end.

Definition rcfRow (e : RcfEntry) : NumberRow :=
  Build_NumberRow (re_did e) (re_name e) "rcf" (re_enabled e) (Some (re_forward_to e)) (Some e) None.

(** The entry of a key: of two, [new Map] keeps the later. *)
Definition entry_at (key : string) (entries : list RcfEntry) : option RcfEntry :=
  last (List.filter (λ e, numberKey (re_did e) ==? key) entries).

Section Rows.
Context (voicemailHref : option string).

Definition list_row (entries : list RcfEntry) (n : MyNumber) : NumberRow :=
  let enabled := default false (mn_enabled n) in
  if mn_product n ==? "rcf" then
    match entry_at (numberKey (mn_number n)) entries with
    | Some e => rcfRow e
    | None => Build_NumberRow (mn_number n) (mn_name n) "rcf" enabled (mn_forwards_to n) None None
    end
  else Build_NumberRow (mn_number n) (mn_name n) (mn_product n) enabled None None
         (if mn_product n ==? "voicemail" then voicemailHref else None).

(** A turn of the first loop, on the keys seen and the rows so far. *)
Definition push_number (entries : list RcfEntry) (acc : list string * list NumberRow) (n : MyNumber) : list string * list NumberRow :=
  let '(seen, rows) := acc in
  let key := numberKey (mn_number n) in
  if isProductHidden (Some (mn_product n)) then acc
  else if includes seen key then acc
  else (seen ++ [key], rows ++ [list_row entries n]).

(** A turn of the second. *)
Definition push_entry (acc : list string * list NumberRow) (e : RcfEntry) : list string * list NumberRow :=
  let '(seen, rows) := acc in
  let key := numberKey (re_did e) in
  if includes seen key then acc else (seen ++ [key], rows ++ [rcfRow e]).

Definition toNumberRows (myNumbers : option (list MyNumber)) (entries : list RcfEntry) : RowsSource * list NumberRow :=
  match myNumbers with
  | Some numbers =>
      if isHolisticNumbers myNumbers
      then (from_all, (fold_left push_entry entries (fold_left (push_number entries) numbers ([], []))).2)
      else (from_rcf, List.map rcfRow entries)
  | None => (from_rcf, List.map rcfRow entries)
  end.
End Rows.

Definition numberMix `{Locale} (rows : list NumberRow) : list (string * Z) :=
  productMix (countByProduct (List.map nr_product rows)).

(** ** Fetching in a zone the API may not know *)

(** [run]: whether UTC is latched, then the zones asked for, in order, and
    the answer of the last. *)
Definition tz_run {E A} (isZoneError : E → bool) (fetcher : string → E + A) (rejected : bool) (tz : string) : bool * list string * (E + A) :=
  if negb rejected && (tz !=? "UTC") then
    match fetcher tz with
    | inr a => (rejected, [tz], inr a)
    | inl err => if isZoneError err then (true, [tz; "UTC"], fetcher "UTC") else (rejected, [tz], inl err)
    end
  else (rejected, ["UTC"], fetcher "UTC").

(** ** The tables of numbers *)

Inductive DidStatus := available | assigned | reserved | porting_in | porting_out | suspended | release_requested.
#[export] Instance DidStatus_eq_dec : EqDecision DidStatus.
Proof. solve_decision. Defined.

Record DidInventoryItem := {
  di_id : Z;
  di_did : string;
  di_city : option string;
  di_state : option string;
  di_rate_center : option string;
  di_customer_id : option Z;
  di_status : DidStatus;
}.

Record DidFilterState := {
  df_npa : string;
  df_nxx : string;
  df_state : string;
  df_search : string;
}.
Definition no_filters : DidFilterState := Build_DidFilterState "" "" "" "".

Definition filterKey (f : DidFilterState) : string :=
  df_npa f +:+ "|" +:+ df_nxx f +:+ "|" +:+ df_state f +:+ "|" +:+ df_search f.

Definition hasActive (f : DidFilterState) : bool :=
  (df_npa f !=? "") || (df_nxx f !=? "") || (df_state f !=? "") || (df_search f !=? "").

(** What the NPA and NXX boxes keep of a text. *)
Definition three_digits_of (text : string) : string := stake 3 (digits_of text).

Definition without_one (did : string) : string := if starts_with "+1" did then slice_from 2 did else did.
Definition extractNpa (did : string) : string := slice 0 3 (without_one did).
Definition extractNxx (did : string) : string := slice 3 6 (without_one did).

Definition search_matches (item : DidInventoryItem) (search : string) : bool :=
  let q := lower search in
  contains q (di_did item) || contains q (lower (default "" (di_city item)))
  || contains q (lower (default "" (di_rate_center item))) || contains q (lower (fmt (di_did item))).

Definition applyDidFilters (items : list DidInventoryItem) (f : DidFilterState) : list DidInventoryItem :=
  List.filter (λ item,
    if (df_npa f !=? "") && (extractNpa (di_did item) !=? df_npa f) then false
    else if (df_nxx f !=? "") && (extractNxx (di_did item) !=? df_nxx f) then false
    else if (df_state f !=? "") && (di_state item !=? Some (df_state f)) then false
    else if (df_search f !=? "") && negb (search_matches item (df_search f)) then false
    else true) items.

(** [[...set].sort()] *)
Definition extractStates (items : list DidInventoryItem) : list string :=
  sort_strings (unique (omap (λ i, match di_state i with Some "" | None => None | s => s end) items)).

(** [myItems], [assignedItems] and [pendingItems]. *)
Definition my_items (filterToCustomer : option Z) (all : list DidInventoryItem) : list DidInventoryItem :=
  match filterToCustomer with None => all | Some c => List.filter (λ d, di_customer_id d ==? Some c) all end.
Definition assigned_items (items : list DidInventoryItem) : list DidInventoryItem :=
  List.filter (λ d, (di_status d ==? assigned) || (di_status d ==? release_requested)) items.
Definition pending_items (items : list DidInventoryItem) : list DidInventoryItem := List.filter (λ d, di_status d ==? reserved) items.

(** ** The first rows of a list *)

(** [expandedFor] *)
Record ShowMore := {
  sm_key : string;
  sm_on : bool;
}.

Section ShowMore.
Context {T : Type} (items : list T) (limit : nat) (resetKey : string).

Definition expandedRaw (s : ShowMore) : bool := (sm_key s ==? resetKey) && sm_on s.
Definition needed : bool := (limit <? length items)%nat.
Definition expanded (s : ShowMore) : bool := needed && expandedRaw s.
Definition visible (s : ShowMore) : list T := if expanded s || negb needed then items else take limit items.
Definition hiddenCount (s : ShowMore) : nat := length items - length (visible s).
Definition toggle (s : ShowMore) : ShowMore := Build_ShowMore resetKey (negb (expandedRaw s)).
End ShowMore.

(** ** What a dashboard lists *)

Definition row_key (r : NumberRow) : string := numberKey (nr_number r).

Lemma entry_at_key key entries e : entry_at key entries = Some e → e ∈ entries ∧ numberKey (re_did e) = key.
Proof.
  unfold entry_at. intros He. assert (e ∈ List.filter (λ e, numberKey (re_did e) ==? key) entries) as Hin.
  { apply last_Some in He as (l & ->). apply elem_of_app. right. by left. }
  apply elem_of_lfilter in Hin as [? E]. by bool_hyps.
Qed.

Lemma list_row_key href entries n : row_key (list_row href entries n) = numberKey (mn_number n).
Proof.
  unfold row_key, list_row. destruct (mn_product n ==? "rcf"); [|done].
  destruct (entry_at (numberKey (mn_number n)) entries) as [e|] eqn:E; [|done]. by apply entry_at_key in E as [_ ?].
Qed.

Definition visible_number (n : MyNumber) : bool := negb (isProductHidden (Some (mn_product n))).

(** Where a row comes from. *)
Definition row_from href (entries : list RcfEntry) (numbers : list MyNumber) (r : NumberRow) : Prop :=
  (∃ n, n ∈ numbers ∧ visible_number n = true ∧ r = list_row href entries n) ∨ (∃ e, e ∈ entries ∧ r = rcfRow e).

Definition rows_ok href entries numbers (acc : list string * list NumberRow) : Prop :=
  acc.1 = List.map row_key acc.2 ∧ NoDup acc.1 ∧ ∀ r, r ∈ acc.2 → row_from href entries numbers r.

Lemma rows_ok_push href entries numbers acc r :
  rows_ok href entries numbers acc → row_key r ∉ acc.1 → row_from href entries numbers r →
  rows_ok href entries numbers (acc.1 ++ [row_key r], acc.2 ++ [r]).
Proof.
  intros (Ek & Hnd & Hf) Hn Hr. split_and!; cbn [fst snd].
  - by rewrite map_app, Ek.
  - apply NoDup_app. split_and!; [done| |by repeat constructor; apply not_elem_of_nil].
    intros k Hk ->%list_elem_of_singleton. done.
  - intros r' [?|E]%elem_of_app; [auto|]. apply list_elem_of_singleton in E as ->. done.
Qed.

Lemma fold_numbers href entries numbers l acc :
  (∀ n, n ∈ l → n ∈ numbers) → rows_ok href entries numbers acc →
  let acc' := fold_left (push_number href entries) l acc in
  rows_ok href entries numbers acc' ∧ (∀ k, k ∈ acc.1 → k ∈ acc'.1)
  ∧ ∀ n, n ∈ l → visible_number n = true → numberKey (mn_number n) ∈ acc'.1.
Proof.
  revert acc. induction l as [|n l IH]; intros [seen rows] Hl Hok; simpl; [split_and!; [done..|by intros n Hn%not_elem_of_nil]|].
  assert (∀ n, n ∈ l → n ∈ numbers) as Hl' by (intros m Hm; apply Hl; by right).
  destruct (isProductHidden (Some (mn_product n))) eqn:Eh.
  - destruct (IH (seen, rows) Hl' Hok) as (H1 & H2 & H3). split_and!; [done..|].
    intros m [->|Hm]%elem_of_cons Hv; [|auto]. unfold visible_number in Hv. by rewrite Eh in Hv.
  - destruct (includes seen (numberKey (mn_number n))) eqn:Ei.
    + destruct (IH (seen, rows) Hl' Hok) as (H1 & H2 & H3). split_and!; [done..|].
      intros m [->|Hm]%elem_of_cons Hv; [|auto]. apply H2. by apply includes_true.
    + assert (rows_ok href entries numbers (seen ++ [numberKey (mn_number n)], rows ++ [list_row href entries n])) as Hok'.
      { rewrite <- (list_row_key href entries). apply (rows_ok_push href entries numbers (seen, rows)); [done| |].
        - rewrite list_row_key. by apply includes_false.
        - left. exists n. split_and!; [apply Hl; by left|unfold visible_number; by rewrite Eh|done]. }
      destruct (IH _ Hl' Hok') as (H1 & H2 & H3). split_and!; [done|intros k Hk; apply H2; cbn [fst]; set_solver|].
      intros m [->|Hm]%elem_of_cons Hv; [|auto]. apply H2. cbn [fst]. set_solver.
Qed.

Lemma fold_entries href entries numbers l acc :
  (∀ e, e ∈ l → e ∈ entries) → rows_ok href entries numbers acc →
  let acc' := fold_left push_entry l acc in
  rows_ok href entries numbers acc' ∧ (∀ k, k ∈ acc.1 → k ∈ acc'.1) ∧ ∀ e, e ∈ l → numberKey (re_did e) ∈ acc'.1.
Proof.
  revert acc. induction l as [|e l IH]; intros [seen rows] Hl Hok; simpl; [split_and!; [done..|by intros e He%not_elem_of_nil]|].
  assert (∀ e, e ∈ l → e ∈ entries) as Hl' by (intros m Hm; apply Hl; by right).
  destruct (includes seen (numberKey (re_did e))) eqn:Ei.
  - destruct (IH (seen, rows) Hl' Hok) as (H1 & H2 & H3). split_and!; [done..|].
    intros m [->|Hm]%elem_of_cons; [|auto]. apply H2. by apply includes_true.
  - assert (rows_ok href entries numbers (seen ++ [numberKey (re_did e)], rows ++ [rcfRow e])) as Hok'.
    { apply (rows_ok_push href entries numbers (seen, rows) (rcfRow e)); [done|by apply includes_false|].
      right. exists e. split; [apply Hl; by left|done]. }
    destruct (IH _ Hl' Hok') as (H1 & H2 & H3). split_and!; [done|intros k Hk; apply H2; cbn [fst]; set_solver|].
    intros m [->|Hm]%elem_of_cons; [|auto]. apply H2. cbn [fst]. set_solver.
Qed.

(** The two lists of numbers become one: no two rows share a key, every row
    is a visible number of the account, shown from its forwarding entry when
    it has one, or an entry the list does not have yet; and every visible
    number and every entry has its row. *)
Lemma toNumberRows_ok href numbers entries :
  isHolisticNumbers (Some numbers) = true →
  let rows := (toNumberRows href (Some numbers) entries).2 in
  NoDup (List.map row_key rows)
  ∧ (∀ r, r ∈ rows → row_from href entries numbers r)
  ∧ (∀ n, n ∈ numbers → visible_number n = true → ∃ r, r ∈ rows ∧ row_key r = numberKey (mn_number n))
  ∧ (∀ e, e ∈ entries → ∃ r, r ∈ rows ∧ row_key r = numberKey (re_did e)).
Proof.
  intros Hh. unfold toNumberRows. rewrite Hh. cbn [snd].
  destruct (fold_numbers href entries numbers numbers ([], [])) as (Hok1 & _ & Hn1); [done| |].
  { split_and!; [done|constructor|by intros r Hr%not_elem_of_nil]. }
  destruct (fold_entries href entries numbers entries _ (λ e He, He) Hok1) as ((Ek & Hnd & Hf) & Hk2 & He2).
  set (acc := fold_left push_entry entries _) in *.
  assert (∀ k, k ∈ acc.1 → ∃ r, r ∈ acc.2 ∧ row_key r = k) as Hkey.
  { intros k Hk. rewrite Ek in Hk. apply elem_of_lmap in Hk as (r & -> & Hr). eauto. }
  split_and!; [by rewrite <- Ek|done|intros n Hn Hv; apply Hkey, Hk2, Hn1; done|intros e He; by apply Hkey, He2].
Qed.

(** No row is of a product that is hidden. *)
Lemma rows_visible href numbers entries r :
  isHolisticNumbers (Some numbers) = true → r ∈ (toNumberRows href (Some numbers) entries).2 →
  isProductHidden (Some (nr_product r)) = false.
Proof.
  intros Hh Hr. destruct (toNumberRows_ok href numbers entries Hh) as (_ & Hf & _).
  destruct (Hf r Hr) as [(n & _ & Hv & ->)|(e & _ & ->)]; [|done]. unfold list_row.
  destruct (mn_product n ==? "rcf"); [by destruct (entry_at _ _)|]. by apply negb_true_iff in Hv.
Qed.

(** Numbers of different countries that end in the same ten digits are one
    to the dashboard: the second has no row. *)
Lemma same_ten_digits_hidden :
  let n number product := Build_MyNumber number None product (Some true) None in
  List.map nr_number (toNumberRows None (Some [n "+16175551234" "trunk"; n "+46175551234" "voicemail"]) []).2 = ["+16175551234"].
Proof. vm_compute. reflexivity. Qed.

(** ** Counts *)

Definition total (l : list (string * Z)) : Z := foldr (λ pc t, pc.2 + t) 0 l.

Lemma total_perm l l' : l ≡ₚ l' → total l = total l'.
Proof. induction 1; simpl; lia. Qed.

Lemma total_filter_set (f : string → bool) p c m :
  total (List.filter (λ pc, f pc.1) (om_set p c m)) =
  total (List.filter (λ pc, f pc.1) m) + if f p then c - default 0 (om_get p m) else 0.
Proof.
  induction m as [|[k v] m IH]; simpl.
  - destruct (f p); simpl; lia.
  - case_bool_decide as E; [subst k|]; simpl.
    + destruct (f p); simpl; lia.
    + destruct (f k); simpl; rewrite IH; lia.
Qed.

Lemma count_total (f : string → bool) products :
  total (List.filter (λ pc, f pc.1) (countByProduct products)) = Z.of_nat (length (List.filter f products)).
Proof.
  unfold countByProduct. assert (∀ l m, total (List.filter (λ pc, f pc.1) (fold_left (λ out p, om_set p (default 0 (om_get p out) + 1) out) l m))
    = total (List.filter (λ pc, f pc.1) m) + Z.of_nat (length (List.filter f l))) as H.
  { induction l as [|p l IH]; intros m; simpl; [lia|]. rewrite IH, total_filter_set. destruct (f p); simpl; lia. }
  by rewrite H.
Qed.

Lemma count_pos products pc : pc ∈ countByProduct products → 0 < pc.2.
Proof.
  unfold countByProduct. assert (∀ l m, (∀ pc, pc ∈ m → 0 < pc.2) → ∀ pc : string * Z,
    pc ∈ fold_left (λ out p, om_set p (default 0 (om_get p out) + 1) out) l m → 0 < pc.2) as H.
  { induction l as [|p l IH]; intros m Hm; simpl; [done|]. apply IH. intros pc' [->|?]%om_set_elem; [|auto]. simpl.
    destruct (om_get p m) as [c|] eqn:E; simpl; [|lia]. apply om_get_Some_elem in E. specialize (Hm _ E). simpl in Hm. lia. }
  apply H. by intros ? ?%not_elem_of_nil.
Qed.

(** The mix counts every number of a product that is not hidden, once. *)
Lemma numberMix_total `{Locale} rows :
  total (numberMix rows) = Z.of_nat (length (List.filter (λ r, negb (isProductHidden (Some (nr_product r)))) rows)).
Proof.
  unfold numberMix, productMix. rewrite (total_perm _ _ (sort_by_perm _ _)). set (counts := countByProduct _).
  assert (List.filter (λ pc, (0 <? pc.2) && negb (isProductHidden (Some pc.1))) counts
    = List.filter (λ pc, negb (isProductHidden (Some pc.1))) counts) as ->.
  { apply List.filter_ext_in. intros pc Hpc%list_elem_of_In. apply count_pos in Hpc. by destruct (Z.ltb_spec 0 pc.2); [|lia]. }
  unfold counts. rewrite (count_total (λ p, negb (isProductHidden (Some p)))).
  f_equal. induction rows as [|r rows IH]; simpl; [done|]. destruct (negb _); simpl; by rewrite IH.
Qed.

(** ** Filters *)

Lemma no_filters_all items : applyDidFilters items no_filters = items.
Proof. by apply lfilter_all. Qed.

(** The filters are all met. *)
Lemma applyDidFilters_spec items f item :
  item ∈ applyDidFilters items f ↔
  item ∈ items ∧ (df_npa f = "" ∨ extractNpa (di_did item) = df_npa f) ∧ (df_nxx f = "" ∨ extractNxx (di_did item) = df_nxx f)
  ∧ (df_state f = "" ∨ di_state item = Some (df_state f)) ∧ (df_search f = "" ∨ search_matches item (df_search f) = true).
Proof.
  unfold applyDidFilters. rewrite elem_of_lfilter. apply and_iff_compat_l.
  repeat case_bool_decide; destruct (search_matches item (df_search f)); naive_solver.
Qed.

(** Every state that can be chosen has a number. *)
Lemma extractStates_found items st :
  st ∈ extractStates items → st ≠ "" ∧ ∃ item, item ∈ applyDidFilters items (Build_DidFilterState "" "" st "").
Proof.
  unfold extractStates. rewrite sort_strings_perm, unique_elem, list_elem_of_omap. intros (item & Hi & Hs).
  assert (di_state item = Some st ∧ st ≠ "") as [E Hne] by (destruct (di_state item) as [[|a s]|]; simplify_eq/=; done).
  split; [done|]. exists item. apply applyDidFilters_spec. naive_solver.
Qed.

(** A number in My Numbers is not pending. *)
Lemma sections_apart items d : d ∈ assigned_items items → d ∉ pending_items items.
Proof. unfold assigned_items, pending_items. rewrite !elem_of_lfilter. intros [_ E] [_ E']. bool_hyps. rewrite E' in E. done. Qed.

(** ** The first rows *)

Lemma visible_prefix {T} (items : list T) limit key s :
  ∃ rest, items = visible items limit key s ++ rest ∧ length rest = hiddenCount items limit key s
    ∧ (expanded items limit key s = false → (length (visible items limit key s) ≤ limit)%nat)
    ∧ (expanded items limit key s = true → rest = []).
Proof.
  unfold hiddenCount, visible, expanded. destruct (needed items limit && expandedRaw key s) eqn:E; simpl.
  - exists []. rewrite app_nil_r, Nat.sub_diag. by split_and!.
  - destruct (needed items limit) eqn:En; simpl.
    + exists (drop limit items). rewrite take_drop, length_drop, length_take. split_and!; [done|lia|lia|done].
    + exists []. rewrite app_nil_r, Nat.sub_diag. unfold needed in En. apply Nat.ltb_ge in En. by split_and!.
Qed.

(** Another filter starts with the first rows; pressing twice changes
    nothing. *)
Lemma toggle_key {T} (items : list T) limit key key' s :
  (key' ≠ key → expanded items limit key' (toggle key s) = false)
  ∧ expandedRaw key (toggle key (toggle key s)) = expandedRaw key s.
Proof.
  unfold expanded, toggle, expandedRaw. cbn [sm_key sm_on]. split.
  - intros Hne. rewrite bool_decide_eq_false_2 by done. apply andb_false_r.
  - rewrite !bool_decide_eq_true_2 by done. cbn [andb]. apply negb_involutive.
Qed.
